(* ===== verification/_CoqProject ===== *)
-Q . S2P
Prelude.v
Memory.v
RingBuffer.v
Bitmap.v
Bit2mapProtocol.v
RequestQueue.v
QueuePair.v
WorkQueue.v
Allocators.v
AllocatorSpec.v
SecureShmem.v
Kernel.v
KernelWorker.v
KernelPass.v
Session.v
MqTags.v
MqDriver.v
MpmcRing.v
MpmcConcurrent.v
BlockAllocator.v
UnorderedMap.v
ShmemString.v
MapBuckets.v
Namespace.v
QueuePool.v
Formatter.v
Socket.v
PosixClient.v
ModuleTable.v
IpcManager.v
UserWorker.v
ServerModules.v
ServerNamespace.v
ClientCalls.v
Registrar.v
RegistrarClient.v
ModuleClients.v
BlockFs.v
FsLog.v
ServerThreads.v
NetlinkClient.v
Partitioner.v
TimedLock.v
KernelModules.v
Binary64.v
Timer.v
QueuePairClass.v
Daemon.v
KernelStart.v
Spdk.v
ClientConnect.v
