(* ===== verification/Prelude.v ===== *)
(** * LabStor: a verification library for its shared-memory core

    LabStor is a storage platform in which client processes, a trusted
    userspace server and a kernel server exchange I/O requests over queues in
    shared memory.  This library models its C code (and the C++ classes of its
    headers) as executable Rocq definitions and proves what the code
    promises.  Paths below are relative to src/include/labstor (headers),
    src/labmods (modules) and src/src (servers).

    ** The program and the files that model it

    - Shared memory.  Structures are laid out in regions that several address
      spaces map at different addresses; links are 32-bit offsets.  [Memory]
      has the byte memory, the monad of the C code (a result, a C++
      exception, a loop that ran out of tries, a fault), its weakest
      preconditions and the offset macros of constants/macros.h.  [Prelude]
      (this file) has the machine integers, the arithmetic automation and
      lemmas on residues and lists that all files share.
    - Requests.  [RingBuffer] is the single-producer single-consumer ring of
      types/data_structures/c/shmem_request_ring_buffer.h; [RequestQueue] the
      request queue on it, queue ids and tokens, and the completion map
      (shmem_request_queue.h, shmem_request_map.h, shmem_qtok.h,
      shmem_request.h); [QueuePair] a submission queue with a completion map
      (shmem_queue_pair.h, queue_pair.h).  [QueuePairClass]: the C++ class
      that client code calls, over its virtual functions as an interface with
      the laws [QueuePairLaws], and the classes that implement it.
    - Bits and locks.  [Bitmap] is bitmap.h and bit2map.h as run by one
      thread, [Bit2mapProtocol] the compare-and-swap steps of any number of
      threads on a two-bit map.  [MpmcRing] is the locked ring of
      shmem_ring_buffer.h and the spin locks of constants/busy_wait.h,
      [MpmcConcurrent] the accesses of any number of threads to it.
    - Work queues.  [WorkQueue]: the queues of queue pairs a worker serves
      (shmem_work_queue.h, shmem_work_queue_secure.h).
    - Allocation.  [Allocators] and [AllocatorSpec]: the segment, private and
      per-core allocators of types/allocator/.  [BlockAllocator]: the disk
      blocks of LabFS (labstor_fs/lib/block_allocator.h).
    - Kernel.  [SecureShmem]: the registry of regions and permissions, mmap
      and its netlink handler (secure_shmem).  [Kernel]: the module table,
      the netlink server, the IPC manager, the work orchestrator, the block
      device table and the IPC test module.  [KernelWorker] and [KernelPass]:
      what one pass of a kernel worker does.  [Session]: a client session
      from registration to completion.  [MqTags] and [MqDriver]: the
      multi-queue block driver (mq_driver).  [KernelModules]: loading and
      unloading the modules, with the objects of the kernel that they acquire
      (socket, class, device, cache) and the threads of the workers.
      [KernelStart]: the server starts the workers of the kernel
      (server/work_orchestrator.cpp).
    - Names.  [UnorderedMap]: the shared hash map, for any bucket type that
      satisfies the class [BucketLaws]; [ShmemString] strings in shared
      memory; [MapBuckets] the int, string and inode buckets; [Namespace] the
      names of modules; [QueuePool] the queue pairs of a process by type.
    - Userspace services.  [Formatter]: error messages and the formatter
      behind them (userspace/util/serializeable.h, error.h, errors.h).
      [Socket]: the loops that move a message over a stream socket, the setup
      messages and the exchange of a connecting client with the server
      (userspace/types/socket.h, messages.h, the IPC managers of both sides).
      [ModuleTable]: module ids, the table of loaded libraries, the loading of
      repositories and the update of a module (types/basics.h,
      userspace/types/module.h, the module managers of both sides).
      [PosixClient]: the file descriptors and the routing of the POSIX calls
      (generic_posix).
    - Userspace server.  [IpcManager]: the memory of a process, the queues of
      clients, of the server and of the kernel, their registration and their
      assignment to workers (userspace/types/memory_manager.h, the IPC
      managers of both sides, server/work_orchestrator.cpp).  [UserWorker]: a
      pass of a worker (server/worker.cpp) against the interface [Handles] of
      a module, and the dummy module.  [ServerModules]: the IPC test, the block
      device table and the multi-queue driver of the server, which pass
      requests on to the kernel.  [ServerNamespace]: the namespace as the
      server makes it, with the allocator of its names
      (server/namespace.cpp).  [ServerThreads]: the socket of the server and
      the threads that accept clients, remove processes that have gone and
      replace modules (server/server.cpp, wreaper_thread.h, upgrade_thread.h).
    - Modules and their clients.  [ClientCalls]: the two halves of a call of a
      module and the pass of a worker between them.  [Registrar] and
      [RegistrarClient]: the module that registers modules and finds them
      (registrar).  [ModuleClients]: the clients of the dummy module, the IPC
      test, the block device table and the driver, one request at a time and
      in batches.  [BlockFs]: the block file system and the no-op scheduler
      (block_fs, no_op).  [FsLog]: the log of LabFS
      (labstor_fs/lib/labstor_fs_log.h).
    - Requests of a process to the kernel.  [NetlinkClient]: messages over the
      netlink socket (src/kernel/client/kernel_client.cpp) and the clients of
      the shared memory, the IPC manager and the work orchestrator on them.
      [ClientConnect]: a client connects to the server
      (client/ipc_manager.cpp).
    - Devices in userspace.  [Spdk]: the queue pair over an NVMe device and the
      search for devices (spdk); the library behind it is the class [Nvme] with
      the laws [NvmeLaws].
    - Time and threads.  [Binary64]: the doubles of the timers and the integers
      that they hold exactly.  [Timer]: the timers (userspace/util/timer.h) and
      the macros of constants/busy_wait.h on them.  [Daemon]: the thread behind
      a worker of the server (userspace/types/userspace_daemon.h, types/daemon.h).
    - Utilities.  [Partitioner]: the processors of a process
      (userspace/util/partitioner.h, util/partitioner.cpp).  [TimedLock]: the
      spin lock with a time limit (userspace/types/shmem_spinlock.h), as steps
      of threads.

    ** How the code is translated

    A C function is a definition of the same name; a C++ member function
    [c::f] is [c_f].  A struct in shared memory is its field offsets (named
    with a prefix of the struct, as [rbh_enqueued_]); a handle that a process
    keeps privately is a record.  Integers are [Z] with the conversion of
    their type ([u32], [s32], ...) after each operation that can leave its
    range.  Division by zero and an access outside the mapped memory are the
    outcome [Fault].  Branches on the build ([KERNEL_BUILD] or C++) are an
    argument of type [build].  The options ENABLE_LOCKING,
    LABSTOR_YIELD_SPINWAIT and LABSTOR_MEM_DEBUG, which no build file sets,
    are off.  Kernel code that is not in the repository (the block layer,
    vmalloc, kthreads, blkdev_get_by_path, the scalable bitmaps) is a
    parameter of the definitions that call it, with its documented behaviour
    as hypotheses (for example the class [SbitmapLaws]); every theorem with
    such a hypothesis has an instance with a concrete function.

    ** What is proved

    Each theorem's comment says under which conditions it holds; where the code
    does not check a condition, a lemma of the file's section Limits shows what
    happens without it.
    - Refinements: a ring is a bounded FIFO queue (C1) and its initialisation
      accepts exactly what its 32-bit size check says (C2), a queue pair is a
      numbered FIFO with one completion per token within a window of as many
      ids as it has places (C6), a queue pair over a device gives back what the
      device called back while the outstanding tokens have buckets of their own
      (C3), a secure work queue is an append-only list (C8), the hash map,
      without removals, keeps the first value of a key (C19).
    - Concurrency, for every interleaving: one thread at a time inside an
      entry of a two-bit map (C4), whose entries follow their life cycle (C23);
      the locked ring loses, repeats and tears nothing (C17).
    - Start and stop: messages reach the modules that are loaded and no others
      (C5); the workers of the kernel are started as the configuration says and
      can be unloaded again (C20); a daemon runs whole passes of its worker
      and stops (C22).
    - Time: the sums of a timer are exact below 2^53 nanoseconds (C7), and a
      wait with a limit ends (C35).
    - Ownership: the objects of the allocators (C9, C10), driver tags (C14)
      and disk blocks (C18) are disjoint and held by one owner at a time, and
      an allocation fails only when nothing is left.
    - Access control: a process maps a region only after the server granted
      it (C11).
    - Service: one pass of a kernel worker answers every queued request of the
      IPC test and of unknown modules (C12); a client session gets its requests
      back (C13); every outcome of issuing a request to a hardware queue (C15);
      a request to the block driver within its limits is completed once (C16).
    - Names: strings are shared faithfully (C21).
    - Userspace services: formatting fills the placeholders in order and is
      defined exactly when the result fits its buffer (C24); the messages of a
      connecting client arrive however the socket splits them (C25); the
      search for the module of a path ends with the longest name (C26) and
      open and read go to that module for a new descriptor (C27); ids are sound
      keys of a hash map (C28); loading repositories enters every library under
      the id it reports, when these ids are distinct and new (C29).
    - Userspace server: a memory configuration that is accepted, of sizes below
      2^32 bytes, divides the region into requests and queues, and the queues
      fit (C30); the queues of a client reach the pool of the server and
      the workers (C31); a pass of a worker serves every queue up to the
      first request that a module puts off, for known modules that keep the
      contract [Handles] (C32); a request of the IPC test
      goes to the kernel and comes back with its answer (C33); a pass of the
      reaper ends exactly when it waits for no one (C39).
    - Calls from end to end: a sequence of calls of the registrar behaves as a
      table of names (C34), a batch of requests of the dummy client is served
      and freed (C36), and a sequence of calls of the shared-memory client over
      netlink returns the codes of the specification of the kernel module
      (C40).
    - The log of LabFS: ids of inodes are unique (C37), and the entries of a
      core lie inside its log and keep their places and sizes, while there is
      room (C38).
    Further theorems without a number: a bitmap is a set, a queue pair can be
    attached elsewhere, client code over the base class of queue pairs sees the
    queue pair of the specification, a pass of a kernel worker serves every
    module that keeps the contract [Serves], the hash map behaves with removals
    as the array that its probing defines, a namespace numbers its keys, the queue
    pool finds queue pairs, the namespace of a server starts with the registrar,
    the outcome of connecting, the affinity of a daemon.
    Sections named Limits have lemmas about inputs on which the code does not
    do what it is meant to.

    ** Bounds and fuel

    A compare-and-swap loop and an infinite spin loop take a number of tries:
    one is enough when no other thread runs, which is what the sequential
    theorems need (0 < fuel); interleavings are treated with step relations
    without fuel.  The loop of [unordered_map_Remove] needs at most
    n + iters + 1 rounds on a map that is not empty, and the theorem asks for
    that many.  A loop of the kernel worker runs a given number of passes.
    A receive or send loop takes one round per entry of a schedule that says
    how many bytes the socket moves at each call; as many moves as the message
    has bytes are enough.  The search for a module takes one round more than
    the path has characters.  A pass of a userspace worker runs as many rounds
    per queue as the depth it read, as the code does.  A pass of the reaper
    has no bound in the code: it takes fuel, and C39 says for which processes
    some amount is enough and for which none is.
    The clock of a timed wait is a function from the number of the reading to
    nanoseconds, and the wait takes one round more than the readings that C35
    asks for; the threads of the kernel workers run as a schedule says, two steps
    each once they are told to stop; a daemon takes the number of steps of its
    thread.  The search for the namespaces of a device takes one round for each.
    Ring counters are 32 bits wide: theorems about rings assume that the
    depth divides 2^32 or that the counters do not wrap.  Sums of times are
    doubles: theorems about timers assume that they stay below 2^53, those about
    timed waits that the clock advances by less than 2^52.

    ** What is not modelled

    Debugging output and the YAML documents of the configuration are input and
    output of the host: the values that are read are parameters.  The path
    parser replaces environment variables with regular expressions of the C++
    library.  main of the server calls the operations of the components in
    order, and Register of the module clients passes the values of a document
    to the registrar client.  The server of LabFS, LRU and the functions of the
    log on inodes are unfinished: members without a body, functions that do not
    return, calls of functions that do not exist; there is no behaviour to
    model.  Pausing and resuming queues and workers has empty bodies.  The
    drivers under .old are of an earlier version that the build does not use. *)

From stdpp Require Export base tactics numbers list gmap.
From Stdlib Require Export ZArith Lia.

Local Open Scope Z_scope.

(** ** Machine integers

    A w-bit C integer is a [Z]; every operation that can leave the range of
    its type is followed by the explicit conversion of that type. *)

Definition u8 (x : Z) : Z := x mod 2 ^ 8.
Definition u16 (x : Z) : Z := x mod 2 ^ 16.
Definition u32 (x : Z) : Z := x mod 2 ^ 32.
Definition u64 (x : Z) : Z := x mod 2 ^ 64.
Definition s32 (x : Z) : Z := (x + 2 ^ 31) mod 2 ^ 32 - 2 ^ 31.

(** Reading a 32-bit pattern as a signed integer and back. *)

Definition s32_bits (x : Z) : Z := x mod 2 ^ 32.

Declare Scope labstor_scope.
Delimit Scope labstor_scope with labstor.

(** ** Arithmetic automation *)

(** [mod_lia] closes linear goals that mention [/] and [mod] by literals,
    after unfolding the integer conversions. *)
Ltac mod_lia :=
  unfold u8, u16, u32, u64, s32, s32_bits in *;
  Z.div_mod_to_equations; lia.

(** ** The conversions *)

Lemma u32_range x : 0 <= u32 x < 2 ^ 32.
Proof. mod_lia. Qed.

Lemma u32_small x : 0 <= x < 2 ^ 32 → u32 x = x.
Proof. intros; unfold u32; by apply Z.mod_small. Qed.

Lemma u32_idemp x : u32 (u32 x) = u32 x.
Proof. apply u32_small, u32_range. Qed.

Lemma u32_add_l x y : u32 (u32 x + y) = u32 (x + y).
Proof. unfold u32. by rewrite Zplus_mod_idemp_l. Qed.

Lemma u32_sub_l x y : u32 (u32 x - y) = u32 (x - y).
Proof. unfold u32. by rewrite Zminus_mod_idemp_l. Qed.

Lemma s32_range x : - 2 ^ 31 <= s32 x < 2 ^ 31.
Proof. mod_lia. Qed.

Lemma s32_small x : - 2 ^ 31 <= x < 2 ^ 31 → s32 x = x.
Proof. mod_lia. Qed.

Lemma s32_bits_range x : 0 <= s32_bits x < 2 ^ 32.
Proof. mod_lia. Qed.

Lemma s32_of_bits x : - 2 ^ 31 <= x < 2 ^ 31 → s32 (s32_bits x) = x.
Proof. mod_lia. Qed.

Lemma u64_small x : 0 <= x < 2 ^ 64 → u64 x = x.
Proof. intros; unfold u64; by apply Z.mod_small. Qed.

Create HintDb labstor.

(** Struct offsets and sizes are declared as [Hint Unfold] in [layout]. *)
Create HintDb layout.

#[export] Hint Resolve u32_range s32_range s32_bits_range : labstor.

(** ** Residues of a window of consecutive integers

    [n] consecutive integers have pairwise different residues modulo [n]:
    the fact behind every ring index in the program. *)

Lemma mod_window_inj n d i j :
  0 < n → 0 <= i < n → 0 <= j < n →
  (d + i) mod n = (d + j) mod n → i = j.
Proof.
  intros Hn Hi Hj E.
  pose proof (Z.div_mod (d + i) n ltac:(lia)) as Ei.
  pose proof (Z.div_mod (d + j) n ltac:(lia)) as Ej.
  rewrite E in Ei. set (a := (d + i) / n) in *. set (b := (d + j) / n) in *.
  assert (i - j = n * (a - b)) as H by lia.
  assert (a - b = 0) by nia. lia.
Qed.

Lemma mod_mod_divide x a b : 0 < b → (a | b) → (x mod b) mod a = x mod a.
Proof.
  intros Hb [k ->]. rewrite (Z.mod_eq x (k * a)) by lia.
  replace (x - k * a * (x / (k * a))) with (x + (- (k * (x / (k * a)))) * a) by ring.
  apply Z_mod_plus_full.
Qed.

(** ** Lists *)

Lemma lookup_snoc {A} (l : list A) x i y :
  (l ++ [x]) !! i = Some y ↔ l !! i = Some y ∨ (i = length l ∧ y = x).
Proof.
  destruct (decide (i < length l)%nat) as [Hlt|Hge].
  - rewrite lookup_app_l by done. split; [by left|].
    intros [?|[-> _]]; [done|lia].
  - rewrite lookup_app_r by lia. split.
    + intros [Hi Hy]%list_lookup_singleton_Some. right. split; [lia|done].
    + intros [H%lookup_lt_Some|[-> ->]]; [lia|]. by rewrite Nat.sub_diag.
Qed.
