(* ===== verification/Memory.v ===== *)
(** * Memory.v: byte memory and the monad of the C code

    The shared-memory structures of LabStor are C structs laid out in a region
    that several address spaces map; the code reaches them through pointers,
    so the model has a byte-addressed memory with little-endian accesses of
    1, 2, 4 and 8 bytes.  An access to an address that is not mapped, and a
    division by zero, is undefined behaviour in C: the outcome [Fault].
    [Throw] is a C++ exception (the userspace build), [Spin] is a busy-wait
    loop that used up the given number of iterations.

    Also here: the pointer macros of include/labstor/constants/macros.h. *)

From S2P Require Import Prelude.

Local Open Scope Z_scope.

(** ** Bytes *)

Abbreviation mem := (gmap Z Z).

(** [validb m p n]: the [n] bytes from [p] are mapped. *)
Fixpoint validb (m : mem) (p : Z) (n : nat) : bool :=
  match n with
  | O => true
  | S n' => match m !! p with Some _ => validb m (p + 1) n' | None => false end
  end.

(** The little-endian value of the [n] bytes from [p]. *)
Fixpoint read (n : nat) (p : Z) (m : mem) : Z :=
  match n with
  | O => 0
  | S n' => default 0 (m !! p) mod 256 + 256 * read n' (p + 1) m
  end.

Fixpoint write (n : nat) (p v : Z) (m : mem) : mem :=
  match n with
  | O => m
  | S n' => <[p := v mod 256]> (write n' (p + 1) (v / 256) m)
  end.

(** [valid m p n]: the same with a [Z] length, as a proposition. *)
Definition valid (m : mem) (p n : Z) : Prop :=
  ∀ a, p <= a < p + n → is_Some (m !! a).

(** The addresses of the [n] bytes from [p], and a union of address sets. *)
Definition span (p n : Z) : Z → Prop := λ a, p <= a < p + n.
Definition both (P Q : Z → Prop) : Z → Prop := λ a, P a ∨ Q a.

(** [modifies P m m']: [m'] maps the same addresses as [m] and differs from
    it at most on the bytes stored at the addresses in [P]. *)
Definition modifies (P : Z → Prop) (m m' : mem) : Prop :=
  ∀ a, (is_Some (m' !! a) ↔ is_Some (m !! a)) ∧ (¬ P a → m' !! a = m !! a).

(** ** The monad *)

Inductive outcome (A : Type) : Type :=
| Ret (a : A) (m : mem)
| Throw (code : Z) (m : mem)
| Spin (m : mem)
| Fault.
Arguments Ret {A} a m.
Arguments Throw {A} code m.
Arguments Spin {A} m.
Arguments Fault {A}.

Definition M (A : Type) : Type := mem → outcome A.

#[export] Instance M_ret : MRet M := λ A a m, Ret a m.
#[export] Instance M_bind : MBind M := λ A B f c m,
  match c m with
  | Ret a m' => f a m'
  | Throw e m' => Throw e m'
  | Spin m' => Spin m'
  | Fault => Fault
  end.

Definition throw {A} (code : Z) : M A := λ m, Throw code m.
Definition fault {A} : M A := λ _, Fault.

Definition load (n : nat) (p : Z) : M Z := λ m,
  if validb m p n then Ret (read n p m) m else Fault.

Definition store (n : nat) (p v : Z) : M unit := λ m,
  if validb m p n then Ret tt (write n p v m) else Fault.

Abbreviation load8 := (load 1).
Abbreviation load16 := (load 2).
Abbreviation load32 := (load 4).
Abbreviation load64 := (load 8).
Abbreviation store8 := (store 1).
Abbreviation store16 := (store 2).
Abbreviation store32 := (store 4).
Abbreviation store64 := (store 8).

(** An [int32_t] object. *)
Definition load_s32 (p : Z) : M Z := x ← load32 p; mret (s32 x).
Definition store_s32 (p v : Z) : M unit := store32 p (s32_bits v).

(** [a % b] and [a / b] on unsigned integers. *)
Definition umod (a b : Z) : M Z := if b =? 0 then fault else mret (a mod b).
Definition udiv (a b : Z) : M Z := if b =? 0 then fault else mret (a / b).

(** [memset(p, c, n)]: the value [c] is converted to [unsigned char]. *)
Fixpoint memset (p c : Z) (n : nat) : M unit :=
  match n with
  | O => mret tt
  | S n' => _ ← store8 p (u8 c); memset (p + 1) c n'
  end.

(** [LABSTOR_INF_SPINWAIT]: the body is tried until it returns; [fuel] bounds
    the number of tries. *)
Fixpoint inf_spinwait {A} (fuel : nat) (body : M (option A)) : M A :=
  match fuel with
  | O => λ m, Spin m
  | S fuel' =>
      r ← body;
      match r with Some a => mret a | None => inf_spinwait fuel' body end
  end.

(** [LABSTOR_TIMED_SPINWAIT] with a body that returns from the function on
    success: [tries] is the number of tries the clock allows, [None] that the
    wait timed out. *)
Fixpoint timed_spinwait {A} (tries : nat) (body : M (option A)) : M (option A) :=
  match tries with
  | O => mret None
  | S tries' =>
      r ← body;
      match r with Some a => mret (Some a) | None => timed_spinwait tries' body end
  end.

(** ** Pointer macros *)

(** A pointer difference is truncated to [labstor_off_t], an [int32_t]. *)
Definition LABSTOR_REGION_SUB (ptr region : Z) : Z := s32 (u64 (ptr - region)).
Definition LABSTOR_REGION_ADD (off region : Z) : Z := region + off.

(** The two builds of the C code: the kernel build reports a bad size by
    returning [false], the userspace (C++) build throws. *)
Inductive build := Kernel | Userspace.

#[export] Instance build_eq_dec : EqDecision build.
Proof. solve_decision. Defined.

(** ** Total-correctness weakest precondition

    [wp c Q m]: run from [m], [c] returns (no fault, no exception, no
    spinning) and its result and final memory satisfy [Q]. *)
Definition wp {A} (c : M A) (Q : A → mem → Prop) (m : mem) : Prop :=
  match c m with Ret a m' => Q a m' | _ => False end.

(** ** Facts about bytes *)

Lemma validb_valid m p n : validb m p n = true ↔ valid m p (Z.of_nat n).
Proof.
  revert p. induction n as [|n IH]; intros p; simpl.
  - split; [|done]. intros _ a Ha. lia.
  - split.
    + destruct (m !! p) as [b|] eqn:E; [|done]. intros H%IH a Ha.
      destruct (decide (a = p)) as [->|]; [by eauto|]. apply H. lia.
    + intros H. destruct (H p) as [b ->]; [lia|]. apply IH. intros a Ha. apply H. lia.
Qed.

Lemma valid_sub m p n q k : valid m p n → p <= q → q + k <= p + n → valid m q k.
Proof. intros H ?? a Ha. apply H. lia. Qed.

Lemma lookup_write n p v m a :
  write n p v m !! a =
    if decide (p <= a < p + Z.of_nat n) then Some (v / 256 ^ (a - p) mod 256) else m !! a.
Proof.
  revert p v. induction n as [|n IH]; intros p v; simpl write.
  - case_decide; [lia|done].
  - destruct (decide (a = p)) as [->|Hne].
    + rewrite lookup_insert_eq, decide_True by lia.
      by rewrite Z.sub_diag, Z.pow_0_r, Z.div_1_r.
    + rewrite lookup_insert_ne, IH by done.
      case_decide; [rewrite decide_True by lia|rewrite decide_False by lia; done].
      rewrite Z.div_div by lia. do 3 f_equal.
      replace (a - p) with (Z.succ (a - (p + 1))) by lia. rewrite Z.pow_succ_r; lia.
Qed.

Lemma valid_write m n p v q k : valid m q k → valid (write n p v m) q k.
Proof. intros H a Ha. rewrite lookup_write. case_decide; eauto. Qed.

Lemma read_ext n p m m' :
  (∀ a, p <= a < p + Z.of_nat n → m' !! a = m !! a) → read n p m' = read n p m.
Proof.
  revert p. induction n as [|n IH]; intros p H; simpl; [done|].
  rewrite H by lia. rewrite IH; [done|]. intros a Ha. apply H. lia.
Qed.

Lemma read_range n p m : 0 <= read n p m < 256 ^ Z.of_nat n.
Proof.
  revert p. induction n as [|n IH]; intros p; simpl read; [done|].
  rewrite Nat2Z.inj_succ, Z.pow_succ_r by lia.
  pose proof (Z.mod_pos_bound (default 0 (m !! p)) 256). specialize (IH (p + 1)). lia.
Qed.

Lemma read_bytes n p v m :
  (∀ a, p <= a < p + Z.of_nat n → m !! a = Some (v / 256 ^ (a - p) mod 256)) →
  read n p m = v mod 256 ^ Z.of_nat n.
Proof.
  revert p v. induction n as [|n IH]; intros p v H; simpl read.
  - by rewrite Z.mod_1_r.
  - rewrite (IH (p + 1) (v / 256)).
    + rewrite H by lia. rewrite Z.sub_diag, Z.pow_0_r, Z.div_1_r. simpl default.
      rewrite Zmod_mod, Nat2Z.inj_succ, Z.pow_succ_r, Z.rem_mul_r by lia. done.
    + intros a Ha. rewrite H by lia. rewrite Z.div_div by lia. do 3 f_equal.
      replace (a - p) with (Z.succ (a - (p + 1))) by lia. rewrite Z.pow_succ_r; lia.
Qed.

Lemma read_write_same n p v m : read n p (write n p v m) = v mod 256 ^ Z.of_nat n.
Proof. apply read_bytes. intros a Ha. by rewrite lookup_write, decide_True. Qed.

Lemma read_write_other n p k q v m :
  p + Z.of_nat n <= q ∨ q + Z.of_nat k <= p → read n p (write k q v m) = read n p m.
Proof. intros H. apply read_ext. intros a Ha. by rewrite lookup_write, decide_False by lia. Qed.

Lemma read8_write p v m : read 1 p (write 1 p v m) = u8 v.
Proof. apply read_write_same. Qed.
Lemma read16_write p v m : read 2 p (write 2 p v m) = u16 v.
Proof. apply read_write_same. Qed.
Lemma read32_write p v m : read 4 p (write 4 p v m) = u32 v.
Proof. apply read_write_same. Qed.
Lemma read64_write p v m : read 8 p (write 8 p v m) = u64 v.
Proof. apply read_write_same. Qed.

Lemma read32_range p m : 0 <= read 4 p m < 2 ^ 32.
Proof. apply (read_range 4). Qed.
#[export] Hint Resolve read32_range : labstor.

#[global] Arguments read : simpl never.
#[global] Arguments write : simpl never.
#[global] Arguments validb : simpl never.

(** ** Memories that agree outside a set of addresses *)

Lemma modifies_refl P m : modifies P m m.
Proof. split; done. Qed.

Lemma modifies_trans P m1 m2 m3 : modifies P m1 m2 → modifies P m2 m3 → modifies P m1 m3.
Proof.
  intros H1 H2 a. destruct (H1 a) as [V1 E1], (H2 a) as [V2 E2]. split.
  - by rewrite V2.
  - intros Ha. rewrite E2, E1; done.
Qed.

Lemma modifies_weaken (P Q : Z → Prop) m m' : modifies P m m' → (∀ a, P a → Q a) → modifies Q m m'.
Proof. intros H HPQ a. destruct (H a) as [V E]. split; [done|]. intros ?. apply E. auto. Qed.

Lemma modifies_write (P : Z → Prop) n p v m :
  valid m p (Z.of_nat n) → (∀ a, p <= a < p + Z.of_nat n → P a) → modifies P m (write n p v m).
Proof.
  intros Hv HP a. rewrite lookup_write. case_decide; split; try done.
  - split; [|by eauto]. intros _. by apply Hv.
  - intros []; auto.
Qed.

(** One more store at the end of a sequence of updates. *)
Lemma modifies_then_write (P : Z → Prop) n p v m m' :
  modifies P m m' → valid m' p (Z.of_nat n) → (∀ a, p <= a < p + Z.of_nat n → P a) →
  modifies P m (write n p v m').
Proof. intros. eapply modifies_trans; [done|]. by apply modifies_write. Qed.

Lemma read_modifies P m m' n p :
  modifies P m m' → (∀ a, p <= a < p + Z.of_nat n → ¬ P a) → read n p m' = read n p m.
Proof. intros H HP. apply read_ext. intros a Ha. apply H. auto. Qed.

Lemma valid_modifies P m m' p n : modifies P m m' → valid m p n → valid m' p n.
Proof. intros H Hv a Ha. by apply (H a), Hv. Qed.

#[export] Hint Resolve modifies_refl : labstor.

(** ** The rules of [wp] *)

Section wp_rules.
Context {A B : Type}.
Implicit Types (m : mem).

Lemma wp_ret (a : A) Q m : Q a m → wp (mret a) Q m.
Proof. done. Qed.

Lemma wp_bind (c : M A) (k : A → M B) Q m :
  wp c (λ a m', wp (k a) Q m') m → wp (c ≫= k) Q m.
Proof. unfold wp, mbind, M_bind. by destruct (c m). Qed.

Lemma wp_bind_inv (c : M A) (k : A → M B) Q m :
  wp (c ≫= k) Q m → wp c (λ a m', wp (k a) Q m') m.
Proof. unfold wp, mbind, M_bind. by destruct (c m). Qed.

Lemma wp_mono (c : M A) (P Q : A → mem → Prop) m :
  wp c P m → (∀ a m', P a m' → Q a m') → wp c Q m.
Proof. unfold wp. destruct (c m); auto. Qed.

Lemma wp_run (c : M A) Q m : wp c Q m ↔ ∃ a m', c m = Ret a m' ∧ Q a m'.
Proof.
  unfold wp. split.
  - destruct (c m) as [a m'| | |]; [eauto|done..].
  - by intros (a & m' & -> & HQ).
Qed.

(** Evaluation of a sequence whose first part is known. *)
Lemma run_bind (c : M A) (k : A → M B) a m m' : c m = Ret a m' → (c ≫= k) m = k a m'.
Proof. intros H. unfold mbind, M_bind. by rewrite H. Qed.

Lemma wp_bind_run (c : M A) (k : A → M B) a Q m m' : c m = Ret a m' → wp (k a) Q m' → wp (c ≫= k) Q m.
Proof. intros Hc HQ. unfold wp. by rewrite (run_bind _ _ _ _ _ Hc). Qed.

(** Sequences whose continuations agree. *)
Lemma bind_ext (c : M A) (k1 k2 : A → M B) m :
  (∀ a m', k1 a m' = k2 a m') → (c ≫= k1) m = (c ≫= k2) m.
Proof. intros Hk. unfold mbind, M_bind. destruct (c m); [apply Hk|done..]. Qed.

(** A computation whose result and final memory are known. *)
Lemma wp_exact (c : M A) a m m' : wp c (λ a' m'', a' = a ∧ m'' = m') m → c m = Ret a m'.
Proof. intros (a' & m'' & -> & -> & ->)%wp_run. done. Qed.
End wp_rules.

Lemma wp_load n p Q m : valid m p (Z.of_nat n) → Q (read n p m) m → wp (load n p) Q m.
Proof. intros H%validb_valid HQ. unfold wp, load. by rewrite H. Qed.

Lemma wp_store n p v Q m :
  valid m p (Z.of_nat n) → Q tt (write n p v m) → wp (store n p v) Q m.
Proof. intros H%validb_valid HQ. unfold wp, store. by rewrite H. Qed.

Lemma wp_load_s32 p Q m : valid m p 4 → Q (s32 (read 4 p m)) m → wp (load_s32 p) Q m.
Proof. intros H HQ. apply wp_bind, wp_load; done. Qed.

Lemma wp_store_s32 p v Q m :
  valid m p 4 → Q tt (write 4 p (s32_bits v) m) → wp (store_s32 p v) Q m.
Proof. intros. by apply wp_store. Qed.

Lemma wp_umod a b Q m : b ≠ 0 → Q (a mod b) m → wp (umod a b) Q m.
Proof. intros Hb HQ. unfold umod. rewrite (proj2 (Z.eqb_neq b 0) Hb). done. Qed.

Lemma wp_udiv a b Q m : b ≠ 0 → Q (a / b) m → wp (udiv a b) Q m.
Proof. intros Hb HQ. unfold udiv. rewrite (proj2 (Z.eqb_neq b 0) Hb). done. Qed.

(** A spin loop returns on the first try that succeeds. *)
Lemma wp_inf_spinwait {A} fuel (body : M (option A)) (Q : A → mem → Prop) m :
  (0 < fuel)%nat →
  wp body (λ r m', ∃ a, r = Some a ∧ Q a m') m → wp (inf_spinwait fuel body) Q m.
Proof.
  intros Hf H. destruct fuel as [|fuel]; [lia|]. simpl.
  apply wp_bind. eapply wp_mono; [exact H|]. intros r m' (a & -> & HQ). done.
Qed.

Lemma wp_memset p c n m :
  valid m p (Z.of_nat n) →
  wp (memset p c n) (λ _ m', modifies (span p (Z.of_nat n)) m m' ∧
     ∀ a, p <= a < p + Z.of_nat n → m' !! a = Some (u8 c)) m.
Proof.
  revert p m. induction n as [|n IH]; intros p m Hv; simpl.
  - apply wp_ret. split; [auto with labstor|]. intros; lia.
  - apply wp_bind, wp_store; [by apply (valid_sub _ _ _ _ _ Hv); lia|].
    eapply wp_mono.
    { apply IH, valid_write. apply (valid_sub _ _ _ _ _ Hv); lia. }
    intros _ m' [Hs Hb]. split.
    + eapply modifies_trans.
      * apply (modifies_write _ 1 p (u8 c)); [|unfold span; lia].
        apply (valid_sub _ _ _ _ _ Hv); lia.
      * eapply modifies_weaken; [exact Hs|]. unfold span; lia.
    + intros a Ha. destruct (decide (a = p)) as [->|]; [|apply Hb; lia].
      destruct (Hs p) as [_ ->]; [|unfold span; lia].
      rewrite lookup_write, decide_True, Z.sub_diag, Z.div_1_r by lia.
      f_equal. mod_lia.
Qed.

(** ** Symbolic execution

    [vsolve] proves that a range is mapped from a hypothesis about a range
    that contains it; [mem_simpl] evaluates reads of updated memories;
    [wp_step] applies one rule of [wp]. *)

Ltac vsolve :=
  repeat apply valid_write;
  first
    [ assumption
    | match goal with
      | H : valid ?m ?p ?n |- valid ?m ?q ?k =>
          apply (valid_sub m p n q k H); autounfold with layout in *; simpl; lia
      end ].

Create Rewrite HintDb mem.
#[export] Hint Rewrite read8_write read16_write read32_write read64_write : mem.
#[export] Hint Rewrite read_write_other using (autounfold with layout in *; simpl; lia) : mem.
#[export] Hint Rewrite u32_small u64_small using lia : mem.

(** [msolve] proves a [modifies] goal about a chain of writes. *)
Ltac msolve :=
  repeat (apply modifies_then_write;
          [ | vsolve | autounfold with layout in *; unfold both, span; simpl; intros; lia ]);
  first [ apply modifies_refl | eassumption ].

Ltac mem_simpl := autorewrite with mem in *.

Ltac wp_step :=
  lazymatch goal with
  | |- wp (mret _) _ _ => apply wp_ret
  | |- wp (_ ≫= _) _ _ => apply wp_bind
  | |- wp (load _ _) _ _ => apply wp_load; [vsolve|]
  | |- wp (store _ _ _) _ _ => apply wp_store; [vsolve|]
  | |- wp (load_s32 _) _ _ => apply wp_load_s32; [vsolve|]
  | |- wp (store_s32 _ _) _ _ => apply wp_store_s32; [vsolve|]
  | |- wp (umod _ _) _ _ => apply wp_umod; [lia|]
  | |- wp (udiv _ _) _ _ => apply wp_udiv; [lia|]
  end.

Ltac wp_go := repeat (wp_step; cbv beta).

(** ** Pointer macros *)

(** An address less than 2 GiB from the base survives the trip through a
    [labstor_off_t]. *)
Lemma region_add_sub p region :
  0 <= p < 2 ^ 64 → 0 <= region < 2 ^ 64 → - 2 ^ 31 <= p - region < 2 ^ 31 →
  LABSTOR_REGION_ADD (LABSTOR_REGION_SUB p region) region = p.
Proof. unfold LABSTOR_REGION_ADD, LABSTOR_REGION_SUB. mod_lia. Qed.

Lemma region_sub_range p region : - 2 ^ 31 <= LABSTOR_REGION_SUB p region < 2 ^ 31.
Proof. unfold LABSTOR_REGION_SUB. mod_lia. Qed.
#[export] Hint Resolve region_sub_range : labstor.

Lemma region_sub_small p region :
  0 <= p - region < 2 ^ 31 → LABSTOR_REGION_SUB p region = p - region.
Proof. unfold LABSTOR_REGION_SUB. mod_lia. Qed.

(** ** Concrete memories *)

(** [n] mapped bytes of value 0 from [p]. *)
Definition zero_region (p : Z) (n : nat) : mem := write n p 0 ∅.

Lemma valid_zero_region p n : valid (zero_region p n) p (Z.of_nat n).
Proof.
  intros a Ha. unfold zero_region. rewrite lookup_write, decide_True by lia. eauto.
Qed.
