(* ===== verification/RingBuffer.v ===== *)
(** * RingBuffer.v: the request ring buffer

    include/labstor/types/data_structures/c/shmem_request_ring_buffer.h, in the
    configuration the build uses (ENABLE_LOCKING is not defined).  The ring is
    the transport under the request queues and the free lists of the
    allocators.  The counters [enqueued_] and [dequeued_] are free-running
    [uint32_t]s; a slot is the counter modulo [max_depth_].

    [rb_rep] relates a ring in memory to the list of offsets it holds, and
    [fifo_run] is the bounded FIFO the ring implements. *)

From S2P Require Import Prelude Memory.

Local Open Scope Z_scope.

(** ** Data *)

(** Layout of [struct LABSTOR_RING_BUFFER_OFF_T_SPSC_Header]. *)
Definition rbh_enqueued_ : Z := 0.
Definition rbh_dequeued_ : Z := 4.
Definition rbh_max_depth_ : Z := 8.
Definition sizeof_rb_header : Z := 12.
Definition sizeof_labstor_off_t : Z := 4.

(** [struct labstor_request_ring_buffer]: a handle of two pointers. *)
Record labstor_request_ring_buffer := {
  rb_header_ : Z;
  rb_queue_ : Z
}.

Definition INVALID_RING_BUFFER_SIZE : Z := 300.

(** ** Operations *)

Definition labstor_request_ring_buffer_GetSize_global (max_depth : Z) : Z :=
  u32 (sizeof_rb_header + sizeof_labstor_off_t * max_depth).

Definition labstor_request_ring_buffer_GetSize (rbuf : labstor_request_ring_buffer) : M Z :=
  max_depth ← load32 (rb_header_ rbuf + rbh_max_depth_);
  mret (labstor_request_ring_buffer_GetSize_global max_depth).

Definition labstor_request_ring_buffer_GetRegion (rbuf : labstor_request_ring_buffer) : Z :=
  rb_header_ rbuf.

Definition labstor_request_ring_buffer_GetNextSection (rbuf : labstor_request_ring_buffer) : M Z :=
  size ← labstor_request_ring_buffer_GetSize rbuf;
  mret (rb_header_ rbuf + size).

Definition labstor_request_ring_buffer_GetDepth (rbuf : labstor_request_ring_buffer) : M Z :=
  enqueued ← load32 (rb_header_ rbuf + rbh_enqueued_);
  dequeued ← load32 (rb_header_ rbuf + rbh_dequeued_);
  mret (u32 (enqueued - dequeued)).

Definition labstor_request_ring_buffer_GetMaxDepth (rbuf : labstor_request_ring_buffer) : M Z :=
  load32 (rb_header_ rbuf + rbh_max_depth_).

(** A size error: the C++ build throws, the kernel build returns [false]. *)
Definition ring_size_error (b : build) (rbuf : labstor_request_ring_buffer)
    : M (labstor_request_ring_buffer * bool) :=
  match b with
  | Userspace => throw INVALID_RING_BUFFER_SIZE
  | Kernel => mret (rbuf, false)
  end.

(** [queue_] is assigned only when the initialisation succeeds. *)
Definition labstor_request_ring_buffer_Init (b : build) (rbuf : labstor_request_ring_buffer)
    (region region_size max_depth : Z) : M (labstor_request_ring_buffer * bool) :=
  let rbuf := {| rb_header_ := region; rb_queue_ := rb_queue_ rbuf |} in
  _ ← store32 (region + rbh_enqueued_) 0;
  _ ← store32 (region + rbh_dequeued_) 0;
  if region_size <? labstor_request_ring_buffer_GetSize_global max_depth then
    ring_size_error b rbuf
  else
    let max_depth :=
      if max_depth =? 0
      then u32 (region_size - sizeof_rb_header) / sizeof_labstor_off_t
      else max_depth in
    if max_depth =? 0 then ring_size_error b rbuf
    else
      _ ← store32 (region + rbh_max_depth_) max_depth;
      mret ({| rb_header_ := region; rb_queue_ := region + sizeof_rb_header |}, true).

Definition labstor_request_ring_buffer_Attach (region : Z) : labstor_request_ring_buffer :=
  {| rb_header_ := region; rb_queue_ := region + sizeof_rb_header |}.

Definition labstor_request_ring_buffer_RemoteAttach (kern_region : Z) : labstor_request_ring_buffer :=
  {| rb_header_ := kern_region; rb_queue_ := kern_region + sizeof_rb_header |}.

(** The out-parameter [uint32_t *req_id]: an address in the region, or
    ([None]) a local variable of the caller, whose value is the result. *)
Definition write_req_id (req_id : option Z) (v : Z) : M unit :=
  match req_id with
  | Some p => store32 p v
  | None => mret tt
  end.

(** [Some id]: returned true with [*req_id = id]; [None]: returned false. *)
Definition labstor_request_ring_buffer_Enqueue (rbuf : labstor_request_ring_buffer)
    (data : Z) (req_id : option Z) : M (option Z) :=
  enqueued ← load32 (rb_header_ rbuf + rbh_enqueued_);
  dequeued ← load32 (rb_header_ rbuf + rbh_dequeued_);
  max_depth ← load32 (rb_header_ rbuf + rbh_max_depth_);
  if u32 (enqueued - dequeued) =? max_depth then mret None
  else
    entry ← umod enqueued max_depth;
    _ ← write_req_id req_id enqueued;
    _ ← store_s32 (rb_queue_ rbuf + sizeof_labstor_off_t * entry) data;
    enqueued' ← load32 (rb_header_ rbuf + rbh_enqueued_);
    _ ← store32 (rb_header_ rbuf + rbh_enqueued_) (u32 (enqueued' + 1));
    mret (Some enqueued).

Definition labstor_request_ring_buffer_Enqueue_simple (rbuf : labstor_request_ring_buffer)
    (data : Z) : M bool :=
  r ← labstor_request_ring_buffer_Enqueue rbuf data None;
  mret (match r with Some _ => true | None => false end).

(** [Some data]: returned true with [*data] set. *)
Definition labstor_request_ring_buffer_Peek (rbuf : labstor_request_ring_buffer)
    (i : Z) : M (option Z) :=
  enqueued ← load32 (rb_header_ rbuf + rbh_enqueued_);
  dequeued ← load32 (rb_header_ rbuf + rbh_dequeued_);
  if enqueued =? dequeued then mret None
  else
    max_depth ← load32 (rb_header_ rbuf + rbh_max_depth_);
    entry ← umod (u32 (dequeued + i)) max_depth;
    data ← load_s32 (rb_queue_ rbuf + sizeof_labstor_off_t * entry);
    mret (Some data).

Definition labstor_request_ring_buffer_Dequeue (rbuf : labstor_request_ring_buffer)
    : M (option Z) :=
  enqueued ← load32 (rb_header_ rbuf + rbh_enqueued_);
  dequeued ← load32 (rb_header_ rbuf + rbh_dequeued_);
  if enqueued =? dequeued then mret None
  else
    max_depth ← load32 (rb_header_ rbuf + rbh_max_depth_);
    entry ← umod dequeued max_depth;
    data ← load_s32 (rb_queue_ rbuf + sizeof_labstor_off_t * entry);
    _ ← store32 (rb_header_ rbuf + rbh_dequeued_) (u32 (dequeued + 1));
    mret (Some data).

(** ** Representation and specification *)

(** The slot of counter value [c] in a ring of [cap] slots. *)
Definition slot (rbuf : labstor_request_ring_buffer) (cap c : Z) : Z :=
  rb_queue_ rbuf + sizeof_labstor_off_t * (u32 c mod cap).

(** The ring [rbuf] of [cap] slots, with [dequeued_ = d], holds [q]. *)
Record rb_rep (rbuf : labstor_request_ring_buffer) (cap d : Z) (q : list Z) (m : mem) : Prop := {
  rr_queue : rb_queue_ rbuf = rb_header_ rbuf + sizeof_rb_header;
  rr_valid : valid m (rb_header_ rbuf) (sizeof_rb_header + sizeof_labstor_off_t * cap);
  rr_cap : 0 < cap < 2 ^ 32;
  rr_len : Z.of_nat (length q) <= cap;
  rr_deq : read 4 (rb_header_ rbuf + rbh_dequeued_) m = d;
  rr_enq : read 4 (rb_header_ rbuf + rbh_enqueued_) m = u32 (d + Z.of_nat (length q));
  rr_max : read 4 (rb_header_ rbuf + rbh_max_depth_) m = cap;
  rr_slots : ∀ i x, q !! i = Some x → s32 (read 4 (slot rbuf cap (d + Z.of_nat i)) m) = x
}.

(** The bytes of the ring. *)
Definition rb_span (rbuf : labstor_request_ring_buffer) (cap : Z) : Z → Prop :=
  span (rb_header_ rbuf) (sizeof_rb_header + sizeof_labstor_off_t * cap).

(** The slots of the next [cap] counter values are pairwise different: the
    depth divides 2^32, or the counter does not wrap within the window. *)
Definition ring_ok (cap d : Z) : Prop := (cap | 2 ^ 32) ∨ d + cap <= 2 ^ 32.

(** A bounded FIFO, and runs of it and of the ring. *)
Inductive ring_op := OpEnqueue (data : Z) | OpDequeue | OpPeek (i : nat) | OpGetDepth.

Inductive ring_res :=
  | ResEnqueue (accepted : bool)
  | ResDequeue (data : option Z)
  | ResPeek (data : option Z)
  | ResDepth (depth : Z).

Definition fifo_step (cap : Z) (q : list Z) (op : ring_op) : list Z * ring_res :=
  match op with
  | OpEnqueue data =>
      if Z.of_nat (length q) <? cap then (q ++ [data], ResEnqueue true)
      else (q, ResEnqueue false)
  | OpDequeue =>
      match q with
      | [] => ([], ResDequeue None)
      | x :: q' => (q', ResDequeue (Some x))
      end
  | OpPeek i => (q, ResPeek (q !! i))
  | OpGetDepth => (q, ResDepth (Z.of_nat (length q)))
  end.

(** Where a Peek is specified: at a request that is queued, or on an empty
    queue.  The code does not compare the index with the depth (see
    [ring_peek_past_depth]). *)
Definition peek_specified (q : list Z) (op : ring_op) : Prop :=
  match op with OpPeek i => q = [] ∨ (i < length q)%nat | _ => True end.

(** Every Peek of a run is specified when it is made. *)
Fixpoint peeks_specified (cap : Z) (q : list Z) (ops : list ring_op) : Prop :=
  match ops with
  | [] => True
  | op :: ops' => peek_specified q op ∧ peeks_specified cap (fifo_step cap q op).1 ops'
  end.

Fixpoint fifo_run (cap : Z) (q : list Z) (ops : list ring_op) : list Z * list ring_res :=
  match ops with
  | [] => (q, [])
  | op :: ops' =>
      let (q1, r) := fifo_step cap q op in
      let (q2, rs) := fifo_run cap q1 ops' in
      (q2, r :: rs)
  end.

Definition ring_step (rbuf : labstor_request_ring_buffer) (op : ring_op) : M ring_res :=
  match op with
  | OpEnqueue data =>
      b ← labstor_request_ring_buffer_Enqueue_simple rbuf data; mret (ResEnqueue b)
  | OpDequeue =>
      r ← labstor_request_ring_buffer_Dequeue rbuf; mret (ResDequeue r)
  | OpPeek i =>
      r ← labstor_request_ring_buffer_Peek rbuf (Z.of_nat i); mret (ResPeek r)
  | OpGetDepth =>
      n ← labstor_request_ring_buffer_GetDepth rbuf; mret (ResDepth n)
  end.

Fixpoint ring_run (rbuf : labstor_request_ring_buffer) (ops : list ring_op) : M (list ring_res) :=
  match ops with
  | [] => mret []
  | op :: ops' => r ← ring_step rbuf op; rs ← ring_run rbuf ops'; mret (r :: rs)
  end.

Definition op_in_range (op : ring_op) : Prop :=
  match op with OpEnqueue data => - 2 ^ 31 <= data < 2 ^ 31 | _ => True end.

#[export] Hint Unfold rbh_enqueued_ rbh_dequeued_ rbh_max_depth_ sizeof_rb_header
  sizeof_labstor_off_t : layout.

(** ** Slots *)

Lemma ring_slot_inj cap d i j :
  0 < cap → ring_ok cap d → 0 <= d → 0 <= i < cap → 0 <= j < cap →
  u32 (d + i) mod cap = u32 (d + j) mod cap → i = j.
Proof.
  intros Hc [Hdiv|Hlt] Hd Hi Hj E.
  - unfold u32 in E. rewrite !mod_mod_divide in E by (lia || done).
    by eapply mod_window_inj.
  - rewrite !u32_small in E by lia. by eapply mod_window_inj.
Qed.

Lemma slot_range rbuf cap c :
  0 < cap → rb_queue_ rbuf <= slot rbuf cap c <= rb_queue_ rbuf + 4 * cap - 4.
Proof.
  intros Hc. unfold slot, sizeof_labstor_off_t.
  pose proof (Z.mod_pos_bound (u32 c) cap Hc). lia.
Qed.

Lemma slot_disjoint rbuf cap d i j :
  0 < cap → ring_ok cap d → 0 <= d → 0 <= i < cap → 0 <= j < cap → i ≠ j →
  slot rbuf cap (d + i) + 4 <= slot rbuf cap (d + j) ∨
  slot rbuf cap (d + j) + 4 <= slot rbuf cap (d + i).
Proof.
  intros Hc Hok Hd Hi Hj Hne. unfold slot, sizeof_labstor_off_t.
  destruct (decide (u32 (d + i) mod cap = u32 (d + j) mod cap)) as [E|]; [|lia].
  destruct Hne. by eapply ring_slot_inj.
Qed.

Lemma rb_rep_depth rbuf cap d q m :
  rb_rep rbuf cap d q m →
  u32 (read 4 (rb_header_ rbuf + rbh_enqueued_) m - read 4 (rb_header_ rbuf + rbh_dequeued_) m)
  = Z.of_nat (length q).
Proof.
  intros []. rewrite rr_enq0, rr_deq0. rewrite u32_sub_l.
  rewrite Z.add_simpl_l. apply u32_small. lia.
Qed.

Lemma rb_rep_deq_range rbuf cap d q m : rb_rep rbuf cap d q m → 0 <= d < 2 ^ 32.
Proof. intros []. subst d. apply read32_range. Qed.

Lemma rb_rep_empty_iff rbuf cap d q m :
  rb_rep rbuf cap d q m →
  (read 4 (rb_header_ rbuf + rbh_enqueued_) m =? read 4 (rb_header_ rbuf + rbh_dequeued_) m) = true
  ↔ q = [].
Proof.
  intros H. rewrite Z.eqb_eq. pose proof (rb_rep_depth _ _ _ _ _ H) as Hd.
  pose proof (rb_rep_deq_range _ _ _ _ _ H). destruct H. rewrite rr_deq0, rr_enq0 in *.
  split.
  - intros E. rewrite E, Z.sub_diag in Hd. by destruct q.
  - intros ->. simpl. rewrite Z.add_0_r. by apply u32_small.
Qed.

Lemma rb_rep_nonempty rbuf cap d q m :
  rb_rep rbuf cap d q m → q ≠ [] →
  (read 4 (rb_header_ rbuf + rbh_enqueued_) m =? read 4 (rb_header_ rbuf + rbh_dequeued_) m) = false.
Proof. intros H Hq. apply not_true_iff_false. by rewrite (rb_rep_empty_iff _ _ _ _ _ H). Qed.

(** The representation depends only on the bytes of the ring. *)
Lemma rb_rep_frame rbuf cap d q P m m' :
  rb_rep rbuf cap d q m → modifies P m m' →
  (∀ a, rb_span rbuf cap a → ¬ P a) → rb_rep rbuf cap d q m'.
Proof.
  intros [] Hmod HP. unfold rb_span, span in HP. autounfold with layout in *.
  assert (∀ n p, rb_header_ rbuf <= p → p + Z.of_nat n <= rb_header_ rbuf + (12 + 4 * cap) →
     read n p m' = read n p m) as Hrd.
  { intros n p ??. eapply read_modifies; [exact Hmod|]. intros a Ha. apply HP. lia. }
  split; autounfold with layout in *; try done.
  - by eapply valid_modifies.
  - rewrite Hrd by lia. done.
  - rewrite Hrd by lia. done.
  - rewrite Hrd by lia. done.
  - intros i x Hi. pose proof (slot_range rbuf cap (d + Z.of_nat i) ltac:(lia)).
    rewrite Hrd by lia. by apply rr_slots0.
Qed.

(** ** The operations on a represented ring *)

(** Where the out-parameter of Enqueue may point: outside the ring. *)
Definition req_id_ok (rbuf : labstor_request_ring_buffer) (cap : Z) (req_id : option Z) (m : mem) : Prop :=
  match req_id with
  | None => True
  | Some p => valid m p 4 ∧ (p + 4 <= rb_header_ rbuf ∨
      rb_header_ rbuf + (sizeof_rb_header + sizeof_labstor_off_t * cap) <= p)
  end.

Definition req_id_span (req_id : option Z) : Z → Prop :=
  match req_id with None => λ _, False | Some p => span p 4 end.

Definition req_id_set (req_id : option Z) (v : Z) (m : mem) : Prop :=
  match req_id with None => True | Some p => read 4 p m = v end.

Lemma enqueue_full rbuf cap d q m data req_id :
  rb_rep rbuf cap d q m → Z.of_nat (length q) = cap →
  labstor_request_ring_buffer_Enqueue rbuf data req_id m = Ret None m.
Proof.
  intros Hr Hfull. pose proof (rb_rep_depth _ _ _ _ _ Hr) as Hdepth.
  apply wp_exact. destruct Hr. unfold labstor_request_ring_buffer_Enqueue. wp_go.
  rewrite Hdepth, rr_max0, (proj2 (Z.eqb_eq _ _) Hfull). by apply wp_ret.
Qed.

(** The memory after a successful Enqueue, before the counter moves. *)
Lemma rb_rep_push rbuf cap d q m m1 data :
  rb_rep rbuf cap d q m → (q ≠ [] → ring_ok cap d) → Z.of_nat (length q) < cap →
  - 2 ^ 31 <= data < 2 ^ 31 → rb_rep rbuf cap d q m1 →
  rb_rep rbuf cap d (q ++ [data])
    (write 4 (rb_header_ rbuf + rbh_enqueued_) (u32 (u32 (d + Z.of_nat (length q)) + 1))
      (write 4 (slot rbuf cap (d + Z.of_nat (length q))) (s32_bits data) m1)).
Proof.
  intros Hr Hok Hlt Hdata Hr1. pose proof (rb_rep_deq_range _ _ _ _ _ Hr) as Hd.
  clear Hr. destruct Hr1.
  pose proof (slot_range rbuf cap (d + Z.of_nat (length q)) ltac:(lia)) as Hs.
  assert (rb_queue_ rbuf = rb_header_ rbuf + 12) as Hq by done.
  split; autounfold with layout in *.
  - done.
  - vsolve.
  - done.
  - rewrite length_app. simpl. lia.
  - mem_simpl. done.
  - mem_simpl. rewrite u32_add_l, u32_idemp, length_app. simpl. f_equal. lia.
  - mem_simpl. done.
  - intros i x [Hi|[-> ->]]%lookup_snoc.
    + pose proof (lookup_lt_Some _ _ _ Hi). specialize (Hok ltac:(by intros ->)).
      pose proof (slot_range rbuf cap (d + Z.of_nat i) ltac:(lia)).
      destruct (slot_disjoint rbuf cap d (Z.of_nat i) (Z.of_nat (length q))); try lia; try done;
        rewrite !read_write_other by (simpl; lia); by apply rr_slots0.
    + rewrite read_write_other by (simpl; lia). rewrite read32_write.
      rewrite u32_small by mod_lia. by apply s32_of_bits.
Qed.

(** On an empty ring the counters may wrap at any depth. *)
Lemma enqueue_accepts rbuf cap d q m data req_id :
  rb_rep rbuf cap d q m → (q ≠ [] → ring_ok cap d) → Z.of_nat (length q) < cap →
  - 2 ^ 31 <= data < 2 ^ 31 → req_id_ok rbuf cap req_id m →
  wp (labstor_request_ring_buffer_Enqueue rbuf data req_id)
     (λ r m', r = Some (u32 (d + Z.of_nat (length q))) ∧
        rb_rep rbuf cap d (q ++ [data]) m' ∧
        req_id_set req_id (u32 (d + Z.of_nat (length q))) m' ∧
        modifies (both (rb_span rbuf cap) (req_id_span req_id)) m m') m.
Proof.
  intros Hr Hok Hlt Hdata Hid.
  pose proof (rb_rep_depth _ _ _ _ _ Hr) as Hdepth. pose proof (rr_enq _ _ _ _ _ Hr) as Henq.
  pose proof (rr_cap _ _ _ _ _ Hr). pose proof (rr_max _ _ _ _ _ Hr) as Hmax.
  pose proof (rr_valid _ _ _ _ _ Hr) as Hv. pose proof (rr_queue _ _ _ _ _ Hr) as Hq.
  pose proof (slot_range rbuf cap (d + Z.of_nat (length q)) ltac:(lia)) as Hs.
  set (c := u32 (d + Z.of_nat (length q))) in *.
  assert (∃ m1, wp (write_req_id req_id c) (λ _ m', m' = m1) m ∧
      modifies (req_id_span req_id) m m1 ∧ req_id_set req_id c m1) as (m1 & Hwp & Hm1 & Hset).
  { destruct req_id as [p|]; simpl in *.
    - destruct Hid as [Hp Hdis]. eexists. split; [|split].
      + apply wp_store; done.
      + by apply modifies_write.
      + simpl. rewrite read32_write. apply u32_idemp.
    - exists m. repeat split; auto with labstor. }
  assert (∀ a, rb_span rbuf cap a → ¬ req_id_span req_id a) as Hdis.
  { destruct req_id as [p|]; simpl in *; [|naive_solver].
    unfold rb_span, span. intros. lia. }
  pose proof (rb_rep_frame _ _ _ _ _ _ _ Hr Hm1 Hdis) as Hr1.
  pose proof (rr_valid _ _ _ _ _ Hr1) as Hv1. pose proof (rr_enq _ _ _ _ _ Hr1) as Henq1.
  unfold labstor_request_ring_buffer_Enqueue. wp_go.
  rewrite Hdepth, Hmax, (proj2 (Z.eqb_neq _ _)) by lia. wp_go.
  rewrite Henq. eapply wp_mono; [exact Hwp|]. intros _ m' ->.
  change (rb_queue_ rbuf + sizeof_labstor_off_t * (c mod cap))
    with (rb_queue_ rbuf + sizeof_labstor_off_t * (u32 (d + Z.of_nat (length q)) mod cap)).
  fold (slot rbuf cap (d + Z.of_nat (length q))). autounfold with layout in *.
  wp_go. rewrite read_write_other by (simpl; lia). rewrite Henq1.
  split; [done|]. split; [|split].
  - by apply (rb_rep_push rbuf cap d q m m1).
  - destruct req_id as [p|]; simpl in *; [|done]. autounfold with layout in *.
    rewrite !read_write_other by (simpl; lia). done.
  - eapply modifies_trans; [eapply modifies_weaken; [exact Hm1|unfold both; tauto]|].
    unfold rb_span. msolve.
Qed.

Lemma enqueue_space rbuf cap d q m data req_id :
  rb_rep rbuf cap d q m → ring_ok cap d → Z.of_nat (length q) < cap →
  - 2 ^ 31 <= data < 2 ^ 31 → req_id_ok rbuf cap req_id m →
  wp (labstor_request_ring_buffer_Enqueue rbuf data req_id)
     (λ r m', r = Some (u32 (d + Z.of_nat (length q))) ∧
        rb_rep rbuf cap d (q ++ [data]) m' ∧
        req_id_set req_id (u32 (d + Z.of_nat (length q))) m' ∧
        modifies (both (rb_span rbuf cap) (req_id_span req_id)) m m') m.
Proof. intros Hr Hok. by apply enqueue_accepts. Qed.

Lemma dequeue_empty rbuf cap d m :
  rb_rep rbuf cap d [] m → labstor_request_ring_buffer_Dequeue rbuf m = Ret None m.
Proof.
  intros Hr. pose proof (proj2 (rb_rep_empty_iff _ _ _ _ _ Hr) eq_refl) as He.
  apply wp_exact. destruct Hr. unfold labstor_request_ring_buffer_Dequeue. wp_go.
  rewrite He. by wp_go.
Qed.

Lemma dequeue_nonempty rbuf cap d x q m :
  rb_rep rbuf cap d (x :: q) m →
  wp (labstor_request_ring_buffer_Dequeue rbuf)
     (λ r m', r = Some x ∧ rb_rep rbuf cap (u32 (d + 1)) q m' ∧
        modifies (span (rb_header_ rbuf + rbh_dequeued_) 4) m m') m.
Proof.
  intros Hr. pose proof (rb_rep_nonempty _ _ _ _ _ Hr ltac:(done)) as He.
  pose proof (rb_rep_deq_range _ _ _ _ _ Hr) as Hd. destruct Hr.
  pose proof (slot_range rbuf cap d ltac:(lia)) as Hs. simpl length in *.
  pose proof (rr_slots0 0%nat x eq_refl) as Hx. rewrite Z.add_0_r in Hx.
  unfold labstor_request_ring_buffer_Dequeue. wp_go. rewrite He, rr_deq0.
  do 4 wp_step. rewrite rr_max0. rewrite <-(u32_small d Hd) at 1. fold (slot rbuf cap d).
  autounfold with layout in *. wp_go. split; [by rewrite Hx|]. split; [|msolve].
  split; autounfold with layout in *; try done; try (by mem_simpl); try lia.
  - vsolve.
  - mem_simpl. apply u32_idemp.
  - mem_simpl. rewrite u32_add_l, rr_enq0. f_equal. lia.
  - intros i y Hi. pose proof (rr_slots0 (S i) y Hi) as Hy.
    unfold slot in *. rewrite u32_add_l.
    pose proof (slot_range rbuf cap (d + Z.of_nat (S i)) ltac:(lia)) as Hsi. unfold slot in Hsi.
    autounfold with layout in *. replace (d + 1 + Z.of_nat i) with (d + Z.of_nat (S i)) by lia.
    rewrite read_write_other by (simpl; lia). done.
Qed.

Lemma peek_in_range rbuf cap d q m i x :
  rb_rep rbuf cap d q m → q !! i = Some x →
  labstor_request_ring_buffer_Peek rbuf (Z.of_nat i) m = Ret (Some x) m.
Proof.
  intros Hr Hi. assert (q ≠ []) as Hq by (by intros ->).
  pose proof (rb_rep_nonempty _ _ _ _ _ Hr Hq) as He. destruct Hr.
  pose proof (slot_range rbuf cap (d + Z.of_nat i) ltac:(lia)) as Hs.
  pose proof (rr_slots0 _ _ Hi) as Hx.
  apply wp_exact. unfold labstor_request_ring_buffer_Peek. wp_go.
  rewrite He, rr_deq0. do 4 wp_step. rewrite rr_max0. fold (slot rbuf cap (d + Z.of_nat i)).
  autounfold with layout in *. wp_go. by rewrite Hx.
Qed.

Lemma peek_empty rbuf cap d m i :
  rb_rep rbuf cap d [] m → labstor_request_ring_buffer_Peek rbuf i m = Ret None m.
Proof.
  intros Hr. pose proof (proj2 (rb_rep_empty_iff _ _ _ _ _ Hr) eq_refl) as He.
  apply wp_exact. destruct Hr. unfold labstor_request_ring_buffer_Peek. wp_go.
  rewrite He. by wp_go.
Qed.

Lemma peek_spec rbuf cap d q m i :
  rb_rep rbuf cap d q m → q = [] ∨ (i < length q)%nat →
  labstor_request_ring_buffer_Peek rbuf (Z.of_nat i) m = Ret (q !! i) m.
Proof.
  intros Hr [->|[x Hx]%lookup_lt_is_Some]; [by eapply peek_empty|].
  rewrite Hx. by eapply peek_in_range.
Qed.

Lemma get_depth_spec rbuf cap d q m :
  rb_rep rbuf cap d q m →
  labstor_request_ring_buffer_GetDepth rbuf m = Ret (Z.of_nat (length q)) m.
Proof.
  intros Hr. pose proof (rb_rep_depth _ _ _ _ _ Hr) as Hd. destruct Hr.
  apply wp_exact. unfold labstor_request_ring_buffer_GetDepth. wp_go. done.
Qed.

(** ** Initialisation *)

(** The depth that Init stores: the given one, or what the region holds. *)
Definition ring_cap (region_size max_depth : Z) : Z :=
  if max_depth =? 0 then (region_size - sizeof_rb_header) / sizeof_labstor_off_t else max_depth.

Definition ring_init_fits (region_size max_depth : Z) : bool :=
  (sizeof_rb_header + sizeof_labstor_off_t * max_depth <=? region_size) &&
  negb (ring_cap region_size max_depth =? 0).

(** What Init compares: the size of the ring modulo 2^32. *)
Definition ring_init_accepts (region_size max_depth : Z) : bool :=
  (u32 (sizeof_rb_header + sizeof_labstor_off_t * max_depth) <=? region_size) &&
  negb (ring_cap region_size max_depth =? 0).

Lemma ring_init_accepts_fits region_size max_depth :
  0 <= max_depth < 2 ^ 30 - 3 →
  ring_init_accepts region_size max_depth = ring_init_fits region_size max_depth.
Proof.
  intros. unfold ring_init_accepts, ring_init_fits. autounfold with layout.
  by rewrite (u32_small (12 + 4 * max_depth)) by lia.
Qed.

Lemma ring_init_outcome b rbuf region region_size max_depth m :
  valid m region 12 → 0 <= region_size < 2 ^ 32 → 0 <= max_depth < 2 ^ 32 →
  let m1 := write 4 (region + 4) 0 (write 4 region 0 m) in
  labstor_request_ring_buffer_Init b rbuf region region_size max_depth m =
    if ring_init_accepts region_size max_depth then
      Ret (labstor_request_ring_buffer_Attach region, true)
          (write 4 (region + 8) (ring_cap region_size max_depth) m1)
    else match b with
         | Userspace => Throw INVALID_RING_BUFFER_SIZE m1
         | Kernel => Ret ({| rb_header_ := region; rb_queue_ := rb_queue_ rbuf |}, false) m1
         end.
Proof.
  intros Hv Hsz Hmd m1. unfold labstor_request_ring_buffer_Init, ring_init_accepts, ring_cap.
  unfold labstor_request_ring_buffer_GetSize_global. autounfold with layout. rewrite Z.add_0_r.
  assert (∀ k, 0 <= k <= 8 → validb m (region + k) 4 = true) as Hvb.
  { intros k Hk. apply validb_valid. apply (valid_sub _ _ _ _ _ Hv); simpl; lia. }
  assert (∀ n p v k, 0 <= k <= 8 → validb (write n p v m) (region + k) 4 = true) as Hvb1.
  { intros n p v k Hk. apply validb_valid, valid_write, validb_valid. by apply Hvb. }
  assert (validb m region 4 = true) as H0.
  { specialize (Hvb 0 ltac:(lia)). by rewrite Z.add_0_r in Hvb. }
  assert (validb m1 (region + 8) 4 = true) as H8.
  { apply validb_valid, valid_write, validb_valid. by apply Hvb1; lia. }
  unfold mbind, M_bind, store at 1 2. rewrite H0. unfold store at 1. rewrite Hvb1 by lia. fold m1.
  rewrite (Z.ltb_antisym (u32 (12 + 4 * max_depth)) region_size).
  destruct (Z.leb_spec (u32 (12 + 4 * max_depth)) region_size) as [Hle|]; simpl; [|by destruct b].
  assert ((if max_depth =? 0 then u32 (region_size - 12) / 4 else max_depth) =
          (if max_depth =? 0 then (region_size - 12) / 4 else max_depth)) as ->.
  { destruct (Z.eqb_spec max_depth 0) as [->|]; [|done].
    change (u32 (12 + 4 * 0)) with 12 in Hle. by rewrite u32_small by lia. }
  destruct (_ =? 0); simpl; [by destruct b|]. unfold store. by rewrite H8.
Qed.

Lemma ring_init_run b rbuf region region_size max_depth m :
  valid m region region_size → 12 <= region_size < 2 ^ 32 → 0 <= max_depth < 2 ^ 30 - 3 →
  let m1 := write 4 (region + 4) 0 (write 4 region 0 m) in
  labstor_request_ring_buffer_Init b rbuf region region_size max_depth m =
    if ring_init_fits region_size max_depth then
      Ret (labstor_request_ring_buffer_Attach region, true)
          (write 4 (region + 8) (ring_cap region_size max_depth) m1)
    else match b with
         | Userspace => Throw INVALID_RING_BUFFER_SIZE m1
         | Kernel => Ret ({| rb_header_ := region; rb_queue_ := rb_queue_ rbuf |}, false) m1
         end.
Proof.
  intros Hv Hsz Hmd m1. rewrite <-ring_init_accepts_fits by done.
  apply ring_init_outcome; [|lia..]. apply (valid_sub _ _ _ _ _ Hv); lia.
Qed.

Lemma ring_init_rep region region_size max_depth m :
  valid m region region_size → 12 <= region_size < 2 ^ 32 → 0 <= max_depth < 2 ^ 30 - 3 →
  ring_init_fits region_size max_depth = true →
  let m1 := write 4 (region + 4) 0 (write 4 region 0 m) in
  let m2 := write 4 (region + 8) (ring_cap region_size max_depth) m1 in
  rb_rep (labstor_request_ring_buffer_Attach region) (ring_cap region_size max_depth) 0 [] m2 ∧
  modifies (span region 12) m m2.
Proof.
  intros Hv Hsz Hmd [Hfit%Z.leb_le Hnz]%andb_true_iff m1 m2.
  apply negb_true_iff, Z.eqb_neq in Hnz. subst m1 m2.
  unfold ring_cap in *. autounfold with layout in *.
  set (cap := if max_depth =? 0 then (region_size - 12) / 4 else max_depth) in *.
  assert (0 < cap ∧ 12 + 4 * cap <= region_size) as [Hc1 Hc2].
  { subst cap. destruct (max_depth =? 0) eqn:E; [|apply Z.eqb_neq in E; lia].
    Z.div_mod_to_equations. lia. }
  split.
  - split; simpl; autounfold with layout; rewrite ?Z.add_0_r; try done; try (mem_simpl; done); try lia.
    vsolve.
  - msolve.
Qed.

Lemma ring_init_accepts_iff region_size max_depth :
  0 <= max_depth < 2 ^ 32 →
  ring_init_accepts region_size max_depth = true ↔
  u32 (12 + 4 * max_depth) <= region_size ∧ (max_depth ≠ 0 ∨ 16 <= region_size).
Proof.
  intros Hmd. unfold ring_init_accepts, ring_cap. autounfold with layout.
  rewrite andb_true_iff, Z.leb_le, negb_true_iff, Z.eqb_neq.
  destruct (Z.eqb_spec max_depth 0) as [->|]; [|intuition lia].
  change (u32 (12 + 4 * 0)) with 12.
  split; intros []; split; Z.div_mod_to_equations; lia.
Qed.

(** A depth of 0 asks for as many slots as the region holds. *)
Lemma ring_init_default b rbuf region region_size m :
  16 <= region_size < 2 ^ 32 →
  labstor_request_ring_buffer_Init b rbuf region region_size 0 m =
  labstor_request_ring_buffer_Init b rbuf region region_size ((region_size - 12) / 4) m.
Proof.
  intros Hsz. unfold labstor_request_ring_buffer_Init, labstor_request_ring_buffer_GetSize_global.
  autounfold with layout. set (n := (region_size - 12) / 4).
  assert (0 < n ∧ 12 + 4 * n <= region_size) as [Hn Hle] by (subst n; Z.div_mod_to_equations; lia).
  rewrite !u32_small by lia. fold n. rewrite (proj2 (Z.eqb_neq n 0)) by lia. cbn [Z.eqb].
  rewrite (proj2 (Z.ltb_ge region_size (12 + 4 * 0))), (proj2 (Z.ltb_ge region_size (12 + 4 * n))) by lia.
  by rewrite (proj2 (Z.eqb_neq n 0)) by lia.
Qed.

(** ** Refinement *)

Lemma ring_step_refines rbuf cap d q m op :
  rb_rep rbuf cap d q m → ring_ok cap d → op_in_range op → peek_specified q op →
  wp (ring_step rbuf op)
     (λ r m', r = (fifo_step cap q op).2 ∧
        (rb_rep rbuf cap d (fifo_step cap q op).1 m' ∨
         rb_rep rbuf cap (u32 (d + 1)) (fifo_step cap q op).1 m') ∧
        modifies (rb_span rbuf cap) m m') m.
Proof.
  intros Hr Hok Hop Hpk. destruct op as [data| |i|]; simpl in *.
  - unfold labstor_request_ring_buffer_Enqueue_simple. do 2 apply wp_bind.
    destruct (Z.ltb_spec (Z.of_nat (length q)) cap) as [Hlt|Hge]; simpl.
    + eapply wp_mono; [by apply (enqueue_space _ _ _ _ _ data None Hr)|].
      intros r m' (-> & Hr' & _ & Hm). wp_go. split; [done|]. split; [by left|].
      eapply modifies_weaken; [exact Hm|]. unfold both; simpl; tauto.
    + assert (Z.of_nat (length q) = cap) as Hfull by (destruct Hr; lia).
      apply wp_run. exists None, m. rewrite (enqueue_full _ _ _ _ _ data None Hr Hfull).
      wp_go. repeat split; auto with labstor.
  - apply wp_bind. destruct q as [|x q]; simpl.
    + apply wp_run. exists None, m. rewrite (dequeue_empty _ _ _ _ Hr).
      wp_go. repeat split; auto with labstor.
    + pose proof (rr_cap _ _ _ _ _ Hr).
      eapply wp_mono; [exact (dequeue_nonempty _ _ _ _ _ _ Hr)|].
      intros r m' (-> & Hr' & Hm). wp_go. split; [done|]. split; [by right|].
      eapply modifies_weaken; [exact Hm|]. unfold rb_span, span. autounfold with layout. lia.
  - apply wp_bind, wp_run. exists (q !! i), m. rewrite (peek_spec _ _ _ _ _ _ Hr Hpk).
    wp_go. repeat split; auto with labstor.
  - apply wp_bind, wp_run. exists (Z.of_nat (length q)), m. rewrite (get_depth_spec _ _ _ _ _ Hr).
    wp_go. repeat split; auto with labstor.
Qed.

Lemma ring_run_refines ops rbuf cap d q m :
  rb_rep rbuf cap d q m → Forall op_in_range ops → peeks_specified cap q ops →
  (cap | 2 ^ 32) ∨ d + Z.of_nat (length ops) + cap <= 2 ^ 32 →
  ∃ d', wp (ring_run rbuf ops)
     (λ rs m', rs = (fifo_run cap q ops).2 ∧ rb_rep rbuf cap d' (fifo_run cap q ops).1 m' ∧
        modifies (rb_span rbuf cap) m m') m.
Proof.
  revert d q m. induction ops as [|op ops IH]; intros d q m Hr Hops Hpks Hok; simpl.
  - exists d. wp_go. auto with labstor.
  - apply Forall_cons in Hops as [Hop Hops]. destruct Hpks as [Hpk Hpks].
    pose proof (rb_rep_deq_range _ _ _ _ _ Hr) as Hd.
    assert (ring_ok cap d) as Hok1.
    { destruct Hok; [by left|]. right. simpl length in *. lia. }
    pose proof (ring_step_refines _ _ _ _ _ op Hr Hok1 Hop Hpk) as Hs.
    apply wp_run in Hs as (r & m1 & Erun & -> & Hr1 & Hm1).
    destruct (fifo_step cap q op) as [q1 r1] eqn:Ef. simpl in *.
    assert (∃ d1, rb_rep rbuf cap d1 q1 m1 ∧
       ((cap | 2 ^ 32) ∨ d1 + Z.of_nat (length ops) + cap <= 2 ^ 32)) as (d1 & Hr1' & Hok').
    { destruct Hr1 as [Hr1|Hr1].
      - exists d. split; [done|]. destruct Hok; [by left|]. right. lia.
      - exists (u32 (d + 1)). split; [done|]. destruct Hok; [by left|]. right.
        pose proof (rr_cap _ _ _ _ _ Hr). rewrite u32_small by lia. lia. }
    destruct (IH d1 q1 m1 Hr1' Hops Hpks Hok') as (d' & Hwp). exists d'.
    destruct (fifo_run cap q1 ops) as [q2 rs] eqn:Er. simpl in *.
    apply wp_bind, wp_run. exists r1, m1. split; [done|].
    apply wp_bind. eapply wp_mono; [exact Hwp|]. intros rs' m' (-> & Hr' & Hm').
    wp_go. split; [done|]. split; [done|]. by eapply modifies_trans.
Qed.

(** ** Theorems *)

(** C1. A ring initialised in a mapped region is a bounded FIFO: whatever
    sequence of Enqueue, Dequeue, Peek and GetDepth calls is made on it, every
    call returns what a FIFO of [ring_cap] places returns (an Enqueue is
    refused exactly when the FIFO is full, a Dequeue exactly when it is empty,
    data comes out in the order it went in, Peek [i] gives the [i]-th request
    and GetDepth their number), no access leaves the region, and no byte
    outside the ring changes.  Conditions: a Peek is made at the position of a
    queued request or on an empty ring (elsewhere the code returns what the
    slot holds, [ring_peek_past_depth]); the depth given to Init is below
    2^30 - 3, so that the size of the ring does not wrap; and either the depth
    of the ring divides 2^32, and the sequence is unbounded, or the sequence
    stops before the free-running counters wrap ([ring_wrap_loses_request]). *)
Theorem ring_buffer_implements_fifo b rbuf region region_size max_depth ops m :
  valid m region region_size → 12 <= region_size < 2 ^ 32 → 0 <= max_depth < 2 ^ 30 - 3 →
  ring_init_fits region_size max_depth = true → Forall op_in_range ops →
  peeks_specified (ring_cap region_size max_depth) [] ops →
  (ring_cap region_size max_depth | 2 ^ 32) ∨
    Z.of_nat (length ops) + ring_cap region_size max_depth <= 2 ^ 32 →
  wp (r ← labstor_request_ring_buffer_Init b rbuf region region_size max_depth;
      ring_run r.1 ops)
     (λ rs m', rs = (fifo_run (ring_cap region_size max_depth) [] ops).2 ∧
        modifies (span region (sizeof_rb_header +
          sizeof_labstor_off_t * ring_cap region_size max_depth)) m m') m.
Proof.
  intros Hv Hsz Hmd Hfit Hops Hpks Hok.
  destruct (ring_init_rep region region_size max_depth m Hv Hsz Hmd Hfit) as [Hr Hm].
  apply wp_bind. unfold wp at 1. rewrite (ring_init_run b rbuf _ _ _ _ Hv Hsz Hmd), Hfit. simpl.
  destruct (ring_run_refines ops _ _ _ _ _ Hr Hops Hpks Hok) as (d' & Hwp).
  eapply wp_mono; [exact Hwp|]. intros rs m' (-> & _ & Hm'). split; [done|].
  pose proof (rr_cap _ _ _ _ _ Hr). eapply modifies_trans; [|exact Hm'].
  eapply modifies_weaken; [exact Hm|]. unfold span. autounfold with layout. lia.
Qed.

Lemma ring_buffer_implements_fifo_witness :
  let m := zero_region 4096 28 in
  let ops := [OpPeek 3; OpEnqueue 5; OpEnqueue (-6); OpPeek 1; OpGetDepth; OpDequeue; OpPeek 0;
              OpDequeue; OpDequeue] in
  wp (r ← labstor_request_ring_buffer_Init Kernel (labstor_request_ring_buffer_Attach 0) 4096 28 0;
      ring_run r.1 ops)
     (λ rs m', rs = [ResPeek None; ResEnqueue true; ResEnqueue true; ResPeek (Some (-6)); ResDepth 2;
                     ResDequeue (Some 5); ResPeek (Some (-6)); ResDequeue (Some (-6));
                     ResDequeue None] ∧
        modifies (span 4096 28) m m') m.
Proof.
  intros m ops.
  apply (ring_buffer_implements_fifo Kernel (labstor_request_ring_buffer_Attach 0) 4096 28 0 ops m).
  - apply (valid_zero_region 4096 28).
  - lia.
  - lia.
  - reflexivity.
  - repeat constructor; simpl; lia.
  - simpl. repeat split; auto; right; lia.
  - left. exists (2 ^ 30). reflexivity.
Defined.

(** C2. Init on a mapped header, for every size of the region and every depth
    of 32 bits.  It accepts exactly when the size of the ring, computed modulo
    2^32, is at most the size of the region and there is at least one slot;
    the handle is then what Attach computes from the same region, and when
    the computed size did not wrap (that is, the header and the slots of the
    depth that was asked for take less than 2^32 bytes) and the region is
    mapped, it holds an empty ring of that depth.  Otherwise the userspace
    build throws INVALID_RING_BUFFER_SIZE and the kernel build returns false,
    and only the two counters were written.  Where the size wraps the check
    accepts regions that are too small ([ring_size_check_overflows]). *)
Theorem ring_init_correct b rbuf region region_size max_depth m :
  valid m region 12 → 0 <= region_size < 2 ^ 32 → 0 <= max_depth < 2 ^ 32 →
  if decide (u32 (12 + 4 * max_depth) <= region_size ∧ (max_depth ≠ 0 ∨ 16 <= region_size)) then
    ∃ m', labstor_request_ring_buffer_Init b rbuf region region_size max_depth m =
            Ret (labstor_request_ring_buffer_Attach region, true) m' ∧
          modifies (span region 12) m m' ∧
          (12 + 4 * max_depth < 2 ^ 32 → valid m region region_size →
           rb_rep (labstor_request_ring_buffer_Attach region)
             (if decide (max_depth = 0) then (region_size - 12) / 4 else max_depth) 0 [] m')
  else
    ∃ m', modifies (span region 8) m m' ∧
      labstor_request_ring_buffer_Init b rbuf region region_size max_depth m =
      match b with
      | Userspace => Throw INVALID_RING_BUFFER_SIZE m'
      | Kernel => Ret ({| rb_header_ := region; rb_queue_ := rb_queue_ rbuf |}, false) m'
      end.
Proof.
  intros Hv Hsz Hmd. pose proof (ring_init_accepts_iff region_size max_depth Hmd) as Hacc.
  rewrite (ring_init_outcome b rbuf _ _ _ _ Hv Hsz Hmd). case_decide as Hd.
  - apply Hacc in Hd as Hd'. rewrite Hd'. eexists. split; [done|]. split; [msolve|].
    intros Hlt Hvr. destruct Hd as [Hle _]. rewrite u32_small in Hle by lia.
    rewrite ring_init_accepts_fits in Hd' by lia.
    replace (if decide _ then _ else _) with (ring_cap region_size max_depth).
    + apply ring_init_rep; [done|lia..|done].
    + unfold ring_cap. destruct (Z.eqb_spec max_depth 0); by case_decide.
  - assert (ring_init_accepts region_size max_depth = false) as ->.
    { apply not_true_iff_false. by rewrite Hacc. }
    eexists. split; [|done]. msolve.
Qed.

Lemma ring_init_correct_witness :
  ∃ m', labstor_request_ring_buffer_Init Userspace (labstor_request_ring_buffer_Attach 0) 4096 28 3
          (zero_region 4096 28) = Ret (labstor_request_ring_buffer_Attach 4096, true) m' ∧
        modifies (span 4096 12) (zero_region 4096 28) m' ∧
        (12 + 4 * 3 < 2 ^ 32 → valid (zero_region 4096 28) 4096 28 →
         rb_rep (labstor_request_ring_buffer_Attach 4096) 3 0 [] m').
Proof.
  apply (ring_init_correct Userspace (labstor_request_ring_buffer_Attach 0) 4096 28 3
           (zero_region 4096 28)).
  - apply (valid_sub _ _ _ _ _ (valid_zero_region 4096 28)); lia.
  - lia.
  - lia.
Defined.

(** ** Limits

    At the wrap of the counters a ring whose depth does not divide 2^32 maps
    the counter values 2^32-1 and 0 to the same slot: the second of two
    accepted requests overwrites the first, and is delivered twice. *)

Definition wrapped_ring : mem :=
  write 4 4096 (2 ^ 32 - 1) (write 4 4100 (2 ^ 32 - 1) (write 4 4104 3 (zero_region 4096 24))).

Lemma ring_wrap_loses_request :
  rb_rep (labstor_request_ring_buffer_Attach 4096) 3 (2 ^ 32 - 1) [] wrapped_ring ∧
  wp (ring_run (labstor_request_ring_buffer_Attach 4096)
       [OpEnqueue 7; OpEnqueue 9; OpDequeue; OpDequeue])
     (λ rs _, rs = [ResEnqueue true; ResEnqueue true; ResDequeue (Some 9); ResDequeue (Some 9)])
     wrapped_ring.
Proof.
  split; [|vm_compute; reflexivity].
  split.
  - reflexivity.
  - apply (validb_valid _ _ 24). vm_compute. reflexivity.
  - lia.
  - simpl. lia.
  - vm_compute. reflexivity.
  - vm_compute. reflexivity.
  - vm_compute. reflexivity.
  - intros i x Hi. by rewrite lookup_nil in Hi.
Qed.

(** The size of a ring is computed in 32 bits: with 2^30 slots it is 12, so a
    12-byte region passes the check of Init and the first Enqueue writes
    outside it. *)
Lemma ring_size_check_overflows :
  labstor_request_ring_buffer_GetSize_global (2 ^ 30) = 12 ∧
  (r ← labstor_request_ring_buffer_Init Userspace (labstor_request_ring_buffer_Attach 0) 4096 12 (2 ^ 30);
   labstor_request_ring_buffer_Enqueue_simple r.1 1) (zero_region 4096 12) = Fault.
Proof. split; vm_compute; reflexivity. Qed.

(** Peek does not compare its index with the depth: on a ring that holds one
    request it answers for index 1 with whatever the slot holds. *)
Lemma ring_peek_past_depth :
  wp (r ← labstor_request_ring_buffer_Init Userspace (labstor_request_ring_buffer_Attach 0) 4096 28 4;
      _ ← labstor_request_ring_buffer_Enqueue_simple r.1 42;
      labstor_request_ring_buffer_Peek r.1 1)
     (λ r _, r = Some 0) (zero_region 4096 28).
Proof. vm_compute. reflexivity. Qed.
