(* ===== verification/Bitmap.v ===== *)
(** * Bitmap.v: the atomic bitmaps

    include/labstor/types/data_structures/bitmap.h (one bit per entry) and
    bit2map.h (two bits per entry: VALID and BEING_SET), as arrays of 32-bit
    blocks in memory.  [getbit] numbers the bits of such an array; the entry
    [i] of a bit2map is its bits 2i and 2i+1.  A compare-and-swap loop is a
    spin loop on [cas32]; the interleavings of several threads are in
    Bit2mapProtocol.v. *)

From S2P Require Import Prelude Memory.

Local Open Scope Z_scope.

(** ** Atomic accesses *)

Definition atomic_fetch_or (p mask : Z) : M unit :=
  x ← load32 p; store32 p (Z.lor x mask).

Definition atomic_fetch_and (p mask : Z) : M unit :=
  x ← load32 p; store32 p (Z.land x mask).

(** [__atomic_compare_exchange_n(p, &expected, desired, ...)]. *)
Definition cas32 (p expected desired : Z) : M bool :=
  x ← load32 p;
  if x =? expected then _ ← store32 p desired; mret true else mret false.

(** ** bitmap.h *)

Definition LABSTOR_BITMAP_ENTRIES_PER_BLOCK : Z := 4 * 8.

(** [LABSTOR_BITMAP_POS]: the block and the bit in it. *)
Definition LABSTOR_BITMAP_POS (entry_idx : Z) : Z * Z :=
  (u32 (entry_idx / LABSTOR_BITMAP_ENTRIES_PER_BLOCK),
   u8 (entry_idx mod LABSTOR_BITMAP_ENTRIES_PER_BLOCK)).

(** [num_entries] is an [int] used in [size_t] arithmetic. *)
Definition labstor_bitmap_GetSize (num_entries : Z) : Z :=
  let n := u64 num_entries in
  if n mod LABSTOR_BITMAP_ENTRIES_PER_BLOCK =? 0
  then u32 (n / LABSTOR_BITMAP_ENTRIES_PER_BLOCK * 4)
  else u32 ((n / LABSTOR_BITMAP_ENTRIES_PER_BLOCK + 1) * 4).

Definition labstor_bitmap_GetNextSection (bitmap num_entries : Z) : Z :=
  bitmap + labstor_bitmap_GetSize num_entries.

Definition labstor_bitmap_Init (bitmap num_entries : Z) : M unit :=
  memset bitmap 0 (Z.to_nat (labstor_bitmap_GetSize num_entries)).

Definition labstor_bitmap_Set (bitmap entry_idx : Z) : M unit :=
  let '(entry_block, bit_in_block) := LABSTOR_BITMAP_POS entry_idx in
  let mask := u32 (Z.shiftl 1 bit_in_block) in
  atomic_fetch_or (bitmap + 4 * entry_block) mask.

Definition labstor_bitmap_TestAndSet (bitmap entry_idx : Z) : M bool :=
  let '(entry_block, bit_in_block) := LABSTOR_BITMAP_POS entry_idx in
  let mask := u32 (Z.shiftl 1 bit_in_block) in
  block ← load32 (bitmap + 4 * entry_block);
  cas32 (bitmap + 4 * entry_block) block (Z.lor block mask).

Definition labstor_bitmap_Unset (bitmap entry_idx : Z) : M unit :=
  let '(entry_block, bit_in_block) := LABSTOR_BITMAP_POS entry_idx in
  let mask := u32 (Z.lnot (u32 (Z.shiftl 1 bit_in_block))) in
  atomic_fetch_and (bitmap + 4 * entry_block) mask.

Definition labstor_bitmap_IsSet (bitmap entry_idx : Z) : M bool :=
  let '(entry_block, bit_in_block) := LABSTOR_BITMAP_POS entry_idx in
  let mask := u32 (Z.shiftl 1 bit_in_block) in
  block ← load32 (bitmap + 4 * entry_block);
  mret (negb (Z.land block mask =? 0)).

(** ** bit2map.h *)

Definition LABSTOR_BIT2MAP_VALID : Z := 1.
Definition LABSTOR_BIT2MAP_BEING_SET : Z := 2.
Definition LABSTOR_BIT2MAP_ENTRY_SIZE_BITS : Z := 2.
Definition LABSTOR_BIT2MAP_BLOCK_SIZE_BITS : Z := 4 * 8.
Definition LABSTOR_BIT2MAP_ENTRIES_PER_BLOCK : Z :=
  LABSTOR_BIT2MAP_BLOCK_SIZE_BITS / LABSTOR_BIT2MAP_ENTRY_SIZE_BITS.

(** [LABSTOR_BIT2MAP_POS]: the block and the first bit of the entry in it. *)
Definition LABSTOR_BIT2MAP_POS (entry_idx : Z) : Z * Z :=
  let entry_block := u32 (entry_idx / LABSTOR_BIT2MAP_ENTRIES_PER_BLOCK) in
  let entry_in_block := u8 (entry_idx mod LABSTOR_BIT2MAP_ENTRIES_PER_BLOCK) in
  let entry_start := u8 (entry_in_block * LABSTOR_BIT2MAP_ENTRY_SIZE_BITS) in
  (entry_block, entry_start).

Definition labstor_bit2map_GetSize (num_entries : Z) : Z :=
  let n := u64 num_entries in
  if n mod LABSTOR_BIT2MAP_ENTRIES_PER_BLOCK =? 0
  then u32 (n / LABSTOR_BIT2MAP_ENTRIES_PER_BLOCK * 4)
  else u32 ((n / LABSTOR_BIT2MAP_ENTRIES_PER_BLOCK + 1) * 4).

Definition labstor_bit2map_GetNextSection (bitmap num_entries : Z) : Z :=
  bitmap + labstor_bit2map_GetSize num_entries.

Definition labstor_bit2map_Init (bitmap num_entries : Z) : M unit :=
  memset bitmap 0 (Z.to_nat (labstor_bit2map_GetSize num_entries)).

Definition labstor_bit2map_Set (bitmap entry_idx mask : Z) : M unit :=
  let '(entry_block, entry_start) := LABSTOR_BIT2MAP_POS entry_idx in
  let mask := u32 (Z.shiftl mask entry_start) in
  atomic_fetch_or (bitmap + 4 * entry_block) mask.

Definition labstor_bit2map_IsSet (bitmap entry_idx mask : Z) : M bool :=
  let '(entry_block, entry_start) := LABSTOR_BIT2MAP_POS entry_idx in
  let mask := u32 (Z.shiftl mask entry_start) in
  block ← load32 (bitmap + 4 * entry_block);
  mret (negb (Z.land block mask =? 0)).

Definition labstor_bit2map_IsValid (bitmap entry_idx : Z) : M bool :=
  labstor_bit2map_IsSet bitmap entry_idx LABSTOR_BIT2MAP_VALID.

Definition labstor_bit2map_IsBeingSet (bitmap entry_idx : Z) : M bool :=
  labstor_bit2map_IsSet bitmap entry_idx LABSTOR_BIT2MAP_BEING_SET.

(** What one iteration of each compare-and-swap loop computes from the block
    it read: [None] to return false, [Some block] to try to install it. *)
Definition begin_modify_block (entry_start tmp : Z) : option Z :=
  let valid_or_set := u32 (Z.shiftl (Z.lor LABSTOR_BIT2MAP_VALID LABSTOR_BIT2MAP_BEING_SET) entry_start) in
  let being_set := u32 (Z.shiftl LABSTOR_BIT2MAP_BEING_SET entry_start) in
  if negb (Z.land tmp valid_or_set =? 0) then None
  else Some (Z.lor tmp being_set).

Definition commit_modify_block (entry_start tmp : Z) : Z :=
  let valid_mask := u32 (Z.shiftl LABSTOR_BIT2MAP_VALID entry_start) in
  let not_being_set_mask := u32 (Z.lnot (Z.shiftl LABSTOR_BIT2MAP_BEING_SET entry_start)) in
  Z.land (Z.lor tmp valid_mask) not_being_set_mask.

Definition begin_remove_block (entry_start tmp : Z) : option Z :=
  let test_valid := u32 (Z.shiftl LABSTOR_BIT2MAP_VALID entry_start) in
  let test_being_set := u32 (Z.shiftl LABSTOR_BIT2MAP_BEING_SET entry_start) in
  let valid_and_set := u32 (Z.shiftl (Z.lor LABSTOR_BIT2MAP_VALID LABSTOR_BIT2MAP_BEING_SET) entry_start) in
  let block := Z.lor tmp valid_and_set in
  if (Z.land tmp test_valid =? 0) || negb (Z.land tmp test_being_set =? 0) then None
  else Some block.

Definition commit_remove_mask (entry_start : Z) : Z :=
  u32 (Z.lnot (Z.shiftl (Z.lor LABSTOR_BIT2MAP_BEING_SET LABSTOR_BIT2MAP_VALID) entry_start)).

(** [fuel] bounds the retries of the loop. *)
Definition labstor_bit2map_BeginModify (fuel : nat) (bitmap entry_idx : Z) : M bool :=
  let '(entry_block, entry_start) := LABSTOR_BIT2MAP_POS entry_idx in
  inf_spinwait fuel
    (tmp ← load32 (bitmap + 4 * entry_block);
     match begin_modify_block entry_start tmp with
     | None => mret (Some false)
     | Some block =>
         ok ← cas32 (bitmap + 4 * entry_block) tmp block;
         mret (if ok : bool then Some true else None)
     end).

Definition labstor_bit2map_CommitModify (fuel : nat) (bitmap entry_idx : Z) : M unit :=
  let '(entry_block, entry_start) := LABSTOR_BIT2MAP_POS entry_idx in
  inf_spinwait fuel
    (tmp ← load32 (bitmap + 4 * entry_block);
     ok ← cas32 (bitmap + 4 * entry_block) tmp (commit_modify_block entry_start tmp);
     mret (if ok : bool then Some tt else None)).

Definition labstor_bit2map_BeginRemove (fuel : nat) (bitmap entry_idx : Z) : M bool :=
  let '(entry_block, entry_start) := LABSTOR_BIT2MAP_POS entry_idx in
  inf_spinwait fuel
    (tmp ← load32 (bitmap + 4 * entry_block);
     match begin_remove_block entry_start tmp with
     | None => mret (Some false)
     | Some block =>
         ok ← cas32 (bitmap + 4 * entry_block) tmp block;
         mret (if ok : bool then Some true else None)
     end).

Definition labstor_bit2map_CommitRemove (bitmap entry_idx : Z) : M unit :=
  let '(entry_block, entry_start) := LABSTOR_BIT2MAP_POS entry_idx in
  atomic_fetch_and (bitmap + 4 * entry_block) (commit_remove_mask entry_start).

Definition labstor_bit2map_IgnoreRemove (fuel : nat) (bitmap entry_idx : Z) : M unit :=
  labstor_bit2map_CommitModify fuel bitmap entry_idx.

Definition labstor_bit2map_Unset (bitmap entry_idx mask : Z) : M unit :=
  let '(entry_block, entry_start) := LABSTOR_BIT2MAP_POS entry_idx in
  let mask := u32 (Z.lnot (u32 (Z.shiftl mask entry_start))) in
  atomic_fetch_and (bitmap + 4 * entry_block) mask.

(** ** The bits of an array of blocks, and the states of an entry *)

Definition getbit (m : mem) (bitmap n : Z) : bool :=
  Z.testbit (read 4 (bitmap + 4 * (n / 32)) m) (n mod 32).

(** FREE, VALID, BEING_SET (an insertion is under way), VALID and BEING_SET
    (a removal is under way). *)
Inductive entry_state := EFree | EValid | ESetting | ERemoving.

#[export] Instance entry_state_eq_dec : EqDecision entry_state.
Proof. solve_decision. Defined.

Definition entry_of_bits (valid being_set : bool) : entry_state :=
  match valid, being_set with
  | false, false => EFree
  | true, false => EValid
  | false, true => ESetting
  | true, true => ERemoving
  end.

(** The state of the entry that starts at bit [s] of the block [w]. *)
Definition word_entry (w s : Z) : entry_state :=
  entry_of_bits (Z.testbit w s) (Z.testbit w (s + 1)).

Definition entry (m : mem) (bitmap i : Z) : entry_state :=
  entry_of_bits (getbit m bitmap (2 * i)) (getbit m bitmap (2 * i + 1)).

Definition entry_block_addr (bitmap i : Z) : Z := bitmap + 4 * (i / 16).

(** ** Bits of masks *)

Lemma testbit_u32 x n : 0 <= n < 32 → Z.testbit (u32 x) n = Z.testbit x n.
Proof. intros. unfold u32. apply Z.mod_pow2_bits_low. lia. Qed.

Lemma testbit_pow2 k n : 0 <= k → Z.testbit (2 ^ k) n = (n =? k).
Proof.
  intros Hk. destruct (Z.eqb_spec n k) as [->|Hne].
  - by apply Z.pow2_bits_true.
  - apply Z.pow2_bits_false. lia.
Qed.

Lemma shiftl_1 s : 0 <= s → Z.shiftl 1 s = 2 ^ s.
Proof. intros. by rewrite Z.shiftl_1_l. Qed.

Lemma shiftl_2 s : 0 <= s → Z.shiftl 2 s = 2 ^ (s + 1).
Proof. intros. rewrite Z.shiftl_mul_pow2 by done. rewrite Z.pow_add_r by lia. lia. Qed.

Lemma shiftl_3 s : 0 <= s → Z.shiftl 3 s = Z.lor (2 ^ s) (2 ^ (s + 1)).
Proof.
  intros. change 3 with (Z.lor 1 2). rewrite Z.shiftl_lor, shiftl_1, shiftl_2 by done. done.
Qed.

(** [Z.land w mask =? 0] tests the bits of the mask. *)
Lemma land_pow2_eqb w k : 0 <= k < 32 → (Z.land w (u32 (2 ^ k)) =? 0) = negb (Z.testbit w k).
Proof.
  intros Hk. rewrite u32_small by (split; [apply Z.pow_nonneg; lia|apply Z.pow_lt_mono_r; lia]).
  destruct (Z.testbit w k) eqn:E; simpl.
  - apply Z.eqb_neq. intros H0. assert (Z.testbit (Z.land w (2 ^ k)) k = true) as H1.
    { rewrite Z.land_spec, E, testbit_pow2, Z.eqb_refl by lia. done. }
    by rewrite H0, Z.testbit_0_l in H1.
  - apply Z.eqb_eq, Z.bits_inj'. intros n Hn. rewrite Z.testbit_0_l, Z.land_spec, testbit_pow2 by lia.
    destruct (Z.eqb_spec n k) as [->|]; [by rewrite E|apply andb_false_r].
Qed.

Lemma land_pow2_pair_eqb w k : 0 <= k < 31 →
  (Z.land w (u32 (Z.lor (2 ^ k) (2 ^ (k + 1)))) =? 0) = negb (Z.testbit w k || Z.testbit w (k + 1)).
Proof.
  intros Hk. destruct (Z.testbit w k || Z.testbit w (k + 1)) eqn:E; simpl.
  - apply Z.eqb_neq. intros H0.
    assert (∀ n, 0 <= n < 32 → (n =? k) || (n =? k + 1) = true → Z.testbit w n = false) as Hb.
    { intros n Hn Hm. assert (Z.testbit (Z.land w (u32 (Z.lor (2 ^ k) (2 ^ (k + 1))))) n = false) as H1
        by (by rewrite H0, Z.testbit_0_l).
      rewrite Z.land_spec, testbit_u32, Z.lor_spec, !testbit_pow2, Hm, andb_true_r in H1 by lia. done. }
    rewrite (Hb k), (Hb (k + 1)) in E; [done|lia|by rewrite Z.eqb_refl, orb_true_r|lia|by rewrite Z.eqb_refl].
  - apply orb_false_iff in E as [E1 E2]. apply Z.eqb_eq, Z.bits_inj'. intros n Hn.
    rewrite Z.testbit_0_l, Z.land_spec. destruct (decide (n < 32)).
    + rewrite testbit_u32, Z.lor_spec, !testbit_pow2 by lia.
      destruct (Z.eqb_spec n k) as [->|]; [by rewrite E1|].
      destruct (Z.eqb_spec n (k + 1)) as [->|]; [by rewrite E2|]. apply andb_false_r.
    + unfold u32. rewrite Z.mod_pow2_bits_high by lia. apply andb_false_r.
Qed.

(** ** One block: what each loop body does to its entry

    [s] is the first bit of the entry.  [set_entry s e w w']: the block [w']
    is [w] with that entry in the state [e] and every other bit as it was. *)

Definition entry_start_ok (s : Z) : Prop := 0 <= s ∧ s + 1 < 32.

Definition set_entry (s : Z) (e : entry_state) (w w' : Z) : Prop :=
  word_entry w' s = e ∧
  ∀ n, 0 <= n < 32 → n ≠ s → n ≠ s + 1 → Z.testbit w' n = Z.testbit w n.

(** The bits of [w'] decide [set_entry]. *)
Lemma set_entry_bits s e w w' (v b : bool) :
  entry_start_ok s → e = entry_of_bits v b →
  (∀ n, 0 <= n < 32 → Z.testbit w' n =
     if n =? s then v else if n =? s + 1 then b else Z.testbit w n) →
  set_entry s e w w'.
Proof.
  intros [Hs0 Hs1] -> H. split.
  - unfold word_entry. rewrite !H by lia. rewrite !Z.eqb_refl.
    by destruct (Z.eqb_spec (s + 1) s); [lia|].
  - intros n ? H1%Z.eqb_neq H2%Z.eqb_neq. by rewrite H, H1, H2 by done.
Qed.

(** Case analysis on the bit [n] of a block built from masks of [s]. *)
Ltac bit_case n s :=
  rewrite ?Z.land_spec, ?Z.lor_spec, ?testbit_u32, ?Z.lnot_spec, ?Z.lor_spec, ?testbit_pow2 by lia;
  destruct (Z.eqb_spec n s), (Z.eqb_spec n (s + 1)); try lia; subst; simpl;
  rewrite ?andb_true_r, ?orb_false_r, ?orb_true_r, ?andb_false_r; try done.

Ltac mask_simpl :=
  unfold LABSTOR_BIT2MAP_VALID, LABSTOR_BIT2MAP_BEING_SET in *;
  change (Z.lor 1 2) with 3 in *; change (Z.lor 2 1) with 3 in *;
  rewrite ?shiftl_3, ?shiftl_2, ?shiftl_1 by lia.

Lemma begin_modify_block_spec s w :
  entry_start_ok s →
  match begin_modify_block s w with
  | None => word_entry w s ≠ EFree
  | Some w' => word_entry w s = EFree ∧ set_entry s ESetting w w'
  end.
Proof.
  intros Hs. pose proof Hs as [Hs1 Hs2]. unfold begin_modify_block. mask_simpl.
  rewrite land_pow2_pair_eqb, negb_involutive by lia. unfold word_entry.
  destruct (Z.testbit w s) eqn:E1; simpl; [by destruct (Z.testbit w (s + 1))|].
  destruct (Z.testbit w (s + 1)) eqn:E2; [done|]. split; [done|].
  apply (set_entry_bits _ _ _ _ false true); [done..|]. intros n Hn. bit_case n s.
Qed.

Lemma commit_modify_block_spec s w :
  entry_start_ok s → set_entry s EValid w (commit_modify_block s w).
Proof.
  intros Hs. pose proof Hs as [Hs1 Hs2]. unfold commit_modify_block. mask_simpl.
  apply (set_entry_bits _ _ _ _ true false); [done..|]. intros n Hn. bit_case n s.
Qed.

Lemma begin_remove_block_spec s w :
  entry_start_ok s →
  match begin_remove_block s w with
  | None => word_entry w s ≠ EValid
  | Some w' => word_entry w s = EValid ∧ set_entry s ERemoving w w'
  end.
Proof.
  intros Hs. pose proof Hs as [Hs1 Hs2]. unfold begin_remove_block. mask_simpl.
  rewrite !land_pow2_eqb by lia. unfold word_entry.
  destruct (Z.testbit w s) eqn:E1, (Z.testbit w (s + 1)) eqn:E2; simpl; try done.
  split; [done|]. apply (set_entry_bits _ _ _ _ true true); [done..|]. intros n Hn. bit_case n s.
Qed.

Lemma commit_remove_block_spec s w :
  entry_start_ok s → set_entry s EFree w (Z.land w (commit_remove_mask s)).
Proof.
  intros Hs. pose proof Hs as [Hs1 Hs2]. unfold commit_remove_mask. mask_simpl.
  apply (set_entry_bits _ _ _ _ false false); [done..|]. intros n Hn. bit_case n s.
Qed.

(** ** From a block to the array *)

(** The position macro, for the indices the structures use. *)
Lemma bit2map_pos i :
  0 <= i < 2 ^ 32 → LABSTOR_BIT2MAP_POS i = (i / 16, 2 * (i mod 16)).
Proof.
  intros Hi. unfold LABSTOR_BIT2MAP_POS, LABSTOR_BIT2MAP_ENTRIES_PER_BLOCK,
    LABSTOR_BIT2MAP_BLOCK_SIZE_BITS, LABSTOR_BIT2MAP_ENTRY_SIZE_BITS.
  change (4 * 8 / 2) with 16. f_equal; mod_lia.
Qed.

Lemma entry_word m bitmap i :
  0 <= i → entry m bitmap i = word_entry (read 4 (entry_block_addr bitmap i) m) (2 * (i mod 16)).
Proof.
  intros Hi. unfold entry, word_entry, getbit, entry_block_addr.
  replace (2 * i / 32) with (i / 16) by mod_lia.
  replace ((2 * i + 1) / 32) with (i / 16) by mod_lia.
  replace ((2 * i) mod 32) with (2 * (i mod 16)) by mod_lia.
  by replace ((2 * i + 1) mod 32) with (2 * (i mod 16) + 1) by mod_lia.
Qed.

Lemma entry_start_mod i : entry_start_ok (2 * (i mod 16)).
Proof. unfold entry_start_ok. mod_lia. Qed.
#[export] Hint Resolve entry_start_mod : labstor.

(** [entry_update bitmap i e m m']: the only effect on memory is that entry
    [i] is now in state [e]; the block that holds it keeps its other bits. *)
Record entry_update (bitmap i : Z) (e : entry_state) (m m' : mem) : Prop := {
  eu_this : entry m' bitmap i = e;
  eu_other : ∀ j, 0 <= j → j ≠ i → entry m' bitmap j = entry m bitmap j;
  eu_mem : modifies (span (entry_block_addr bitmap i) 4) m m'
}.

Lemma write_entry_update bitmap i e m w :
  0 <= i → valid m (entry_block_addr bitmap i) 4 →
  set_entry (2 * (i mod 16)) e (read 4 (entry_block_addr bitmap i) m) w →
  entry_update bitmap i e m (write 4 (entry_block_addr bitmap i) w m).
Proof.
  intros Hi Hv [He Ho]. pose proof (entry_start_mod i) as [].
  assert (∀ n, 0 <= n < 32 → Z.testbit (read 4 (entry_block_addr bitmap i)
    (write 4 (entry_block_addr bitmap i) w m)) n = Z.testbit w n) as Hb.
  { intros n Hn. rewrite read32_write. by apply testbit_u32. }
  split.
  - rewrite entry_word by done. rewrite <-He. unfold word_entry. by rewrite !Hb by lia.
  - intros j Hj Hne. rewrite !entry_word by done.
    destruct (decide (i / 16 = j / 16)) as [E|E].
    + assert (entry_block_addr bitmap j = entry_block_addr bitmap i) as -> by (unfold entry_block_addr; lia).
      pose proof (entry_start_mod j) as []. unfold word_entry.
      rewrite !Hb, !Ho; try lia; try done; mod_lia.
    + rewrite read_write_other; [done|]. unfold entry_block_addr. simpl. lia.
  - apply modifies_write; [done|]. unfold span; simpl; lia.
Qed.

(** ** The operations of one thread on entry [i] *)

Section bit2map_ops.
Context (bitmap i : Z) (m : mem).
Hypothesis Hi : 0 <= i < 2 ^ 32.
Hypothesis Hv : valid m (entry_block_addr bitmap i) 4.

Ltac at_entry :=
  rewrite bit2map_pos by done; fold (entry_block_addr bitmap i).

Lemma wp_cas32_own p w Q :
  valid m p 4 → Q true (write 4 p w m) → wp (cas32 p (read 4 p m) w) Q m.
Proof. intros ? HQ. unfold cas32. wp_go. rewrite Z.eqb_refl. wp_go. done. Qed.

Lemma begin_modify_spec fuel :
  (0 < fuel)%nat →
  wp (labstor_bit2map_BeginModify fuel bitmap i)
     (λ r m', if decide (entry m bitmap i = EFree)
              then r = true ∧ entry_update bitmap i ESetting m m'
              else r = false ∧ m' = m) m.
Proof.
  intros Hf. unfold labstor_bit2map_BeginModify. at_entry.
  apply wp_inf_spinwait; [done|]. do 2 wp_step. rewrite entry_word by lia.
  pose proof (begin_modify_block_spec _ (read 4 (entry_block_addr bitmap i) m) (entry_start_mod i)) as H.
  destruct (begin_modify_block _ _) as [w|].
  - destruct H as [E Hset].
    apply wp_bind, wp_cas32_own; [done|]. wp_go. exists true. split; [done|].
    rewrite decide_True by done. split; [done|].
    apply write_entry_update; [lia|done..].
  - wp_go. exists false. by rewrite decide_False by done.
Qed.

Lemma commit_modify_spec fuel :
  (0 < fuel)%nat →
  wp (labstor_bit2map_CommitModify fuel bitmap i)
     (λ _ m', entry_update bitmap i EValid m m') m.
Proof.
  intros Hf. unfold labstor_bit2map_CommitModify. at_entry.
  apply wp_inf_spinwait; [done|]. do 2 wp_step.
  apply wp_bind, wp_cas32_own; [done|]. wp_go. exists tt. split; [done|].
  apply write_entry_update; [lia|done|]. apply commit_modify_block_spec, entry_start_mod.
Qed.

Lemma begin_remove_spec fuel :
  (0 < fuel)%nat →
  wp (labstor_bit2map_BeginRemove fuel bitmap i)
     (λ r m', if decide (entry m bitmap i = EValid)
              then r = true ∧ entry_update bitmap i ERemoving m m'
              else r = false ∧ m' = m) m.
Proof.
  intros Hf. unfold labstor_bit2map_BeginRemove. at_entry.
  apply wp_inf_spinwait; [done|]. do 2 wp_step. rewrite entry_word by lia.
  pose proof (begin_remove_block_spec _ (read 4 (entry_block_addr bitmap i) m) (entry_start_mod i)) as H.
  destruct (begin_remove_block _ _) as [w|].
  - destruct H as [E Hset].
    apply wp_bind, wp_cas32_own; [done|]. wp_go. exists true. split; [done|].
    rewrite decide_True by done. split; [done|].
    apply write_entry_update; [lia|done..].
  - wp_go. exists false. by rewrite decide_False by done.
Qed.

Lemma commit_remove_spec :
  wp (labstor_bit2map_CommitRemove bitmap i)
     (λ _ m', entry_update bitmap i EFree m m') m.
Proof.
  unfold labstor_bit2map_CommitRemove, atomic_fetch_and. at_entry. wp_go.
  apply write_entry_update; [lia|done|]. apply commit_remove_block_spec, entry_start_mod.
Qed.

Lemma is_valid_spec :
  labstor_bit2map_IsValid bitmap i m =
    Ret (match entry m bitmap i with EValid | ERemoving => true | _ => false end) m.
Proof.
  apply wp_exact. unfold labstor_bit2map_IsValid, labstor_bit2map_IsSet. at_entry. wp_go.
  pose proof (entry_start_mod i) as []. rewrite entry_word by lia. mask_simpl.
  rewrite land_pow2_eqb, negb_involutive by lia. unfold word_entry.
  by destruct (Z.testbit _ _), (Z.testbit _ _).
Qed.

Lemma is_being_set_spec :
  labstor_bit2map_IsBeingSet bitmap i m =
    Ret (match entry m bitmap i with ESetting | ERemoving => true | _ => false end) m.
Proof.
  apply wp_exact. unfold labstor_bit2map_IsBeingSet, labstor_bit2map_IsSet. at_entry. wp_go.
  pose proof (entry_start_mod i) as []. rewrite entry_word by lia. mask_simpl.
  rewrite land_pow2_eqb, negb_involutive by lia. unfold word_entry.
  by destruct (Z.testbit _ _), (Z.testbit _ _).
Qed.
End bit2map_ops.

(** ** The one-bit map *)

Lemma bitmap_pos i : 0 <= i < 2 ^ 32 → LABSTOR_BITMAP_POS i = (i / 32, i mod 32).
Proof.
  intros Hi. unfold LABSTOR_BITMAP_POS, LABSTOR_BITMAP_ENTRIES_PER_BLOCK.
  change (4 * 8) with 32. f_equal; mod_lia.
Qed.

Lemma bitmap_size n :
  0 <= n < 2 ^ 31 → labstor_bitmap_GetSize n = 4 * ((n + 31) / 32).
Proof.
  intros Hn. unfold labstor_bitmap_GetSize, LABSTOR_BITMAP_ENTRIES_PER_BLOCK.
  change (4 * 8) with 32. rewrite u64_small by lia.
  destruct (Z.eqb_spec (n mod 32) 0); rewrite u32_small by mod_lia; mod_lia.
Qed.

Lemma bit2map_size n :
  0 <= n < 2 ^ 31 → labstor_bit2map_GetSize n = 4 * ((n + 15) / 16).
Proof.
  intros Hn. unfold labstor_bit2map_GetSize, LABSTOR_BIT2MAP_ENTRIES_PER_BLOCK,
    LABSTOR_BIT2MAP_BLOCK_SIZE_BITS, LABSTOR_BIT2MAP_ENTRY_SIZE_BITS.
  change (4 * 8 / 2) with 16. rewrite u64_small by lia.
  destruct (Z.eqb_spec (n mod 16) 0); rewrite u32_small by mod_lia; mod_lia.
Qed.

(** The array [bitmap] of [n] bits holds the set [S]. *)
Record bitmap_rep (bitmap n : Z) (S : gset Z) (m : mem) : Prop := {
  br_n : 0 <= n < 2 ^ 31;
  br_valid : valid m bitmap (labstor_bitmap_GetSize n);
  br_bits : ∀ i, 0 <= i < n → getbit m bitmap i = bool_decide (i ∈ S)
}.

Lemma bitmap_block_valid bitmap n S m i :
  bitmap_rep bitmap n S m → 0 <= i < n → valid m (bitmap + 4 * (i / 32)) 4.
Proof.
  intros [] Hi. rewrite bitmap_size in br_valid0 by done.
  apply (valid_sub _ _ _ _ _ br_valid0); mod_lia.
Qed.

(** One block of the array replaced by a block that differs in one bit. *)
Lemma bitmap_write_bit bitmap n S S' m i w (b : bool) :
  bitmap_rep bitmap n S m → 0 <= i < n →
  (∀ k, 0 <= k < 32 → Z.testbit w k =
     if k =? i mod 32 then b else Z.testbit (read 4 (bitmap + 4 * (i / 32)) m) k) →
  (∀ j, j ∈ S' ↔ if decide (j = i) then b = true else j ∈ S) →
  bitmap_rep bitmap n S' (write 4 (bitmap + 4 * (i / 32)) w m).
Proof.
  intros Hr Hi Hw HS. pose proof (bitmap_block_valid _ _ _ _ _ Hr Hi) as Hv. destruct Hr.
  split; [done|vsolve|]. intros j Hj. apply eq_bool_prop_intro.
  rewrite bool_decide_spec, HS. unfold getbit.
  destruct (decide (j / 32 = i / 32)) as [E|E].
  - rewrite E, read32_write, testbit_u32, Hw by mod_lia.
    destruct (Z.eqb_spec (j mod 32) (i mod 32)).
    + rewrite decide_True by mod_lia. apply Is_true_true.
    + rewrite decide_False by (intros ->; done). rewrite <-E. fold (getbit m bitmap j).
      by rewrite br_bits0, bool_decide_spec.
  - rewrite decide_False by (intros ->; done).
    rewrite read_write_other by (simpl; lia). fold (getbit m bitmap j).
    by rewrite br_bits0, bool_decide_spec.
Qed.

(** Operations, as a set of indices has them. *)
Inductive bitmap_op := BSet (i : Z) | BUnset (i : Z) | BIsSet (i : Z).

Definition bitmap_op_idx (op : bitmap_op) : Z :=
  match op with BSet i | BUnset i | BIsSet i => i end.

Definition set_step (S : gset Z) (op : bitmap_op) : gset Z * option bool :=
  match op with
  | BSet i => ({[i]} ∪ S, None)
  | BUnset i => (S ∖ {[i]}, None)
  | BIsSet i => (S, Some (bool_decide (i ∈ S)))
  end.

Fixpoint set_run (S : gset Z) (ops : list bitmap_op) : gset Z * list (option bool) :=
  match ops with
  | [] => (S, [])
  | op :: ops' =>
      let (S1, r) := set_step S op in let (S2, rs) := set_run S1 ops' in (S2, r :: rs)
  end.

Definition bitmap_step (bitmap : Z) (op : bitmap_op) : M (option bool) :=
  match op with
  | BSet i => _ ← labstor_bitmap_Set bitmap i; mret None
  | BUnset i => _ ← labstor_bitmap_Unset bitmap i; mret None
  | BIsSet i => b ← labstor_bitmap_IsSet bitmap i; mret (Some b)
  end.

Fixpoint bitmap_run (bitmap : Z) (ops : list bitmap_op) : M (list (option bool)) :=
  match ops with
  | [] => mret []
  | op :: ops' => r ← bitmap_step bitmap op; rs ← bitmap_run bitmap ops'; mret (r :: rs)
  end.

Lemma bitmap_step_refines bitmap n S m op :
  bitmap_rep bitmap n S m → 0 <= bitmap_op_idx op < n →
  wp (bitmap_step bitmap op)
     (λ r m', r = (set_step S op).2 ∧ bitmap_rep bitmap n (set_step S op).1 m' ∧
        modifies (span bitmap (labstor_bitmap_GetSize n)) m m') m.
Proof.
  intros Hr Hi. set (i := bitmap_op_idx op) in *.
  pose proof (bitmap_block_valid _ _ _ _ _ Hr Hi) as Hv.
  assert (∀ w, modifies (span bitmap (labstor_bitmap_GetSize n)) m
     (write 4 (bitmap + 4 * (i / 32)) w m)) as Hmod.
  { intros w. apply modifies_write; [done|]. destruct Hr. rewrite bitmap_size by done.
    unfold span. simpl. intros a Ha. mod_lia. }
  pose proof (br_n _ _ _ _ Hr) as Hn.
  assert (0 <= i mod 32 < 32) as Hb by mod_lia.
  destruct op as [j|j|j]; simpl in i; subst i; simpl; apply wp_bind;
    unfold labstor_bitmap_Set, labstor_bitmap_Unset, labstor_bitmap_IsSet;
    rewrite bitmap_pos by lia; rewrite shiftl_1 by lia.
  - unfold atomic_fetch_or. wp_go. split; [done|]. split; [|apply Hmod].
    eapply (bitmap_write_bit _ _ _ _ _ _ _ true Hr Hi).
    + intros k Hk. rewrite Z.lor_spec, testbit_u32, testbit_pow2 by lia.
      destruct (k =? j mod 32); by rewrite ?orb_true_r, ?orb_false_r.
    + clear. intros k. case_decide; subst; set_solver.
  - unfold atomic_fetch_and. wp_go. split; [done|]. split; [|apply Hmod].
    eapply (bitmap_write_bit _ _ _ _ _ _ _ false Hr Hi).
    + intros k Hk. rewrite Z.land_spec, testbit_u32, Z.lnot_spec, testbit_u32, testbit_pow2 by lia.
      destruct (k =? j mod 32); by rewrite ?andb_true_r, ?andb_false_r.
    + clear. intros k. case_decide; subst; set_solver.
  - wp_go. rewrite land_pow2_eqb, negb_involutive by lia. fold (getbit m bitmap j).
    rewrite (br_bits _ _ _ _ Hr j) by done. split; [done|]. split; [done|]. auto with labstor.
Qed.

Lemma bitmap_run_refines ops bitmap n S m :
  bitmap_rep bitmap n S m → Forall (λ op, 0 <= bitmap_op_idx op < n) ops →
  wp (bitmap_run bitmap ops)
     (λ rs m', rs = (set_run S ops).2 ∧ bitmap_rep bitmap n (set_run S ops).1 m' ∧
        modifies (span bitmap (labstor_bitmap_GetSize n)) m m') m.
Proof.
  revert S m. induction ops as [|op ops IH]; intros S m Hr Hops; simpl.
  - wp_go. auto with labstor.
  - apply Forall_cons in Hops as [Hop Hops].
    pose proof (bitmap_step_refines _ _ _ _ _ Hr Hop) as Hs.
    destruct (set_step S op) as [S1 r]. simpl in Hs.
    apply wp_bind. eapply wp_mono; [exact Hs|]. intros ? m1 (-> & Hr1 & Hm1).
    apply wp_bind. specialize (IH S1 m1 Hr1 Hops).
    destruct (set_run S1 ops) as [S2 rs]. eapply wp_mono; [exact IH|].
    intros ? m2 (-> & Hr2 & Hm2). wp_go. split; [done|]. split; [done|]. by eapply modifies_trans.
Qed.

Lemma getbit_zero m bitmap size n :
  (∀ a, bitmap <= a < bitmap + size → m !! a = Some 0) → 0 <= n →
  4 * (n / 32) + 4 <= size → getbit m bitmap n = false.
Proof.
  intros Hz Hn Hlt. unfold getbit. rewrite (read_bytes 4 _ 0), Zmod_0_l; [apply Z.testbit_0_l|].
  intros a Ha. rewrite Hz, Zdiv_0_l; [done|]. simpl in Ha. mod_lia.
Qed.

Lemma bitmap_init_rep bitmap n m :
  0 <= n < 2 ^ 31 → valid m bitmap (labstor_bitmap_GetSize n) →
  wp (labstor_bitmap_Init bitmap n)
     (λ _ m', bitmap_rep bitmap n ∅ m' ∧
        modifies (span bitmap (labstor_bitmap_GetSize n)) m m') m.
Proof.
  intros Hn Hv. unfold labstor_bitmap_Init.
  assert (0 <= labstor_bitmap_GetSize n) by (rewrite bitmap_size by done; mod_lia).
  eapply wp_mono; [apply wp_memset; by rewrite Z2Nat.id by done|].
  rewrite Z2Nat.id by done. intros _ m' [Hm Hz]. split; [|done].
  split; [done|by eapply valid_modifies|]. intros i Hi.
  rewrite bool_decide_false by set_solver. eapply getbit_zero; [exact Hz|lia|].
  rewrite bitmap_size by done. mod_lia.
Qed.

Lemma bit2map_init_free bitmap n m :
  0 <= n < 2 ^ 31 → valid m bitmap (labstor_bit2map_GetSize n) →
  wp (labstor_bit2map_Init bitmap n)
     (λ _ m', (∀ i, 0 <= i < n → entry m' bitmap i = EFree) ∧
        modifies (span bitmap (labstor_bit2map_GetSize n)) m m') m.
Proof.
  intros Hn Hv. unfold labstor_bit2map_Init.
  assert (0 <= labstor_bit2map_GetSize n) by (rewrite bit2map_size by done; mod_lia).
  eapply wp_mono; [apply wp_memset; by rewrite Z2Nat.id by done|].
  rewrite Z2Nat.id by done. intros _ m' [Hm Hz]. split; [|done].
  intros i Hi. unfold entry.
  rewrite !(getbit_zero m' bitmap _ _ Hz); [done|lia|..]; rewrite ?bit2map_size by done; mod_lia.
Qed.

(** ** Theorems *)

(** A bitmap initialised in a mapped region of [labstor_bitmap_GetSize n]
    bytes is a set of indices below [n]: for every sequence of Set, Unset and
    IsSet calls on such indices, each IsSet answers whether the index is in
    the set, starting from the empty set, and no byte outside the bitmap
    changes. *)
Theorem bitmap_implements_set bitmap n ops m :
  0 <= n < 2 ^ 31 → valid m bitmap (labstor_bitmap_GetSize n) →
  Forall (λ op, 0 <= bitmap_op_idx op < n) ops →
  wp (_ ← labstor_bitmap_Init bitmap n; bitmap_run bitmap ops)
     (λ rs m', rs = (set_run ∅ ops).2 ∧
        modifies (span bitmap (labstor_bitmap_GetSize n)) m m') m.
Proof.
  intros Hn Hv Hops. apply wp_bind. eapply wp_mono; [by apply bitmap_init_rep|].
  intros _ m1 [Hr Hm1]. eapply wp_mono; [by apply (bitmap_run_refines ops _ _ _ _ Hr)|].
  intros rs m2 (-> & _ & Hm2). split; [done|]. by eapply modifies_trans.
Qed.

Lemma bitmap_implements_set_witness :
  wp (_ ← labstor_bitmap_Init 4096 40;
      bitmap_run 4096 [BSet 33; BIsSet 33; BIsSet 1; BUnset 33; BIsSet 33])
     (λ rs m', rs = [None; Some true; Some false; None; Some false] ∧
        modifies (span 4096 8) (zero_region 4096 8) m') (zero_region 4096 8).
Proof.
  apply (bitmap_implements_set 4096 40).
  - lia.
  - apply (valid_zero_region 4096 8).
  - repeat constructor; simpl; lia.
Defined.

(** TestAndSet reports whether its compare-and-swap went through, not whether
    the bit was clear before: two calls in a row on the same entry both
    return true. *)
Lemma bitmap_test_and_set_twice :
  wp (a ← labstor_bitmap_TestAndSet 4096 3; b ← labstor_bitmap_TestAndSet 4096 3; mret (a, b))
     (λ r _, r = (true, true)) (zero_region 4096 4).
Proof. vm_compute. reflexivity. Qed.
