(* ===== verification/Bit2mapProtocol.v ===== *)
(** * Bit2mapProtocol.v: the two-bit map under concurrency

    The lock-free protocol of bit2map.h, run by any number of threads on one
    map.  A step is one atomic access of one thread: the load of a block, the
    compare-and-swap that ends an iteration of a retry loop, or the
    fetch-and of CommitRemove.  The block computations are those of Bitmap.v.
    A thread that was granted an entry by BeginModify or BeginRemove owns it
    until its commit takes effect. *)

From S2P Require Import Prelude Memory Bitmap.
From stdpp Require Import relations.

Local Open Scope Z_scope.

(** ** Threads *)

(** What an owner does with its entry. *)
Inductive hold := HModify | HRemove.

(** The program points of a thread: outside the map; before the load or
    before the compare-and-swap of each retry loop; owning an entry. *)
Inductive tstate :=
| TIdle
| TBeginModifyLoad (i : Z)
| TBeginModifyCas (i tmp : Z)
| TBeginRemoveLoad (i : Z)
| TBeginRemoveCas (i tmp : Z)
| TOwner (h : hold) (i : Z)
| TCommitModifyLoad (h : hold) (i : Z)
| TCommitModifyCas (h : hold) (i tmp : Z).

Definition hold_entry (h : hold) : entry_state :=
  match h with HModify => ESetting | HRemove => ERemoving end.

(** The entry a thread owns. *)
Definition owns (s : tstate) : option (Z * hold) :=
  match s with
  | TOwner h i | TCommitModifyLoad h i | TCommitModifyCas h i _ => Some (i, h)
  | _ => None
  end.

Section protocol.
(** The map: its address and the number of its entries. *)
Context (bitmap n : Z).

Definition entry_start (i : Z) : Z := (LABSTOR_BIT2MAP_POS i).2.
Definition block_addr (i : Z) : Z := bitmap + 4 * (LABSTOR_BIT2MAP_POS i).1.

(** One step of the thread at program point [s]. *)
Inductive tstep : tstate → mem → tstate → mem → Prop :=
(* labstor_bit2map_BeginModify *)
| begin_modify_call i m :
    0 <= i < n → tstep TIdle m (TBeginModifyLoad i) m
| begin_modify_load i tmp m :
    load32 (block_addr i) m = Ret tmp m →
    tstep (TBeginModifyLoad i) m
      (match begin_modify_block (entry_start i) tmp with
       | None => TIdle
       | Some _ => TBeginModifyCas i tmp
       end) m
| begin_modify_cas i tmp block ok m m' :
    begin_modify_block (entry_start i) tmp = Some block →
    cas32 (block_addr i) tmp block m = Ret ok m' →
    tstep (TBeginModifyCas i tmp) m
      (if ok : bool then TOwner HModify i else TBeginModifyLoad i) m'
(* labstor_bit2map_BeginRemove *)
| begin_remove_call i m :
    0 <= i < n → tstep TIdle m (TBeginRemoveLoad i) m
| begin_remove_load i tmp m :
    load32 (block_addr i) m = Ret tmp m →
    tstep (TBeginRemoveLoad i) m
      (match begin_remove_block (entry_start i) tmp with
       | None => TIdle
       | Some _ => TBeginRemoveCas i tmp
       end) m
| begin_remove_cas i tmp block ok m m' :
    begin_remove_block (entry_start i) tmp = Some block →
    cas32 (block_addr i) tmp block m = Ret ok m' →
    tstep (TBeginRemoveCas i tmp) m
      (if ok : bool then TOwner HRemove i else TBeginRemoveLoad i) m'
(* labstor_bit2map_CommitModify, or labstor_bit2map_IgnoreRemove *)
| commit_modify_call h i m :
    tstep (TOwner h i) m (TCommitModifyLoad h i) m
| commit_modify_load h i tmp m :
    load32 (block_addr i) m = Ret tmp m →
    tstep (TCommitModifyLoad h i) m (TCommitModifyCas h i tmp) m
| commit_modify_cas h i tmp ok m m' :
    cas32 (block_addr i) tmp (commit_modify_block (entry_start i) tmp) m = Ret ok m' →
    tstep (TCommitModifyCas h i tmp) m (if ok : bool then TIdle else TCommitModifyLoad h i) m'
(* labstor_bit2map_CommitRemove *)
| commit_remove_step i m m' :
    labstor_bit2map_CommitRemove bitmap i m = Ret tt m' →
    tstep (TOwner HRemove i) m TIdle m'.

(** A step of the system: one of its threads moves. *)
Definition system : Type := mem * list tstate.

Inductive step : system → system → Prop :=
| step_thread t s s' m m' ts :
    ts !! t = Some s → tstep s m s' m' → step (m, ts) (m', <[t := s']> ts).

(** ** The invariant *)

Definition in_map (s : tstate) : Prop :=
  match s with
  | TIdle => True
  | TBeginModifyLoad i | TBeginModifyCas i _ | TBeginRemoveLoad i | TBeginRemoveCas i _
  | TOwner _ i | TCommitModifyLoad _ i | TCommitModifyCas _ i _ => 0 <= i < n
  end.

Definition busy (e : entry_state) : bool :=
  match e with ESetting | ERemoving => true | _ => false end.

(** An entry is in the state of its owner, it has at most one, and an entry
    marked as being set has one. *)
Record protocol_inv (st : system) : Prop := {
  pi_valid : valid st.1 bitmap (labstor_bit2map_GetSize n);
  pi_range : Forall in_map st.2;
  pi_state : ∀ t s i h, st.2 !! t = Some s → owns s = Some (i, h) →
    entry st.1 bitmap i = hold_entry h;
  pi_unique : ∀ t1 t2 s1 s2 i h1 h2, st.2 !! t1 = Some s1 → st.2 !! t2 = Some s2 →
    owns s1 = Some (i, h1) → owns s2 = Some (i, h2) → t1 = t2;
  pi_owned : ∀ i, 0 <= i < n → busy (entry st.1 bitmap i) = true →
    ∃ t s h, st.2 !! t = Some s ∧ owns s = Some (i, h)
}.

(** The edges of the life cycle of an entry. *)
Inductive entry_edge : entry_state → entry_state → Prop :=
| edge_begin_modify : entry_edge EFree ESetting
| edge_commit_modify : entry_edge ESetting EValid
| edge_begin_remove : entry_edge EValid ERemoving
| edge_commit_remove : entry_edge ERemoving EFree
| edge_ignore_remove : entry_edge ERemoving EValid.

(** How a step of a thread touches the entries: not at all, or one entry
    takes one edge, and the thread owns it before or after. *)
Inductive tstep_effect (s s' : tstate) (m m' : mem) : Prop :=
| effect_none : owns s' = owns s → m' = m → tstep_effect s s' m m'
| effect_acquire i h : owns s = None → owns s' = Some (i, h) → 0 <= i < n →
    entry_edge (entry m bitmap i) (hold_entry h) →
    entry_update bitmap i (hold_entry h) m m' → tstep_effect s s' m m'
| effect_release i h e : owns s = Some (i, h) → owns s' = None → 0 <= i < n →
    entry_edge (hold_entry h) e → busy e = false →
    entry_update bitmap i e m m' → tstep_effect s s' m m'.

Hypothesis Hn : 0 <= n < 2 ^ 31.

Lemma entry_block_in_map m i :
  valid m bitmap (labstor_bit2map_GetSize n) → 0 <= i < n → valid m (entry_block_addr bitmap i) 4.
Proof.
  intros Hv Hi. rewrite bit2map_size in Hv by done. unfold entry_block_addr.
  apply (valid_sub _ _ _ _ _ Hv); mod_lia.
Qed.

Lemma block_addr_entry i : 0 <= i < n → block_addr i = entry_block_addr bitmap i.
Proof. intros. unfold block_addr. by rewrite bit2map_pos by lia. Qed.

Lemma entry_start_entry i : 0 <= i < n → entry_start i = 2 * (i mod 16).
Proof. intros. unfold entry_start. by rewrite bit2map_pos by lia. Qed.

(** A compare-and-swap either leaves the memory or found the block it had
    read and replaced it. *)
Lemma cas32_inv p old new m ok m' :
  valid m p 4 → cas32 p old new m = Ret ok m' →
  (ok = false ∧ m' = m) ∨ (ok = true ∧ read 4 p m = old ∧ m' = write 4 p new m).
Proof.
  intros Hv%(validb_valid m p 4). unfold cas32, mbind, M_bind, load. rewrite Hv.
  destruct (Z.eqb_spec (read 4 p m) old); unfold store; [rewrite Hv|];
    intros [= <- <-]; [right|left]; done.
Qed.

(** Same, for the block of entry [i] and a block that sets the entry. *)
Lemma cas_entry i e tmp new m ok m' :
  valid m bitmap (labstor_bit2map_GetSize n) → 0 <= i < n →
  set_entry (2 * (i mod 16)) e tmp new →
  cas32 (entry_block_addr bitmap i) tmp new m = Ret ok m' →
  (ok = false ∧ m' = m) ∨
  (ok = true ∧ entry m bitmap i = word_entry tmp (2 * (i mod 16)) ∧ entry_update bitmap i e m m').
Proof.
  intros Hv Hi Hset Hcas. pose proof (entry_block_in_map m i Hv Hi) as Hb.
  destruct (cas32_inv _ _ _ _ _ _ Hb Hcas) as [|(-> & Hread & ->)]; [by left|right].
  split; [done|]. split; [rewrite entry_word by lia; by rewrite Hread|].
  apply write_entry_update; [lia|done|]. by rewrite Hread.
Qed.

Lemma tstep_classify s s' m m' :
  valid m bitmap (labstor_bit2map_GetSize n) → in_map s →
  (∀ i h, owns s = Some (i, h) → entry m bitmap i = hold_entry h) →
  tstep s m s' m' → in_map s' ∧ tstep_effect s s' m m'.
Proof.
  intros Hv Hin Hown Hst. destruct Hst as
    [ i m Hi | i tmp m _ | i tmp block ok m m' Hblk Hcas
    | i m Hi | i tmp m _ | i tmp block ok m m' Hblk Hcas
    | h i m | h i tmp m _ | h i tmp ok m m' Hcas | i m m' Hrun ]; simpl in *.
  - split; [done|by apply effect_none].
  - destruct (begin_modify_block _ _); (split; [done|by apply effect_none]).
  - rewrite block_addr_entry in Hcas by done. rewrite entry_start_entry in Hblk by done.
    pose proof (begin_modify_block_spec _ tmp (entry_start_mod i)) as Hs. rewrite Hblk in Hs.
    destruct Hs as [Hfree Hset].
    destruct (cas_entry _ _ _ _ _ _ _ Hv Hin Hset Hcas) as [[-> ->]|(-> & He & Hup)];
      (split; [done|]); [by apply effect_none|].
    apply (effect_acquire _ _ _ _ i HModify); try done. rewrite He, Hfree. constructor.
  - split; [done|by apply effect_none].
  - destruct (begin_remove_block _ _); (split; [done|by apply effect_none]).
  - rewrite block_addr_entry in Hcas by done. rewrite entry_start_entry in Hblk by done.
    pose proof (begin_remove_block_spec _ tmp (entry_start_mod i)) as Hs. rewrite Hblk in Hs.
    destruct Hs as [Hvalid Hset].
    destruct (cas_entry _ _ _ _ _ _ _ Hv Hin Hset Hcas) as [[-> ->]|(-> & He & Hup)];
      (split; [done|]); [by apply effect_none|].
    apply (effect_acquire _ _ _ _ i HRemove); try done. rewrite He, Hvalid. constructor.
  - split; [done|by apply effect_none].
  - split; [done|by apply effect_none].
  - rewrite block_addr_entry, entry_start_entry in Hcas by done.
    pose proof (commit_modify_block_spec _ tmp (entry_start_mod i)) as Hset.
    destruct (cas_entry _ _ _ _ _ _ _ Hv Hin Hset Hcas) as [[-> ->]|(-> & He & Hup)];
      (split; [done|]); [by apply effect_none|].
    apply (effect_release _ _ _ _ i h EValid); try done. destruct h; constructor.
  - split; [done|].
    pose proof (commit_remove_spec bitmap i m ltac:(lia) (entry_block_in_map m i Hv Hin)) as Hw.
    unfold wp in Hw. rewrite Hrun in Hw.
    apply (effect_release _ _ _ _ i HRemove EFree); try done. constructor.
Qed.

(** ** The invariant is preserved *)

Lemma lookup_step (ts : list tstate) t u s' x :
  <[t := s']> ts !! u = Some x → (u = t ∧ x = s') ∨ (u ≠ t ∧ ts !! u = Some x).
Proof. intros H. apply list_lookup_insert_Some in H as [(<- & -> & _)|[? ?]]; auto. Qed.

Lemma entry_update_edge i e m m' j :
  entry_update bitmap i e m m' → 0 <= j → j ≠ i → entry m' bitmap j = entry m bitmap j.
Proof. intros [_ H _] ??. auto. Qed.

Lemma owns_in_map s i h : in_map s → owns s = Some (i, h) → 0 <= i < n.
Proof. destruct s; simpl; intros ? [=]; by subst. Qed.

Lemma inv_owner_range m ts t s i h :
  protocol_inv (m, ts) → ts !! t = Some s → owns s = Some (i, h) → 0 <= i < n.
Proof.
  intros [_ Hr _ _ _] Hs. simpl in Hr. apply owns_in_map. by eapply Forall_lookup_1 in Hs.
Qed.

(** A thread that moves without touching the map. *)
Lemma inv_effect_none m ts t s s' :
  protocol_inv (m, ts) → ts !! t = Some s → in_map s' → owns s' = owns s →
  protocol_inv (m, <[t := s']> ts).
Proof.
  intros [Hv Hr Hst Hu Ho] Hs Hin Heq. simpl in *. split; simpl.
  - done.
  - by apply Forall_insert.
  - intros u x i h [[-> ->]|[_ Hx]]%lookup_step Hx'; [|by eapply Hst].
    rewrite Heq in Hx'. by eapply Hst.
  - intros u1 u2 x1 x2 i h1 h2 [[-> ->]|[? H1]]%lookup_step [[-> ->]|[? H2]]%lookup_step O1 O2;
      rewrite ?Heq in *; [done| | |]; by eapply Hu.
  - intros i Hi Hb. destruct (Ho i Hi Hb) as (u & x & h & Hx & Hox).
    destruct (decide (u = t)) as [->|Hne].
    + exists t, s', h. rewrite list_lookup_insert_eq by (by eapply lookup_lt_Some).
      split; [done|]. rewrite Heq. by simplify_eq.
    + exists u, x, h. by rewrite list_lookup_insert_ne.
Qed.

Lemma inv_effect_acquire m m' ts t s s' i h :
  protocol_inv (m, ts) → ts !! t = Some s → in_map s' → owns s = None → owns s' = Some (i, h) →
  0 <= i < n → busy (entry m bitmap i) = false →
  entry_update bitmap i (hold_entry h) m m' → protocol_inv (m', <[t := s']> ts).
Proof.
  intros Hinv Hs Hin Hown Hown' Hi Hfree Hup.
  assert (∀ u x k, ts !! u = Some x → owns x ≠ Some (i, k)) as Hnone.
  { intros u x k Hx Hk. pose proof (pi_state _ Hinv u x i k Hx Hk) as He. simpl in He.
    rewrite He in Hfree. by destruct k. }
  assert (∀ u x j k, ts !! u = Some x → owns x = Some (j, k) → 0 <= j ∧ j ≠ i) as Hrange.
  { intros u x j k Hx Hk. pose proof (inv_owner_range _ _ _ _ _ _ Hinv Hx Hk).
    split; [lia|]. intros ->. by eapply Hnone. }
  destruct Hinv as [Hv Hr Hst Hu Ho], Hup as [Hthis Hother Hmem]. simpl in *. split; simpl.
  - by eapply valid_modifies.
  - by apply Forall_insert.
  - intros u x j k [[-> ->]|[_ Hx]]%lookup_step Hx'; [by simplify_eq|].
    destruct (Hrange _ _ _ _ Hx Hx'). rewrite Hother by done. by eapply Hst.
  - intros u1 u2 x1 x2 j h1 h2 [[-> ->]|[? H1]]%lookup_step [[-> ->]|[? H2]]%lookup_step O1 O2;
      [done|simplify_eq; by edestruct Hnone|simplify_eq; by edestruct Hnone|by eapply Hu].
  - intros j Hj Hb. destruct (decide (j = i)) as [->|Hne].
    + exists t, s', h. rewrite list_lookup_insert_eq by (by eapply lookup_lt_Some). done.
    + rewrite Hother in Hb by lia. destruct (Ho j Hj Hb) as (u & x & k & Hx & Hox).
      exists u, x, k. rewrite list_lookup_insert_ne; [done|]. intros ->. by simplify_eq.
Qed.

Lemma inv_effect_release m m' ts t s s' i h e :
  protocol_inv (m, ts) → ts !! t = Some s → in_map s' → owns s = Some (i, h) → owns s' = None →
  busy e = false → entry_update bitmap i e m m' → protocol_inv (m', <[t := s']> ts).
Proof.
  intros Hinv Hs Hin Hown Hown' Hfree Hup.
  assert (∀ u x j k, u ≠ t → ts !! u = Some x → owns x = Some (j, k) → 0 <= j ∧ j ≠ i) as Hrange.
  { intros u x j k Hne Hx Hk. pose proof (inv_owner_range _ _ _ _ _ _ Hinv Hx Hk).
    split; [lia|]. intros ->. apply Hne. by eapply (pi_unique _ Hinv). }
  destruct Hinv as [Hv Hr Hst Hu Ho], Hup as [Hthis Hother Hmem]. simpl in *. split; simpl.
  - by eapply valid_modifies.
  - by apply Forall_insert.
  - intros u x j k [[-> ->]|[Hne Hx]]%lookup_step Hx'; [by simplify_eq|].
    destruct (Hrange _ _ _ _ Hne Hx Hx'). rewrite Hother by done. by eapply Hst.
  - intros u1 u2 x1 x2 j h1 h2 [[-> ->]|[? H1]]%lookup_step [[-> ->]|[? H2]]%lookup_step O1 O2;
      [done|simplify_eq|simplify_eq|by eapply Hu].
  - intros j Hj Hb. destruct (decide (j = i)) as [->|Hne]; [by rewrite Hthis, Hfree in Hb|].
    rewrite Hother in Hb by lia. destruct (Ho j Hj Hb) as (u & x & k & Hx & Hox).
    exists u, x, k. rewrite list_lookup_insert_ne; [done|]. intros ->. by simplify_eq.
Qed.

Lemma entry_edge_not_busy e h : entry_edge e (hold_entry h) → busy e = false.
Proof. by destruct h; simpl; inversion 1. Qed.

(** A step of the system from a state that satisfies the invariant. *)
Lemma step_effect m ts st' :
  protocol_inv (m, ts) → step (m, ts) st' →
  ∃ t s s', ts !! t = Some s ∧ st'.2 = <[t := s']> ts ∧ in_map s' ∧ tstep_effect s s' m st'.1.
Proof.
  intros Hinv Hst. inversion Hst as [t s s' m0 m' ts0 Hs Ht]; subst.
  exists t, s, s'. split; [done|]. split; [done|].
  apply tstep_classify; [apply Hinv| |by intros; eapply (pi_state _ Hinv)|done].
  pose proof (pi_range _ Hinv) as Hr. by eapply Forall_lookup_1 in Hs.
Qed.

Lemma step_inv st st' : protocol_inv st → step st st' → protocol_inv st'.
Proof.
  destruct st as [m ts], st' as [m' ts']. intros Hinv Hst.
  destruct (step_effect _ _ _ Hinv Hst) as (t & s & s' & Hs & Hts & Hin & Heff).
  simpl in *. subst ts'. destruct Heff.
  - subst m'. by eapply inv_effect_none.
  - eapply inv_effect_acquire; try done. by eapply entry_edge_not_busy.
  - by eapply inv_effect_release.
Qed.

Lemma reachable_inv st st' : protocol_inv st → rtc step st st' → protocol_inv st'.
Proof. intros H Hr. induction Hr; [done|]. eauto using step_inv. Qed.

(** A freshly initialised map with idle threads. *)
Lemma initial_inv k m0 m :
  valid m0 bitmap (labstor_bit2map_GetSize n) → labstor_bit2map_Init bitmap n m0 = Ret tt m →
  protocol_inv (m, replicate k TIdle).
Proof.
  intros Hv Hrun. pose proof (bit2map_init_free bitmap n m0 Hn Hv) as Hw.
  unfold wp in Hw. rewrite Hrun in Hw. destruct Hw as [Hfree Hmod].
  split; simpl.
  - by eapply valid_modifies.
  - by apply Forall_replicate.
  - intros t s i h [-> _]%lookup_replicate. done.
  - intros t1 t2 s1 s2 i h1 h2 [-> _]%lookup_replicate. done.
  - intros i Hi. by rewrite Hfree by done.
Qed.
End protocol.

(** ** Theorems *)

(** C4. On a map initialised by Init and used by any number of threads,
    whatever the interleaving of their loads and compare-and-swaps: no two
    threads own the same entry at once, an entry that BeginModify granted is
    BEING_SET and not VALID and one that BeginRemove granted is VALID and
    BEING_SET for as long as it is owned, and no entry is left marked
    BEING_SET without an owner. *)
Theorem bit2map_mutual_exclusion bitmap n k m0 m1 m ts :
  0 <= n < 2 ^ 31 → valid m0 bitmap (labstor_bit2map_GetSize n) →
  labstor_bit2map_Init bitmap n m0 = Ret tt m1 →
  rtc (step bitmap n) (m1, replicate k TIdle) (m, ts) →
  (∀ t1 t2 s1 s2 i h1 h2, ts !! t1 = Some s1 → ts !! t2 = Some s2 →
     owns s1 = Some (i, h1) → owns s2 = Some (i, h2) →
     t1 = t2 ∧ entry m bitmap i = hold_entry h1) ∧
  (∀ i, 0 <= i < n → busy (entry m bitmap i) = true →
     ∃ t s h, ts !! t = Some s ∧ owns s = Some (i, h)).
Proof.
  intros Hn Hv Hinit Hr.
  pose proof (reachable_inv _ _ Hn _ _ (initial_inv _ _ Hn k _ _ Hv Hinit) Hr) as [_ _ Hst Hu Ho].
  simpl in *. split; [|done]. intros t1 t2 s1 s2 i h1 h2 H1 H2 O1 O2.
  split; [by eapply Hu|exact (Hst t1 s1 i h1 H1 O1)].
Qed.

(** Two threads ask for entry 1 of an empty map: both read the block, the
    first compare-and-swap succeeds, the second fails. *)
Definition race_memory : mem := zero_region 4096 4.
Definition race_threads : list tstate := [TOwner HModify 1; TBeginModifyLoad 1].

Lemma race_reachable :
  rtc (step 4096 16) (race_memory, replicate 2 TIdle) (write 4 4096 8 race_memory, race_threads).
Proof.
  eapply rtc_l; [apply (step_thread _ _ 0 TIdle), (begin_modify_call _ _ 1); (done || lia)|].
  eapply rtc_l; [apply (step_thread _ _ 1 TIdle), (begin_modify_call _ _ 1); (done || lia)|].
  eapply rtc_l; [eapply (step_thread _ _ 0); [reflexivity|by apply (begin_modify_load _ _ 1 0)]|].
  eapply rtc_l; [eapply (step_thread _ _ 1); [reflexivity|by apply (begin_modify_load _ _ 1 0)]|].
  eapply rtc_l.
  { eapply (step_thread _ _ 0); [reflexivity|].
    apply (begin_modify_cas _ _ 1 0 8 true _ (write 4 4096 8 race_memory)); reflexivity. }
  eapply rtc_l.
  { eapply (step_thread _ _ 1); [reflexivity|].
    apply (begin_modify_cas _ _ 1 0 8 false _ (write 4 4096 8 race_memory)); reflexivity. }
  apply rtc_refl.
Qed.

Lemma bit2map_mutual_exclusion_witness :
  entry (write 4 4096 8 race_memory) 4096 1 = ESetting ∧
  ∃ t s h, race_threads !! t = Some s ∧ owns s = Some (1, h).
Proof.
  pose proof (bit2map_mutual_exclusion 4096 16 2 race_memory race_memory
    (write 4 4096 8 race_memory) race_threads ltac:(lia) (valid_zero_region 4096 4)
    ltac:(reflexivity) race_reachable) as [H1 H2]. split.
  - by apply (H1 0%nat 0%nat (TOwner HModify 1) (TOwner HModify 1) 1 HModify HModify).
  - apply H2; [lia|reflexivity].
Defined.

(** C23. Every entry of a bit2map only ever moves along its life cycle, under any
    number of threads and any interleaving of their steps: in any step of any
    reachable state, either no byte changes or exactly one
    entry changes, along one of the edges free -> being set -> valid -> being
    removed -> free (or back to valid for an ignored removal), and the thread
    that made the step owned it before or owns it after. *)
Theorem bit2map_life_cycle bitmap n k m0 m1 m ts m' ts' :
  0 <= n < 2 ^ 31 → valid m0 bitmap (labstor_bit2map_GetSize n) →
  labstor_bit2map_Init bitmap n m0 = Ret tt m1 →
  rtc (step bitmap n) (m1, replicate k TIdle) (m, ts) →
  step bitmap n (m, ts) (m', ts') →
  m' = m ∨
  ∃ i t s s', 0 <= i < n ∧ entry_edge (entry m bitmap i) (entry m' bitmap i) ∧
    (∀ j, 0 <= j → j ≠ i → entry m' bitmap j = entry m bitmap j) ∧
    modifies (span (entry_block_addr bitmap i) 4) m m' ∧
    ts !! t = Some s ∧ ts' = <[t := s']> ts ∧
    (fst <$> owns s = Some i ∨ fst <$> owns s' = Some i).
Proof.
  intros Hn Hv Hinit Hr Hst.
  pose proof (reachable_inv _ _ Hn _ _ (initial_inv _ _ Hn k _ _ Hv Hinit) Hr) as Hinv.
  destruct (step_effect _ _ Hn _ _ _ Hinv Hst) as (t & s & s' & Hs & Hts & _ & Heff).
  simpl in *. destruct Heff as [|i h Ho Ho' Hi He [H1 H2 H3]|i h e Ho Ho' Hi He Hb [H1 H2 H3]];
    [by left|right; exists i, t, s, s'..]; (split; [done|]).
  - rewrite H1, Ho'. do 5 (split; [done|]). by right.
  - pose proof (pi_state _ _ _ Hinv t s i h Hs Ho) as Hh. simpl in Hh. rewrite H1, Hh, Ho.
    do 5 (split; [done|]). by left.
Qed.

Lemma bit2map_life_cycle_witness :
  let m := write 4 4096 8 race_memory in
  m = race_memory ∨
  ∃ i t s s', 0 <= i < 16 ∧ entry_edge (entry race_memory 4096 i) (entry m 4096 i) ∧
    (∀ j, 0 <= j → j ≠ i → entry m 4096 j = entry race_memory 4096 j) ∧
    modifies (span (entry_block_addr 4096 i) 4) race_memory m ∧
    [TBeginModifyCas 1 0] !! t = Some s ∧ [TOwner HModify 1] = <[t := s']> [TBeginModifyCas 1 0] ∧
    (fst <$> owns s = Some i ∨ fst <$> owns s' = Some i).
Proof.
  apply (bit2map_life_cycle 4096 16 1 race_memory race_memory race_memory [TBeginModifyCas 1 0]).
  - lia.
  - apply (valid_zero_region 4096 4).
  - reflexivity.
  - eapply rtc_l; [apply (step_thread _ _ 0 TIdle), (begin_modify_call _ _ 1); (done || lia)|].
    eapply rtc_l; [eapply (step_thread _ _ 0); [reflexivity|by apply (begin_modify_load _ _ 1 0)]|].
    apply rtc_refl.
  - eapply (step_thread _ _ 0 _ (TOwner HModify 1)); [reflexivity|].
    apply (begin_modify_cas _ _ 1 0 8 true); reflexivity.
Defined.
