(* ===== verification/RequestQueue.v ===== *)
(** * RequestQueue.v: the submission queue and the completion map

    include/labstor/types/data_structures/shmem_qtok.h, shmem_request.h,
    c/shmem_request_queue.h and c/shmem_request_map.h.  A submission queue is
    a 12-byte header (the queue id) followed by a request ring whose entries
    are offsets of requests from the base of the shared region; a completion
    map is an array of such offsets indexed by request id modulo its size,
    with -1 for an empty bucket. *)

From S2P Require Import Prelude Memory RingBuffer.

Local Open Scope Z_scope.

(** ** Requests, queue ids and tokens *)

(** Layout of [struct labstor_request]. *)
Definition rq_req_id_ : Z := 0.
Definition rq_ns_id_ : Z := 4.
Definition rq_code_ : Z := 8.
Definition rq_op_ : Z := 12.
Definition sizeof_labstor_request : Z := 16.

(** [labstor_qid_t] and [struct labstor_qtok_t]. *)
Record labstor_qid_t := {
  qid_flags_ : Z;
  qid_type_ : Z;
  qid_cnt_ : Z;
  qid_pid_ : Z
}.

#[export] Instance labstor_qid_t_eq_dec : EqDecision labstor_qid_t.
Proof. solve_decision. Defined.

Record labstor_qtok_t := {
  qtok_qid_ : labstor_qid_t;
  qtok_req_id_ : Z
}.

Definition sizeof_labstor_qid_t : Z := 8.

(** Assigning a queue id in memory, and reading it. *)
Definition store_qid (p : Z) (qid : labstor_qid_t) : M unit :=
  _ ← store8 p (qid_flags_ qid);
  _ ← store8 (p + 1) (qid_type_ qid);
  _ ← store16 (p + 2) (qid_cnt_ qid);
  store32 (p + 4) (qid_pid_ qid).

Definition load_qid (p : Z) : M labstor_qid_t :=
  flags ← load8 p;
  type ← load8 (p + 1);
  cnt ← load16 (p + 2);
  pid ← load32 (p + 4);
  mret {| qid_flags_ := flags; qid_type_ := type; qid_cnt_ := cnt; qid_pid_ := pid |}.

(** [labstor_qid_t::Hash]: [pid_ % (1<<16)] converts [pid_] from unsigned. *)
Definition labstor_qid_t_Hash (qid : labstor_qid_t) : Z :=
  let num := u64 (0 + qid_flags_ qid) in
  let num := u64 (Z.shiftl num 8) in
  let num := u64 (num + qid_type_ qid) in
  let num := u64 (Z.shiftl num 8) in
  let num := u64 (num + qid_pid_ qid mod Z.shiftl 1 16) in
  let num := u64 (Z.shiftl num 16) in
  u64 (num + qid_cnt_ qid).

(** [operator ==]: the type is not compared. *)
Definition labstor_qid_t_eq (this qid : labstor_qid_t) : bool :=
  (qid_flags_ qid =? qid_flags_ this) && (qid_pid_ qid =? qid_pid_ this) &&
  (qid_cnt_ qid =? qid_cnt_ this).

(** ** The submission queue *)

(** [struct labstor_request_queue_header]: the qid, then [update_[2]]. *)
Definition lrqh_qid_ : Z := 0.
Definition lrqh_update_ : Z := 8.
Definition sizeof_lrq_header : Z := 12.

Record labstor_request_queue := {
  lrq_base_region_ : Z;
  lrq_header_ : Z;
  lrq_queue_ : labstor_request_ring_buffer
}.

Definition labstor_request_queue_GetSize_global (max_depth : Z) : Z :=
  u32 (sizeof_lrq_header + labstor_request_ring_buffer_GetSize_global max_depth).

Definition labstor_request_queue_GetSize (lrq : labstor_request_queue) : M Z :=
  max_depth ← labstor_request_ring_buffer_GetMaxDepth (lrq_queue_ lrq);
  mret (labstor_request_queue_GetSize_global max_depth).

Definition labstor_request_queue_GetRegion (lrq : labstor_request_queue) : Z := lrq_header_ lrq.

Definition labstor_request_queue_GetDepth (lrq : labstor_request_queue) : M Z :=
  labstor_request_ring_buffer_GetDepth (lrq_queue_ lrq).

Definition labstor_request_queue_GetMaxDepth (lrq : labstor_request_queue) : M Z :=
  labstor_request_ring_buffer_GetMaxDepth (lrq_queue_ lrq).

Definition labstor_request_queue_GetFlags (lrq : labstor_request_queue) : M Z :=
  load8 (lrq_header_ lrq + lrqh_qid_).

(** The result of the ring's Init is not tested; [lrq] is the handle before
    the call. *)
Definition labstor_request_queue_Init (b : build) (lrq : labstor_request_queue)
    (base_region region region_size depth : Z) (qid : labstor_qid_t) : M labstor_request_queue :=
  _ ← store_qid (region + lrqh_qid_) qid;
  _ ← store16 (region + lrqh_update_) 0;
  _ ← store16 (region + lrqh_update_ + 2) 0;
  r ← labstor_request_ring_buffer_Init b (lrq_queue_ lrq) (region + sizeof_lrq_header)
        (u32 (region_size - sizeof_lrq_header)) depth;
  mret {| lrq_base_region_ := base_region; lrq_header_ := region; lrq_queue_ := r.1 |}.

Definition labstor_request_queue_Attach (base_region region : Z) : labstor_request_queue :=
  {| lrq_base_region_ := base_region;
     lrq_header_ := region;
     lrq_queue_ := labstor_request_ring_buffer_Attach (region + sizeof_lrq_header) |}.

Definition labstor_request_queue_RemoteAttach (kern_lrq_region kern_base_region : Z) : labstor_request_queue :=
  {| lrq_base_region_ := kern_base_region;
     lrq_header_ := kern_lrq_region;
     lrq_queue_ := labstor_request_ring_buffer_RemoteAttach (kern_lrq_region + sizeof_lrq_header) |}.

(** A pointer to the queue id. *)
Definition labstor_request_queue_GetQID (lrq : labstor_request_queue) : Z :=
  lrq_header_ lrq + lrqh_qid_.

(** Enqueue spins while the ring is full; the result is the token. *)
Definition labstor_request_queue_Enqueue (fuel : nat) (lrq : labstor_request_queue) (rq : Z)
    : M labstor_qtok_t :=
  inf_spinwait fuel
    (r ← labstor_request_ring_buffer_Enqueue (lrq_queue_ lrq)
           (LABSTOR_REGION_SUB rq (lrq_base_region_ lrq)) (Some (rq + rq_req_id_));
     match r with
     | Some _ =>
         qid ← load_qid (lrq_header_ lrq + lrqh_qid_);
         req_id ← load32 (rq + rq_req_id_);
         mret (Some {| qtok_qid_ := qid; qtok_req_id_ := req_id |})
     | None => mret None
     end).

Definition labstor_request_queue_EnqueueSimple (fuel : nat) (lrq : labstor_request_queue) (rq : Z)
    : M bool :=
  inf_spinwait fuel
    (r ← labstor_request_ring_buffer_Enqueue (lrq_queue_ lrq)
           (LABSTOR_REGION_SUB rq (lrq_base_region_ lrq)) (Some (rq + rq_req_id_));
     mret (match r with Some _ => Some true | None => None end)).

(** [i] is an [int] passed as [uint32_t]. *)
Definition labstor_request_queue_Peek (lrq : labstor_request_queue) (i : Z) : M (option Z) :=
  r ← labstor_request_ring_buffer_Peek (lrq_queue_ lrq) (u32 i);
  mret (match r with
        | Some off => Some (LABSTOR_REGION_ADD off (lrq_base_region_ lrq))
        | None => None
        end).

Definition labstor_request_queue_Dequeue (lrq : labstor_request_queue) : M (option Z) :=
  r ← labstor_request_ring_buffer_Dequeue (lrq_queue_ lrq);
  mret (match r with
        | Some off => Some (LABSTOR_REGION_ADD off (lrq_base_region_ lrq))
        | None => None
        end).

(** Queue plugging: the bodies are empty. *)
Definition labstor_request_queue_MarkPaused (lrq : labstor_request_queue) : M unit := mret tt.
Definition labstor_request_queue_IsPaused (lrq : labstor_request_queue) : bool := false.
Definition labstor_request_queue_UnPause (lrq : labstor_request_queue) : M unit := mret tt.

(** ** The completion map *)

Definition LABSTOR_INVALID_REQUEST_ID : Z := 4294967295.
Definition INVALID_UNORDERED_MAP_SIZE : Z := 301.

(** [struct labstor_request_map_header]. *)
Definition rmh_num_buckets_ : Z := 0.
Definition sizeof_rm_header : Z := 4.

Record labstor_request_map := {
  rm_header_ : Z;
  rm_buckets_ : Z;
  rm_base_region_ : Z
}.

Definition labstor_request_map_GetSize_global (num_buckets : Z) : Z :=
  u32 (sizeof_rm_header + sizeof_labstor_off_t * num_buckets).

Definition labstor_request_map_GetSize (map : labstor_request_map) : M Z :=
  num_buckets ← load32 (rm_header_ map + rmh_num_buckets_);
  mret (labstor_request_map_GetSize_global num_buckets).

Definition labstor_request_map_GetRegion (map : labstor_request_map) : Z := rm_header_ map.
Definition labstor_request_map_GetBaseRegion (map : labstor_request_map) : Z := rm_base_region_ map.

Definition labstor_request_map_GetNumBuckets (map : labstor_request_map) : M Z :=
  load32 (rm_header_ map + rmh_num_buckets_).

Definition request_map_size_error (b : build) (map : labstor_request_map)
    : M (labstor_request_map * bool) :=
  match b with
  | Userspace => throw INVALID_UNORDERED_MAP_SIZE
  | Kernel => mret (map, false)
  end.

(** The whole bucket array is set to 0xFF bytes, so every bucket is -1. *)
Definition labstor_request_map_Init (b : build) (map : labstor_request_map)
    (base_region region region_size num_buckets : Z) : M (labstor_request_map * bool) :=
  let map := {| rm_header_ := region; rm_buckets_ := rm_buckets_ map; rm_base_region_ := base_region |} in
  if region_size <? labstor_request_map_GetSize_global num_buckets then request_map_size_error b map
  else
    let num_buckets :=
      if num_buckets =? 0
      then u32 (region_size - sizeof_rm_header) / sizeof_labstor_off_t
      else num_buckets in
    if num_buckets =? 0 then request_map_size_error b map
    else
      _ ← store32 (region + rmh_num_buckets_) num_buckets;
      let buckets := region + sizeof_rm_header in
      n ← load32 (region + rmh_num_buckets_);
      _ ← memset buckets LABSTOR_INVALID_REQUEST_ID (Z.to_nat (n * sizeof_labstor_off_t));
      mret ({| rm_header_ := region; rm_buckets_ := buckets; rm_base_region_ := base_region |}, true).

Definition labstor_request_map_Attach (base_region region : Z) : labstor_request_map :=
  {| rm_header_ := region;
     rm_buckets_ := region + sizeof_rm_header;
     rm_base_region_ := base_region |}.

Definition labstor_request_map_RemoteAttach (kern_base_region kern_region : Z) : labstor_request_map :=
  {| rm_header_ := kern_region;
     rm_buckets_ := kern_region + sizeof_rm_header;
     rm_base_region_ := kern_base_region |}.

Definition labstor_request_map_Set (map : labstor_request_map) (rq : Z) : M bool :=
  req_id ← load32 (rq + rq_req_id_);
  num_buckets ← load32 (rm_header_ map + rmh_num_buckets_);
  b ← umod req_id num_buckets;
  bucket ← load_s32 (rm_buckets_ map + sizeof_labstor_off_t * b);
  if negb (bucket =? -1) then mret false
  else
    _ ← store_s32 (rm_buckets_ map + sizeof_labstor_off_t * b)
          (LABSTOR_REGION_SUB rq (rm_base_region_ map));
    mret true.

(** [Some value]: returned true with [*value] set. *)
Definition labstor_request_map_FindAndRemove (map : labstor_request_map) (key : Z) : M (option Z) :=
  num_buckets ← load32 (rm_header_ map + rmh_num_buckets_);
  b ← umod key num_buckets;
  bucket ← load_s32 (rm_buckets_ map + sizeof_labstor_off_t * b);
  if bucket =? -1 then mret None
  else
    off ← load_s32 (rm_buckets_ map + sizeof_labstor_off_t * b);
    _ ← store_s32 (rm_buckets_ map + sizeof_labstor_off_t * b) (-1);
    mret (Some (LABSTOR_REGION_ADD off (rm_base_region_ map))).

#[export] Hint Unfold rq_req_id_ rq_ns_id_ rq_code_ rq_op_ sizeof_labstor_request
  sizeof_labstor_qid_t lrqh_qid_ lrqh_update_ sizeof_lrq_header
  rmh_num_buckets_ sizeof_rm_header : layout.

(** ** The submission queue as a list of requests *)

(** A request lies at most 2 GiB above the base, so that its offset is a
    [labstor_off_t]. *)
Definition near (base p : Z) : Prop := 0 <= base ∧ 0 <= p - base < 2 ^ 31 ∧ p < 2 ^ 64.

Lemma near_sub base p : near base p → LABSTOR_REGION_SUB p base = p - base.
Proof. intros (? & ? & ?). by apply region_sub_small. Qed.

Lemma near_add base p : near base p → LABSTOR_REGION_ADD (p - base) base = p.
Proof. unfold LABSTOR_REGION_ADD. lia. Qed.

Lemma near_off base p : near base p → - 2 ^ 31 <= p - base < 2 ^ 31.
Proof. intros (? & ? & ?). lia. Qed.

#[export] Hint Resolve near_off : labstor.

Definition qid_at (p : Z) (m : mem) : labstor_qid_t :=
  {| qid_flags_ := read 1 p m; qid_type_ := read 1 (p + 1) m;
     qid_cnt_ := read 2 (p + 2) m; qid_pid_ := read 4 (p + 4) m |}.

Definition qid_in_range (qid : labstor_qid_t) : Prop :=
  0 <= qid_flags_ qid < 2 ^ 8 ∧ 0 <= qid_type_ qid < 2 ^ 8 ∧
  0 <= qid_cnt_ qid < 2 ^ 16 ∧ 0 <= qid_pid_ qid < 2 ^ 32.

(** The bytes of a queue of depth [cap]. *)
Definition lrq_span (lrq : labstor_request_queue) (cap : Z) : Z → Prop :=
  span (lrq_header_ lrq)
    (sizeof_lrq_header + (sizeof_rb_header + sizeof_labstor_off_t * cap)).

(** The queue [lrq] of depth [cap], with [dequeued_ = d], holds [rqs]. *)
Record lrq_rep (lrq : labstor_request_queue) (qid : labstor_qid_t) (cap d : Z)
    (rqs : list Z) (m : mem) : Prop := {
  lr_handle : lrq_queue_ lrq = labstor_request_ring_buffer_Attach (lrq_header_ lrq + sizeof_lrq_header);
  lr_valid : valid m (lrq_header_ lrq) sizeof_lrq_header;
  lr_qid : qid_at (lrq_header_ lrq + lrqh_qid_) m = qid;
  lr_ring : rb_rep (lrq_queue_ lrq) cap d ((λ p, p - lrq_base_region_ lrq) <$> rqs) m;
  lr_near : Forall (near (lrq_base_region_ lrq)) rqs
}.

(** A request object that lies outside a range of addresses. *)
Definition outside (p n a k : Z) : Prop := p + n <= a ∨ a + k <= p.

Lemma qid_at_modifies P p m m' :
  modifies P m m' → (∀ a, p <= a < p + 8 → ¬ P a) → qid_at p m' = qid_at p m.
Proof.
  intros Hm HP. unfold qid_at.
  f_equal; eapply read_modifies; [exact Hm| |exact Hm| |exact Hm| |exact Hm|];
    intros a Ha; simpl in Ha; apply HP; lia.
Qed.

Lemma wp_load_qid p Q m : valid m p 8 → Q (qid_at p m) m → wp (load_qid p) Q m.
Proof. intros Hv HQ. unfold load_qid. wp_go. exact HQ. Qed.

Lemma wp_store_qid p qid m :
  valid m p 8 → qid_in_range qid →
  wp (store_qid p qid) (λ _ m', qid_at p m' = qid ∧ modifies (span p 8) m m') m.
Proof.
  intros Hv (H1 & H2 & H3 & H4). unfold store_qid. wp_go. split; [|msolve].
  unfold qid_at. destruct qid as [f t c i]. simpl in *.
  mem_simpl. f_equal; unfold u8, u16; by apply Z.mod_small.
Qed.

Lemma lrq_rep_len lrq qid cap d rqs m :
  lrq_rep lrq qid cap d rqs m → Z.of_nat (length rqs) <= cap ∧ 0 < cap < 2 ^ 32.
Proof. intros [_ _ _ [] _]. rewrite length_fmap in *. done. Qed.

Lemma lrq_rep_deq_range lrq qid cap d rqs m : lrq_rep lrq qid cap d rqs m → 0 <= d < 2 ^ 32.
Proof. intros [_ _ _ Hr _]. by eapply rb_rep_deq_range. Qed.

(** The representation depends only on the bytes of the queue. *)
Lemma lrq_rep_frame lrq qid cap d rqs P m m' :
  lrq_rep lrq qid cap d rqs m → modifies P m m' →
  (∀ a, lrq_span lrq cap a → ¬ P a) → lrq_rep lrq qid cap d rqs m'.
Proof.
  intros Hr Hm HP. pose proof (lrq_rep_len _ _ _ _ _ _ Hr) as [_ Hc]. destruct Hr.
  unfold lrq_span, span in HP. autounfold with layout in *.
  split; autounfold with layout; try done.
  - by eapply valid_modifies.
  - rewrite <-lr_qid0. eapply qid_at_modifies; [exact Hm|]. intros a Ha. apply HP. lia.
  - eapply rb_rep_frame; [done|exact Hm|]. intros a Ha. apply HP.
    rewrite lr_handle0 in Ha. unfold rb_span, span in Ha. simpl in Ha.
    autounfold with layout in Ha. lia.
Qed.

Lemma lrq_enqueue_full fuel lrq qid cap d rqs m rq :
  lrq_rep lrq qid cap d rqs m → Z.of_nat (length rqs) = cap →
  labstor_request_queue_Enqueue fuel lrq rq m = Spin m.
Proof.
  intros Hr Hfull. unfold labstor_request_queue_Enqueue.
  induction fuel as [|fuel IH]; [done|]. simpl.
  rewrite (run_bind _ _ None m m); [exact IH|]. rewrite (run_bind _ _ None m m); [done|].
  apply (enqueue_full _ _ _ _ _ _ _ (lr_ring _ _ _ _ _ _ Hr)). by rewrite length_fmap.
Qed.

Lemma lrq_enqueue_accepts fuel lrq qid cap d rqs m rq :
  (0 < fuel)%nat → lrq_rep lrq qid cap d rqs m → (rqs ≠ [] → ring_ok cap d) →
  Z.of_nat (length rqs) < cap → near (lrq_base_region_ lrq) rq → valid m rq 4 →
  outside rq 4 (lrq_header_ lrq) (24 + 4 * cap) →
  wp (labstor_request_queue_Enqueue fuel lrq rq)
     (λ tok m', tok = {| qtok_qid_ := qid; qtok_req_id_ := u32 (d + Z.of_nat (length rqs)) |} ∧
        lrq_rep lrq qid cap d (rqs ++ [rq]) m' ∧
        read 4 rq m' = u32 (d + Z.of_nat (length rqs)) ∧
        modifies (both (rb_span (lrq_queue_ lrq) cap) (span rq 4)) m m') m.
Proof.
  intros Hf Hr Hok Hlt Hnear Hv Hout. pose proof (lrq_rep_len _ _ _ _ _ _ Hr) as [_ Hc].
  destruct Hr. unfold outside in Hout.
  assert (rb_header_ (lrq_queue_ lrq) = lrq_header_ lrq + 12) as Hh by (by rewrite lr_handle0).
  apply wp_inf_spinwait; [done|]. rewrite near_sub by done. autounfold with layout in *.
  rewrite ?Z.add_0_r in *. apply wp_bind. eapply wp_mono.
  { apply (enqueue_accepts _ _ _ _ _ _ (Some rq) lr_ring0); rewrite ?length_fmap; auto with labstor.
    { intros Hne. apply Hok. by intros ->. }
    simpl. autounfold with layout. split; [done|]. rewrite Hh. lia. }
  simpl. rewrite length_fmap. intros r m' (-> & Hring & Hid & Hm).
  assert (modifies (both (rb_span (lrq_queue_ lrq) cap) (span rq 4)) m m') as Hm' by done.
  apply wp_bind, wp_load_qid; [eapply valid_modifies; [exact Hm|vsolve]|].
  apply wp_bind, wp_load; [by eapply valid_modifies|]. wp_go.
  assert (qid_at (lrq_header_ lrq) m' = qid) as Hqid.
  { rewrite <-lr_qid0. eapply qid_at_modifies; [exact Hm|]. intros a Ha.
    unfold both, rb_span, span. rewrite Hh. autounfold with layout. lia. }
  eexists. split; [done|]. rewrite Hid, Hqid. split; [done|]. split; [|split; done].
  split; autounfold with layout; rewrite ?Z.add_0_r; try done.
  - by eapply valid_modifies.
  - rewrite fmap_app. exact Hring.
  - apply Forall_app. split; [done|]. by constructor.
Qed.

Lemma lrq_enqueue_space fuel lrq qid cap d rqs m rq :
  (0 < fuel)%nat → lrq_rep lrq qid cap d rqs m → ring_ok cap d →
  Z.of_nat (length rqs) < cap → near (lrq_base_region_ lrq) rq → valid m rq 4 →
  outside rq 4 (lrq_header_ lrq) (24 + 4 * cap) →
  wp (labstor_request_queue_Enqueue fuel lrq rq)
     (λ tok m', tok = {| qtok_qid_ := qid; qtok_req_id_ := u32 (d + Z.of_nat (length rqs)) |} ∧
        lrq_rep lrq qid cap d (rqs ++ [rq]) m' ∧
        read 4 rq m' = u32 (d + Z.of_nat (length rqs)) ∧
        modifies (both (rb_span (lrq_queue_ lrq) cap) (span rq 4)) m m') m.
Proof. intros Hf Hr Hok. by apply lrq_enqueue_accepts. Qed.

Lemma lrq_dequeue_empty lrq qid cap d m :
  lrq_rep lrq qid cap d [] m → labstor_request_queue_Dequeue lrq m = Ret None m.
Proof.
  intros []. unfold labstor_request_queue_Dequeue, mbind, M_bind.
  by rewrite (dequeue_empty _ _ _ _ lr_ring0).
Qed.

Lemma lrq_dequeue_nonempty lrq qid cap d rq rqs m :
  lrq_rep lrq qid cap d (rq :: rqs) m →
  wp (labstor_request_queue_Dequeue lrq)
     (λ r m', r = Some rq ∧ lrq_rep lrq qid cap (u32 (d + 1)) rqs m' ∧
        modifies (rb_span (lrq_queue_ lrq) cap) m m') m.
Proof.
  intros Hr. pose proof (lrq_rep_len _ _ _ _ _ _ Hr) as [_ Hc]. destruct Hr.
  apply Forall_cons in lr_near0 as [Hn Hns].
  assert (rb_header_ (lrq_queue_ lrq) = lrq_header_ lrq + 12) as Hh by (by rewrite lr_handle0).
  apply wp_bind. simpl in lr_ring0. eapply wp_mono; [exact (dequeue_nonempty _ _ _ _ _ _ lr_ring0)|].
  intros r m' (-> & Hring & Hm). wp_go.
  rewrite near_add by done. split; [done|].
  assert (modifies (rb_span (lrq_queue_ lrq) cap) m m') as Hm'.
  { eapply modifies_weaken; [exact Hm|]. unfold rb_span, span. autounfold with layout. lia. }
  split; [|done]. split; try done.
  - by eapply valid_modifies.
  - rewrite <-lr_qid0. eapply qid_at_modifies; [exact Hm'|]. unfold rb_span, span. rewrite Hh.
    autounfold with layout. lia.
Qed.

Lemma lrq_peek lrq qid cap d rqs m i rq :
  lrq_rep lrq qid cap d rqs m → rqs !! i = Some rq →
  labstor_request_queue_Peek lrq (Z.of_nat i) m = Ret (Some rq) m.
Proof.
  intros Hr Hi. pose proof (lrq_rep_len _ _ _ _ _ _ Hr) as [Hl Hc]. destruct Hr.
  pose proof (lookup_lt_Some _ _ _ Hi) as Hlt.
  unfold labstor_request_queue_Peek, mbind, M_bind. rewrite u32_small by lia.
  rewrite (peek_in_range _ _ _ _ _ i (rq - lrq_base_region_ lrq) lr_ring0).
  - simpl. rewrite near_add; [done|]. by eapply Forall_lookup_1 in Hi.
  - rewrite list_lookup_fmap, Hi. done.
Qed.

(** ** The completion map as a finite map from buckets to requests *)

Definition bucket (map : labstor_request_map) (b : Z) : Z :=
  rm_buckets_ map + sizeof_labstor_off_t * b.

Definition rm_span (map : labstor_request_map) (n : Z) : Z → Prop :=
  span (rm_header_ map) (sizeof_rm_header + sizeof_labstor_off_t * n).

Record rm_rep (map : labstor_request_map) (n : Z) (S : gmap Z Z) (m : mem) : Prop := {
  rm_handle : rm_buckets_ map = rm_header_ map + sizeof_rm_header;
  rm_valid : valid m (rm_header_ map) (sizeof_rm_header + sizeof_labstor_off_t * n);
  rm_n : 0 < n < 2 ^ 32;
  rm_num : read 4 (rm_header_ map + rmh_num_buckets_) m = n;
  rm_slots : ∀ b, 0 <= b < n → s32 (read 4 (bucket map b) m) =
    match S !! b with Some p => p - rm_base_region_ map | None => -1 end;
  rm_near : ∀ b p, S !! b = Some p → near (rm_base_region_ map) p
}.

Lemma rm_rep_frame map n S P m m' :
  rm_rep map n S m → modifies P m m' → (∀ a, rm_span map n a → ¬ P a) → rm_rep map n S m'.
Proof.
  intros [] Hm HP. unfold rm_span, span, bucket in *. autounfold with layout in *.
  split; unfold bucket; autounfold with layout; try done.
  - by eapply valid_modifies.
  - erewrite read_modifies; [exact rm_num0|exact Hm|]. simpl. intros a Ha. apply HP. lia.
  - intros b Hb. erewrite read_modifies; [by apply rm_slots0|exact Hm|].
    simpl. intros a Ha. apply HP. lia.
Qed.

(** One bucket overwritten. *)
Lemma rm_rep_write map n S S' m b off :
  rm_rep map n S m → 0 <= b < n → - 2 ^ 31 <= off < 2 ^ 31 →
  (match S' !! b with Some p => p - rm_base_region_ map | None => -1 end = off) →
  (∀ c, c ≠ b → S' !! c = S !! c) → (∀ p, S' !! b = Some p → near (rm_base_region_ map) p) →
  rm_rep map n S' (write 4 (bucket map b) (s32_bits off) m) ∧
  modifies (rm_span map n) m (write 4 (bucket map b) (s32_bits off) m).
Proof.
  intros [] Hb Hoff Hnew Hsame Hn. unfold rm_span, bucket in *. autounfold with layout in *.
  split; [|msolve]. split; unfold bucket; autounfold with layout; try done.
  - vsolve.
  - mem_simpl. done.
  - intros c Hc. destruct (decide (c = b)) as [->|Hne].
    + rewrite read32_write, u32_small by mod_lia. by rewrite s32_of_bits.
    + rewrite read_write_other by (simpl; lia). rewrite Hsame by done. by apply rm_slots0.
  - intros c p Hc. destruct (decide (c = b)) as [->|Hne]; [by apply Hn|].
    rewrite Hsame in Hc by done. by eapply rm_near0.
Qed.

(** Set stores the request in the bucket of its id, or returns false and
    changes nothing when the bucket is taken. *)
Lemma rm_set_spec map n S m rq :
  rm_rep map n S m → near (rm_base_region_ map) rq → valid m rq 4 →
  let b := read 4 rq m mod n in
  wp (labstor_request_map_Set map rq)
     (λ r m', match S !! b with
              | Some _ => r = false ∧ m' = m
              | None => r = true ∧ rm_rep map n (<[b := rq]> S) m' ∧ modifies (rm_span map n) m m'
              end) m.
Proof.
  intros Hr Hnear Hv b. pose proof Hr as []. unfold labstor_request_map_Set.
  assert (0 <= b < n) as Hb by (apply Z.mod_pos_bound; lia).
  pose proof (rm_slots0 b Hb) as Hslot. unfold bucket in Hslot.
  autounfold with layout in *. rewrite ?Z.add_0_r in *.
  do 5 wp_step. rewrite rm_num0. wp_step. fold b. do 2 wp_step. rewrite Hslot.
  destruct (S !! b) as [p|] eqn:E.
  - pose proof (rm_near0 _ _ E) as (? & ? & ?).
    rewrite (proj2 (Z.eqb_neq (p - rm_base_region_ map) (-1))) by lia. by wp_go.
  - simpl. wp_go. split; [done|]. rewrite near_sub by done.
    apply (rm_rep_write map n S); auto with labstor.
    + by rewrite lookup_insert_eq.
    + intros c Hc. by rewrite lookup_insert_ne.
    + rewrite lookup_insert_eq. by intros p [= ->].
Qed.

(** FindAndRemove empties the bucket of the key and returns what it held. *)
Lemma rm_find_spec map n S m key :
  rm_rep map n S m →
  wp (labstor_request_map_FindAndRemove map key)
     (λ r m', r = S !! (key mod n) ∧ rm_rep map n (delete (key mod n) S) m' ∧
        modifies (rm_span map n) m m') m.
Proof.
  intros Hr. pose proof Hr as []. unfold labstor_request_map_FindAndRemove.
  set (b := key mod n). assert (0 <= b < n) as Hb by (apply Z.mod_pos_bound; lia).
  pose proof (rm_slots0 b Hb) as Hslot. unfold bucket in Hslot.
  autounfold with layout in *. rewrite ?Z.add_0_r in *.
  do 3 wp_step. rewrite rm_num0. wp_step. fold b. do 2 wp_step. rewrite Hslot.
  destruct (S !! b) as [p|] eqn:E.
  - pose proof (rm_near0 _ _ E) as Hp. pose proof Hp as (? & ? & ?).
    rewrite (proj2 (Z.eqb_neq (p - rm_base_region_ map) (-1))) by lia.
    wp_go. rewrite Hslot, near_add by done. split; [done|].
    apply (rm_rep_write map n S); try lia; try done.
    + by rewrite lookup_delete_eq.
    + intros c Hc. by rewrite lookup_delete_ne.
    + by rewrite lookup_delete_eq.
  - simpl. wp_go. rewrite delete_id by done. auto with labstor.
Qed.

(** ** Initialisation *)

Lemma read32_ones m p :
  (∀ a, p <= a < p + 4 → m !! a = Some 255) → s32 (read 4 p m) = -1.
Proof.
  intros H. rewrite (read_bytes 4 p (2 ^ 32 - 1)); [reflexivity|]. simpl. intros a Ha. rewrite H by done.
  assert (a - p = 0 ∨ a - p = 1 ∨ a - p = 2 ∨ a - p = 3) as Hc by lia.
  destruct Hc as [->|[->|[->| ->]]]; reflexivity.
Qed.

Lemma rm_init_spec b map base region region_size n m :
  valid m region region_size → 0 < n → 4 + 4 * n <= region_size → region_size < 2 ^ 32 →
  wp (labstor_request_map_Init b map base region region_size n)
     (λ r m', r = (labstor_request_map_Attach base region, true) ∧
        rm_rep (labstor_request_map_Attach base region) n ∅ m' ∧
        modifies (span region (4 + 4 * n)) m m') m.
Proof.
  intros Hv Hn Hfit Hsz. unfold labstor_request_map_Init, labstor_request_map_GetSize_global.
  autounfold with layout. rewrite (u32_small (4 + 4 * n)) by lia.
  rewrite (proj2 (Z.ltb_ge region_size (4 + 4 * n))) by lia.
  rewrite (proj2 (Z.eqb_neq n 0)) by lia. cbv zeta. rewrite (proj2 (Z.eqb_neq n 0)) by lia.
  rewrite ?Z.add_0_r. do 4 wp_step. mem_simpl.
  apply wp_bind. eapply wp_mono.
  { apply wp_memset. rewrite Z2Nat.id by lia. vsolve. }
  rewrite Z2Nat.id by lia. change (u8 LABSTOR_INVALID_REQUEST_ID) with 255.
  intros _ m' [Hm Hones]. wp_go. split; [done|].
  assert (modifies (span region (4 + 4 * n)) m m') as Hmod.
  { eapply modifies_trans; [apply (modifies_write _ 4 region n); [vsolve|unfold span; simpl; lia]|].
    eapply modifies_weaken; [exact Hm|]. unfold span. lia. }
  split; [|done]. split; simpl; unfold bucket; simpl; autounfold with layout; rewrite ?Z.add_0_r; try done.
  - eapply valid_modifies; [exact Hmod|]. vsolve.
  - lia.
  - erewrite read_modifies; [|exact Hm|unfold span; simpl; lia]. by mem_simpl.
  - intros c Hc. rewrite lookup_empty. apply read32_ones. intros a Ha. apply Hones. lia.
Qed.

Lemma lrq_init_spec b lrq base region region_size depth qid m :
  valid m region region_size → 0 < depth < 2 ^ 30 - 6 → 24 + 4 * depth <= region_size →
  region_size < 2 ^ 32 → qid_in_range qid →
  wp (labstor_request_queue_Init b lrq base region region_size depth qid)
     (λ r m', r = labstor_request_queue_Attach base region ∧
        lrq_rep (labstor_request_queue_Attach base region) qid depth 0 [] m' ∧
        modifies (span region (24 + 4 * depth)) m m') m.
Proof.
  intros Hv Hd Hfit Hsz Hqid. unfold labstor_request_queue_Init. autounfold with layout.
  rewrite ?Z.add_0_r. apply wp_bind. eapply wp_mono.
  { apply wp_store_qid; [vsolve|done]. }
  intros _ m1 [Hq1 Hm1]. assert (valid m1 region region_size) as Hv1 by (by eapply valid_modifies).
  do 4 wp_step. set (m2 := write 2 (region + 8 + 2) 0 (write 2 (region + 8) 0 m1)).
  assert (modifies (span region 12) m m2) as Hm2.
  { subst m2. apply modifies_then_write; [|vsolve|unfold span; simpl; lia].
    apply modifies_then_write; [|vsolve|unfold span; simpl; lia].
    eapply modifies_weaken; [exact Hm1|]. unfold span. lia. }
  assert (valid m2 region region_size) as Hv2 by (by eapply valid_modifies).
  rewrite u32_small by lia.
  assert (ring_init_fits (region_size - 12) depth = true ∧ ring_cap (region_size - 12) depth = depth)
    as [Hfits Hcap].
  { unfold ring_init_fits, ring_cap. autounfold with layout.
    rewrite (proj2 (Z.eqb_neq depth 0)) by lia. rewrite (proj2 (Z.eqb_neq depth 0)) by lia.
    split; [|done]. rewrite andb_true_r. apply Z.leb_le. lia. }
  apply wp_bind. unfold wp at 1. rewrite ring_init_run, Hfits by (lia || vsolve).
  destruct (ring_init_rep (region + 12) (region_size - 12) depth m2) as [Hring Hm3];
    [vsolve|lia|lia|done|]. rewrite Hcap in *.
  set (m3 := write 4 (region + 12 + 8) _ _) in *. simpl. wp_go. split; [done|].
  assert (modifies (span region (24 + 4 * depth)) m m3) as Hm.
  { eapply modifies_trans; (eapply modifies_weaken; [eassumption|]); unfold span; lia. }
  split; [|done]. split; simpl; autounfold with layout; rewrite ?Z.add_0_r; try done.
  - eapply valid_modifies; [exact Hm|]. vsolve.
  - rewrite <-Hq1. erewrite qid_at_modifies; [|exact Hm3|unfold span; lia].
    subst m2. unfold qid_at. mem_simpl. done.
Qed.

(** A depth of 0 asks for what the region holds; a submission queue and a
    completion map in regions of the same size then differ in depth. *)
Lemma lrq_init_default b lrq base region region_size qid m :
  28 <= region_size < 2 ^ 32 →
  labstor_request_queue_Init b lrq base region region_size 0 qid m =
  labstor_request_queue_Init b lrq base region region_size ((region_size - 24) / 4) qid m.
Proof.
  intros Hsz. unfold labstor_request_queue_Init, sizeof_lrq_header. rewrite u32_small by lia.
  do 3 (apply bind_ext; intros). unfold mbind, M_bind.
  rewrite ring_init_default by lia. replace (region_size - 12 - 12) with (region_size - 24) by lia. done.
Qed.

Lemma rm_init_default b map base region region_size m :
  8 <= region_size < 2 ^ 32 →
  labstor_request_map_Init b map base region region_size 0 m =
  labstor_request_map_Init b map base region region_size ((region_size - 4) / 4) m.
Proof.
  intros Hsz. unfold labstor_request_map_Init, labstor_request_map_GetSize_global.
  autounfold with layout. set (n := (region_size - 4) / 4).
  assert (0 < n ∧ 4 + 4 * n <= region_size) as [Hn Hle] by (subst n; Z.div_mod_to_equations; lia).
  rewrite !u32_small by lia. fold n. rewrite (proj2 (Z.eqb_neq n 0)) by lia. cbn [Z.eqb].
  rewrite (proj2 (Z.ltb_ge region_size (4 + 4 * 0))), (proj2 (Z.ltb_ge region_size (4 + 4 * n))) by lia.
  by rewrite (proj2 (Z.eqb_neq n 0)) by lia.
Qed.
