(* ===== verification/QueuePair.v ===== *)
(** * QueuePair.v: queue pairs

    include/labstor/types/data_structures/c/shmem_queue_pair.h and
    queue_pair.h.  A queue pair is a submission queue and a completion map in
    one shared region; clients enqueue requests and wait for them, workers
    dequeue and complete them.  A [labstor_queue_pair_ptr] carries the two
    offsets with which another process attaches.

    [qp_spec_run] is what the pair promises: requests are served in order, and
    a wait on a token returns the request that completed that token. *)

From S2P Require Import Prelude Memory RingBuffer RequestQueue.

Local Open Scope Z_scope.

(** ** Flags *)

Definition LABSTOR_QP_INTERMEDIATE : Z := Z.shiftl 1 4.
Definition LABSTOR_QP_UNORDERED : Z := Z.shiftl 1 3.
Definition LABSTOR_QP_BATCH : Z := Z.shiftl 1 2.
Definition LABSTOR_QP_HIGH_LATENCY : Z := Z.shiftl 1 1.
Definition LABSTOR_QP_PRIVATE : Z := Z.shiftl 1 0.
Definition LABSTOR_QP_PRIMARY : Z := 0.
Definition LABSTOR_QP_ORDERED : Z := 0.
Definition LABSTOR_QP_SHMEM : Z := 0.

Definition LABSTOR_QP_IS_PRIMARY (flags : Z) : bool := Z.land flags LABSTOR_QP_INTERMEDIATE =? 0.
Definition LABSTOR_QP_IS_ORDERED (flags : Z) : bool := Z.land flags LABSTOR_QP_UNORDERED =? 0.
Definition LABSTOR_QP_IS_STREAM (flags : Z) : bool := Z.land flags LABSTOR_QP_BATCH =? 0.
Definition LABSTOR_QP_IS_LOW_LATENCY (flags : Z) : bool := Z.land flags LABSTOR_QP_HIGH_LATENCY =? 0.
Definition LABSTOR_QP_IS_SHMEM (flags : Z) : bool := Z.land flags LABSTOR_QP_PRIVATE =? 0.

Definition LABSTOR_GET_QP_IPC_ID (qid : labstor_qid_t) : Z := qid_pid_ qid.

(** ** Data *)

Record labstor_queue_pair_ptr := {
  qpp_sq_off_ : Z;
  qpp_cq_off_ : Z;
  qpp_pid_ : Z
}.

Record labstor_queue_pair := {
  qp_sq_ : labstor_request_queue;
  qp_cq_ : labstor_request_map
}.

(** In the C++ build both members have a vtable pointer. *)
Definition sizeof_labstor_queue_pair (b : build) : Z :=
  match b with Kernel => 56 | Userspace => 80 end.

(** ** Operations *)

Definition labstor_queue_pair_ptr_Init (qid : labstor_qid_t) (sq_region cq_region base_region : Z)
    : labstor_queue_pair_ptr :=
  {| qpp_sq_off_ := LABSTOR_REGION_SUB sq_region base_region;
     qpp_cq_off_ := LABSTOR_REGION_SUB cq_region base_region;
     qpp_pid_ := LABSTOR_GET_QP_IPC_ID qid |}.

Definition labstor_queue_pair_GetSize_global (b : build) (queue_depth : Z) : Z :=
  u32 (sizeof_labstor_queue_pair b + labstor_request_queue_GetSize_global queue_depth +
       labstor_request_map_GetSize_global queue_depth).

Definition labstor_queue_pair_GetPointer (qp : labstor_queue_pair) (base_region : Z)
    : M labstor_queue_pair_ptr :=
  qid ← load_qid (labstor_request_queue_GetQID (qp_sq_ qp));
  mret (labstor_queue_pair_ptr_Init qid
          (labstor_request_queue_GetRegion (qp_sq_ qp))
          (labstor_request_map_GetRegion (qp_cq_ qp)) base_region).

Definition labstor_queue_pair_Init (b : build) (qp : labstor_queue_pair) (qid : labstor_qid_t)
    (base_region depth sq_region sq_size cq_region cq_size : Z) : M labstor_queue_pair :=
  sq ← labstor_request_queue_Init b (qp_sq_ qp) base_region sq_region sq_size depth qid;
  cq ← labstor_request_map_Init b (qp_cq_ qp) base_region cq_region cq_size depth;
  mret {| qp_sq_ := sq; qp_cq_ := cq.1 |}.

Definition labstor_queue_pair_Attach (ptr : labstor_queue_pair_ptr) (base_region : Z)
    : labstor_queue_pair :=
  {| qp_sq_ := labstor_request_queue_Attach base_region
                 (LABSTOR_REGION_ADD (qpp_sq_off_ ptr) base_region);
     qp_cq_ := labstor_request_map_Attach base_region
                 (LABSTOR_REGION_ADD (qpp_cq_off_ ptr) base_region) |}.

(** The arguments are passed to [labstor_request_queue_RemoteAttach] in this
    order, which is not the order of its parameters. *)
Definition labstor_queue_pair_RemoteAttach (ptr : labstor_queue_pair_ptr) (kern_base_region : Z)
    : labstor_queue_pair :=
  {| qp_sq_ := labstor_request_queue_RemoteAttach kern_base_region
                 (LABSTOR_REGION_ADD (qpp_sq_off_ ptr) kern_base_region);
     qp_cq_ := labstor_request_map_RemoteAttach kern_base_region
                 (LABSTOR_REGION_ADD (qpp_cq_off_ ptr) kern_base_region) |}.

Definition labstor_queue_pair_Enqueue (fuel : nat) (qp : labstor_queue_pair) (rq : Z)
    : M labstor_qtok_t :=
  labstor_request_queue_Enqueue fuel (qp_sq_ qp) rq.

Definition labstor_queue_pair_Peek (qp : labstor_queue_pair) (i : Z) : M (option Z) :=
  labstor_request_queue_Peek (qp_sq_ qp) i.

Definition labstor_queue_pair_Dequeue (qp : labstor_queue_pair) : M (option Z) :=
  labstor_request_queue_Dequeue (qp_sq_ qp).

(** [tries] is what 50 ms allow. *)
Definition labstor_queue_pair_CompleteTimed (tries : nat) (qp : labstor_queue_pair) (req_id rq : Z)
    : M bool :=
  _ ← store32 (rq + rq_req_id_) (u32 req_id);
  r ← timed_spinwait tries
        (ok ← labstor_request_map_Set (qp_cq_ qp) rq; mret (if ok : bool then Some true else None));
  mret (match r with Some ok => ok | None => false end).

Definition labstor_queue_pair_CompleteInf (fuel : nat) (qp : labstor_queue_pair) (rq : Z) : M bool :=
  inf_spinwait fuel
    (ok ← labstor_request_map_Set (qp_cq_ qp) rq; mret (if ok : bool then Some true else None)).

Definition labstor_queue_pair_CompleteQuick (fuel : nat) (qp : labstor_queue_pair) (old_rq new_rq : Z)
    : M bool :=
  req_id ← load32 (old_rq + rq_req_id_);
  _ ← store32 (new_rq + rq_req_id_) req_id;
  labstor_queue_pair_CompleteInf fuel qp new_rq.

Definition labstor_queue_pair_CompleteByQtok (fuel : nat) (qp : labstor_queue_pair)
    (qtok : labstor_qtok_t) (rq : Z) : M bool :=
  _ ← store32 (rq + rq_req_id_) (qtok_req_id_ qtok);
  labstor_queue_pair_CompleteInf fuel qp rq.

Definition labstor_queue_pair_Complete (fuel : nat) (qp : labstor_queue_pair) (old_rq new_rq : Z)
    : M bool :=
  req_id ← load32 (old_rq + rq_req_id_);
  _ ← store32 (new_rq + rq_req_id_) req_id;
  labstor_queue_pair_CompleteInf fuel qp new_rq.

Definition labstor_queue_pair_IsComplete (qp : labstor_queue_pair) (req_id : Z) : M (option Z) :=
  labstor_request_map_FindAndRemove (qp_cq_ qp) req_id.

Definition labstor_queue_pair_Wait (fuel : nat) (qp : labstor_queue_pair) (req_id : Z) : M Z :=
  inf_spinwait fuel (labstor_queue_pair_IsComplete qp req_id).

(** [None]: the null pointer after a timeout. *)
Definition labstor_queue_pair_TimedWait (tries : nat) (qp : labstor_queue_pair) (req_id : Z)
    : M (option Z) :=
  timed_spinwait tries (labstor_queue_pair_IsComplete qp req_id).

Definition labstor_queue_pair_GetDepth (qp : labstor_queue_pair) : M Z :=
  labstor_request_queue_GetDepth (qp_sq_ qp).

Definition labstor_queue_pair_GetQID (qp : labstor_queue_pair) : Z :=
  labstor_request_queue_GetQID (qp_sq_ qp).

Definition labstor_queue_pair_GetPID (qp : labstor_queue_pair) : M Z :=
  qid ← load_qid (labstor_queue_pair_GetQID qp);
  mret (s32 (LABSTOR_GET_QP_IPC_ID qid)).

(** [labstor::ipc::shmem_queue_pair]: Complete does not use its id. *)
Definition shmem_queue_pair__Complete (fuel : nat) (qp : labstor_queue_pair) (req_id rq : Z) : M unit :=
  ok ← labstor_queue_pair_CompleteInf fuel qp rq;
  if ok : bool then mret tt else throw 510.

(** [labstor::queue_pair::GetQID]: the queue id of a hash. *)
Definition queue_pair_GetQID (type flags hash num_qps pid : Z) : M labstor_qid_t :=
  cnt ← umod hash num_qps;
  mret {| qid_flags_ := flags; qid_type_ := type; qid_cnt_ := u16 cnt; qid_pid_ := u32 pid |}.

(** The hash of a string of (signed) characters. *)
Fixpoint queue_pair_hash_str (str : list Z) (i : Z) (hash : Z) : Z :=
  match str with
  | [] => hash
  | c :: str' => queue_pair_hash_str str' (i + 1) (u32 (hash + Z.shiftl c (4 * (i mod 4))))
  end.

Definition queue_pair_GetQID_str (type flags : Z) (str : list Z) (ns_id num_qps pid : Z)
    : M labstor_qid_t :=
  queue_pair_GetQID type flags (u32 (queue_pair_hash_str str 0 0 * ns_id)) num_qps pid.

(** ** Specification *)

(** Request ids are counted without wrap-around here; the code keeps their
    low 32 bits. *)
Record qp_abs := {
  qa_enq : Z;            (* requests enqueued so far: the next id *)
  qa_sq : list Z;        (* requests in the submission queue *)
  qa_ids : gmap Z Z;     (* the id last stored in each request *)
  qa_out : gset Z;       (* ids handed out and not waited for *)
  qa_cq : gmap Z Z       (* completed requests by id *)
}.

Inductive qp_op :=
| QEnqueue (rq : Z)
| QDequeue
| QComplete (old_rq new_rq : Z)
| QIsComplete (id : Z)
| QWait (id : Z).

Inductive qp_res :=
| RTok (req_id : Z)
| RRequest (rq : option Z)
| RDone (ok : bool).

(** The ids of the next [cap] requests stay distinct as bucket numbers: the
    depth divides 2^32, or the counter does not wrap. *)
Definition ids_ok (cap enq : Z) : bool := (2 ^ 32 mod cap =? 0) || (enq + cap <=? 2 ^ 32).

(** [None]: the call would block (an Enqueue on a full queue, a Wait for a
    request that is not completed), or it breaks the protocol that the code
    leaves to its callers and does not check: a completion of a request that
    was not handed out, and an id [cap] or more after the oldest id not yet
    waited for, whose completion would share a bucket with it. *)
Definition qp_spec_step (cap : Z) (objs : gset Z) (st : qp_abs) (op : qp_op)
    : option (qp_abs * qp_res) :=
  match op with
  | QEnqueue rq =>
      if decide (rq ∈ objs ∧ Z.of_nat (length (qa_sq st)) < cap ∧
                 set_Forall (λ id, qa_enq st < id + cap) (qa_out st) ∧
                 ids_ok cap (qa_enq st + 1) = true)
      then Some ({| qa_enq := qa_enq st + 1;
                    qa_sq := qa_sq st ++ [rq];
                    qa_ids := <[rq := qa_enq st]> (qa_ids st);
                    qa_out := {[qa_enq st]} ∪ qa_out st;
                    qa_cq := qa_cq st |}, RTok (u32 (qa_enq st)))
      else None
  | QDequeue =>
      match qa_sq st with
      | [] => Some (st, RRequest None)
      | rq :: sq => Some ({| qa_enq := qa_enq st; qa_sq := sq; qa_ids := qa_ids st;
                             qa_out := qa_out st; qa_cq := qa_cq st |}, RRequest (Some rq))
      end
  | QComplete old_rq new_rq =>
      match qa_ids st !! old_rq with
      | Some id =>
          if decide (old_rq ∈ objs ∧ new_rq ∈ objs ∧ id ∈ qa_out st ∧ qa_cq st !! id = None)
          then Some ({| qa_enq := qa_enq st; qa_sq := qa_sq st;
                        qa_ids := <[new_rq := id]> (qa_ids st);
                        qa_out := qa_out st; qa_cq := <[id := new_rq]> (qa_cq st) |}, RDone true)
          else None
      | None => None
      end
  | QIsComplete id =>
      if decide (id ∈ qa_out st) then
        match qa_cq st !! id with
        | Some rq => Some ({| qa_enq := qa_enq st; qa_sq := qa_sq st; qa_ids := qa_ids st;
                              qa_out := qa_out st ∖ {[id]}; qa_cq := delete id (qa_cq st) |},
                           RRequest (Some rq))
        | None => Some (st, RRequest None)
        end
      else None
  | QWait id =>
      match qa_cq st !! id with
      | Some rq => Some ({| qa_enq := qa_enq st; qa_sq := qa_sq st; qa_ids := qa_ids st;
                            qa_out := qa_out st ∖ {[id]}; qa_cq := delete id (qa_cq st) |},
                         RRequest (Some rq))
      | None => None
      end
  end.

Fixpoint qp_spec_run (cap : Z) (objs : gset Z) (st : qp_abs) (ops : list qp_op)
    : option (list qp_res) :=
  match ops with
  | [] => Some []
  | op :: ops' =>
      '(st', r) ← qp_spec_step cap objs st op;
      rs ← qp_spec_run cap objs st' ops';
      Some (r :: rs)
  end.

Definition qp_spec_init : qp_abs :=
  {| qa_enq := 0; qa_sq := []; qa_ids := ∅; qa_out := ∅; qa_cq := ∅ |}.

(** The same operations on the pair in memory. *)
Definition qp_step (fuel : nat) (qp : labstor_queue_pair) (op : qp_op) : M qp_res :=
  match op with
  | QEnqueue rq => tok ← labstor_queue_pair_Enqueue fuel qp rq; mret (RTok (qtok_req_id_ tok))
  | QDequeue => r ← labstor_queue_pair_Dequeue qp; mret (RRequest r)
  | QComplete old_rq new_rq =>
      ok ← labstor_queue_pair_Complete fuel qp old_rq new_rq; mret (RDone ok)
  | QIsComplete id => r ← labstor_queue_pair_IsComplete qp (u32 id); mret (RRequest r)
  | QWait id => r ← labstor_queue_pair_Wait fuel qp (u32 id); mret (RRequest (Some r))
  end.

Fixpoint qp_run (fuel : nat) (qp : labstor_queue_pair) (ops : list qp_op) : M (list qp_res) :=
  match ops with
  | [] => mret []
  | op :: ops' => r ← qp_step fuel qp op; rs ← qp_run fuel qp ops'; mret (r :: rs)
  end.

(** ** Request ids and buckets *)

Definition id_bucket (cap id : Z) : Z := u32 id mod cap.

Lemma ids_ok_spec cap enq :
  0 < cap → ids_ok cap enq = true ↔ (cap | 2 ^ 32) ∨ enq + cap <= 2 ^ 32.
Proof.
  intros Hc. unfold ids_ok. rewrite orb_true_iff, Z.eqb_eq, Z.leb_le, Z.mod_divide by lia. done.
Qed.

(** Two ids less than [cap] apart have different buckets. *)
Lemma id_bucket_inj cap enq i j :
  0 < cap → (cap | 2 ^ 32) ∨ enq + cap <= 2 ^ 32 →
  0 <= i < enq → 0 <= j < enq → enq <= i + cap → enq <= j + cap →
  id_bucket cap i = id_bucket cap j → i = j.
Proof.
  intros Hc Hok Hi Hj Hwi Hwj E. unfold id_bucket in E.
  assert (ring_ok cap (Z.min i j)) as Hr by (destruct Hok; [by left|right; lia]).
  pose proof (ring_slot_inj cap (Z.min i j) (i - Z.min i j) (j - Z.min i j)) as H.
  rewrite !Zplus_minus in H. specialize (H Hc Hr). lia.
Qed.

(** The buckets [S] hold exactly the completions [cq]. *)
Record buckets_of (cap : Z) (cq S : gmap Z Z) : Prop := {
  bo_in : ∀ id rq, cq !! id = Some rq → S !! id_bucket cap id = Some rq;
  bo_out : ∀ b rq, S !! b = Some rq → ∃ id, id_bucket cap id = b ∧ cq !! id = Some rq
}.

Lemma buckets_lookup cap enq cq S (out : gset Z) id :
  0 < cap → (cap | 2 ^ 32) ∨ enq + cap <= 2 ^ 32 →
  (∀ i, i ∈ out → 0 <= i < enq ∧ enq <= i + cap) → dom cq ⊆ out →
  buckets_of cap cq S → id ∈ out → S !! id_bucket cap id = cq !! id.
Proof.
  intros Hc Hok Hwin Hdom [Hin Hout] Hid. destruct (cq !! id) as [rq|] eqn:E; [by apply Hin|].
  destruct (S !! id_bucket cap id) as [rq|] eqn:E'; [|done].
  destruct (Hout _ _ E') as (j & Hj & Hcq).
  assert (j ∈ out) as Hjo by (apply Hdom, elem_of_dom; eauto).
  destruct (Hwin _ Hid), (Hwin _ Hjo).
  assert (j = id) as -> by (eapply (id_bucket_inj cap enq); eauto; lia). congruence.
Qed.

Lemma buckets_insert cap cq S id rq :
  buckets_of cap cq S → S !! id_bucket cap id = None → cq !! id = None →
  buckets_of cap (<[id := rq]> cq) (<[id_bucket cap id := rq]> S).
Proof.
  intros [Hin Hout] HS Hcq. split.
  - intros j q [[<- <-]|[Hne Hj]]%lookup_insert_Some; [by rewrite lookup_insert_eq|].
    rewrite lookup_insert_ne; [by apply Hin|]. intros Eb. apply Hin in Hj. congruence.
  - intros b q [[<- <-]|[Hne Hb]]%lookup_insert_Some.
    + exists id. by rewrite lookup_insert_eq.
    + destruct (Hout _ _ Hb) as (j & Hj & Hq). exists j. rewrite lookup_insert_ne; [done|congruence].
Qed.

Lemma buckets_delete cap enq cq S (out : gset Z) id :
  0 < cap → (cap | 2 ^ 32) ∨ enq + cap <= 2 ^ 32 →
  (∀ i, i ∈ out → 0 <= i < enq ∧ enq <= i + cap) → dom cq ⊆ out → id ∈ out →
  buckets_of cap cq S → buckets_of cap (delete id cq) (delete (id_bucket cap id) S).
Proof.
  intros Hc Hok Hwin Hdom Hid [Hin Hout]. split.
  - intros j q [Hne Hj]%lookup_delete_Some. rewrite lookup_delete_ne; [by apply Hin|].
    intros Eb. apply Hne. assert (j ∈ out) as Hjo by (apply Hdom, elem_of_dom; eauto).
    destruct (Hwin _ Hid), (Hwin _ Hjo). eapply (id_bucket_inj cap enq); eauto; lia.
  - intros b q [Hne Hb]%lookup_delete_Some. destruct (Hout _ _ Hb) as (j & Hj & Hq).
    exists j. rewrite lookup_delete_ne; [done|congruence].
Qed.

(** ** Refinement *)

(** Where the pair and the requests are: the two structures do not overlap,
    requests are near the base and overlap neither them nor each other. *)
Record qp_layout (qp : labstor_queue_pair) (cap : Z) (objs : gset Z) : Prop := {
  ql_base : rm_base_region_ (qp_cq_ qp) = lrq_base_region_ (qp_sq_ qp);
  ql_disjoint : outside (lrq_header_ (qp_sq_ qp)) (24 + 4 * cap)
                  (rm_header_ (qp_cq_ qp)) (4 + 4 * cap);
  ql_near : ∀ rq, rq ∈ objs → near (lrq_base_region_ (qp_sq_ qp)) rq;
  ql_sq : ∀ rq, rq ∈ objs → outside rq 4 (lrq_header_ (qp_sq_ qp)) (24 + 4 * cap);
  ql_cq : ∀ rq, rq ∈ objs → outside rq 4 (rm_header_ (qp_cq_ qp)) (4 + 4 * cap);
  ql_objs : ∀ p q, p ∈ objs → q ∈ objs → p ≠ q → outside p 4 q 4
}.

Section refinement.
Context (qp : labstor_queue_pair) (qid : labstor_qid_t) (cap : Z) (objs : gset Z).
Hypothesis Hlayout : qp_layout qp cap objs.
Hypothesis Hhandle : lrq_queue_ (qp_sq_ qp) =
  labstor_request_ring_buffer_Attach (lrq_header_ (qp_sq_ qp) + sizeof_lrq_header).

Record qp_rel (st : qp_abs) (m : mem) : Prop := {
  qr_sq : lrq_rep (qp_sq_ qp) qid cap (u32 (qa_enq st - Z.of_nat (length (qa_sq st)))) (qa_sq st) m;
  qr_len : Z.of_nat (length (qa_sq st)) <= qa_enq st;
  qr_cq : ∃ S, rm_rep (qp_cq_ qp) cap S m ∧ buckets_of cap (qa_cq st) S;
  qr_valid : ∀ rq, rq ∈ objs → valid m rq 4;
  qr_ids : ∀ rq id, qa_ids st !! rq = Some id → rq ∈ objs ∧ read 4 rq m = u32 id;
  qr_out : ∀ id, id ∈ qa_out st → 0 <= id < qa_enq st ∧ qa_enq st <= id + cap;
  qr_dom : dom (qa_cq st) ⊆ qa_out st;
  qr_ok : (cap | 2 ^ 32) ∨ qa_enq st + cap <= 2 ^ 32
}.

(** What each operation may change. *)
Definition sq_bytes : Z → Prop := lrq_span (qp_sq_ qp) cap.
Definition cq_bytes : Z → Prop := rm_span (qp_cq_ qp) cap.

Ltac spans :=
  unfold sq_bytes, cq_bytes, lrq_span, rm_span, both, span, outside in *;
  autounfold with layout in *; simpl; intros; lia.

Lemma sq_ring_bytes a : rb_span (lrq_queue_ (qp_sq_ qp)) cap a → sq_bytes a.
Proof. rewrite Hhandle. unfold rb_span. simpl. spans. Qed.

(** An update of the submission queue and of the id of a request [rq]
    leaves the completions and the other requests alone. *)
Lemma cq_frame S m m' (P : Z → Prop) :
  rm_rep (qp_cq_ qp) cap S m → modifies P m m' → (∀ a, P a → ¬ cq_bytes a) →
  rm_rep (qp_cq_ qp) cap S m'.
Proof. intros Hr Hm HP. eapply rm_rep_frame; [done|exact Hm|]. intros a Ha Pa. by apply (HP a). Qed.

Lemma obj_frame m m' (P : Z → Prop) rq v :
  modifies P m m' → read 4 rq m = v → (∀ a, rq <= a < rq + 4 → ¬ P a) → read 4 rq m' = v.
Proof. intros Hm <- HP. eapply read_modifies; [exact Hm|]. exact HP. Qed.

Lemma qp_enqueue_spec fuel st m rq st' r :
  (0 < fuel)%nat → qp_rel st m → qp_spec_step cap objs st (QEnqueue rq) = Some (st', r) →
  wp (labstor_queue_pair_Enqueue fuel qp rq)
     (λ tok m', (tok = {| qtok_qid_ := qid; qtok_req_id_ := u32 (qa_enq st) |} ∧ r = RTok (qtok_req_id_ tok)) ∧
        qp_rel st' m' ∧ modifies (both sq_bytes (span rq 4)) m m') m.
Proof.
  intros Hf [] Hs. simpl in Hs. case_decide as Hg; [|done]. destruct Hg as (Hobj & Hlt & Hwin & Hok).
  injection Hs as <- <-. destruct qr_cq0 as (B & HS & HB).
  pose proof (rm_n _ _ _ _ HS) as Hcap. apply ids_ok_spec in Hok; [|lia].
  set (n := Z.of_nat (length (qa_sq st))) in *.
  assert (ring_ok cap (u32 (qa_enq st - n))) as Hring.
  { destruct Hok; [by left|right]. rewrite u32_small by lia. lia. }
  assert (u32 (u32 (qa_enq st - n) + n) = u32 (qa_enq st)) as Hid by (rewrite u32_add_l; f_equal; lia).
  pose proof (ql_sq _ _ _ Hlayout _ Hobj) as Hosq. pose proof (ql_cq _ _ _ Hlayout _ Hobj) as Hocq.
  pose proof (ql_disjoint _ _ _ Hlayout) as Hdis.
  eapply wp_mono.
  { apply (lrq_enqueue_space fuel _ _ _ _ _ _ rq Hf qr_sq0 Hring); auto.
    by apply (ql_near _ _ _ Hlayout). }
  fold n. rewrite Hid. intros tok m' (-> & Hsq & Hrd & Hm). split; [done|].
  assert (modifies (both sq_bytes (span rq 4)) m m') as Hm'.
  { eapply modifies_weaken; [exact Hm|]. intros a [Ha|Ha]; [left; by apply sq_ring_bytes|by right]. }
  split; [|exact Hm']. split; simpl.
  - rewrite length_app. simpl. replace (qa_enq st + 1 - Z.of_nat (length (qa_sq st) + 1)) with (qa_enq st - n)
      by (subst n; lia). done.
  - rewrite length_app. simpl. lia.
  - exists B. split; [|done]. eapply cq_frame; [done|exact Hm'|]. spans.
  - intros q Hq. eapply valid_modifies; [exact Hm'|auto].
  - intros q id [[<- <-]|[Hne Hq]]%lookup_insert_Some; [done|].
    destruct (qr_ids0 _ _ Hq) as [Hqo Hqr]. split; [done|].
    pose proof (ql_objs _ _ _ Hlayout q rq Hqo Hobj ltac:(done)).
    pose proof (ql_sq _ _ _ Hlayout _ Hqo).
    eapply obj_frame; [exact Hm'|done|]. spans.
  - intros id Hin. apply elem_of_union in Hin as [->%elem_of_singleton|Hin]; [lia|].
    pose proof (Hwin _ Hin). simpl in *. destruct (qr_out0 _ Hin). lia.
  - clear -qr_dom0. set_solver.
  - done.
Qed.

Lemma qp_enqueue_refines fuel st m rq st' r :
  (0 < fuel)%nat → qp_rel st m → qp_spec_step cap objs st (QEnqueue rq) = Some (st', r) →
  wp (qp_step fuel qp (QEnqueue rq))
     (λ r' m', r' = r ∧ qp_rel st' m' ∧ modifies (both sq_bytes (span rq 4)) m m') m.
Proof.
  intros Hf Hrel Hs. simpl. apply wp_bind. eapply wp_mono; [by eapply qp_enqueue_spec|].
  intros tok m' ((_ & ->) & Hrel' & Hm). by wp_go.
Qed.

Lemma qp_dequeue_refines fuel st m st' r :
  qp_rel st m → qp_spec_step cap objs st QDequeue = Some (st', r) →
  wp (qp_step fuel qp QDequeue) (λ r' m', r' = r ∧ qp_rel st' m' ∧ modifies sq_bytes m m') m.
Proof.
  intros Hrel Hs. simpl in Hs. destruct st as [enq sq ids out cq]. simpl in *.
  destruct sq as [|rq sq]; injection Hs as <- <-.
  - apply wp_run. exists (RRequest None), m. split; [|auto with labstor].
    simpl. rewrite (run_bind _ _ None m m); [done|]. by eapply lrq_dequeue_empty, (qr_sq _ _ Hrel).
  - destruct Hrel. simpl in *. destruct qr_cq0 as (B & HS & HB).
    pose proof (ql_disjoint _ _ _ Hlayout) as Hdis.
    apply wp_bind. eapply wp_mono; [exact (lrq_dequeue_nonempty _ _ _ _ _ _ _ qr_sq0)|].
    intros ? m' (-> & Hsq & Hm). wp_go. split; [done|].
    assert (modifies sq_bytes m m') as Hm'.
    { eapply modifies_weaken; [exact Hm|]. exact sq_ring_bytes. }
    split; [|exact Hm']. split; simpl; try done.
    + rewrite u32_add_l in Hsq. replace (enq - Z.of_nat (length sq)) with
        (enq - Z.of_nat (S (length sq)) + 1) by lia. done.
    + lia.
    + exists B. split; [|done]. eapply cq_frame; [done|exact Hm'|]. spans.
    + intros q Hq. eapply valid_modifies; [exact Hm'|auto].
    + intros q id Hq. destruct (qr_ids0 _ _ Hq) as [Hqo Hqr]. split; [done|].
      pose proof (ql_sq _ _ _ Hlayout _ Hqo). eapply obj_frame; [exact Hm'|done|]. spans.
Qed.

(** The completion of [rq], whose id field already holds [id]. *)
Lemma complete_inf_spec fuel m rq id B :
  (0 < fuel)%nat → rm_rep (qp_cq_ qp) cap B m → rq ∈ objs → valid m rq 4 →
  read 4 rq m = u32 id → B !! id_bucket cap id = None →
  wp (labstor_queue_pair_CompleteInf fuel qp rq)
     (λ r m', r = true ∧ rm_rep (qp_cq_ qp) cap (<[id_bucket cap id := rq]> B) m' ∧
        modifies cq_bytes m m') m.
Proof.
  intros Hf HB Hobj Hv Hid Hfree. apply wp_inf_spinwait; [done|]. apply wp_bind.
  eapply wp_mono.
  { apply (rm_set_spec _ _ _ _ rq HB); [|done]. rewrite (ql_base _ _ _ Hlayout).
    by apply (ql_near _ _ _ Hlayout). }
  simpl. rewrite Hid. fold (id_bucket cap id). rewrite Hfree. intros r m' (-> & HB' & Hm).
  wp_go. exists true. auto.
Qed.

Lemma qp_complete_refines fuel st m old_rq new_rq st' r :
  (0 < fuel)%nat → qp_rel st m →
  qp_spec_step cap objs st (QComplete old_rq new_rq) = Some (st', r) →
  wp (qp_step fuel qp (QComplete old_rq new_rq)) (λ r' m', r' = r ∧ qp_rel st' m') m.
Proof.
  intros Hf [] Hs. simpl in Hs. destruct (qa_ids st !! old_rq) as [id|] eqn:Eid; [|done].
  case_decide as Hg; [|done]. destruct Hg as (Hold & Hnew & Hout & Hnone). injection Hs as <- <-.
  destruct qr_cq0 as (B & HS & HB), (qr_ids0 _ _ Eid) as [_ Hrd].
  pose proof (rm_n _ _ _ _ HS) as Hcap. pose proof (ql_disjoint _ _ _ Hlayout) as Hdis.
  pose proof (ql_sq _ _ _ Hlayout _ Hnew) as Hosq. pose proof (ql_cq _ _ _ Hlayout _ Hnew) as Hocq.
  pose proof (qr_valid0 _ Hold). pose proof (qr_valid0 _ Hnew).
  assert (B !! id_bucket cap id = None) as Hfree.
  { erewrite (buckets_lookup cap (qa_enq st)); try done. lia. }
  simpl. apply wp_bind. unfold labstor_queue_pair_Complete, rq_req_id_. rewrite !Z.add_0_r.
  do 4 wp_step. rewrite Hrd. set (m1 := write 4 new_rq (u32 id) m).
  assert (modifies (span new_rq 4) m m1) as Hm1 by (apply modifies_write; [done|spans]).
  eapply wp_mono.
  { apply (complete_inf_spec fuel m1 new_rq id B Hf); [|done|vsolve| |done].
    - eapply cq_frame; [done|exact Hm1|]. spans.
    - subst m1. mem_simpl. apply u32_idemp. }
  intros ok m' (-> & HS' & Hm2). wp_go. split; [done|].
  assert (modifies (both cq_bytes (span new_rq 4)) m m') as Hm.
  { eapply modifies_trans; (eapply modifies_weaken; [eassumption|]); spans. }
  split; simpl; try done.
  - eapply lrq_rep_frame; [done|exact Hm|]. spans.
  - exists (<[id_bucket cap id := new_rq]> B). split; [done|]. by apply buckets_insert.
  - intros q Hq. eapply valid_modifies; [exact Hm|auto].
  - intros q k [[<- <-]|[Hne Hq]]%lookup_insert_Some.
    + split; [done|]. eapply obj_frame; [exact Hm2|subst m1; mem_simpl; apply u32_idemp|]. spans.
    + destruct (qr_ids0 _ _ Hq) as [Hqo Hqr]. split; [done|].
      pose proof (ql_objs _ _ _ Hlayout q new_rq Hqo Hnew ltac:(done)).
      pose proof (ql_cq _ _ _ Hlayout _ Hqo). eapply obj_frame; [exact Hm|done|]. spans.
  - rewrite dom_insert_L. clear -Hout qr_dom0. set_solver.
Qed.

(** Bytes that belong neither to the pair nor to the ids of requests. *)
Lemma qp_rel_frame st m m' P :
  qp_rel st m → modifies P m m' →
  (∀ a, P a → ¬ sq_bytes a ∧ ¬ cq_bytes a ∧ ∀ rq, rq ∈ objs → ¬ (rq <= a < rq + 4)) → qp_rel st m'.
Proof.
  intros [] Hm HP. destruct qr_cq0 as (B & HS & HB). split; try done.
  - eapply lrq_rep_frame; [done|exact Hm|]. intros a Ha Pa. exact (proj1 (HP a Pa) Ha).
  - exists B. split; [|done]. eapply cq_frame; [done|exact Hm|]. intros a Pa. apply (HP a Pa).
  - intros rq Hrq. eapply valid_modifies; [exact Hm|auto].
  - intros rq id Hid. destruct (qr_ids0 _ _ Hid) as [Hobj Hrd]. split; [done|].
    eapply obj_frame; [exact Hm|done|]. intros a Ha Pa. exact (proj2 (proj2 (HP a Pa)) rq Hobj Ha).
Qed.

(** Storing the id a request already has. *)
Lemma qp_rel_same_id st m rq id :
  qp_rel st m → qa_ids st !! rq = Some id → qp_rel st (write 4 rq (u32 id) m).
Proof.
  intros Hrel Hid. destruct (qr_ids _ _ Hrel _ _ Hid) as [Hobj _]. destruct Hrel.
  pose proof (ql_sq _ _ _ Hlayout _ Hobj). pose proof (ql_cq _ _ _ Hlayout _ Hobj).
  assert (modifies (span rq 4) m (write 4 rq (u32 id) m)) as Hm by (apply modifies_write; [auto|spans]).
  destruct qr_cq0 as (B & HS & HB). split; try done.
  - eapply lrq_rep_frame; [done|exact Hm|]. spans.
  - exists B. split; [|done]. eapply cq_frame; [done|exact Hm|]. spans.
  - intros q Hq. eapply valid_modifies; [exact Hm|auto].
  - intros q k Hk. destruct (qr_ids0 _ _ Hk) as [Hqo Hrd]. split; [done|].
    destruct (decide (q = rq)) as [->|Hne]; [rewrite Hid in Hk; injection Hk as <-; mem_simpl; apply u32_idemp|].
    pose proof (ql_objs _ _ _ Hlayout q rq Hqo Hobj Hne). eapply obj_frame; [exact Hm|done|]. spans.
Qed.

(** The state after the completion of [rq] under its own id. *)
Definition completed (st : qp_abs) (rq id : Z) : qp_abs :=
  {| qa_enq := qa_enq st; qa_sq := qa_sq st; qa_ids := qa_ids st;
     qa_out := qa_out st; qa_cq := <[id := rq]> (qa_cq st) |}.

Lemma qp_complete_inf_spec fuel st m rq id :
  (0 < fuel)%nat → qp_rel st m → qa_ids st !! rq = Some id → id ∈ qa_out st → qa_cq st !! id = None →
  wp (labstor_queue_pair_CompleteInf fuel qp rq)
     (λ ok m', ok = true ∧ qp_rel (completed st rq id) m' ∧ modifies cq_bytes m m') m.
Proof.
  intros Hf Hrel Hid Hout Hnone. pose proof Hrel as []. destruct qr_cq0 as (B & HS & HB).
  destruct (qr_ids0 _ _ Hid) as [Hobj Hrd]. pose proof (rm_n _ _ _ _ HS) as Hcap.
  pose proof (ql_disjoint _ _ _ Hlayout) as Hdis.
  assert (B !! id_bucket cap id = None) as Hfree.
  { erewrite (buckets_lookup cap (qa_enq st)); try done. lia. }
  eapply wp_mono; [apply (complete_inf_spec fuel m rq id B); auto|].
  intros ok m' (-> & HS' & Hm). split; [done|]. split; [|done]. split; simpl; try done.
  - eapply lrq_rep_frame; [done|exact Hm|]. spans.
  - exists (<[id_bucket cap id := rq]> B). split; [done|]. by apply buckets_insert.
  - intros q Hq. eapply valid_modifies; [exact Hm|auto].
  - intros q k Hk. destruct (qr_ids0 _ _ Hk) as [Hqo Hqr]. split; [done|].
    pose proof (ql_cq _ _ _ Hlayout _ Hqo). eapply obj_frame; [exact Hm|done|]. spans.
  - rewrite dom_insert_L. clear -Hout qr_dom0. set_solver.
Qed.

(** The state after the completion under [id] was taken. *)
Definition waited (st : qp_abs) (id : Z) : qp_abs :=
  {| qa_enq := qa_enq st; qa_sq := qa_sq st; qa_ids := qa_ids st;
     qa_out := qa_out st ∖ {[id]}; qa_cq := delete id (qa_cq st) |}.

(** A poll for an id that was handed out. *)
Lemma is_complete_spec st m id :
  qp_rel st m → id ∈ qa_out st →
  wp (labstor_queue_pair_IsComplete qp (u32 id))
     (λ r m', (r = qa_cq st !! id ∧ modifies cq_bytes m m') ∧
        ((r = None ∧ qp_rel st m') ∨ (r ≠ None ∧ qp_rel (waited st id) m'))) m.
Proof.
  intros [] Hout. destruct qr_cq0 as (B & HS & HB). pose proof (rm_n _ _ _ _ HS) as Hcap.
  pose proof (ql_disjoint _ _ _ Hlayout) as Hdis.
  assert (B !! id_bucket cap id = qa_cq st !! id) as Hl.
  { eapply (buckets_lookup cap (qa_enq st)); try done. lia. }
  eapply wp_mono; [exact (rm_find_spec _ _ _ _ (u32 id) HS)|]. fold (id_bucket cap id).
  intros r m' (-> & HS' & Hm). split; [by rewrite Hl|]. rewrite Hl.
  assert (lrq_rep (qp_sq_ qp) qid cap (u32 (qa_enq st - Z.of_nat (length (qa_sq st)))) (qa_sq st) m') as Hsq.
  { eapply lrq_rep_frame; [done|exact Hm|]. spans. }
  assert (∀ rq, rq ∈ objs → valid m' rq 4) as Hval.
  { intros q Hq. eapply valid_modifies; [exact Hm|auto]. }
  assert (∀ rq k, qa_ids st !! rq = Some k → rq ∈ objs ∧ read 4 rq m' = u32 k) as Hids.
  { intros q k Hq. destruct (qr_ids0 _ _ Hq) as [Hqo Hqr]. split; [done|].
    pose proof (ql_cq _ _ _ Hlayout _ Hqo). eapply obj_frame; [exact Hm|done|]. spans. }
  destruct (qa_cq st !! id) as [rq|] eqn:E; [right|left]; (split; [done|]).
  - split; simpl; try done.
    + exists (delete (id_bucket cap id) B). split; [done|].
      eapply (buckets_delete cap (qa_enq st)); try done. lia.
    + intros k [Hk _]%elem_of_difference. auto.
    + rewrite dom_delete_L. clear -qr_dom0. set_solver.
  - split; try done. exists B. split; [|done]. rewrite delete_id in HS' by done. done.
Qed.

Lemma qp_wait_spec fuel st m id rq :
  (0 < fuel)%nat → qp_rel st m → qa_cq st !! id = Some rq →
  wp (labstor_queue_pair_Wait fuel qp (u32 id))
     (λ r m', r = rq ∧ qp_rel (waited st id) m' ∧ modifies cq_bytes m m') m.
Proof.
  intros Hf Hrel E. assert (id ∈ qa_out st) as Hout by (apply (qr_dom _ _ Hrel), elem_of_dom; eauto).
  apply wp_inf_spinwait; [done|]. eapply wp_mono; [by apply is_complete_spec|]. rewrite E.
  intros r' m' [[-> Hm] H]. exists rq. naive_solver.
Qed.

Lemma qp_step_refines fuel st m op st' r :
  (0 < fuel)%nat → qp_rel st m → qp_spec_step cap objs st op = Some (st', r) →
  wp (qp_step fuel qp op) (λ r' m', r' = r ∧ qp_rel st' m') m.
Proof.
  intros Hf Hrel Hs. destruct op as [rq| |old_rq new_rq|id|id].
  - eapply wp_mono; [by eapply qp_enqueue_refines|]. by intros r' m' (-> & ? & _).
  - eapply wp_mono; [by eapply qp_dequeue_refines|]. by intros r' m' (-> & ? & _).
  - by eapply qp_complete_refines.
  - simpl in Hs. case_decide as Hout; [|done]. apply wp_bind.
    eapply wp_mono; [by apply is_complete_spec|]. intros r' m' [[-> _] H]. wp_go.
    destruct (qa_cq st !! id); injection Hs as <- <-; naive_solver.
  - simpl in Hs. destruct (qa_cq st !! id) as [rq|] eqn:E; [|done]. injection Hs as <- <-.
    apply wp_bind. eapply wp_mono; [by eapply qp_wait_spec|]. intros r' m' (-> & H & _). by wp_go.
Qed.

Lemma qp_run_refines fuel ops st m rs :
  (0 < fuel)%nat → qp_rel st m → qp_spec_run cap objs st ops = Some rs →
  wp (qp_run fuel qp ops) (λ rs' _, rs' = rs) m.
Proof.
  intros Hf. revert st m rs. induction ops as [|op ops IH]; intros st m rs Hrel Hs; simpl in *.
  - injection Hs as <-. by wp_go.
  - apply bind_Some in Hs as ([st' r] & Hstep & Hs). apply bind_Some in Hs as (rs' & Hrun & [= <-]).
    apply wp_bind. eapply wp_mono; [by eapply qp_step_refines|]. intros ? m' [-> Hrel'].
    apply wp_bind. eapply wp_mono; [by eapply IH|]. intros ? m2 ->. by wp_go.
Qed.
End refinement.

(** ** Attaching from another address space

    Another process maps the same region [delta] bytes further: it sees the
    memory [remap delta m]. *)

Definition remap (delta : Z) (m : mem) : mem := kmap (M2 := gmap Z) (Z.add delta) m.

Definition shift (delta : Z) (p : Z) : Z := p + delta.

Lemma lookup_remap delta m a : remap delta m !! (delta + a) = m !! a.
Proof. unfold remap. apply lookup_kmap. intros x y. lia. Qed.

Lemma read_remap delta n p m : read n (p + delta) (remap delta m) = read n p m.
Proof.
  revert p. induction n as [|n IH]; intros p; [done|].
  change (default 0 (remap delta m !! (p + delta)) mod 256 + 256 * read n (p + delta + 1) (remap delta m)
    = default 0 (m !! p) mod 256 + 256 * read n (p + 1) m).
  rewrite (Z.add_comm p delta) at 1. rewrite lookup_remap.
  replace (p + delta + 1) with (p + 1 + delta) by lia. by rewrite IH.
Qed.

Lemma valid_remap delta p n m : valid m p n → valid (remap delta m) (p + delta) n.
Proof.
  intros H a Ha. replace a with (delta + (a - delta)) by lia. rewrite lookup_remap. apply H. lia.
Qed.

Lemma read_remap_at delta n p q m : q = p + delta → read n q (remap delta m) = read n p m.
Proof. intros ->. apply read_remap. Qed.

Lemma rb_rep_remap delta rbuf cap d q m :
  rb_rep rbuf cap d q m → rb_queue_ rbuf = rb_header_ rbuf + sizeof_rb_header →
  rb_rep (labstor_request_ring_buffer_Attach (rb_header_ rbuf + delta)) cap d q (remap delta m).
Proof.
  intros [] Hq. unfold slot in *. autounfold with layout in *.
  split; unfold slot; simpl; autounfold with layout; try done.
  - by apply valid_remap.
  - rewrite (read_remap_at _ _ (rb_header_ rbuf + 4)) by lia. done.
  - rewrite (read_remap_at _ _ (rb_header_ rbuf + 0)) by lia. done.
  - rewrite (read_remap_at _ _ (rb_header_ rbuf + 8)) by lia. done.
  - intros i x Hi. rewrite (read_remap_at _ _ (rb_queue_ rbuf + 4 * (u32 (d + Z.of_nat i) mod cap))) by lia.
    by apply rr_slots.
Qed.

(** A request that is near the base in both address spaces. *)
Definition near_both (delta base p : Z) : Prop := near base p ∧ near (base + delta) (p + delta).

Lemma lrq_rep_remap delta lrq qid cap d rqs m :
  lrq_rep lrq qid cap d rqs m → Forall (near_both delta (lrq_base_region_ lrq)) rqs →
  lrq_rep (labstor_request_queue_Attach (lrq_base_region_ lrq + delta) (lrq_header_ lrq + delta))
    qid cap d (shift delta <$> rqs) (remap delta m).
Proof.
  intros [] Hn. autounfold with layout in *. split; simpl; autounfold with layout; try done.
  - by apply valid_remap.
  - rewrite <-lr_qid. unfold qid_at.
    f_equal; apply read_remap_at; lia.
  - rewrite lr_handle in lr_ring. replace (lrq_header_ lrq + delta + 12) with (lrq_header_ lrq + 12 + delta) by lia.
    apply (rb_rep_remap delta) in lr_ring; [|done]. simpl in lr_ring. rewrite <-list_fmap_compose.
    erewrite list_fmap_ext; [exact lr_ring|]. intros i x _. simpl. unfold shift. lia.
  - apply Forall_fmap. eapply Forall_impl; [exact Hn|]. intros p [_ H]. exact H.
Qed.

Lemma rm_rep_remap delta map n S m :
  rm_rep map n S m → (∀ b p, S !! b = Some p → near_both delta (rm_base_region_ map) p) →
  rm_rep (labstor_request_map_Attach (rm_base_region_ map + delta) (rm_header_ map + delta))
    n (shift delta <$> S) (remap delta m).
Proof.
  intros [] Hn. unfold bucket in *. autounfold with layout in *.
  split; unfold bucket; simpl; autounfold with layout; try done.
  - by apply valid_remap.
  - rewrite (read_remap_at _ _ (rm_header_ map + 0)) by lia. done.
  - intros b Hb. rewrite (read_remap_at _ _ (rm_buckets_ map + 4 * b)) by lia.
    rewrite rm_slots, lookup_fmap by done. destruct (S !! b); simpl; [unfold shift; lia|done].
  - intros b p Hb. rewrite lookup_fmap in Hb. apply fmap_Some in Hb as (q & Hq & ->).
    apply (Hn _ _ Hq).
Qed.

(** ** Initialisation *)

Definition queue_pair_at (base sq_region cq_region : Z) : labstor_queue_pair :=
  {| qp_sq_ := labstor_request_queue_Attach base sq_region;
     qp_cq_ := labstor_request_map_Attach base cq_region |}.

Lemma qp_init_rel b qp0 qid base cap sq_region sq_size cq_region cq_size (objs : gset Z) m :
  valid m sq_region sq_size → 24 + 4 * cap <= sq_size < 2 ^ 32 →
  valid m cq_region cq_size → 4 + 4 * cap <= cq_size < 2 ^ 32 →
  0 < cap < 2 ^ 30 - 6 → qid_in_range qid →
  qp_layout (queue_pair_at base sq_region cq_region) cap objs →
  (∀ rq, rq ∈ objs → valid m rq 4) → ids_ok cap 0 = true →
  let qp := queue_pair_at base sq_region cq_region in
  wp (labstor_queue_pair_Init b qp0 qid base cap sq_region sq_size cq_region cq_size)
     (λ r m', r = qp ∧ qp_rel qp qid cap objs qp_spec_init m' ∧
        modifies (both (sq_bytes qp cap) (cq_bytes qp cap)) m m') m.
Proof.
  intros Hvs Hss Hvc Hcs Hcap Hqid Hlay Hobj Hok.
  pose proof (ql_disjoint _ _ _ Hlay) as Hdis. unfold outside in Hdis. simpl in Hdis.
  apply ids_ok_spec in Hok; [|lia].
  unfold labstor_queue_pair_Init. apply wp_bind. eapply wp_mono.
  { apply (lrq_init_spec b _ base sq_region sq_size cap qid m Hvs); try done; lia. }
  intros sq m1 (-> & Hsq & Hm1). apply wp_bind. eapply wp_mono.
  { apply (rm_init_spec b _ base cq_region cq_size cap m1); try lia. by eapply valid_modifies. }
  intros cq m2 (-> & Hcq & Hm2). wp_go. split; [done|]. split.
  - split; simpl; try done.
    + eapply lrq_rep_frame; [exact Hsq|exact Hm2|].
      unfold lrq_span, span; simpl; autounfold with layout; intros; lia.
    + exists ∅. split; [done|]. split; intros ?? H; by rewrite lookup_empty in H.
    + intros rq Hrq. do 2 (eapply valid_modifies; [eassumption|]). auto.
  - eapply modifies_trans; (eapply modifies_weaken; [eassumption|]);
      unfold sq_bytes, cq_bytes, lrq_span, rm_span, both, span; simpl; autounfold with layout; lia.
Qed.

(** ** Theorems *)

(** C6. A queue pair of depth [cap] initialised in two disjoint mapped regions
    keeps its promise within its window: for every sequence of Enqueue,
    Dequeue, Complete, IsComplete and Wait calls the specification allows, each
    call on the shared memory returns, without blocking, what the
    specification returns: tokens are numbered in order, Dequeue hands requests
    out in the order they were enqueued, and a Wait or IsComplete on a token
    returns the request that was completed for that token and no other.

    The specification allows a sequence under these conditions, which the code
    does not check and leaves to its callers: an Enqueue is made when there is
    room in the queue and the id it hands out is less than [cap] after every id
    that was not yet waited for (outside this window a wait can return the
    request of another token, [wait_returns_other_request]); a Complete is for
    an id handed out and not yet completed; a Wait is for a token whose request
    was completed (before that the call blocks); and [cap] divides 2^32 or the
    ids stay [cap] below 2^32. *)
Theorem queue_pair_correct b qp0 qid base cap sq_region sq_size cq_region cq_size
    (objs : gset Z) fuel ops rs m :
  valid m sq_region sq_size → 24 + 4 * cap <= sq_size < 2 ^ 32 →
  valid m cq_region cq_size → 4 + 4 * cap <= cq_size < 2 ^ 32 →
  0 < cap < 2 ^ 30 - 6 → qid_in_range qid → (0 < fuel)%nat →
  qp_layout (queue_pair_at base sq_region cq_region) cap objs →
  (∀ rq, rq ∈ objs → valid m rq 4) →
  ids_ok cap 0 = true →
  qp_spec_run cap objs qp_spec_init ops = Some rs →
  wp (qp ← labstor_queue_pair_Init b qp0 qid base cap sq_region sq_size cq_region cq_size;
      qp_run fuel qp ops) (λ rs' _, rs' = rs) m.
Proof.
  intros Hvs Hss Hvc Hcs Hcap Hqid Hf Hlay Hobj Hok Hrun. apply wp_bind.
  eapply wp_mono; [by apply (qp_init_rel b qp0 qid base cap sq_region sq_size cq_region cq_size objs)|].
  intros qp m' (-> & Hrel & _). by eapply (qp_run_refines _ qid cap objs Hlay eq_refl).
Qed.

Definition wit_objs : gset Z := {[8192; 8256]}.
Definition wit_mem : mem := zero_region 4096 32 ∪ (zero_region 4160 12 ∪ (zero_region 8192 4 ∪ zero_region 8256 4)).
Definition wit_qid : labstor_qid_t := {| qid_flags_ := 0; qid_type_ := 0; qid_cnt_ := 3; qid_pid_ := 77 |}.

Lemma queue_pair_correct_witness :
  wp (qp ← labstor_queue_pair_Init Userspace (queue_pair_at 0 0 0) wit_qid 4096 2 4096 32 4160 12;
      qp_run 1 qp [QEnqueue 8192; QEnqueue 8256; QDequeue; QDequeue;
                   QComplete 8256 8256; QIsComplete 0; QComplete 8192 8192; QWait 0; QWait 1])
     (λ rs _, rs = [RTok 0; RTok 1; RRequest (Some 8192); RRequest (Some 8256); RDone true;
                    RRequest None; RDone true; RRequest (Some 8192); RRequest (Some 8256)]) wit_mem.
Proof.
  eapply (queue_pair_correct Userspace (queue_pair_at 0 0 0) wit_qid 4096 2 4096 32 4160 12 wit_objs 1).
  - apply (validb_valid _ 4096 32). vm_compute. reflexivity.
  - lia.
  - apply (validb_valid _ 4160 12). vm_compute. reflexivity.
  - lia.
  - lia.
  - unfold qid_in_range; simpl; lia.
  - lia.
  - split; simpl; unfold near, outside, wit_objs;
      try (intros rq [->%elem_of_singleton| ->%elem_of_singleton]%elem_of_union); try lia.
    intros p q [->%elem_of_singleton| ->%elem_of_singleton]%elem_of_union
      [->%elem_of_singleton| ->%elem_of_singleton]%elem_of_union; lia.
  - intros rq [->%elem_of_singleton| ->%elem_of_singleton]%elem_of_union.
    + apply (validb_valid _ 8192 4). vm_compute. reflexivity.
    + apply (validb_valid _ 8256 4). vm_compute. reflexivity.
  - reflexivity.
  - vm_compute. reflexivity.
Defined.

(** A queue pair is position independent: with the pointer that
    GetPointer returns, a process that maps the region [delta] bytes away
    attaches to the same queue pair; what it dequeues, and what it finds
    completed, is the request at the corresponding address of its own
    mapping. *)
Theorem queue_pair_attach_elsewhere qp qid cap d rqs n S delta m base :
  base = lrq_base_region_ (qp_sq_ qp) → base = rm_base_region_ (qp_cq_ qp) →
  near base (lrq_header_ (qp_sq_ qp)) → near base (rm_header_ (qp_cq_ qp)) →
  lrq_rep (qp_sq_ qp) qid cap d rqs m → rm_rep (qp_cq_ qp) n S m →
  Forall (near_both delta base) rqs → (∀ b p, S !! b = Some p → near_both delta base p) →
  ∃ ptr, labstor_queue_pair_GetPointer qp base m = Ret ptr m ∧ qpp_pid_ ptr = qid_pid_ qid ∧
    let qp' := labstor_queue_pair_Attach ptr (base + delta) in
    wp (labstor_queue_pair_Dequeue qp') (λ r _, r = shift delta <$> head rqs) (remap delta m) ∧
    ∀ id, wp (labstor_queue_pair_IsComplete qp' id)
             (λ r _, r = shift delta <$> S !! (id mod n)) (remap delta m).
Proof.
  intros -> Hbase Hnsq Hncq Hsq Hcq Hrqs HS.
  exists (labstor_queue_pair_ptr_Init qid (lrq_header_ (qp_sq_ qp)) (rm_header_ (qp_cq_ qp))
            (lrq_base_region_ (qp_sq_ qp))).
  split; [|split; [done|]].
  - apply wp_exact. unfold labstor_queue_pair_GetPointer. apply wp_bind, wp_load_qid.
    + pose proof (lr_valid _ _ _ _ _ _ Hsq). unfold labstor_request_queue_GetQID. vsolve.
    + wp_go. unfold labstor_request_queue_GetQID. by rewrite (lr_qid _ _ _ _ _ _ Hsq).
  - pose proof (lrq_rep_remap delta _ _ _ _ _ _ Hsq Hrqs) as Hsq'.
    rewrite Hbase in HS. pose proof (rm_rep_remap delta _ _ _ _ Hcq HS) as Hcq'.
    unfold labstor_queue_pair_Attach, labstor_queue_pair_ptr_Init, LABSTOR_REGION_ADD. simpl.
    rewrite !near_sub by done. rewrite <-Hbase in Hcq'.
    replace (lrq_base_region_ (qp_sq_ qp) + delta + (lrq_header_ (qp_sq_ qp) - lrq_base_region_ (qp_sq_ qp)))
      with (lrq_header_ (qp_sq_ qp) + delta) by lia.
    replace (lrq_base_region_ (qp_sq_ qp) + delta + (rm_header_ (qp_cq_ qp) - lrq_base_region_ (qp_sq_ qp)))
      with (rm_header_ (qp_cq_ qp) + delta) by lia.
    split.
    + destruct rqs as [|rq rqs]; simpl in *.
      * apply wp_run. exists None, (remap delta m). split; [|done]. by eapply lrq_dequeue_empty.
      * eapply wp_mono; [by eapply lrq_dequeue_nonempty|]. by intros r m' (-> & _).
    + intros id. eapply wp_mono; [by eapply rm_find_spec|]. intros r m' (-> & _).
      by rewrite lookup_fmap.
Qed.

(** A pair of depth 2 with one request waiting and one completed. *)
Definition wit_run : outcome (list qp_res) :=
  (qp ← labstor_queue_pair_Init Userspace (queue_pair_at 0 0 0) wit_qid 4096 2 4096 32 4160 12;
   qp_run 1 qp [QEnqueue 8192; QDequeue; QComplete 8192 8192; QEnqueue 8256]) wit_mem.

Definition wit_mem_after : mem := match wit_run with Ret _ m => m | _ => ∅ end.

Lemma queue_pair_attach_elsewhere_witness :
  ∃ ptr, labstor_queue_pair_GetPointer (queue_pair_at 4096 4096 4160) 4096 wit_mem_after = Ret ptr wit_mem_after ∧
    qpp_pid_ ptr = 77 ∧
    let qp' := labstor_queue_pair_Attach ptr (4096 + 1048576) in
    wp (labstor_queue_pair_Dequeue qp') (λ r _, r = Some (8256 + 1048576)) (remap 1048576 wit_mem_after) ∧
    wp (labstor_queue_pair_IsComplete qp' 0) (λ r _, r = Some (8192 + 1048576)) (remap 1048576 wit_mem_after).
Proof.
  edestruct (queue_pair_attach_elsewhere (queue_pair_at 4096 4096 4160) wit_qid 2 1 [8256] 2 {[0 := 8192]}
    1048576 wit_mem_after 4096) as (ptr & H1 & H2 & H3 & H4).
  - reflexivity.
  - reflexivity.
  - unfold near; simpl; lia.
  - unfold near; simpl; lia.
  - split; [reflexivity|apply (validb_valid _ 4096 12); vm_compute; reflexivity|vm_compute; reflexivity| |].
    + split.
      * reflexivity.
      * apply (validb_valid _ 4108 20). vm_compute. reflexivity.
      * lia.
      * simpl. lia.
      * vm_compute. reflexivity.
      * vm_compute. reflexivity.
      * vm_compute. reflexivity.
      * intros [|i] x Hi; [|done]. injection Hi as <-. vm_compute. reflexivity.
    + repeat constructor; simpl; lia.
  - split.
    + reflexivity.
    + apply (validb_valid _ 4160 12). vm_compute. reflexivity.
    + lia.
    + vm_compute. reflexivity.
    + intros b Hb. assert (b = 0 ∨ b = 1) as Hc by lia. destruct Hc as [->| ->]; vm_compute; reflexivity.
    + intros b p [<- <-]%lookup_singleton_Some. unfold near; simpl; lia.
  - repeat constructor; simpl; lia.
  - intros b p [<- <-]%lookup_singleton_Some. unfold near_both, near; simpl; lia.
  - exists ptr. split; [exact H1|]. split; [exact H2|]. split; [exact H3|]. exact (H4 0).
Defined.

(** ** Limits *)

(** RemoteAttach passes the base and the queue in the wrong order: the header
    of the submission queue becomes the base of the region and the base
    becomes the address of the queue. *)
Lemma remote_attach_swaps_base ptr base :
  let sq := qp_sq_ (labstor_queue_pair_RemoteAttach ptr base) in
  lrq_header_ sq = base ∧ lrq_base_region_ sq = LABSTOR_REGION_ADD (qpp_sq_off_ ptr) base.
Proof. done. Qed.

(** A completion is found by its id modulo the depth, so a token whose request
    is still being served can receive the completion of a request [cap]
    later: here the wait on token 0 returns the request of token 2. *)
Lemma wait_returns_other_request :
  wp (qp ← labstor_queue_pair_Init Userspace (queue_pair_at 0 0 0) wit_qid 4096 2 4096 32 4160 12;
      qp_run 1 qp [QEnqueue 8192; QDequeue; QEnqueue 8256; QDequeue; QEnqueue 8256; QDequeue;
                   QComplete 8256 8256; QWait 0])
     (λ rs _, rs = [RTok 0; RRequest (Some 8192); RTok 1; RRequest (Some 8256);
                    RTok 2; RRequest (Some 8256); RDone true; RRequest (Some 8256)]) wit_mem.
Proof. vm_compute. reflexivity. Qed.
