(* ===== verification/WorkQueue.v ===== *)
(** * WorkQueue.v: the work queues of the workers

    include/labstor/types/data_structures/c/shmem_work_queue.h and
    shmem_work_queue_secure.h: append-only arrays of queue pairs (with the
    credentials of their owner in the secure variant) that a worker scans.

    [vec_rep] relates such an array in memory to the list of its entries. *)

From S2P Require Import Prelude Memory RingBuffer.

Local Open Scope Z_scope.

(** ** Data *)

(** [struct labstor_work_queue_header] (the secure header is the same). *)
Definition wqh_enqueued_ : Z := 0.
Definition wqh_max_depth_ : Z := 4.
Definition wqh_plug_ : Z := 8.
Definition sizeof_wq_header : Z := 12.
Definition sizeof_pointer : Z := 8.

(** [struct labstor_work_queue_secure_entry]: two pointers. *)
Definition wqe_qp_ : Z := 0.
Definition wqe_creds_ : Z := 8.
Definition sizeof_wq_secure_entry : Z := 16.

Record labstor_work_queue := { wq_header_ : Z; wq_queue_ : Z }.
Record labstor_work_queue_secure := { wqs_header_ : Z; wqs_queue_ : Z }.

(** ** shmem_work_queue.h *)

(** The entries are pointers, but their size is taken to be that of an
    offset. *)
Definition labstor_work_queue_GetSize_global (max_depth : Z) : Z :=
  u32 (sizeof_wq_header + sizeof_labstor_off_t * max_depth).

Definition labstor_work_queue_GetSize (rbuf : labstor_work_queue) : M Z :=
  max_depth ← load32 (wq_header_ rbuf + wqh_max_depth_);
  mret (labstor_work_queue_GetSize_global max_depth).

Definition labstor_work_queue_GetRegion (rbuf : labstor_work_queue) : Z := wq_header_ rbuf.

Definition labstor_work_queue_GetNextSection (rbuf : labstor_work_queue) : M Z :=
  size ← labstor_work_queue_GetSize rbuf; mret (wq_header_ rbuf + size).

Definition labstor_work_queue_GetDepth (rbuf : labstor_work_queue) : M Z :=
  load32 (wq_header_ rbuf + wqh_enqueued_).

Definition labstor_work_queue_GetMaxDepth (rbuf : labstor_work_queue) : M Z :=
  load32 (wq_header_ rbuf + wqh_max_depth_).

Definition work_queue_size_error {A} (b : build) (rbuf : A) : M (A * bool) :=
  match b with
  | Userspace => throw INVALID_RING_BUFFER_SIZE
  | Kernel => mret (rbuf, false)
  end.

Definition labstor_work_queue_Init (b : build) (rbuf : labstor_work_queue)
    (region region_size max_depth : Z) : M (labstor_work_queue * bool) :=
  let rbuf := {| wq_header_ := region; wq_queue_ := wq_queue_ rbuf |} in
  _ ← store32 (region + wqh_enqueued_) 0;
  _ ← store16 (region + wqh_plug_) 0;
  _ ← store16 (region + wqh_plug_ + 2) 0;
  if region_size <? labstor_work_queue_GetSize_global max_depth then work_queue_size_error b rbuf
  else
    let max_depth :=
      if max_depth =? 0 then u32 (region_size - sizeof_wq_header) / sizeof_pointer else max_depth in
    if max_depth =? 0 then work_queue_size_error b rbuf
    else
      _ ← store32 (region + wqh_max_depth_) max_depth;
      mret ({| wq_header_ := region; wq_queue_ := region + sizeof_wq_header |}, true).

Definition labstor_work_queue_Attach (region : Z) : labstor_work_queue :=
  {| wq_header_ := region; wq_queue_ := region + sizeof_wq_header |}.

Definition labstor_work_queue_Enqueue (rbuf : labstor_work_queue) (qp : Z) : M bool :=
  enqueued ← load32 (wq_header_ rbuf + wqh_enqueued_);
  max_depth ← load32 (wq_header_ rbuf + wqh_max_depth_);
  if enqueued >=? max_depth then mret false
  else
    i ← load32 (wq_header_ rbuf + wqh_enqueued_);
    _ ← store64 (wq_queue_ rbuf + sizeof_pointer * i) qp;
    n ← load32 (wq_header_ rbuf + wqh_enqueued_);
    _ ← store32 (wq_header_ rbuf + wqh_enqueued_) (u32 (n + 1));
    mret true.

(** The [int] index is converted to unsigned for the comparison. *)
Definition labstor_work_queue_Peek (rbuf : labstor_work_queue) (i : Z) : M (option Z) :=
  enqueued ← load32 (wq_header_ rbuf + wqh_enqueued_);
  if u32 i >=? enqueued then mret None
  else
    qp ← load64 (wq_queue_ rbuf + sizeof_pointer * i);
    mret (Some qp).

(** ** shmem_work_queue_secure.h *)

Definition labstor_work_queue_secure_GetSize_global (max_depth : Z) : Z :=
  u32 (sizeof_wq_header + sizeof_wq_secure_entry * max_depth).

Definition labstor_work_queue_secure_GetSize (rbuf : labstor_work_queue_secure) : M Z :=
  max_depth ← load32 (wqs_header_ rbuf + wqh_max_depth_);
  mret (labstor_work_queue_secure_GetSize_global max_depth).

Definition labstor_work_queue_secure_GetRegion (rbuf : labstor_work_queue_secure) : Z := wqs_header_ rbuf.

Definition labstor_work_queue_secure_GetNextSection (rbuf : labstor_work_queue_secure) : M Z :=
  size ← labstor_work_queue_secure_GetSize rbuf; mret (wqs_header_ rbuf + size).

Definition labstor_work_queue_secure_GetDepth (rbuf : labstor_work_queue_secure) : M Z :=
  load32 (wqs_header_ rbuf + wqh_enqueued_).

Definition labstor_work_queue_secure_GetMaxDepth (rbuf : labstor_work_queue_secure) : M Z :=
  load32 (wqs_header_ rbuf + wqh_max_depth_).

Definition labstor_work_queue_secure_Init (b : build) (rbuf : labstor_work_queue_secure)
    (region region_size max_depth : Z) : M (labstor_work_queue_secure * bool) :=
  let rbuf := {| wqs_header_ := region; wqs_queue_ := wqs_queue_ rbuf |} in
  _ ← store32 (region + wqh_enqueued_) 0;
  _ ← store16 (region + wqh_plug_) 0;
  _ ← store16 (region + wqh_plug_ + 2) 0;
  if region_size <? labstor_work_queue_secure_GetSize_global max_depth then work_queue_size_error b rbuf
  else
    let max_depth :=
      if max_depth =? 0 then u32 (region_size - sizeof_wq_header) / sizeof_wq_secure_entry else max_depth in
    if max_depth =? 0 then work_queue_size_error b rbuf
    else
      _ ← store32 (region + wqh_max_depth_) max_depth;
      mret ({| wqs_header_ := region; wqs_queue_ := region + sizeof_wq_header |}, true).

Definition labstor_work_queue_secure_Attach (region : Z) : labstor_work_queue_secure :=
  {| wqs_header_ := region; wqs_queue_ := region + sizeof_wq_header |}.

Definition labstor_work_queue_secure_Enqueue (rbuf : labstor_work_queue_secure) (qp creds : Z) : M bool :=
  enqueued ← load32 (wqs_header_ rbuf + wqh_enqueued_);
  max_depth ← load32 (wqs_header_ rbuf + wqh_max_depth_);
  if enqueued >=? max_depth then mret false
  else
    i ← load32 (wqs_header_ rbuf + wqh_enqueued_);
    _ ← store64 (wqs_queue_ rbuf + sizeof_wq_secure_entry * i + wqe_qp_) qp;
    j ← load32 (wqs_header_ rbuf + wqh_enqueued_);
    _ ← store64 (wqs_queue_ rbuf + sizeof_wq_secure_entry * j + wqe_creds_) creds;
    n ← load32 (wqs_header_ rbuf + wqh_enqueued_);
    _ ← store32 (wqs_header_ rbuf + wqh_enqueued_) (u32 (n + 1));
    mret true.

Definition labstor_work_queue_secure_Peek (rbuf : labstor_work_queue_secure) (i : Z) : M (option (Z * Z)) :=
  enqueued ← load32 (wqs_header_ rbuf + wqh_enqueued_);
  if u32 i >=? enqueued then mret None
  else
    qp ← load64 (wqs_queue_ rbuf + sizeof_wq_secure_entry * i + wqe_qp_);
    creds ← load64 (wqs_queue_ rbuf + sizeof_wq_secure_entry * i + wqe_creds_);
    mret (Some (qp, creds)).

#[export] Hint Unfold wqh_enqueued_ wqh_max_depth_ wqh_plug_ sizeof_wq_header sizeof_pointer
  wqe_qp_ wqe_creds_ sizeof_wq_secure_entry : layout.

(** ** An append-only array in memory

    [rd p m] is the entry of [esize] bytes at [p]. *)

Section vec.
Context {E : Type} (esize : Z) (rd : Z → mem → E).

(** An entry is a function of its own bytes. *)
Class EntryBytes : Prop := {
  entry_bytes : ∀ P m m' p, modifies P m m' → (∀ a, p <= a < p + esize → ¬ P a) → rd p m' = rd p m
}.
Context `{Hrd : EntryBytes}.
Hypothesis Hesize : 0 < esize.

Record vec_rep (header cap : Z) (l : list E) (m : mem) : Prop := {
  vr_valid : valid m header (sizeof_wq_header + esize * cap);
  vr_cap : 0 < cap < 2 ^ 32;
  vr_len : Z.of_nat (length l) <= cap;
  vr_enq : read 4 (header + wqh_enqueued_) m = Z.of_nat (length l);
  vr_max : read 4 (header + wqh_max_depth_) m = cap;
  vr_entries : ∀ i e, l !! i = Some e →
    rd (header + sizeof_wq_header + esize * Z.of_nat i) m = e
}.

(** The entry after the last is written, then the counter incremented. *)
Lemma vec_rep_push header cap l m m1 e :
  vec_rep header cap l m → Z.of_nat (length l) < cap →
  modifies (span (header + sizeof_wq_header + esize * Z.of_nat (length l)) esize) m m1 →
  rd (header + sizeof_wq_header + esize * Z.of_nat (length l)) m1 = e →
  vec_rep header cap (l ++ [e]) (write 4 (header + wqh_enqueued_) (u32 (Z.of_nat (length l) + 1)) m1).
Proof.
  intros [] Hlt Hm He. autounfold with layout in *.
  assert (valid m1 header (12 + esize * cap)) as Hv1 by (by eapply valid_modifies).
  assert (modifies (span header 4) m1
    (write 4 (header + 0) (u32 (Z.of_nat (length l) + 1)) m1)) as Hm2.
  { apply modifies_write; [|unfold span; simpl; lia]. apply (valid_sub _ _ _ _ _ Hv1); simpl; nia. }
  split; autounfold with layout; rewrite ?length_app; simpl.
  - by apply valid_write.
  - done.
  - lia.
  - mem_simpl. lia.
  - rewrite read_write_other by (simpl; lia). erewrite read_modifies; [done|exact Hm|].
    unfold span. simpl. nia.
  - intros i x Hi. erewrite entry_bytes; [|exact Hm2|unfold span; nia].
    apply lookup_snoc in Hi as [Hi|[-> ->]]; [|done].
    pose proof (lookup_lt_Some _ _ _ Hi).
    erewrite entry_bytes; [by apply vr_entries0|exact Hm|]. unfold span. nia.
Qed.

Lemma vec_frame header cap l P m m' :
  vec_rep header cap l m → modifies P m m' →
  (∀ a, P a → ¬ span header (sizeof_wq_header + esize * cap) a) → vec_rep header cap l m'.
Proof.
  intros [] Hm HP. unfold span in HP. autounfold with layout in *. split; autounfold with layout; try done.
  - by eapply valid_modifies.
  - rewrite <-vr_enq0. eapply read_modifies; [exact Hm|]. simpl. intros a Ha Pa. apply (HP a Pa). nia.
  - rewrite <-vr_max0. eapply read_modifies; [exact Hm|]. simpl. intros a Ha Pa. apply (HP a Pa). nia.
  - intros i e Hi. rewrite <-(vr_entries0 i e Hi). pose proof (lookup_lt_Some _ _ _ Hi).
    eapply entry_bytes; [exact Hm|]. intros a Ha Pa. apply (HP a Pa). nia.
Qed.
End vec.

Arguments vec_rep {E} esize rd header cap l m.

(** The two kinds of entry. *)
Definition rd_pointer (p : Z) (m : mem) : Z := read 8 p m.
Definition rd_secure (p : Z) (m : mem) : Z * Z := (read 8 (p + wqe_qp_) m, read 8 (p + wqe_creds_) m).

#[export] Instance pointer_bytes : EntryBytes sizeof_pointer rd_pointer.
Proof. split. intros P m m' p Hm HP. eapply read_modifies; [exact Hm|]. exact HP. Qed.

#[export] Instance secure_bytes : EntryBytes sizeof_wq_secure_entry rd_secure.
Proof.
  split. intros P m m' p Hm HP. autounfold with layout in HP. unfold rd_secure. autounfold with layout.
  f_equal; (eapply read_modifies; [exact Hm|]); simpl; intros a Ha; apply HP; lia.
Qed.

(** ** The operations on a represented array *)

Lemma vec_full cap n : 0 <= n <= cap → (n >=? cap) = bool_decide (n = cap).
Proof. intros. rewrite Z.geb_leb. case_bool_decide; [apply Z.leb_le|apply Z.leb_gt]; lia. Qed.

Lemma wq_enqueue_spec rbuf cap l m qp :
  vec_rep sizeof_pointer rd_pointer (wq_header_ rbuf) cap l m →
  wq_queue_ rbuf = wq_header_ rbuf + sizeof_wq_header → 0 <= qp < 2 ^ 64 →
  wp (labstor_work_queue_Enqueue rbuf qp)
     (λ r m', if decide (Z.of_nat (length l) < cap)
              then r = true ∧ vec_rep sizeof_pointer rd_pointer (wq_header_ rbuf) cap (l ++ [qp]) m' ∧
                modifies (span (wq_header_ rbuf) (sizeof_wq_header + sizeof_pointer * cap)) m m'
              else r = false ∧ m' = m) m.
Proof.
  intros Hr Hq Hqp. pose proof Hr as []. unfold labstor_work_queue_Enqueue.
  autounfold with layout in *. wp_go. rewrite vr_enq0, vr_max0, vec_full by lia.
  case_bool_decide as Hc; [wp_go; by rewrite decide_False by lia|].
  wp_go. rewrite vr_enq0, Hq. wp_go. rewrite decide_True by lia. split; [done|].
  rewrite read_write_other by (simpl; lia). rewrite vr_enq0. split; [|autounfold with layout; msolve].
  eapply (vec_rep_push sizeof_pointer rd_pointer); autounfold with layout; try done; [lia|..].
  - apply modifies_write; [vsolve|unfold span; simpl; lia].
  - unfold rd_pointer. mem_simpl. done.
Qed.

Lemma wq_peek_spec rbuf cap l m i :
  vec_rep sizeof_pointer rd_pointer (wq_header_ rbuf) cap l m →
  wq_queue_ rbuf = wq_header_ rbuf + sizeof_wq_header → 0 <= i < 2 ^ 31 →
  labstor_work_queue_Peek rbuf i m = Ret (l !! Z.to_nat i) m.
Proof.
  intros [] Hq Hi. apply wp_exact. unfold labstor_work_queue_Peek. autounfold with layout in *.
  wp_go. rewrite vr_enq0, u32_small, Z.geb_leb by lia. destruct (Z.leb_spec (Z.of_nat (length l)) i).
  - wp_go. by rewrite lookup_ge_None_2 by lia.
  - destruct (lookup_lt_is_Some_2 l (Z.to_nat i) ltac:(lia)) as [e He]. rewrite He.
    pose proof (vr_entries0 _ _ He) as Hrd. rewrite Z2Nat.id in Hrd by lia.
    rewrite Hq. wp_go. unfold rd_pointer in Hrd. by rewrite Hrd.
Qed.

Lemma wqs_enqueue_spec rbuf cap l m qp creds :
  vec_rep sizeof_wq_secure_entry rd_secure (wqs_header_ rbuf) cap l m →
  wqs_queue_ rbuf = wqs_header_ rbuf + sizeof_wq_header →
  0 <= qp < 2 ^ 64 → 0 <= creds < 2 ^ 64 →
  wp (labstor_work_queue_secure_Enqueue rbuf qp creds)
     (λ r m', if decide (Z.of_nat (length l) < cap)
              then r = true ∧
                vec_rep sizeof_wq_secure_entry rd_secure (wqs_header_ rbuf) cap (l ++ [(qp, creds)]) m' ∧
                modifies (span (wqs_header_ rbuf) (sizeof_wq_header + sizeof_wq_secure_entry * cap)) m m'
              else r = false ∧ m' = m) m.
Proof.
  intros Hr Hq Hqp Hcr. pose proof Hr as []. unfold labstor_work_queue_secure_Enqueue.
  autounfold with layout in *. wp_go. rewrite vr_enq0, vr_max0, vec_full by lia.
  case_bool_decide as Hc; [wp_go; by rewrite decide_False by lia|].
  wp_go. rewrite vr_enq0, Hq. wp_go. rewrite read_write_other by (simpl; lia). rewrite vr_enq0.
  wp_go. rewrite decide_True by lia. split; [done|].
  rewrite !read_write_other by (simpl; lia). rewrite vr_enq0. split; [|autounfold with layout; msolve].
  eapply (vec_rep_push sizeof_wq_secure_entry rd_secure); autounfold with layout; try done; [lia|..].
  - apply modifies_then_write; [|vsolve|unfold span; simpl; lia].
    apply modifies_write; [vsolve|unfold span; simpl; lia].
  - unfold rd_secure. autounfold with layout. mem_simpl. done.
Qed.

Lemma wqs_peek_spec rbuf cap l m i :
  vec_rep sizeof_wq_secure_entry rd_secure (wqs_header_ rbuf) cap l m →
  wqs_queue_ rbuf = wqs_header_ rbuf + sizeof_wq_header → 0 <= i < 2 ^ 31 →
  labstor_work_queue_secure_Peek rbuf i m = Ret (l !! Z.to_nat i) m.
Proof.
  intros [] Hq Hi. apply wp_exact. unfold labstor_work_queue_secure_Peek. autounfold with layout in *.
  wp_go. rewrite vr_enq0, u32_small, Z.geb_leb by lia. destruct (Z.leb_spec (Z.of_nat (length l)) i).
  - wp_go. by rewrite lookup_ge_None_2 by lia.
  - destruct (lookup_lt_is_Some_2 l (Z.to_nat i) ltac:(lia)) as [e He]. rewrite He.
    pose proof (vr_entries0 _ _ He) as Hrd. rewrite Z2Nat.id in Hrd by lia.
    rewrite Hq. wp_go. unfold rd_secure in Hrd. autounfold with layout in Hrd. by rewrite Hrd.
Qed.

(** A negative index is never in range. *)
Lemma wqs_peek_negative rbuf cap l m i :
  vec_rep sizeof_wq_secure_entry rd_secure (wqs_header_ rbuf) cap l m →
  cap <= 2 ^ 31 → - 2 ^ 31 <= i < 0 → labstor_work_queue_secure_Peek rbuf i m = Ret None m.
Proof.
  intros [] Hcap Hi. apply wp_exact. unfold labstor_work_queue_secure_Peek. autounfold with layout in *.
  wp_go. rewrite vr_enq0, Z.geb_leb, (proj2 (Z.leb_le _ _)); [by wp_go|]. mod_lia.
Qed.

Lemma wqs_init_spec b rbuf region region_size max_depth m :
  valid m region region_size → 0 < max_depth < 2 ^ 28 - 1 → 12 + 16 * max_depth <= region_size < 2 ^ 32 →
  wp (labstor_work_queue_secure_Init b rbuf region region_size max_depth)
     (λ r m', r = (labstor_work_queue_secure_Attach region, true) ∧
        vec_rep sizeof_wq_secure_entry rd_secure region max_depth [] m') m.
Proof.
  intros Hv Hd Hsz. unfold labstor_work_queue_secure_Init, labstor_work_queue_secure_GetSize_global.
  autounfold with layout. rewrite (u32_small (12 + 16 * max_depth)) by lia.
  rewrite (proj2 (Z.ltb_ge _ _)) by lia. rewrite (proj2 (Z.eqb_neq max_depth 0)) by lia. cbv zeta.
  rewrite (proj2 (Z.eqb_neq max_depth 0)) by lia. wp_go. split; [done|].
  split; autounfold with layout; simpl; try (mem_simpl; done); try lia.
  vsolve.
Qed.

(** ** Theorems *)

Inductive wq_op := WEnqueue (qp creds : Z) | WPeek (i : Z).
Inductive wq_res := WAccepted (ok : bool) | WEntry (e : option (Z * Z)).

(** The specification: a list that grows at its end up to [cap] entries. *)
Definition wq_spec_step (cap : Z) (l : list (Z * Z)) (op : wq_op) : list (Z * Z) * wq_res :=
  match op with
  | WEnqueue qp creds =>
      if Z.of_nat (length l) <? cap then (l ++ [(qp, creds)], WAccepted true) else (l, WAccepted false)
  | WPeek i => (l, WEntry (l !! Z.to_nat i))
  end.

Fixpoint wq_spec_run (cap : Z) (l : list (Z * Z)) (ops : list wq_op) : list wq_res :=
  match ops with
  | [] => []
  | op :: ops' => let (l', r) := wq_spec_step cap l op in r :: wq_spec_run cap l' ops'
  end.

Definition wqs_step (rbuf : labstor_work_queue_secure) (op : wq_op) : M wq_res :=
  match op with
  | WEnqueue qp creds => ok ← labstor_work_queue_secure_Enqueue rbuf qp creds; mret (WAccepted ok)
  | WPeek i => e ← labstor_work_queue_secure_Peek rbuf i; mret (WEntry e)
  end.

Fixpoint wqs_run (rbuf : labstor_work_queue_secure) (ops : list wq_op) : M (list wq_res) :=
  match ops with
  | [] => mret []
  | op :: ops' => r ← wqs_step rbuf op; rs ← wqs_run rbuf ops'; mret (r :: rs)
  end.

Definition wq_op_ok (op : wq_op) : Prop :=
  match op with
  | WEnqueue qp creds => 0 <= qp < 2 ^ 64 ∧ 0 <= creds < 2 ^ 64
  | WPeek i => 0 <= i < 2 ^ 31
  end.

Lemma wqs_run_refines ops rbuf cap l m :
  vec_rep sizeof_wq_secure_entry rd_secure (wqs_header_ rbuf) cap l m →
  wqs_queue_ rbuf = wqs_header_ rbuf + sizeof_wq_header → Forall wq_op_ok ops →
  wp (wqs_run rbuf ops) (λ rs _, rs = wq_spec_run cap l ops) m.
Proof.
  intros Hr Hq Hops. revert l m Hr. induction Hops as [|op ops Hop Hops IH]; intros l m Hr; simpl; [by wp_go|].
  apply wp_bind. destruct op as [qp creds|i]; simpl in *.
  - destruct Hop as [Hqp Hcr]. apply wp_bind.
    eapply wp_mono; [exact (wqs_enqueue_spec _ _ _ _ qp creds Hr Hq Hqp Hcr)|]. simpl.
    intros r m' H. wp_go. destruct (Z.ltb_spec (Z.of_nat (length l)) cap);
      [rewrite decide_True in H by lia|rewrite decide_False in H by lia]; destruct H as [-> H].
    + eapply wp_mono; [apply IH, H|]. intros ? m2 ->. by wp_go.
    + subst m'. eapply wp_mono; [by apply (IH l)|]. intros ? m2 ->. by wp_go.
  - unfold wp at 1. rewrite (run_bind _ _ _ _ _ (wqs_peek_spec _ _ _ _ _ Hr Hq Hop)). simpl.
    apply wp_bind. eapply wp_mono; [by apply (IH l)|]. intros ? m2 ->. by wp_go.
Qed.

(** C8. A secure work queue initialised in a mapped region is a bounded
    append-only list: for every sequence of Enqueue and Peek calls, an
    Enqueue is accepted exactly when fewer than [max_depth] entries are
    there, and Peek i returns the queue pair and the credentials of the i-th
    accepted Enqueue, or nothing when there is none. *)
Theorem work_queue_secure_correct b rbuf region region_size max_depth ops m :
  valid m region region_size → 0 < max_depth < 2 ^ 28 - 1 →
  12 + 16 * max_depth <= region_size < 2 ^ 32 → Forall wq_op_ok ops →
  wp (r ← labstor_work_queue_secure_Init b rbuf region region_size max_depth; wqs_run r.1 ops)
     (λ rs _, rs = wq_spec_run max_depth [] ops) m.
Proof.
  intros Hv Hd Hsz Hops. apply wp_bind.
  eapply wp_mono; [by apply (wqs_init_spec b rbuf region region_size max_depth)|].
  intros r m' [-> Hr]. by apply wqs_run_refines.
Qed.

Lemma work_queue_secure_correct_witness :
  wp (r ← labstor_work_queue_secure_Init Kernel (labstor_work_queue_secure_Attach 0) 4096 44 2;
      wqs_run r.1 [WEnqueue 10 20; WEnqueue 11 21; WEnqueue 12 22; WPeek 1; WPeek 2])
     (λ rs _, rs = [WAccepted true; WAccepted true; WAccepted false;
                    WEntry (Some (11, 21)); WEntry None]) (zero_region 4096 44).
Proof.
  apply (work_queue_secure_correct Kernel (labstor_work_queue_secure_Attach 0) 4096 44 2).
  - apply (valid_zero_region 4096 44).
  - lia.
  - lia.
  - repeat constructor; simpl; lia.
Defined.

(** ** Limits *)

(** The size of a plain work queue counts 4 bytes for an 8-byte entry: a
    queue of depth 4 is accepted in the 28 bytes GetSize asks for, and its
    third entry lies outside them. *)
Lemma work_queue_size_too_small :
  labstor_work_queue_GetSize_global 4 = 28 ∧
  (r ← labstor_work_queue_Init Kernel (labstor_work_queue_Attach 0) 4096 28 4;
   a ← labstor_work_queue_Enqueue r.1 1; b ← labstor_work_queue_Enqueue r.1 2;
   labstor_work_queue_Enqueue r.1 3) (zero_region 4096 28) = Fault.
Proof. split; vm_compute; reflexivity. Qed.

(** Two plain queues laid out one after the other with GetNextSection
    overlap: the third entry of the first overwrites the counter of the
    second. *)
Lemma work_queues_overlap :
  wp (r1 ← labstor_work_queue_Init Kernel (labstor_work_queue_Attach 0) 4096 28 4;
      next ← labstor_work_queue_GetNextSection r1.1;
      r2 ← labstor_work_queue_Init Kernel (labstor_work_queue_Attach 0) next 28 4;
      _ ← labstor_work_queue_Enqueue r1.1 1;
      _ ← labstor_work_queue_Enqueue r1.1 2;
      _ ← labstor_work_queue_Enqueue r1.1 3;
      labstor_work_queue_GetDepth r2.1)
     (λ depth _, depth = 3) (zero_region 4096 64).
Proof. vm_compute. reflexivity. Qed.
