(* ===== verification/Allocators.v ===== *)
(** * Allocators.v: the shared-memory allocators

    include/labstor/types/allocator/: the bump allocator
    (segment_allocator.h), the pool of equal objects whose free list is a
    request ring (private_shmem_allocator.h), and the per-core array of such
    pools (shmem_allocator.h), in the build without LABSTOR_MEM_DEBUG.

    [ObjectAllocator] is the interface that allocator.h gives its clients
    ([GenericAllocator]), with the laws they rely on. *)

From S2P Require Import Prelude Memory RingBuffer RequestQueue.

Local Open Scope Z_scope.

(** ** segment_allocator.h *)

Record labstor_segment_allocator := {
  sa_offset_ : Z;
  sa_max_size_ : Z;
  sa_region_ : Z
}.

Definition labstor_segment_allocator_Init (region size : Z) : labstor_segment_allocator :=
  {| sa_offset_ := 0; sa_max_size_ := size; sa_region_ := region |}.

Definition labstor_segment_allocator_Attach (region size : Z) : labstor_segment_allocator :=
  labstor_segment_allocator_Init region size.

(** [max_size_] is not tested. *)
Definition labstor_segment_allocator_Alloc (alloc : labstor_segment_allocator) (size : Z)
    : labstor_segment_allocator * Z :=
  let region := LABSTOR_REGION_ADD (sa_offset_ alloc) (sa_region_ alloc) in
  ({| sa_offset_ := u32 (sa_offset_ alloc + size);
      sa_max_size_ := sa_max_size_ alloc;
      sa_region_ := sa_region_ alloc |}, region).

(** ** private_shmem_allocator.h *)

Definition psah_region_size_ : Z := 0.
Definition psah_request_unit_ : Z := 4.
Definition sizeof_psa_header : Z := 8.

Definition sizeof_labstor_private_shmem_allocator (b : build) : Z :=
  match b with Kernel => 32 | Userspace => 48 end.

Record labstor_private_shmem_allocator := {
  psa_base_region_ : Z;
  psa_header_ : Z;
  psa_objs_ : labstor_request_ring_buffer
}.

Definition NULL : Z := 0.

Definition labstor_private_shmem_allocator_GetRegion (alloc : labstor_private_shmem_allocator) : Z :=
  psa_header_ alloc.
Definition labstor_private_shmem_allocator_GetBaseRegion (alloc : labstor_private_shmem_allocator) : Z :=
  psa_base_region_ alloc.

Definition labstor_private_shmem_allocator_GetSize (b : build) (alloc : labstor_private_shmem_allocator) : M Z :=
  size ← labstor_request_ring_buffer_GetSize (psa_objs_ alloc);
  mret (u32 (sizeof_labstor_private_shmem_allocator b + size)).

(** The loop that puts [n] objects on the free list. *)
Fixpoint private_shmem_allocator_fill (n : nat) (objs : labstor_request_ring_buffer)
    (base_region remainder request_unit : Z) : M unit :=
  match n with
  | O => mret tt
  | S n' =>
      _ ← labstor_request_ring_buffer_Enqueue_simple objs (LABSTOR_REGION_SUB remainder base_region);
      private_shmem_allocator_fill n' objs base_region
        (LABSTOR_REGION_ADD request_unit remainder) request_unit
  end.

Definition labstor_private_shmem_allocator_Init (b : build) (alloc : labstor_private_shmem_allocator)
    (base_region region region_size request_unit : Z) : M labstor_private_shmem_allocator :=
  max_objs ← udiv region_size request_unit;
  _ ← store32 (region + psah_region_size_) region_size;
  _ ← store32 (region + psah_request_unit_) request_unit;
  r ← labstor_request_ring_buffer_Init b (psa_objs_ alloc) (region + sizeof_psa_header)
        (u32 (region_size - sizeof_psa_header)) max_objs;
  remainder ← labstor_request_ring_buffer_GetNextSection r.1;
  let remainder_size := u32 (region + region_size - remainder) in
  remainder_objs ← udiv remainder_size request_unit;
  _ ← private_shmem_allocator_fill (Z.to_nat remainder_objs) r.1 base_region remainder request_unit;
  mret {| psa_base_region_ := base_region; psa_header_ := region; psa_objs_ := r.1 |}.

Definition labstor_private_shmem_allocator_Attach (base_region region : Z)
    : labstor_private_shmem_allocator :=
  {| psa_base_region_ := base_region;
     psa_header_ := region;
     psa_objs_ := labstor_request_ring_buffer_Attach (region + sizeof_psa_header) |}.

Definition labstor_private_shmem_allocator_Alloc (alloc : labstor_private_shmem_allocator)
    (size core : Z) : M Z :=
  r ← labstor_request_ring_buffer_Dequeue (psa_objs_ alloc);
  match r with
  | None => mret NULL
  | Some off => mret (LABSTOR_REGION_ADD off (psa_base_region_ alloc))
  end.

Definition labstor_private_shmem_allocator_Free (alloc : labstor_private_shmem_allocator)
    (data : Z) : M bool :=
  labstor_request_ring_buffer_Enqueue_simple (psa_objs_ alloc)
    (LABSTOR_REGION_SUB data (psa_base_region_ alloc)).

(** ** shmem_allocator.h *)

(** [struct labstor_shmem_allocator_entry]: the core, before each object. *)
Definition sme_core_ : Z := 0.
Definition sizeof_sm_entry : Z := 2.

Definition smh_region_size_ : Z := 0.
Definition smh_concurrency_ : Z := 4.
Definition sizeof_sm_header : Z := 8.

(** [per_core_allocs_] is an array in the memory of the process. *)
Record labstor_shmem_allocator := {
  sm_base_region_ : Z;
  sm_concurrency_ : Z;
  sm_region_size_ : Z;
  sm_header_ : Z;
  sm_per_core_allocs_ : list labstor_private_shmem_allocator
}.

Definition labstor_shmem_allocator_GetRegion (alloc : labstor_shmem_allocator) : Z := sm_header_ alloc.
Definition labstor_shmem_allocator_GetSize (alloc : labstor_shmem_allocator) : Z := sm_region_size_ alloc.

(** [fresh] is the content of the array before it is initialised. *)
Fixpoint shmem_allocator_init_cores (n : nat) (b : build) (fresh : labstor_private_shmem_allocator)
    (base_region core_region per_core_region_size request_unit : Z)
    : M (list labstor_private_shmem_allocator) :=
  match n with
  | O => mret []
  | S n' =>
      a ← labstor_private_shmem_allocator_Init b fresh base_region core_region
            per_core_region_size request_unit;
      l ← shmem_allocator_init_cores n' b fresh base_region
            (core_region + per_core_region_size) per_core_region_size request_unit;
      mret (a :: l)
  end.

(** [nprocs] is NR_CPUS or get_nprocs_conf(). *)
Definition labstor_shmem_allocator_Init (b : build) (fresh : labstor_private_shmem_allocator) (nprocs : Z)
    (base_region region region_size request_unit concurrency : Z) : M labstor_shmem_allocator :=
  let concurrency := if concurrency =? 0 then nprocs else concurrency in
  _ ← memset region 0 (Z.to_nat region_size);
  _ ← store32 (region + smh_region_size_) region_size;
  _ ← store_s32 (region + smh_concurrency_) concurrency;
  let request_unit := u32 (request_unit + sizeof_sm_entry) in
  let core_region := region + sizeof_sm_header in
  per_core_region_size ← udiv region_size (u32 concurrency);
  allocs ← shmem_allocator_init_cores (Z.to_nat concurrency) b fresh base_region core_region
             per_core_region_size request_unit;
  mret {| sm_base_region_ := base_region; sm_concurrency_ := concurrency;
          sm_region_size_ := region_size; sm_header_ := region; sm_per_core_allocs_ := allocs |}.

Fixpoint shmem_allocator_attach_cores (n : nat) (base_region core_region per_core_region_size : Z)
    : list labstor_private_shmem_allocator :=
  match n with
  | O => []
  | S n' => labstor_private_shmem_allocator_Attach base_region core_region ::
      shmem_allocator_attach_cores n' base_region (core_region + per_core_region_size) per_core_region_size
  end.

Definition labstor_shmem_allocator_Attach (base_region region : Z) : M labstor_shmem_allocator :=
  region_size ← load32 (region + smh_region_size_);
  concurrency ← load_s32 (region + smh_concurrency_);
  let core_region := region + sizeof_sm_header in
  per_core_region_size ← udiv region_size (u32 concurrency);
  mret {| sm_base_region_ := base_region; sm_concurrency_ := concurrency;
          sm_region_size_ := region_size; sm_header_ := region;
          sm_per_core_allocs_ := shmem_allocator_attach_cores (Z.to_nat concurrency) base_region
            core_region per_core_region_size |}.

(** [per_core_allocs_[core]]. *)
Definition per_core (alloc : labstor_shmem_allocator) (core : Z) : M labstor_private_shmem_allocator :=
  if core <? 0 then fault
  else match sm_per_core_allocs_ alloc !! Z.to_nat core with
       | Some a => mret a
       | None => fault
       end.

(** The do-while loop of Alloc; [fuel] bounds its iterations. *)
Fixpoint shmem_allocator_alloc_loop (fuel : nat) (alloc : labstor_shmem_allocator)
    (size save core : Z) : M Z :=
  match fuel with
  | O => λ m, Spin m
  | S fuel' =>
      a ← per_core alloc core;
      page ← labstor_private_shmem_allocator_Alloc a size core;
      if negb (page =? NULL) then
        _ ← store16 (page + sme_core_) (u16 core);
        mret (page + sizeof_sm_entry)
      else
        core' ← umod (u32 (core + 1)) (u32 (sm_concurrency_ alloc));
        if core' =? save then mret NULL
        else shmem_allocator_alloc_loop fuel' alloc size save core'
  end.

Definition labstor_shmem_allocator_Alloc (alloc : labstor_shmem_allocator) (size core : Z) : M Z :=
  core ← umod core (u32 (sm_concurrency_ alloc));
  shmem_allocator_alloc_loop (Z.to_nat (sm_concurrency_ alloc)) alloc size core core.

(** The spin loop of Free moves to the next core when a free list is full. *)
Fixpoint shmem_allocator_free_loop (fuel : nat) (alloc : labstor_shmem_allocator) (page core : Z) : M unit :=
  match fuel with
  | O => λ m, Spin m
  | S fuel' =>
      a ← per_core alloc core;
      ok ← labstor_private_shmem_allocator_Free a page;
      if ok : bool then mret tt
      else if sm_concurrency_ alloc =? 0 then fault
      else shmem_allocator_free_loop fuel' alloc page (Z.rem (core + 1) (sm_concurrency_ alloc))
  end.

Definition labstor_shmem_allocator_Free (fuel : nat) (alloc : labstor_shmem_allocator) (data : Z) : M unit :=
  let page := data - sizeof_sm_entry in
  core ← load16 (page + sme_core_);
  shmem_allocator_free_loop fuel alloc page core.

#[export] Hint Unfold psah_region_size_ psah_request_unit_ sizeof_psa_header
  sme_core_ sizeof_sm_entry smh_region_size_ smh_concurrency_ sizeof_sm_header : layout.

(** ** The interface *)

(** The operations of [GenericAllocator]. *)
Class GenericAllocator (A : Type) := {
  ga_Alloc : A → Z → Z → M Z;   (* size, core *)
  ga_Free : A → Z → M unit
}.

(** [p] and [q] are the same object or objects of [n] bytes that do not
    overlap. *)
Definition separate (n p q : Z) : Prop := p = q ∨ outside p n q n.

(** The bytes of [own] that belong to none of the objects [objs]. *)
Definition bookkeeping (own : Z → Prop) (size : Z) (objs : list Z) (x : Z) : Prop :=
  own x ∧ ∀ p, p ∈ objs → ¬ (p <= x < p + size).

(** What an allocator of objects of [ga_size] bytes promises.  [ga_rep a n
    free live m]: the objects in [free] are available, those in [live] are
    handed out; [n] more objects can be freed (the counters of the free list
    wrap at 2^32, which matters unless its depth divides 2^32). *)
Class ObjectAllocator (A : Type) `{GenericAllocator A} := {
  ga_size : A → Z;
  ga_rep : A → nat → list Z → list Z → mem → Prop;
  (* the bytes of the allocator and of its objects *)
  ga_own : A → Z → Prop;
  ga_alloc_spec : ∀ a n free live m size core,
    ga_rep a n free live m → 0 <= core < 2 ^ 32 →
    wp (ga_Alloc a size core)
       (λ p m', modifies (bookkeeping (ga_own a) (ga_size a) (free ++ live)) m m' ∧
                ((p = NULL ∧ free = [] ∧ ga_rep a n [] live m') ∨
                 (∃ free', p ≠ NULL ∧ free ≡ₚ p :: free' ∧ ga_rep a n free' (p :: live) m'))) m;
  ga_free_spec : ∀ a n free live live' m p,
    ga_rep a (S n) free live m → live ≡ₚ p :: live' →
    wp (ga_Free a p) (λ _ m', modifies (bookkeeping (ga_own a) (ga_size a) (free ++ live)) m m' ∧
                        ∃ free', free' ≡ₚ p :: free ∧ ga_rep a n free' live' m') m;
  ga_objects : ∀ a n free live m,
    ga_rep a n free live m → NoDup (free ++ live) ∧
    ∀ p q, p ∈ free ++ live → q ∈ free ++ live →
      separate (ga_size a) p q ∧ valid m p (ga_size a);
  (* a client that stays within its objects does not disturb the allocator *)
  ga_client : ∀ a n free live m m' P,
    ga_rep a n free live m → modifies P m m' →
    (∀ x, P x → ga_own a x → ∃ p, p ∈ live ∧ p <= x < p + ga_size a) → ga_rep a n free live m'
}.

(** ** Arrays of equal objects *)

Definition objects (first unit : Z) (k : nat) : list Z :=
  (λ i, first + unit * Z.of_nat i) <$> seq 0 k.

Lemma elem_of_objects p first unit k :
  p ∈ objects first unit k ↔ ∃ i, (i < k)%nat ∧ p = first + unit * Z.of_nat i.
Proof.
  unfold objects. rewrite list_elem_of_fmap. setoid_rewrite elem_of_seq. split.
  - intros (i & -> & Hi). exists i. split; [lia|done].
  - intros (i & Hi & ->). exists i. split; [done|lia].
Qed.

Lemma NoDup_objects first unit k : 0 < unit → NoDup (objects first unit k).
Proof. intros Hu. apply NoDup_fmap_2; [|apply NoDup_seq]. intros i j E. nia. Qed.

Lemma objects_separate p q first unit k :
  0 < unit → p ∈ objects first unit k → q ∈ objects first unit k → separate unit p q.
Proof.
  intros Hu (i & Hi & ->)%elem_of_objects (j & Hj & ->)%elem_of_objects. unfold separate, outside.
  destruct (decide (i = j)) as [->|]; [by left|right]. nia.
Qed.

Lemma objects_range p first unit k :
  0 < unit → p ∈ objects first unit k → first <= p ∧ p + unit <= first + unit * Z.of_nat k.
Proof. intros Hu (i & Hi & ->)%elem_of_objects. nia. Qed.

Lemma objects_S first unit k :
  objects first unit (S k) = first :: objects (first + unit) unit k.
Proof.
  unfold objects. simpl. f_equal; [lia|]. rewrite <-fmap_S_seq, <-list_fmap_compose.
  apply list_fmap_ext. intros i x _. simpl. lia.
Qed.

(** ** The pool of one core *)

(** A pool: its handle, and where its objects are. *)
Record pool := {
  po_alloc : labstor_private_shmem_allocator;
  po_cap : Z;     (* places of the free list *)
  po_first : Z;   (* the first object *)
  po_unit : Z;    (* bytes of an object *)
  po_count : nat  (* number of objects *)
}.

Definition po_objects (po : pool) : list Z := objects (po_first po) (po_unit po) (po_count po).

(** The bytes of the pool: header and free list, and the objects. *)
Definition po_meta (po : pool) : Z → Prop :=
  span (psa_header_ (po_alloc po)) (20 + 4 * po_cap po).
Definition po_data (po : pool) : Z → Prop :=
  span (po_first po) (po_unit po * Z.of_nat (po_count po)).

Record pool_rep (po : pool) (n : nat) (free live : list Z) (m : mem) : Prop := {
  pr_handle : psa_objs_ (po_alloc po) =
    labstor_request_ring_buffer_Attach (psa_header_ (po_alloc po) + sizeof_psa_header);
  pr_ring : ∃ d,
    rb_rep (psa_objs_ (po_alloc po)) (po_cap po) d
      ((λ p, p - psa_base_region_ (po_alloc po)) <$> free) m ∧
    ((po_cap po | 2 ^ 32) ∨ d + Z.of_nat (length free) + po_cap po + Z.of_nat n <= 2 ^ 32);
  pr_perm : free ++ live ≡ₚ po_objects po;
  pr_near : ∀ p, p ∈ po_objects po → near (psa_base_region_ (po_alloc po)) p ∧ p ≠ NULL;
  pr_first : psa_header_ (po_alloc po) + (20 + 4 * po_cap po) <= po_first po;
  pr_count : Z.of_nat (po_count po) <= po_cap po;
  pr_unit : 0 < po_unit po;
  pr_valid : valid m (po_first po) (po_unit po * Z.of_nat (po_count po))
}.

Lemma pool_free_in po n free live m p : pool_rep po n free live m → p ∈ free → p ∈ po_objects po.
Proof. intros [] Hp. rewrite <-pr_perm0. set_solver. Qed.

Lemma pool_live_in po n free live m p : pool_rep po n free live m → p ∈ live → p ∈ po_objects po.
Proof. intros [] Hp. rewrite <-pr_perm0. set_solver. Qed.

Lemma pool_len po n free live m :
  pool_rep po n free live m → (length free + length live = po_count po)%nat.
Proof.
  intros []. apply Permutation_length in pr_perm0. rewrite length_app in pr_perm0.
  unfold po_objects, objects in pr_perm0. by rewrite length_fmap, length_seq in pr_perm0.
Qed.

(** The representation depends on the metadata bytes only. *)
Lemma pool_rep_frame po n free live P m m' :
  pool_rep po n free live m → modifies P m m' → (∀ a, po_meta po a → ¬ P a) →
  pool_rep po n free live m'.
Proof.
  intros [] Hm HP. destruct pr_ring0 as (d & Hr & Hok). split; try done.
  - exists d. split; [|done]. eapply rb_rep_frame; [done|exact Hm|]. intros a Ha. apply HP.
    rewrite pr_handle0 in Ha. unfold rb_span, po_meta, span in *. simpl in Ha.
    autounfold with layout in Ha. lia.
  - by eapply valid_modifies.
Qed.

(** Fewer frees to come. *)
Lemma pool_rep_weaken po n n' free live m :
  (n' <= n)%nat → pool_rep po n free live m → pool_rep po n' free live m.
Proof.
  intros Hn []. destruct pr_ring0 as (d & Hr & Hok). split; try done. exists d.
  split; [done|]. destruct Hok; [by left|right; lia].
Qed.

Lemma pool_alloc_spec po n free live m size core :
  pool_rep po n free live m →
  wp (labstor_private_shmem_allocator_Alloc (po_alloc po) size core)
     (λ p m', match free with
              | [] => p = NULL ∧ m' = m
              | p' :: free' => p = p' ∧ p ≠ NULL ∧ pool_rep po n free' (p' :: live) m' ∧
                  modifies (po_meta po) m m'
              end) m.
Proof.
  intros Hr. pose proof Hr as []. destruct pr_ring0 as (d & Hring & Hok).
  unfold labstor_private_shmem_allocator_Alloc. apply wp_bind. destruct free as [|p free]; simpl in *.
  - apply wp_run. exists None, m. split; [by eapply dequeue_empty|]. by wp_go.
  - assert (p ∈ po_objects po) as Hp by (rewrite <-pr_perm0; set_solver).
    destruct (pr_near0 p Hp) as [Hnear Hnz]. pose proof (rr_cap _ _ _ _ _ Hring) as Hcap.
    pose proof (rb_rep_deq_range _ _ _ _ _ Hring) as Hd.
    eapply wp_mono; [exact (dequeue_nonempty _ _ _ _ _ _ Hring)|].
    intros r m' (-> & Hring' & Hm). wp_go. rewrite near_add by done.
    assert (modifies (po_meta po) m m') as Hm'.
    { eapply modifies_weaken; [exact Hm|]. rewrite pr_handle0. unfold po_meta, span. simpl.
      autounfold with layout. lia. }
    split; [done|]. split; [done|]. split; [|done]. split; try done.
    + exists (u32 (d + 1)). split; [done|]. destruct Hok as [|Hok]; [by left|right].
      rewrite u32_small by lia. lia.
    + rewrite <-pr_perm0. by rewrite Permutation_middle.
    + by eapply valid_modifies.
Qed.

Lemma pool_free_spec po n free live live' m p :
  pool_rep po (S n) free live m → live ≡ₚ p :: live' →
  wp (labstor_private_shmem_allocator_Free (po_alloc po) p)
     (λ r m', r = true ∧ pool_rep po n (free ++ [p]) live' m' ∧ modifies (po_meta po) m m') m.
Proof.
  intros Hr Hlive. pose proof (pool_len _ _ _ _ _ Hr) as Hlen. pose proof Hr as [].
  destruct pr_ring0 as (d & Hring & Hok).
  assert (p ∈ po_objects po) as Hp by (rewrite <-pr_perm0, Hlive; set_solver).
  destruct (pr_near0 p Hp) as [Hnear Hnz]. pose proof (rb_rep_deq_range _ _ _ _ _ Hring) as Hd.
  pose proof (Permutation_length Hlive) as Hll. simpl in Hll.
  unfold labstor_private_shmem_allocator_Free, labstor_request_ring_buffer_Enqueue_simple.
  apply wp_bind. rewrite near_sub by done. eapply wp_mono.
  { apply (enqueue_space _ _ _ _ _ _ None Hring); rewrite ?length_fmap; auto with labstor; [|lia|done].
    destruct Hok; [by left|right; lia]. }
  rewrite length_fmap. intros r m' (-> & Hring' & _ & Hm). wp_go. split; [done|].
  assert (modifies (po_meta po) m m') as Hm'.
  { eapply modifies_weaken; [exact Hm|]. intros a [Ha|[]]. rewrite pr_handle0 in Ha.
    unfold rb_span, po_meta, span in *. simpl in Ha. autounfold with layout in Ha. lia. }
  split; [|done]. split; try done.
  - exists d. rewrite fmap_app. split; [exact Hring'|]. rewrite length_app. simpl.
    destruct Hok; [by left|right; lia].
  - rewrite <-pr_perm0, Hlive. rewrite <-app_assoc. done.
  - by eapply valid_modifies.
Qed.

(** ** The pool implements the interface *)

Definition po_end (po : pool) : Z := po_first po + po_unit po * Z.of_nat (po_count po).

Definition po_own (po : pool) (a : Z) : Prop := psa_header_ (po_alloc po) <= a < po_end po.

Lemma po_meta_range po n f l m a :
  pool_rep po n f l m → po_meta po a → psa_header_ (po_alloc po) <= a < po_end po.
Proof.
  intros [] Ha. unfold po_meta, span, po_end in *.
  assert (0 <= po_unit po * Z.of_nat (po_count po)) by nia. lia.
Qed.

(** The metadata are apart from the objects. *)
Lemma po_meta_apart po n f l m a :
  pool_rep po n f l m → po_meta po a → bookkeeping (po_own po) (po_unit po) (f ++ l) a.
Proof.
  intros Hr Ha. split; [by eapply po_meta_range|]. intros p Hp Hx. rewrite (pr_perm _ _ _ _ _ Hr) in Hp.
  apply objects_range in Hp; [|by destruct Hr]. unfold po_meta, span in Ha. pose proof (pr_first _ _ _ _ _ Hr). lia.
Qed.

#[export] Instance pool_generic : GenericAllocator pool := {
  ga_Alloc po size core := labstor_private_shmem_allocator_Alloc (po_alloc po) size core;
  ga_Free po p := _ ← labstor_private_shmem_allocator_Free (po_alloc po) p; mret tt
}.

Lemma pool_objects po n free live m :
  pool_rep po n free live m → NoDup (free ++ live) ∧
  ∀ p q, p ∈ free ++ live → q ∈ free ++ live →
    separate (po_unit po) p q ∧ valid m p (po_unit po).
Proof.
  intros []. split.
  - rewrite pr_perm0. by apply NoDup_objects.
  - intros p q. rewrite pr_perm0. intros Hp Hq. split; [by eapply objects_separate|].
    apply objects_range in Hp; [|done]. apply (valid_sub _ _ _ _ _ pr_valid0); lia.
Qed.

#[export, refine] Instance pool_allocator : ObjectAllocator pool := {
  ga_size := po_unit;
  ga_rep := pool_rep;
  ga_own := po_own
}.
Proof.
  - intros a n free live m size core Hr _. eapply wp_mono; [by apply pool_alloc_spec|].
    intros p m'. destruct free as [|p' free']; [intros [-> ->]; split; [apply modifies_refl|left; auto]|].
    intros (-> & Hnz & Hr' & Hm). split; [|right; exists free'; auto].
    eapply modifies_weaken; [exact Hm|]. intros x. by eapply po_meta_apart.
  - intros a n free live live' m p Hr Hl. apply wp_bind.
    eapply wp_mono; [by eapply pool_free_spec|]. intros r m' (-> & Hr' & Hm). wp_go. split.
    + eapply modifies_weaken; [exact Hm|]. intros x. by eapply po_meta_apart.
    + exists (free ++ [p]). split; [|done]. by rewrite Permutation_app_comm.
  - apply pool_objects.
  - intros a n free live m m' P Hr Hm HP. eapply pool_rep_frame; [done|exact Hm|].
    intros x Hx HPx. destruct (po_meta_apart _ _ _ _ _ _ Hr Hx) as [Hown Hno].
    destruct (HP x HPx Hown) as (p & Hp & Hpx). apply (Hno p); [set_solver|done].
Defined.

(** ** Initialisation of a pool *)

Lemma fill_spec n objs cap base free remainder unit m :
  rb_rep objs cap 0 ((λ p, p - base) <$> free) m →
  Z.of_nat (length free) + Z.of_nat n <= cap →
  (∀ p, p ∈ objects remainder unit n → near base p) →
  wp (private_shmem_allocator_fill n objs base remainder unit)
     (λ _ m', rb_rep objs cap 0 ((λ p, p - base) <$> (free ++ objects remainder unit n)) m' ∧
        modifies (rb_span objs cap) m m') m.
Proof.
  revert free remainder m. induction n as [|n IH]; intros free remainder m Hr Hlen Hnear; simpl.
  - wp_go. rewrite app_nil_r. auto with labstor.
  - rewrite objects_S in Hnear. pose proof (rr_cap _ _ _ _ _ Hr) as Hcap.
    assert (near base remainder) as Hn by (apply Hnear; set_solver).
    apply wp_bind. unfold labstor_request_ring_buffer_Enqueue_simple. apply wp_bind.
    rewrite near_sub by done. eapply wp_mono.
    { apply (enqueue_space _ _ _ _ _ _ None Hr); rewrite ?length_fmap; auto with labstor; [|lia|done].
      right. lia. }
    intros r m1 (-> & Hr1 & _ & Hm1). wp_go. unfold LABSTOR_REGION_ADD. eapply wp_mono.
    { apply (IH (free ++ [remainder])).
      - by rewrite fmap_app.
      - rewrite length_app. simpl. lia.
      - intros p Hp. apply Hnear. set_solver. }
    intros _ m2 [Hr2 Hm2]. rewrite objects_S. rewrite <-app_assoc in Hr2. split; [done|].
    eapply modifies_trans; [|exact Hm2]. eapply modifies_weaken; [exact Hm1|].
    intros a [Ha|[]]. exact Ha.
Qed.

(** The pool that Init lays out in [region_size] bytes. *)
Definition pool_of (base region region_size unit : Z) : pool :=
  let cap := region_size / unit in
  {| po_alloc := labstor_private_shmem_allocator_Attach base region;
     po_cap := cap;
     po_first := region + (20 + 4 * cap);
     po_unit := unit;
     po_count := Z.to_nat ((region_size - (20 + 4 * cap)) / unit) |}.

(** The region holds the free list, and lies within 2 GiB above the base. *)
Record pool_fits (base region region_size unit : Z) : Prop := {
  pf_unit : 0 < unit;
  pf_size : 20 + 4 * (region_size / unit) <= region_size;
  pf_objs : unit <= region_size;
  pf_base : 0 <= base <= region;
  pf_region : 0 < region;
  pf_near : region + region_size - base <= 2 ^ 31;
  pf_addr : region + region_size < 2 ^ 64
}.

Lemma pool_of_bounds base region region_size unit :
  pool_fits base region region_size unit →
  let cap := region_size / unit in
  let k := (region_size - (20 + 4 * cap)) / unit in
  0 < cap < 2 ^ 29 ∧ 0 <= k <= cap ∧ unit * k <= region_size - (20 + 4 * cap).
Proof.
  intros [] cap k.
  pose proof (Z.mul_div_le region_size unit ltac:(lia)) as H1. fold cap in H1, pf_size0.
  assert (0 < cap) by (apply Z.div_str_pos; lia).
  assert (0 <= k) by (apply Z.div_pos; lia).
  pose proof (Z.mul_div_le (region_size - (20 + 4 * cap)) unit ltac:(lia)) as H2. fold k in H2.
  assert (k <= cap) by (apply Z.div_le_mono; lia). lia.
Qed.

Lemma pool_of_near base region region_size unit p :
  pool_fits base region region_size unit → p ∈ po_objects (pool_of base region region_size unit) →
  near base p ∧ p ≠ NULL ∧ p + unit <= region + region_size.
Proof.
  intros Hf Hp. pose proof (pool_of_bounds _ _ _ _ Hf) as (Hc & Hk & Hu). destruct Hf.
  apply objects_range in Hp; [|done]. simpl in Hp. rewrite Z2Nat.id in Hp by lia.
  unfold near, NULL. lia.
Qed.

Lemma pool_init_spec b alloc base region region_size unit m n :
  pool_fits base region region_size unit → valid m region region_size →
  (region_size / unit | 2 ^ 32) ∨ 2 * (region_size / unit) + Z.of_nat n <= 2 ^ 32 →
  wp (labstor_private_shmem_allocator_Init b alloc base region region_size unit)
     (λ a m', let po := pool_of base region region_size unit in
        a = po_alloc po ∧ pool_rep po n (po_objects po) [] m' ∧
        modifies (span region (20 + 4 * (region_size / unit))) m m') m.
Proof.
  intros Hf Hv Hn. pose proof (pool_of_bounds _ _ _ _ Hf) as (Hc & Hk & Hu).
  pose proof (pool_of_near base region region_size unit) as Hobj. pose proof Hf as [].
  set (cap := region_size / unit) in *. set (k := (region_size - (20 + 4 * cap)) / unit) in *.
  unfold labstor_private_shmem_allocator_Init. autounfold with layout. rewrite ?Z.add_0_r.
  do 6 wp_step. fold cap. set (m1 := write 4 (region + 4) _ _).
  assert (modifies (span region 8) m m1) as Hm1 by (subst m1; msolve).
  assert (valid m1 region region_size) as Hv1 by (by eapply valid_modifies).
  rewrite u32_small by lia.
  assert (ring_init_fits (region_size - 8) cap = true ∧ ring_cap (region_size - 8) cap = cap)
    as [Hfits Hcap].
  { unfold ring_init_fits, ring_cap. autounfold with layout.
    rewrite (proj2 (Z.eqb_neq cap 0)) by lia. rewrite (proj2 (Z.eqb_neq cap 0)) by lia.
    split; [|done]. rewrite andb_true_r. apply Z.leb_le. lia. }
  apply wp_bind. unfold wp at 1. rewrite ring_init_run, Hfits by (lia || vsolve).
  destruct (ring_init_rep (region + 8) (region_size - 8) cap m1) as [Hring Hm2];
    [vsolve|lia|lia|done|]. rewrite Hcap in *. set (m2 := write 4 (region + 8 + 8) _ _) in *. simpl.
  apply wp_bind. unfold labstor_request_ring_buffer_GetNextSection, labstor_request_ring_buffer_GetSize.
  pose proof (rr_valid _ _ _ _ _ Hring) as Hv2. simpl in Hv2. autounfold with layout in Hv2.
  do 4 wp_step. rewrite (rr_max _ _ _ _ _ Hring). wp_go. simpl.
  unfold labstor_request_ring_buffer_GetSize_global. autounfold with layout.
  rewrite (u32_small (12 + 4 * cap)) by lia.
  replace (region + region_size - (region + 8 + (12 + 4 * cap))) with (region_size - (20 + 4 * cap)) by lia.
  rewrite u32_small by lia. fold k.
  replace (region + 8 + (12 + 4 * cap)) with (region + (20 + 4 * cap)) by lia.
  eapply wp_mono.
  { apply (fill_spec _ _ cap base [] _ _ _ Hring); simpl; [lia|]. intros p Hp. by apply Hobj. }
  simpl. intros _ m3 [Hring3 Hm3]. wp_go. split; [done|].
  assert (modifies (span region (20 + 4 * cap)) m m3) as Hm.
  { eapply modifies_trans; [|eapply modifies_weaken; [exact Hm3|]].
    - eapply modifies_trans; (eapply modifies_weaken; [eassumption|]); unfold span; lia.
    - unfold rb_span, span. simpl. autounfold with layout. lia. }
  split; [|done]. split; simpl; fold cap; try done.
  - exists 0. split; [exact Hring3|]. unfold po_objects, objects. rewrite length_fmap, length_seq. simpl.
    fold cap k. destruct Hn; [by left|right; lia].
  - by rewrite app_nil_r.
  - intros p Hp. destruct (Hobj p Hf Hp) as (? & ? & ?). done.
  - fold k. lia.
  - eapply valid_modifies; [exact Hm|]. fold k. apply (valid_sub _ _ _ _ _ Hv); lia.
Qed.

(** ** The per-core allocator *)

(** An allocator with where its pools are; [sh_unit] is the size of an object
    with its 2-byte header. *)
Record shm := {
  sh_alloc : labstor_shmem_allocator;
  sh_pools : list pool;
  sh_unit : Z
}.

(** The pools do not overlap. *)
Record shm_layout (sh : shm) : Prop := {
  sl_allocs : sm_per_core_allocs_ (sh_alloc sh) = po_alloc <$> sh_pools sh;
  sl_concurrency : sm_concurrency_ (sh_alloc sh) = Z.of_nat (length (sh_pools sh));
  sl_cores : (0 < length (sh_pools sh))%nat ∧ Z.of_nat (length (sh_pools sh)) < 2 ^ 16;
  sl_unit : ∀ c po, sh_pools sh !! c = Some po → po_unit po = sh_unit sh;
  sl_unit_min : 2 < sh_unit sh;
  sl_disjoint : ∀ c c' po po', sh_pools sh !! c = Some po → sh_pools sh !! c' = Some po' → c ≠ c' →
    po_end po <= psa_header_ (po_alloc po') ∨ po_end po' <= psa_header_ (po_alloc po)
}.

(** The pool of core [c] with its free and live pages; a live page carries
    the number of its core. *)
Definition core_rep (n : nat) (c : nat) (po : pool) (f l : list Z) (m : mem) : Prop :=
  pool_rep po n f l m ∧ ∀ p, p ∈ l → read 2 p m = Z.of_nat c.

Record shm_rep (sh : shm) (n : nat) (frees lives : list (list Z)) (m : mem) : Prop := {
  sr_layout : shm_layout sh;
  sr_frees : length frees = length (sh_pools sh);
  sr_lives : length lives = length (sh_pools sh);
  sr_cores : ∀ c po f l, sh_pools sh !! c = Some po → frees !! c = Some f → lives !! c = Some l →
    core_rep n c po f l m
}.

(** The objects seen by a client start after the header of the page. *)
Definition user (page : Z) : Z := page + sizeof_sm_entry.

Lemma page_in_pool po n f l m p :
  pool_rep po n f l m → p ∈ f ++ l →
  psa_header_ (po_alloc po) + (20 + 4 * po_cap po) <= p ∧ p + po_unit po <= po_end po.
Proof.
  intros [] Hp. rewrite pr_perm0 in Hp. apply objects_range in Hp; [|done]. unfold po_end. lia.
Qed.

(** A byte of the pool of core [c] is not in the metadata, nor in a page, of
    another core. *)
Lemma meta_other_core sh c c' po po' n f l m a :
  shm_layout sh → sh_pools sh !! c = Some po → sh_pools sh !! c' = Some po' → c ≠ c' →
  pool_rep po n f l m → psa_header_ (po_alloc po) <= a < po_end po →
  a < psa_header_ (po_alloc po') ∨ po_end po' <= a.
Proof. intros [] H1 H2 Hne Hr Ha. destruct (sl_disjoint0 c c' po po' H1 H2 Hne); lia. Qed.

(** A core whose pool is untouched keeps its state. *)
Lemma core_rep_frame n c po f l P m m' :
  core_rep n c po f l m → modifies P m m' → 2 <= po_unit po →
  (∀ a, P a → a < psa_header_ (po_alloc po) ∨ po_end po <= a) → core_rep n c po f l m'.
Proof.
  intros [Hr Hc] Hm Hu HP. split.
  - eapply pool_rep_frame; [exact Hr|exact Hm|]. intros a Ha Pa.
    pose proof (po_meta_range _ _ _ _ _ _ Hr Ha). destruct (HP a Pa); lia.
  - intros p Hp. erewrite read_modifies; [by apply Hc|exact Hm|]. intros a Ha Pa. simpl in Ha.
    pose proof (page_in_pool _ _ _ _ _ p Hr ltac:(set_solver)).
    assert (0 <= 4 * po_cap po) by (destruct (pr_ring _ _ _ _ _ Hr) as (d & [] & _); lia).
    destruct (HP a Pa); lia.
Qed.

(** One core moves, within its own pool. *)
Lemma shm_update sh n n' frees lives m m' c po f l f' l' P :
  shm_rep sh n frees lives m → sh_pools sh !! c = Some po →
  frees !! c = Some f → lives !! c = Some l → modifies P m m' →
  (∀ a, P a → psa_header_ (po_alloc po) <= a < po_end po) → (n' <= n)%nat →
  core_rep n' c po f' l' m' → shm_rep sh n' (<[c := f']> frees) (<[c := l']> lives) m'.
Proof.
  intros [Hlay Hlf Hll Hcores] Hpo Hf Hl Hm HP Hn Hcore. split; rewrite ?length_insert; try done.
  intros d po' g k Hd Hg Hk. destruct (decide (d = c)) as [->|Hne].
  - rewrite list_lookup_insert_eq in Hg, Hk by (by eapply lookup_lt_Some).
    by simplify_eq.
  - rewrite list_lookup_insert_ne in Hg, Hk by done.
    destruct (Hcores _ _ _ _ Hd Hg Hk) as [Hr Hc].
    eapply core_rep_frame; [split; [by eapply pool_rep_weaken|exact Hc]|exact Hm| |].
    + rewrite (sl_unit _ Hlay _ _ Hd). pose proof (sl_unit_min _ Hlay). lia.
    + intros a Ha. destruct (sl_disjoint _ Hlay c d po po' Hpo Hd); [done|..];
        specialize (HP a Ha); lia.
Qed.

(** [per_core_allocs_[c]] is the handle of pool [c]. *)
Lemma wp_per_core sh c po (Q : labstor_private_shmem_allocator → mem → Prop) m :
  shm_layout sh → sh_pools sh !! c = Some po → Q (po_alloc po) m →
  wp (per_core (sh_alloc sh) (Z.of_nat c)) Q m.
Proof.
  intros Hlay Hpo HQ. unfold per_core. rewrite (proj2 (Z.ltb_ge _ _)) by lia.
  rewrite (sl_allocs _ Hlay), Nat2Z.id, list_lookup_fmap, Hpo. exact HQ.
Qed.

Lemma mjoin_at {A} (ls : list (list A)) c l :
  ls !! c = Some l → mjoin ls ≡ₚ l ++ mjoin (delete c ls).
Proof. intros H. rewrite (delete_Permutation ls c l H) at 1. done. Qed.

Lemma delete_insert_at {A} (ls : list A) c x : delete c (<[c := x]> ls) = delete c ls.
Proof. revert c. induction ls as [|y ls IH]; intros [|c]; simpl; [done..|]. f_equal. apply IH. Qed.

Lemma mjoin_insert {A} (ls : list (list A)) c l l' :
  ls !! c = Some l → mjoin (<[c := l']> ls) ≡ₚ l' ++ mjoin (delete c ls).
Proof.
  intros H%lookup_lt_Some. rewrite (mjoin_at _ c l').
  - by rewrite delete_insert_at.
  - by apply list_lookup_insert_eq.
Qed.

(** ** Alloc: the cores are tried in a circle *)

Lemma circle_step C save j :
  0 < C < 2 ^ 16 → 0 <= save < C → 0 <= j < C →
  u32 ((save + j) mod C + 1) mod u32 C = (save + (j + 1)) mod C.
Proof.
  intros HC Hs Hj. pose proof (Z.mod_pos_bound (save + j) C ltac:(lia)).
  rewrite !u32_small by lia. rewrite Zplus_mod_idemp_l. f_equal. lia.
Qed.

Lemma circle_back C save j :
  0 < C → 0 <= save < C → 0 < j <= C → (save + j) mod C = save ↔ j = C.
Proof.
  intros HC Hs Hj. split.
  - intros E. destruct (decide (j = C)); [done|].
    rewrite <-(Z.mod_small save C) in E at 2 by lia. rewrite <-(Z.add_0_r save) in E at 2.
    apply mod_window_inj in E; lia.
  - intros ->. rewrite <-(Z.mod_small save C) at 2 by lia. rewrite <-(Z.mul_1_l C) at 1.
    apply Z_mod_plus_full.
Qed.

Lemma circle_covers C save c :
  0 < C → 0 <= save < C → 0 <= c < C → ∃ i, 0 <= i < C ∧ c = (save + i) mod C.
Proof.
  intros HC Hs Hc. exists ((c - save) mod C). split; [by apply Z.mod_pos_bound|].
  rewrite Zplus_mod_idemp_r. replace (save + (c - save)) with c by lia. by rewrite Z.mod_small.
Qed.

(** An allocation from the pool of core [c]: the page gets its header. *)
Lemma core_alloc_spec sh n frees lives m c po p f l size core :
  shm_rep sh n frees lives m → sh_pools sh !! c = Some po →
  frees !! c = Some (p :: f) → lives !! c = Some l →
  wp (page ← labstor_private_shmem_allocator_Alloc (po_alloc po) size core;
      _ ← store16 (page + sme_core_) (u16 (Z.of_nat c)); mret page)
     (λ page m', page = p ∧ page ≠ NULL ∧
        shm_rep sh n (<[c := f]> frees) (<[c := p :: l]> lives) m' ∧
        modifies (both (po_meta po) (span p 2)) m m') m.
Proof.
  intros Hsh Hpo Hf Hl. pose proof (sr_layout _ _ _ _ _ Hsh) as Hlay.
  destruct (sr_cores _ _ _ _ _ Hsh _ _ _ _ Hpo Hf Hl) as [Hr Hc].
  pose proof (sl_unit _ Hlay _ _ Hpo) as Hu. pose proof (sl_unit_min _ Hlay) as Hu2.
  pose proof (lookup_lt_Some _ _ _ Hpo) as Hlt. destruct (sl_cores _ Hlay) as [_ HC].
  assert (u16 (u16 (Z.of_nat c)) = Z.of_nat c) as Hu16 by mod_lia.
  destruct (pool_objects _ _ _ _ _ Hr) as [Hnd Hsep].
  pose proof (page_in_pool _ _ _ _ _ p Hr ltac:(set_solver)) as Hpg.
  assert (0 <= 4 * po_cap po) as Hcap by (destruct (pr_ring _ _ _ _ _ Hr) as (d & [] & _); lia).
  apply wp_bind. eapply wp_mono; [exact (pool_alloc_spec _ _ _ _ _ size core Hr)|].
  intros page m1 (-> & Hnz & Hr1 & Hm1). unfold sme_core_. rewrite Z.add_0_r.
  assert (valid m1 p 2) as Hv.
  { eapply valid_modifies; [exact Hm1|]. destruct (Hsep p p) as [_ Hv]; [set_solver..|].
    apply (valid_sub _ _ _ _ _ Hv); lia. }
  apply wp_bind, wp_store; [done|]. wp_go. split; [done|]. split; [done|].
  assert (modifies (span p 2) m1 (write 2 p (u16 (Z.of_nat c)) m1)) as Hm2
    by (apply modifies_write; [done|unfold span; simpl; lia]).
  assert (modifies (both (po_meta po) (span p 2)) m (write 2 p (u16 (Z.of_nat c)) m1)) as Hm.
  { eapply modifies_trans; [eapply modifies_weaken; [exact Hm1|]|eapply modifies_weaken; [exact Hm2|]].
    - intros a Ha. left. exact Ha.
    - intros a Ha. right. exact Ha. }
  split; [|done]. eapply (shm_update _ n n _ _ m _ _ _ _ _ _ _ (both (po_meta po) (span p 2))); try done.
  - intros a [Ha|Ha]; [by eapply po_meta_range|]. unfold span in Ha. lia.
  - split.
    + eapply pool_rep_frame; [exact Hr1|exact Hm2|]. unfold po_meta, span. intros. lia.
    + intros q [->|Hq]%elem_of_cons; [by rewrite read16_write|].
      destruct (Hsep p q) as [[->|Hout] _]; [set_solver..| |].
      * apply NoDup_cons in Hnd as [Hnin _]. set_solver.
      * unfold outside in Hout. rewrite read_write_other by (simpl; lia).
        erewrite read_modifies; [by apply Hc|exact Hm1|]. unfold po_meta, span. simpl.
        pose proof (page_in_pool _ _ _ _ _ q Hr ltac:(set_solver)). intros. lia.
Qed.

Section shm_ops.
Context (sh : shm).

Lemma alloc_loop_spec fuel n frees lives m size save j :
  shm_rep sh n frees lives m →
  let C := Z.of_nat (length (sh_pools sh)) in
  0 <= save < C → 0 <= j < C → Z.of_nat fuel = C - j →
  (∀ i, 0 <= i < j → frees !! Z.to_nat ((save + i) mod C) = Some []) →
  wp (shmem_allocator_alloc_loop fuel (sh_alloc sh) size save ((save + j) mod C))
     (λ p m', (p = NULL ∧ m' = m ∧ ∀ f, f ∈ frees → f = []) ∨
        ∃ c po page f l, p = user page ∧ p ≠ NULL ∧ sh_pools sh !! c = Some po ∧
          frees !! c = Some (page :: f) ∧ lives !! c = Some l ∧
          shm_rep sh n (<[c := f]> frees) (<[c := page :: l]> lives) m' ∧
          modifies (both (po_meta po) (span page 2)) m m') m.
Proof.
  intros Hsh C Hs. pose proof (sr_layout _ _ _ _ _ Hsh) as Hlay.
  destruct (sl_cores _ Hlay) as [HC0 HC1]. revert j.
  induction fuel as [|fuel IH]; intros j Hj Hfuel Hseen; [lia|]. simpl.
  assert (0 <= (save + j) mod C < C) as Hc by (apply Z.mod_pos_bound; lia).
  set (c := Z.to_nat ((save + j) mod C)).
  assert (Z.of_nat c = (save + j) mod C) as Hcz by (subst c; rewrite Z2Nat.id; lia).
  rewrite <-Hcz.
  destruct (lookup_lt_is_Some_2 (sh_pools sh) c ltac:(lia)) as [po Hpo].
  destruct (lookup_lt_is_Some_2 frees c) as [f Hf]; [rewrite (sr_frees _ _ _ _ _ Hsh); lia|].
  destruct (lookup_lt_is_Some_2 lives c) as [l Hl]; [rewrite (sr_lives _ _ _ _ _ Hsh); lia|].
  apply wp_bind, (wp_per_core sh c po); [done..|]. apply wp_bind. destruct f as [|page f].
  - destruct (sr_cores _ _ _ _ _ Hsh _ _ _ _ Hpo Hf Hl) as [Hr _].
    eapply wp_mono; [exact (pool_alloc_spec _ _ _ _ _ size (Z.of_nat c) Hr)|].
    intros p m' [-> ->]. simpl. rewrite (sl_concurrency _ Hlay).
    apply wp_bind, wp_umod; [rewrite u32_small; lia|]. fold C. rewrite Hcz, circle_step by lia.
    assert (∀ i, 0 <= i < j + 1 → frees !! Z.to_nat ((save + i) mod C) = Some []) as Hseen'.
    { intros i Hi. destruct (decide (i = j)) as [->|]; [done|]. apply Hseen. lia. }
    destruct (Z.eqb_spec ((save + (j + 1)) mod C) save) as [E|E].
    + apply circle_back in E; [|lia..]. wp_go. left. split; [done|]. split; [done|].
      intros g [d Hd]%list_elem_of_lookup. pose proof (lookup_lt_Some _ _ _ Hd) as Hdl.
      rewrite (sr_frees _ _ _ _ _ Hsh) in Hdl.
      destruct (circle_covers C save (Z.of_nat d)) as (i & Hi & Hdi); [lia..|].
      specialize (Hseen' i ltac:(lia)). rewrite <-Hdi, Nat2Z.id in Hseen'. by simplify_eq.
    + assert (j + 1 ≠ C) by (intros E'; apply E, circle_back; lia). apply IH; [lia..|done].
  - pose proof (core_alloc_spec sh n frees lives m c po page f l size (Z.of_nat c) Hsh Hpo Hf Hl) as H.
    apply wp_bind_inv in H. eapply wp_mono; [exact H|]. intros p m1 H1. simpl in H1.
    apply wp_bind_inv in H1. pose proof H1 as (u & m2 & _ & -> & Hnz & _)%wp_run.
    rewrite (proj2 (Z.eqb_neq page NULL)) by done. simpl. apply wp_bind. eapply wp_mono; [exact H1|].
    intros _ m3 (_ & _ & Hsh2). right. exists c, po, page, f, l. split; [done|]. split; [|done].
    unfold sizeof_sm_entry, NULL.
    destruct (sr_cores _ _ _ _ _ Hsh _ _ _ _ Hpo Hf Hl) as [Hr _].
    destruct (pr_near _ _ _ _ _ Hr page) as [(? & ? & ?) _]; [eapply pool_free_in; [done|set_solver]|]. lia.
Qed.

Lemma shm_alloc_spec n frees lives m size core :
  shm_rep sh n frees lives m → 0 <= core < 2 ^ 32 →
  wp (labstor_shmem_allocator_Alloc (sh_alloc sh) size core)
     (λ p m', (p = NULL ∧ m' = m ∧ ∀ f, f ∈ frees → f = []) ∨
        ∃ c po page f l, p = user page ∧ p ≠ NULL ∧ sh_pools sh !! c = Some po ∧
          frees !! c = Some (page :: f) ∧ lives !! c = Some l ∧
          shm_rep sh n (<[c := f]> frees) (<[c := page :: l]> lives) m' ∧
          modifies (both (po_meta po) (span page 2)) m m') m.
Proof.
  intros Hsh Hcore. pose proof (sr_layout _ _ _ _ _ Hsh) as Hlay.
  destruct (sl_cores _ Hlay) as [HC0 HC1].
  unfold labstor_shmem_allocator_Alloc. rewrite (sl_concurrency _ Hlay).
  rewrite u32_small by lia. apply wp_bind, wp_umod; [lia|].
  set (C := Z.of_nat (length (sh_pools sh))) in *.
  assert (0 <= core mod C < C) as Hs by (apply Z.mod_pos_bound; lia).
  pose proof (alloc_loop_spec (Z.to_nat C) n frees lives m size (core mod C) 0 Hsh Hs) as H.
  rewrite Z.add_0_r, Zmod_mod in H. apply H; [lia|lia|]. intros; lia.
Qed.

(** A page goes back to the core its header names. *)
Lemma shm_free_spec fuel n frees lives m c po f l l' page :
  (0 < fuel)%nat → shm_rep sh (S n) frees lives m → sh_pools sh !! c = Some po →
  frees !! c = Some f → lives !! c = Some l → l ≡ₚ page :: l' →
  wp (labstor_shmem_allocator_Free fuel (sh_alloc sh) (user page))
     (λ _ m', shm_rep sh n (<[c := f ++ [page]]> frees) (<[c := l']> lives) m' ∧ modifies (po_meta po) m m') m.
Proof.
  intros Hfuel Hsh Hpo Hf Hl Hperm. pose proof (sr_layout _ _ _ _ _ Hsh) as Hlay.
  destruct (sr_cores _ _ _ _ _ Hsh _ _ _ _ Hpo Hf Hl) as [Hr Hc].
  pose proof (sl_unit _ Hlay _ _ Hpo) as Hu. pose proof (sl_unit_min _ Hlay) as Hu2.
  assert (page ∈ l) as Hin by (rewrite Hperm; set_solver).
  destruct (pool_objects _ _ _ _ _ Hr) as [_ Hsep].
  assert (valid m page 2) as Hv.
  { destruct (Hsep page page) as [_ Hv]; [set_solver..|]. apply (valid_sub _ _ _ _ _ Hv); lia. }
  unfold labstor_shmem_allocator_Free, user, sme_core_, sizeof_sm_entry. rewrite Z.add_0_r, Z.add_simpl_r.
  apply wp_bind, wp_load; [done|]. rewrite Hc by done.
  destruct fuel as [|fuel]; [lia|]. simpl. apply wp_bind, (wp_per_core sh c po); [done..|].
  apply wp_bind. eapply wp_mono; [by eapply pool_free_spec|]. intros ok m' (-> & Hr' & Hm). wp_go.
  split; [|done]. eapply (shm_update sh (S n) n); [done..|exact Hm| |lia|].
  - intros a Ha. by eapply po_meta_range.
  - split; [done|]. intros q Hq. assert (q ∈ l) as Hql by (rewrite Hperm; set_solver).
    erewrite read_modifies; [by apply Hc|exact Hm|]. unfold po_meta, span. simpl.
    pose proof (page_in_pool _ _ _ _ _ q Hr ltac:(set_solver)). intros. lia.
Qed.
End shm_ops.

(** ** The per-core allocator implements the interface *)

Lemma NoDup_mjoin {A} (ls : list (list A)) :
  (∀ c l, ls !! c = Some l → NoDup l) →
  (∀ c d l k x, ls !! c = Some l → ls !! d = Some k → x ∈ l → x ∈ k → c = d) →
  NoDup (mjoin ls).
Proof.
  induction ls as [|l ls IH]; intros Hnd Hdis; simpl; [constructor|].
  apply NoDup_app. split; [by apply (Hnd 0%nat)|]. split.
  - intros x Hx (k & Hxk & [d Hd]%list_elem_of_lookup)%list_elem_of_join.
    by specialize (Hdis 0%nat (S d) l k x eq_refl Hd Hx Hxk).
  - apply IH; [intros c; apply (Hnd (S c))|]. intros c d k k' x Hc Hd H1 H2.
    specialize (Hdis (S c) (S d) k k' x Hc Hd H1 H2). lia.
Qed.

Lemma mjoin_zip {A} (fs ls : list (list A)) :
  length fs = length ls → mjoin fs ++ mjoin ls ≡ₚ mjoin (zip_with app fs ls).
Proof.
  revert ls. induction fs as [|f fs IH]; intros [|l ls] H; simpl in *; try done.
  rewrite <-IH by lia. rewrite <-!app_assoc. f_equiv.
  rewrite !app_assoc. f_equiv. apply Permutation_app_comm.
Qed.

(** A page of the allocator: its core and its place there. *)
Lemma shm_page_core sh n frees lives m p :
  shm_rep sh n frees lives m → p ∈ mjoin frees ++ mjoin lives →
  ∃ c po f l, sh_pools sh !! c = Some po ∧ frees !! c = Some f ∧ lives !! c = Some l ∧ p ∈ f ++ l.
Proof.
  intros Hsh Hp. rewrite mjoin_zip in Hp
    by (rewrite (sr_frees _ _ _ _ _ Hsh), (sr_lives _ _ _ _ _ Hsh); done).
  apply list_elem_of_join in Hp as (g & Hpg & [c Hc]%list_elem_of_lookup).
  apply lookup_zip_with_Some in Hc as (f & l & -> & Hf & Hl).
  destruct (lookup_lt_is_Some_2 (sh_pools sh) c) as [po Hpo].
  { rewrite <-(sr_frees _ _ _ _ _ Hsh). by eapply lookup_lt_Some. }
  by exists c, po, f, l.
Qed.

(** Pages of different cores do not overlap, pages of one core are equal or
    do not overlap. *)
Lemma shm_pages sh n frees lives m c d po po' f f' l l' p q :
  shm_rep sh n frees lives m →
  sh_pools sh !! c = Some po → frees !! c = Some f → lives !! c = Some l → p ∈ f ++ l →
  sh_pools sh !! d = Some po' → frees !! d = Some f' → lives !! d = Some l' → q ∈ f' ++ l' →
  (c = d ∧ p = q) ∨ outside p (sh_unit sh) q (sh_unit sh).
Proof.
  intros Hsh Hpo Hf Hl Hp Hpo' Hf' Hl' Hq. pose proof (sr_layout _ _ _ _ _ Hsh) as Hlay.
  destruct (sr_cores _ _ _ _ _ Hsh _ _ _ _ Hpo Hf Hl) as [Hr _].
  destruct (sr_cores _ _ _ _ _ Hsh _ _ _ _ Hpo' Hf' Hl') as [Hr' _].
  pose proof (sl_unit _ Hlay _ _ Hpo) as Hu. pose proof (sl_unit _ Hlay _ _ Hpo') as Hu'.
  destruct (decide (c = d)) as [->|Hne].
  - simplify_eq. destruct (pool_objects _ _ _ _ _ Hr) as [_ Hsep].
    destruct (Hsep p q Hp Hq) as [[->|H] _]; [by left|right]. by rewrite Hu in H.
  - right. pose proof (page_in_pool _ _ _ _ _ p Hr Hp). pose proof (page_in_pool _ _ _ _ _ q Hr' Hq).
    assert (0 <= 4 * po_cap po) by (destruct (pr_ring _ _ _ _ _ Hr) as (? & [] & _); lia).
    assert (0 <= 4 * po_cap po') by (destruct (pr_ring _ _ _ _ _ Hr') as (? & [] & _); lia).
    destruct (sl_disjoint _ Hlay c d po po' Hpo Hpo' Hne); unfold outside; lia.
Qed.

Lemma shm_pages_NoDup sh n frees lives m :
  shm_rep sh n frees lives m → NoDup (mjoin frees ++ mjoin lives).
Proof.
  intros Hsh. pose proof (sr_layout _ _ _ _ _ Hsh) as Hlay.
  assert (∀ c g, zip_with app frees lives !! c = Some g → ∃ po f l, g = f ++ l ∧
    sh_pools sh !! c = Some po ∧ frees !! c = Some f ∧ lives !! c = Some l) as Hz.
  { intros c g (f & l & -> & Hf & Hl)%lookup_zip_with_Some.
    destruct (lookup_lt_is_Some_2 (sh_pools sh) c) as [po Hpo].
    { rewrite <-(sr_frees _ _ _ _ _ Hsh). by eapply lookup_lt_Some. }
    by exists po, f, l. }
  rewrite mjoin_zip by (rewrite (sr_frees _ _ _ _ _ Hsh), (sr_lives _ _ _ _ _ Hsh); done).
  apply NoDup_mjoin.
  - intros c g (po & f & l & -> & Hpo & Hf & Hl)%Hz.
    destruct (sr_cores _ _ _ _ _ Hsh _ _ _ _ Hpo Hf Hl) as [Hr _]. by eapply pool_objects.
  - intros c d g g' x (po & f & l & -> & Hpo & Hf & Hl)%Hz (po' & f' & l' & -> & Hpo' & Hf' & Hl')%Hz Hx Hx'.
    destruct (shm_pages _ _ _ _ _ c d _ _ _ _ _ _ x x Hsh Hpo Hf Hl Hx Hpo' Hf' Hl' Hx') as [[? _]|Hout]; [done|].
    unfold outside in Hout. pose proof (sl_unit_min _ Hlay). lia.
Qed.

Definition shm_state (sh : shm) (n : nat) (free live : list Z) (m : mem) : Prop :=
  ∃ frees lives, shm_rep sh n frees lives m ∧
    free ≡ₚ user <$> mjoin frees ∧ live ≡ₚ user <$> mjoin lives.

Definition shm_own (sh : shm) (a : Z) : Prop := ∃ c po, sh_pools sh !! c = Some po ∧ po_own po a.

(** The metadata and the headers of the pages are apart from the objects that
    are handed out. *)
Lemma shm_meta_apart sh n frees lives objs m c po a :
  shm_rep sh n frees lives m → objs ≡ₚ user <$> (mjoin frees ++ mjoin lives) → sh_pools sh !! c = Some po → po_meta po a →
  bookkeeping (shm_own sh) (sh_unit sh - 2) objs a.
Proof.
  intros Hsh Hobjs Hpo Ha. pose proof (sr_layout _ _ _ _ _ Hsh) as Hlay. pose proof (lookup_lt_Some _ _ _ Hpo) as Hlt.
  destruct (lookup_lt_is_Some_2 frees c) as [f Hf]; [rewrite (sr_frees _ _ _ _ _ Hsh); lia|].
  destruct (lookup_lt_is_Some_2 lives c) as [l Hl]; [rewrite (sr_lives _ _ _ _ _ Hsh); lia|].
  destruct (sr_cores _ _ _ _ _ Hsh _ _ _ _ Hpo Hf Hl) as [Hr _].
  pose proof (po_meta_range _ _ _ _ _ _ Hr Ha) as Hown. split; [by exists c, po|].
  intros p Hp Hx. rewrite Hobjs in Hp. apply list_elem_of_fmap in Hp as (q & -> & Hq).
  destruct (shm_page_core _ _ _ _ _ q Hsh Hq) as (d & po' & f' & l' & Hpo' & Hf' & Hl' & Hin).
  destruct (sr_cores _ _ _ _ _ Hsh _ _ _ _ Hpo' Hf' Hl') as [Hr' _].
  pose proof (page_in_pool _ _ _ _ _ q Hr' Hin) as Hqb. rewrite (sl_unit _ Hlay _ _ Hpo') in Hqb.
  assert (0 <= 4 * po_cap po') by (destruct (pr_ring _ _ _ _ _ Hr') as (? & [] & _); lia).
  unfold user, sizeof_sm_entry in Hx. unfold po_meta, span in Ha.
  destruct (decide (c = d)) as [->|Hne]; [simplify_eq; lia|].
  destruct (sl_disjoint _ Hlay c d po po' Hpo Hpo' Hne); lia.
Qed.

Lemma shm_header_apart sh n frees lives objs m c po f l page a :
  shm_rep sh n frees lives m → objs ≡ₚ user <$> (mjoin frees ++ mjoin lives) → sh_pools sh !! c = Some po →
  frees !! c = Some f → lives !! c = Some l → page ∈ f ++ l → span page 2 a →
  bookkeeping (shm_own sh) (sh_unit sh - 2) objs a.
Proof.
  intros Hsh Hobjs Hpo Hf Hl Hpage Ha. pose proof (sr_layout _ _ _ _ _ Hsh) as Hlay.
  destruct (sr_cores _ _ _ _ _ Hsh _ _ _ _ Hpo Hf Hl) as [Hr _]. pose proof (sl_unit_min _ Hlay) as Hu.
  pose proof (page_in_pool _ _ _ _ _ page Hr Hpage) as Hpb. rewrite (sl_unit _ Hlay _ _ Hpo) in Hpb.
  assert (0 <= 4 * po_cap po) by (destruct (pr_ring _ _ _ _ _ Hr) as (? & [] & _); lia).
  unfold span in Ha. split; [exists c, po; split; [done|]; unfold po_own; lia|].
  intros p Hp Hx. rewrite Hobjs in Hp. apply list_elem_of_fmap in Hp as (q & -> & Hq).
  destruct (shm_page_core _ _ _ _ _ q Hsh Hq) as (d & po' & f' & l' & Hpo' & Hf' & Hl' & Hin).
  unfold user, sizeof_sm_entry in Hx.
  destruct (shm_pages _ _ _ _ _ c d _ _ _ _ _ _ page q Hsh Hpo Hf Hl Hpage Hpo' Hf' Hl' Hin) as [[_ ->]|Hout]; [lia|].
  unfold outside in Hout. lia.
Qed.

#[export] Instance shm_generic : GenericAllocator shm := {
  ga_Alloc sh size core := labstor_shmem_allocator_Alloc (sh_alloc sh) size core;
  ga_Free sh p := labstor_shmem_allocator_Free 1 (sh_alloc sh) p
}.

Lemma shm_state_alloc sh n free live m size core :
  shm_state sh n free live m → 0 <= core < 2 ^ 32 →
  wp (labstor_shmem_allocator_Alloc (sh_alloc sh) size core)
     (λ p m', modifies (bookkeeping (shm_own sh) (sh_unit sh - 2) (free ++ live)) m m' ∧
        ((p = NULL ∧ free = [] ∧ shm_state sh n [] live m') ∨
         (∃ free', p ≠ NULL ∧ free ≡ₚ p :: free' ∧ shm_state sh n free' (p :: live) m'))) m.
Proof.
  intros (frees & lives & Hsh & Hfree & Hlive) Hcore.
  assert (free ++ live ≡ₚ user <$> (mjoin frees ++ mjoin lives)) as Hobjs by (by rewrite Hfree, Hlive, fmap_app).
  eapply wp_mono; [by eapply (shm_alloc_spec sh n frees lives)|].
  intros p m' [(-> & -> & Hnil)|(c & po & page & f & l & -> & Hnz & Hpo & Hf & Hl & Hsh' & Hm)].
  - split; [apply modifies_refl|]. assert (mjoin frees = []) as Hj.
    { clear -Hnil. induction frees as [|f fs IH]; [done|]. simpl.
      rewrite (Hnil f) by set_solver. apply IH. set_solver. }
    rewrite Hj in Hfree. apply Permutation_nil_r in Hfree. left. split; [done|]. split; [done|].
    exists frees, lives. by rewrite Hj.
  - split.
    { eapply modifies_weaken; [exact Hm|]. intros a [Ha|Ha]; [by apply (shm_meta_apart sh n frees lives (free ++ live) m c po a)|].
      eapply (shm_header_apart sh n frees lives (free ++ live) m c po (page :: f) l page); try done. set_solver. }
    right. exists (user <$> (f ++ mjoin (delete c frees))). split; [done|]. split.
    + by rewrite Hfree, (mjoin_at _ _ _ Hf).
    + exists (<[c := f]> frees), (<[c := page :: l]> lives). split; [done|].
      rewrite (mjoin_insert _ _ _ _ Hf), (mjoin_insert _ _ _ _ Hl), Hlive, (mjoin_at _ _ _ Hl). done.
Qed.

Lemma shm_state_free sh n free live live' m p :
  shm_state sh (S n) free live m → live ≡ₚ p :: live' →
  wp (labstor_shmem_allocator_Free 1 (sh_alloc sh) p)
     (λ _ m', modifies (bookkeeping (shm_own sh) (sh_unit sh - 2) (free ++ live)) m m' ∧
        ∃ free', free' ≡ₚ p :: free ∧ shm_state sh n free' live' m') m.
Proof.
  intros (frees & lives & Hsh & Hfree & Hlive) Hp.
  assert (p ∈ user <$> mjoin lives) as Hin by (rewrite <-Hlive, Hp; set_solver).
  apply list_elem_of_fmap in Hin as (page & -> & (l & Hpl & [c Hl]%list_elem_of_lookup)%list_elem_of_join).
  pose proof (lookup_lt_Some _ _ _ Hl) as Hlt. rewrite (sr_lives _ _ _ _ _ Hsh) in Hlt.
  destruct (lookup_lt_is_Some_2 (sh_pools sh) c Hlt) as [po Hpo].
  destruct (lookup_lt_is_Some_2 frees c) as [f Hf]; [rewrite (sr_frees _ _ _ _ _ Hsh); lia|].
  apply elem_of_Permutation in Hpl as [l' Hl'].
  eapply wp_mono; [apply (shm_free_spec sh 1 n frees lives m c po f l l' page); [lia|done..]|].
  intros [] m' [Hsh' Hm]. split; [eapply modifies_weaken; [exact Hm|]; intros a; apply (shm_meta_apart sh (S n) frees lives (free ++ live) m c po a Hsh); [by rewrite Hfree, Hlive, fmap_app|done]|].
  exists (user page :: free). split; [done|].
  exists (<[c := f ++ [page]]> frees), (<[c := l']> lives). split; [done|].
  rewrite (mjoin_insert _ _ _ _ Hf), (mjoin_insert _ _ _ _ Hl). split.
  - rewrite Hfree, (mjoin_at _ _ _ Hf), !fmap_app. simpl.
    rewrite <-app_assoc. apply Permutation_middle.
  - rewrite Hlive, (mjoin_at _ _ _ Hl), Hl' in Hp. simpl in Hp. by apply Permutation_cons_inv in Hp.
Qed.

Lemma shm_state_objects sh n free live m :
  shm_state sh n free live m → NoDup (free ++ live) ∧
  ∀ p q, p ∈ free ++ live → q ∈ free ++ live →
    separate (sh_unit sh - 2) p q ∧ valid m p (sh_unit sh - 2).
Proof.
  intros (frees & lives & Hsh & Hfree & Hlive). assert (free ++ live ≡ₚ user <$> (mjoin frees ++ mjoin lives)) as Hall by (by rewrite Hfree, Hlive, fmap_app).
  split.
  - rewrite Hall. apply NoDup_fmap_2; [unfold user; intros ?? E; lia|]. by eapply shm_pages_NoDup.
  - intros p q. rewrite Hall. intros (p' & -> & Hp)%list_elem_of_fmap (q' & -> & Hq)%list_elem_of_fmap.
    destruct (shm_page_core _ _ _ _ _ _ Hsh Hp) as (c & po & f & l & Hpo & Hf & Hl & Hpi).
    destruct (shm_page_core _ _ _ _ _ _ Hsh Hq) as (d & po' & f' & l' & Hpo' & Hf' & Hl' & Hqi).
    pose proof (sr_layout _ _ _ _ _ Hsh) as Hlay. pose proof (sl_unit_min _ Hlay) as Hu.
    unfold user, separate, outside, sizeof_sm_entry. split.
    + destruct (shm_pages _ _ _ _ _ c d _ _ _ _ _ _ p' q' Hsh Hpo Hf Hl Hpi Hpo' Hf' Hl' Hqi)
        as [[_ ->]|Hout]; [by left|right]. unfold outside in Hout. lia.
    + destruct (sr_cores _ _ _ _ _ Hsh _ _ _ _ Hpo Hf Hl) as [Hr _].
      destruct (pool_objects _ _ _ _ _ Hr) as [_ Hsep]. destruct (Hsep p' p' Hpi Hpi) as [_ Hv].
      rewrite (sl_unit _ Hlay _ _ Hpo) in Hv. apply (valid_sub _ _ _ _ _ Hv); lia.
Qed.

Lemma shm_state_client sh n free live m m' P :
  shm_state sh n free live m → modifies P m m' →
  (∀ x, P x → shm_own sh x → ∃ p, p ∈ live ∧ p <= x < p + (sh_unit sh - 2)) → shm_state sh n free live m'.
Proof.
  intros (frees & lives & Hsh & Hfree & Hlive) Hm HP. exists frees, lives. split; [|done].
  pose proof (sr_layout _ _ _ _ _ Hsh) as Hlay. pose proof Hsh as [_ Hlf Hll Hcores]. split; try done.
  (* a byte that changed is outside the allocator or in a live page, after its header *)
  assert (∀ x, P x → shm_own sh x → ∃ d po' f' l' q, sh_pools sh !! d = Some po' ∧ frees !! d = Some f' ∧
    lives !! d = Some l' ∧ q ∈ f' ++ l' ∧ q + 2 <= x < q + sh_unit sh) as HP'.
  { intros x Hx Ho. destruct (HP x Hx Ho) as (p & Hp & Hpx). rewrite Hlive in Hp.
    apply list_elem_of_fmap in Hp as (q & -> & Hq).
    destruct (shm_page_core _ _ _ _ _ q Hsh ltac:(set_solver)) as (d & po' & f' & l' & ? & ? & ? & ?).
    exists d, po', f', l', q. unfold user, sizeof_sm_entry in Hpx. repeat split; try done; lia. }
  intros c po f l Hpo Hf Hl. destruct (Hcores _ _ _ _ Hpo Hf Hl) as [Hr Hc]. split.
  - eapply pool_rep_frame; [exact Hr|exact Hm|]. intros a Ha Pa.
    assert (shm_own sh a) as Ho by (exists c, po; split; [done|]; by eapply po_meta_range).
    destruct (HP' a Pa Ho) as (d & po' & f' & l' & q & Hpo' & Hf' & Hl' & Hq & Hx).
    destruct (Hcores _ _ _ _ Hpo' Hf' Hl') as [Hr' _].
    pose proof (page_in_pool _ _ _ _ _ q Hr' Hq) as Hqb. rewrite (sl_unit _ Hlay _ _ Hpo') in Hqb.
    pose proof (po_meta_range _ _ _ _ _ _ Hr Ha) as Hmr. unfold po_meta, span in Ha.
    assert (0 <= 4 * po_cap po') by (destruct (pr_ring _ _ _ _ _ Hr') as (? & [] & _); lia).
    destruct (decide (c = d)) as [->|Hne]; [simplify_eq; lia|].
    destruct (sl_disjoint _ Hlay c d po po' Hpo Hpo' Hne); lia.
  - intros p Hp. erewrite read_modifies; [by apply Hc|exact Hm|]. simpl. intros a Ha Pa.
    pose proof (sl_unit_min _ Hlay).
    assert (shm_own sh a) as Ho.
    { exists c, po. split; [done|]. pose proof (page_in_pool _ _ _ _ _ p Hr ltac:(set_solver)) as Hpb.
      rewrite (sl_unit _ Hlay _ _ Hpo) in Hpb.
      assert (0 <= 4 * po_cap po) by (destruct (pr_ring _ _ _ _ _ Hr) as (? & [] & _); lia). unfold po_own. lia. }
    destruct (HP' a Pa Ho) as (d & po' & f' & l' & q & Hpo' & Hf' & Hl' & Hq & Hx).
    destruct (shm_pages _ _ _ _ _ c d _ _ _ _ _ _ p q Hsh Hpo Hf Hl ltac:(set_solver) Hpo' Hf' Hl' Hq)
      as [[_ ->]|Hout]; [lia|]. unfold outside in Hout. lia.
Qed.

#[export, refine] Instance shm_allocator : ObjectAllocator shm := {
  ga_size sh := sh_unit sh - 2;
  ga_rep := shm_state;
  ga_own := shm_own
}.
Proof.
  - intros. by apply shm_state_alloc.
  - intros. by eapply shm_state_free.
  - apply shm_state_objects.
  - intros. by eapply shm_state_client.
Defined.

(** A Free that returns on its first try does so with any fuel. *)
Lemma shm_free_fuel fuel a p (Q : unit → mem → Prop) m :
  (0 < fuel)%nat → wp (labstor_shmem_allocator_Free 1 a p) Q m → wp (labstor_shmem_allocator_Free fuel a p) Q m.
Proof.
  intros Hf H. destruct fuel as [|fuel]; [lia|]. unfold labstor_shmem_allocator_Free in *.
  apply wp_bind_inv in H. apply wp_bind. eapply wp_mono; [exact H|]. intros core m1 H1. cbn [shmem_allocator_free_loop] in *.
  apply wp_bind_inv in H1. apply wp_bind. eapply wp_mono; [exact H1|]. intros c m2 H2.
  apply wp_bind_inv in H2. apply wp_bind. eapply wp_mono; [exact H2|]. intros ok m3 H3.
  destruct ok; [done|]. by destruct (sm_concurrency_ a =? 0).
Qed.
