(* ===== verification/AllocatorSpec.v ===== *)
(** * AllocatorSpec.v: what the allocators guarantee

    A client that allocates and frees is run against the interface
    [ObjectAllocator]; the two shared-memory allocators are then initialised
    in a region and discharge it. *)

From S2P Require Import Prelude Memory RingBuffer RequestQueue Allocators.

Local Open Scope Z_scope.

(** ** A client *)

(** [CFree k] frees the [k]-th object the client holds (if it has one). *)
Inductive client_op := CAlloc (size core : Z) | CFree (k : nat).

(** The client keeps the list of the objects it holds, and logs for each
    allocation the result and the number of objects it held. *)
Fixpoint client_run (alloc : Z → Z → M Z) (free : Z → M unit) (ops : list client_op)
    (live : list Z) (log : list (Z * nat)) : M (list Z * list (Z * nat)) :=
  match ops with
  | [] => mret (live, log)
  | CAlloc size core :: ops' =>
      p ← alloc size core;
      client_run alloc free ops' (if p =? NULL then live else p :: live) ((p, length live) :: log)
  | CFree k :: ops' =>
      match live !! k with
      | Some p => _ ← free p; client_run alloc free ops' (delete k live) log
      | None => client_run alloc free ops' live log
      end
  end.

Definition client_op_ok (op : client_op) : Prop :=
  match op with CAlloc size core => 0 <= core < 2 ^ 32 | CFree _ => True end.

(** The objects a client holds. *)
Record holds_distinct (size : Z) (objs live : list Z) (m : mem) : Prop := {
  hd_sub : live ⊆+ objs;
  hd_nodup : NoDup live;
  hd_separate : ∀ p q, p ∈ live → q ∈ live → p ≠ q → outside p size q size;
  hd_valid : ∀ p, p ∈ live → valid m p size
}.

(** An allocation fails exactly when all objects are handed out. *)
Definition log_exact (objs : list Z) (log : list (Z * nat)) : Prop :=
  Forall (λ '(p, k), p = NULL ↔ k = length objs) log.

Section client.
Context {A : Type} `{ObjectAllocator A} (a : A).

Lemma rep_holds_distinct n free live m :
  ga_rep a n free live m → holds_distinct (ga_size a) (free ++ live) live m.
Proof.
  intros Hr. destruct (ga_objects _ _ _ _ _ Hr) as [Hnd Hsep]. split.
  - by apply submseteq_inserts_l.
  - by apply NoDup_app in Hnd as (_ & _ & ?).
  - intros p q Hp Hq Hne. destruct (Hsep p q) as [[|] _]; [set_solver..|done|done].
  - intros p Hp. by destruct (Hsep p p) as [_ ?]; [set_solver..|].
Qed.

Lemma client_run_spec ops n free live log m :
  ga_rep a n free live m → Forall client_op_ok ops → (length ops <= n)%nat →
  log_exact (free ++ live) log →
  wp (client_run (ga_Alloc a) (ga_Free a) ops live log)
     (λ r m', ∃ free' n', ga_rep a n' free' r.1 m' ∧ free' ++ r.1 ≡ₚ free ++ live ∧
        log_exact (free ++ live) r.2) m.
Proof.
  intros Hr Hops. revert n free live log m Hr.
  induction Hops as [|op ops Hop Hops IH]; intros n free live log m Hr Hn Hlog; simpl in *.
  - wp_go. exists free, n. auto.
  - destruct op as [size core|k]; simpl in Hop.
    + apply wp_bind. eapply wp_mono; [by apply ga_alloc_spec|].
      intros p m' (_ & [(-> & -> & Hr')|(free' & Hnz & Hperm & Hr')]).
      * simpl. apply (IH n [] live); [done|lia|]. by constructor.
      * rewrite (proj2 (Z.eqb_neq p NULL)) by done.
        assert (free' ++ p :: live ≡ₚ free ++ live) as Hp
          by (rewrite Hperm; symmetry; apply Permutation_middle).
        assert (log_exact (free' ++ p :: live) ((p, length live) :: log)) as Hlog'.
        { unfold log_exact in *. rewrite (Permutation_length Hp). constructor; [|done].
          rewrite <-(Permutation_length Hp), length_app. simpl. split; [done|lia]. }
        eapply wp_mono; [apply (IH n free' (p :: live) _ _ Hr' ltac:(lia) Hlog')|].
        intros r m2 (f2 & n2 & Hr2 & Hp2 & Hl2). exists f2, n2. split; [done|].
        unfold log_exact in *. rewrite (Permutation_length Hp) in Hl2. by rewrite <-Hp.
    + destruct (live !! k) as [p|] eqn:Ek.
      * destruct n as [|n]; [lia|]. pose proof (delete_Permutation _ _ _ Ek) as Hd.
        apply wp_bind. eapply wp_mono; [by eapply ga_free_spec|].
        intros u m' (_ & free' & Hf' & Hr').
        assert (free' ++ delete k live ≡ₚ free ++ live) as Hp
          by (rewrite Hf'; simpl; rewrite Permutation_middle; by f_equiv).
        eapply wp_mono; [apply (IH n free' (delete k live) log _ Hr' ltac:(lia))|].
        { unfold log_exact in *. by rewrite (Permutation_length Hp). }
        intros r m2 (f2 & n2 & Hr2 & Hp2 & Hl2). exists f2, n2. split; [done|].
        unfold log_exact in *. rewrite (Permutation_length Hp) in Hl2. by rewrite <-Hp.
      * apply (IH n); [done|lia|done].
Qed.

(** From a fresh allocator. *)
Lemma client_correct ops n free m :
  ga_rep a n free [] m → Forall client_op_ok ops → (length ops <= n)%nat →
  wp (client_run (ga_Alloc a) (ga_Free a) ops [] [])
     (λ r m', holds_distinct (ga_size a) free r.1 m' ∧ log_exact free r.2) m.
Proof.
  intros Hr Hops Hn. eapply wp_mono.
  { apply (client_run_spec ops n free [] [] m); [done..|]. constructor. }
  intros [live log] m' (free' & n' & Hr' & Hp & Hlog). simpl in *. rewrite app_nil_r in *.
  split; [|done]. destruct (rep_holds_distinct _ _ _ _ Hr') as [? ? ? ?]. split; try done.
  by rewrite <-Hp.
Qed.
End client.

(** ** The allocator of one pool *)

(** C9. A private allocator initialised in a mapped region gives every object
    to at most one holder: after any sequence of Alloc and Free calls the
    objects that are held are pairwise disjoint, mapped, and among the
    objects that Init laid out behind the free list, and an Alloc returned
    NULL exactly when all of those objects were held.  (The number of calls
    is bounded by the 32-bit counters of the free list unless its depth
    divides 2^32.) *)
Theorem private_allocator_correct b alloc base region region_size unit ops m :
  pool_fits base region region_size unit → valid m region region_size →
  Forall client_op_ok ops →
  (region_size / unit | 2 ^ 32) ∨ 2 * (region_size / unit) + Z.of_nat (length ops) <= 2 ^ 32 →
  wp (a ← labstor_private_shmem_allocator_Init b alloc base region region_size unit;
      client_run (labstor_private_shmem_allocator_Alloc a)
        (λ p, _ ← labstor_private_shmem_allocator_Free a p; mret tt) ops [] [])
     (λ r m', let objs := po_objects (pool_of base region region_size unit) in
        holds_distinct unit objs r.1 m' ∧ log_exact objs r.2) m.
Proof.
  intros Hf Hv Hops Hn. apply wp_bind.
  eapply wp_mono; [by apply (pool_init_spec b alloc base region region_size unit m (length ops))|].
  intros a m1 (-> & Hr & _).
  exact (client_correct (pool_of base region region_size unit) ops (length ops) _ m1 Hr Hops (le_n _)).
Qed.

Lemma private_allocator_correct_witness :
  wp (a ← labstor_private_shmem_allocator_Init Kernel (labstor_private_shmem_allocator_Attach 0 0)
            4096 4096 96 16;
      client_run (labstor_private_shmem_allocator_Alloc a)
        (λ p, _ ← labstor_private_shmem_allocator_Free a p; mret tt)
        [CAlloc 16 0; CAlloc 16 0; CFree 0; CAlloc 16 0; CAlloc 16 0; CAlloc 16 0] [] [])
     (λ r m', let objs := po_objects (pool_of 4096 4096 96 16) in
        holds_distinct 16 objs r.1 m' ∧ log_exact objs r.2) (zero_region 4096 96).
Proof.
  apply (private_allocator_correct Kernel (labstor_private_shmem_allocator_Attach 0 0) 4096 4096 96 16).
  - split; try lia. vm_compute. discriminate.
  - apply (valid_zero_region 4096 96).
  - repeat constructor; simpl; lia.
  - right. vm_compute. discriminate.
Defined.

(** ** The per-core allocator *)

(** The pools that Init lays out: [count] regions of [size] bytes from
    [core_region]. *)
Definition core_pools (base core_region size unit : Z) (count : nat) : list pool :=
  (λ i, pool_of base (core_region + size * Z.of_nat i) size unit) <$> seq 0 count.

Lemma core_pools_S base core_region size unit count :
  core_pools base core_region size unit (S count) =
  pool_of base core_region size unit :: core_pools base (core_region + size) size unit count.
Proof.
  unfold core_pools. simpl. f_equal; [f_equal; lia|]. rewrite <-fmap_S_seq, <-list_fmap_compose.
  apply list_fmap_ext. intros i x _. simpl. f_equal. lia.
Qed.

Lemma core_pools_lookup base core_region size unit count c po :
  core_pools base core_region size unit count !! c = Some po →
  (c < count)%nat ∧ po = pool_of base (core_region + size * Z.of_nat c) size unit.
Proof.
  unfold core_pools. rewrite list_lookup_fmap. intros (i & Hi & ->)%fmap_Some.
  apply lookup_seq in Hi as [-> Hlt]. done.
Qed.

Lemma po_end_pool_of base region size unit :
  pool_fits base region size unit → po_end (pool_of base region size unit) <= region + size.
Proof.
  intros Hf. pose proof (pool_of_bounds _ _ _ _ Hf) as (Hc & Hk & Hu). unfold po_end. simpl.
  rewrite Z2Nat.id by lia. lia.
Qed.

(** Every core gets a pool whose objects are all free. *)
Lemma init_cores_spec count b fresh base core_region size unit n m :
  (∀ i, (i < count)%nat → pool_fits base (core_region + size * Z.of_nat i) size unit) → 0 <= size →
  valid m core_region (size * Z.of_nat count) →
  (size / unit | 2 ^ 32) ∨ 2 * (size / unit) + Z.of_nat n <= 2 ^ 32 →
  wp (shmem_allocator_init_cores count b fresh base core_region size unit)
     (λ l m', l = po_alloc <$> core_pools base core_region size unit count ∧
        (∀ c po, core_pools base core_region size unit count !! c = Some po →
           pool_rep po n (po_objects po) [] m') ∧
        modifies (span core_region (size * Z.of_nat count)) m m') m.
Proof.
  revert core_region m. induction count as [|count IH]; intros core_region m Hfit Hsz Hv Hn;
    cbn [shmem_allocator_init_cores].
  - wp_go. split; [done|]. split; [by intros [|c] po|]. auto with labstor.
  - pose proof (Hfit 0%nat ltac:(lia)) as Hf0. rewrite Z.mul_0_r, Z.add_0_r in Hf0.
    apply wp_bind. eapply wp_mono.
    { apply (pool_init_spec b fresh base core_region size unit m n Hf0); [|done].
      apply (valid_sub _ _ _ _ _ Hv); lia. }
    intros a m1 (-> & Hr & Hm1). pose proof (pf_size _ _ _ _ Hf0) as Hps.
    apply wp_bind. eapply wp_mono.
    { apply IH; [|done| |done].
      - intros i Hi. specialize (Hfit (S i) ltac:(lia)).
        by replace (core_region + size * Z.of_nat (S i)) with (core_region + size + size * Z.of_nat i)
          in Hfit by lia.
      - eapply valid_modifies; [exact Hm1|]. apply (valid_sub _ _ _ _ _ Hv); lia. }
    intros l m2 (-> & Hrest & Hm2). wp_go. rewrite core_pools_S. split; [done|]. split.
    + intros [|c] po Hpo; simpl in Hpo; [|by eapply Hrest]. injection Hpo as <-.
      eapply pool_rep_frame; [exact Hr|exact Hm2|]. unfold po_meta, span. simpl. intros. lia.
    + eapply modifies_trans; (eapply modifies_weaken; [eassumption|]); unfold span; lia.
Qed.

(** The region can be divided among the cores.  The pools start after the
    8-byte header but divide the whole of [region_size], so Init uses up to 8
    bytes beyond it. *)
Record shm_fits (base region region_size unit concurrency : Z) : Prop := {
  sf_unit : 0 < unit < 2 ^ 31;
  sf_concurrency : 0 < concurrency < 2 ^ 16;
  sf_region_size : 0 <= region_size < 2 ^ 31;
  sf_pools : ∀ i, 0 <= i < concurrency →
    pool_fits base (region + 8 + region_size / concurrency * i) (region_size / concurrency) (unit + 2)
}.

Definition shm_of (base region region_size unit concurrency : Z) : shm :=
  let size := region_size / concurrency in
  let pools := core_pools base (region + 8) size (unit + 2) (Z.to_nat concurrency) in
  {| sh_alloc := {| sm_base_region_ := base; sm_concurrency_ := concurrency;
                    sm_region_size_ := region_size; sm_header_ := region;
                    sm_per_core_allocs_ := po_alloc <$> pools |};
     sh_pools := pools;
     sh_unit := unit + 2 |}.

Lemma shm_of_layout base region region_size unit concurrency :
  shm_fits base region region_size unit concurrency →
  shm_layout (shm_of base region region_size unit concurrency).
Proof.
  intros []. assert (length (core_pools base (region + 8) (region_size / concurrency) (unit + 2)
    (Z.to_nat concurrency)) = Z.to_nat concurrency) as Hlen.
  { unfold core_pools. by rewrite length_fmap, length_seq. }
  split; simpl; rewrite ?Hlen; try done; try lia.
  - intros c po [_ ->]%core_pools_lookup. done.
  - intros c c' po po' [Hc ->]%core_pools_lookup [Hc' ->]%core_pools_lookup Hne.
    pose proof (po_end_pool_of _ _ _ _ (sf_pools0 (Z.of_nat c) ltac:(lia))) as H1.
    pose proof (po_end_pool_of _ _ _ _ (sf_pools0 (Z.of_nat c') ltac:(lia))) as H2.
    assert (0 <= region_size / concurrency) by (apply Z.div_pos; lia). simpl in *. 
    destruct (decide (c < c')%nat); [left|right]; nia.
Qed.

(** All objects of the allocator. *)
Definition shm_objects (sh : shm) : list Z := user <$> mjoin (po_objects <$> sh_pools sh).

(** Where the allocator and its objects are. *)
Lemma shm_of_own base region region_size unit concurrency x :
  shm_fits base region region_size unit concurrency →
  shm_own (shm_of base region region_size unit concurrency) x → region + 8 <= x < region + 8 + region_size.
Proof.
  intros Hf (c & po & [Hc ->]%core_pools_lookup & Ho). pose proof Hf as [].
  pose proof (po_end_pool_of _ _ _ _ (sf_pools0 (Z.of_nat c) ltac:(lia))) as He.
  pose proof (Z.mul_div_le region_size concurrency ltac:(lia)).
  assert (0 <= region_size / concurrency) by (apply Z.div_pos; lia). unfold po_own in Ho. simpl in Ho. nia.
Qed.

Lemma shm_of_object base region region_size unit concurrency p :
  shm_fits base region region_size unit concurrency →
  p ∈ shm_objects (shm_of base region region_size unit concurrency) →
  region + 8 < p ∧ p + unit <= region + 8 + region_size.
Proof.
  intros Hf Hp. pose proof Hf as []. unfold shm_objects in Hp. apply list_elem_of_fmap in Hp as (page & -> & Hp).
  apply list_elem_of_join in Hp as (l & Hpage & Hl). apply list_elem_of_fmap in Hl as (po & -> & Hpo).
  apply list_elem_of_lookup_1 in Hpo as (c & [Hc ->]%core_pools_lookup).
  pose proof (sf_pools0 (Z.of_nat c) ltac:(lia)) as Hpf. pose proof (po_end_pool_of _ _ _ _ Hpf) as He.
  pose proof (pool_of_bounds _ _ _ _ Hpf) as (Hb & _ & Hu). apply objects_range in Hpage; [|simpl; lia].
  pose proof (Z.mul_div_le region_size concurrency ltac:(lia)).
  assert (0 <= region_size / concurrency) by (apply Z.div_pos; lia).
  unfold po_end in He. unfold user. autounfold with layout. simpl in *. nia.
Qed.

Lemma shm_object_own base region region_size unit concurrency p x :
  shm_fits base region region_size unit concurrency →
  p ∈ shm_objects (shm_of base region region_size unit concurrency) → p <= x < p + unit →
  shm_own (shm_of base region region_size unit concurrency) x.
Proof.
  intros Hf Hp Hx. pose proof Hf as []. unfold shm_objects in Hp. apply list_elem_of_fmap in Hp as (page & -> & Hp).
  apply list_elem_of_join in Hp as (l & Hpage & Hl). apply list_elem_of_fmap in Hl as (po & -> & Hpo).
  apply list_elem_of_lookup_1 in Hpo as (c & Hpo). exists c, po. split; [done|].
  apply core_pools_lookup in Hpo as [Hc ->]. pose proof (sf_pools0 (Z.of_nat c) ltac:(lia)) as Hpf.
  pose proof (pool_of_bounds _ _ _ _ Hpf) as (Hb & _ & Hu). apply objects_range in Hpage; [|simpl; lia].
  unfold po_own, po_end, user in *. autounfold with layout in *. simpl in *. lia.
Qed.

Lemma shm_init_full b fresh nprocs base region region_size unit concurrency n m :
  shm_fits base region region_size unit concurrency → valid m region (region_size + 8) →
  let size := region_size / concurrency in
  (size / (unit + 2) | 2 ^ 32) ∨ 2 * (size / (unit + 2)) + Z.of_nat n <= 2 ^ 32 →
  wp (labstor_shmem_allocator_Init b fresh nprocs base region region_size unit concurrency)
     (λ a m', let sh := shm_of base region region_size unit concurrency in
        a = sh_alloc sh ∧ shm_state sh n (shm_objects sh) [] m' ∧ modifies (span region (region_size + 8)) m m') m.
Proof.
  intros Hf Hv size Hn. pose proof (shm_of_layout _ _ _ _ _ Hf) as Hlay. pose proof Hf as [].
  pose proof (Z.mul_div_le region_size concurrency ltac:(lia)) as Hdiv. fold size in Hdiv, sf_pools0.
  assert (0 <= size) as Hs0 by (apply Z.div_pos; lia).
  assert (24 <= region_size) as Hmin.
  { destruct (sf_pools0 0 ltac:(lia)) as [? Hsz Hob]. rewrite Z.mul_0_r in *.
    pose proof (Z.div_str_pos size (unit + 2) ltac:(lia)). nia. }
  unfold labstor_shmem_allocator_Init. rewrite (proj2 (Z.eqb_neq concurrency 0)) by lia. cbv zeta.
  apply wp_bind. eapply wp_mono.
  { apply wp_memset. rewrite Z2Nat.id by lia. vsolve. }
  intros u m1 [Hm1 _]. rewrite Z2Nat.id in Hm1 by lia. assert (valid m1 region (region_size + 8)) as Hv1 by (by eapply valid_modifies).
  autounfold with layout. do 4 wp_step. rewrite (u32_small concurrency) by lia.
  apply wp_bind, wp_udiv; [lia|]. fold size. rewrite u32_small by lia.
  apply wp_bind. eapply wp_mono.
  { apply (init_cores_spec _ b fresh base (region + 8) size (unit + 2) n); [|done| |done].
    - intros i Hi. apply sf_pools0. lia.
    - rewrite Z2Nat.id by lia. do 2 apply valid_write. apply (valid_sub _ _ _ _ _ Hv1); lia. }
  intros l m2 (-> & Hpools & Hm2). wp_go. split; [done|].
  set (sh := shm_of base region region_size unit concurrency) in *.
  assert (mjoin ((λ _, []) <$> sh_pools sh) = ([] : list Z)) as Hnil.
  { generalize (sh_pools sh). intros ps. by induction ps. }
  split; [|eapply modifies_trans; [eapply modifies_weaken; [exact Hm1|unfold span; lia]|]; eapply modifies_trans; [|eapply modifies_weaken; [exact Hm2|rewrite Z2Nat.id by lia; unfold span; lia]]; msolve].
  exists (po_objects <$> sh_pools sh), ((λ _, []) <$> sh_pools sh). split; [|by rewrite Hnil].
  split; rewrite ?length_fmap; try done. intros c po f k Hpo Hfc Hkc.
  rewrite list_lookup_fmap, Hpo in Hfc, Hkc. simpl in *. injection Hfc as <-. injection Hkc as <-.
  split; [by apply (Hpools c)|]. intros p Hp. set_solver.
Qed.



Lemma shm_init_spec b fresh nprocs base region region_size unit concurrency n m :
  shm_fits base region region_size unit concurrency → valid m region (region_size + 8) →
  let size := region_size / concurrency in
  (size / (unit + 2) | 2 ^ 32) ∨ 2 * (size / (unit + 2)) + Z.of_nat n <= 2 ^ 32 →
  wp (labstor_shmem_allocator_Init b fresh nprocs base region region_size unit concurrency)
     (λ a m', let sh := shm_of base region region_size unit concurrency in
        a = sh_alloc sh ∧ shm_state sh n (shm_objects sh) [] m') m.
Proof.
  intros Hf Hv size Hn. eapply wp_mono; [by apply shm_init_full|]. intros a m' (Ha & Hs & _). done.
Qed.

(** C10. The per-core allocator gives every object to at most one holder:
    after any sequence of Alloc calls on any cores and Free calls, the
    objects that are held are pairwise disjoint, mapped, and among the
    objects laid out by Init; an Alloc returned NULL exactly when the objects
    of all cores were held (it falls back on the other cores when its own
    has none); and every Alloc and Free returns, Free on its first try. *)
Theorem shmem_allocator_correct b fresh nprocs base region region_size unit concurrency ops m :
  shm_fits base region region_size unit concurrency → valid m region (region_size + 8) →
  Forall client_op_ok ops →
  let size := region_size / concurrency in
  (size / (unit + 2) | 2 ^ 32) ∨ 2 * (size / (unit + 2)) + Z.of_nat (length ops) <= 2 ^ 32 →
  wp (a ← labstor_shmem_allocator_Init b fresh nprocs base region region_size unit concurrency;
      client_run (labstor_shmem_allocator_Alloc a) (labstor_shmem_allocator_Free 1 a) ops [] [])
     (λ r m', let objs := shm_objects (shm_of base region region_size unit concurrency) in
        holds_distinct unit objs r.1 m' ∧ log_exact objs r.2) m.
Proof.
  intros Hf Hv Hops size Hn. apply wp_bind.
  eapply wp_mono; [by apply (shm_init_spec b fresh nprocs base region region_size unit concurrency (length ops))|].
  intros a m1 [-> Hr].
  pose proof (client_correct (shm_of base region region_size unit concurrency) ops (length ops)
    _ m1 Hr Hops (le_n _)) as H.
  simpl in H. replace (unit + 2 - 2) with unit in H by lia. exact H.
Qed.

Lemma shmem_allocator_correct_witness :
  wp (a ← labstor_shmem_allocator_Init Userspace (labstor_private_shmem_allocator_Attach 0 0) 1
            4096 4096 160 8 2;
      client_run (labstor_shmem_allocator_Alloc a) (labstor_shmem_allocator_Free 1 a)
        [CAlloc 8 0; CAlloc 8 0; CAlloc 8 0; CFree 1; CAlloc 8 1; CAlloc 8 7; CAlloc 8 7] [] [])
     (λ r m', let objs := shm_objects (shm_of 4096 4096 160 8 2) in
        holds_distinct 8 objs r.1 m' ∧ log_exact objs r.2) (zero_region 4096 168).
Proof.
  apply (shmem_allocator_correct Userspace (labstor_private_shmem_allocator_Attach 0 0) 1 4096 4096 160 8 2).
  - split; try lia. intros i Hi. change (160 / 2) with 80. change (8 + 2) with 10.
    split; try lia. change (80 / 10) with 8. lia.
  - apply (valid_zero_region 4096 168).
  - repeat constructor; simpl; lia.
  - right. vm_compute. discriminate.
Defined.

(** ** The segment allocator *)

Fixpoint segment_run (alloc : labstor_segment_allocator) (sizes : list Z) : list Z :=
  match sizes with
  | [] => []
  | size :: sizes' =>
      let (alloc', p) := labstor_segment_allocator_Alloc alloc size in p :: segment_run alloc' sizes'
  end.

Definition sum (l : list Z) : Z := foldr Z.add 0 l.

(** Each segment starts where the sizes before it end, until the 32-bit offset
    wraps. *)
Lemma segment_run_offsets sizes region off max i p :
  Forall (λ s, 0 <= s) sizes → 0 <= off → off + sum sizes < 2 ^ 32 →
  segment_run {| sa_offset_ := off; sa_max_size_ := max; sa_region_ := region |} sizes !! i = Some p →
  p = region + off + sum (take i sizes).
Proof.
  intros Hs. revert off i. induction Hs as [|s sizes H0 Hs IH]; intros off i Hoff Hsum Hi; [done|].
  simpl in *. assert (0 <= sum sizes) by (clear -Hs; induction Hs; simpl; lia).
  destruct i as [|i]; simpl in *.
  - injection Hi as <-. unfold LABSTOR_REGION_ADD. lia.
  - rewrite u32_small in Hi by lia. apply IH in Hi; lia.
Qed.

(** ** Limits *)

(** [max_size_] does not limit the segment allocator. *)
Lemma segment_alloc_past_end :
  segment_run (labstor_segment_allocator_Init 4096 16) [16; 16] = [4096; 4112].
Proof. reflexivity. Qed.

(** The per-core pools start after the header but divide the whole region:
    the third object of this 82-byte region starts at its end. *)
Lemma shmem_allocator_overruns :
  wp (a ← labstor_shmem_allocator_Init Userspace (labstor_private_shmem_allocator_Attach 0 0) 1
            4096 4096 82 8 1;
      client_run (labstor_shmem_allocator_Alloc a) (labstor_shmem_allocator_Free 1 a)
        [CAlloc 8 0; CAlloc 8 0; CAlloc 8 0] [] [])
     (λ r _, r.1 = [4096 + 82; 4168; 4158]) (zero_region 4096 82).
Proof. vm_compute. reflexivity. Qed.
