(* ===== verification/SecureShmem.v ===== *)
(** * SecureShmem.v: shared memory between the kernel and processes

    labmods/secure_shmem/kernel/secure_shmem_kernel.c: the module that
    reserves regions of kernel memory on behalf of the trusted server, grants
    processes access to them, and maps them with the permission check.

    Region objects are heap objects: [region_map] and the permission list
    hold pointers to them, a freed object is no longer in the heap, and
    following a pointer to it is undefined behaviour ([None]).  What the
    kernel allocators return (an address, or nothing) is an input of each
    operation; [PAGE_SIZE] is a parameter of the kernel. *)

From S2P Require Import Prelude.

Local Open Scope Z_scope.

(** ** State *)

(** [struct shmem_region_info]. *)
Record shmem_region_info := {
  sri_region_id : Z;
  sri_size : Z;
  sri_vmalloc_ptr : Z;
  sri_user_owned : bool
}.

(** [struct shmem_pid_region]: [spr_region] points to a region object. *)
Record shmem_pid_region := {
  spr_pid : Z;
  spr_region : Z;
  spr_is_mapped : bool
}.

(** The globals of the module; the lists are [list_head]s, newest first. *)
Record shmem_state := {
  ss_cur_region_id : Z;
  ss_heap : gmap Z shmem_region_info;
  ss_region_map : list Z;
  ss_pid_regions : list shmem_pid_region;
  ss_locked : bool
}.

Definition shmem_init : shmem_state :=
  {| ss_cur_region_id := 0; ss_heap := ∅; ss_region_map := []; ss_pid_regions := []; ss_locked := false |}.

(** State, undefined behaviour. *)
Definition SM (A : Type) : Type := shmem_state → option (A * shmem_state).

#[export] Instance SM_ret : MRet SM := λ A a s, Some (a, s).
#[export] Instance SM_bind : MBind SM := λ A B f c s,
  match c s with Some (a, s') => f a s' | None => None end.

Definition sm_get : SM shmem_state := λ s, Some (s, s).
Definition sm_put (s : shmem_state) : SM unit := λ _, Some (tt, s).
Definition sm_ub {A} : SM A := λ _, None.

(** [p->field] for a region object. *)
Definition deref_region (p : Z) : SM shmem_region_info := λ s,
  match ss_heap s !! p with Some r => Some (r, s) | None => None end.

(** ** Lockless updates *)

(** [list_for_each_entry] with an early return. *)
Fixpoint find_region_in (l : list Z) (region_id : Z) : SM (option Z) :=
  match l with
  | [] => mret None
  | p :: l' =>
      r ← deref_region p;
      if sri_region_id r =? region_id then mret (Some p) else find_region_in l' region_id
  end.

(** A pointer to the region object, or [None] for NULL. *)
Definition find_shmem_region_nolock (region_id : Z) : SM (option Z) :=
  s ← sm_get; find_region_in (ss_region_map s) region_id.

Fixpoint find_pid_in (l : list shmem_pid_region) (pid region_id : Z) : SM (option shmem_pid_region) :=
  match l with
  | [] => mret None
  | pr :: l' =>
      if spr_pid pr =? pid then
        r ← deref_region (spr_region pr);
        if sri_region_id r =? region_id then mret (Some pr) else find_pid_in l' pid region_id
      else find_pid_in l' pid region_id
  end.

Definition find_pid_region_nolock (pid region_id : Z) : SM (option shmem_pid_region) :=
  s ← sm_get; find_pid_in (ss_pid_regions s) pid region_id.

Section kernel.
Context (PAGE_SIZE : Z).

Definition page_align (size : Z) : Z :=
  if negb (size mod PAGE_SIZE =? 0) then u64 (size + PAGE_SIZE - size mod PAGE_SIZE) else size.

(** [info] and [data]: what kvmalloc and vmalloc return.  The result is the
    address of the memory and the new id. *)
Definition reserve_shmem_nolock (info data : option Z) (size : Z) (user_owned : bool)
    : SM (option (Z * Z)) :=
  let size := page_align size in
  match info with
  | None => mret None
  | Some p =>
      s ← sm_get;
      let id := s32 (ss_cur_region_id s + 1) in
      _ ← sm_put {| ss_cur_region_id := id; ss_heap := ss_heap s; ss_region_map := ss_region_map s;
                    ss_pid_regions := ss_pid_regions s; ss_locked := ss_locked s |};
      match data with
      | None => mret None
      | Some ptr =>
          let r := {| sri_region_id := id; sri_size := size; sri_vmalloc_ptr := ptr;
                      sri_user_owned := user_owned |} in
          s ← sm_get;
          _ ← sm_put {| ss_cur_region_id := ss_cur_region_id s;
                        ss_heap := <[p := r]> (ss_heap s);
                        ss_region_map := p :: ss_region_map s;
                        ss_pid_regions := ss_pid_regions s; ss_locked := ss_locked s |};
          mret (Some (ptr, id))
      end
  end.

(** [mem]: whether kvmalloc of the permission element succeeds. *)
Definition grant_pid_shmem_nolock (mem : bool) (region_id pid : Z) : SM bool :=
  if mem then
    region ← find_shmem_region_nolock region_id;
    match region with
    | None => mret false
    | Some p =>
        s ← sm_get;
        _ ← sm_put {| ss_cur_region_id := ss_cur_region_id s; ss_heap := ss_heap s;
                      ss_region_map := ss_region_map s;
                      ss_pid_regions := {| spr_pid := pid; spr_region := p; spr_is_mapped := false |}
                                        :: ss_pid_regions s;
                      ss_locked := ss_locked s |};
        mret true
    end
  else mret false.

(** [list_del]: the node is unlinked. *)
Definition list_del (p : Z) (l : list Z) : list Z := filter (λ q, q ≠ p) l.

(** The loop that drops the permissions of a region, with the kept ones. *)
Fixpoint drop_pid_regions (l : list shmem_pid_region) (region_id : Z) : SM (list shmem_pid_region) :=
  match l with
  | [] => mret []
  | pr :: l' =>
      r ← deref_region (spr_region pr);
      rest ← drop_pid_regions l' region_id;
      mret (if sri_region_id r =? region_id then rest else pr :: rest)
  end.

(** The region object is freed before the permissions are scanned. *)
Definition free_shmem_region_by_id_nolock (region_id : Z) : SM unit :=
  region ← find_shmem_region_nolock region_id;
  match region with
  | None => mret tt
  | Some p =>
      s ← sm_get;
      _ ← sm_put {| ss_cur_region_id := ss_cur_region_id s; ss_heap := delete p (ss_heap s);
                    ss_region_map := list_del p (ss_region_map s);
                    ss_pid_regions := ss_pid_regions s; ss_locked := ss_locked s |};
      kept ← drop_pid_regions (ss_pid_regions s) region_id;
      s' ← sm_get;
      sm_put {| ss_cur_region_id := ss_cur_region_id s'; ss_heap := ss_heap s';
                ss_region_map := ss_region_map s'; ss_pid_regions := kept; ss_locked := ss_locked s' |}
  end.

Definition free_all_regions_nolock : SM unit :=
  s ← sm_get;
  sm_put {| ss_cur_region_id := ss_cur_region_id s;
            ss_heap := foldr delete (ss_heap s) (ss_region_map s);
            ss_region_map := []; ss_pid_regions := []; ss_locked := ss_locked s |}.

(** The mapping loop: user page [vm_start + i] to kernel page [ptr + i], for
    [i] below [size]; [remap_ok] says whether remap_pfn_range succeeds. *)
Fixpoint mmap_loop (n : nat) (remap_ok : Z → bool) (vm_start ptr i : Z) : list (Z * Z) * bool :=
  match n with
  | O => ([], true)
  | S n' =>
      if remap_ok (vm_start + i) then
        let (l, ok) := mmap_loop n' remap_ok vm_start ptr (i + PAGE_SIZE) in
        ((vm_start + i, ptr + i) :: l, ok)
      else ([], false)
  end.

(** Returns the code and the pages that were mapped.  [private_data] is the
    offset set by lseek; the length of the mapping is not compared with the
    size of the region. *)
Definition labstor_mmap_nolock (remap_ok : Z → bool) (private_data pid vm_start vm_end : Z)
    : SM (Z * list (Z * Z)) :=
  let region_id := s32 private_data in
  let size := u64 (vm_end - vm_start) in
  pid_region ← find_pid_region_nolock pid region_id;
  match pid_region with
  | None => mret (-1, [])
  | Some pr =>
      region ← deref_region (spr_region pr);
      let (pages, ok) := mmap_loop (Z.to_nat ((size + PAGE_SIZE - 1) / PAGE_SIZE)) remap_ok
                           vm_start (sri_vmalloc_ptr region) 0 in
      mret (if ok then 0 else -1, pages)
  end.

(** ** Locked updates *)

Definition set_locked (b : bool) : SM unit :=
  s ← sm_get;
  sm_put {| ss_cur_region_id := ss_cur_region_id s; ss_heap := ss_heap s;
            ss_region_map := ss_region_map s; ss_pid_regions := ss_pid_regions s; ss_locked := b |}.

(** LABSTOR_MMAP_LOCK ... LABSTOR_MMAP_UNLOCK. *)
Definition with_lock {A} (c : SM A) : SM A :=
  _ ← set_locked true; a ← c; _ ← set_locked false; mret a.

(** The object a pointer refers to, read when the lock has been released. *)
Definition labstor_find_shmem_region_info (region_id : Z) : SM (option Z) :=
  with_lock (find_shmem_region_nolock region_id).

Definition labstor_find_shmem_region (region_id : Z) : SM (option Z) :=
  pos ← with_lock (find_shmem_region_nolock region_id);
  match pos with
  | Some p => r ← deref_region p; mret (Some (sri_vmalloc_ptr r))
  | None => mret None
  end.

Definition find_pid_region (pid region_id : Z) : SM (option shmem_pid_region) :=
  with_lock (find_pid_region_nolock pid region_id).

Definition reserve_shmem (info data : option Z) (size : Z) (user_owned : bool) : SM (option (Z * Z)) :=
  with_lock (reserve_shmem_nolock info data size user_owned).

Definition grant_pid_shmem (mem : bool) (region_id pid : Z) : SM bool :=
  with_lock (grant_pid_shmem_nolock mem region_id pid).

Definition free_shmem_region_by_id (region_id : Z) : SM unit :=
  with_lock (free_shmem_region_by_id_nolock region_id).

Definition free_all_regions : SM unit := with_lock free_all_regions_nolock.

Definition labstor_mmap (remap_ok : Z → bool) (private_data pid vm_start vm_end : Z)
    : SM (Z * list (Z * Z)) :=
  with_lock (labstor_mmap_nolock remap_ok private_data pid vm_start vm_end).

(** [file->private_data] after the call. *)
Definition labstor_lseek (private_data offset : Z) : Z := offset.

(** ** Requests of the trusted server *)

Inductive secure_shmem_request :=
| RESERVE_SHMEM (size : Z) (user_owned : bool)
| GRANT_PID_SHMEM (pid region_id : Z)
| FREE_SHMEM (region_id : Z)
| INVALID_OP.

(** What the kernel allocators answer while a request is processed. *)
Record alloc_env := { ae_info : option Z; ae_data : option Z }.

(** The code sent back to the server. *)
Definition shmem_process_request_fn_netlink (env : alloc_env) (rq : secure_shmem_request) : SM Z :=
  match rq with
  | RESERVE_SHMEM size user_owned =>
      r ← reserve_shmem (ae_info env) (ae_data env) size user_owned;
      mret (match r with Some (ptr, id) => if ptr =? 0 then -1 else id | None => -1 end)
  | GRANT_PID_SHMEM pid region_id =>
      ok ← grant_pid_shmem (match ae_info env with Some _ => true | None => false end) region_id pid;
      mret (if ok : bool then 0 else -1)
  | FREE_SHMEM region_id => _ ← free_shmem_region_by_id region_id; mret 0
  | INVALID_OP => mret (-1)
  end.
End kernel.

(** ** Specification: who may map what

    A region by its id (size and address of its memory), and the set of
    granted (process, region) pairs. *)

Record shmem_abs := {
  sa_live : gmap Z (Z * Z);
  sa_perms : gset (Z * Z);
  sa_next : Z
}.

Definition shmem_abs_init : shmem_abs := {| sa_live := ∅; sa_perms := ∅; sa_next := 1 |}.

(** The effect of a request, and the code it returns.  Freeing a region that
    some process still holds a permission for is not allowed. *)
Definition shmem_spec_step (PAGE_SIZE : Z) (env : alloc_env) (st : shmem_abs) (rq : secure_shmem_request)
    : option (shmem_abs * Z) :=
  match rq with
  | RESERVE_SHMEM size user_owned =>
      match ae_info env, ae_data env with
      | Some _, Some ptr =>
          Some ({| sa_live := <[sa_next st := (page_align PAGE_SIZE size, ptr)]> (sa_live st);
                   sa_perms := sa_perms st; sa_next := sa_next st + 1 |}, sa_next st)
      | Some _, None =>
          Some ({| sa_live := sa_live st; sa_perms := sa_perms st; sa_next := sa_next st + 1 |}, -1)
      | None, _ => Some (st, -1)
      end
  | GRANT_PID_SHMEM pid region_id =>
      match ae_info env, sa_live st !! region_id with
      | Some _, Some _ =>
          Some ({| sa_live := sa_live st; sa_perms := {[(pid, region_id)]} ∪ sa_perms st;
                   sa_next := sa_next st |}, 0)
      | _, _ => Some (st, -1)
      end
  | FREE_SHMEM region_id =>
      match sa_live st !! region_id with
      | Some _ =>
          if decide (set_Forall (λ x, x.2 ≠ region_id) (sa_perms st)) then
            Some ({| sa_live := delete region_id (sa_live st); sa_perms := sa_perms st;
                     sa_next := sa_next st |}, 0)
          else None
      | None => Some (st, 0)
      end
  | INVALID_OP => Some (st, -1)
  end.

(** A permission of the code, as a pair. *)
Definition perm_of (heap : gmap Z shmem_region_info) (pr : shmem_pid_region) (x : Z * Z) : Prop :=
  ∃ r, heap !! spr_region pr = Some r ∧ x = (spr_pid pr, sri_region_id r).

Record shmem_rel (st : shmem_abs) (s : shmem_state) : Prop := {
  sr_next : ss_cur_region_id s + 1 = sa_next st;
  sr_dom : ∀ p, p ∈ ss_region_map s ↔ is_Some (ss_heap s !! p);
  sr_live : ∀ p r, ss_heap s !! p = Some r →
    sa_live st !! sri_region_id r = Some (sri_size r, sri_vmalloc_ptr r);
  sr_exists : ∀ id v, sa_live st !! id = Some v →
    id < sa_next st ∧ ∃ p r, ss_heap s !! p = Some r ∧ sri_region_id r = id;
  sr_unique : ∀ p q r r', ss_heap s !! p = Some r → ss_heap s !! q = Some r' →
    sri_region_id r = sri_region_id r' → p = q;
  sr_valid : ∀ pr, pr ∈ ss_pid_regions s → is_Some (ss_heap s !! spr_region pr);
  sr_perms : ∀ x, x ∈ sa_perms st ↔ ∃ pr, pr ∈ ss_pid_regions s ∧ perm_of (ss_heap s) pr x
}.

Lemma run_sm_bind {A B} (c : SM A) (k : A → SM B) a s s' :
  c s = Some (a, s') → (c ≫= k) s = k a s'.
Proof. intros H. unfold mbind, SM_bind. by rewrite H. Qed.

Lemma run_sm_bind_ub {A B} (c : SM A) (k : A → SM B) s : c s = None → (c ≫= k) s = None.
Proof. intros H. unfold mbind, SM_bind. by rewrite H. Qed.

(** ** The searches *)

Lemma find_region_in_spec l id s :
  (∀ p, p ∈ l → is_Some (ss_heap s !! p)) →
  ∃ res, find_region_in l id s = Some (res, s) ∧
    match res with
    | Some p => p ∈ l ∧ ∃ r, ss_heap s !! p = Some r ∧ sri_region_id r = id
    | None => ∀ p r, p ∈ l → ss_heap s !! p = Some r → sri_region_id r ≠ id
    end.
Proof.
  induction l as [|p l IH]; intros Hl; simpl.
  - exists None. split; [done|]. intros p r Hp. by apply elem_of_nil in Hp.
  - destruct (Hl p) as [r Hr]; [set_solver|].
    rewrite (run_sm_bind _ _ r s s) by (unfold deref_region; by rewrite Hr).
    destruct (Z.eqb_spec (sri_region_id r) id) as [E|E].
    + exists (Some p). split; [done|]. split; [set_solver|by exists r].
    + destruct IH as (res & Hres & Hspec); [set_solver|]. exists res. split; [done|].
      destruct res as [q|].
      * destruct Hspec as [Hq Hr']. split; [set_solver|done].
      * intros q r' [->|Hq]%elem_of_cons Hr'; [by simplify_eq|by eapply Hspec].
Qed.

Lemma find_pid_in_spec l pid id s :
  (∀ pr, pr ∈ l → is_Some (ss_heap s !! spr_region pr)) →
  ∃ res, find_pid_in l pid id s = Some (res, s) ∧
    match res with
    | Some pr => pr ∈ l ∧ perm_of (ss_heap s) pr (pid, id)
    | None => ∀ pr, pr ∈ l → ¬ perm_of (ss_heap s) pr (pid, id)
    end.
Proof.
  induction l as [|pr l IH]; intros Hl; simpl.
  - exists None. split; [done|]. intros pr Hp. by apply elem_of_nil in Hp.
  - destruct IH as (res & Hres & Hspec); [set_solver|].
    destruct (Hl pr) as [r Hr]; [set_solver|].
    assert (¬ perm_of (ss_heap s) pr (pid, id) → find_pid_in l pid id s = Some (res, s) →
      ∃ res0, find_pid_in l pid id s = Some (res0, s) ∧
      match res0 with
      | Some pr' => pr' ∈ pr :: l ∧ perm_of (ss_heap s) pr' (pid, id)
      | None => ∀ pr', pr' ∈ pr :: l → ¬ perm_of (ss_heap s) pr' (pid, id)
      end) as Hskip.
    { intros Hno _. exists res. split; [done|]. destruct res as [q|].
      - destruct Hspec as [Hq Hq']. split; [set_solver|done].
      - intros q [->|Hq]%elem_of_cons; [done|by apply Hspec]. }
    destruct (Z.eqb_spec (spr_pid pr) pid) as [Ep|Ep].
    + rewrite (run_sm_bind _ _ r s s) by (unfold deref_region; by rewrite Hr).
      destruct (Z.eqb_spec (sri_region_id r) id) as [E|E].
      * exists (Some pr). split; [done|]. split; [set_solver|]. exists r. split; [done|]. by subst.
      * apply Hskip; [|done]. intros (r' & Hr' & [= ? ?]). congruence.
    + apply Hskip; [|done]. intros (r' & Hr' & [= ? ?]). congruence.
Qed.

Lemma find_region_rel st s id :
  shmem_rel st s →
  ∃ res, find_shmem_region_nolock id s = Some (res, s) ∧
    match res with
    | Some p => ∃ r, ss_heap s !! p = Some r ∧ sri_region_id r = id ∧ is_Some (sa_live st !! id)
    | None => sa_live st !! id = None
    end.
Proof.
  intros []. destruct (find_region_in_spec (ss_region_map s) id s) as (res & Hres & Hspec).
  { intros p Hp. by apply sr_dom0. }
  exists res. split; [exact Hres|]. destruct res as [p|].
  - destruct Hspec as (Hp & r & Hr & E). exists r. split; [done|]. split; [done|].
    rewrite <-E, (sr_live0 _ _ Hr). eauto.
  - destruct (sa_live st !! id) as [v|] eqn:E; [|done].
    destruct (sr_exists0 _ _ E) as (_ & p & r & Hr & Hid). destruct (Hspec p r); [|done..].
    apply sr_dom0. eauto.
Qed.

(** ** The permission check *)

Lemma find_pid_rel st s pid id :
  shmem_rel st s →
  ∃ res, find_pid_region_nolock pid id s = Some (res, s) ∧
    match res with
    | Some pr => (pid, id) ∈ sa_perms st ∧ ∃ r, ss_heap s !! spr_region pr = Some r ∧
        sa_live st !! id = Some (sri_size r, sri_vmalloc_ptr r)
    | None => (pid, id) ∉ sa_perms st
    end.
Proof.
  intros []. destruct (find_pid_in_spec (ss_pid_regions s) pid id s) as (res & Hres & Hspec); [done|].
  exists res. split; [exact Hres|]. destruct res as [pr|].
  - destruct Hspec as [Hpr Hperm]. split; [apply sr_perms0; eauto|].
    destruct Hperm as (r & Hr & [= _ ->]). exists r. split; [done|]. by apply sr_live0 with (spr_region pr).
  - intros (pr & Hpr & Hperm)%sr_perms0. by eapply Hspec.
Qed.

(** The pages [labstor_mmap] maps: consecutive, from the region's memory. *)
Lemma mmap_loop_pages PAGE_SIZE n remap_ok vm_start ptr i k u v :
  (mmap_loop PAGE_SIZE n remap_ok vm_start ptr i).1 !! k = Some (u, v) →
  u = vm_start + (i + PAGE_SIZE * Z.of_nat k) ∧ v = ptr + (i + PAGE_SIZE * Z.of_nat k).
Proof.
  revert i k. induction n as [|n IH]; intros i k H; simpl in H; [done|].
  destruct (remap_ok (vm_start + i)); [|done].
  specialize (IH (i + PAGE_SIZE)). destruct (mmap_loop _ n _ _ _ _) as [l ok]. simpl in *.
  destruct k as [|k]; simpl in H.
  - injection H as <- <-. lia.
  - apply IH in H. lia.
Qed.

Lemma mmap_loop_all PAGE_SIZE n remap_ok vm_start ptr i :
  (mmap_loop PAGE_SIZE n remap_ok vm_start ptr i).2 = true →
  length (mmap_loop PAGE_SIZE n remap_ok vm_start ptr i).1 = n.
Proof.
  revert i. induction n as [|n IH]; intros i H; simpl in *; [done|].
  destruct (remap_ok (vm_start + i)); [|done]. specialize (IH (i + PAGE_SIZE)).
  destruct (mmap_loop _ n _ _ _ _) as [l ok]. simpl in *. by rewrite IH.
Qed.

(** ** Refinement *)

Definition with_locked (b : bool) (s : shmem_state) : shmem_state :=
  {| ss_cur_region_id := ss_cur_region_id s; ss_heap := ss_heap s;
     ss_region_map := ss_region_map s; ss_pid_regions := ss_pid_regions s; ss_locked := b |}.

Lemma with_lock_run {A} (c : SM A) s :
  with_lock c s = match c (with_locked true s) with
                  | Some (a, s') => Some (a, with_locked false s')
                  | None => None
                  end.
Proof. unfold with_lock, mbind, SM_bind. simpl. fold (with_locked true s). by destruct (c _) as [[a s']|]. Qed.

Lemma rel_locked st s b : shmem_rel st s → shmem_rel st (with_locked b s).
Proof. intros []. by split. Qed.

(** kvmalloc returns unused memory and vmalloc no null pointer. *)
Definition env_fresh (env : alloc_env) (s : shmem_state) : Prop :=
  (∀ p, ae_info env = Some p → ss_heap s !! p = None) ∧ (∀ p, ae_data env = Some p → p ≠ 0).

Section refinement.
Context (PAGE_SIZE : Z) (st : shmem_abs) (s : shmem_state).
Hypothesis Hrel : shmem_rel st s.

Lemma rel_new_region p size ptr user_owned :
  0 < sa_next st < 2 ^ 31 - 1 → ss_heap s !! p = None →
  shmem_rel
    {| sa_live := <[sa_next st := (size, ptr)]> (sa_live st); sa_perms := sa_perms st;
       sa_next := sa_next st + 1 |}
    {| ss_cur_region_id := sa_next st;
       ss_heap := <[p := {| sri_region_id := sa_next st; sri_size := size; sri_vmalloc_ptr := ptr;
                            sri_user_owned := user_owned |}]> (ss_heap s);
       ss_region_map := p :: ss_region_map s; ss_pid_regions := ss_pid_regions s; ss_locked := true |}.
Proof.
  intros Hnext Hp. destruct Hrel.
  assert (∀ q r, ss_heap s !! q = Some r → sri_region_id r < sa_next st) as Hlt.
  { intros q r Hr. by apply sr_live0, sr_exists0 in Hr as [? _]. }
  split; simpl.
  - done.
  - intros q. rewrite elem_of_cons, sr_dom0. destruct (decide (q = p)) as [->|Hne].
    + rewrite lookup_insert_eq. split; [by eauto|by left].
    + rewrite lookup_insert_ne by done. split; [intros [|]; done|by right].
  - intros q r [[<- <-]|[Hne Hr]]%lookup_insert_Some; simpl.
    + by rewrite lookup_insert_eq.
    + rewrite lookup_insert_ne; [by eapply sr_live0|]. specialize (Hlt _ _ Hr). lia.
  - intros id v [[<- <-]|[Hne Hv]]%lookup_insert_Some.
    + split; [lia|]. exists p. eexists. by rewrite lookup_insert_eq.
    + destruct (sr_exists0 _ _ Hv) as (? & q & r & Hr & Hid). split; [lia|]. exists q, r.
      rewrite lookup_insert_ne; [done|]. intros ->. congruence.
  - intros q q' r r' [[<- <-]|[Hne Hr]]%lookup_insert_Some [[<- <-]|[Hne' Hr']]%lookup_insert_Some; simpl.
    + done.
    + specialize (Hlt _ _ Hr'). lia.
    + specialize (Hlt _ _ Hr). lia.
    + intros E. by eapply sr_unique0.
  - intros pr Hpr. destruct (sr_valid0 _ Hpr) as [r Hr].
    rewrite lookup_insert_ne; [by eauto|]. intros E. congruence.
  - intros x. rewrite sr_perms0. split; intros (pr & Hpr & r & Hr & ->); exists pr; (split; [done|]);
      exists r; (split; [|done]).
    + rewrite lookup_insert_ne; [done|]. intros E. congruence.
    + destruct (sr_valid0 _ Hpr) as [r0 Hr0].
      rewrite lookup_insert_ne in Hr; [done|]. intros E. congruence.
Qed.

Lemma rel_new_perm p r pid :
  ss_heap s !! p = Some r →
  shmem_rel
    {| sa_live := sa_live st; sa_perms := {[(pid, sri_region_id r)]} ∪ sa_perms st; sa_next := sa_next st |}
    {| ss_cur_region_id := ss_cur_region_id s; ss_heap := ss_heap s; ss_region_map := ss_region_map s;
       ss_pid_regions := {| spr_pid := pid; spr_region := p; spr_is_mapped := false |} :: ss_pid_regions s;
       ss_locked := true |}.
Proof.
  intros Hp. destruct Hrel. split; simpl; try done.
  - intros pr [->|Hpr]%elem_of_cons; simpl; eauto.
  - intros x. rewrite elem_of_union, elem_of_singleton, sr_perms0. split.
    + intros [->|(pr & Hpr & Hx)].
      * eexists. split; [left|]. exists r. done.
      * exists pr. split; [set_solver|done].
    + intros (pr & [->|Hpr]%elem_of_cons & Hx); [left|right; eauto].
      destruct Hx as (r' & Hr' & ->). simpl in *. by simplify_eq.
Qed.

(** Freeing a region nobody holds a permission for. *)
Lemma drop_none l p :
  ss_pid_regions s = l → (∀ pr, pr ∈ l → spr_region pr ≠ p) →
  ∀ id s', ss_heap s' = delete p (ss_heap s) →
  (∀ q r, delete p (ss_heap s) !! q = Some r → sri_region_id r ≠ id) →
  ∀ l', l' ⊆ l → drop_pid_regions l' id s' = Some (l', s').
Proof.
  intros Hl Hne id s' Hheap Hid l'. induction l' as [|pr l' IH]; intros Hsub; [done|]. simpl.
  destruct (sr_valid _ _ Hrel pr) as [r Hr]; [rewrite Hl; set_solver|].
  assert (ss_heap s' !! spr_region pr = Some r) as Hr'.
  { rewrite Hheap, lookup_delete_ne; [done|]. intros E. apply (Hne pr); [set_solver|done]. }
  rewrite (run_sm_bind _ _ r s' s') by (unfold deref_region; by rewrite Hr').
  rewrite (run_sm_bind _ _ l' s' s') by (apply IH; set_solver).
  rewrite (proj2 (Z.eqb_neq (sri_region_id r) id)); [done|]. apply (Hid (spr_region pr)).
  by rewrite <-Hheap.
Qed.

(** Scanning a permission whose region object was freed. *)
Lemma drop_freed l id s' :
  (∃ pr, pr ∈ l ∧ ss_heap s' !! spr_region pr = None) → drop_pid_regions l id s' = None.
Proof.
  induction l as [|pr l IH]; intros (q & Hq & Hnone); [by apply elem_of_nil in Hq|]. simpl.
  destruct (ss_heap s' !! spr_region pr) as [r|] eqn:Er.
  - rewrite (run_sm_bind _ _ r s' s') by (unfold deref_region; by rewrite Er).
    unfold mbind, SM_bind. rewrite IH; [done|]. exists q. split; [|done].
    apply elem_of_cons in Hq as [->|]; [congruence|done].
  - unfold mbind, SM_bind, deref_region. by rewrite Er.
Qed.

Lemma rel_free_region p r :
  ss_heap s !! p = Some r → (∀ pr, pr ∈ ss_pid_regions s → spr_region pr ≠ p) →
  shmem_rel
    {| sa_live := delete (sri_region_id r) (sa_live st); sa_perms := sa_perms st; sa_next := sa_next st |}
    {| ss_cur_region_id := ss_cur_region_id s; ss_heap := delete p (ss_heap s);
       ss_region_map := list_del p (ss_region_map s); ss_pid_regions := ss_pid_regions s;
       ss_locked := true |}.
Proof.
  intros Hp Hno. destruct Hrel. split; simpl; try done.
  - intros q. unfold list_del. rewrite list_elem_of_filter, sr_dom0.
    destruct (decide (q = p)) as [->|Hne].
    + rewrite lookup_delete_eq. split; [by intros [? _]|by intros [? ?]].
    + rewrite lookup_delete_ne by done. split; [by intros [_ ?]|done].
  - intros q r' [Hne Hr']%lookup_delete_Some. rewrite lookup_delete_ne; [by eapply sr_live0|].
    intros E. apply Hne. by eapply sr_unique0.
  - intros id v [Hne Hv]%lookup_delete_Some. destruct (sr_exists0 _ _ Hv) as (? & q & r' & Hr' & Hid).
    split; [done|]. exists q, r'. split; [|done]. rewrite lookup_delete_ne; [done|].
    intros ->. congruence.
  - intros q q' r1 r2 [_ H1]%lookup_delete_Some [_ H2]%lookup_delete_Some. by eapply sr_unique0.
  - intros pr Hpr. rewrite lookup_delete_ne; [by apply sr_valid0|]. intros E. by apply (Hno pr).
  - intros x. rewrite sr_perms0. split; intros (pr & Hpr & r' & Hr' & ->); exists pr; (split; [done|]);
      exists r'; (split; [|done]).
    + rewrite lookup_delete_ne; [done|]. intros E. by apply (Hno pr).
    + by apply lookup_delete_Some in Hr' as [_ ?].
Qed.
End refinement.

Lemma rel_unlock st s cur heap rm prs :
  shmem_rel st {| ss_cur_region_id := cur; ss_heap := heap; ss_region_map := rm;
                  ss_pid_regions := prs; ss_locked := true |} →
  shmem_rel st (with_locked false {| ss_cur_region_id := cur; ss_heap := heap; ss_region_map := rm;
                  ss_pid_regions := prs; ss_locked := s |}).
Proof. intros []. by split. Qed.

(** One request: the code does what the specification says, and is undefined
    exactly where the specification does not allow the request. *)
Definition step_agrees (PAGE_SIZE : Z) (env : alloc_env) (st : shmem_abs) (s : shmem_state)
    (rq : secure_shmem_request) : Prop :=
  match shmem_spec_step PAGE_SIZE env st rq with
  | Some (st', code) => ∃ s', shmem_process_request_fn_netlink PAGE_SIZE env rq s = Some (code, s') ∧
      shmem_rel st' s'
  | None => shmem_process_request_fn_netlink PAGE_SIZE env rq s = None
  end.

Lemma reserve_agrees PAGE_SIZE env st s size user_owned :
  shmem_rel st s → 0 < sa_next st < 2 ^ 31 - 1 → env_fresh env s →
  step_agrees PAGE_SIZE env st s (RESERVE_SHMEM size user_owned).
Proof.
  intros Hrel Hnext [Hinfo Hdata]. unfold step_agrees. simpl.
  unfold mbind, SM_bind, reserve_shmem. rewrite with_lock_run. unfold reserve_shmem_nolock.
  destruct (ae_info env) as [p|]; simpl; [destruct (ae_data env) as [ptr|]; simpl|].
  - specialize (Hinfo p eq_refl). specialize (Hdata ptr eq_refl).
    rewrite (proj2 (Z.eqb_neq ptr 0)) by done. rewrite (sr_next _ _ Hrel), s32_small by lia.
    eexists. split; [done|]. apply rel_unlock. by apply rel_new_region.
  - eexists. split; [done|]. destruct Hrel. split; simpl; try done.
    + rewrite sr_next0, s32_small; lia.
    + intros id v Hv. destruct (sr_exists0 _ _ Hv) as [? ?]. split; [lia|done].
  - eexists. split; [done|]. by do 2 apply rel_locked.
Qed.

Lemma grant_agrees PAGE_SIZE env st s pid region_id :
  shmem_rel st s → step_agrees PAGE_SIZE env st s (GRANT_PID_SHMEM pid region_id).
Proof.
  intros Hrel. unfold step_agrees. simpl. unfold mbind, SM_bind, grant_pid_shmem.
  rewrite with_lock_run. unfold grant_pid_shmem_nolock.
  destruct (ae_info env) as [a|]; simpl; [|eexists; split; [done|]; by do 2 apply rel_locked].
  destruct (find_region_rel st (with_locked true s) region_id) as (res & Hres & Hspec);
    [by apply rel_locked|].
  rewrite (run_sm_bind _ _ _ _ _ Hres). destruct res as [p|].
  - destruct Hspec as (r & Hr & Hid & [v Hv]). rewrite Hv. simpl. eexists. split; [done|].
    apply rel_unlock. rewrite <-Hid. by apply rel_new_perm.
  - rewrite Hspec. eexists. split; [done|]. by do 2 apply rel_locked.
Qed.

Lemma perm_region_ne st s p r pr :
  shmem_rel st s → ss_heap s !! p = Some r → pr ∈ ss_pid_regions s →
  spr_region pr = p ↔ (spr_pid pr, sri_region_id r) ∈ sa_perms st ∧ ∃ r', ss_heap s !! spr_region pr = Some r' ∧
    sri_region_id r' = sri_region_id r.
Proof.
  intros [] Hp Hpr. split.
  - intros E. split; [apply sr_perms0; exists pr; split; [done|]; exists r; by rewrite E|].
    exists r. by rewrite E.
  - intros (_ & r' & Hr' & E). by eapply sr_unique0.
Qed.

Lemma free_agrees PAGE_SIZE env st s region_id :
  shmem_rel st s → step_agrees PAGE_SIZE env st s (FREE_SHMEM region_id).
Proof.
  intros Hrel. unfold step_agrees. simpl.
  destruct (find_region_rel st (with_locked true s) region_id) as (res & Hres & Hspec);
    [by apply rel_locked|].
  destruct res as [p|].
  2: { rewrite Hspec. eexists. split; [|by apply rel_locked, rel_locked].
    unfold mbind at 1, SM_bind at 1, free_shmem_region_by_id. rewrite with_lock_run.
    unfold free_shmem_region_by_id_nolock. by rewrite (run_sm_bind _ _ _ _ _ Hres). }
  destruct Hspec as (r & Hr & Hid & [v Hv]). rewrite Hv. simpl in Hr.
  assert (∀ q r', delete p (ss_heap s) !! q = Some r' → sri_region_id r' ≠ region_id) as Hother.
  { intros q r' [Hne Hr']%lookup_delete_Some E. apply Hne.
    eapply (sr_unique _ _ Hrel); [done..|]. by rewrite Hid. }
  set (s1 := {| ss_cur_region_id := ss_cur_region_id s; ss_heap := delete p (ss_heap s);
     ss_region_map := list_del p (ss_region_map s); ss_pid_regions := ss_pid_regions s;
     ss_locked := true |}).
  case_decide as Hperm;
    [eexists; split|]; try (unfold mbind at 1, SM_bind at 1, free_shmem_region_by_id;
      rewrite with_lock_run; unfold free_shmem_region_by_id_nolock;
      rewrite (run_sm_bind _ _ _ _ _ Hres); unfold mbind at 1 2, SM_bind at 1 2, sm_get, sm_put; simpl;
      fold s1).
  - assert (∀ pr, pr ∈ ss_pid_regions s → spr_region pr ≠ p) as Hno.
    { intros pr Hpr E. apply (perm_region_ne st s p r pr Hrel Hr Hpr) in E as [Hin _].
      apply Hperm in Hin. simpl in Hin. by rewrite Hid in Hin. }
    rewrite (run_sm_bind _ _ _ _ _ (drop_none st s Hrel _ p eq_refl Hno region_id s1 eq_refl Hother
      (ss_pid_regions s) ltac:(done))). done.
  - assert (∀ pr, pr ∈ ss_pid_regions s → spr_region pr ≠ p) as Hno.
    { intros pr Hpr E. apply (perm_region_ne st s p r pr Hrel Hr Hpr) in E as [Hin _].
      apply Hperm in Hin. simpl in Hin. by rewrite Hid in Hin. }
    apply rel_locked. rewrite <-Hid. exact (rel_free_region st s Hrel p r Hr Hno).
  - rewrite run_sm_bind_ub; [done|]. apply drop_freed. simpl.
    apply not_set_Forall_Exists in Hperm; [|apply _].
    destruct Hperm as (x & Hx & E). apply dec_stable in E.
    apply (sr_perms _ _ Hrel) in Hx as (pr & Hpr & r' & Hr' & ->).
    exists pr. split; [done|]. simpl in E.
    rewrite (sr_unique _ _ Hrel (spr_region pr) p r' r); [by rewrite lookup_delete_eq|done..|congruence].
Qed.

Lemma shmem_step_agrees PAGE_SIZE env st s rq :
  shmem_rel st s → 0 < sa_next st < 2 ^ 31 - 1 → env_fresh env s → step_agrees PAGE_SIZE env st s rq.
Proof.
  intros Hrel Hnext Henv. destruct rq.
  - by apply reserve_agrees.
  - by apply grant_agrees.
  - by apply free_agrees.
  - unfold step_agrees. simpl. by exists s.
Qed.

(** ** Histories *)

(** The states the module reaches by processing requests, with the requests
    and the codes it answered; region ids do not wrap. *)
Inductive shmem_reach (PAGE_SIZE : Z) : list (secure_shmem_request * Z) → shmem_state → Prop :=
| reach_init : shmem_reach PAGE_SIZE [] shmem_init
| reach_step h s env rq code s' :
    shmem_reach PAGE_SIZE h s → env_fresh env s → ss_cur_region_id s < 2 ^ 31 - 2 →
    shmem_process_request_fn_netlink PAGE_SIZE env rq s = Some (code, s') →
    shmem_reach PAGE_SIZE (h ++ [(rq, code)]) s'.

(** The specification state of a history: its permissions are exactly the
    grants that were answered with 0. *)
Record history_rel (h : list (secure_shmem_request * Z)) (st : shmem_abs) (s : shmem_state) : Prop := {
  hr_rel : shmem_rel st s;
  hr_next : 0 < sa_next st;
  hr_perms : ∀ pid id, (pid, id) ∈ sa_perms st ↔ (GRANT_PID_SHMEM pid id, 0) ∈ h;
  hr_ids : ∀ size uo code, (RESERVE_SHMEM size uo, code) ∈ h → code < sa_next st;
  hr_live : ∀ id v, sa_live st !! id = Some v → 0 < id
}.

Lemma spec_step_next PAGE_SIZE env st rq st' code :
  shmem_spec_step PAGE_SIZE env st rq = Some (st', code) → 0 < sa_next st → sa_next st <= sa_next st'.
Proof. intros H Hn. destruct rq; simpl in H; repeat case_match; simplify_eq; simpl; lia. Qed.

Lemma spec_step_perms PAGE_SIZE env st rq st' code pid id :
  shmem_spec_step PAGE_SIZE env st rq = Some (st', code) →
  (pid, id) ∈ sa_perms st' ↔ (pid, id) ∈ sa_perms st ∨ (rq = GRANT_PID_SHMEM pid id ∧ code = 0).
Proof. intros H. destruct rq; simpl in H; repeat case_match; simplify_eq; simpl; set_solver. Qed.

Lemma spec_step_live PAGE_SIZE env st rq st' code :
  shmem_spec_step PAGE_SIZE env st rq = Some (st', code) → 0 < sa_next st →
  (∀ id v, sa_live st !! id = Some v → 0 < id) → ∀ id v, sa_live st' !! id = Some v → 0 < id.
Proof.
  intros H Hn Hlive id v Hid. destruct rq; simpl in H; repeat case_match; simplify_eq; simpl in Hid; eauto.
  - apply lookup_insert_Some in Hid as [[<- _]|[_ ?]]; eauto.
  - apply lookup_delete_Some in Hid as [_ ?]. eauto.
Qed.

Lemma spec_step_ids PAGE_SIZE env st rq st' code size uo :
  shmem_spec_step PAGE_SIZE env st rq = Some (st', code) → 0 < sa_next st →
  rq = RESERVE_SHMEM size uo → code < sa_next st'.
Proof. intros H Hn ->. simpl in H. repeat case_match; simplify_eq; simpl; lia. Qed.

Lemma reach_history PAGE_SIZE h s :
  shmem_reach PAGE_SIZE h s → ∃ st, history_rel h st s.
Proof.
  induction 1 as [|h s env rq code s' Hreach (st & [Hrel Hnext Hperms Hids Hlive]) Henv Hcur Hrun].
  - exists shmem_abs_init. split; simpl; try done.
    + split; simpl; try done; try set_solver. intros p. split; [set_solver|by intros [? ?]].
    + set_solver.
    + set_solver.
  - pose proof (sr_next _ _ Hrel) as Hn.
    pose proof (shmem_step_agrees PAGE_SIZE env st s rq Hrel ltac:(lia) Henv) as Hstep.
    unfold step_agrees in Hstep. destruct (shmem_spec_step PAGE_SIZE env st rq) as [[st' code']|] eqn:Espec;
      [|congruence].
    destruct Hstep as (s1 & Hrun' & Hrel'). rewrite Hrun in Hrun'. injection Hrun' as <- <-.
    exists st'. pose proof (spec_step_next _ _ _ _ _ _ Espec Hnext). split.
    + done.
    + lia.
    + intros pid id. rewrite (spec_step_perms _ _ _ _ _ _ pid id Espec), Hperms.
      rewrite elem_of_app, list_elem_of_singleton. naive_solver.
    + intros size uo c [Hin|Hin%list_elem_of_singleton]%elem_of_app.
      * specialize (Hids _ _ _ Hin). lia.
      * simplify_eq. by eapply spec_step_ids.
    + by eapply spec_step_live.
Qed.

(** ** Theorems *)

(** C11. Access control: whatever requests the module has processed, a process
    that maps a region gets pages if and only if the trusted server granted
    that process that region before (and was told so); without a grant the
    call fails with -1 and maps nothing, and with one every page it maps is
    the corresponding page of the memory of a live region of that id. *)
Theorem shmem_access_control PAGE_SIZE h s remap_ok private_data pid vm_start vm_end :
  shmem_reach PAGE_SIZE h s →
  let id := s32 private_data in
  ∃ code pages,
    labstor_mmap PAGE_SIZE remap_ok private_data pid vm_start vm_end s = Some ((code, pages), with_locked false s) ∧
    ((GRANT_PID_SHMEM pid id, 0) ∉ h → code = -1 ∧ pages = []) ∧
    ((GRANT_PID_SHMEM pid id, 0) ∈ h → ∃ p r, ss_heap s !! p = Some r ∧ sri_region_id r = id ∧
       (∀ k u v, pages !! k = Some (u, v) →
          u = vm_start + PAGE_SIZE * Z.of_nat k ∧ v = sri_vmalloc_ptr r + PAGE_SIZE * Z.of_nat k) ∧
       (code = 0 → length pages = Z.to_nat ((u64 (vm_end - vm_start) + PAGE_SIZE - 1) / PAGE_SIZE))).
Proof.
  intros Hreach id. destruct (reach_history _ _ _ Hreach) as (st & [Hrel _ Hperms _ _]).
  unfold labstor_mmap. rewrite with_lock_run. unfold labstor_mmap_nolock. fold id.
  destruct (find_pid_in_spec (ss_pid_regions s) pid id (with_locked true s)) as (res & Hres & Hspec).
  { intros pr Hpr. by apply (sr_valid _ _ Hrel). }
  rewrite (run_sm_bind (find_pid_region_nolock pid id) _ res _ (with_locked true s) Hres).
  destruct res as [pr|].
  - destruct Hspec as (Hpr & r & Hr & [= Hp Hid]). simpl in Hr.
    rewrite (run_sm_bind _ _ r _ (with_locked true s)) by (unfold deref_region; simpl; by rewrite Hr).
    set (n := Z.to_nat _). pose proof (mmap_loop_all PAGE_SIZE n remap_ok vm_start (sri_vmalloc_ptr r) 0) as Hall.
    pose proof (mmap_loop_pages PAGE_SIZE n remap_ok vm_start (sri_vmalloc_ptr r) 0) as Hpages.
    destruct (mmap_loop PAGE_SIZE n remap_ok vm_start (sri_vmalloc_ptr r) 0) as [pages ok]. simpl in *.
    eexists _, _. split; [reflexivity|]. split.
    + intros Hno. destruct Hno. apply Hperms, (sr_perms _ _ Hrel). exists pr. split; [done|].
      exists r. by rewrite Hid, <-Hp.
    + intros _. exists (spr_region pr), r. split; [done|]. split; [done|]. split.
      * intros k u v Hk. apply Hpages in Hk. lia.
      * destruct ok; [by intros _; apply Hall|done].
  - exists (-1), []. split; [done|]. split; [done|]. intros Hin. exfalso.
    apply Hperms, (sr_perms _ _ Hrel) in Hin as (pr & Hpr & Hperm). by eapply (Hspec pr).
Qed.

Definition wit_env : alloc_env := {| ae_info := Some 1000; ae_data := Some 65536 |}.
Definition wit_history : list (secure_shmem_request * Z) :=
  [(RESERVE_SHMEM 100 true, 1); (GRANT_PID_SHMEM 7 1, 0)].
Definition wit_state : shmem_state :=
  {| ss_cur_region_id := 1;
     ss_heap := {[1000 := {| sri_region_id := 1; sri_size := 4096; sri_vmalloc_ptr := 65536;
                             sri_user_owned := true |}]};
     ss_region_map := [1000];
     ss_pid_regions := [{| spr_pid := 7; spr_region := 1000; spr_is_mapped := false |}];
     ss_locked := false |}.

Lemma wit_reach : shmem_reach 4096 wit_history wit_state.
Proof.
  apply (reach_step 4096 [(RESERVE_SHMEM 100 true, 1)]
    {| ss_cur_region_id := 1; ss_heap := ss_heap wit_state; ss_region_map := [1000];
       ss_pid_regions := []; ss_locked := false |} {| ae_info := Some 2000; ae_data := None |}).
  - apply (reach_step 4096 [] shmem_init wit_env).
    + apply reach_init.
    + split; [done|]. by intros p [= <-].
    + simpl. lia.
    + reflexivity.
  - split; [|done]. by intros p [= <-].
  - simpl. lia.
  - reflexivity.
Qed.

Lemma shmem_access_control_witness :
  ∃ code pages,
    labstor_mmap 4096 (λ _, true) 1 7 1048576 1052672 wit_state = Some ((code, pages), wit_state) ∧
    (code = 0 → length pages = 1%nat) ∧ ∀ k u v, pages !! k = Some (u, v) → v = 65536 + 4096 * Z.of_nat k.
Proof.
  destruct (shmem_access_control 4096 wit_history wit_state (λ _, true) 1 7 1048576 1052672 wit_reach)
    as (code & pages & Hrun & _ & Hgrant).
  destruct Hgrant as (p & r & Hp & Hid & Hpages & Hlen); [right; left|].
  exists code, pages. split; [exact Hrun|]. split; [exact Hlen|]. intros k u v Hk.
  destruct (Hpages k u v Hk) as [_ ->]. simpl in Hp. apply lookup_singleton_Some in Hp as [_ <-]. done.
Defined.

(** ** Limits *)

(** Freeing a region that some process was granted follows a pointer to the
    region object that was just freed, in every reachable state. *)
Lemma free_granted_region_undefined PAGE_SIZE h s env pid id :
  shmem_reach PAGE_SIZE h s → (GRANT_PID_SHMEM pid id, 0) ∈ h →
  shmem_process_request_fn_netlink PAGE_SIZE env (FREE_SHMEM id) s = None.
Proof.
  intros Hreach Hin. destruct (reach_history _ _ _ Hreach) as (st & [Hrel _ Hperms _ _]).
  apply Hperms in Hin. pose proof (free_agrees PAGE_SIZE env st s id Hrel) as H.
  unfold step_agrees in H. simpl in H.
  assert (is_Some (sa_live st !! id)) as [v Hv].
  { apply (sr_perms _ _ Hrel) in Hin as (pr & _ & r & Hr & [= _ ->]).
    rewrite (sr_live _ _ Hrel _ _ Hr). eauto. }
  rewrite Hv, decide_False in H; [exact H|]. intros Hall. by apply (Hall (pid, id) Hin).
Qed.

(** The length of a mapping is not compared with the size of the region: two
    pages are mapped from a region of one. *)
Lemma mmap_past_region :
  (labstor_mmap 4096 (λ _, true) 1 7 1048576 1056768 wit_state) =
    Some ((0, [(1048576, 65536); (1052672, 69632)]), wit_state) ∧
  (sri_size <$> ss_heap wit_state !! 1000) = Some 4096.
Proof. split; reflexivity. Qed.
