(* ===== verification/Kernel.v ===== *)
(** * Kernel.v: the kernel side of LabStor

    src/kernel/server/module_manager.c and kernel_server.c (the registry of
    modules and the netlink server), labmods/ipc_manager, work_orchestrator,
    ipc_test and blkdev_table in their kernel parts, and the netlink entry of
    secure_shmem.  [kstate] is the state of these modules, memory is the
    kernel's view of the shared regions and of the message being processed.

    The registry is kept apart from [kstate]: a module holds its handlers,
    and these act on [kstate]. *)

From S2P Require Import Prelude Memory RingBuffer RequestQueue QueuePair WorkQueue Allocators SecureShmem.

Local Open Scope Z_scope.

(** ** State *)

(** A message to the trusted server: an [int] code or a pointer. *)
Inductive reply := RCode (code : Z) | RPointer (p : Z).

(** [struct ipc_manager]. *)
Record ipc_manager := {
  im_region_id : Z;
  im_region : Z;
  im_alloc : labstor_shmem_allocator
}.

(** [struct labstor_worker_struct]; [lw_cpu] is set when the thread is bound
    to a CPU and woken up. *)
Record labstor_worker_struct := {
  lw_work_queue_ : labstor_work_queue;
  lw_complete_ack_ : bool;
  lw_worker_id_ : Z;
  lw_cpu : option Z
}.

Record kstate := {
  k_shmem : shmem_state;
  k_ipc_manager_ : ipc_manager;
  k_workers : option (list labstor_worker_struct);   (* None: the null pointer *)
  k_num_workers : Z;
  k_keep_running : bool;
  k_shmem_region_id : Z;
  k_shmem_region : Z;
  k_bdevs : list (option Z);
  k_sent : list (Z * reply)                           (* newest first *)
}.

(** What the rest of the kernel answers: the allocators, the page size, the
    number of CPUs, whether a netlink buffer can be had, and the result of
    opening the block device whose path is at an address (an error number or
    a pointer). *)
Record kenv := {
  ke_page_size : Z;
  ke_alloc : alloc_env;
  ke_skb : bool;
  ke_worker_mem : bool;
  ke_blkdev_get_by_path : mem → Z → Z + option Z
}.

(** State over the memory monad. *)
Definition KM (A : Type) : Type := kstate → M (A * kstate).

#[export] Instance KM_ret : MRet KM := λ A a k, mret (a, k).
#[export] Instance KM_bind : MBind KM := λ A B f c k, r ← c k; f r.1 r.2.

Definition lift {A} (c : M A) : KM A := λ k, a ← c; mret (a, k).
Definition k_get : KM kstate := λ k, mret (k, k).
Definition k_put (k : kstate) : KM unit := λ _, mret (tt, k).
Definition k_fault {A} : KM A := λ _, fault.

(** Running an operation of the shared-memory module. *)
Definition k_shmem_op {A} (c : SM A) : KM A := λ k,
  match c (k_shmem k) with
  | Some (a, s) =>
      mret (a, {| k_shmem := s; k_ipc_manager_ := k_ipc_manager_ k; k_workers := k_workers k;
                  k_num_workers := k_num_workers k; k_keep_running := k_keep_running k;
                  k_shmem_region_id := k_shmem_region_id k; k_shmem_region := k_shmem_region k;
                  k_bdevs := k_bdevs k; k_sent := k_sent k |})
  | None => fault
  end.

(** ** module_manager.c *)

Definition MAX_LABSTOR_MODULES : Z := 64.

Record labstor_module := {
  lm_module_id : list Z;
  lm_runtime_id : Z;
  lm_process_request_fn : option (Z → Z → KM unit);          (* qp, rq *)
  lm_process_request_fn_netlink : option (Z → Z → KM unit)   (* pid, rq *)
}.

(** [struct labstor_module *modules[MAX_LABSTOR_MODULES]]. *)
Abbreviation module_table := (list (option labstor_module)).

Definition init_labstor_module_manager : module_table :=
  replicate (Z.to_nat MAX_LABSTOR_MODULES) None.

(** [runtime_id] is unsigned, so the first half of the test is true. *)
Definition register_labstor_module (modules : module_table) (pkg : labstor_module) : module_table :=
  if (0 <=? lm_runtime_id pkg) && (lm_runtime_id pkg <? MAX_LABSTOR_MODULES)
  then <[Z.to_nat (lm_runtime_id pkg) := Some pkg]> modules
  else modules.

(** No bounds check: [None] is a write outside the table. *)
Definition unregister_labstor_module (modules : module_table) (pkg : labstor_module) : option module_table :=
  if lm_runtime_id pkg <? Z.of_nat (length modules)
  then Some (<[Z.to_nat (lm_runtime_id pkg) := None]> modules)
  else None.

Definition get_labstor_module_by_runtime_id (modules : module_table) (runtime_id : Z) : option labstor_module :=
  if (0 <=? runtime_id) && (runtime_id <? MAX_LABSTOR_MODULES)
  then default None (modules !! Z.to_nat runtime_id)
  else None.

Definition free_labstor_module_manager (modules : module_table) : module_table := modules.

(** ** kernel_server.c *)

Definition labstor_msg_trusted_server (env : kenv) (buf : reply) (pid : Z) : KM unit := λ k,
  mret (tt, if ke_skb env
            then {| k_shmem := k_shmem k; k_ipc_manager_ := k_ipc_manager_ k; k_workers := k_workers k;
                    k_num_workers := k_num_workers k; k_keep_running := k_keep_running k;
                    k_shmem_region_id := k_shmem_region_id k; k_shmem_region := k_shmem_region k;
                    k_bdevs := k_bdevs k; k_sent := (pid, buf) :: k_sent k |}
            else k).

(** [rq] is the request in the message from [pid]. *)
Definition server_loop (env : kenv) (modules : module_table) (pid rq : Z) : KM unit :=
  ns_id ← lift (load32 (rq + rq_ns_id_));
  match get_labstor_module_by_runtime_id modules (s32 ns_id) with
  | None => labstor_msg_trusted_server env (RCode (-1)) pid
  | Some pkg =>
      match lm_process_request_fn_netlink pkg with
      | None => labstor_msg_trusted_server env (RCode (-2)) pid
      | Some f => f pid rq
      end
  end.

(** ** secure_shmem: the netlink entry *)

(** [struct secure_shmem_request]: a union after the 16-byte header; the
    [free] member has the layout of a grant. *)
Definition decode_shmem_request (rq : Z) : M secure_shmem_request :=
  op ← load16 (rq + rq_op_);
  if op =? 0 then
    size ← load64 (rq + 16); user_owned ← load8 (rq + 24);
    mret (RESERVE_SHMEM size (negb (user_owned =? 0)))
  else if op =? 1 then
    pid ← load_s32 (rq + 16); region_id ← load_s32 (rq + 20); mret (GRANT_PID_SHMEM pid region_id)
  else if op =? 2 then
    region_id ← load_s32 (rq + 20); mret (FREE_SHMEM region_id)
  else mret INVALID_OP.

Definition shmem_netlink (env : kenv) (pid rq : Z) : KM unit :=
  r ← lift (decode_shmem_request rq);
  code ← k_shmem_op (shmem_process_request_fn_netlink (ke_page_size env) (ke_alloc env) r);
  labstor_msg_trusted_server env (RCode code) pid.

(** ** ipc_manager_kernel *)

Definition IPC_MANAGER_REGISTER : Z := 0.
Definition IPC_MANAGER_UNREGISTER : Z := 1.

Definition ipc_manager_IsInitialized (k : kstate) : bool :=
  negb (labstor_shmem_allocator_GetRegion (im_alloc (k_ipc_manager_ k)) =? 0).

Definition ipc_manager_GetRegion (k : kstate) : Z :=
  labstor_shmem_allocator_GetRegion (im_alloc (k_ipc_manager_ k)).

(** [smp_processor_id ()] is [cpu]. *)
Definition ipc_manager_Alloc (cpu size : Z) : KM Z :=
  k ← k_get; lift (labstor_shmem_allocator_Alloc (im_alloc (k_ipc_manager_ k)) size cpu).

Definition ipc_manager_Free (fuel : nat) (ptr : Z) : KM unit :=
  k ← k_get; lift (labstor_shmem_allocator_Free fuel (im_alloc (k_ipc_manager_ k)) ptr).

Definition set_ipc_manager (im : ipc_manager) : KM unit :=
  k ← k_get;
  k_put {| k_shmem := k_shmem k; k_ipc_manager_ := im; k_workers := k_workers k;
           k_num_workers := k_num_workers k; k_keep_running := k_keep_running k;
           k_shmem_region_id := k_shmem_region_id k; k_shmem_region := k_shmem_region k;
           k_bdevs := k_bdevs k; k_sent := k_sent k |}.

(** [region_id] follows the header. *)
Definition ipc_manager_register (rq : Z) : KM unit :=
  region_id ← lift (load_s32 (rq + 16));
  region ← k_shmem_op (labstor_find_shmem_region region_id);
  k ← k_get;
  let im := k_ipc_manager_ k in
  match region with
  | None =>
      set_ipc_manager {| im_region_id := im_region_id im; im_region := NULL; im_alloc := im_alloc im |}
  | Some p =>
      alloc ← lift (labstor_shmem_allocator_Attach p p);
      set_ipc_manager {| im_region_id := region_id; im_region := p; im_alloc := alloc |}
  end.

Definition ipc_manager_process_request_fn_netlink (env : kenv) (pid rq : Z) : KM unit :=
  op ← lift (load16 (rq + rq_op_));
  if op =? IPC_MANAGER_REGISTER then
    _ ← ipc_manager_register rq;
    k ← k_get;
    labstor_msg_trusted_server env (RPointer (im_region (k_ipc_manager_ k))) pid
  else labstor_msg_trusted_server env (RCode (-1)) pid.

(** ** Queue pairs in kernel memory *)

(** [struct labstor_queue_pair] in the kernel build: seven pointers. *)
Definition load_qp (p : Z) : M labstor_queue_pair :=
  sq_base ← load64 p;
  sq_header ← load64 (p + 8);
  rb_header ← load64 (p + 16);
  rb_queue ← load64 (p + 24);
  cq_header ← load64 (p + 32);
  cq_buckets ← load64 (p + 40);
  cq_base ← load64 (p + 48);
  mret {| qp_sq_ := {| lrq_base_region_ := sq_base; lrq_header_ := sq_header;
                       lrq_queue_ := {| rb_header_ := rb_header; rb_queue_ := rb_queue |} |};
          qp_cq_ := {| rm_header_ := cq_header; rm_buckets_ := cq_buckets; rm_base_region_ := cq_base |} |}.

Definition store_qp (p : Z) (qp : labstor_queue_pair) : M unit :=
  _ ← store64 p (lrq_base_region_ (qp_sq_ qp));
  _ ← store64 (p + 8) (lrq_header_ (qp_sq_ qp));
  _ ← store64 (p + 16) (rb_header_ (lrq_queue_ (qp_sq_ qp)));
  _ ← store64 (p + 24) (rb_queue_ (lrq_queue_ (qp_sq_ qp)));
  _ ← store64 (p + 32) (rm_header_ (qp_cq_ qp));
  _ ← store64 (p + 40) (rm_buckets_ (qp_cq_ qp));
  store64 (p + 48) (rm_base_region_ (qp_cq_ qp)).

(** ** work_orchestrator_kernel.c *)

Definition LABSTOR_REQUEST_SUCCESS : Z := 0.
Definition LABSTOR_REQUEST_FAILED : Z := -1000.

Definition complete_invalid_request (fuel : nat) (qp rq : Z) : M unit :=
  _ ← store32 (rq + rq_code_) (u32 LABSTOR_REQUEST_FAILED);
  h ← load_qp qp;
  _ ← labstor_queue_pair_CompleteQuick fuel h rq rq;
  mret tt.

(** The inner loop of the worker over one queue pair; [n] requests remain of
    the depth it read.  [inl code]: the thread returns; [inr tt]: the loop is
    left. *)
Fixpoint worker_serve (fuel : nat) (modules : module_table) (n : nat) (qp : Z) : KM (Z + unit) :=
  match n with
  | O => mret (inr tt)
  | S n' =>
      base ← lift (load64 qp);
      if base =? NULL then mret (inl (-1))
      else
        h ← lift (load_qp qp);
        r ← lift (labstor_queue_pair_Dequeue h);
        match r with
        | None => mret (inr tt)
        | Some rq =>
            ns_id ← lift (load32 (rq + rq_ns_id_));
            match get_labstor_module_by_runtime_id modules (s32 ns_id) with
            | None =>
                _ ← lift (complete_invalid_request fuel qp rq);
                worker_serve fuel modules n' qp
            | Some m =>
                match lm_process_request_fn m with
                | None =>
                    _ ← lift (complete_invalid_request fuel qp rq);
                    worker_serve fuel modules n' qp
                | Some f =>
                    _ ← f qp rq;
                    worker_serve fuel modules n' qp
                end
            end
        end
  end.

(** The loop over the queue pairs of the work queue, from index [i]. *)
Fixpoint worker_scan (fuel : nat) (modules : module_table) (n : nat) (wq : labstor_work_queue) (i : Z)
    : KM (Z + unit) :=
  match n with
  | O => mret (inr tt)
  | S n' =>
      p ← lift (labstor_work_queue_Peek wq i);
      match p with
      | None => mret (inr tt)
      | Some qp =>
          h ← lift (load_qp qp);
          depth ← lift (labstor_queue_pair_GetDepth h);
          r ← worker_serve fuel modules (Z.to_nat (s32 depth)) qp;
          match r with
          | inl code => mret (inl code)
          | inr _ => worker_scan fuel modules n' wq (i + 1)
          end
      end
  end.

(** One iteration of [while (keep_running)]. *)
Definition worker_pass (fuel : nat) (modules : module_table) (wq : labstor_work_queue) : KM (Z + unit) :=
  work_depth ← lift (labstor_work_queue_GetDepth wq);
  worker_scan fuel modules (Z.to_nat (s32 work_depth)) wq 0.

(** The thread runs [passes] iterations before [keep_running] is cleared. *)
Fixpoint worker_loop (fuel : nat) (modules : module_table) (passes : nat) (wq : labstor_work_queue)
    : KM (Z + unit) :=
  match passes with
  | O => mret (inr tt)
  | S passes' =>
      r ← worker_pass fuel modules wq;
      match r with inl code => mret (inl code) | inr _ => worker_loop fuel modules passes' wq end
  end.

Definition set_workers (workers : option (list labstor_worker_struct)) : KM unit :=
  k ← k_get;
  k_put {| k_shmem := k_shmem k; k_ipc_manager_ := k_ipc_manager_ k; k_workers := workers;
           k_num_workers := k_num_workers k; k_keep_running := k_keep_running k;
           k_shmem_region_id := k_shmem_region_id k; k_shmem_region := k_shmem_region k;
           k_bdevs := k_bdevs k; k_sent := k_sent k |}.

(** [workers[i]], outside of which the access is undefined. *)
Definition get_worker (i : Z) : KM labstor_worker_struct :=
  k ← k_get;
  match k_workers k with
  | Some ws => if i <? 0 then k_fault
               else match ws !! Z.to_nat i with Some w => mret w | None => k_fault end
  | None => k_fault
  end.

Definition put_worker (i : Z) (w : labstor_worker_struct) : KM unit :=
  k ← k_get;
  match k_workers k with
  | Some ws => set_workers (Some (<[Z.to_nat i := w]> ws))
  | None => k_fault
  end.

(** The return value of the thread; on an error [complete_ack_] stays false. *)
Definition worker_runtime (fuel passes : nat) (modules : module_table) (worker : Z) : KM Z :=
  k ← k_get;
  if negb (ipc_manager_IsInitialized k) then mret (-1)
  else
    w ← get_worker worker;
    r ← worker_loop fuel modules passes (lw_work_queue_ w);
    match r with
    | inl code => mret code
    | inr _ =>
        _ ← put_worker worker {| lw_work_queue_ := lw_work_queue_ w; lw_complete_ack_ := true;
                                 lw_worker_id_ := lw_worker_id_ w; lw_cpu := lw_cpu w |};
        mret 0
    end.

(** The loop that lays out a work queue per worker. *)
Fixpoint spawn_loop (n : nat) (i : Z) (region work_queue_size : Z) (fresh : labstor_work_queue)
    : M (list labstor_worker_struct) :=
  match n with
  | O => mret []
  | S n' =>
      r ← labstor_work_queue_Init Kernel fresh region work_queue_size 0;
      next ← labstor_work_queue_GetNextSection r.1;
      ws ← spawn_loop n' (i + 1) next work_queue_size fresh;
      mret ({| lw_work_queue_ := r.1; lw_complete_ack_ := false; lw_worker_id_ := i; lw_cpu := None |} :: ws)
  end.

(** [fresh] is what the array held before; [region_size_] is a [size_t]
    truncated to 32 bits. *)
Definition spawn_workers (env : kenv) (fresh : labstor_work_queue) (rq : Z) : KM bool :=
  num_workers ← lift (load_s32 (rq + 16));
  region_id ← lift (load_s32 (rq + 20));
  region_size ← lift (load64 (rq + 24));
  k ← k_get;
  _ ← k_put {| k_shmem := k_shmem k; k_ipc_manager_ := k_ipc_manager_ k; k_workers := k_workers k;
               k_num_workers := num_workers; k_keep_running := k_keep_running k;
               k_shmem_region_id := k_shmem_region_id k; k_shmem_region := k_shmem_region k;
               k_bdevs := k_bdevs k; k_sent := k_sent k |};
  work_queue_size ← lift (udiv (u32 region_size) (u32 num_workers));
  if negb (ke_worker_mem env) then _ ← set_workers None; mret false
  else
    pos ← k_shmem_op (labstor_find_shmem_region region_id);
    let region := default NULL pos in
    k ← k_get;
    _ ← k_put {| k_shmem := k_shmem k; k_ipc_manager_ := k_ipc_manager_ k; k_workers := k_workers k;
                 k_num_workers := k_num_workers k; k_keep_running := k_keep_running k;
                 k_shmem_region_id := region_id; k_shmem_region := region;
                 k_bdevs := k_bdevs k; k_sent := k_sent k |};
    ws ← lift (spawn_loop (Z.to_nat num_workers) 0 region work_queue_size fresh);
    _ ← set_workers (Some ws);
    mret true.

(** [struct labstor_assign_qp_request] is 24 bytes, the array starts at 24. *)
Fixpoint register_loop (n : nat) (rq region : Z) : KM unit :=
  match n with
  | O => mret tt
  | S n' =>
      worker_id ← lift (load32 (rq + 20));
      worker ← get_worker worker_id;
      sq_off ← lift (load_s32 (rq + 8));
      cq_off ← lift (load_s32 (rq + 12));
      pid ← lift (load32 (rq + 16));
      let qp := u64 (region + (sq_off - sizeof_labstor_queue_pair Kernel)) in
      let ptr := {| qpp_sq_off_ := sq_off; qpp_cq_off_ := cq_off; qpp_pid_ := pid |} in
      _ ← lift (store_qp qp (labstor_queue_pair_Attach ptr region));
      _ ← lift (labstor_work_queue_Enqueue (lw_work_queue_ worker) qp);
      register_loop n' (rq + 24) region
  end.

(** [return -1] in a function returning bool is true. *)
Definition register_qp (rq_vec : Z) : KM bool :=
  k ← k_get;
  if negb (ipc_manager_IsInitialized k) then mret true
  else
    count ← lift (load32 (rq_vec + 16));
    _ ← register_loop (Z.to_nat count) (rq_vec + 24) (ipc_manager_GetRegion k);
    mret true.

Definition set_worker_affinity (rq : Z) : KM unit :=
  worker_id ← lift (load_s32 (rq + 16));
  cpu_id ← lift (load_s32 (rq + 20));
  w ← get_worker worker_id;
  put_worker worker_id {| lw_work_queue_ := lw_work_queue_ w; lw_complete_ack_ := lw_complete_ack_ w;
                          lw_worker_id_ := lw_worker_id_ w; lw_cpu := Some cpu_id |}.

(** The loop reads [workers[i]], also when the array could not be allocated. *)
Fixpoint workers_stopped_from (n : nat) (i : Z) : KM bool :=
  match n with
  | O => mret true
  | S n' =>
      w ← get_worker i;
      if negb (lw_complete_ack_ w) then mret false else workers_stopped_from n' (i + 1)
  end.

Definition check_if_workers_stopped : KM bool :=
  k ← k_get; workers_stopped_from (Z.to_nat (k_num_workers k)) 0.

(** There is no default case: an unknown operation gets no reply. *)
Definition worker_process_request_fn_netlink (env : kenv) (fresh : labstor_work_queue) (pid rq : Z) : KM unit :=
  op ← lift (load16 (rq + rq_op_));
  if op =? 0 then
    code ← spawn_workers env fresh rq; labstor_msg_trusted_server env (RCode (Z.b2z code)) pid
  else if op =? 2 then
    code ← register_qp rq; labstor_msg_trusted_server env (RCode (Z.b2z code)) pid
  else if op =? 1 then
    _ ← set_worker_affinity rq; labstor_msg_trusted_server env (RCode 0) pid
  else if op =? 3 then labstor_msg_trusted_server env (RCode 0) pid
  else if op =? 4 then labstor_msg_trusted_server env (RCode 0) pid
  else mret tt.

(** ** ipc_test_kernel.c *)

Definition LABSTOR_START_IPC_TEST : Z := 0.

Definition complete_test (fuel : nat) (qp rq : Z) : M unit :=
  _ ← store32 (rq + rq_code_) (u32 LABSTOR_REQUEST_SUCCESS);
  h ← load_qp qp;
  _ ← labstor_queue_pair_CompleteInf fuel h rq;
  mret tt.

(** Any other operation is left uncompleted. *)
Definition ipc_test_process_request_fn (fuel : nat) (qp rq : Z) : KM unit :=
  op ← lift (load16 (rq + rq_op_));
  if op =? LABSTOR_START_IPC_TEST then lift (complete_test fuel qp rq) else mret tt.

(** ** blkdev_table_kernel.c *)

Definition MAX_MOUNTED_BDEVS : Z := 64.
Definition LABSTOR_BLKDEV_TABLE_REGISTER_BDEV : Z := 2.
Definition LABSTOR_BLKDEV_TABLE_UNREGISTER_BDEV : Z := 3.

(** Layout of [struct labstor_blkdev_table_register_request]. *)
Definition bdrq_dev_id_ : Z := 32.
Definition bdrq_path_ : Z := 36.

(** The code of a failed open, by the error number. *)
Definition bdev_error_code (err : Z) : Z :=
  if err =? -13 then -2          (* EACCES *)
  else if err =? -15 then -3     (* ENOTBLK *)
  else if err =? -12 then -4     (* ENOMEM *)
  else -5.

Definition set_bdev (i : Z) (bdev : option Z) : KM unit :=
  k ← k_get;
  k_put {| k_shmem := k_shmem k; k_ipc_manager_ := k_ipc_manager_ k; k_workers := k_workers k;
           k_num_workers := k_num_workers k; k_keep_running := k_keep_running k;
           k_shmem_region_id := k_shmem_region_id k; k_shmem_region := k_shmem_region k;
           k_bdevs := <[Z.to_nat i := bdev]> (k_bdevs k); k_sent := k_sent k |}.

(** [code] stays -1 when the device was opened and assigned. *)
Definition register_bdev (fuel : nat) (env : kenv) (qp rq : Z) : KM unit :=
  bdev ← (λ k m, Ret (ke_blkdev_get_by_path env m (rq + bdrq_path_), k) m);
  let '(bdev, code) :=
    match bdev with
    | inr (Some p) => (Some p, -1)
    | inr None => (None, bdev_error_code 0)
    | inl err => (None, bdev_error_code err)
    end in
  dev_id ← lift (load32 (rq + bdrq_dev_id_));
  code ← (if dev_id <? MAX_MOUNTED_BDEVS
          then _ ← set_bdev dev_id bdev; mret code
          else mret (-5));
  _ ← lift (store32 (rq + rq_code_) (u32 code));
  h ← lift (load_qp qp);
  _ ← lift (labstor_queue_pair_CompleteInf fuel h rq);
  mret tt.

Definition _unregister_bdev (bdev_id : Z) : KM unit :=
  k ← k_get;
  match k_bdevs k !! Z.to_nat bdev_id with
  | Some (Some _) => set_bdev bdev_id None
  | Some None => mret tt
  | None => k_fault
  end.

(** The request to unregister does nothing, and is not completed. *)
Definition unregister_bdev (qp rq : Z) : KM unit := mret tt.

Definition labstor_get_bdev (bdev_id : Z) : KM (option Z) :=
  k ← k_get;
  if bdev_id <? 0 then k_fault
  else match k_bdevs k !! Z.to_nat bdev_id with Some b => mret b | None => k_fault end.

Definition bdev_table_process_request_fn (fuel : nat) (env : kenv) (qp rq : Z) : KM unit :=
  op ← lift (load16 (rq + rq_op_));
  if op =? LABSTOR_BLKDEV_TABLE_REGISTER_BDEV then register_bdev fuel env qp rq
  else if op =? LABSTOR_BLKDEV_TABLE_UNREGISTER_BDEV then unregister_bdev qp rq
  else mret tt.

(** The exit function of the module releases every device. *)
Fixpoint exit_blkdev_table (n : nat) (i : Z) : KM unit :=
  match n with
  | O => mret tt
  | S n' => _ ← _unregister_bdev i; exit_blkdev_table n' (i + 1)
  end.

(** ** The modules *)

Definition IPC_TEST_MODULE_RUNTIME_ID : Z := 0.
Definition SHMEM_MODULE_RUNTIME_ID : Z := 1.
Definition IPC_MANAGER_MODULE_RUNTIME_ID : Z := 2.
Definition WORKER_MODULE_RUNTIME_ID : Z := 3.
Definition MQ_DRIVER_RUNTIME_ID : Z := 4.
Definition BLKDEV_TABLE_RUNTIME_ID : Z := 5.

(** Keys as character codes. *)
Definition ipc_test_pkg (fuel : nat) : labstor_module :=
  {| lm_module_id := [73; 80; 67; 84; 101; 115; 116];
     lm_runtime_id := IPC_TEST_MODULE_RUNTIME_ID;
     lm_process_request_fn := Some (ipc_test_process_request_fn fuel);
     lm_process_request_fn_netlink := None |}.

Definition shmem_module (env : kenv) : labstor_module :=
  {| lm_module_id := [83; 72; 77; 69; 77; 95; 73; 68];
     lm_runtime_id := SHMEM_MODULE_RUNTIME_ID;
     lm_process_request_fn := None;
     lm_process_request_fn_netlink := Some (shmem_netlink env) |}.

Definition ipc_manager_module (env : kenv) : labstor_module :=
  {| lm_module_id := [73; 80; 67; 95; 77; 65; 78; 65; 71; 69; 82];
     lm_runtime_id := IPC_MANAGER_MODULE_RUNTIME_ID;
     lm_process_request_fn := None;
     lm_process_request_fn_netlink := Some (ipc_manager_process_request_fn_netlink env) |}.

Definition worker_module (env : kenv) (fresh : labstor_work_queue) : labstor_module :=
  {| lm_module_id := [87; 79; 82; 75; 69; 82; 95; 73; 68];
     lm_runtime_id := WORKER_MODULE_RUNTIME_ID;
     lm_process_request_fn := None;
     lm_process_request_fn_netlink := Some (worker_process_request_fn_netlink env fresh) |}.

Definition blkdev_table_pkg (fuel : nat) (env : kenv) : labstor_module :=
  {| lm_module_id := [66; 108; 107; 100; 101; 118; 84; 97; 98; 108; 101];
     lm_runtime_id := BLKDEV_TABLE_RUNTIME_ID;
     lm_process_request_fn := Some (bdev_table_process_request_fn fuel env);
     lm_process_request_fn_netlink := None |}.

(** The registry after the init functions of these modules. *)
Definition kernel_modules (fuel : nat) (env : kenv) (fresh : labstor_work_queue) : module_table :=
  foldl register_labstor_module init_labstor_module_manager
    [shmem_module env; ipc_manager_module env; worker_module env fresh; ipc_test_pkg fuel;
     blkdev_table_pkg fuel env].

#[export] Hint Unfold bdrq_dev_id_ bdrq_path_ : layout.

(** ** The registry *)

(** A registered module is found under its id, and no other id changes. *)
Lemma get_register modules pkg id :
  length modules = Z.to_nat MAX_LABSTOR_MODULES → 0 <= lm_runtime_id pkg →
  get_labstor_module_by_runtime_id (register_labstor_module modules pkg) id =
    if decide (id = lm_runtime_id pkg ∧ id < MAX_LABSTOR_MODULES) then Some pkg
    else get_labstor_module_by_runtime_id modules id.
Proof.
  intros Hlen Hid. unfold register_labstor_module, get_labstor_module_by_runtime_id.
  unfold MAX_LABSTOR_MODULES in *. rewrite (proj2 (Z.leb_le 0 (lm_runtime_id pkg))) by done. cbn [andb].
  destruct (Z.ltb_spec (lm_runtime_id pkg) 64) as [Hlt|Hge].
  - case_decide as Hd.
    + destruct Hd as [-> _]. rewrite (proj2 (Z.leb_le 0 _)), (proj2 (Z.ltb_lt _ 64)) by lia. cbn [andb].
      by rewrite list_lookup_insert_eq by (rewrite Hlen; lia).
    + destruct (Z.leb_spec 0 id), (Z.ltb_spec id 64); cbn [andb]; try done.
      rewrite list_lookup_insert_ne; [done|]. lia.
  - case_decide as Hd; [lia|done].
Qed.

Lemma length_register modules pkg : length (register_labstor_module modules pkg) = length modules.
Proof. unfold register_labstor_module. case_match; by rewrite ?length_insert. Qed.

(** ** Weakest preconditions for kernel code *)

Lemma wp_lift {A} (c : M A) (Q : A * kstate → mem → Prop) k m :
  wp c (λ a m', Q (a, k) m') m → wp (lift c k) Q m.
Proof. intros H. apply wp_bind. eapply wp_mono; [exact H|]. done. Qed.

Lemma wp_kbind {A B} (c : KM A) (f : A → KM B) (Q : B * kstate → mem → Prop) k m :
  wp (c k) (λ r m', wp (f r.1 r.2) Q m') m → wp ((c ≫= f) k) Q m.
Proof. intros H. by apply (wp_bind (c k)). Qed.

Lemma wp_load_qp p Q m :
  valid m p 56 →
  Q {| qp_sq_ := {| lrq_base_region_ := read 8 p m; lrq_header_ := read 8 (p + 8) m;
         lrq_queue_ := {| rb_header_ := read 8 (p + 16) m; rb_queue_ := read 8 (p + 24) m |} |};
       qp_cq_ := {| rm_header_ := read 8 (p + 32) m; rm_buckets_ := read 8 (p + 40) m;
         rm_base_region_ := read 8 (p + 48) m |} |} m →
  wp (load_qp p) Q m.
Proof. intros Hv HQ. unfold load_qp. wp_go. exact HQ. Qed.
