(* ===== verification/KernelWorker.v ===== *)
(** * KernelWorker.v: a kernel worker serves its queues

    What a pass of [worker_runtime] (work_orchestrator_kernel.c) does to a
    queue pair.  A request handler is held to the interface [Serves]: it
    completes the request it is given, and changes nothing but that request
    and the completion map.  The rejection of requests for unknown modules
    and the handler of the IPC test module are proved to satisfy it, and the
    worker is verified against it. *)

From S2P Require Import Prelude Memory RingBuffer RequestQueue QueuePair WorkQueue Allocators Kernel.

Local Open Scope Z_scope.

(** ** The queue pair of a worker *)

(** The handle [h] is stored at [qaddr]. *)
Record handle_at (qaddr : Z) (h : labstor_queue_pair) (m : mem) : Prop := {
  ha_valid : valid m qaddr 56;
  ha_base : read 8 qaddr m = lrq_base_region_ (qp_sq_ h);
  ha_header : read 8 (qaddr + 8) m = lrq_header_ (qp_sq_ h);
  ha_rb_header : read 8 (qaddr + 16) m = rb_header_ (lrq_queue_ (qp_sq_ h));
  ha_rb_queue : read 8 (qaddr + 24) m = rb_queue_ (lrq_queue_ (qp_sq_ h));
  ha_cq_header : read 8 (qaddr + 32) m = rm_header_ (qp_cq_ h);
  ha_cq_buckets : read 8 (qaddr + 40) m = rm_buckets_ (qp_cq_ h);
  ha_cq_base : read 8 (qaddr + 48) m = rm_base_region_ (qp_cq_ h)
}.

Lemma wp_load_handle qaddr h (Q : labstor_queue_pair → mem → Prop) m :
  handle_at qaddr h m → Q h m → wp (load_qp qaddr) Q m.
Proof.
  intros [] HQ. apply wp_load_qp; [done|].
  rewrite ha_base0, ha_header0, ha_rb_header0, ha_rb_queue0, ha_cq_header0, ha_cq_buckets0, ha_cq_base0.
  by destruct h as [[? ? []] []].
Qed.

Lemma handle_frame qaddr h P m m' :
  handle_at qaddr h m → modifies P m m' → (∀ a, qaddr <= a < qaddr + 56 → ¬ P a) → handle_at qaddr h m'.
Proof.
  intros [] Hm HP.
  assert (∀ k, 0 <= k <= 48 → read 8 (qaddr + k) m' = read 8 (qaddr + k) m) as Hrd.
  { intros k Hk. eapply read_modifies; [exact Hm|]. simpl. intros a Ha. apply HP. lia. }
  pose proof (Hrd 0 ltac:(lia)) as H0. rewrite Z.add_0_r in H0.
  split; rewrite ?H0, ?Hrd by lia; try done. by eapply valid_modifies.
Qed.

(** A handle that was stored is found. *)
Lemma store_qp_handle qaddr h m :
  valid m qaddr 56 →
  0 <= lrq_base_region_ (qp_sq_ h) < 2 ^ 64 → 0 <= lrq_header_ (qp_sq_ h) < 2 ^ 64 →
  0 <= rb_header_ (lrq_queue_ (qp_sq_ h)) < 2 ^ 64 → 0 <= rb_queue_ (lrq_queue_ (qp_sq_ h)) < 2 ^ 64 →
  0 <= rm_header_ (qp_cq_ h) < 2 ^ 64 → 0 <= rm_buckets_ (qp_cq_ h) < 2 ^ 64 →
  0 <= rm_base_region_ (qp_cq_ h) < 2 ^ 64 →
  wp (store_qp qaddr h) (λ _ m', handle_at qaddr h m' ∧ modifies (span qaddr 56) m m') m.
Proof.
  intros Hv H1 H2 H3 H4 H5 H6 H7. unfold store_qp. wp_go. split.
  - split; [vsolve|..]; mem_simpl; done.
  - msolve.
Qed.

Section worker.
Context (qaddr : Z) (h : labstor_queue_pair) (qid : labstor_qid_t) (cap : Z) (objs : gset Z).

(** Requests of 16 bytes, apart from the pair, the handle and each other. *)
Record worker_layout : Prop := {
  wl_qp : qp_layout h cap objs;
  wl_handle : lrq_queue_ (qp_sq_ h) =
    labstor_request_ring_buffer_Attach (lrq_header_ (qp_sq_ h) + sizeof_lrq_header);
  wl_base : lrq_base_region_ (qp_sq_ h) ≠ NULL;
  wl_sq : ∀ rq, rq ∈ objs → outside rq 16 (lrq_header_ (qp_sq_ h)) (24 + 4 * cap);
  wl_cq : ∀ rq, rq ∈ objs → outside rq 16 (rm_header_ (qp_cq_ h)) (4 + 4 * cap);
  wl_objs : ∀ p q, p ∈ objs → q ∈ objs → p ≠ q → outside p 16 q 16;
  wl_qaddr_sq : outside qaddr 56 (lrq_header_ (qp_sq_ h)) (24 + 4 * cap);
  wl_qaddr_cq : outside qaddr 56 (rm_header_ (qp_cq_ h)) (4 + 4 * cap);
  wl_qaddr : ∀ rq, rq ∈ objs → outside qaddr 56 rq 16
}.
Hypothesis Hlay : worker_layout.

Record worker_rel (st : qp_abs) (m : mem) : Prop := {
  wr_qp : qp_rel h qid cap objs st m;
  wr_handle : handle_at qaddr h m;
  wr_valid : ∀ rq, rq ∈ objs → valid m rq 16
}.

(** A request that can be completed. *)
Definition pending (st : qp_abs) (rq id : Z) : Prop :=
  rq ∈ objs ∧ qa_ids st !! rq = Some id ∧ id ∈ qa_out st ∧ qa_cq st !! id = None.

Definition request_bytes (rq : Z) : Z → Prop := both (cq_bytes h cap) (span rq 16).

(** A handler that completes every request that satisfies [accepts] with the
    given code. *)
Class Serves (f : Z → Z → KM unit) (accepts : Z → mem → Prop) (code : Z) : Prop := {
  serves : ∀ st m k rq id, worker_rel st m → pending st rq id → accepts rq m →
    wp (f qaddr rq k)
       (λ _ m', worker_rel (completed st rq id) m' ∧ read 4 (rq + rq_code_) m' = code ∧
          modifies (request_bytes rq) m m') m;
  (* whether it accepts a request depends on the request only *)
  accepts_local : ∀ P m m' rq, modifies P m m' → (∀ a, rq <= a < rq + 16 → ¬ P a) →
    accepts rq m → accepts rq m'
}.

(** Ranges of addresses, by linear arithmetic. *)
Ltac ranges :=
  unfold request_bytes, sq_bytes, cq_bytes, lrq_span, rm_span, both, span, outside in *;
  autounfold with layout in *; simpl in *; intros; lia.

(** Setting the code of a request. *)
Lemma set_code_rel st m rq v :
  worker_rel st m → rq ∈ objs →
  worker_rel st (write 4 (rq + rq_code_) v m) ∧ modifies (span rq 16) m (write 4 (rq + rq_code_) v m).
Proof.
  intros [] Hobj. destruct Hlay as [Hq ? ? Hsq Hcq Hobjs ? ? Hqa].
  specialize (Hsq _ Hobj). specialize (Hcq _ Hobj). specialize (Hqa _ Hobj). pose proof (wr_valid0 _ Hobj) as Hv.
  assert (modifies (span (rq + 8) 4) m (write 4 (rq + rq_code_) v m)) as Hm.
  { apply modifies_write; [vsolve|ranges]. }
  split; [|eapply modifies_weaken; [exact Hm|ranges]]. split.
  - eapply qp_rel_frame; [done|exact Hm|]. intros a Ha. split; [|split].
    + ranges.
    + ranges.
    + intros q Hqo Hin. destruct (decide (q = rq)) as [->|Hne]; [ranges|].
      pose proof (Hobjs q rq Hqo Hobj Hne). ranges.
  - eapply handle_frame; [done|exact Hm|]. ranges.
  - intros q Hqo. by apply valid_write, wr_valid0.
Qed.

(** Completing a request under its own id. *)
Lemma complete_rel fuel st m rq id :
  (0 < fuel)%nat → worker_rel st m → pending st rq id →
  wp (labstor_queue_pair_CompleteInf fuel h rq)
     (λ ok m', ok = true ∧ worker_rel (completed st rq id) m' ∧ modifies (cq_bytes h cap) m m') m.
Proof.
  intros Hf [] (Hobj & Hid & Hout & Hnone). destruct Hlay as [Hq Hh ? ? ? ? ? Hqc ?].
  eapply wp_mono; [by eapply (qp_complete_inf_spec h qid cap objs Hq)|].
  intros ok m' (-> & Hrel & Hm). split; [done|]. split; [|done]. split.
  - done.
  - eapply handle_frame; [done|exact Hm|]. ranges.
  - intros q Hqo. eapply valid_modifies; [exact Hm|auto].
Qed.

Lemma same_id_rel st m rq id :
  worker_rel st m → pending st rq id →
  worker_rel st (write 4 (rq + rq_req_id_) (u32 id) m) ∧
  modifies (span rq 16) m (write 4 (rq + rq_req_id_) (u32 id) m).
Proof.
  intros [] (Hobj & Hid & _). destruct Hlay as [Hq ? ? ? ? ? ? ? Hqa]. specialize (Hqa _ Hobj).
  pose proof (wr_valid0 _ Hobj) as Hv. unfold rq_req_id_. rewrite Z.add_0_r.
  assert (modifies (span rq 16) m (write 4 rq (u32 id) m)) as Hm.
  { apply modifies_write; [vsolve|ranges]. }
  split; [|done]. split.
  - by eapply qp_rel_same_id.
  - eapply handle_frame; [done|exact Hm|]. ranges.
  - intros q Hqo. by apply valid_write, wr_valid0.
Qed.

(** The code of a request survives its completion. *)
Lemma code_after m m' rq v :
  rq ∈ objs → read 4 (rq + rq_code_) m = v → modifies (cq_bytes h cap) m m' →
  read 4 (rq + rq_code_) m' = v.
Proof.
  intros Hobj <- Hm. eapply read_modifies; [exact Hm|]. pose proof (wl_cq Hlay _ Hobj). ranges.
Qed.

(** ** Handlers that serve *)

Lemma complete_invalid_spec fuel st m rq id :
  (0 < fuel)%nat → worker_rel st m → pending st rq id →
  wp (complete_invalid_request fuel qaddr rq)
     (λ _ m', worker_rel (completed st rq id) m' ∧
        read 4 (rq + rq_code_) m' = u32 LABSTOR_REQUEST_FAILED ∧ modifies (request_bytes rq) m m') m.
Proof.
  intros Hf Hrel Hp. pose proof Hp as (Hobj & Hid & _). unfold complete_invalid_request.
  pose proof (wr_valid _ _ Hrel _ Hobj) as Hv.
  destruct (set_code_rel st m rq (u32 LABSTOR_REQUEST_FAILED) Hrel Hobj) as [Hrel1 Hm1].
  set (m1 := write 4 (rq + rq_code_) _ m) in *. do 2 wp_step. fold m1.
  apply wp_bind, (wp_load_handle qaddr h); [apply Hrel1|].
  pose proof (wr_valid _ _ Hrel1 _ Hobj) as Hv1.
  apply wp_bind. unfold labstor_queue_pair_CompleteQuick. do 4 wp_step.
  assert (read 4 (rq + rq_req_id_) m1 = u32 id) as ->.
  { unfold rq_req_id_. rewrite Z.add_0_r. by apply (qr_ids _ _ _ _ _ _ (wr_qp _ _ Hrel1)). }
  destruct (same_id_rel st m1 rq id Hrel1 Hp) as [Hrel2 Hm2].
  set (m2 := write 4 (rq + rq_req_id_) _ m1) in *.
  eapply wp_mono; [by apply (complete_rel fuel st m2 rq id)|]. intros ok m3 (-> & Hrel3 & Hm3). wp_go.
  split; [done|]. split.
  - eapply code_after; [done| |exact Hm3]. subst m2 m1. autounfold with layout. mem_simpl. reflexivity.
  - eapply modifies_trans; [eapply modifies_trans|]; (eapply modifies_weaken; [eassumption|]); ranges.
Qed.

(** The IPC test module serves its START requests with code 0. *)
Definition is_ipc_test (rq : Z) (m : mem) : Prop := read 2 (rq + rq_op_) m = LABSTOR_START_IPC_TEST.

#[export] Instance ipc_test_serves fuel :
  (0 < fuel)%nat → Serves (ipc_test_process_request_fn fuel) is_ipc_test LABSTOR_REQUEST_SUCCESS.
Proof.
  intros Hf. split.
  2: { intros P m m' rq Hm HP Hop. unfold is_ipc_test in *. rewrite <-Hop.
    eapply read_modifies; [exact Hm|]. autounfold with layout. simpl. intros a Ha. apply HP. lia. }
  intros st m k rq id Hrel Hp Hop. pose proof Hp as (Hobj & _).
  pose proof (wr_valid _ _ Hrel _ Hobj) as Hv. unfold ipc_test_process_request_fn.
  apply wp_kbind, wp_lift. wp_step. simpl. unfold is_ipc_test in Hop. rewrite Hop, Z.eqb_refl.
  apply wp_lift. unfold complete_test.
  destruct (set_code_rel st m rq (u32 LABSTOR_REQUEST_SUCCESS) Hrel Hobj) as [Hrel1 Hm1].
  set (m1 := write 4 (rq + rq_code_) _ m) in *. do 2 wp_step. fold m1.
  apply wp_bind, (wp_load_handle qaddr h); [apply Hrel1|]. apply wp_bind.
  eapply wp_mono; [by apply (complete_rel fuel st m1 rq id)|]. intros ok m3 (-> & Hrel3 & Hm3). wp_go.
  split; [done|]. split.
  - eapply code_after; [done| |exact Hm3]. subst m1. by mem_simpl.
  - eapply modifies_trans; (eapply modifies_weaken; [eassumption|]); ranges.
Qed.

(** ** The worker *)

(** The state after the oldest request was taken from the queue. *)
Definition popped (st : qp_abs) : qp_abs :=
  {| qa_enq := qa_enq st; qa_sq := tail (qa_sq st); qa_ids := qa_ids st;
     qa_out := qa_out st; qa_cq := qa_cq st |}.

Lemma dequeue_rel st m rq sq :
  worker_rel st m → qa_sq st = rq :: sq →
  wp (labstor_queue_pair_Dequeue h)
     (λ r m', r = Some rq ∧ worker_rel (popped st) m' ∧ modifies (sq_bytes h cap) m m') m.
Proof.
  intros [] Hsq. destruct Hlay as [Hq Hh ? ? ? ? Hqs ? ?].
  pose proof (qp_dequeue_refines h qid cap objs Hq Hh 1 st m (popped st) (RRequest (Some rq)) wr_qp0) as H.
  simpl in H. unfold popped in H at 1. rewrite Hsq in H. specialize (H eq_refl).
  apply wp_bind_inv in H. eapply wp_mono; [exact H|].
  intros r m' ([= ->] & Hrel & Hm). split; [done|]. split; [|done]. split.
  - done.
  - eapply handle_frame; [done|exact Hm|]. ranges.
  - intros q Hqo. eapply valid_modifies; [exact Hm|auto].
Qed.

(** The requests in the queue can all be completed, under different ids. *)
Record servable (st : qp_abs) : Prop := {
  sv_nodup : NoDup (qa_sq st);
  sv_pending : ∀ rq, rq ∈ qa_sq st → ∃ id, pending st rq id;
  sv_ids : ∀ p q id, p ∈ qa_sq st → q ∈ qa_sq st →
    qa_ids st !! p = Some id → qa_ids st !! q = Some id → p = q
}.

Lemma servable_next st rq sq id :
  servable st → qa_sq st = rq :: sq → qa_ids st !! rq = Some id →
  servable (completed (popped st) rq id).
Proof using objs.
  clear Hlay. intros [Hnd Hp Hids] Hsq Hid. rewrite Hsq in *. apply NoDup_cons in Hnd as [Hnin Hnd].
  split; simpl; rewrite ?Hsq; simpl; try done.
  - intros q Hq. destruct (Hp q) as (k & Hobj & Hk & Hout & Hnone); [set_solver|].
    exists k. split; [done|]. split; [done|]. split; [done|]. simpl. rewrite lookup_insert_ne; [done|].
    intros ->. apply Hnin. rewrite (Hids rq q k); [done|set_solver..|done|done].
  - intros p q k Hpq Hqq. apply Hids; set_solver.
Qed.

(** The registry: the handlers accept the requests [accepts] allows and
    complete them with [codes], by module id. *)
Context (modules : module_table) (accepts : Z → Z → mem → Prop) (codes : Z → Z).
Hypothesis Hserves : ∀ id pkg f, get_labstor_module_by_runtime_id modules id = Some pkg →
  lm_process_request_fn pkg = Some f → Serves f (accepts id) (codes id).

Definition request_module (rq : Z) (m : mem) : Z := s32 (read 4 (rq + rq_ns_id_) m).

Definition handler (rq : Z) (m : mem) : option (Z → Z → KM unit) :=
  get_labstor_module_by_runtime_id modules (request_module rq m) ≫= lm_process_request_fn.

(** The code a request is completed with. *)
Definition expected_code (rq : Z) (m : mem) : Z :=
  match handler rq m with
  | None => u32 LABSTOR_REQUEST_FAILED
  | Some _ => codes (request_module rq m)
  end.

Definition acceptable (rq : Z) (m : mem) : Prop :=
  is_Some (handler rq m) → accepts (request_module rq m) rq m.

Lemma request_module_frame P m m' rq :
  modifies P m m' → (∀ a, rq <= a < rq + 16 → ¬ P a) → request_module rq m' = request_module rq m.
Proof.
  intros Hm HP. unfold request_module. f_equal. eapply read_modifies; [exact Hm|].
  autounfold with layout. simpl. intros a Ha. apply HP. lia.
Qed.

Lemma acceptable_frame P m m' rq :
  modifies P m m' → (∀ a, rq <= a < rq + 16 → ¬ P a) → acceptable rq m →
  acceptable rq m' ∧ expected_code rq m' = expected_code rq m.
Proof.
  intros Hm HP Hacc. pose proof (request_module_frame P m m' rq Hm HP) as E.
  unfold acceptable, expected_code, handler in *. rewrite E. split; [|done]. intros Hsome.
  specialize (Hacc Hsome). destruct Hsome as [f Hf]. apply bind_Some in Hf as (pkg & Hpkg & Hf).
  pose proof (Hserves _ _ _ Hpkg Hf) as Hs. by eapply (accepts_local (Serves := Hs)).
Qed.

(** One request: whatever its module, it is completed with the expected code. *)
Lemma serve_one fuel st m k rq id (cont : KM (Z + unit)) (Q : (Z + unit) * kstate → mem → Prop) :
  (0 < fuel)%nat → worker_rel st m → pending st rq id → acceptable rq m →
  (∀ k' m', worker_rel (completed st rq id) m' → read 4 (rq + rq_code_) m' = expected_code rq m →
     modifies (request_bytes rq) m m' → wp (cont k') Q m') →
  wp ((match get_labstor_module_by_runtime_id modules (request_module rq m) with
       | None => _ ← lift (complete_invalid_request fuel qaddr rq); cont
       | Some pkg =>
           match lm_process_request_fn pkg with
           | None => _ ← lift (complete_invalid_request fuel qaddr rq); cont
           | Some f => _ ← f qaddr rq; cont
           end
       end) k) Q m.
Proof.
  intros Hf Hrel Hp Hacc Hcont. unfold acceptable, expected_code, handler in *.
  destruct (get_labstor_module_by_runtime_id modules (request_module rq m)) as [pkg|] eqn:Epkg; simpl in *.
  - destruct (lm_process_request_fn pkg) as [f|] eqn:Ef.
    + pose proof (Hserves _ _ _ Epkg Ef) as Hs. apply wp_kbind.
      eapply wp_mono; [by eapply (serves (Serves := Hs)); eauto|].
      intros r m' (Hrel' & Hcode & Hm). by apply Hcont.
    + apply wp_kbind, wp_lift. eapply wp_mono; [by eapply complete_invalid_spec|].
      intros [] m' (Hrel' & Hcode & Hm). by apply Hcont.
  - apply wp_kbind, wp_lift. eapply wp_mono; [by eapply complete_invalid_spec|].
    intros [] m' (Hrel' & Hcode & Hm). by apply Hcont.
Qed.

(** What serving the requests [rqs] achieves. *)
Record served (st st' : qp_abs) (rqs : list Z) (m m' : mem) : Prop := {
  sd_ids : qa_ids st' = qa_ids st;
  sd_out : qa_out st' = qa_out st;
  sd_done : ∀ rq id, rq ∈ rqs → qa_ids st !! rq = Some id → qa_cq st' !! id = Some rq;
  sd_old : ∀ id rq, qa_cq st !! id = Some rq → qa_cq st' !! id = Some rq;
  sd_code : ∀ rq, rq ∈ rqs → read 4 (rq + rq_code_) m' = expected_code rq m;
  sd_other : ∀ rq, rq ∈ objs → rq ∉ rqs → ∀ a, rq <= a < rq + 16 → m' !! a = m !! a
}.

(** What serving may change: the pair and its requests. *)
Definition queue_bytes (a : Z) : Prop :=
  sq_bytes h cap a ∨ cq_bytes h cap a ∨ ∃ rq, rq ∈ objs ∧ rq <= a < rq + 16.

Lemma worker_serve_spec fuel n st m k :
  (0 < fuel)%nat → worker_rel st m → servable st → length (qa_sq st) = n →
  (∀ rq, rq ∈ qa_sq st → acceptable rq m) →
  wp (worker_serve fuel modules n qaddr k)
     (λ r m', r.1 = inr tt ∧ modifies queue_bytes m m' ∧
        ∃ st', worker_rel st' m' ∧ qa_sq st' = [] ∧ served st st' (qa_sq st) m m') m.
Proof.
  intros Hf. revert st m k. induction n as [|n IH]; intros st m k Hrel Hsv Hlen Hacc.
  - destruct (qa_sq st) as [|] eqn:Esq; [|done]. cbn [worker_serve].
    apply wp_ret. split; [done|]. split; [apply modifies_refl|]. exists st. split; [done|]. split; [done|].
    split; try done; set_solver.
  - destruct (qa_sq st) as [|rq sq] eqn:Esq; [done|]. cbn [worker_serve].
    pose proof (wr_handle _ _ Hrel) as Hh. destruct (sv_pending _ Hsv rq) as (id & Hp); [rewrite Esq; set_solver|].
    pose proof Hp as (Hobj & Hid & _).
    apply wp_kbind, wp_lift, wp_load; [apply (valid_sub _ _ _ _ _ (ha_valid _ _ _ Hh)); simpl; lia|].
    simpl. rewrite (ha_base _ _ _ Hh), (proj2 (Z.eqb_neq _ _) (wl_base Hlay)).
    apply wp_kbind, wp_lift, (wp_load_handle qaddr h); [done|]. simpl.
    apply wp_kbind, wp_lift. eapply wp_mono; [by eapply dequeue_rel|].
    intros r m1 (-> & Hrel1 & Hm1). simpl.
    assert (∀ q a, q ∈ objs → q <= a < q + 16 → ¬ sq_bytes h cap a) as Hsqb.
    { intros q a Hq Ha Hb. pose proof (wl_sq Hlay _ Hq). ranges. }
    assert (∀ q, q ∈ rq :: sq → acceptable q m1 ∧ expected_code q m1 = expected_code q m) as Hacc1.
    { intros q Hq. eapply acceptable_frame; [exact Hm1| |by apply Hacc]. intros a Ha.
      destruct (sv_pending _ Hsv q) as (? & ? & _); [by rewrite Esq|]. by eapply Hsqb. }
    apply wp_kbind, wp_lift, wp_load.
    { apply (valid_sub _ _ _ _ _ (wr_valid _ _ Hrel1 _ Hobj)); autounfold with layout; simpl; lia. }
    simpl. fold (request_module rq m1).
    assert (pending (popped st) rq id) as Hp1 by (destruct Hp as (? & ? & ? & ?); by split).
    apply (serve_one fuel (popped st) m1 k rq id); [done..|apply Hacc1; set_solver|].
    intros k' m2 Hrel2 Hcode Hm2. rewrite (proj2 (Hacc1 rq ltac:(set_solver))) in Hcode.
    pose proof (servable_next st rq sq id Hsv Esq Hid) as Hsv2.
    pose proof (sv_nodup _ Hsv) as Hnd. rewrite Esq in Hnd. apply NoDup_cons in Hnd as [Hnin _].
    assert (∀ q, q ∈ objs → q ≠ rq → ∀ a, q <= a < q + 16 → ¬ request_bytes rq a) as Hother.
    { intros q Hq Hne a Ha Hb. pose proof (wl_cq Hlay _ Hq). pose proof (wl_objs Hlay q rq Hq Hobj Hne). ranges. }
    assert (∀ q, q ∈ sq → q ∈ objs ∧ q ≠ rq) as Hsub.
    { intros q Hq. split; [|by intros ->]. destruct (sv_pending _ Hsv q) as (? & ? & _); [rewrite Esq; set_solver|done]. }
    assert (∀ q, q ∈ sq → acceptable q m2 ∧ expected_code q m2 = expected_code q m) as Hacc2.
    { intros q Hq. destruct (Hsub q Hq). destruct (Hacc1 q ltac:(set_solver)) as [Ha1 He1]. rewrite <-He1.
      eapply acceptable_frame; [exact Hm2|by apply Hother|done]. }
    eapply wp_mono.
    { apply (IH (completed (popped st) rq id) m2 k' Hrel2 Hsv2).
      - simpl. rewrite Esq. simpl in *. lia.
      - simpl. rewrite Esq. simpl. intros q Hq. by apply Hacc2. }
    simpl. rewrite Esq. simpl. intros res m3 (Hres & Hm3 & st' & Hrel3 & Hsq3 & [Hids Hout Hdone Hold Hcodes Hoth]).
    split; [done|]. split.
    { eapply modifies_trans; [eapply modifies_trans|exact Hm3]; (eapply modifies_weaken; [eassumption|]);
        intros a Ha; [by left|]. destruct Ha; [right; by left|]. right. right. by exists rq. }
    exists st'. split; [done|]. split; [done|]. simpl in *. split; try done.
    + intros q kd [->|Hq]%elem_of_cons Hqi; [|by apply Hdone]. apply Hold. simplify_eq.
      by rewrite lookup_insert_eq.
    + intros kd q Hq. apply Hold. rewrite lookup_insert_ne; [done|]. intros <-.
      destruct Hp as (_ & _ & _ & Hn). congruence.
    + intros q [->|Hq]%elem_of_cons.
      * rewrite <-Hcode. apply read_ext. autounfold with layout. simpl. intros a Ha. apply Hoth with rq; [done|done|lia].
      * rewrite Hcodes by done. by apply Hacc2.
    + intros q Hq Hnq a Ha. apply not_elem_of_cons in Hnq as [Hne Hns].
      rewrite (Hoth q Hq Hns a Ha). destruct (Hm2 a) as [_ ->]; [|by eapply Hother].
      destruct (Hm1 a) as [_ ->]; [done|by eapply Hsqb].
Qed.
End worker.
