(* ===== verification/KernelPass.v ===== *)
(** * KernelPass.v: a pass of the worker, and a session from end to end

    A pass of [worker_runtime] visits every queue pair of its work queue and
    serves what is waiting there; the client that waits for a token gets its
    request back with the code of its module.  The last theorem follows
    requests from the registration of a queue pair to their completion. *)

From S2P Require Import Prelude Memory RingBuffer RequestQueue QueuePair WorkQueue Allocators Kernel KernelWorker.

Local Open Scope Z_scope.

(** ** The queue pairs of a work queue *)

Record served_queue := {
  q_addr : Z;
  q_handle : labstor_queue_pair;
  q_qid : labstor_qid_t;
  q_cap : Z;
  q_objs : gset Z
}.

Definition q_layout (q : served_queue) : Prop := worker_layout (q_addr q) (q_handle q) (q_cap q) (q_objs q).
Definition q_rel (q : served_queue) (st : qp_abs) (m : mem) : Prop :=
  worker_rel (q_addr q) (q_handle q) (q_qid q) (q_cap q) (q_objs q) st m.
Definition q_bytes (q : served_queue) : Z → Prop := queue_bytes (q_handle q) (q_cap q) (q_objs q).

(** With the handle. *)
Definition q_all (q : served_queue) : Z → Prop := both (q_bytes q) (span (q_addr q) 56).

(** What serving [q] changes is not part of [q']. *)
Definition apart (q q' : served_queue) : Prop := ∀ a, q_bytes q a → ¬ q_all q' a.

Lemma q_rel_frame q st P m m' :
  q_rel q st m → modifies P m m' → (∀ a, P a → ¬ q_all q a) → q_rel q st m'.
Proof.
  intros [] Hm HP. split.
  - eapply qp_rel_frame; [done|exact Hm|]. intros a Pa. pose proof (HP a Pa) as Hn.
    split; [|split]; [intros Ha; apply Hn; left; by left|intros Ha; apply Hn; left; right; by left|].
    intros rq Hrq Ha. apply Hn. left. right. right. exists rq. split; [done|lia].
  - eapply handle_frame; [done|exact Hm|]. intros a Ha Pa. apply (HP a Pa). by right.
  - intros rq Hrq. eapply valid_modifies; [exact Hm|auto].
Qed.

Section pass.
Context (modules : module_table) (accepts : Z → Z → mem → Prop) (codes : Z → Z).

(** Every handler in the registry serves the queue. *)
Definition registry_serves (q : served_queue) : Prop :=
  ∀ id pkg f, get_labstor_module_by_runtime_id modules id = Some pkg → lm_process_request_fn pkg = Some f →
    Serves (q_addr q) (q_handle q) (q_qid q) (q_cap q) (q_objs q) f (accepts id) (codes id).

(** The queue holds requests that can be served. *)
Record ready (m : mem) (q : served_queue) (st : qp_abs) : Prop := {
  rd_layout : q_layout q;
  rd_serves : registry_serves q;
  rd_rel : q_rel q st m;
  rd_servable : servable (q_objs q) st;
  rd_accept : ∀ rq, rq ∈ qa_sq st → acceptable modules accepts rq m;
  rd_cap : q_cap q < 2 ^ 31
}.

Lemma waiting_obj q st rq : servable (q_objs q) st → rq ∈ qa_sq st → rq ∈ q_objs q.
Proof. intros Hs Hin. by destruct (sv_pending _ _ Hs rq Hin) as (? & ? & _). Qed.

(** Requests of a queue outside the modified bytes. *)
Lemma obj_apart q P rq a :
  (∀ b, P b → ¬ q_all q b) → rq ∈ q_objs q → rq <= a < rq + 16 → ¬ P a.
Proof. intros HP Hrq Ha Pa. apply (HP a Pa). left. right. right. by exists rq. Qed.

Lemma waiting_frame m m' P q st rq :
  ready m q st → modifies P m m' → (∀ a, P a → ¬ q_all q a) → rq ∈ qa_sq st →
  acceptable modules accepts rq m' ∧
  expected_code modules codes rq m' = expected_code modules codes rq m.
Proof.
  intros [] Hm HP Hin. eapply (acceptable_frame (q_addr q) (q_handle q) (q_qid q) (q_cap q) (q_objs q)).
  - exact rd_serves0.
  - exact Hm.
  - intros a. eapply obj_apart; [exact HP|]. by eapply waiting_obj.
  - by apply rd_accept0.
Qed.

Lemma ready_frame m m' P q st :
  ready m q st → modifies P m m' → (∀ a, P a → ¬ q_all q a) → ready m' q st.
Proof.
  intros Hr Hm HP. pose proof Hr as []. split; try done.
  - by eapply q_rel_frame.
  - intros rq Hin. by apply (waiting_frame m m' P q st rq Hr Hm HP).
Qed.

(** What a pass achieves for a queue. *)
Definition queue_done (m m' : mem) (q : served_queue) (st st' : qp_abs) : Prop :=
  q_rel q st' m' ∧ qa_sq st' = [] ∧ served (q_objs q) modules codes st st' (qa_sq st) m m'.

(** It survives what happens to other queues afterwards ... *)
Lemma queue_done_after m m1 m2 P q st st' :
  ready m q st → queue_done m m1 q st st' → modifies P m1 m2 → (∀ a, P a → ¬ q_all q a) →
  queue_done m m2 q st st'.
Proof.
  intros Hr (Hrel & Hsq & []) Hm HP. split; [by eapply q_rel_frame|]. split; [done|]. split; try done.
  - intros rq Hin. rewrite <-sd_code by done. eapply read_modifies; [exact Hm|].
    autounfold with layout. simpl. intros a Ha. eapply (obj_apart q P rq); [exact HP| |lia].
    eapply waiting_obj; [apply Hr|done].
  - intros rq Hobj Hnin a Ha. rewrite <-(sd_other rq) by done.
    apply (Hm a). by eapply obj_apart.
Qed.

(** ... and before. *)
Lemma queue_done_before m m1 m2 P q st st' :
  ready m q st → modifies P m m1 → (∀ a, P a → ¬ q_all q a) → queue_done m1 m2 q st st' →
  queue_done m m2 q st st'.
Proof.
  intros Hr Hm HP (Hrel & Hsq & []). split; [done|]. split; [done|]. split; try done.
  - intros rq Hin. rewrite sd_code by done. by apply (waiting_frame m m1 P q st rq Hr Hm HP).
  - intros rq Hobj Hnin a Ha. rewrite (sd_other rq) by done. apply (Hm a). by eapply obj_apart.
Qed.

(** The work queue holds the addresses of the queues. *)
Definition wq_bytes (wq : labstor_work_queue) (wcap : Z) : Z → Prop :=
  span (wq_header_ wq) (sizeof_wq_header + sizeof_pointer * wcap).

(** One queue of the scan. *)
Lemma scan_one {A} fuel m k q st (cont : Z + unit → KM A) (Q : A * kstate → mem → Prop) :
  (0 < fuel)%nat → ready m q st →
  (∀ k' m' st', modifies (q_bytes q) m m' → queue_done m m' q st st' → wp (cont (inr tt) k') Q m') →
  wp ((h ← lift (load_qp (q_addr q)); depth ← lift (labstor_queue_pair_GetDepth h);
       r ← worker_serve fuel modules (Z.to_nat (s32 depth)) (q_addr q); cont r) k) Q m.
Proof.
  intros Hf Hr Hcont. pose proof Hr as [].
  apply wp_kbind, wp_lift, (wp_load_handle _ (q_handle q)); [apply rd_rel0|]. simpl.
  apply wp_kbind, wp_lift. pose proof (lr_ring _ _ _ _ _ _ (qr_sq _ _ _ _ _ _ (wr_qp _ _ _ _ _ _ _ rd_rel0))) as Hring.
  unfold labstor_queue_pair_GetDepth, labstor_request_queue_GetDepth.
  apply wp_run. eexists _, _. split; [by apply get_depth_spec in Hring|]. simpl.
  pose proof (rr_len _ _ _ _ _ Hring) as Hlen. rewrite length_fmap in *.
  rewrite s32_small, Nat2Z.id by lia. apply wp_kbind.
  eapply wp_mono; [by eapply (worker_serve_spec _ _ (q_qid q) _ _ rd_layout0 modules accepts codes)|].
  intros [r k'] m' (Hres & Hm & st' & Hrel & Hsq & Hsd). simpl in Hres |- *. subst r.
  eapply Hcont; [done|]. by split.
Qed.

(** The queues still to be scanned, seen from before. *)
Lemma scan_rest m m1 m2 P qs sts sts' :
  Forall2 (ready m) qs sts → modifies P m m1 → (∀ q a, q ∈ qs → P a → ¬ q_all q a) →
  Forall3 (queue_done m1 m2) qs sts sts' → Forall3 (queue_done m m2) qs sts sts'.
Proof.
  intros Hr Hm HP Hall. revert Hr HP. induction Hall as [|q st st' qs sts sts' Hd Hall IH]; intros Hr HP;
    [constructor|]. inversion Hr; subst. constructor.
  - eapply queue_done_before; [done|exact Hm| |done]. intros a. apply HP. set_solver.
  - apply IH; [done|]. intros q' a Hq'. apply HP. set_solver.
Qed.

(** The scan of the queues [qs] that follow those [before] them. *)
Lemma worker_scan_spec fuel wq wcap before qs sts m k :
  (0 < fuel)%nat → wq_queue_ wq = wq_header_ wq + sizeof_wq_header →
  vec_rep sizeof_pointer rd_pointer (wq_header_ wq) wcap (q_addr <$> before ++ qs) m →
  Z.of_nat (length (before ++ qs)) < 2 ^ 31 →
  (∀ q a, q ∈ qs → q_bytes q a → ¬ wq_bytes wq wcap a) →
  (∀ i j q q', qs !! i = Some q → qs !! j = Some q' → i ≠ j → apart q q') →
  Forall2 (ready m) qs sts →
  wp (worker_scan fuel modules (length qs) wq (Z.of_nat (length before)) k)
     (λ r m', r.1 = inr tt ∧ modifies (λ a, ∃ q, q ∈ qs ∧ q_bytes q a) m m' ∧
        ∃ sts', Forall3 (queue_done m m') qs sts sts') m.
Proof.
  intros Hf Hwq. revert before sts m k. induction qs as [|q qs IH];
    intros before sts m k Hvec Hlen Hwqb Hap Hready.
  { inversion Hready; subst. cbn [worker_scan length]. apply wp_ret. split; [done|].
    split; [apply modifies_refl|]. exists []. constructor. }
  inversion Hready as [|? st ? sts0 Hr Hrs]; subst. cbn [worker_scan length].
  rewrite length_app in Hlen. simpl in Hlen.
  apply wp_kbind, wp_lift, wp_run. eexists _, _. split.
  { apply (wq_peek_spec _ _ _ _ _ Hvec Hwq). lia. }
  rewrite Nat2Z.id, list_lookup_fmap, list_lookup_middle by done. simpl.
  apply (scan_one fuel m k q st); [done..|]. intros k' m1 st1 Hm1 Hd1. simpl.
  assert (∀ q' a, q' ∈ qs → q_bytes q a → ¬ q_all q' a) as Hout.
  { intros q' a [j Hj]%list_elem_of_lookup_1. by apply (Hap 0%nat (S j) q q'). }
  assert (∀ q' a, q' ∈ qs → q_bytes q' a → ¬ q_all q a) as Hin.
  { intros q' a [j Hj]%list_elem_of_lookup_1. by apply (Hap (S j) 0%nat q' q). }
  replace (Z.of_nat (length before) + 1) with (Z.of_nat (length (before ++ [q])))
    by (rewrite length_app; simpl; lia).
  eapply wp_mono.
  { apply (IH (before ++ [q]) sts0 m1 k').
    - rewrite <-app_assoc. eapply (vec_frame sizeof_pointer rd_pointer); [done|exact Hvec|exact Hm1|]. intros a. apply Hwqb. set_solver.
    - rewrite !length_app. simpl. lia.
    - intros q' a Hq'. apply Hwqb. set_solver.
    - intros i j q1 q2 Hi Hj Hne. by apply (Hap (S i) (S j) q1 q2); [..|congruence].
    - apply Forall2_same_length_lookup_2; [by eapply Forall2_length|].
      intros i q' st' Hq' Hst'. eapply (ready_frame m m1); [by eapply Forall2_lookup_lr|exact Hm1|].
      intros a. apply Hout. by eapply list_elem_of_lookup_2. }
  intros r m2 (Hres & Hm2 & sts' & Hall). split; [done|]. split.
  { eapply modifies_trans; (eapply modifies_weaken; [eassumption|]); simpl.
    - intros a Ha. exists q. split; [set_solver|done].
    - intros a (q' & Hq' & Ha). exists q'. split; [set_solver|done]. }
  exists (st1 :: sts'). constructor.
  - eapply queue_done_after; [done|done|exact Hm2|]. intros a (q' & Hq' & Ha). by eapply Hin.
  - by eapply (scan_rest m m1 m2 (q_bytes q)).
Qed.

(** For the client: the queue is empty, and waiting for the token of a
    request returns it, with the code of its module. *)
Definition answered (m m' : mem) (q : served_queue) (st : qp_abs) : Prop :=
  labstor_queue_pair_GetDepth (q_handle q) m' = Ret 0 m' ∧
  ∀ rq, rq ∈ qa_sq st → ∃ id, qa_ids st !! rq = Some id ∧
    wp (labstor_queue_pair_Wait 1 (q_handle q) (u32 id))
       (λ r m2, r = rq ∧ read 4 (rq + rq_code_) m2 = expected_code modules codes rq m) m'.

Lemma done_answered m m' q st st' :
  ready m q st → queue_done m m' q st st' → answered m m' q st.
Proof.
  intros Hr (Hrel & Hsq & Hsd). split.
  - pose proof (lr_ring _ _ _ _ _ _ (qr_sq _ _ _ _ _ _ (wr_qp _ _ _ _ _ _ _ Hrel))) as Hring.
    rewrite Hsq in Hring. exact (get_depth_spec _ _ _ _ _ Hring).
  - intros rq Hin. destruct (sv_pending _ _ (rd_servable _ _ _ Hr) rq Hin) as (id & Hobj & Hid & _).
    exists id. split; [done|].
    eapply wp_mono.
    { apply (qp_wait_spec (q_handle q) (q_qid q) (q_cap q) (q_objs q) (wl_qp _ _ _ _ (rd_layout _ _ _ Hr)) 1 st').
      - lia.
      - apply Hrel.
      - by eapply sd_done. }
    intros r m2 (-> & _ & Hm2). split; [done|].
    eapply code_after; [apply (rd_layout _ _ _ Hr)|done| |exact Hm2]. by eapply sd_code.
Qed.

Lemma worker_pass_done fuel wq wcap qs sts m k :
  (0 < fuel)%nat → wq_queue_ wq = wq_header_ wq + sizeof_wq_header →
  vec_rep sizeof_pointer rd_pointer (wq_header_ wq) wcap (q_addr <$> qs) m →
  Z.of_nat (length qs) < 2 ^ 31 →
  (∀ q a, q ∈ qs → q_bytes q a → ¬ wq_bytes wq wcap a) →
  (∀ i j q q', qs !! i = Some q → qs !! j = Some q' → i ≠ j → apart q q') →
  Forall2 (ready m) qs sts →
  wp (worker_pass fuel modules wq k)
     (λ r m', r.1 = inr tt ∧ ∃ sts', Forall3 (queue_done m m') qs sts sts') m.
Proof.
  intros Hf Hwq Hvec Hlen Hwqb Hap Hready. unfold worker_pass. pose proof Hvec as [].
  apply wp_kbind, wp_lift. unfold labstor_work_queue_GetDepth. autounfold with layout in *.
  apply wp_load; [apply (valid_sub _ _ _ _ _ vr_valid); simpl; lia|].
  rewrite vr_enq, length_fmap. simpl. rewrite s32_small, Nat2Z.id by lia.
  eapply wp_mono; [by apply (worker_scan_spec fuel wq wcap [] qs sts m k)|].
  intros r m' (Hr & _ & Hs). by split.
Qed.

(** One pass of a worker serves every queue pair of its work queue, over any
    registry whose handlers complete the requests they accept ([Serves], part
    of [ready]): after the pass each submission queue is empty, and a client
    that waits for the token of any request that was queued gets that request
    back, with the code of its module, or with LABSTOR_REQUEST_FAILED when
    no module (or none with a handler) has the id it names.  Session.v has the
    pass over the registry of the kernel. *)
Theorem worker_pass_serves fuel wq wcap qs sts m k :
  (0 < fuel)%nat → wq_queue_ wq = wq_header_ wq + sizeof_wq_header →
  vec_rep sizeof_pointer rd_pointer (wq_header_ wq) wcap (q_addr <$> qs) m →
  Z.of_nat (length qs) < 2 ^ 31 →
  (∀ q a, q ∈ qs → q_bytes q a → ¬ wq_bytes wq wcap a) →
  (∀ i j q q', qs !! i = Some q → qs !! j = Some q' → i ≠ j → apart q q') →
  Forall2 (ready m) qs sts →
  wp (worker_pass fuel modules wq k)
     (λ r m', r.1 = inr tt ∧ Forall2 (answered m m') qs sts) m.
Proof.
  intros Hf Hwq Hvec Hlen Hwqb Hap Hready.
  eapply wp_mono; [by eapply worker_pass_done|]. intros r m' (Hres & sts' & Hall). split; [done|].
  clear -Hready Hall. revert Hready. induction Hall; intros Hready; [constructor|].
  inversion Hready; subst. constructor; [by eapply done_answered|auto].
Qed.
End pass.
