(* ===== verification/Session.v ===== *)
(** * Session.v: requests from registration to completion

    A queue pair is initialised by the server, registered with the work
    orchestrator by the netlink message of [register_qp], filled by a client,
    served by a pass of the worker, and drained by the client.  The requests
    are those of the IPC test module, and the registry is the one the kernel
    modules build when they are loaded. *)

From S2P Require Import Prelude Memory RingBuffer RequestQueue QueuePair WorkQueue Allocators Kernel KernelWorker KernelPass.

Local Open Scope Z_scope.

(** ** Client code *)

Fixpoint submit (fuel : nat) (h : labstor_queue_pair) (rqs : list Z) : M (list Z) :=
  match rqs with
  | [] => mret []
  | rq :: rqs' =>
      tok ← labstor_queue_pair_Enqueue fuel h rq;
      toks ← submit fuel h rqs';
      mret (qtok_req_id_ tok :: toks)
  end.

Fixpoint wait_all (fuel : nat) (h : labstor_queue_pair) (toks : list Z) : M (list Z) :=
  match toks with
  | [] => mret []
  | tok :: toks' =>
      rq ← labstor_queue_pair_Wait fuel h tok;
      rqs ← wait_all fuel h toks';
      mret (rq :: rqs)
  end.

(** ** Registration *)

(** The message that registers one queue pair with a worker. *)
Record register_message (rq_vec worker_id sq_off cq_off : Z) (m : mem) : Prop := {
  rm_msg_valid : valid m rq_vec 48;
  rm_count : read 4 (rq_vec + 16) m = 1;
  rm_sq_off : s32 (read 4 (rq_vec + 24 + 8) m) = sq_off;
  rm_cq_off : s32 (read 4 (rq_vec + 24 + 12) m) = cq_off;
  rm_worker : read 4 (rq_vec + 24 + 20) m = worker_id
}.

Lemma register_message_frame rq_vec w s c P m m' :
  register_message rq_vec w s c m → modifies P m m' → (∀ a, span rq_vec 48 a → ¬ P a) →
  register_message rq_vec w s c m'.
Proof.
  intros [] Hm HP. unfold span in HP.
  assert (∀ k, 0 <= k <= 44 → read 4 (rq_vec + k) m' = read 4 (rq_vec + k) m) as Hrd.
  { intros k Hk. eapply read_modifies; [exact Hm|]. simpl. intros a Ha. apply HP. lia. }
  split; rewrite <-?Z.add_assoc; rewrite ?Hrd by lia; rewrite ?Z.add_assoc; try done. by eapply valid_modifies.
Qed.

(** The kernel state: the IPC manager has the region [base], and worker
    [i] has the work queue [wq]. *)
Record kernel_ready (k : kstate) (base i : Z) (w : labstor_worker_struct) (ws : list labstor_worker_struct)
    : Prop := {
  kr_region : labstor_shmem_allocator_GetRegion (im_alloc (k_ipc_manager_ k)) = base;
  kr_base : base ≠ 0;
  kr_workers : k_workers k = Some ws;
  kr_id : 0 <= i;
  kr_worker : ws !! Z.to_nat i = Some w
}.

(** One queue pair is registered: its kernel handle is stored before the
    submission queue, and its address appended to the work queue. *)
Lemma register_qp_spec k base i w ws rq_vec sq_off cq_off wcap l m :
  kernel_ready k base i w ws →
  register_message rq_vec i sq_off cq_off m →
  let wq := lw_work_queue_ w in
  let qaddr := base + (sq_off - 56) in
  let h := queue_pair_at base (base + sq_off) (base + cq_off) in
  wq_queue_ wq = wq_header_ wq + sizeof_wq_header →
  vec_rep sizeof_pointer rd_pointer (wq_header_ wq) wcap l m → Z.of_nat (length l) < wcap →
  valid m qaddr 56 → 0 <= qaddr → 0 <= base < 2 ^ 63 → 0 <= base + cq_off < 2 ^ 63 →
  base + sq_off < 2 ^ 63 →
  (∀ a, span qaddr 56 a → ¬ span (wq_header_ wq) (sizeof_wq_header + sizeof_pointer * wcap) a) →
  (∀ a, span rq_vec 48 a → ¬ span qaddr 56 a) →
  wp (register_qp rq_vec k)
     (λ r m', r = (true, k) ∧ handle_at qaddr h m' ∧
        vec_rep sizeof_pointer rd_pointer (wq_header_ wq) wcap (l ++ [qaddr]) m' ∧
        modifies (both (span qaddr 56) (wq_bytes wq wcap)) m m') m.
Proof.
  intros [] [] wq qaddr h Hwq Hvec Hlen Hv Hq0 Hb Hcq Hsq Hapart Hmsg. unfold register_qp.
  apply wp_kbind, wp_ret. simpl. unfold ipc_manager_IsInitialized, ipc_manager_GetRegion.
  rewrite kr_region0, (proj2 (Z.eqb_neq _ _) kr_base0). simpl.
  apply wp_kbind, wp_lift. wp_step. rewrite rm_count0. simpl.
  do 2 apply wp_kbind. apply wp_lift. wp_step. simpl. rewrite rm_worker0.
  apply wp_kbind. unfold get_worker. apply wp_kbind, wp_ret. simpl.
  rewrite kr_workers0, (proj2 (Z.ltb_ge _ _) kr_id0), kr_worker0. apply wp_ret. simpl.
  do 3 (apply wp_kbind, wp_lift; wp_step; simpl). rewrite rm_sq_off0, rm_cq_off0.
  assert (u64 (base + (sq_off - 56)) = qaddr) as -> by (apply u64_small; lia).
  set (ptr := {| qpp_sq_off_ := sq_off; qpp_cq_off_ := cq_off; qpp_pid_ := _ |}).
  assert (labstor_queue_pair_Attach ptr base = h) as -> by reflexivity.
  apply wp_kbind, wp_lift. eapply wp_mono.
  { apply (store_qp_handle qaddr h m Hv); simpl; autounfold with layout; subst qaddr; lia. }
  intros [] m1 [Hh Hm1]. simpl. apply wp_kbind, wp_lift. eapply wp_mono.
  { apply (wq_enqueue_spec wq wcap l m1 qaddr); [|done|subst qaddr; lia].
    eapply (vec_frame sizeof_pointer rd_pointer); [done|exact Hvec|exact Hm1|done]. }
  intros ok m2 H. simpl in H. rewrite decide_True in H by done. destruct H as (-> & Hvec2 & Hm2). simpl. do 2 apply wp_ret.
  split; [done|]. split; [|split; [done|]].
  - eapply handle_frame; [exact Hh|exact Hm2|]. exact Hapart.
  - eapply modifies_trans; (eapply modifies_weaken; [eassumption|]); intros a Ha; [by left|by right].
Qed.

(** ** Submission *)

(** The state after the requests [rqs] were submitted to a fresh pair. *)
Record submitted (rqs : list Z) (st : qp_abs) : Prop := {
  sm_enq : qa_enq st = Z.of_nat (length rqs);
  sm_sq : qa_sq st = rqs;
  sm_ids : ∀ i rq, rqs !! i = Some rq → qa_ids st !! rq = Some (Z.of_nat i);
  sm_out : ∀ id, id ∈ qa_out st ↔ 0 <= id < Z.of_nat (length rqs);
  sm_cq : qa_cq st = ∅
}.

Section session.
Context (qaddr : Z) (h : labstor_queue_pair) (qid : labstor_qid_t) (cap : Z) (objs : gset Z).
Hypothesis Hlay : worker_layout qaddr h cap objs.
Hypothesis Hcap : 0 < cap < 2 ^ 30 - 6.

Lemma enqueue_rel fuel st rqs m rq :
  (0 < fuel)%nat → worker_rel qaddr h qid cap objs st m → submitted rqs st →
  rq ∈ objs → rq ∉ rqs → Z.of_nat (length rqs) < cap →
  wp (labstor_queue_pair_Enqueue fuel h rq)
     (λ tok m', qtok_req_id_ tok = Z.of_nat (length rqs) ∧
        (∃ st', worker_rel qaddr h qid cap objs st' m' ∧ submitted (rqs ++ [rq]) st') ∧
        modifies (both (sq_bytes h cap) (span rq 4)) m m') m.
Proof.
  intros Hf [] [] Hobj Hnew Hlen.
  eassert (qp_spec_step cap objs st (QEnqueue rq) = Some (_, _)) as Hs.
  { simpl. rewrite decide_True; [reflexivity|]. rewrite sm_sq0, sm_enq0. split; [done|]. split; [lia|]. split.
    - intros id Hid%sm_out0. lia.
    - apply ids_ok_spec; [lia|]. right. lia. }
  pose proof (qp_enqueue_refines h qid cap objs (wl_qp _ _ _ _ Hlay) (wl_handle _ _ _ _ Hlay) fuel st m rq _ _
    Hf wr_qp Hs) as Hwp.
  simpl in Hwp. apply wp_bind_inv in Hwp. eapply wp_mono; [exact Hwp|]. intros tok m' (Htok & Hrel & Hm).
  injection Htok as Htok. split; [rewrite Htok, sm_enq0; apply u32_small; lia|]. split; [|done].
  eexists. split; [split; [exact Hrel|..]|].
  - eapply handle_frame; [done|exact Hm|]. pose proof (wl_qaddr_sq _ _ _ _ Hlay).
    pose proof (wl_qaddr _ _ _ _ Hlay _ Hobj). unfold sq_bytes, lrq_span, both, span, outside in *.
    autounfold with layout in *. simpl in *. intros; lia.
  - intros q Hq. eapply valid_modifies; [exact Hm|auto].
  - split; simpl; rewrite ?sm_sq0, ?sm_enq0, ?length_app; simpl; try done; try lia.
    + intros i q [Hi|[-> ->]]%lookup_snoc; [|by rewrite lookup_insert_eq].
      rewrite lookup_insert_ne; [by apply sm_ids0|]. intros ->. by apply Hnew, (list_elem_of_lookup_2 _ i).
    + intros id. rewrite elem_of_union, elem_of_singleton, sm_out0. lia.
Qed.

(** What submission may change. *)
Definition submit_bytes (a : Z) : Prop := sq_bytes h cap a ∨ ∃ rq, rq ∈ objs ∧ rq <= a < rq + 4.

Lemma submit_spec fuel rqs before st m :
  (0 < fuel)%nat → worker_rel qaddr h qid cap objs st m → submitted before st →
  NoDup (before ++ rqs) → (∀ rq, rq ∈ rqs → rq ∈ objs) → Z.of_nat (length (before ++ rqs)) <= cap →
  wp (submit fuel h rqs)
     (λ toks m', toks = Z.of_nat <$> seq (length before) (length rqs) ∧
        (∃ st', worker_rel qaddr h qid cap objs st' m' ∧ submitted (before ++ rqs) st') ∧
        modifies submit_bytes m m') m.
Proof.
  intros Hf. revert before st m. induction rqs as [|rq rqs IH]; intros before st m Hrel Hsub Hnd Hobj Hlen.
  - rewrite app_nil_r. apply wp_ret. split; [done|]. split; [by exists st|apply modifies_refl].
  - cbn [submit]. apply wp_bind. rewrite length_app in Hlen. simpl in Hlen.
    assert (rq ∉ before) as Hnew.
    { apply NoDup_app in Hnd as (_ & Hd & _). intros Hin. apply (Hd rq Hin). set_solver. }
    eapply wp_mono; [apply (enqueue_rel fuel st before); eauto; [set_solver|lia]|].
    intros tok m1 (Htok & (st1 & Hrel1 & Hsub1) & Hm1). apply wp_bind.
    eapply wp_mono.
    { apply (IH (before ++ [rq]) st1 m1); try done; rewrite <-?app_assoc; try done; [set_solver|].
      rewrite length_app. simpl. lia. }
    rewrite length_app, <-app_assoc. simpl. intros toks m2 (-> & Hst2 & Hm2). apply wp_ret.
    rewrite Htok, Nat.add_1_r. split; [done|]. split; [done|].
    eapply modifies_trans; [|exact Hm2]. eapply modifies_weaken; [exact Hm1|].
    intros a [Ha|Ha]; [by left|right]. exists rq. split; [apply Hobj; set_solver|exact Ha].
Qed.

Lemma submitted_servable rqs st :
  submitted rqs st → NoDup rqs → (∀ rq, rq ∈ rqs → rq ∈ objs) → servable objs st.
Proof.
  intros [] Hnd Hobj. split; rewrite ?sm_sq0; try done.
  - intros rq Hin. destruct (list_elem_of_lookup_1 _ _ Hin) as [i Hi]. exists (Z.of_nat i).
    split; [by apply Hobj|]. split; [by apply sm_ids0|]. split; [|by rewrite sm_cq0].
    apply sm_out0. pose proof (lookup_lt_Some _ _ _ Hi). lia.
  - intros p q id [i Hi]%list_elem_of_lookup_1 [j Hj]%list_elem_of_lookup_1 Hp Hq.
    rewrite (sm_ids0 _ _ Hi) in Hp. rewrite (sm_ids0 _ _ Hj) in Hq.
    assert (i = j) as -> by (simplify_eq; lia). congruence.
Qed.

(** ** Waiting *)

Lemma wait_all_spec fuel rqs ids st m :
  (0 < fuel)%nat → qp_rel h qid cap objs st m → NoDup ids →
  Forall2 (λ id rq, qa_cq st !! id = Some rq) ids rqs →
  wp (wait_all fuel h (u32 <$> ids)) (λ r m', r = rqs ∧ modifies (cq_bytes h cap) m m') m.
Proof.
  intros Hf Hrel Hnd Hall. revert st m Hrel Hnd Hall. revert rqs.
  induction ids as [|id ids IH]; intros rqs st m Hrel Hnd Hall; inversion Hall as [|? rq ? rqs' Hid Hrest]; subst.
  - apply wp_ret. split; [done|apply modifies_refl].
  - apply NoDup_cons in Hnd as [Hnin Hnd]. cbn [fmap list_fmap wait_all]. apply wp_bind.
    eapply wp_mono; [by apply (qp_wait_spec h qid cap objs (wl_qp _ _ _ _ Hlay) fuel st m id rq)|].
    intros r m1 (-> & Hrel1 & Hm1). apply wp_bind. eapply wp_mono.
    { apply (IH rqs' (waited st id) m1 Hrel1 Hnd). apply Forall2_same_length_lookup_2; [by eapply Forall2_length|].
      intros i id' rq' Hi Hr. simpl. rewrite lookup_delete_ne; [by eapply (Forall2_lookup_lr _ _ _ _ _ _ Hrest)|].
      intros ->. by apply Hnin, (list_elem_of_lookup_2 _ i). }
    intros rs m2 (-> & Hm2). apply wp_ret. split; [done|]. by eapply modifies_trans.
Qed.
End session.

(** ** The registry of the kernel modules *)

Lemma kernel_modules_lookup fuel env fresh id :
  get_labstor_module_by_runtime_id (kernel_modules fuel env fresh) id =
    if decide (id = IPC_TEST_MODULE_RUNTIME_ID) then Some (ipc_test_pkg fuel)
    else if decide (id = SHMEM_MODULE_RUNTIME_ID) then Some (shmem_module env)
    else if decide (id = IPC_MANAGER_MODULE_RUNTIME_ID) then Some (ipc_manager_module env)
    else if decide (id = WORKER_MODULE_RUNTIME_ID) then Some (worker_module env fresh)
    else if decide (id = BLKDEV_TABLE_RUNTIME_ID) then Some (blkdev_table_pkg fuel env)
    else None.
Proof.
  unfold kernel_modules. cbn [foldl].
  rewrite !get_register by (rewrite ?length_register; try done; simpl; lia). simpl.
  unfold IPC_TEST_MODULE_RUNTIME_ID, SHMEM_MODULE_RUNTIME_ID, IPC_MANAGER_MODULE_RUNTIME_ID,
    WORKER_MODULE_RUNTIME_ID, BLKDEV_TABLE_RUNTIME_ID, MAX_LABSTOR_MODULES.
  repeat (case_decide; [try (exfalso; lia); try done|]); try (exfalso; lia); try done.
  unfold get_labstor_module_by_runtime_id, init_labstor_module_manager.
  case_match; [|done]. rewrite lookup_replicate_2; [done|]. unfold MAX_LABSTOR_MODULES in *. lia.
Qed.

(** The only requests of interest here are those of the IPC test. *)
Definition accepts_ipc (id rq : Z) (m : mem) : Prop :=
  id = IPC_TEST_MODULE_RUNTIME_ID ∧ is_ipc_test rq m.

Lemma kernel_modules_serve fuel env fresh q :
  (0 < fuel)%nat → q_layout q →
  registry_serves (kernel_modules fuel env fresh) accepts_ipc (λ _, LABSTOR_REQUEST_SUCCESS) q.
Proof.
  intros Hf Hlay id pkg f Hget Hfn. rewrite kernel_modules_lookup in Hget.
  pose proof (ipc_test_serves _ _ (q_qid q) _ _ Hlay fuel Hf) as Hipc.
  unfold accepts_ipc. case_decide as H0; simplify_eq/=.
  - destruct Hipc as [Hs Hl]. split.
    + intros st m k rq rid Hrel Hp [_ Hacc]. by eapply Hs.
    + intros P m m' rq Hm HP [_ Hacc]. split; [done|]. by eapply Hl.
  - split; [intros ?????? ? [? _]; contradiction|intros ?????? [? _]; contradiction].
Qed.

(** *** A pass of a worker over this registry *)

(** The requests that a pass answers: those of the IPC test, and those whose
    namespace is of no module or of one without a handler for workers.  The
    remaining ones are for the block device table, whose unregister requests
    are never completed. *)
Definition pass_request (rq : Z) (m : mem) : Prop :=
  request_module rq m = IPC_TEST_MODULE_RUNTIME_ID ∧ is_ipc_test rq m ∨
  request_module rq m ≠ IPC_TEST_MODULE_RUNTIME_ID ∧ request_module rq m ≠ BLKDEV_TABLE_RUNTIME_ID.

Definition pass_code (rq : Z) (m : mem) : Z :=
  if decide (request_module rq m = IPC_TEST_MODULE_RUNTIME_ID) then LABSTOR_REQUEST_SUCCESS
  else u32 LABSTOR_REQUEST_FAILED.

(** A queue pair that holds such requests. *)
Record pass_ready (m : mem) (q : served_queue) (st : qp_abs) : Prop := {
  ps_layout : q_layout q;
  ps_rel : q_rel q st m;
  ps_servable : servable (q_objs q) st;
  ps_requests : ∀ rq, rq ∈ qa_sq st → pass_request rq m;
  ps_cap : q_cap q < 2 ^ 31
}.

(** What the client sees of it after the pass. *)
Definition pass_answered (m m' : mem) (q : served_queue) (st : qp_abs) : Prop :=
  labstor_queue_pair_GetDepth (q_handle q) m' = Ret 0 m' ∧
  ∀ rq, rq ∈ qa_sq st → ∃ id, qa_ids st !! rq = Some id ∧
    wp (labstor_queue_pair_Wait 1 (q_handle q) (u32 id))
       (λ r m2, r = rq ∧ read 4 (rq + rq_code_) m2 = pass_code rq m) m'.

Lemma kernel_handler fuel env fresh rq m :
  pass_request rq m →
  handler (kernel_modules fuel env fresh) rq m =
  if decide (request_module rq m = IPC_TEST_MODULE_RUNTIME_ID) then Some (ipc_test_process_request_fn fuel) else None.
Proof.
  intros Hrq. unfold handler. rewrite kernel_modules_lookup. case_decide as Hid; [done|].
  destruct Hrq as [[? _]|[_ Hb]]; [done|]. repeat (case_decide; [done|]). done.
Qed.

Lemma pass_ready_ready fuel env fresh m q st :
  (0 < fuel)%nat → pass_ready m q st →
  ready (kernel_modules fuel env fresh) accepts_ipc (λ _, LABSTOR_REQUEST_SUCCESS) m q st.
Proof.
  intros Hf []. split; [done|by apply kernel_modules_serve|done|done| |done].
  intros rq Hin Hsome. pose proof (ps_requests0 rq Hin) as Hrq. rewrite (kernel_handler _ _ _ _ _ Hrq) in Hsome.
  destruct Hrq as [[Hid Hop]|[Hid _]]; [by split|]. rewrite decide_False in Hsome by done. by destruct Hsome.
Qed.

Lemma answered_pass fuel env fresh m m' q st :
  pass_ready m q st →
  answered (kernel_modules fuel env fresh) (λ _, LABSTOR_REQUEST_SUCCESS) m m' q st → pass_answered m m' q st.
Proof.
  intros [] [Hd Ha]. split; [done|]. intros rq Hin. destruct (Ha rq Hin) as (id & Hid & Hw). exists id. split; [done|].
  assert (expected_code (kernel_modules fuel env fresh) (λ _, LABSTOR_REQUEST_SUCCESS) rq m = pass_code rq m) as E.
  { unfold expected_code, pass_code. rewrite kernel_handler by auto. by case_decide. }
  by rewrite E in Hw.
Qed.

(** C12. One pass of a kernel worker, with the registry that the init functions
    of the shared-memory, IPC-manager, orchestrator, IPC-test and
    block-device-table modules build, over a work queue of queue pairs that do
    not overlap and whose queued requests are IPC-test requests or name no
    module (or one without a handler for workers): the pass returns, each
    submission queue is empty, and a client that waits for the token of any
    request that was queued gets that request back, with the code of success
    when it is of the IPC test and with LABSTOR_REQUEST_FAILED otherwise.
    Requests for the block device table and for the driver are left out: some
    of them are never completed. *)
Theorem kernel_pass_serves fuel env fresh wq wcap qs sts m k :
  (0 < fuel)%nat → wq_queue_ wq = wq_header_ wq + sizeof_wq_header →
  vec_rep sizeof_pointer rd_pointer (wq_header_ wq) wcap (q_addr <$> qs) m →
  Z.of_nat (length qs) < 2 ^ 31 →
  (∀ q a, q ∈ qs → q_bytes q a → ¬ wq_bytes wq wcap a) →
  (∀ i j q q', qs !! i = Some q → qs !! j = Some q' → i ≠ j → apart q q') →
  Forall2 (pass_ready m) qs sts →
  wp (worker_pass fuel (kernel_modules fuel env fresh) wq k)
     (λ r m', r.1 = inr tt ∧ Forall2 (pass_answered m m') qs sts) m.
Proof.
  intros Hf Hwq Hvec Hlen Hwqb Hap Hready. eapply wp_mono.
  { eapply (worker_pass_serves _ accepts_ipc (λ _, LABSTOR_REQUEST_SUCCESS) fuel wq wcap qs sts); try done.
    eapply Forall2_impl; [exact Hready|]. intros q st. by apply pass_ready_ready. }
  intros r m' [Hr Hans]. split; [done|].
  apply Forall2_same_length_lookup_2; [by eapply Forall2_length|]. intros i q st Hq Hst.
  eapply (answered_pass fuel env fresh); [by eapply (Forall2_lookup_lr (pass_ready m))|by eapply (Forall2_lookup_lr (answered _ _ m m'))].
Qed.

(** ** The session *)

Definition session (fuel : nat) (env : kenv) (fresh : labstor_work_queue) (b : build) (qp0 : labstor_queue_pair)
    (qid : labstor_qid_t) (base cap sq_region sq_size cq_region cq_size pid rq_vec : Z)
    (wq : labstor_work_queue) (rqs : list Z) : KM (list Z) :=
  let modules := kernel_modules fuel env fresh in
  h ← lift (labstor_queue_pair_Init b qp0 qid base cap sq_region sq_size cq_region cq_size);
  _ ← server_loop env modules pid rq_vec;
  toks ← lift (submit fuel h rqs);
  _ ← worker_pass fuel modules wq;
  lift (wait_all fuel h toks).

(** The message is addressed to the work orchestrator. *)
Definition to_orchestrator (rq_vec : Z) (m : mem) : Prop :=
  s32 (read 4 (rq_vec + rq_ns_id_) m) = WORKER_MODULE_RUNTIME_ID ∧ read 2 (rq_vec + rq_op_) m = 2.

Lemma server_loop_register fuel env fresh pid rq_vec k m (Q : unit * kstate → mem → Prop) :
  to_orchestrator rq_vec m → valid m rq_vec 48 →
  wp (register_qp rq_vec k) (λ r m', ∀ k', Q (tt, k') m') m →
  wp (server_loop env (kernel_modules fuel env fresh) pid rq_vec k) Q m.
Proof.
  intros [Hns Hop] Hv Hwp. unfold server_loop. apply wp_kbind, wp_lift. wp_step. simpl. rewrite Hns.
  rewrite kernel_modules_lookup. simpl. unfold worker_process_request_fn_netlink.
  apply wp_kbind, wp_lift. wp_step. simpl. rewrite Hop. simpl. apply wp_kbind.
  eapply wp_mono; [exact Hwp|]. intros [ok k1] m' HQ. apply wp_ret, HQ.
Qed.

Definition session_queue (base sq_region cq_region cap : Z) (qid : labstor_qid_t) (objs : gset Z) : served_queue :=
  {| q_addr := sq_region - 56; q_handle := queue_pair_at base sq_region cq_region;
     q_qid := qid; q_cap := cap; q_objs := objs |}.

(** What is there before the session: the two parts of the queue pair are
    mapped, with room for the kernel's handle; the work queue of the worker
    is empty; the message names this pair and this worker; and none of these
    overlap. *)
Record session_setup (qid : labstor_qid_t) (base cap sq_region sq_size cq_region cq_size : Z)
    (objs : gset Z) (rq_vec i wcap : Z) (w : labstor_worker_struct) (ws : list labstor_worker_struct)
    (k : kstate) (m : mem) : Prop := {
  su_sq : valid m sq_region sq_size ∧ 24 + 4 * cap <= sq_size < 2 ^ 32;
  su_cq : valid m cq_region cq_size ∧ 4 + 4 * cap <= cq_size < 2 ^ 32;
  su_cap : 0 < cap < 2 ^ 30 - 6;
  su_qid : qid_in_range qid;
  su_handle : valid m (sq_region - 56) 56;
  su_objs : ∀ rq, rq ∈ objs → valid m rq 16;
  su_addr : 0 < base < 2 ^ 63 ∧ 56 <= sq_region < 2 ^ 63 ∧ 0 <= cq_region < 2 ^ 63;
  su_kernel : kernel_ready k base i w ws;
  su_message : register_message rq_vec i (sq_region - base) (cq_region - base) m;
  su_to : to_orchestrator rq_vec m;
  su_wq : wq_queue_ (lw_work_queue_ w) = wq_header_ (lw_work_queue_ w) + sizeof_wq_header;
  su_vec : vec_rep sizeof_pointer rd_pointer (wq_header_ (lw_work_queue_ w)) wcap [] m;
  su_layout : q_layout (session_queue base sq_region cq_region cap qid objs);
  su_wq_apart : ∀ a, wq_bytes (lw_work_queue_ w) wcap a →
    ¬ q_all (session_queue base sq_region cq_region cap qid objs) a;
  su_msg_apart : outside rq_vec 48 (sq_region - 56) (80 + 4 * cap) ∧ outside rq_vec 48 cq_region (4 + 4 * cap)
}.

Section session_steps.
Context (qid : labstor_qid_t) (base cap sq_region sq_size cq_region cq_size : Z) (objs : gset Z)
  (rq_vec i wcap : Z) (w : labstor_worker_struct) (ws : list labstor_worker_struct) (k : kstate) (m : mem).
Hypothesis Hsu : session_setup qid base cap sq_region sq_size cq_region cq_size objs rq_vec i wcap w ws k m.

Abbreviation squeue := (session_queue base sq_region cq_region cap qid objs).
Abbreviation swq := (lw_work_queue_ w).

(** The pair is initialised and registered. *)
Lemma session_register fuel env fresh b qp0 pid (Q : unit * kstate → mem → Prop) :
  (∀ k' m', q_rel squeue qp_spec_init m' →
     vec_rep sizeof_pointer rd_pointer (wq_header_ swq) wcap [q_addr squeue] m' →
     modifies (both (both (sq_bytes (q_handle squeue) cap) (cq_bytes (q_handle squeue) cap))
                    (both (span (q_addr squeue) 56) (wq_bytes swq wcap))) m m' → Q (tt, k') m') →
  wp (labstor_queue_pair_Init b qp0 qid base cap sq_region sq_size cq_region cq_size)
     (λ h m1, h = q_handle squeue ∧ wp (server_loop env (kernel_modules fuel env fresh) pid rq_vec k) Q m1) m.
Proof.
  intros HQ. destruct Hsu as [[Hvs Hss] [Hvc Hcs] Hcap Hqid Hvh Hvo (Hb & Hsqr & Hcqr) Hk Hmsg Hto Hwq Hvec Hlay Hwa [Hma1 Hma2]].
  assert (ids_ok cap 0 = true) as Hids by (apply ids_ok_spec; [lia|right; lia]).
  eapply wp_mono.
  { apply (qp_init_rel b qp0 qid base cap sq_region sq_size cq_region cq_size objs m); try done.
    - apply (wl_qp _ _ _ _ Hlay).
    - intros rq Hrq. apply (valid_sub _ _ _ _ _ (Hvo rq Hrq)); lia. }
  intros h m1 (-> & Hrel & Hm1). split; [done|].
  assert (∀ a, span rq_vec 48 a → ¬ both (sq_bytes (q_handle squeue) cap) (cq_bytes (q_handle squeue) cap) a) as Hmsg1.
  { unfold sq_bytes, cq_bytes, lrq_span, rm_span, both, span, outside in *. simpl in *.
    autounfold with layout in *. intros. lia. }
  apply server_loop_register.
  { destruct Hto as [Hns Hop]. split; [rewrite <-Hns; f_equal|rewrite <-Hop];
      (eapply read_modifies; [exact Hm1|]); autounfold with layout; simpl; intros a Ha; apply Hmsg1; unfold span; lia. }
  { eapply valid_modifies; [exact Hm1|]. apply Hmsg. }
  eapply wp_mono.
  { apply (register_qp_spec k base i w ws rq_vec (sq_region - base) (cq_region - base) wcap [] m1 Hk); try done.
    - eapply register_message_frame; [done|exact Hm1|done].
    - eapply (vec_frame sizeof_pointer rd_pointer); [done|exact Hvec|exact Hm1|]. intros a Ha Hw. apply (Hwa a Hw). left.
      destruct Ha as [Ha|Ha]; [by left|right; by left].
    - pose proof (vr_cap _ _ _ _ _ _ Hvec). simpl. lia.
    - eapply valid_modifies; [exact Hm1|]. by replace (base + (sq_region - base - 56)) with (sq_region - 56) by lia.
    - lia.
    - lia.
    - lia.
    - lia.
    - intros a Ha Hw. apply (Hwa a Hw). right. unfold span in *. simpl. lia.
    - unfold span, outside in *. intros. lia. }
  replace (base + (sq_region - base - 56)) with (sq_region - 56) by lia. rewrite !Zplus_minus.
  intros r m2 (-> & Hh & Hvec2 & Hm2) k'. apply HQ.
  - split; [|done|].
    + eapply qp_rel_frame; [exact Hrel|exact Hm2|]. intros a Ha.
      pose proof (wl_qaddr_sq _ _ _ _ Hlay). pose proof (wl_qaddr_cq _ _ _ _ Hlay).
      pose proof (wl_qaddr _ _ _ _ Hlay) as Hqo. simpl in *.
      destruct Ha as [Ha|Ha].
      * unfold sq_bytes, cq_bytes, lrq_span, rm_span, span, outside in *. simpl in *. autounfold with layout in *.
        split; [lia|]. split; [lia|]. intros rq Hrq. specialize (Hqo rq Hrq). lia.
      * pose proof (Hwa a Ha) as Hn. split; [|split].
        { intros H'. apply Hn. left. by left. }
        { intros H'. apply Hn. left. right. by left. }
        { intros rq Hrq H'. apply Hn. left. right. right. exists rq. split; [done|lia]. }
    + intros rq Hrq. do 2 (eapply valid_modifies; [eassumption|]). by apply Hvo.
  - done.
  - eapply modifies_trans; (eapply modifies_weaken; [eassumption|]); intros a Ha; [by left|by right].
Qed.

(** The requests to submit: distinct, at most [cap], for the IPC test. *)
Definition ipc_requests (rqs : list Z) (m : mem) : Prop :=
  NoDup rqs ∧ Z.of_nat (length rqs) <= cap ∧
  ∀ rq, rq ∈ rqs → rq ∈ objs ∧ request_module rq m = IPC_TEST_MODULE_RUNTIME_ID ∧ is_ipc_test rq m.

(** The module and the operation of a request are not its id. *)
Lemma ipc_request_frame P m1 m2 rq :
  modifies P m1 m2 → (∀ a, rq + 4 <= a < rq + 16 → ¬ P a) →
  request_module rq m1 = IPC_TEST_MODULE_RUNTIME_ID ∧ is_ipc_test rq m1 →
  request_module rq m2 = IPC_TEST_MODULE_RUNTIME_ID ∧ is_ipc_test rq m2.
Proof.
  intros Hm HP [H1 H2]. unfold request_module, is_ipc_test in *. rewrite <-H1, <-H2.
  split; [f_equal|]; (eapply read_modifies; [exact Hm|]); autounfold with layout; simpl; intros a Ha; apply HP; lia.
Qed.

Lemma ipc_expected fuel env fresh rq m' :
  request_module rq m' = IPC_TEST_MODULE_RUNTIME_ID →
  expected_code (kernel_modules fuel env fresh) (λ _, LABSTOR_REQUEST_SUCCESS) rq m' = LABSTOR_REQUEST_SUCCESS.
Proof. intros H. unfold expected_code, handler. by rewrite H, kernel_modules_lookup. Qed.

(** The requests are submitted. *)
Lemma session_submit fuel env fresh rqs m1 :
  (0 < fuel)%nat → ipc_requests rqs m1 → q_rel squeue qp_spec_init m1 →
  wp (submit fuel (q_handle squeue) rqs)
     (λ toks m2, toks = u32 <$> (Z.of_nat <$> seq 0 (length rqs)) ∧
        modifies (submit_bytes (q_handle squeue) cap objs) m1 m2 ∧
        (∀ rq, rq ∈ rqs → request_module rq m2 = IPC_TEST_MODULE_RUNTIME_ID) ∧
        ∃ st, submitted rqs st ∧
          ready (kernel_modules fuel env fresh) accepts_ipc (λ _, LABSTOR_REQUEST_SUCCESS) m2 squeue st) m1.
Proof.
  intros Hf (Hnd & Hlen & Hrqs) Hrel. pose proof (su_layout _ _ _ _ _ _ _ _ _ _ _ _ _ _ _ Hsu) as Hlay.
  pose proof (su_cap _ _ _ _ _ _ _ _ _ _ _ _ _ _ _ Hsu) as Hcap.
  assert (∀ rq, rq ∈ rqs → rq ∈ objs) as Hobj by naive_solver.
  eapply wp_mono.
  { apply (submit_spec _ _ qid _ _ Hlay Hcap fuel rqs [] qp_spec_init m1 Hf Hrel); try done.
    split; simpl; try done. intros id. split; [set_solver|lia]. }
  intros toks m2 (-> & (st & Hrel2 & Hsub) & Hm2). split.
  { rewrite <-list_fmap_compose. apply list_fmap_ext. intros j x Hx%lookup_seq. simpl. rewrite u32_small; lia. }
  split; [done|].
  assert (∀ rq, rq ∈ rqs → request_module rq m2 = IPC_TEST_MODULE_RUNTIME_ID ∧ is_ipc_test rq m2) as Hipc.
  { intros rq Hin. eapply ipc_request_frame; [exact Hm2| |apply Hrqs, Hin]. intros a Ha [Hs|(q & Hq & Hs)].
    - pose proof (wl_sq _ _ _ _ Hlay rq (Hobj _ Hin)). unfold sq_bytes, lrq_span, span, outside in *.
      autounfold with layout in *. simpl in *. lia.
    - destruct (decide (q = rq)) as [->|Hne]; [lia|].
      pose proof (wl_objs _ _ _ _ Hlay q rq Hq (Hobj _ Hin) Hne). unfold outside in *. lia. }
  split; [intros; by apply Hipc|]. exists st. split; [done|]. split; try done.
  - by apply kernel_modules_serve.
  - by eapply submitted_servable.
  - rewrite (sm_sq _ _ Hsub). intros rq Hin _. destruct (Hipc rq Hin) as [-> ?]. by split.
  - simpl. lia.
Qed.

(** The worker makes one pass. *)
Lemma session_pass fuel env fresh rqs st m1 k' :
  (0 < fuel)%nat → vec_rep sizeof_pointer rd_pointer (wq_header_ swq) wcap [q_addr squeue] m1 →
  submitted rqs st → ready (kernel_modules fuel env fresh) accepts_ipc (λ _, LABSTOR_REQUEST_SUCCESS) m1 squeue st →
  (∀ rq, rq ∈ rqs → request_module rq m1 = IPC_TEST_MODULE_RUNTIME_ID) →
  wp (worker_pass fuel (kernel_modules fuel env fresh) swq k')
     (λ r m2, r.1 = inr tt ∧ (∃ st', q_rel squeue st' m2 ∧
          Forall2 (λ id rq, qa_cq st' !! id = Some rq) (Z.of_nat <$> seq 0 (length rqs)) rqs) ∧
        ∀ rq, rq ∈ rqs → read 4 (rq + rq_code_) m2 = LABSTOR_REQUEST_SUCCESS) m1.
Proof.
  intros Hf Hvec Hsub Hready Hipc. eapply wp_mono.
  { apply (worker_pass_done _ accepts_ipc (λ _, LABSTOR_REQUEST_SUCCESS) fuel swq wcap [squeue] [st]); try done.
    - apply Hsu.
    - intros q a ->%list_elem_of_singleton Ha Hw.
      apply (su_wq_apart _ _ _ _ _ _ _ _ _ _ _ _ _ _ _ Hsu a Hw). by left.
    - intros [|j] [|j'] q q' Hj Hj' Hne; simplify_eq/=; done.
    - by constructor. }
  intros r m2 (Hr & sts' & Hall). split; [done|]. inversion Hall as [|? ? st' ? ? ? (Hrel & _ & Hsd)]; subst.
  rewrite (sm_sq _ _ Hsub) in Hsd. split.
  - exists st'. split; [done|]. apply Forall2_same_length_lookup_2; [by rewrite length_fmap, length_seq|].
    intros j id rq (n & -> & [-> _]%lookup_seq)%list_lookup_fmap_Some Hj.
    eapply sd_done; [exact Hsd|by eapply list_elem_of_lookup_2|]. by apply (sm_ids _ _ Hsub).
  - intros rq Hin. rewrite (sd_code _ _ _ _ _ _ _ _ Hsd rq Hin). by apply ipc_expected, Hipc.
Qed.

(** Registration leaves the requests alone. *)
Lemma session_requests_frame rqs m1 :
  ipc_requests rqs m →
  modifies (both (both (sq_bytes (q_handle squeue) cap) (cq_bytes (q_handle squeue) cap))
                 (both (span (q_addr squeue) 56) (wq_bytes swq wcap))) m m1 →
  ipc_requests rqs m1.
Proof.
  intros (Hnd & Hlen & Hrqs) Hm. split; [done|]. split; [done|]. intros rq Hin.
  destruct (Hrqs rq Hin) as (Hobj & Hipc). split; [done|]. eapply ipc_request_frame; [exact Hm| |done].
  pose proof (su_layout _ _ _ _ _ _ _ _ _ _ _ _ _ _ _ Hsu) as Hlay. intros a Ha [Hs|[Hs|Hs]].
  - pose proof (wl_sq _ _ _ _ Hlay rq Hobj). pose proof (wl_cq _ _ _ _ Hlay rq Hobj).
    unfold both, sq_bytes, cq_bytes, rm_span, lrq_span, span, outside in *. autounfold with layout in *. simpl in *. lia.
  - pose proof (wl_qaddr _ _ _ _ Hlay rq Hobj). unfold span, outside in *. simpl in *. lia.
  - apply (su_wq_apart _ _ _ _ _ _ _ _ _ _ _ _ _ _ _ Hsu a Hs). left. right. right. exists rq. split; [done|lia].
Qed.
End session_steps.

(** C13. A session from end to end, over the shared memory: the server
    initialises a queue pair; the netlink message that registers it goes
    through the kernel's server to the work orchestrator; a client submits up
    to [cap] distinct IPC-test requests; the worker makes one pass with the
    registry the kernel modules build; the client waits for its tokens.  It
    gets back exactly its requests, in order, each with code
    LABSTOR_REQUEST_SUCCESS, and no step blocks or faults. *)
Theorem session_correct fuel env fresh b qp0 qid base cap sq_region sq_size cq_region cq_size objs pid rq_vec i
    wcap w ws rqs k m :
  (0 < fuel)%nat →
  session_setup qid base cap sq_region sq_size cq_region cq_size objs rq_vec i wcap w ws k m →
  ipc_requests cap objs rqs m →
  wp (session fuel env fresh b qp0 qid base cap sq_region sq_size cq_region cq_size pid rq_vec
        (lw_work_queue_ w) rqs k)
     (λ r m', r.1 = rqs ∧ ∀ rq, rq ∈ rqs → read 4 (rq + rq_code_) m' = LABSTOR_REQUEST_SUCCESS) m.
Proof.
  intros Hf Hsu Hrqs. pose proof (su_layout _ _ _ _ _ _ _ _ _ _ _ _ _ _ _ Hsu) as Hlay.
  unfold session. apply wp_kbind, wp_lift.
  eapply wp_mono; [eapply (session_register _ _ _ _ _ _ _ _ _ _ _ _ _ _ _ Hsu fuel env fresh)|].
  2: { intros h m1 (-> & Hwp). simpl. apply wp_kbind. exact Hwp. }
  intros k1 m1 Hrel1 Hvec1 Hm1. simpl.
  apply wp_kbind, wp_lift. eapply wp_mono.
  { eapply (session_submit _ _ _ _ _ _ _ _ _ _ _ _ _ _ _ Hsu fuel env fresh rqs m1 Hf); [|exact Hrel1].
    by eapply (session_requests_frame _ _ _ _ _ _ _ _ _ _ _ _ _ _ _ Hsu). }
  intros toks m2 (-> & Hm2 & Hipc & st & Hsub & Hready). simpl. apply wp_kbind. eapply wp_mono.
  { apply (session_pass _ _ _ _ _ _ _ _ _ _ _ _ _ _ _ Hsu fuel env fresh rqs st m2); try done.
    eapply (vec_frame sizeof_pointer rd_pointer); [done|exact Hvec1|exact Hm2|]. intros a Ha Hw.
    apply (su_wq_apart _ _ _ _ _ _ _ _ _ _ _ _ _ _ _ Hsu a Hw). left.
    destruct Ha as [Ha|(rq & Hrq & Ha)]; [by left|]. right. right. exists rq. split; [done|lia]. }
  intros r m3 (_ & (st' & Hrel3 & Hall) & Hcodes). apply wp_lift. eapply wp_mono.
  { eapply (wait_all_spec _ _ qid _ _ Hlay fuel rqs); [done|apply Hrel3| |exact Hall].
    apply (NoDup_fmap_2 _), NoDup_seq. }
  intros rs m4 (-> & Hm4). split; [done|]. intros rq Hin.
  eapply (code_after _ _ _ _ Hlay); [by apply Hrqs|by apply Hcodes|exact Hm4].
Qed.

(** ** A concrete session

    A pair of depth 2 at 4160 and 4200 in the region at 4096, with room for
    its handle at 4104; a work queue for two pairs at 5000; the message at
    6000; two requests at 8192 and 8256. *)

Definition ex_objs : gset Z := {[8192; 8256]}.

Definition ex_mem : mem :=
  write 4 5004 2 (
  write 4 6044 0 (write 4 6036 104 (write 4 6032 64 (write 4 6016 1 (write 2 6012 2 (write 4 6004 3 (
  zero_region 4104 108 ∪ (zero_region 5000 28 ∪ (zero_region 6000 48 ∪
  (zero_region 8192 16 ∪ zero_region 8256 16)))))))))).

Definition ex_worker : labstor_worker_struct :=
  {| lw_work_queue_ := labstor_work_queue_Attach 5000; lw_complete_ack_ := false; lw_worker_id_ := 0;
     lw_cpu := None |}.

Definition ex_kstate : kstate :=
  {| k_shmem := SecureShmem.shmem_init;
     k_ipc_manager_ := {| im_region_id := 0; im_region := 4096;
       im_alloc := {| sm_base_region_ := 4096; sm_concurrency_ := 1; sm_region_size_ := 8192;
                      sm_header_ := 4096; sm_per_core_allocs_ := [] |} |};
     k_workers := Some [ex_worker]; k_num_workers := 1; k_keep_running := true;
     k_shmem_region_id := 1; k_shmem_region := 5000;
     k_bdevs := replicate 64 None; k_sent := [] |}.

Definition ex_env : kenv :=
  {| ke_page_size := 4096; ke_alloc := {| SecureShmem.ae_info := None; SecureShmem.ae_data := None |};
     ke_skb := true; ke_worker_mem := true; ke_blkdev_get_by_path := λ _ _, inl (-2) |}.

(** Membership in a concrete set of addresses. *)
Ltac ex_cases H :=
  apply elem_of_union in H; destruct H as [H|H]; apply elem_of_singleton in H; subst.

Lemma ex_layout : q_layout (session_queue 4096 4160 4200 2 wit_qid ex_objs).
Proof.
  unfold q_layout. simpl. split; simpl.
  - split; simpl; unfold near, outside; try (intros rq Hrq; ex_cases Hrq); try lia.
    intros p q Hp Hq. ex_cases Hp; ex_cases Hq; lia.
  - reflexivity.
  - done.
  - unfold outside. intros rq Hrq; ex_cases Hrq; lia.
  - unfold outside. intros rq Hrq; ex_cases Hrq; lia.
  - unfold outside. intros p q Hp Hq. ex_cases Hp; ex_cases Hq; lia.
  - unfold outside. lia.
  - unfold outside. lia.
  - unfold outside. intros rq Hrq; ex_cases Hrq; lia.
Qed.

Lemma ex_setup :
  session_setup wit_qid 4096 2 4160 32 4200 12 ex_objs 6000 0 2 ex_worker [ex_worker] ex_kstate ex_mem.
Proof.
  split.
  - split; [apply (validb_valid _ 4160 32); vm_compute; reflexivity|lia].
  - split; [apply (validb_valid _ 4200 12); vm_compute; reflexivity|lia].
  - lia.
  - unfold qid_in_range; simpl; lia.
  - apply (validb_valid _ 4104 56); vm_compute; reflexivity.
  - intros rq Hrq. ex_cases Hrq; [apply (validb_valid _ 8192 16)|apply (validb_valid _ 8256 16)]; vm_compute; reflexivity.
  - lia.
  - split; done.
  - split; [apply (validb_valid _ 6000 48); vm_compute; reflexivity|vm_compute; reflexivity..].
  - split; vm_compute; reflexivity.
  - reflexivity.
  - split; [apply (validb_valid _ 5000 28); vm_compute; reflexivity|simpl; lia|simpl; lia|vm_compute; reflexivity|
      vm_compute; reflexivity|done].
  - apply ex_layout.
  - unfold wq_bytes, q_all, q_bytes, queue_bytes, sq_bytes, cq_bytes, lrq_span, rm_span, both, span. simpl.
    autounfold with layout. intros a Ha [[Hs|[Hs|(rq & Hrq & Hs)]]|Hs]; try lia. ex_cases Hrq; lia.
  - unfold outside. lia.
Qed.

Lemma ex_requests : ipc_requests 2 ex_objs [8192; 8256] ex_mem.
Proof.
  split; [|split].
  - repeat constructor; set_solver.
  - simpl. lia.
  - intros rq Hrq. assert (rq = 8192 ∨ rq = 8256) as [->| ->] by set_solver;
      (split; [set_solver|split; vm_compute; reflexivity]).
Qed.

Lemma session_correct_witness :
  wp (session 1 ex_env (labstor_work_queue_Attach 0) Userspace (queue_pair_at 0 0 0) wit_qid 4096 2 4160 32 4200 12
        77 6000 (labstor_work_queue_Attach 5000) [8192; 8256] ex_kstate)
     (λ r m', r.1 = [8192; 8256] ∧
        ∀ rq, rq ∈ [8192; 8256] → read 4 (rq + rq_code_) m' = LABSTOR_REQUEST_SUCCESS) ex_mem.
Proof.
  apply (session_correct 1 ex_env (labstor_work_queue_Attach 0) Userspace (queue_pair_at 0 0 0) wit_qid
    4096 2 4160 32 4200 12 ex_objs 77 6000 0 2 ex_worker [ex_worker]).
  - lia.
  - exact ex_setup.
  - exact ex_requests.
Defined.

(** The pass of that session, by C12: both requests are answered. *)
Lemma kernel_pass_serves_witness :
  let modules := kernel_modules 1 ex_env (labstor_work_queue_Attach 0) in
  let h := queue_pair_at 4096 4160 4200 in
  wp ((_ ← lift (labstor_queue_pair_Init Userspace (queue_pair_at 0 0 0) wit_qid 4096 2 4160 32 4200 12);
       _ ← server_loop ex_env modules 77 6000;
       _ ← lift (submit 1 h [8192; 8256]);
       worker_pass 1 modules (labstor_work_queue_Attach 5000)) ex_kstate)
     (λ r m', r.1 = inr tt ∧ labstor_queue_pair_GetDepth h m' = Ret 0 m' ∧
        wp (labstor_queue_pair_Wait 1 h 1) (λ rq m2, rq = 8256 ∧ read 4 (rq + rq_code_) m2 = 0) m') ex_mem.
Proof.
  simpl. apply wp_kbind, wp_lift.
  eapply wp_mono; [eapply (session_register _ _ _ _ _ _ _ _ _ _ _ _ _ _ _ ex_setup 1 ex_env)|].
  2: { intros h m1 (_ & Hwp). apply wp_kbind. exact Hwp. }
  intros k1 m1 Hrel1 Hvec1 Hm1. apply wp_kbind, wp_lift. eapply wp_mono.
  { eapply (session_submit _ _ _ _ _ _ _ _ _ _ _ _ _ _ _ ex_setup 1 ex_env (labstor_work_queue_Attach 0)
      [8192; 8256] m1); [lia| |exact Hrel1].
    eapply (session_requests_frame _ _ _ _ _ _ _ _ _ _ _ _ _ _ _ ex_setup); [exact ex_requests|exact Hm1]. }
  intros toks m2 (_ & Hm2 & Hipc & st & Hsub & Hready). simpl. eapply wp_mono.
  { eapply (kernel_pass_serves 1 ex_env (labstor_work_queue_Attach 0) (labstor_work_queue_Attach 5000) 2
      [session_queue 4096 4160 4200 2 wit_qid ex_objs] [st]).
    - lia.
    - reflexivity.
    - eapply (vec_frame sizeof_pointer rd_pointer); [done|exact Hvec1|exact Hm2|]. intros a Ha Hw.
      apply (su_wq_apart _ _ _ _ _ _ _ _ _ _ _ _ _ _ _ ex_setup a Hw). left.
      destruct Ha as [Ha|(rq & Hrq & Ha)]; [by left|]. right. right. exists rq. split; [done|lia].
    - simpl. lia.
    - intros q a ->%list_elem_of_singleton Ha Hw.
      apply (su_wq_apart _ _ _ _ _ _ _ _ _ _ _ _ _ _ _ ex_setup a Hw). by left.
    - intros [|j] [|j'] q q' Hj Hj' Hne; simplify_eq/=; done.
    - constructor; [|constructor]. destruct Hready. split; [done..| |done]. rewrite (sm_sq _ _ Hsub).
      intros rq Hin. left. split; [by apply Hipc|].
      assert (is_Some (handler (kernel_modules 1 ex_env (labstor_work_queue_Attach 0)) rq m2)) as Hsome.
      { unfold handler. rewrite (Hipc rq Hin). by exists (ipc_test_process_request_fn 1). }
      apply (rd_accept rq); [by rewrite (sm_sq _ _ Hsub)|done]. }
  intros r m3 [Hr Hall]. split; [done|]. inversion Hall as [|? ? ? ? [Hd Ha] _]; subst. split; [exact Hd|].
  destruct (Ha 8256) as (id & Hid & Hw); [rewrite (sm_sq _ _ Hsub); set_solver|].
  rewrite (sm_ids _ _ Hsub 1%nat 8256 eq_refl) in Hid. injection Hid as <-.
  eapply wp_mono; [exact Hw|]. intros rq m4 [-> Hc]. split; [done|]. rewrite Hc.
  unfold pass_code. rewrite decide_True; [done|]. apply Hipc. set_solver.
Defined.
