(* ===== verification/MqTags.v ===== *)
(** * MqTags.v: driver tags and direct issue in the multi-queue driver

    The first half of labmods/mq_driver/kernel/mq_driver_kernel.c: the copies
    of the block layer's tag functions, and the path that issues a request to
    a hardware queue.  The scalable bitmaps are the kernel's; they are held
    to the interface [SbitmapQueue], whose laws are their documented
    behaviour.  Flag words are kept as the booleans this code tests. *)

From S2P Require Import Prelude.

Local Open Scope Z_scope.

(** ** The kernel's bitmaps *)

(** [sb_set] is the set of bits that are taken. *)
Class SbitmapQueue (S : Type) := {
  sb_depth : S → Z;
  sb_set : S → gset Z;
  __sbitmap_queue_get : S → Z * S;
  __sbitmap_queue_get_shallow : S → Z → Z * S;
  sbitmap_queue_clear : S → Z → Z → S          (* bit, cpu *)
}.

(** Getting a bit takes a free one, or fails with -1 and takes none; clearing
    frees it. *)
Definition takes_free {S} `{SbitmapQueue S} (s : S) (r : Z * S) : Prop :=
  sb_depth r.2 = sb_depth s ∧
  ((r.1 = -1 ∧ sb_set r.2 = sb_set s) ∨
   (0 <= r.1 < sb_depth s ∧ (r.1 ∉ sb_set s) ∧ sb_set r.2 = {[r.1]} ∪ sb_set s)).

Class SbitmapLaws (S : Type) `{SbitmapQueue S} : Prop := {
  sb_get_law : ∀ s, takes_free s (__sbitmap_queue_get s);
  sb_get_shallow_law : ∀ s n, takes_free s (__sbitmap_queue_get_shallow s n);
  sb_clear_law : ∀ s t cpu, sb_depth (sbitmap_queue_clear s t cpu) = sb_depth s ∧
    sb_set (sbitmap_queue_clear s t cpu) = sb_set s ∖ {[t]}
}.

Section tags.
Context {S : Type} `{Hlaws : SbitmapLaws S}.

(** ** Data *)

Definition BLK_MQ_TAG_FAIL : Z := 2 ^ 32 - 1.

(** [rqs] by tag; a request is named by its address. *)
Record blk_mq_tags := {
  nr_reserved_tags : Z;
  active_queues : Z;
  bitmap_tags : S;
  breserved_tags : S;
  tag_rqs : gmap Z Z
}.

(** [struct blk_mq_alloc_data]: the flags and the depth that are tested. *)
Record blk_mq_alloc_data := {
  ad_reserved : bool;
  ad_internal : bool;
  ad_shallow_depth : Z
}.

(** [struct blk_mq_hw_ctx]; [None] is a null pointer to the scheduler's tags. *)
Record blk_mq_hw_ctx := {
  hctx_tag_shared : bool;      (* BLK_MQ_F_TAG_SHARED *)
  hctx_blocking : bool;        (* BLK_MQ_F_BLOCKING *)
  hctx_stopped : bool;         (* BLK_MQ_S_STOPPED *)
  hctx_tag_active : bool;      (* BLK_MQ_S_TAG_ACTIVE *)
  hctx_tags : blk_mq_tags;
  hctx_sched_tags : option blk_mq_tags;
  hctx_nr_active : Z;
  hctx_dispatch_busy : Z;
  hctx_elevator : bool         (* queue->elevator *)
}.

(** [struct request]. *)
Record request := {
  req_tag : Z;
  req_internal_tag : Z;
  req_inflight : bool;         (* RQF_MQ_INFLIGHT *)
  req_cpu : Z                  (* mq_ctx->cpu *)
}.

(** Updates of one field. *)
Definition with_tags (hctx : blk_mq_hw_ctx) (t : blk_mq_tags) : blk_mq_hw_ctx :=
  {| hctx_tag_shared := hctx_tag_shared hctx; hctx_blocking := hctx_blocking hctx; hctx_stopped := hctx_stopped hctx;
     hctx_tag_active := hctx_tag_active hctx; hctx_tags := t; hctx_sched_tags := hctx_sched_tags hctx;
     hctx_nr_active := hctx_nr_active hctx; hctx_dispatch_busy := hctx_dispatch_busy hctx;
     hctx_elevator := hctx_elevator hctx |}.

Definition with_sched_tags (hctx : blk_mq_hw_ctx) (t : blk_mq_tags) : blk_mq_hw_ctx :=
  {| hctx_tag_shared := hctx_tag_shared hctx; hctx_blocking := hctx_blocking hctx; hctx_stopped := hctx_stopped hctx;
     hctx_tag_active := hctx_tag_active hctx; hctx_tags := hctx_tags hctx; hctx_sched_tags := Some t;
     hctx_nr_active := hctx_nr_active hctx; hctx_dispatch_busy := hctx_dispatch_busy hctx;
     hctx_elevator := hctx_elevator hctx |}.

Definition with_nr_active (hctx : blk_mq_hw_ctx) (n : Z) : blk_mq_hw_ctx :=
  {| hctx_tag_shared := hctx_tag_shared hctx; hctx_blocking := hctx_blocking hctx; hctx_stopped := hctx_stopped hctx;
     hctx_tag_active := hctx_tag_active hctx; hctx_tags := hctx_tags hctx;
     hctx_sched_tags := hctx_sched_tags hctx; hctx_nr_active := n;
     hctx_dispatch_busy := hctx_dispatch_busy hctx; hctx_elevator := hctx_elevator hctx |}.

Definition with_dispatch_busy (hctx : blk_mq_hw_ctx) (n : Z) : blk_mq_hw_ctx :=
  {| hctx_tag_shared := hctx_tag_shared hctx; hctx_blocking := hctx_blocking hctx; hctx_stopped := hctx_stopped hctx;
     hctx_tag_active := hctx_tag_active hctx; hctx_tags := hctx_tags hctx;
     hctx_sched_tags := hctx_sched_tags hctx; hctx_nr_active := hctx_nr_active hctx;
     hctx_dispatch_busy := n; hctx_elevator := hctx_elevator hctx |}.

Definition with_bitmap (tags : blk_mq_tags) (reserved : bool) (bt : S) : blk_mq_tags :=
  {| nr_reserved_tags := nr_reserved_tags tags; active_queues := active_queues tags;
     bitmap_tags := if reserved then bitmap_tags tags else bt;
     breserved_tags := if reserved then bt else breserved_tags tags;
     tag_rqs := tag_rqs tags |}.

(** ** Operations *)

(** The counters are compared as unsigned. *)
Definition hctx_may_queue (hctx : blk_mq_hw_ctx) (bt : S) : bool :=
  if negb (hctx_tag_shared hctx) then true
  else if negb (hctx_tag_active hctx) then true
  else if sb_depth bt =? 1 then true
  else
    let users := u32 (active_queues (hctx_tags hctx)) in
    if users =? 0 then true
    else
      let depth := Z.max (u32 (sb_depth bt + users - 1) / users) 4 in
      u32 (hctx_nr_active hctx) <? depth.

Definition blk_mq_tag_is_reserved (tags : blk_mq_tags) (tag : Z) : bool := tag <? nr_reserved_tags tags.

Definition blk_mq_hctx_stopped (hctx : blk_mq_hw_ctx) : bool := hctx_stopped hctx.

Definition __blk_mq_tag_busy (hctx : blk_mq_hw_ctx) : bool * blk_mq_hw_ctx :=
  if hctx_tag_active hctx then (true, hctx)
  else
    let t := hctx_tags hctx in
    (true,
     {| hctx_tag_shared := hctx_tag_shared hctx; hctx_blocking := hctx_blocking hctx; hctx_stopped := hctx_stopped hctx;
        hctx_tag_active := true;
        hctx_tags := {| nr_reserved_tags := nr_reserved_tags t; active_queues := active_queues t + 1;
                        bitmap_tags := bitmap_tags t; breserved_tags := breserved_tags t;
                        tag_rqs := tag_rqs t |};
        hctx_sched_tags := hctx_sched_tags hctx; hctx_nr_active := hctx_nr_active hctx;
        hctx_dispatch_busy := hctx_dispatch_busy hctx; hctx_elevator := hctx_elevator hctx |}).

Definition blk_mq_tag_busy (hctx : blk_mq_hw_ctx) : bool * blk_mq_hw_ctx :=
  if negb (hctx_tag_shared hctx) then (false, hctx) else __blk_mq_tag_busy hctx.

(** [None]: the scheduler's tags are a null pointer. *)
Definition blk_mq_tags_from_data (data : blk_mq_alloc_data) (hctx : blk_mq_hw_ctx) : option blk_mq_tags :=
  if ad_internal data then hctx_sched_tags hctx else Some (hctx_tags hctx).

Definition BLK_MQ_DISPATCH_BUSY_EWMA_WEIGHT : Z := 8.
Definition BLK_MQ_DISPATCH_BUSY_EWMA_FACTOR : Z := 4.

Definition blk_mq_update_dispatch_busy (hctx : blk_mq_hw_ctx) (busy : bool) : blk_mq_hw_ctx :=
  if hctx_elevator hctx then hctx
  else
    let ewma := hctx_dispatch_busy hctx in
    if (ewma =? 0) && negb busy then hctx
    else
      let ewma := u32 (ewma * (BLK_MQ_DISPATCH_BUSY_EWMA_WEIGHT - 1)) in
      let ewma := if busy then u32 (ewma + Z.shiftl 1 BLK_MQ_DISPATCH_BUSY_EWMA_FACTOR) else ewma in
      with_dispatch_busy hctx (ewma / BLK_MQ_DISPATCH_BUSY_EWMA_WEIGHT).

Definition __blk_mq_get_tag (data : blk_mq_alloc_data) (hctx : blk_mq_hw_ctx) (bt : S) : Z * S :=
  if negb (ad_internal data) && negb (hctx_may_queue hctx bt) then (-1, bt)
  else if negb (ad_shallow_depth data =? 0) then __sbitmap_queue_get_shallow bt (ad_shallow_depth data)
  else __sbitmap_queue_get bt.

(** The tag, as unsigned, and the context with the bitmap updated. *)
Definition blk_mq_get_tag (data : blk_mq_alloc_data) (hctx : blk_mq_hw_ctx) : option (Z * blk_mq_hw_ctx) :=
  tags ← blk_mq_tags_from_data data hctx;
  if ad_reserved data && (nr_reserved_tags tags =? 0) then Some (BLK_MQ_TAG_FAIL, hctx)
  else
    let bt := if ad_reserved data then breserved_tags tags else bitmap_tags tags in
    let tag_offset := if ad_reserved data then 0 else nr_reserved_tags tags in
    let '(tag, bt') := __blk_mq_get_tag data hctx bt in
    let tags' := with_bitmap tags (ad_reserved data) bt' in
    let hctx' := if ad_internal data then with_sched_tags hctx tags' else with_tags hctx tags' in
    Some (if negb (tag =? -1) then u32 (tag + tag_offset) else BLK_MQ_TAG_FAIL, hctx').

Definition blk_mq_put_tag (tags : blk_mq_tags) (cpu tag : Z) : blk_mq_tags :=
  if negb (blk_mq_tag_is_reserved tags tag) then
    let real_tag := s32 (u32 (tag - nr_reserved_tags tags)) in
    with_bitmap tags false (sbitmap_queue_clear (bitmap_tags tags) real_tag cpu)
  else with_bitmap tags true (sbitmap_queue_clear (breserved_tags tags) tag cpu).

Definition __blk_mq_put_driver_tag (hctx : blk_mq_hw_ctx) (rq : request) : blk_mq_hw_ctx * request :=
  let hctx := with_tags hctx (blk_mq_put_tag (hctx_tags hctx) (req_cpu rq) (u32 (req_tag rq))) in
  (if req_inflight rq then with_nr_active hctx (hctx_nr_active hctx - 1) else hctx,
   {| req_tag := -1; req_internal_tag := req_internal_tag rq; req_inflight := false; req_cpu := req_cpu rq |}).

Definition blk_mq_put_driver_tag (hctx : blk_mq_hw_ctx) (rq : request) : blk_mq_hw_ctx * request :=
  if (req_tag rq =? -1) || (req_internal_tag rq =? -1) then (hctx, rq)
  else __blk_mq_put_driver_tag hctx rq.

Definition record_tag (hctx : blk_mq_hw_ctx) (tag p : Z) : blk_mq_hw_ctx :=
  let t := hctx_tags hctx in
  with_tags hctx {| nr_reserved_tags := nr_reserved_tags t; active_queues := active_queues t;
                    bitmap_tags := bitmap_tags t; breserved_tags := breserved_tags t;
                    tag_rqs := <[tag := p]> (tag_rqs t) |}.

(** The request at address [p].  [None]: the scheduler's tags are a null
    pointer, and the request has no tag. *)
Definition blk_mq_get_driver_tag (hctx : blk_mq_hw_ctx) (p : Z) (rq : request)
    : option (bool * blk_mq_hw_ctx * request) :=
  if negb (req_tag rq =? -1) then Some (true, hctx, rq)
  else
    sched_tags ← hctx_sched_tags hctx;
    let data := {| ad_reserved := blk_mq_tag_is_reserved sched_tags (u32 (req_internal_tag rq));
                   ad_internal := false; ad_shallow_depth := 0 |} in
    let '(shared, hctx) := blk_mq_tag_busy hctx in
    '(tag, hctx) ← blk_mq_get_tag data hctx;
    let tag := s32 tag in
    if tag >=? 0 then
      let '(hctx, inflight) :=
        if shared then (with_nr_active hctx (hctx_nr_active hctx + 1), true) else (hctx, req_inflight rq) in
      Some (negb (tag =? -1), record_tag hctx tag p,
            {| req_tag := tag; req_internal_tag := req_internal_tag rq; req_inflight := inflight;
               req_cpu := req_cpu rq |})
    else
      Some (negb (tag =? -1), hctx,
            {| req_tag := tag; req_internal_tag := req_internal_tag rq;
               req_inflight := req_inflight rq; req_cpu := req_cpu rq |}).

(** ** Issuing a request *)

(** [blk_status_t]; another status is its number, -1 becomes 255. *)
Inductive blk_status := BLK_STS_OK | BLK_STS_RESOURCE | BLK_STS_DEV_RESOURCE | BLK_STS_OTHER (code : Z).

(** The calls into the block layer and the driver. *)
Inductive mq_event :=
| EvLock (srcu : bool)
| EvUnlock (srcu : bool)
| EvGetBudget (ok : bool)
| EvPutBudget
| EvQueueRq (tag : Z)
| EvEndRequest (status : blk_status).

(** [struct request_queue] with the operations of its driver: the budget
    functions are optional. *)
Record request_queue := {
  rqq_quiesced : bool;
  rqq_elevator : bool;
  rqq_get_budget : option bool;
  rqq_put_budget : bool;
  rqq_queue_rq : request → blk_status;
  rqq_request_to_qc_t : request → Z
}.

Definition BLK_QC_T_NONE : Z := 2 ^ 32 - 1.

Record issue := {
  is_status : blk_status;
  is_cookie : option Z;             (* None: not assigned *)
  is_hctx : blk_mq_hw_ctx;
  is_request : request;
  is_events : list mq_event
}.

Definition blk_mq_put_dispatch_budget (q : request_queue) : list mq_event :=
  if rqq_put_budget q then [EvPutBudget] else [].

Definition blk_mq_get_dispatch_budget (q : request_queue) : bool * list mq_event :=
  match rqq_get_budget q with
  | Some ok => (ok, [EvGetBudget ok])
  | None => (true, [])
  end.

Definition hctx_lock (hctx : blk_mq_hw_ctx) : mq_event := EvLock (hctx_blocking hctx).
Definition hctx_unlock (hctx : blk_mq_hw_ctx) : mq_event := EvUnlock (hctx_blocking hctx).

Definition __blk_mq_issue_directly (q : request_queue) (hctx : blk_mq_hw_ctx) (rq : request) : issue :=
  let new_cookie := rqq_request_to_qc_t q rq in
  let ret := rqq_queue_rq q rq in
  {| is_status := ret;
     is_cookie := Some (match ret with BLK_STS_OK => new_cookie | _ => BLK_QC_T_NONE end);
     is_hctx := blk_mq_update_dispatch_busy hctx false;
     is_request := rq;
     is_events := [EvQueueRq (req_tag rq)] |}.

(** A refusal before the request reaches the driver. *)
Definition refuse (hctx : blk_mq_hw_ctx) (rq : request) (ev : list mq_event) : issue :=
  {| is_status := BLK_STS_OTHER 255; is_cookie := None; is_hctx := hctx; is_request := rq; is_events := ev |}.

Definition __blk_mq_try_issue_directly (q : request_queue) (hctx : blk_mq_hw_ctx) (p : Z) (rq : request)
    (bypass_insert : bool) : option issue :=
  if blk_mq_hctx_stopped hctx || rqq_quiesced q then Some (refuse hctx rq [])
  else if rqq_elevator q && negb bypass_insert then Some (refuse hctx rq [])
  else
    let '(budget, ev) := blk_mq_get_dispatch_budget q in
    if negb budget then Some (refuse hctx rq ev)
    else
      '(tagged, hctx, rq) ← blk_mq_get_driver_tag hctx p rq;
      if negb (tagged : bool) then Some (refuse hctx rq (ev ++ blk_mq_put_dispatch_budget q))
      else
        let i := __blk_mq_issue_directly q hctx rq in
        Some {| is_status := is_status i; is_cookie := is_cookie i; is_hctx := is_hctx i;
                is_request := is_request i; is_events := ev ++ is_events i |}.

Definition LABSTOR_MQ_OK : Z := 0.
Definition LABSTOR_MQ_CANT_ALLOCATE_PAGES : Z := -102.
Definition LABSTOR_MQ_INVALID_DEVICE_ID : Z := -103.
Definition LABSTOR_MQ_CANNOT_ALLOCATE_BIO : Z := -104.
Definition LABSTOR_MQ_CANNOT_ALLOCATE_REQUEST : Z := -105.
Definition LABSTOR_MQ_DEVICE_BUSY : Z := -106.
Definition LABSTOR_MQ_NOT_OK : Z := -107.

Definition blk_mq_try_issue_directly (q : request_queue) (hctx : blk_mq_hw_ctx) (p : Z) (rq : request)
    : option (Z * issue) :=
  i ← __blk_mq_try_issue_directly q hctx p rq true;
  let '(success, ended) :=
    match is_status i with
    | BLK_STS_RESOURCE | BLK_STS_DEV_RESOURCE => (LABSTOR_MQ_DEVICE_BUSY, [EvEndRequest (is_status i)])
    | BLK_STS_OK => (LABSTOR_MQ_OK, [])
    | BLK_STS_OTHER _ => (LABSTOR_MQ_NOT_OK, [EvEndRequest (is_status i)])
    end in
  Some (success, {| is_status := is_status i; is_cookie := is_cookie i; is_hctx := is_hctx i;
                    is_request := is_request i;
                    is_events := hctx_lock hctx :: is_events i ++ ended ++ [hctx_unlock hctx] |}).

(** ** Tags in use *)

(** The bit of the tag [t] is taken. *)
Definition tag_taken (tags : blk_mq_tags) (t : Z) : Prop :=
  if t <? nr_reserved_tags tags then t ∈ sb_set (breserved_tags tags)
  else t - nr_reserved_tags tags ∈ sb_set (bitmap_tags tags).

(** The numbers of tags fit in an [int]; reserved bits are reserved tags. *)
Record tags_wf (tags : blk_mq_tags) : Prop := {
  tw_reserved : 0 <= nr_reserved_tags tags;
  tw_breserved : sb_depth (breserved_tags tags) <= nr_reserved_tags tags;
  tw_depth : 0 <= sb_depth (bitmap_tags tags);
  tw_total : nr_reserved_tags tags + sb_depth (bitmap_tags tags) <= 2 ^ 31
}.

Definition nr_tags_of (tags : blk_mq_tags) : Z := nr_reserved_tags tags + sb_depth (bitmap_tags tags).

Definition inflight (reqs : gmap Z request) : gmap Z request := filter (λ e, req_inflight e.2 = true) reqs.

Record tags_inv (hctx : blk_mq_hw_ctx) (reqs : gmap Z request) : Prop := {
  ti_wf : tags_wf (hctx_tags hctx);
  ti_held : ∀ p rq, reqs !! p = Some rq → req_tag rq ≠ -1 →
    0 <= req_tag rq < nr_tags_of (hctx_tags hctx) ∧
    tag_taken (hctx_tags hctx) (req_tag rq) ∧ tag_rqs (hctx_tags hctx) !! req_tag rq = Some p;
  ti_inflight : ∀ p rq, reqs !! p = Some rq → req_inflight rq = true → req_tag rq ≠ -1;
  ti_active : hctx_nr_active hctx = Z.of_nat (size (inflight reqs))
}.

(** Sequences of calls on the requests of one hardware context. *)
Inductive tag_op := TGet (p : Z) | TPut (p : Z).

Definition tag_step (st : blk_mq_hw_ctx * gmap Z request) (op : tag_op)
    : option (blk_mq_hw_ctx * gmap Z request) :=
  match op with
  | TGet p =>
      rq ← st.2 !! p;
      '(_, hctx, rq') ← blk_mq_get_driver_tag st.1 p rq;
      Some (hctx, <[p := rq']> st.2)
  | TPut p =>
      rq ← st.2 !! p;
      let '(hctx, rq') := blk_mq_put_driver_tag st.1 rq in
      Some (hctx, <[p := rq']> st.2)
  end.

Fixpoint tag_run (st : blk_mq_hw_ctx * gmap Z request) (ops : list tag_op)
    : option (blk_mq_hw_ctx * gmap Z request) :=
  match ops with
  | [] => Some st
  | op :: ops' => st' ← tag_step st op; tag_run st' ops'
  end.

(** ** Preservation *)

Lemma inflight_insert reqs p rq :
  Z.of_nat (size (inflight (<[p := rq]> reqs))) =
  Z.of_nat (size (inflight (delete p reqs))) + Z.b2z (req_inflight rq).
Proof.
  unfold inflight. rewrite <-insert_delete_eq. destruct (req_inflight rq) eqn:E.
  - rewrite map_filter_insert_True by done. rewrite map_size_insert_None; [simpl; lia|].
    apply map_lookup_filter_None_2. left. apply lookup_delete_eq.
  - rewrite map_filter_insert_not' by (simpl; intros; rewrite ?lookup_delete_eq in *; congruence). simpl. lia.
Qed.

Lemma inflight_lookup reqs p rq :
  reqs !! p = Some rq →
  Z.of_nat (size (inflight reqs)) = Z.of_nat (size (inflight (delete p reqs))) + Z.b2z (req_inflight rq).
Proof. intros Hp. rewrite <-(inflight_insert reqs p rq). by rewrite insert_id. Qed.

(** Taking a tag for [p], which had none. *)
Lemma take_tag_inv hctx reqs p rq rq' hctx' t :
  tags_inv hctx reqs → reqs !! p = Some rq → req_tag rq = -1 →
  req_tag rq' = t → ¬ tag_taken (hctx_tags hctx) t → tags_wf (hctx_tags hctx') →
  nr_tags_of (hctx_tags hctx') = nr_tags_of (hctx_tags hctx) →
  0 <= t < nr_tags_of (hctx_tags hctx) →
  tag_taken (hctx_tags hctx') t →
  (∀ u, tag_taken (hctx_tags hctx) u → tag_taken (hctx_tags hctx') u) →
  tag_rqs (hctx_tags hctx') = <[t := p]> (tag_rqs (hctx_tags hctx)) →
  hctx_nr_active hctx' = hctx_nr_active hctx + Z.b2z (req_inflight rq') →
  tags_inv hctx' (<[p := rq']> reqs).
Proof.
  intros [] Hp Hno Ht Hfree Hwf Htot Hrange Hnew Hold Hrqs Hact. split.
  - done.
  - intros q r [[<- <-]|[Hne Hq]]%lookup_insert_Some Hr.
    + subst t. rewrite Hrqs, lookup_insert_eq, Htot. done.
    + destruct (ti_held0 q r Hq Hr) as (Hb & Htk & Hl). rewrite Htot, Hrqs.
      split; [done|]. split; [by apply Hold|]. rewrite lookup_insert_ne; [done|].
      intros ->. congruence.
  - intros q r [[<- <-]|[Hne Hq]]%lookup_insert_Some Hi; [lia|by eapply ti_inflight0].
  - rewrite Hact, inflight_insert, ti_active0, (inflight_lookup reqs p rq Hp).
    assert (req_inflight rq = false) as ->.
    { destruct (req_inflight rq) eqn:E; [|done]. exfalso. by apply (ti_inflight0 p rq). }
    simpl. lia.
Qed.

(** The bitmap a request for a tag is served from. *)
Definition tag_bitmap (tags : blk_mq_tags) (reserved : bool) : S :=
  if reserved then breserved_tags tags else bitmap_tags tags.

Lemma with_bitmap_same tags reserved : with_bitmap tags reserved (tag_bitmap tags reserved) = tags.
Proof. by destruct tags, reserved. Qed.

Lemma with_tags_same hctx : with_tags hctx (hctx_tags hctx) = hctx.
Proof. by destruct hctx. Qed.

Lemma get_bit_takes_free data hctx bt : takes_free bt (__blk_mq_get_tag data hctx bt).
Proof.
  unfold __blk_mq_get_tag. case_match; [split; [done|by left]|].
  case_match; [apply sb_get_shallow_law|apply sb_get_law].
Qed.

(** What a tag request does to the tags: nothing is freed, and the tag it
    returns was free. *)
Record tag_taken_from (tags tags' : blk_mq_tags) (tag : Z) : Prop := {
  tf_wf : tags_wf tags';
  tf_reserved : nr_reserved_tags tags' = nr_reserved_tags tags;
  tf_total : nr_tags_of tags' = nr_tags_of tags;
  tf_rqs : tag_rqs tags' = tag_rqs tags;
  tf_old : ∀ u, tag_taken tags u → tag_taken tags' u;
  tf_new : tag = BLK_MQ_TAG_FAIL ∨
    (0 <= tag < nr_tags_of tags ∧
     ¬ tag_taken tags tag ∧ tag_taken tags' tag)
}.

Lemma bitmap_update tags reserved bit bt' :
  tags_wf tags → takes_free (tag_bitmap tags reserved) (bit, bt') →
  tag_taken_from tags (with_bitmap tags reserved bt')
    (if bit =? -1 then BLK_MQ_TAG_FAIL else u32 (bit + (if reserved then 0 else nr_reserved_tags tags))).
Proof.
  intros [] [Hd Hset]. simpl in Hd, Hset.
  assert (sb_depth bt' = sb_depth (tag_bitmap tags reserved)) as Hd' by done.
  assert (∀ u, u ∈ sb_set (tag_bitmap tags reserved) → u ∈ sb_set bt') as Hsub.
  { destruct Hset as [[_ ->]|(_ & _ & ->)]; set_solver. }
  split; simpl.
  - split; simpl; try done; destruct reserved; simpl in *; lia.
  - done.
  - unfold nr_tags_of. destruct reserved; simpl in *; lia.
  - done.
  - intros u. unfold tag_taken. simpl. destruct reserved; simpl in *; case_match; auto.
  - destruct Hset as [[-> _]|(Hb & Hfree & Hnew)]; [by left|right].
    rewrite (proj2 (Z.eqb_neq bit (-1))) by lia.
    assert (0 <= bit + (if reserved then 0 else nr_reserved_tags tags) < 2 ^ 31) as Hr
      by (destruct reserved; simpl in *; unfold nr_tags_of in *; lia).
    rewrite u32_small by lia. unfold nr_tags_of, tag_taken. simpl.
    destruct reserved; simpl in *.
    + rewrite Z.add_0_r, (proj2 (Z.ltb_lt _ _)) by lia. split; [lia|]. split; [done|]. rewrite Hnew. set_solver.
    + rewrite (proj2 (Z.ltb_ge _ _)) by lia. rewrite Z.add_simpl_r. split; [lia|]. split; [done|].
      rewrite Hnew. set_solver.
Qed.

Lemma tag_taken_from_same tags : tags_wf tags → tag_taken_from tags tags BLK_MQ_TAG_FAIL.
Proof. intros Hwf. split; try done. by left. Qed.

Lemma get_tag_spec data hctx :
  tags_wf (hctx_tags hctx) → ad_internal data = false →
  ∃ tag tags', blk_mq_get_tag data hctx = Some (tag, with_tags hctx tags') ∧
    tag_taken_from (hctx_tags hctx) tags' tag.
Proof.
  intros Hwf Hint. unfold blk_mq_get_tag, blk_mq_tags_from_data. rewrite Hint. simpl.
  case_match.
  - exists BLK_MQ_TAG_FAIL, (hctx_tags hctx). rewrite with_tags_same. split; [done|]. by apply tag_taken_from_same.
  - pose proof (get_bit_takes_free data hctx (tag_bitmap (hctx_tags hctx) (ad_reserved data))) as Hf.
    unfold tag_bitmap in Hf.
    destruct (__blk_mq_get_tag data hctx _) as [bit bt'] eqn:E.
    eexists _, _. split; [by rewrite if_negb|]. by apply bitmap_update.
Qed.

Lemma tag_busy_spec hctx :
  ∃ shared hctx1, blk_mq_tag_busy hctx = (shared, hctx1) ∧ shared = hctx_tag_shared hctx ∧
    hctx_sched_tags hctx1 = hctx_sched_tags hctx ∧ hctx_nr_active hctx1 = hctx_nr_active hctx ∧
    nr_reserved_tags (hctx_tags hctx1) = nr_reserved_tags (hctx_tags hctx) ∧
    bitmap_tags (hctx_tags hctx1) = bitmap_tags (hctx_tags hctx) ∧
    breserved_tags (hctx_tags hctx1) = breserved_tags (hctx_tags hctx) ∧
    tag_rqs (hctx_tags hctx1) = tag_rqs (hctx_tags hctx).
Proof.
  unfold blk_mq_tag_busy, __blk_mq_tag_busy. destruct (hctx_tag_shared hctx) eqn:E; simpl; [case_match|];
    eexists _, _; (split; [reflexivity|]); done.
Qed.

Lemma tag_taken_ext tags tags' u :
  nr_reserved_tags tags' = nr_reserved_tags tags → bitmap_tags tags' = bitmap_tags tags →
  breserved_tags tags' = breserved_tags tags → tag_taken tags' u ↔ tag_taken tags u.
Proof. intros H1 H2 H3. unfold tag_taken. by rewrite H1, H2, H3. Qed.

(** Getting a driver tag keeps the invariant, and cannot fail otherwise. *)
Lemma get_driver_tag_inv hctx reqs p rq :
  tags_inv hctx reqs → reqs !! p = Some rq → is_Some (hctx_sched_tags hctx) →
  ∃ ok hctx' rq', blk_mq_get_driver_tag hctx p rq = Some (ok, hctx', rq') ∧
    tags_inv hctx' (<[p := rq']> reqs) ∧ hctx_sched_tags hctx' = hctx_sched_tags hctx ∧
    (ok = true ↔ req_tag rq' ≠ -1).
Proof.
  intros Hinv Hp [st Hst]. unfold blk_mq_get_driver_tag. destruct (Z.eqb_spec (req_tag rq) (-1)) as [Hno|Hyes]; simpl.
  2: { exists true, hctx, rq. by rewrite insert_id. }
  rewrite Hst. simpl.
  destruct (tag_busy_spec hctx) as (shared & h1 & -> & Hsh & Hsched & Hact & Hres & Hbm & Hbr & Hrq).
  set (data := {| ad_reserved := _; ad_internal := _; ad_shallow_depth := _ |}).
  pose proof (ti_wf _ _ Hinv) as Hwf.
  assert (tags_wf (hctx_tags h1)) as Hwf1 by (destruct Hwf; split; rewrite ?Hres, ?Hbm, ?Hbr; done).
  assert (nr_tags_of (hctx_tags h1) = nr_tags_of (hctx_tags hctx)) as Htot by (unfold nr_tags_of; by rewrite Hres, Hbm).
  destruct (get_tag_spec data h1 Hwf1 eq_refl) as (tag & tags' & -> & []). simpl.
  destruct tf_new0 as [->|(Hr & Hfree & Htk)].
  - change (s32 BLK_MQ_TAG_FAIL) with (-1). simpl. eexists _, _, _. split; [reflexivity|].
    split; [|split; [exact (eq_trans Hsched Hst)|done]].
    replace {| req_tag := -1; req_internal_tag := req_internal_tag rq; req_inflight := req_inflight rq;
               req_cpu := req_cpu rq |} with rq by (destruct rq; simpl in *; by subst).
    rewrite insert_id by done. destruct Hinv. split; simpl; try done.
    + intros q r Hq Hr. destruct (ti_held0 q r Hq Hr) as (Hb & Ht & Hl). rewrite tf_total0, Htot, tf_rqs0, Hrq.
      split; [done|]. split; [|done]. apply tf_old0. by apply (tag_taken_ext (hctx_tags hctx)).
    + by rewrite Hact.
  - destruct Hwf. unfold nr_tags_of in Hr. rewrite Hres, Hbm in Hr. rewrite s32_small by lia.
    rewrite (proj2 (Z.geb_le _ _)) by lia.
    assert (∀ u, tag_taken (hctx_tags h1) u ↔ tag_taken (hctx_tags hctx) u) as Hext by (intros; by apply tag_taken_ext).
    rewrite (proj2 (Z.eqb_neq tag (-1))) by lia.
    assert (req_inflight rq = false) as Hni.
    { destruct (req_inflight rq) eqn:E; [|done]. exfalso. by apply (ti_inflight _ _ Hinv p rq). }
    rewrite Hext in Hfree.
    assert (∀ hctx' rq', hctx_tags hctx' = hctx_tags (record_tag (with_tags h1 tags') tag p) →
      hctx_nr_active hctx' = hctx_nr_active hctx + Z.b2z (req_inflight rq') → req_tag rq' = tag →
      tags_inv hctx' (<[p := rq']> reqs)) as Hnew.
    { intros hctx' rq' Ht Ha Hq. eapply (take_tag_inv hctx reqs p rq rq' hctx' tag); rewrite ?Ht; try done.
      - destruct tf_wf0. by split.
      - exact (eq_trans tf_total0 Htot).
      - intros u Hu. apply tf_old0. by apply Hext.
      - simpl. by rewrite tf_rqs0, Hrq. }
    destruct shared; simpl; eexists _, _, _; (split; [reflexivity|]);
      (split; [|split; [exact (eq_trans Hsched Hst)|split; [intros _; simpl; lia|done]]]);
      apply Hnew; simpl; rewrite ?Hni; simpl; try done; lia.
Qed.
(** A tag that is put back is free, the others stay taken. *)
Lemma put_tag_taken tags cpu t u :
  tags_wf tags → 0 <= t < nr_tags_of tags → 0 <= u < nr_tags_of tags →
  tag_taken (blk_mq_put_tag tags cpu t) u ↔ tag_taken tags u ∧ u ≠ t.
Proof.
  intros [] Ht Hu. unfold nr_tags_of in *. unfold blk_mq_put_tag, blk_mq_tag_is_reserved.
  destruct (Z.ltb_spec t (nr_reserved_tags tags)); simpl; unfold tag_taken; simpl;
    destruct (Z.ltb_spec u (nr_reserved_tags tags)).
  - rewrite (proj2 (sb_clear_law _ _ _)). set_solver.
  - split; [intros Hb; split; [done|lia]|tauto].
  - split; [intros Hb; split; [done|lia]|tauto].
  - rewrite (proj2 (sb_clear_law _ _ _)), u32_small, s32_small by lia.
    rewrite elem_of_difference, elem_of_singleton.
    assert (u - nr_reserved_tags tags = t - nr_reserved_tags tags ↔ u = t) as -> by lia. done.
Qed.

Lemma put_tag_shape tags cpu t :
  tags_wf tags →
  let tags' := blk_mq_put_tag tags cpu t in
  tags_wf tags' ∧ nr_tags_of tags' = nr_tags_of tags ∧ tag_rqs tags' = tag_rqs tags.
Proof.
  intros []. unfold blk_mq_put_tag, nr_tags_of. case_match; simpl;
    (split; [split; simpl; rewrite ?(proj1 (sb_clear_law _ _ _)); done|]);
    rewrite ?(proj1 (sb_clear_law _ _ _)); done.
Qed.

Lemma put_driver_tag_inv hctx reqs p rq :
  tags_inv hctx reqs → reqs !! p = Some rq →
  let '(hctx', rq') := blk_mq_put_driver_tag hctx rq in
  tags_inv hctx' (<[p := rq']> reqs) ∧ hctx_sched_tags hctx' = hctx_sched_tags hctx.
Proof.
  intros Hinv Hp. unfold blk_mq_put_driver_tag.
  destruct (Z.eqb_spec (req_tag rq) (-1)) as [Hno|Hyes]; simpl; [by rewrite insert_id|].
  destruct (req_internal_tag rq =? -1); [by rewrite insert_id|]. unfold __blk_mq_put_driver_tag.
  destruct (ti_held _ _ Hinv p rq Hp Hyes) as (Hr & Htk & Hl). pose proof (ti_wf _ _ Hinv) as Hwf.
  rewrite u32_small by (destruct Hwf; unfold nr_tags_of in *; lia).
  destruct (put_tag_shape (hctx_tags hctx) (req_cpu rq) (req_tag rq) Hwf) as (Hwf' & Htot & Hrqs). cbv beta iota zeta.
  split; [|by destruct (req_inflight rq)].
  assert (∀ hctx', hctx_tags hctx' = blk_mq_put_tag (hctx_tags hctx) (req_cpu rq) (req_tag rq) →
    hctx_nr_active hctx' = hctx_nr_active hctx - Z.b2z (req_inflight rq) →
    tags_inv hctx' (<[p := {| req_tag := -1; req_internal_tag := req_internal_tag rq; req_inflight := false;
                             req_cpu := req_cpu rq |}]> reqs)) as Hput.
  { intros hctx' Ht Ha. destruct Hinv. split.
    - by rewrite Ht.
    - intros q r [[<- <-]|[Hne Hq]]%lookup_insert_Some Hrt; [done|].
      destruct (ti_held0 q r Hq Hrt) as (Hqr & Hqt & Hql). rewrite Ht, Htot, Hrqs.
      split; [done|]. split; [|done]. apply put_tag_taken; try done. split; [done|]. intros E. congruence.
    - intros q r [[<- <-]|[Hne Hq]]%lookup_insert_Some Hi; [done|by eapply ti_inflight0].
    - rewrite Ha, inflight_insert, ti_active0, (inflight_lookup reqs p rq Hp). simpl. lia. }
  destruct (req_inflight rq); apply Hput; simpl; lia || done.
Qed.

(** The calls refer to known requests. *)
Definition op_known (reqs : gmap Z request) (op : tag_op) : Prop :=
  match op with TGet p | TPut p => is_Some (reqs !! p) end.

Lemma tag_step_inv hctx reqs op :
  tags_inv hctx reqs → is_Some (hctx_sched_tags hctx) → op_known reqs op →
  ∃ hctx' reqs', tag_step (hctx, reqs) op = Some (hctx', reqs') ∧ tags_inv hctx' reqs' ∧
    is_Some (hctx_sched_tags hctx') ∧ dom reqs' = dom reqs.
Proof.
  intros Hinv Hsched Hop. destruct op as [p|p]; destruct Hop as [rq Hp]; simpl; rewrite Hp; simpl.
  - destruct (get_driver_tag_inv hctx reqs p rq Hinv Hp Hsched) as (ok & h' & rq' & -> & Hinv' & Hs & _).
    eexists _, _. split; [reflexivity|]. split; [done|]. split; [by rewrite Hs|].
    rewrite dom_insert_L. apply elem_of_dom_2 in Hp. set_solver.
  - pose proof (put_driver_tag_inv hctx reqs p rq Hinv Hp) as Hput.
    destruct (blk_mq_put_driver_tag hctx rq) as [h' rq']. destruct Hput as [Hinv' Hs].
    eexists _, _. split; [reflexivity|]. split; [done|]. split; [by rewrite Hs|].
    rewrite dom_insert_L. apply elem_of_dom_2 in Hp. set_solver.
Qed.

Lemma op_known_dom reqs reqs' op : dom reqs' = dom reqs → op_known reqs op → op_known reqs' op.
Proof. intros Hd. destruct op; simpl; rewrite <-!elem_of_dom, Hd; done. Qed.

Lemma tag_run_inv ops hctx reqs :
  tags_inv hctx reqs → is_Some (hctx_sched_tags hctx) → Forall (op_known reqs) ops →
  ∃ hctx' reqs', tag_run (hctx, reqs) ops = Some (hctx', reqs') ∧ tags_inv hctx' reqs'.
Proof.
  revert hctx reqs. induction ops as [|op ops IH]; intros hctx reqs Hinv Hs Hops; [by exists hctx, reqs|].
  inversion Hops as [|? ? Hop Hrest]; subst. cbn [tag_run].
  destruct (tag_step_inv hctx reqs op Hinv Hs Hop) as (h' & r' & -> & Hinv' & Hs' & Hd). simpl.
  apply IH; [done..|]. eapply Forall_impl; [exact Hrest|]. intros o. by apply op_known_dom.
Qed.

(** C14. Driver tags are exclusive: from a hardware context whose requests
    hold no tag, every sequence of blk_mq_get_driver_tag and
    blk_mq_put_driver_tag calls runs to the end, and in the state it reaches
    two requests never hold the same tag, a tag that is held is in range,
    its bit is taken and tags->rqs names its holder, and nr_active is the
    number of requests marked in flight. *)
Theorem driver_tags_exclusive ops hctx reqs :
  tags_wf (hctx_tags hctx) → is_Some (hctx_sched_tags hctx) → hctx_nr_active hctx = 0 →
  (∀ p rq, reqs !! p = Some rq → req_tag rq = -1 ∧ req_inflight rq = false) →
  Forall (op_known reqs) ops →
  ∃ hctx' reqs', tag_run (hctx, reqs) ops = Some (hctx', reqs') ∧
    (∀ p q rp rq, reqs' !! p = Some rp → reqs' !! q = Some rq → req_tag rp ≠ -1 →
       req_tag rp = req_tag rq → p = q) ∧
    (∀ p rp, reqs' !! p = Some rp → req_tag rp ≠ -1 →
       0 <= req_tag rp < nr_tags_of (hctx_tags hctx') ∧ tag_taken (hctx_tags hctx') (req_tag rp) ∧
       tag_rqs (hctx_tags hctx') !! req_tag rp = Some p) ∧
    hctx_nr_active hctx' = Z.of_nat (size (inflight reqs')).
Proof.
  intros Hwf Hs Hact Hfresh Hops.
  assert (tags_inv hctx reqs) as Hinv.
  { split; [done|..].
    - intros p rq Hp Ht. by destruct (Hfresh p rq Hp).
    - intros p rq Hp Hi. destruct (Hfresh p rq Hp). congruence.
    - assert (inflight reqs = ∅) as ->; [|by rewrite map_size_empty].
      apply map_empty. intros p. apply map_lookup_filter_None_2. right. intros rq Hp.
      destruct (Hfresh p rq Hp). simpl. congruence. }
  destruct (tag_run_inv ops hctx reqs Hinv Hs Hops) as (h' & r' & Hrun & []).
  exists h', r'. split; [done|]. split; [|done].
  intros p q rp rq Hp Hq Ht E. destruct (ti_held0 p rp Hp Ht) as (_ & _ & Hlp).
  destruct (ti_held0 q rq Hq ltac:(congruence)) as (_ & _ & Hlq). congruence.
Qed.
(** ** Issue *)

(** The issue itself, between the lock and the unlock. *)
Lemma try_issue_spec q hctx p rq reqs :
  tags_inv hctx reqs → reqs !! p = Some rq → is_Some (hctx_sched_tags hctx) →
  ∃ i, __blk_mq_try_issue_directly q hctx p rq true = Some i ∧
    (∀ s, EvEndRequest s ∉ is_events i) ∧
    (is_status i = BLK_STS_OK →
       rqq_queue_rq q (is_request i) = BLK_STS_OK ∧ req_tag (is_request i) ≠ -1 ∧
       is_cookie i = Some (rqq_request_to_qc_t q (is_request i))) ∧
    (EvGetBudget true ∈ is_events i → (∀ t, EvQueueRq t ∉ is_events i) → rqq_put_budget q = true →
       EvPutBudget ∈ is_events i).
Proof.
  intros Hinv Hp Hs. unfold __blk_mq_try_issue_directly. simpl. rewrite andb_false_r.
  destruct (blk_mq_hctx_stopped hctx || rqq_quiesced q); simpl.
  { eexists. split; [reflexivity|]. simpl. set_solver. }
  destruct (get_driver_tag_inv hctx reqs p rq Hinv Hp Hs) as (ok & h' & rq' & -> & _ & _ & Hok).
  destruct (blk_mq_get_dispatch_budget q) as [budget ev] eqn:Eb.
  assert (∀ s, EvEndRequest s ∉ ev) as Hev.
  { unfold blk_mq_get_dispatch_budget in Eb. case_match; simplify_eq; set_solver. }
  destruct budget; simpl.
  2: { eexists. split; [reflexivity|]. simpl. split; [done|]. split; [done|].
    unfold blk_mq_get_dispatch_budget in Eb. case_match; simplify_eq. set_solver. }
  destruct ok; simpl; eexists; (split; [reflexivity|]); simpl.
  - split; [set_solver|]. split; [|intros _ Hq; exfalso; apply (Hq (req_tag rq')); set_solver].
    intros E. rewrite E. split; [done|]. split; [by apply Hok|done].
  - unfold blk_mq_put_dispatch_budget. split; [case_match; set_solver|]. split; [done|].
    intros _ _ ->. set_solver.
Qed.

(** A request that was not accepted is ended once, after all other events. *)
Lemma ended_outcome q (i : issue) success lock unlock (status : blk_status) :
  status ≠ BLK_STS_OK → success ≠ LABSTOR_MQ_OK →
  (success = LABSTOR_MQ_DEVICE_BUSY ↔ status = BLK_STS_RESOURCE ∨ status = BLK_STS_DEV_RESOURCE) →
  (∀ s, EvEndRequest s ∉ is_events i) →
  (EvGetBudget true ∈ is_events i → (∀ t, EvQueueRq t ∉ is_events i) → rqq_put_budget q = true →
     EvPutBudget ∈ is_events i) →
  let i' := {| is_status := status; is_cookie := is_cookie i; is_hctx := is_hctx i; is_request := is_request i;
               is_events := lock :: is_events i ++ [EvEndRequest status] ++ [unlock] |} in
  let body := is_events i ++ [EvEndRequest status] in
  Some (success, i') = Some (success, i') ∧ is_events i' = lock :: body ++ [unlock] ∧
  (success = LABSTOR_MQ_OK ↔ is_status i' = BLK_STS_OK) ∧
  (success = LABSTOR_MQ_DEVICE_BUSY ↔ is_status i' = BLK_STS_RESOURCE ∨ is_status i' = BLK_STS_DEV_RESOURCE) ∧
  (success = LABSTOR_MQ_OK →
     rqq_queue_rq q (is_request i') = BLK_STS_OK ∧ req_tag (is_request i') ≠ -1 ∧
     is_cookie i' = Some (rqq_request_to_qc_t q (is_request i')) ∧ ∀ s, EvEndRequest s ∉ body) ∧
  (success ≠ LABSTOR_MQ_OK → ∃ pre, body = pre ++ [EvEndRequest (is_status i')] ∧ ∀ s, EvEndRequest s ∉ pre) ∧
  (EvGetBudget true ∈ body → (∀ t, EvQueueRq t ∉ body) → rqq_put_budget q = true → EvPutBudget ∈ body).
Proof.
  intros Hst Hs Hbusy Hend Hbud i' body. simpl. split; [done|]. split; [unfold body; by rewrite <-app_assoc|].
  split; [naive_solver|]. split; [done|]. split; [done|]. split; [intros _; by exists (is_events i)|].
  unfold body. intros Hg Hq Hput. apply elem_of_app. left. apply Hbud; [set_solver|set_solver|done].
Qed.

(** C15. Issuing a request directly has one outcome, and the code tells which:
    the events start by locking the context and end by unlocking it; with
    LABSTOR_MQ_OK the driver accepted the request, which holds a tag and is
    not ended; with any other code it is ended exactly once, with the status
    that was met; the request reaches the driver at most once; and when no
    tag could be had the dispatch budget that was taken is put back. *)
Theorem issue_directly_outcome q hctx p rq reqs :
  tags_inv hctx reqs → reqs !! p = Some rq → is_Some (hctx_sched_tags hctx) →
  ∃ success i body, blk_mq_try_issue_directly q hctx p rq = Some (success, i) ∧
    is_events i = hctx_lock hctx :: body ++ [hctx_unlock hctx] ∧
    (success = LABSTOR_MQ_OK ↔ is_status i = BLK_STS_OK) ∧
    (success = LABSTOR_MQ_DEVICE_BUSY ↔ is_status i = BLK_STS_RESOURCE ∨ is_status i = BLK_STS_DEV_RESOURCE) ∧
    (success = LABSTOR_MQ_OK →
       rqq_queue_rq q (is_request i) = BLK_STS_OK ∧ req_tag (is_request i) ≠ -1 ∧
       is_cookie i = Some (rqq_request_to_qc_t q (is_request i)) ∧ ∀ s, EvEndRequest s ∉ body) ∧
    (success ≠ LABSTOR_MQ_OK → ∃ pre, body = pre ++ [EvEndRequest (is_status i)] ∧ ∀ s, EvEndRequest s ∉ pre) ∧
    (EvGetBudget true ∈ body → (∀ t, EvQueueRq t ∉ body) → rqq_put_budget q = true → EvPutBudget ∈ body).
Proof.
  intros Hinv Hp Hs. unfold blk_mq_try_issue_directly.
  destruct (try_issue_spec q hctx p rq reqs Hinv Hp Hs) as (i & -> & Hend & Hok & Hbud). simpl.
  destruct (is_status i) eqn:E.
  - exists LABSTOR_MQ_OK. eexists. exists (is_events i). split; [reflexivity|]. split; [done|]. simpl.
    split; [done|]. split; [naive_solver|]. split; [naive_solver|]. done.
  - exists LABSTOR_MQ_DEVICE_BUSY. eexists. exists (is_events i ++ [EvEndRequest BLK_STS_RESOURCE]).
    apply ended_outcome; naive_solver.
  - exists LABSTOR_MQ_DEVICE_BUSY. eexists. exists (is_events i ++ [EvEndRequest BLK_STS_DEV_RESOURCE]).
    apply ended_outcome; naive_solver.
  - exists LABSTOR_MQ_NOT_OK. eexists. exists (is_events i ++ [EvEndRequest (BLK_STS_OTHER code)]).
    apply ended_outcome; naive_solver.
Qed.
End tags.

(** ** A concrete bitmap: the first free bit *)

Record first_fit := { ff_depth : Z; ff_bits : gset Z }.

Fixpoint first_free (bits : gset Z) (n : nat) (i : Z) : Z :=
  match n with
  | O => -1
  | S n' => if decide (i ∈ bits) then first_free bits n' (i + 1) else i
  end.

Definition first_fit_get (s : first_fit) : Z * first_fit :=
  let t := first_free (ff_bits s) (Z.to_nat (ff_depth s)) 0 in
  (t, if t =? -1 then s else {| ff_depth := ff_depth s; ff_bits := {[t]} ∪ ff_bits s |}).

#[export] Instance first_fit_queue : SbitmapQueue first_fit := {
  sb_depth := ff_depth;
  sb_set := ff_bits;
  __sbitmap_queue_get := first_fit_get;
  __sbitmap_queue_get_shallow s _ := first_fit_get s;
  sbitmap_queue_clear s t _ := {| ff_depth := ff_depth s; ff_bits := ff_bits s ∖ {[t]} |}
}.

Lemma first_free_spec bits n i :
  0 <= i → first_free bits n i = -1 ∨
  (i <= first_free bits n i < i + Z.of_nat n ∧ (first_free bits n i ∉ bits)).
Proof.
  revert i. induction n as [|n IH]; intros i Hi; simpl; [by left|].
  case_decide; [|right; split; [lia|done]]. destruct (IH (i + 1)) as [?|[? ?]]; [lia|by left|].
  right. split; [lia|done].
Qed.

Lemma first_fit_takes s : takes_free s (first_fit_get s).
Proof.
  unfold takes_free, first_fit_get. simpl.
  destruct (first_free_spec (ff_bits s) (Z.to_nat (ff_depth s)) 0) as [->|[Hr Hn]]; [lia| |].
  - split; [done|]. by left.
  - rewrite (proj2 (Z.eqb_neq _ (-1))) by lia. split; [done|]. right. split; [lia|]. done.
Qed.

#[export] Instance first_fit_laws : SbitmapLaws first_fit.
Proof. split; intros; [apply first_fit_takes..|done]. Qed.

(** Two tags, one of them reserved, shared by two queues; three requests. *)
Definition ex_tags (reserved depth : Z) : blk_mq_tags :=
  {| nr_reserved_tags := reserved; active_queues := 1;
     bitmap_tags := {| ff_depth := depth; ff_bits := ∅ |};
     breserved_tags := {| ff_depth := reserved; ff_bits := ∅ |}; tag_rqs := ∅ |}.

Definition ex_hctx : blk_mq_hw_ctx :=
  {| hctx_tag_shared := true; hctx_blocking := false; hctx_stopped := false; hctx_tag_active := false;
     hctx_tags := ex_tags 1 2; hctx_sched_tags := Some (ex_tags 1 16);
     hctx_nr_active := 0; hctx_dispatch_busy := 0; hctx_elevator := false |}.

Definition ex_request (internal_tag : Z) : request :=
  {| req_tag := -1; req_internal_tag := internal_tag; req_inflight := false; req_cpu := 0 |}.

Definition ex_reqs : gmap Z request :=
  {[ 100 := ex_request 0; 200 := ex_request 5; 300 := ex_request 6; 400 := ex_request 7 ]}.

Definition ex_ops : list tag_op := [TGet 100; TGet 200; TGet 300; TGet 400; TPut 200; TGet 400].

(** The tags the four requests end with. *)
Definition ex_tags_held (st : option (blk_mq_hw_ctx (S := first_fit) * gmap Z request)) : list Z :=
  match st with Some (_, reqs) => (λ p, default (-2) (req_tag <$> reqs !! p)) <$> [100; 200; 300; 400] | None => [] end.

Lemma ex_tags_example : ex_tags_held (tag_run (ex_hctx, ex_reqs) ex_ops) = [0; -1; 2; 1].
Proof. vm_compute. reflexivity. Qed.

Lemma driver_tags_exclusive_witness :
  ∃ hctx' reqs', tag_run (ex_hctx, ex_reqs) ex_ops = Some (hctx', reqs') ∧
    (∀ p q rp rq, reqs' !! p = Some rp → reqs' !! q = Some rq → req_tag rp ≠ -1 →
       req_tag rp = req_tag rq → p = q) ∧ hctx_nr_active hctx' = 3.
Proof.
  destruct (driver_tags_exclusive ex_ops ex_hctx ex_reqs) as (h' & r' & Hrun & Hex & _ & Hact).
  - split; simpl; lia.
  - by eexists.
  - reflexivity.
  - intros p rq Hp. unfold ex_reqs in Hp.
    repeat (apply lookup_insert_Some in Hp as [[<- <-]|[_ Hp]]; [done|]).
    apply lookup_singleton_Some in Hp as [<- <-]. done.
  - repeat constructor; by eexists.
  - exists h', r'. split; [exact Hrun|]. split; [exact Hex|]. rewrite Hact.
    vm_compute in Hrun. injection Hrun as _ <-. vm_compute. reflexivity.
Defined.

Definition ex_queue : request_queue :=
  {| rqq_quiesced := false; rqq_elevator := true; rqq_get_budget := Some true; rqq_put_budget := true;
     rqq_queue_rq := λ _, BLK_STS_RESOURCE; rqq_request_to_qc_t := req_tag |}.

Lemma issue_directly_outcome_witness :
  ∃ success i body, blk_mq_try_issue_directly ex_queue ex_hctx 200 (ex_request 5) = Some (success, i) ∧
    is_events i = hctx_lock ex_hctx :: body ++ [hctx_unlock ex_hctx] ∧ success = LABSTOR_MQ_DEVICE_BUSY.
Proof.
  destruct (issue_directly_outcome ex_queue ex_hctx 200 (ex_request 5) {[200 := ex_request 5]})
    as (success & i & body & Hrun & Hev & _ & Hbusy & _).
  - split; [split; simpl; lia|..].
    + intros p rq [<- <-]%lookup_singleton_Some. done.
    + intros p rq [<- <-]%lookup_singleton_Some. done.
    + vm_compute. reflexivity.
  - apply lookup_singleton_eq.
  - by eexists.
  - exists success, i, body. split; [exact Hrun|]. split; [exact Hev|]. apply Hbusy. left.
    vm_compute in Hrun. injection Hrun as _ <-. reflexivity.
Defined.
