(* ===== verification/MqDriver.v ===== *)
(** * MqDriver.v: block I/O requests in the multi-queue driver

    The second half of labmods/mq_driver/kernel/mq_driver_kernel.c: the
    handler that turns a request of a queue pair into a bio, submits it and
    completes the request, and the layouts of mq_driver.h on the two sides of
    the shared memory.  What the block layer answers is in [mq_env]. *)

From S2P Require Import Prelude Memory RingBuffer RequestQueue QueuePair WorkQueue Allocators Kernel KernelWorker MqTags.

Local Open Scope Z_scope.

(** ** Layouts and constants *)

(** [struct labstor_mq_driver_request], 96 bytes. *)
Definition mqr_dev_id_ : Z := 16.
Definition mqr_user_buf_ : Z := 24.
Definition mqr_sector_ : Z := 32.
Definition mqr_buf_size_ : Z := 40.
Definition mqr_hctx_ : Z := 48.
Definition mqr_pid_ : Z := 52.
Definition mqr_cookie_ : Z := 60.
Definition mqr_flags_ : Z := 64.
Definition sizeof_mq_request : Z := 96.

(** [labstor::MQDriver::io_request]: no [num_hw_queues_] before the cookie. *)
Definition mqu_cookie_ : Z := 56.
Definition mqu_flags_ : Z := 60.

(** [struct labstor_queue_stats_request]. *)
Definition qsr_dev_id_ : Z := 16.
Definition qsr_num_hw_queues_ : Z := 20.
Definition qsr_queue_depth_ : Z := 24.

#[export] Hint Unfold mqr_dev_id_ mqr_user_buf_ mqr_sector_ mqr_buf_size_ mqr_hctx_ mqr_pid_ mqr_cookie_ mqr_flags_
  sizeof_mq_request mqu_cookie_ mqu_flags_ qsr_dev_id_ qsr_num_hw_queues_ qsr_queue_depth_ : layout.

Definition LABSTOR_MQ_IS_SUBMITTED : Z := Z.shiftl 1 0.
Definition LABSTOR_MQ_POLLED_IO : Z := Z.shiftl 1 1.
Definition LABSTOR_MQ_IO_IS_COMPLETE : Z := Z.shiftl 1 2.

Definition LABSTOR_MQ_NUM_HW_QUEUES : Z := 1.
Definition LABSTOR_MQ_POLL_COMPLETION : Z := 2.
Definition LABSTOR_MQ_DRIVER_WRITE : Z := 3.
Definition LABSTOR_MQ_DRIVER_READ : Z := 4.

(** The number of pointers in an object of [page_cache]. *)
Definition MAX_PAGES_PER_GET : Z := 128.

(** ** The environment *)

Section driver.
Context {S : Type} `{SbitmapQueue S}.

(** What the kernel answers: the task of a pid, an array for pages, the
    number of pages pinned for a buffer, whether a bio can be had; and for a
    block device: polling, direct submission, a request on a hardware queue
    (or an error number), the cookie of a submitted bio, a poll, and the
    numbers of queues and requests. *)
Record mq_env := {
  me_page_size : Z;
  me_task : Z → bool;
  me_page_array : bool;
  me_pinned : Z → Z → Z;
  me_bio_alloc : Z → bool;
  me_queue_poll : Z → bool;
  me_has_queue_rq : Z → bool;
  me_alloc_request : Z → Z → Z + (request_queue * blk_mq_hw_ctx (S := S) * Z * request);
  me_submit_bio : Z → Z;
  me_poll : Z → Z → M Z;
  me_nr_hw_queues : Z → Z;
  me_nr_requests : Z → Z
}.

(** The calls that own something. *)
Inductive io_event :=
| EvPagesAlloc
| EvPagesFree
| EvBio (sector num_pages : Z) (write : bool)
| EvIssue (hctx success : Z)
| EvSubmitBio (cookie : Z).

Context (fuel : nat) (env : mq_env).

(** ** Submission *)

Definition num_pages_of (length : Z) : Z :=
  s32 (u32 (if negb (length mod me_page_size env =? 0) then length / me_page_size env + 1
            else length / me_page_size env)).

(** The number of pages, [None] for the null pointer.  Pinning writes one
    pointer per page into the array. *)
Definition convert_user_buf (pid user_buf length : Z) : KM (option Z * list io_event) :=
  let num_pages := num_pages_of length in
  if negb (me_page_array env) then mret (None, [])
  else if negb (me_task env pid) then k_fault
  else
    let true_num_pages := me_pinned env user_buf num_pages in
    if MAX_PAGES_PER_GET <? true_num_pages then k_fault
    else if negb (num_pages =? true_num_pages) then mret (None, [EvPagesAlloc; EvPagesFree])
    else mret (Some num_pages, [EvPagesAlloc]).

Definition create_bio (num_pages sector : Z) (write : bool) : bool * list io_event :=
  if me_bio_alloc env num_pages then (true, [EvBio sector num_pages write]) else (false, []).

(** Every error number is a null pointer. *)
Definition bio_to_rq (bdev hctx_idx : Z) : option (request_queue * blk_mq_hw_ctx (S := S) * Z * request) :=
  match me_alloc_request env bdev hctx_idx with inl _ => None | inr r => Some r end.

(** From the device to the block layer, with [num_pages] pages pinned: the
    code of the request.  The cookie is stored only for a submitted bio. *)
Definition submit_pages (rq num_pages : Z) : KM (Z * list io_event) :=
  dev_id ← lift (load_s32 (rq + mqr_dev_id_));
  bdev ← labstor_get_bdev dev_id;
  match bdev with
  | None => mret (LABSTOR_MQ_INVALID_DEVICE_ID, [])
  | Some b =>
      _ ← (if me_queue_poll env b
           then flags ← lift (load32 (rq + mqr_flags_));
                lift (store32 (rq + mqr_flags_) (Z.lor flags LABSTOR_MQ_POLLED_IO))
           else mret tt);
      sector ← lift (load64 (rq + mqr_sector_));
      op ← lift (load16 (rq + rq_op_));
      let '(ok, ev) := create_bio num_pages sector (op =? LABSTOR_MQ_DRIVER_WRITE) in
      if negb ok then mret (LABSTOR_MQ_CANNOT_ALLOCATE_BIO, ev)
      else
        hctx ← lift (load_s32 (rq + mqr_hctx_));
        if me_has_queue_rq env b && (0 <=? hctx) then
          match bio_to_rq b hctx with
          | None => mret (LABSTOR_MQ_CANNOT_ALLOCATE_REQUEST, ev)
          | Some (q, h, p, dev_rq) =>
              match blk_mq_try_issue_directly q h p dev_rq with
              | None => k_fault
              | Some (success, _) => mret (success, ev ++ [EvIssue hctx success])
              end
          end
        else
          let cookie := me_submit_bio env b in
          _ ← lift (store32 (rq + mqr_cookie_) (u32 cookie));
          mret (LABSTOR_MQ_OK, ev ++ [EvSubmitBio cookie])
  end.

Definition complete_with (qp rq code : Z) : M unit :=
  _ ← store32 (rq + rq_code_) (u32 code);
  h ← load_qp qp;
  _ ← labstor_queue_pair_CompleteInf fuel h rq;
  mret tt.

(** The flag QUEUE_FLAG_STATS that is cleared on the queue of the device is not
    modelled.  The callback of the bio is [io_complete] below: the block layer
    runs it after the submission, so that it is no part of this function. *)
Definition submit_mq_driver_io (qp rq : Z) : KM (list io_event) :=
  pid ← lift (load_s32 (rq + mqr_pid_));
  user_buf ← lift (load64 (rq + mqr_user_buf_));
  buf_size ← lift (load64 (rq + mqr_buf_size_));
  pages ← convert_user_buf pid user_buf buf_size;
  match pages with
  | (None, ev) =>
      _ ← lift (complete_with qp rq LABSTOR_MQ_CANT_ALLOCATE_PAGES);
      mret ev
  | (Some num_pages, ev) =>
      r ← submit_pages rq num_pages;
      _ ← lift (complete_with qp rq r.1);
      mret (ev ++ r.2 ++ [EvPagesFree])
  end.

(** ** Completion, polling, statistics *)

(** [bio]: the request it belongs to (or the null pointer) and its status;
    [None]: a null pointer or an error. *)
Definition io_complete (bio : option (option Z * Z)) : M unit :=
  match bio with
  | Some (Some rq, bi_status) =>
      _ ← store32 (rq + rq_code_) (u32 bi_status);
      flags ← load32 (rq + mqr_flags_);
      store32 (rq + mqr_flags_) (Z.lor flags LABSTOR_MQ_IO_IS_COMPLETE)
  | _ => mret tt
  end.

Definition poll_io_completion (qp rq : Z) : KM unit :=
  dev_id ← lift (load_s32 (rq + mqr_dev_id_));
  bdev ← labstor_get_bdev dev_id;
  match bdev with
  | None => k_fault
  | Some b =>
      cookie ← lift (load32 (rq + mqr_cookie_));
      flags ← lift (load32 (rq + mqr_flags_));
      _ ← (if (Z.land flags LABSTOR_MQ_IO_IS_COMPLETE =? 0) && negb (Z.land flags LABSTOR_MQ_POLLED_IO =? 0)
           then _ ← lift (me_poll env b cookie); mret tt
           else mret tt);
      lift (complete_with qp rq LABSTOR_MQ_OK)
  end.

Definition get_num_hw_queues (qp rq : Z) : KM unit :=
  dev_id ← lift (load_s32 (rq + qsr_dev_id_));
  bdev ← labstor_get_bdev dev_id;
  match bdev with
  | None => k_fault
  | Some b =>
      _ ← lift (store32 (rq + qsr_num_hw_queues_) (u32 (me_nr_hw_queues env b)));
      _ ← lift (store32 (rq + qsr_queue_depth_) (u32 (me_nr_requests env b)));
      lift (complete_with qp rq LABSTOR_REQUEST_SUCCESS)
  end.

Definition mq_process_request_fn (qp rq : Z) : KM (list io_event) :=
  op ← lift (load16 (rq + rq_op_));
  if (op =? LABSTOR_MQ_DRIVER_WRITE) || (op =? LABSTOR_MQ_DRIVER_READ) then submit_mq_driver_io qp rq
  else if op =? LABSTOR_MQ_NUM_HW_QUEUES then _ ← get_num_hw_queues qp rq; mret []
  else if op =? LABSTOR_MQ_POLL_COMPLETION then _ ← poll_io_completion qp rq; mret []
  else mret [].

Definition mq_driver_module : labstor_module :=
  {| lm_module_id := [77; 81; 95; 68; 82; 73; 86; 69; 82];
     lm_runtime_id := MQ_DRIVER_RUNTIME_ID;
     lm_process_request_fn := Some (λ qp rq, _ ← mq_process_request_fn qp rq; mret tt);
     lm_process_request_fn_netlink := None |}.

(** ** The user's side *)

Definition io_request_IOStart (rq ns_id pid op dev_id user_buf buf_size sector hctx : Z) : M unit :=
  _ ← store32 (rq + rq_ns_id_) (u32 ns_id);
  _ ← store16 (rq + rq_op_) (u16 op);
  _ ← store32 (rq + mqr_pid_) (u32 pid);
  _ ← store32 (rq + mqr_dev_id_) (u32 dev_id);
  _ ← store64 (rq + mqr_user_buf_) (u64 user_buf);
  _ ← store64 (rq + mqr_buf_size_) (u64 buf_size);
  _ ← store64 (rq + mqr_sector_) (u64 sector);
  _ ← store32 (rq + mqr_hctx_) (u32 hctx);
  _ ← store32 (rq + mqu_flags_) 0;
  store32 (rq + rq_code_) 0.

Definition io_request_IOClientStart (rq ns_id pid op user_buf buf_size sector hctx : Z) : M unit :=
  io_request_IOStart rq ns_id pid op 0 user_buf buf_size sector hctx.

(** The request to the kernel is filled from the client's request [from]. *)
Definition io_request_IOKernelStart (rq ns_id from : Z) : M unit :=
  pid ← load_s32 (from + mqr_pid_);
  op ← load16 (from + rq_op_);
  dev_id ← load_s32 (from + mqr_dev_id_);
  user_buf ← load64 (from + mqr_user_buf_);
  buf_size ← load64 (from + mqr_buf_size_);
  sector ← load64 (from + mqr_sector_);
  hctx ← load_s32 (from + mqr_hctx_);
  io_request_IOStart rq ns_id pid op dev_id user_buf buf_size sector hctx.

Definition io_request_PollStart (rq : Z) : M unit := store16 (rq + rq_op_) LABSTOR_MQ_POLL_COMPLETION.

Definition io_request_IsSubmitted (rq : Z) : M bool :=
  flags ← load32 (rq + mqu_flags_); mret (negb (Z.land flags LABSTOR_MQ_IS_SUBMITTED =? 0)).

Definition io_request_IOIsComplete (rq : Z) : M bool :=
  flags ← load32 (rq + mqu_flags_); mret (negb (Z.land flags LABSTOR_MQ_IO_IS_COMPLETE =? 0)).

Definition io_request_PollingEnabled (rq : Z) : M bool :=
  flags ← load32 (rq + mqu_flags_); mret (negb (Z.land flags LABSTOR_MQ_POLLED_IO =? 0)).

Definition io_request_AcknowledgeSubmission (rq : Z) : M unit :=
  flags ← load32 (rq + mqu_flags_); store32 (rq + mqu_flags_) (Z.lor flags LABSTOR_MQ_IS_SUBMITTED).

(** ** Every submission is completed *)

Definition bdev_of (k : kstate) (dev_id : Z) : option Z := default None (k_bdevs k !! Z.to_nat dev_id).

(** The code of a read or write request, as a decision table. *)
Definition submit_code (k : kstate) (rq num_pages : Z) (m : mem) : Z :=
  match bdev_of k (s32 (read 4 (rq + mqr_dev_id_) m)) with
  | None => LABSTOR_MQ_INVALID_DEVICE_ID
  | Some b =>
      let hctx := s32 (read 4 (rq + mqr_hctx_) m) in
      if negb (me_bio_alloc env num_pages) then LABSTOR_MQ_CANNOT_ALLOCATE_BIO
      else if me_has_queue_rq env b && (0 <=? hctx) then
        match bio_to_rq b hctx with
        | None => LABSTOR_MQ_CANNOT_ALLOCATE_REQUEST
        | Some (q, h, p, dev_rq) =>
            match blk_mq_try_issue_directly q h p dev_rq with
            | Some (success, _) => success
            | None => LABSTOR_MQ_NOT_OK
            end
        end
      else LABSTOR_MQ_OK
  end.

Definition mq_code (k : kstate) (rq : Z) (m : mem) : Z :=
  let num_pages := num_pages_of (read 8 (rq + mqr_buf_size_) m) in
  if negb (me_page_array env) || negb (num_pages =? me_pinned env (read 8 (rq + mqr_user_buf_) m) num_pages)
  then LABSTOR_MQ_CANT_ALLOCATE_PAGES
  else submit_code k rq num_pages m.

(** The array of pages is freed last, exactly once if it was allocated. *)
Definition pages_released (ev : list io_event) : Prop :=
  ev = [] ∨ ∃ body, ev = EvPagesAlloc :: body ++ [EvPagesFree] ∧ (EvPagesAlloc ∉ body) ∧ (EvPagesFree ∉ body).

(** Room for the whole request. *)
Record mq_room (qaddr : Z) (h : labstor_queue_pair) (cap : Z) (objs : gset Z) (rq : Z) (m : mem) : Prop := {
  mr_valid : valid m rq sizeof_mq_request;
  mr_sq : outside rq sizeof_mq_request (lrq_header_ (qp_sq_ h)) (24 + 4 * cap);
  mr_cq : outside rq sizeof_mq_request (rm_header_ (qp_cq_ h)) (4 + 4 * cap);
  mr_handle : outside qaddr 56 rq sizeof_mq_request;
  mr_objs : ∀ q, q ∈ objs → q ≠ rq → outside q 16 rq sizeof_mq_request
}.

(** What the caller must ensure for a request not to fault: a task for the
    pid, at most 128 pages, a device id in the table, and tags for the
    hardware queue. *)
Record mq_safe (k : kstate) (rq : Z) (m : mem) : Prop := {
  ms_task : me_task env (s32 (read 4 (rq + mqr_pid_) m)) = true;
  ms_pages : me_pinned env (read 8 (rq + mqr_user_buf_) m) (num_pages_of (read 8 (rq + mqr_buf_size_) m)) <= MAX_PAGES_PER_GET;
  ms_dev : 0 <= s32 (read 4 (rq + mqr_dev_id_) m) < Z.of_nat (length (k_bdevs k));
  ms_issue : ∀ b hctx q h p r, me_alloc_request env b hctx = inr (q, h, p, r) →
    is_Some (blk_mq_try_issue_directly q h p r)
}.

Section completes.
Context (qaddr : Z) (h : labstor_queue_pair) (qid : labstor_qid_t) (cap : Z) (objs : gset Z).
Hypothesis Hlay : worker_layout qaddr h cap objs.
Hypothesis Hfuel : (0 < fuel)%nat.

Lemma rq_frame st m m' rq :
  worker_rel qaddr h qid cap objs st m → mq_room qaddr h cap objs rq m → rq ∈ objs →
  modifies (span (rq + 4) 92) m m' →
  worker_rel qaddr h qid cap objs st m' ∧ mq_room qaddr h cap objs rq m'.
Proof.
  intros [] [] Hobj Hm. split.
  - split.
    + eapply qp_rel_frame; [done|exact Hm|]. unfold span. intros a Ha.
      unfold sq_bytes, cq_bytes, lrq_span, rm_span, span, outside in *. autounfold with layout in *. simpl in *.
      split; [lia|]. split; [lia|]. intros q Hq Hqa.
      destruct (decide (q = rq)) as [->|Hne]; [lia|]. specialize (mr_objs0 q Hq Hne). lia.
    + eapply handle_frame; [done|exact Hm|]. unfold span, outside in *. autounfold with layout in *. intros; lia.
    + intros q Hq. eapply valid_modifies; [exact Hm|auto].
  - split; try done. by eapply valid_modifies.
Qed.

Lemma complete_with_spec st m rq id code :
  worker_rel qaddr h qid cap objs st m → pending objs st rq id →
  wp (complete_with qaddr rq code)
     (λ _ m', worker_rel qaddr h qid cap objs (completed st rq id) m' ∧ read 4 (rq + rq_code_) m' = u32 code) m.
Proof.
  intros Hrel Hp. pose proof Hp as (Hobj & _). pose proof (wr_valid _ _ _ _ _ _ _ Hrel _ Hobj) as Hv.
  unfold complete_with.
  destruct (set_code_rel qaddr h qid cap objs Hlay st m rq (u32 code) Hrel Hobj) as [Hrel1 _].
  do 2 wp_step. apply wp_bind, (wp_load_handle qaddr h); [apply Hrel1|]. apply wp_bind.
  eapply wp_mono; [by apply (complete_rel qaddr h qid cap objs Hlay fuel st _ rq id)|].
  intros ok m2 (-> & Hrel2 & Hm2). wp_go. split; [done|].
  eapply (code_after _ _ _ _ Hlay); [done| |exact Hm2]. mem_simpl. apply u32_idemp.
Qed.

Lemma wp_get_bdev dev k m (Q : option Z * kstate → mem → Prop) :
  0 <= dev < Z.of_nat (length (k_bdevs k)) → Q (bdev_of k dev, k) m → wp (labstor_get_bdev dev k) Q m.
Proof.
  intros Hd HQ. unfold labstor_get_bdev. apply wp_kbind, wp_ret. simpl.
  rewrite (proj2 (Z.ltb_ge dev 0)) by lia. unfold bdev_of in HQ.
  destruct (lookup_lt_is_Some_2 (k_bdevs k) (Z.to_nat dev)) as [b Hb]; [lia|]. rewrite Hb in *. by apply wp_ret.
Qed.

(** Setting the polling flag. *)
Lemma poll_flag_spec (b : bool) st m rq k (Q : unit * kstate → mem → Prop) :
  worker_rel qaddr h qid cap objs st m → mq_room qaddr h cap objs rq m → rq ∈ objs →
  (∀ m', worker_rel qaddr h qid cap objs st m' → mq_room qaddr h cap objs rq m' →
     modifies (span (rq + mqr_flags_) 4) m m' → Q (tt, k) m') →
  wp ((if b then flags ← lift (load32 (rq + mqr_flags_));
                lift (store32 (rq + mqr_flags_) (Z.lor flags LABSTOR_MQ_POLLED_IO))
      else mret tt) k) Q m.
Proof.
  intros Hrel Hroom Hobj HQ. destruct b; [|apply wp_ret, HQ; auto with labstor].
  pose proof (mr_valid _ _ _ _ _ _ Hroom) as Hv.
  apply wp_kbind, wp_lift. wp_step. simpl. apply wp_lift. wp_step.
  assert (∀ v, modifies (span (rq + mqr_flags_) 4) m (write 4 (rq + mqr_flags_) v m)) as Hm.
  { intros v. apply modifies_write; [vsolve|unfold span; simpl; lia]. }
  destruct (rq_frame st m (write 4 (rq + mqr_flags_) (Z.lor (read 4 (rq + mqr_flags_) m) LABSTOR_MQ_POLLED_IO) m)
    rq Hrel Hroom Hobj) as [Hrel' Hroom'].
  { eapply modifies_weaken; [apply Hm|]. unfold span. autounfold with layout. intros; lia. }
  by apply HQ.
Qed.

(** The code, the events of one outcome, and the rest. *)
Ltac outcome := simpl; split; [done|]; split; [done|]; split; [set_solver|]; split; [set_solver|done].

Lemma submit_pages_spec st m rq n k :
  worker_rel qaddr h qid cap objs st m → mq_room qaddr h cap objs rq m → rq ∈ objs → mq_safe k rq m →
  wp (submit_pages rq n k)
     (λ r m', r.2 = k ∧ r.1.1 = submit_code k rq n m ∧ (EvPagesAlloc ∉ r.1.2) ∧ (EvPagesFree ∉ r.1.2) ∧
        worker_rel qaddr h qid cap objs st m') m.
Proof.
  intros Hrel Hroom Hobj []. pose proof (mr_valid _ _ _ _ _ _ Hroom) as Hv. unfold submit_pages, submit_code.
  apply wp_kbind, wp_lift. wp_step. simpl. apply wp_kbind, wp_get_bdev; [done|]. simpl.
  destruct (bdev_of k _) as [b|]; [|apply wp_ret; outcome].
  apply wp_kbind. apply (poll_flag_spec _ st m rq k _ Hrel Hroom Hobj). intros m1 Hrel1 Hroom1 Hm1. simpl.
  pose proof (mr_valid _ _ _ _ _ _ Hroom1) as Hv1.
  do 2 (apply wp_kbind, wp_lift; wp_step; simpl). unfold create_bio.
  destruct (me_bio_alloc env n); simpl; [|apply wp_ret; outcome].
  apply wp_kbind, wp_lift. wp_step. simpl.
  assert (read 4 (rq + mqr_hctx_) m1 = read 4 (rq + mqr_hctx_) m) as ->.
  { eapply read_modifies; [exact Hm1|]. unfold span. autounfold with layout. simpl. intros; lia. }
  destruct (me_has_queue_rq env b && (0 <=? s32 (read 4 (rq + mqr_hctx_) m))).
  - unfold bio_to_rq. destruct (me_alloc_request env b _) as [e|[[[q hc] p] r]] eqn:Ea.
    + apply wp_ret. outcome.
    + destruct (ms_issue0 _ _ _ _ _ _ Ea) as [[success i] ->]. apply wp_ret. outcome.
  - apply wp_kbind, wp_lift. wp_step. apply wp_ret. simpl.
    assert (∀ v, modifies (span (rq + 4) 92) m1 (write 4 (rq + mqr_cookie_) v m1)) as Hm2.
    { intros v. apply modifies_write; [vsolve|unfold span; autounfold with layout; simpl; lia]. }
    destruct (rq_frame st m1 _ rq Hrel1 Hroom1 Hobj (Hm2 (u32 (me_submit_bio env b)))) as [Hrel2 _].
    outcome.
Qed.

(** C16. A read or write request within the limits of the driver is answered:
    if the process of the request exists, its buffer has at most 128 pages (the
    size of a page array), its device number is one of the device table's and
    the queue the kernel gives answers the issue ([mq_safe]), then whatever else
    the kernel answers to the driver, the request is completed exactly once on
    its queue pair, under its own id, with the code of the branch that was taken
    (no pages, no device, no bio, no request, or the outcome of the issue), and
    the page array is freed, last and once, if it was allocated.  The driver
    does not check these limits: a request of 129 pages faults and is not
    completed ([too_many_pages_fault]). *)
Theorem mq_submit_completes st m rq id k :
  worker_rel qaddr h qid cap objs st m → pending objs st rq id → mq_room qaddr h cap objs rq m →
  mq_safe k rq m →
  read 2 (rq + rq_op_) m = LABSTOR_MQ_DRIVER_WRITE ∨ read 2 (rq + rq_op_) m = LABSTOR_MQ_DRIVER_READ →
  wp (mq_process_request_fn qaddr rq k)
     (λ r m', worker_rel qaddr h qid cap objs (completed st rq id) m' ∧
        read 4 (rq + rq_code_) m' = u32 (mq_code k rq m) ∧ pages_released r.1 ∧ r.2 = k) m.
Proof.
  intros Hrel Hp Hroom Hsafe Hop. pose proof Hp as (Hobj & _). pose proof (mr_valid _ _ _ _ _ _ Hroom) as Hv.
  unfold mq_process_request_fn. apply wp_kbind, wp_lift. wp_step. simpl.
  assert ((read 2 (rq + rq_op_) m =? LABSTOR_MQ_DRIVER_WRITE) || (read 2 (rq + rq_op_) m =? LABSTOR_MQ_DRIVER_READ)
    = true) as -> by (destruct Hop as [-> | ->]; done).
  unfold submit_mq_driver_io, mq_code. do 3 (apply wp_kbind, wp_lift; wp_step; simpl).
  set (n := num_pages_of (read 8 (rq + mqr_buf_size_) m)). set (buf := read 8 (rq + mqr_user_buf_) m).
  apply wp_kbind. unfold convert_user_buf. fold n.
  destruct (me_page_array env); simpl.
  2: { apply wp_ret. simpl. apply wp_kbind, wp_lift. eapply wp_mono; [by apply complete_with_spec|].
    intros [] m' [Hrel' Hc]. apply wp_ret. simpl. split; [done|]. split; [done|]. split; [by left|done]. }
  rewrite (ms_task _ _ _ Hsafe). simpl. 
  pose proof (ms_pages _ _ _ Hsafe) as Hpages. fold n buf in Hpages. rewrite (proj2 (Z.ltb_ge _ _) Hpages).
  destruct (n =? me_pinned env buf n); simpl; apply wp_ret; simpl; apply wp_kbind.
  - eapply wp_mono; [by apply (submit_pages_spec st m rq n k)|].
    intros [[code ev] k'] m1 (Hk & Hcode & Hna & Hnf & Hrel1). simpl in *. subst k' code.
    apply wp_kbind, wp_lift. eapply wp_mono; [by apply complete_with_spec|].
    intros [] m' [Hrel' Hc]. apply wp_ret. simpl. split; [done|]. split; [done|]. split; [right; by exists ev|done].
  - apply wp_lift. eapply wp_mono; [by apply complete_with_spec|].
    intros [] m' [Hrel' Hc]. apply wp_ret. simpl. split; [done|]. split; [done|]. split; [|done]. right. exists []. split; [done|]. set_solver.
Qed.
End completes.
End driver.

(** ** A concrete submission

    A pair of depth 2 at 4160 and 4200, its handle at 4104; a write of 8192
    bytes at 8192, handed out by the queue under token 0. *)

Definition ex_qp : labstor_queue_pair := queue_pair_at 4096 4160 4200.

Definition ex_mq_start : mem :=
  write 4 8196 MQ_DRIVER_RUNTIME_ID (write 2 8204 LABSTOR_MQ_DRIVER_WRITE (write 4 8208 1 (write 8 8232 8192 (
  zero_region 4104 108 ∪ zero_region 8192 96)))).

Definition ex_mq_mem : mem :=
  match (_ ← labstor_queue_pair_Init Userspace (queue_pair_at 0 0 0) wit_qid 4096 2 4160 32 4200 12;
         _ ← store_qp 4104 ex_qp;
         _ ← labstor_queue_pair_Enqueue 1 ex_qp 8192;
         labstor_queue_pair_Dequeue ex_qp) ex_mq_start with
  | Ret _ m => m
  | _ => ∅
  end.

Definition ex_mq_state : qp_abs :=
  {| qa_enq := 1; qa_sq := []; qa_ids := {[8192 := 0]}; qa_out := {[0]}; qa_cq := ∅ |}.

(** Device 1 exists, polls, and takes bios; pages are pinned as asked. *)
Definition ex_mq_env : mq_env (S := first_fit) :=
  {| me_page_size := 4096; me_task := λ _, true; me_page_array := true; me_pinned := λ _ n, Z.min n 128;
     me_bio_alloc := λ _, true; me_queue_poll := λ _, true; me_has_queue_rq := λ _, false;
     me_alloc_request := λ _ _, inl (-5); me_submit_bio := λ _, 12; me_poll := λ _ _, mret 0;
     me_nr_hw_queues := λ _, 4; me_nr_requests := λ _, 64 |}.

Definition ex_mq_kstate : kstate :=
  {| k_shmem := SecureShmem.shmem_init;
     k_ipc_manager_ := {| im_region_id := 0; im_region := 4096;
       im_alloc := {| sm_base_region_ := 4096; sm_concurrency_ := 1; sm_region_size_ := 8192;
                      sm_header_ := 4096; sm_per_core_allocs_ := [] |} |};
     k_workers := None; k_num_workers := 0; k_keep_running := true; k_shmem_region_id := 1; k_shmem_region := 5000;
     k_bdevs := <[1%nat := Some 777]> (replicate 64 None); k_sent := [] |}.

Ltac at_8192 H := apply elem_of_singleton in H; subst.

Lemma ex_mq_layout : worker_layout 4104 ex_qp 2 {[8192]}.
Proof.
  split; [split|..]; simpl; unfold near, outside; try done; try lia;
    try (intros rq Hrq; at_8192 Hrq; lia); intros p q Hp Hq; at_8192 Hp; at_8192 Hq; done.
Qed.

Lemma ex_mq_rel : worker_rel 4104 ex_qp wit_qid 2 {[8192]} ex_mq_state ex_mq_mem.
Proof.
  split; [split|..].
  - split; [reflexivity|apply (validb_valid _ 4160 12); vm_compute; reflexivity|vm_compute; reflexivity| |constructor].
    split; [reflexivity|apply (validb_valid _ 4172 20); vm_compute; reflexivity|lia|simpl; lia|
      vm_compute; reflexivity|vm_compute; reflexivity|vm_compute; reflexivity|done].
  - simpl. lia.
  - exists ∅. split; [|split; intros ?? E; (simpl in E; by rewrite lookup_empty in E)].
    split; [reflexivity|apply (validb_valid _ 4200 12); vm_compute; reflexivity|lia|vm_compute; reflexivity| |done].
    intros b Hb. assert (b = 0 ∨ b = 1) as [-> | ->] by lia; vm_compute; reflexivity.
  - intros rq Hrq. at_8192 Hrq. apply (validb_valid _ 8192 4). vm_compute. reflexivity.
  - intros rq id Hid. simpl in Hid. apply lookup_singleton_Some in Hid as [<- <-]. split; [set_solver|vm_compute; reflexivity].
  - intros id Hid. simpl in Hid. apply elem_of_singleton in Hid. subst. simpl. lia.
  - set_solver.
  - left. exists (2 ^ 31). reflexivity.
  - split; [apply (validb_valid _ 4104 56)|..]; vm_compute; reflexivity.
  - intros rq Hrq. at_8192 Hrq. apply (validb_valid _ 8192 16). vm_compute. reflexivity.
Qed.

Lemma mq_submit_completes_witness :
  wp (mq_process_request_fn 1 ex_mq_env 4104 8192 ex_mq_kstate)
     (λ r m', worker_rel 4104 ex_qp wit_qid 2 {[8192]} (completed ex_mq_state 8192 0) m' ∧
        read 4 (8192 + rq_code_) m' = 0 ∧ pages_released r.1 ∧ r.2 = ex_mq_kstate) ex_mq_mem.
Proof.
  assert (u32 (mq_code ex_mq_env ex_mq_kstate 8192 ex_mq_mem) = 0) as Hcode by (vm_compute; reflexivity).
  eapply wp_mono; [apply (mq_submit_completes 1 ex_mq_env 4104 ex_qp wit_qid 2 {[8192]} ex_mq_layout)|].
  - lia.
  - exact ex_mq_rel.
  - split; [set_solver|]. split; [reflexivity|]. split; [set_solver|reflexivity].
  - split; [apply (validb_valid _ 8192 96); vm_compute; reflexivity|unfold outside; simpl; autounfold with layout; lia..|].
    intros q Hq Hne. at_8192 Hq. destruct (Hne eq_refl).
  - split.
    + reflexivity.
    + vm_compute. discriminate.
    + vm_compute. split; [discriminate|reflexivity].
    + intros b hctx q hc p r E. discriminate E.
  - left. vm_compute. reflexivity.
  - intros r m' (Hrel & Hc & Hev & Hk). rewrite Hcode in Hc. split; [exact Hrel|]. split; [exact Hc|]. by split.
Defined.

(** ** Limits *)

(** The two sides disagree on the layout: the kernel marks the request
    complete, and the user's [IOIsComplete] looks at the kernel's cookie. *)
Lemma completion_not_seen :
  wp (_ ← io_complete (Some (Some 8192, 0)); io_request_IOIsComplete 8192) (λ done _, done = false) ex_mq_start ∧
  wp (_ ← store32 (8192 + mqr_cookie_) 12; io_request_IOIsComplete 8192) (λ done _, done = true) ex_mq_start.
Proof. split; vm_compute; reflexivity. Qed.

(** A request with an unknown operation is not completed: the completion map
    stays empty. *)
Lemma unknown_op_not_completed :
  wp (_ ← store16 (8192 + rq_op_) 9; _ ← mq_process_request_fn 1 ex_mq_env 4104 8192 ex_mq_kstate;
      labstor_queue_pair_IsComplete ex_qp 0) (λ r _, r = None) ex_mq_mem.
Proof. vm_compute. reflexivity. Qed.

(** A buffer of more than 128 pages is pinned past the end of the array. *)
Lemma too_many_pages_fault :
  (_ ← store64 (8192 + mqr_buf_size_) (129 * 4096);
   mq_process_request_fn 1 {| me_page_size := 4096; me_task := λ _, true; me_page_array := true;
       me_pinned := λ _ n, n; me_bio_alloc := λ _, true; me_queue_poll := λ _, true;
       me_has_queue_rq := λ _, false; me_alloc_request := λ _ _, inl (-5); me_submit_bio := λ _, 12;
       me_poll := λ _ _, mret 0; me_nr_hw_queues := λ _, 4; me_nr_requests := λ _, 64 |}
     4104 8192 ex_mq_kstate) ex_mq_mem = Fault.
Proof. vm_compute. reflexivity. Qed.
