(* ===== verification/MpmcRing.v ===== *)
(** * MpmcRing.v: the locked ring of the userspace

    types/data_structures/shmem_ring_buffer.h: [labstor::ipc::mpmc::ring_buffer],
    a ring of entries of [esize] bytes with a lock for producers and a lock
    for consumers, and the spin locks of constants/busy_wait.h.  First the
    operations on memory and what a sequence of calls does; then the
    interleaved steps of any number of threads. *)

From S2P Require Import Prelude Memory RingBuffer.

Local Open Scope Z_scope.

(** ** Locks *)

(** Compare-and-exchange of 0 with 1. *)
Definition LABSTOR_INF_LOCK_TRYLOCK (lockptr : Z) : M bool :=
  v ← load16 lockptr;
  if v =? 0 then _ ← store16 lockptr 1; mret true else mret false.

Definition LABSTOR_SPINLOCK_RELEASE (lockptr : Z) : M unit := store16 lockptr 0.

Definition LABSTOR_INF_LOCK_ACQUIRE (fuel : nat) (lockptr : Z) : M unit :=
  inf_spinwait fuel (ok ← LABSTOR_INF_LOCK_TRYLOCK lockptr; mret (if ok : bool then Some tt else None)).

(** The [break] of a timed acquire leaves the loop over the spins only. *)
Fixpoint timed_spins (spins : nat) (lockptr : Z) : M unit :=
  match spins with
  | O => mret tt
  | S spins' =>
      ok ← LABSTOR_INF_LOCK_TRYLOCK lockptr;
      if ok : bool then mret tt else timed_spins spins' lockptr
  end.

Fixpoint timed_yields (yields spins : nat) (lockptr : Z) : M unit :=
  match yields with
  | O => mret tt
  | S yields' => _ ← timed_spins spins lockptr; timed_yields yields' spins lockptr
  end.

(** [rounds]: the iterations until the timer is out; the value tells that it
    is. *)
Fixpoint LABSTOR_TIMED_LOCK_ACQUIRE (rounds yields spins : nat) (lockptr : Z) : M bool :=
  match rounds with
  | O => mret true
  | S rounds' =>
      _ ← timed_yields yields spins lockptr;
      LABSTOR_TIMED_LOCK_ACQUIRE rounds' yields spins lockptr
  end.

(** ** The ring *)

(** [struct ring_buffer_header] and the size of the C++ object. *)
Definition mrh_enqueued_ : Z := 0.
Definition mrh_dequeued_ : Z := 4.
Definition mrh_e_lock_ : Z := 8.
Definition mrh_d_lock_ : Z := 10.
Definition mrh_max_depth_ : Z := 12.
Definition sizeof_mr_header : Z := 16.
Definition sizeof_ring_buffer : Z := 24.

#[export] Hint Unfold mrh_enqueued_ mrh_dequeued_ mrh_e_lock_ mrh_d_lock_ mrh_max_depth_ sizeof_mr_header
  sizeof_ring_buffer : layout.

Record ring_buffer := { mr_header_ : Z; mr_queue_ : Z }.

Section ring.
(** Entries are [esize] bytes. *)
Context (esize : nat).

Definition ring_buffer_GetSize_global (max_depth : Z) : Z :=
  u32 (sizeof_ring_buffer + Z.of_nat esize * max_depth).

Definition ring_buffer_GetSize (r : ring_buffer) : M Z :=
  max_depth ← load32 (mr_header_ r + mrh_max_depth_); mret (ring_buffer_GetSize_global max_depth).

Definition ring_buffer_GetRegion (r : ring_buffer) : Z := mr_header_ r.

Definition ring_buffer_GetNextSection (r : ring_buffer) : M Z :=
  size ← ring_buffer_GetSize r; mret (mr_header_ r + size).

(** Zero when the counter of enqueues is the smaller one. *)
Definition ring_buffer_GetDepth (r : ring_buffer) : M Z :=
  enqueued ← load32 (mr_header_ r + mrh_enqueued_);
  dequeued ← load32 (mr_header_ r + mrh_dequeued_);
  mret (if enqueued <? dequeued then 0 else u32 (enqueued - dequeued)).

Definition ring_buffer_GetMaxDepth (r : ring_buffer) : M Z := load32 (mr_header_ r + mrh_max_depth_).

Definition ring_buffer_Attach (region : Z) : ring_buffer :=
  {| mr_header_ := region; mr_queue_ := region + sizeof_mr_header |}.

Definition ring_buffer_Init (region region_size max_depth : Z) : M ring_buffer :=
  _ ← store32 (region + mrh_enqueued_) 0;
  _ ← store32 (region + mrh_dequeued_) 0;
  _ ← store16 (region + mrh_e_lock_) 0;
  _ ← store16 (region + mrh_d_lock_) 0;
  if region_size <? ring_buffer_GetSize_global max_depth then throw INVALID_RING_BUFFER_SIZE
  else
    (* the subtraction is done in size_t, the result truncated *)
    let max_depth := if max_depth =? 0
                     then u32 (u64 (region_size - sizeof_ring_buffer) / Z.of_nat esize) else max_depth in
    if max_depth =? 0 then throw INVALID_RING_BUFFER_SIZE
    else
      _ ← store32 (region + mrh_max_depth_) max_depth;
      mret (ring_buffer_Attach region).

(** [Some req_id]: returned true. *)
Definition ring_buffer_Enqueue (r : ring_buffer) (data : Z) : M (option Z) :=
  locked ← LABSTOR_INF_LOCK_TRYLOCK (mr_header_ r + mrh_e_lock_);
  if negb (locked : bool) then mret None
  else
    enqueued ← load32 (mr_header_ r + mrh_enqueued_);
    dequeued ← load32 (mr_header_ r + mrh_dequeued_);
    max_depth ← load32 (mr_header_ r + mrh_max_depth_);
    if u32 (enqueued - dequeued) >=? max_depth then
      _ ← LABSTOR_SPINLOCK_RELEASE (mr_header_ r + mrh_e_lock_); mret None
    else
      entry ← umod enqueued max_depth;
      _ ← store esize (mr_queue_ r + Z.of_nat esize * entry) data;
      n ← load32 (mr_header_ r + mrh_enqueued_);
      _ ← store32 (mr_header_ r + mrh_enqueued_) (u32 (n + 1));
      _ ← LABSTOR_SPINLOCK_RELEASE (mr_header_ r + mrh_e_lock_);
      mret (Some enqueued).

Definition ring_buffer_Dequeue (r : ring_buffer) : M (option Z) :=
  locked ← LABSTOR_INF_LOCK_TRYLOCK (mr_header_ r + mrh_d_lock_);
  if negb (locked : bool) then mret None
  else
    enqueued ← load32 (mr_header_ r + mrh_enqueued_);
    dequeued ← load32 (mr_header_ r + mrh_dequeued_);
    max_depth ← load32 (mr_header_ r + mrh_max_depth_);
    entry ← umod dequeued max_depth;
    if u32 (enqueued - dequeued) =? 0 then
      _ ← LABSTOR_SPINLOCK_RELEASE (mr_header_ r + mrh_d_lock_); mret None
    else
      data ← load esize (mr_queue_ r + Z.of_nat esize * entry);
      n ← load32 (mr_header_ r + mrh_dequeued_);
      _ ← store32 (mr_header_ r + mrh_dequeued_) (u32 (n + 1));
      _ ← LABSTOR_SPINLOCK_RELEASE (mr_header_ r + mrh_d_lock_);
      mret (Some data).

Definition ring_buffer_TryEnqueueLock (r : ring_buffer) : M bool :=
  LABSTOR_INF_LOCK_TRYLOCK (mr_header_ r + mrh_e_lock_).
Definition ring_buffer_TryDequeueLock (r : ring_buffer) : M bool :=
  LABSTOR_INF_LOCK_TRYLOCK (mr_header_ r + mrh_d_lock_).
Definition ring_buffer_AcquireEnqueueLock (fuel : nat) (r : ring_buffer) : M unit :=
  LABSTOR_INF_LOCK_ACQUIRE fuel (mr_header_ r + mrh_e_lock_).
Definition ring_buffer_AcquireDequeueLock (fuel : nat) (r : ring_buffer) : M unit :=
  LABSTOR_INF_LOCK_ACQUIRE fuel (mr_header_ r + mrh_d_lock_).
Definition ring_buffer_AcquireTimedEnqueueLock (rounds yields spins : nat) (r : ring_buffer) : M bool :=
  LABSTOR_TIMED_LOCK_ACQUIRE rounds yields spins (mr_header_ r + mrh_e_lock_).
Definition ring_buffer_AcquireTimedDequeueLock (rounds yields spins : nat) (r : ring_buffer) : M bool :=
  LABSTOR_TIMED_LOCK_ACQUIRE rounds yields spins (mr_header_ r + mrh_d_lock_).
Definition ring_buffer_ReleaseEnqueueLock (r : ring_buffer) : M unit :=
  LABSTOR_SPINLOCK_RELEASE (mr_header_ r + mrh_e_lock_).
Definition ring_buffer_ReleaseDequeueLock (r : ring_buffer) : M unit :=
  LABSTOR_SPINLOCK_RELEASE (mr_header_ r + mrh_d_lock_).

(** ** Representation *)

Definition mr_slot (r : ring_buffer) (cap c : Z) : Z := mr_queue_ r + Z.of_nat esize * (u32 c mod cap).

(** The unlocked ring of [cap] slots with [dequeued_ = d] holds [q]. *)
Record mr_rep (r : ring_buffer) (cap d : Z) (q : list Z) (m : mem) : Prop := {
  mr_handle : mr_queue_ r = mr_header_ r + sizeof_mr_header;
  mr_region : valid m (mr_header_ r) (sizeof_mr_header + Z.of_nat esize * cap);
  mr_cap : 0 < cap < 2 ^ 32;
  mr_len : Z.of_nat (length q) <= cap;
  mr_deq : read 4 (mr_header_ r + mrh_dequeued_) m = d;
  mr_enq : read 4 (mr_header_ r + mrh_enqueued_) m = u32 (d + Z.of_nat (length q));
  mr_e_lock : read 2 (mr_header_ r + mrh_e_lock_) m = 0;
  mr_d_lock : read 2 (mr_header_ r + mrh_d_lock_) m = 0;
  mr_max : read 4 (mr_header_ r + mrh_max_depth_) m = cap;
  mr_slots : ∀ i x, q !! i = Some x → read esize (mr_slot r cap (d + Z.of_nat i)) m = x
}.

Definition mr_span (r : ring_buffer) (cap : Z) : Z → Prop :=
  span (mr_header_ r) (sizeof_mr_header + Z.of_nat esize * cap).

Lemma mr_slot_range r cap c :
  0 < cap → mr_queue_ r <= mr_slot r cap c ∧
  mr_slot r cap c + Z.of_nat esize <= mr_queue_ r + Z.of_nat esize * cap.
Proof.
  intros Hc. unfold mr_slot. pose proof (Z.mod_pos_bound (u32 c) cap Hc). nia.
Qed.

Lemma mr_slot_disjoint r cap d i j :
  0 < cap → ring_ok cap d → 0 <= d → 0 <= i < cap → 0 <= j < cap → i ≠ j →
  mr_slot r cap (d + i) + Z.of_nat esize <= mr_slot r cap (d + j) ∨
  mr_slot r cap (d + j) + Z.of_nat esize <= mr_slot r cap (d + i).
Proof.
  intros Hc Hok Hd Hi Hj Hne. unfold mr_slot.
  destruct (decide (u32 (d + i) mod cap = u32 (d + j) mod cap)) as [E|]; [|nia].
  destruct Hne. by eapply ring_slot_inj.
Qed.

Lemma mr_depth r cap d q m :
  mr_rep r cap d q m →
  u32 (read 4 (mr_header_ r + mrh_enqueued_) m - read 4 (mr_header_ r + mrh_dequeued_) m) = Z.of_nat (length q).
Proof.
  intros []. rewrite mr_enq0, mr_deq0, u32_sub_l, Z.add_simpl_l. apply u32_small. lia.
Qed.

Lemma mr_rep_frame r cap d q P m m' :
  mr_rep r cap d q m → modifies P m m' → (∀ a, mr_span r cap a → ¬ P a) → mr_rep r cap d q m'.
Proof.
  intros [] Hm HP. unfold mr_span, span in HP. autounfold with layout in *.
  assert (∀ n p, mr_header_ r <= p → p + Z.of_nat n <= mr_header_ r + (16 + Z.of_nat esize * cap) →
     read n p m' = read n p m) as Hrd.
  { intros n p ??. eapply read_modifies; [exact Hm|]. intros a Ha. apply HP. lia. }
  split; autounfold with layout in *; try done; try (rewrite Hrd by (simpl; lia); done).
  - by eapply valid_modifies.
  - intros i x Hi. pose proof (mr_slot_range r cap (d + Z.of_nat i) ltac:(lia)).
    rewrite Hrd by lia. by apply mr_slots0.
Qed.

(** A change of the lock words only, which ends unlocked. *)
Lemma mr_rep_locks r cap d q m m' :
  mr_rep r cap d q m → modifies (span (mr_header_ r + mrh_e_lock_) 4) m m' →
  read 2 (mr_header_ r + mrh_e_lock_) m' = 0 → read 2 (mr_header_ r + mrh_d_lock_) m' = 0 →
  mr_rep r cap d q m'.
Proof.
  intros [] Hm He Hd. autounfold with layout in *.
  assert (∀ n p, p + Z.of_nat n <= mr_header_ r + 8 ∨ mr_header_ r + 12 <= p → read n p m' = read n p m) as Hrd.
  { intros n p ?. eapply read_modifies; [exact Hm|]. unfold span. intros a Ha. lia. }
  split; autounfold with layout in *; try done; try (rewrite Hrd by (simpl; lia); done).
  - by eapply valid_modifies.
  - intros i x Hi. pose proof (mr_slot_range r cap (d + Z.of_nat i) ltac:(lia)).
    rewrite Hrd by lia. by apply mr_slots0.
Qed.

(** Appending: the slot is written, the counter and the lock words change. *)
Lemma mr_rep_push r cap d q m m' x :
  mr_rep r cap d q m → ring_ok cap d → Z.of_nat (length q) < cap →
  let s := mr_slot r cap (d + Z.of_nat (length q)) in
  (∀ n p, mr_header_ r + mrh_dequeued_ <= p → p + Z.of_nat n <= mr_header_ r + mrh_e_lock_ → read n p m' = read n p m) →
  (∀ n p, mr_header_ r + mrh_max_depth_ <= p → p + Z.of_nat n <= s ∨ s + Z.of_nat esize <= p → read n p m' = read n p m) →
  valid m' (mr_header_ r) (sizeof_mr_header + Z.of_nat esize * cap) →
  read 4 (mr_header_ r + mrh_enqueued_) m' = u32 (d + Z.of_nat (length q) + 1) →
  read 2 (mr_header_ r + mrh_e_lock_) m' = 0 → read 2 (mr_header_ r + mrh_d_lock_) m' = 0 →
  read esize s m' = x → mr_rep r cap d (q ++ [x]) m'.
Proof.
  intros [] Hok Hlt s Hdq Hsl Hv Henq He Hdl Hx. autounfold with layout in *.
  pose proof (mr_slot_range r cap (d + Z.of_nat (length q)) ltac:(lia)) as Hs. fold s in Hs.
  assert (0 <= d) by (rewrite <-mr_deq0; apply read32_range).
  split; autounfold with layout in *; rewrite ?length_app; simpl; try done; try lia.
  - rewrite Hdq by (simpl; lia). done.
  - rewrite Henq. f_equal. lia.
  - rewrite Hsl by (simpl; lia). done.
  - intros i y Hi. apply lookup_snoc in Hi as [Hi|[-> ->]]; [|done].
    pose proof (lookup_lt_Some _ _ _ Hi).
    pose proof (mr_slot_range r cap (d + Z.of_nat i) ltac:(lia)).
    rewrite Hsl; [by apply mr_slots0|lia|]. apply mr_slot_disjoint; try done; lia.
Qed.

(** ** Calls *)

Lemma mr_enqueue_spec r cap d q m x :
  mr_rep r cap d q m → ring_ok cap d → 0 <= x < 256 ^ Z.of_nat esize →
  wp (ring_buffer_Enqueue r x)
     (λ o m', modifies (mr_span r cap) m m' ∧
        if decide (Z.of_nat (length q) < cap)
        then o = Some (u32 (d + Z.of_nat (length q))) ∧ mr_rep r cap d (q ++ [x]) m'
        else o = None ∧ mr_rep r cap d q m') m.
Proof.
  intros Hr Hok Hx. pose proof (mr_depth _ _ _ _ _ Hr) as Hdepth. pose proof Hr as [].
  assert (0 <= Z.of_nat esize * cap) as Hnn by nia.
  unfold ring_buffer_Enqueue, LABSTOR_INF_LOCK_TRYLOCK, LABSTOR_SPINLOCK_RELEASE.
  autounfold with layout in *. wp_go. rewrite mr_e_lock0. simpl. wp_go. simpl. wp_go.
  mem_simpl. rewrite Hdepth, mr_max0. rewrite Z.geb_leb.
  destruct (Z.leb_spec cap (Z.of_nat (length q))).
  - wp_go. rewrite decide_False by lia.
    assert (modifies (span (mr_header_ r + 8) 4) m (write 2 (mr_header_ r + 8) 0 (write 2 (mr_header_ r + 8) 1 m))) as Hm
      by msolve.
    split; [eapply modifies_weaken; [exact Hm|]; unfold mr_span, span; autounfold with layout; intros; lia|].
    split; [done|]. eapply mr_rep_locks; [done|exact Hm|..]; autounfold with layout; mem_simpl; done.
  - wp_step. wp_step. rewrite mr_enq0.
    pose proof (mr_slot_range r cap (d + Z.of_nat (length q)) ltac:(lia)) as Hs.
    unfold mr_slot in Hs. set (p := mr_queue_ r + Z.of_nat esize * (u32 (d + Z.of_nat (length q)) mod cap)) in *.
    wp_step. apply wp_store; [vsolve|]. wp_go.
    rewrite !read_write_other by (simpl; lia). rewrite mr_enq0, decide_True by lia. split.
    + unfold mr_span. autounfold with layout. msolve.
    + split; [done|]. eapply (mr_rep_push r cap d q m); autounfold with layout; try done; try lia.
      * intros n a H1 H2. rewrite !read_write_other by (simpl; lia). done.
      * fold p. unfold mr_slot. fold p. intros n a H1 H2. rewrite !read_write_other by (simpl; lia). done.
      * repeat apply valid_write. done.
      * rewrite read_write_other by (simpl; lia). rewrite read32_write, u32_idemp. apply u32_add_l.
      * mem_simpl. done.
      * rewrite !read_write_other by (simpl; lia). done.
      * unfold mr_slot. fold p. rewrite !read_write_other by (simpl; lia). rewrite read_write_same.
        by apply Z.mod_small.
Qed.

Lemma mr_dequeue_spec r cap d q m :
  mr_rep r cap d q m →
  wp (ring_buffer_Dequeue r)
     (λ o m', modifies (mr_span r cap) m m' ∧
        match q with
        | [] => o = None ∧ mr_rep r cap d [] m'
        | x :: q' => o = Some x ∧ mr_rep r cap (u32 (d + 1)) q' m'
        end) m.
Proof.
  intros Hr. pose proof (mr_depth _ _ _ _ _ Hr) as Hdepth. pose proof Hr as [].
  assert (0 <= Z.of_nat esize * cap) as Hnn by nia.
  unfold ring_buffer_Dequeue, LABSTOR_INF_LOCK_TRYLOCK, LABSTOR_SPINLOCK_RELEASE.
  autounfold with layout in *. wp_go. rewrite mr_d_lock0. simpl. wp_go. simpl. do 6 wp_step. mem_simpl.
  rewrite mr_max0. wp_step. wp_step. rewrite Hdepth, mr_deq0. destruct q as [|x q].
  - simpl. wp_go.
    assert (modifies (span (mr_header_ r + 8) 4) m (write 2 (mr_header_ r + 10) 0 (write 2 (mr_header_ r + 10) 1 m)))
      as Hm by msolve.
    split; [eapply modifies_weaken; [exact Hm|]; unfold mr_span, span; autounfold with layout; intros; lia|].
    split; [done|]. eapply mr_rep_locks; [done|exact Hm|..]; autounfold with layout; mem_simpl; done.
  - rewrite (proj2 (Z.eqb_neq _ 0)) by (simpl; lia).
    assert (0 <= d < 2 ^ 32) as Hd by (rewrite <-mr_deq0; apply read32_range).
    pose proof (mr_slot_range r cap (d + 0) ltac:(lia)) as Hs. pose proof (mr_slots0 0%nat x eq_refl) as Hx.
    rewrite Nat2Z.inj_0 in Hx. unfold mr_slot in Hs, Hx. rewrite Z.add_0_r, u32_small in Hs, Hx by lia.
    set (p := mr_queue_ r + Z.of_nat esize * (d mod cap)) in *.
    wp_step. apply wp_load; [vsolve|]. wp_go. rewrite !read_write_other by (simpl; lia). rewrite mr_deq0, Hx.
    split; [unfold mr_span; autounfold with layout; msolve|]. split; [done|].
    split; autounfold with layout in *; simpl in *; try done; try lia; try (rewrite !read_write_other by (simpl; lia); done).
    + repeat apply valid_write. done.
    + rewrite read_write_other by (simpl; lia). rewrite read32_write. apply u32_idemp.
    + rewrite !read_write_other by (simpl; lia). rewrite mr_enq0, u32_add_l. f_equal. lia.
    + mem_simpl. done.
    + intros i y Hi. pose proof (mr_slot_range r cap (u32 (d + 1) + Z.of_nat i) ltac:(lia)) as Hs2.
      rewrite !read_write_other by (simpl; lia). specialize (mr_slots0 (Datatypes.S i) y Hi).
      rewrite <-mr_slots0. unfold mr_slot.
      rewrite u32_add_l. by replace (d + Z.of_nat (Datatypes.S i)) with (d + 1 + Z.of_nat i) by lia.
Qed.

(** The size test reserves room for the C++ object, 8 bytes more than the
    header takes. *)
Lemma mr_init_spec region region_size max_depth m :
  valid m region region_size → 0 <= max_depth → sizeof_ring_buffer + Z.of_nat esize * max_depth < 2 ^ 32 →
  0 < max_depth < 2 ^ 32 → sizeof_ring_buffer + Z.of_nat esize * max_depth <= region_size →
  wp (ring_buffer_Init region region_size max_depth)
     (λ r m', r = ring_buffer_Attach region ∧ mr_rep r max_depth 0 [] m' ∧
        modifies (span region sizeof_mr_header) m m') m.
Proof.
  intros Hv H0 Hsz Hmd Hfit. unfold ring_buffer_Init, ring_buffer_GetSize_global. autounfold with layout in *.
  wp_go. rewrite u32_small by lia. rewrite (proj2 (Z.ltb_ge _ _)) by lia.
  rewrite (proj2 (Z.eqb_neq max_depth 0)) by lia. rewrite (proj2 (Z.eqb_neq max_depth 0)) by lia. wp_go.
  split; [done|]. rewrite !Z.add_0_r. split.
  - split; autounfold with layout; simpl; rewrite ?Z.add_0_r; try done; try lia; try (mem_simpl; done).
    vsolve.
  - msolve.
Qed.
End ring.

(** ** Limits *)

(** [AcquireTimedEnqueueLock] on a free lock takes it, goes on trying until
    the timer is out, and reports that it timed out: the [break] leaves only
    the innermost of three loops. *)
Lemma trylock_held lockptr m :
  valid m lockptr 2 → read 2 lockptr m = 1 → LABSTOR_INF_LOCK_TRYLOCK lockptr m = Ret false m.
Proof.
  intros Hv H1. apply wp_exact. unfold LABSTOR_INF_LOCK_TRYLOCK. wp_go. rewrite H1. simpl. by wp_go.
Qed.

Lemma timed_spins_held spins lockptr m :
  valid m lockptr 2 → read 2 lockptr m = 1 → timed_spins spins lockptr m = Ret tt m.
Proof.
  intros Hv H1. induction spins as [|n IH]; [done|]. simpl. rewrite (run_bind _ _ _ _ _ (trylock_held _ _ Hv H1)).
  exact IH.
Qed.

Lemma timed_yields_held yields spins lockptr m :
  valid m lockptr 2 → read 2 lockptr m = 1 → timed_yields yields spins lockptr m = Ret tt m.
Proof.
  intros Hv H1. induction yields as [|n IH]; [done|]. simpl.
  by rewrite (run_bind _ _ _ _ _ (timed_spins_held spins _ _ Hv H1)).
Qed.

Lemma timed_lock_always_times_out rounds yields spins lockptr m :
  valid m lockptr 2 → read 2 lockptr m = 0 →
  LABSTOR_TIMED_LOCK_ACQUIRE (S rounds) (S yields) (S spins) lockptr m = Ret true (write 2 lockptr 1 m).
Proof.
  intros Hv H0. set (m1 := write 2 lockptr 1 m).
  assert (valid m1 lockptr 2) as Hv1 by vsolve. assert (read 2 lockptr m1 = 1) as H1 by (subst m1; by mem_simpl).
  assert (∀ k, LABSTOR_TIMED_LOCK_ACQUIRE k (S yields) (S spins) lockptr m1 = Ret true m1) as Hk.
  { intros k. induction k as [|k IH]; [done|]. cbn [LABSTOR_TIMED_LOCK_ACQUIRE].
    by rewrite (run_bind _ _ _ _ _ (timed_yields_held _ _ _ _ Hv1 H1)). }
  assert (LABSTOR_INF_LOCK_TRYLOCK lockptr m = Ret true m1) as Ht.
  { apply wp_exact. unfold LABSTOR_INF_LOCK_TRYLOCK. wp_go. rewrite H0. simpl. by wp_go. }
  cbn [LABSTOR_TIMED_LOCK_ACQUIRE timed_yields timed_spins].
  erewrite run_bind; [apply Hk|]. erewrite run_bind; [by apply timed_yields_held|].
  by rewrite (run_bind _ _ _ _ _ Ht).
Qed.
