(* ===== verification/MpmcConcurrent.v ===== *)
(** * MpmcConcurrent.v: producers and consumers on the locked ring

    Any number of threads call Enqueue and Dequeue of the ring of MpmcRing.v.
    A step is one access of one thread to a word of the ring: a lock word, a
    counter or a slot; accesses are sequentially consistent.  A lock word is
    1 exactly when a thread holds the lock; the holder is kept in the model.
    The values in the order of the increments of [enqueued_] and of
    [dequeued_] are kept as two logs. *)

From S2P Require Import Prelude RingBuffer.
From stdpp Require Import relations.

Local Open Scope Z_scope.

(** ** Threads and the ring *)

Record ring_state := {
  rs_enqueued : Z;
  rs_dequeued : Z;
  rs_e_lock : option nat;
  rs_d_lock : option nat;
  rs_slots : gmap Z Z;
  rs_in : list Z;
  rs_out : list Z
}.

(** The program points of Enqueue and Dequeue. *)
Inductive pc :=
| PIdle
| EEnter (x : Z)
| ELocked (x : Z)
| EReadE (x e : Z)
| EReadD (x e d : Z)
| EWrote (x e : Z)
| EInc (x e n : Z)
| EDone (e : Z)
| EFull
| DEnter
| DLocked
| DReadE (e : Z)
| DReadD (e d : Z)
| DGot (x : Z)
| DInc (x n : Z)
| DDone (x : Z)
| DEmpty.

(** Updates of one field. *)
Definition with_e_lock (s : ring_state) (l : option nat) : ring_state :=
  {| rs_enqueued := rs_enqueued s; rs_dequeued := rs_dequeued s; rs_e_lock := l; rs_d_lock := rs_d_lock s;
     rs_slots := rs_slots s; rs_in := rs_in s; rs_out := rs_out s |}.
Definition with_d_lock (s : ring_state) (l : option nat) : ring_state :=
  {| rs_enqueued := rs_enqueued s; rs_dequeued := rs_dequeued s; rs_e_lock := rs_e_lock s; rs_d_lock := l;
     rs_slots := rs_slots s; rs_in := rs_in s; rs_out := rs_out s |}.
Definition with_slot (s : ring_state) (i x : Z) : ring_state :=
  {| rs_enqueued := rs_enqueued s; rs_dequeued := rs_dequeued s; rs_e_lock := rs_e_lock s;
     rs_d_lock := rs_d_lock s; rs_slots := <[i := x]> (rs_slots s); rs_in := rs_in s; rs_out := rs_out s |}.
Definition with_enqueued (s : ring_state) (n x : Z) : ring_state :=
  {| rs_enqueued := n; rs_dequeued := rs_dequeued s; rs_e_lock := rs_e_lock s; rs_d_lock := rs_d_lock s;
     rs_slots := rs_slots s; rs_in := rs_in s ++ [x]; rs_out := rs_out s |}.
Definition with_dequeued (s : ring_state) (n x : Z) : ring_state :=
  {| rs_enqueued := rs_enqueued s; rs_dequeued := n; rs_e_lock := rs_e_lock s; rs_d_lock := rs_d_lock s;
     rs_slots := rs_slots s; rs_in := rs_in s; rs_out := rs_out s ++ [x] |}.

Section protocol.
(** [max_depth_], which no operation changes. *)
Context (cap : Z).

(** One step of thread [t] at program point [p].  The steps are sequentially
    consistent and the copy of a slot is one step: the source takes its locks
    with [__ATOMIC_RELAXED] and releases them with a plain store
    (busy_wait.h), so the theorems are about the algorithm on a machine and a
    compiler that do not reorder the accesses of a critical section past its
    lock; a slot is touched by one thread at a time, so that cutting its copy
    into bytes would add no behaviour. *)
Definition tstep (t : nat) (s : ring_state) (p : pc) : option (ring_state * pc) :=
  match p with
  | PIdle => None
  (* Enqueue *)
  | EEnter x => Some (match rs_e_lock s with None => (with_e_lock s (Some t), ELocked x) | Some _ => (s, PIdle) end)
  | ELocked x => Some (s, EReadE x (rs_enqueued s))
  | EReadE x e => Some (s, EReadD x e (rs_dequeued s))
  | EReadD x e d => Some (if u32 (e - d) >=? cap then (s, EFull) else (with_slot s (e mod cap) x, EWrote x e))
  | EWrote x e => Some (s, EInc x e (rs_enqueued s))
  | EInc x e n => Some (with_enqueued s (u32 (n + 1)) x, EDone e)
  | EDone _ | EFull => Some (with_e_lock s None, PIdle)
  (* Dequeue *)
  | DEnter => Some (match rs_d_lock s with None => (with_d_lock s (Some t), DLocked) | Some _ => (s, PIdle) end)
  | DLocked => Some (s, DReadE (rs_enqueued s))
  | DReadE e => Some (s, DReadD e (rs_dequeued s))
  | DReadD e d => Some (s, if u32 (e - d) =? 0 then DEmpty else DGot (default 0 (rs_slots s !! (d mod cap))))
  | DGot x => Some (s, DInc x (rs_dequeued s))
  | DInc x n => Some (with_dequeued s (u32 (n + 1)) x, DDone x)
  | DDone _ | DEmpty => Some (with_d_lock s None, PIdle)
  end.

Inductive mstep : ring_state * list pc → ring_state * list pc → Prop :=
| step_enqueue t x s ts : ts !! t = Some PIdle → mstep (s, ts) (s, <[t := EEnter x]> ts)
| step_dequeue t s ts : ts !! t = Some PIdle → mstep (s, ts) (s, <[t := DEnter]> ts)
| step_access t p s ts s' p' : ts !! t = Some p → tstep t s p = Some (s', p') → mstep (s, ts) (s', <[t := p']> ts).

Definition ring_init : ring_state :=
  {| rs_enqueued := 0; rs_dequeued := 0; rs_e_lock := None; rs_d_lock := None; rs_slots := ∅;
     rs_in := []; rs_out := [] |}.

(** ** The invariant *)

Definition nin (s : ring_state) : Z := Z.of_nat (length (rs_in s)).
Definition nout (s : ring_state) : Z := Z.of_nat (length (rs_out s)).

(** What a thread at a program point relies on. *)
Definition pc_ok (s : ring_state) (t : nat) (p : pc) : Prop :=
  match p with
  | PIdle | EEnter _ | DEnter => True
  | ELocked _ | EDone _ | EFull => rs_e_lock s = Some t
  | EReadE x e => rs_e_lock s = Some t ∧ e = rs_enqueued s
  | EReadD x e d => rs_e_lock s = Some t ∧ e = rs_enqueued s ∧
      ∃ d0, 0 <= d0 <= nout s ∧ d = u32 d0 ∧ nin s <= d0 + cap
  | EWrote x e => rs_e_lock s = Some t ∧ e = rs_enqueued s ∧ nin s < nout s + cap ∧
      rs_slots s !! (e mod cap) = Some x
  | EInc x e n => rs_e_lock s = Some t ∧ e = rs_enqueued s ∧ nin s < nout s + cap ∧
      rs_slots s !! (e mod cap) = Some x ∧ n = rs_enqueued s
  | DLocked | DDone _ | DEmpty => rs_d_lock s = Some t
  | DReadE e => rs_d_lock s = Some t ∧ ∃ e0, nout s <= e0 <= nin s ∧ e = u32 e0
  | DReadD e d => rs_d_lock s = Some t ∧ d = rs_dequeued s ∧ ∃ e0, nout s <= e0 <= nin s ∧ e = u32 e0
  | DGot x => rs_d_lock s = Some t ∧ rs_in s !! length (rs_out s) = Some x
  | DInc x n => rs_d_lock s = Some t ∧ rs_in s !! length (rs_out s) = Some x ∧ n = rs_dequeued s
  end.

(** The ring holds what was put in and not yet taken out. *)
Record ring_inv (s : ring_state) : Prop := {
  ri_enq : rs_enqueued s = u32 (nin s);
  ri_deq : rs_dequeued s = u32 (nout s);
  ri_len : nout s <= nin s <= nout s + cap;
  ri_prefix : rs_out s = take (length (rs_out s)) (rs_in s);
  ri_slots : ∀ i x, rs_in s !! i = Some x → (length (rs_out s) <= i)%nat →
    rs_slots s !! (u32 (Z.of_nat i) mod cap) = Some x
}.

Record inv (st : ring_state * list pc) : Prop := {
  iv_ring : ring_inv st.1;
  iv_threads : ∀ t p, st.2 !! t = Some p → pc_ok st.1 t p
}.

(** The counters do not meet twice in a slot. *)
Definition counters_ok (s : ring_state) : Prop := (cap | 2 ^ 32) ∨ nin s + cap <= 2 ^ 32.

Hypothesis Hcap : 0 < cap < 2 ^ 32.

(** What thread [t] may change under the eyes of the holders of the locks. *)
Definition harmless (t : nat) (s s' : ring_state) : Prop :=
  ∀ t', t' ≠ t →
    (rs_e_lock s = Some t' → rs_e_lock s' = Some t' ∧ rs_enqueued s' = rs_enqueued s ∧
       rs_in s' = rs_in s ∧ rs_slots s' = rs_slots s ∧ nout s <= nout s') ∧
    (rs_d_lock s = Some t' → rs_d_lock s' = Some t' ∧ rs_dequeued s' = rs_dequeued s ∧
       rs_out s' = rs_out s ∧ ∃ k, rs_in s' = rs_in s ++ k).

Lemma pc_ok_stable t t' s s' p : harmless t s s' → t' ≠ t → pc_ok s t' p → pc_ok s' t' p.
Proof.
  intros Hh Hne Hp. destruct (Hh t' Hne) as [He Hd]. clear Hh. destruct p; simpl in *; try done.
  1-6: assert (rs_e_lock s = Some t') as Hl by (try done; apply Hp);
       destruct (He Hl) as (Hl' & Heq & Hin & Hsl & Hno); unfold nin in *; rewrite ?Heq, ?Hin, ?Hsl; naive_solver lia.
  1: destruct (He Hp) as (Hl' & _); done.
  all: assert (rs_d_lock s = Some t') as Hl by (try done; apply Hp);
       destruct (Hd Hl) as (Hl' & Heq & Hout & k & Hin); unfold nin, nout in *; rewrite ?Heq, ?Hout, ?Hin, ?length_app.
  all: try done.
  - destruct Hp as (_ & e0 & ? & ?). split; [done|]. exists e0. lia.
  - destruct Hp as (_ & -> & e0 & ? & ?). split; [done|]. split; [done|]. exists e0. lia.
  - destruct Hp as (_ & Hx). split; [done|]. by apply lookup_app_l_Some.
  - destruct Hp as (_ & Hx & ->). split; [done|]. split; [by apply lookup_app_l_Some|done].
Qed.

(** A step that changes nothing but its own lock. *)
Lemma harmless_refl t s : harmless t s s.
Proof. intros t' _. split; intros Hl; repeat split; try done. exists []. by rewrite app_nil_r. Qed.

Lemma harmless_e_lock t s l :
  rs_e_lock s = None ∨ rs_e_lock s = Some t → harmless t s (with_e_lock s l).
Proof.
  intros Hl t' Hne. split; intros Hl'; simpl; [destruct Hl; congruence|].
  repeat split; try done. exists []. by rewrite app_nil_r.
Qed.

Lemma harmless_d_lock t s l :
  rs_d_lock s = None ∨ rs_d_lock s = Some t → harmless t s (with_d_lock s l).
Proof.
  intros Hl t' Hne. split; intros Hl'; simpl; [|destruct Hl; congruence]. repeat split; try done.
Qed.

Lemma harmless_own_e t s s' :
  rs_e_lock s = Some t → rs_d_lock s' = rs_d_lock s → rs_dequeued s' = rs_dequeued s → rs_out s' = rs_out s →
  (∃ k, rs_in s' = rs_in s ++ k) → harmless t s s'.
Proof. intros Hl Hd Hdq Ho Hk t' Hne. split; intros Hl'; [congruence|]. rewrite Hd. auto. Qed.

Lemma harmless_own_d t s s' :
  rs_d_lock s = Some t → rs_e_lock s' = rs_e_lock s → rs_enqueued s' = rs_enqueued s → rs_in s' = rs_in s →
  rs_slots s' = rs_slots s → nout s <= nout s' → harmless t s s'.
Proof. intros Hl Hd Hdq Ho Hk Hn t' Hne. split; intros Hl'; [|congruence]. rewrite Hd. auto. Qed.

Lemma ring_inv_e_lock s l : ring_inv s → ring_inv (with_e_lock s l).
Proof. intros []. by split. Qed.
Lemma ring_inv_d_lock s l : ring_inv s → ring_inv (with_d_lock s l).
Proof. intros []. by split. Qed.

(** The slot after the last is free when the ring is not full. *)
Lemma next_slot_free s i :
  ring_inv s → counters_ok s → nin s < nout s + cap → nout s <= i < nin s →
  u32 i mod cap ≠ u32 (nin s) mod cap.
Proof.
  intros [] Hok Hlt Hi E.
  assert (ring_ok cap (nout s)) as Hr by (destruct Hok; [by left|right; lia]).
  pose proof (ring_slot_inj cap (nout s) (i - nout s) (nin s - nout s)) as Hinj.
  rewrite !Zplus_minus in Hinj. assert (0 <= nout s) by (unfold nout; lia).
  assert (i - nout s = nin s - nout s) by (apply Hinj; try done; lia). lia.
Qed.

Lemma ring_inv_slot s x :
  ring_inv s → counters_ok s → nin s < nout s + cap →
  ring_inv (with_slot s (u32 (nin s) mod cap) x).
Proof.
  intros Hri Hok Hlt. pose proof Hri as []. split; simpl; try done.
  intros i y Hi Hge. rewrite lookup_insert_ne; [by apply ri_slots0|].
  apply not_eq_sym. pose proof (lookup_lt_Some _ _ _ Hi). apply (next_slot_free s); [done..|].
  unfold nin, nout. lia.
Qed.

Lemma ring_inv_enqueued s x :
  ring_inv s → nin s < nout s + cap → rs_slots s !! (u32 (nin s) mod cap) = Some x →
  ring_inv (with_enqueued s (u32 (u32 (nin s) + 1)) x).
Proof.
  intros [] Hlt Hx. unfold nin, nout in *. split; unfold nin, nout; simpl; rewrite ?length_app; simpl; try done.
  - rewrite u32_add_l. f_equal. lia.
  - lia.
  - rewrite take_app_le; [done|lia].
  - intros i y [Hi|[-> ->]]%lookup_snoc Hge; [by apply ri_slots0|done].
Qed.

Lemma ring_inv_dequeued s x :
  ring_inv s → rs_in s !! length (rs_out s) = Some x →
  ring_inv (with_dequeued s (u32 (u32 (nout s) + 1)) x).
Proof.
  intros [] Hx. pose proof (lookup_lt_Some _ _ _ Hx). unfold nin, nout in *.
  split; unfold nin, nout; simpl; rewrite ?length_app; simpl; try done; try lia.
  - rewrite u32_add_l. f_equal. lia.
  - rewrite Nat.add_1_r. rewrite (take_S_r _ _ _ Hx). by f_equal.
  - intros i y Hi Hge. apply ri_slots0; [done|lia].
Qed.

(** A step that changes nothing shared. *)
Ltac quiet := split; [done|]; split; [naive_solver|apply harmless_refl].

Lemma tstep_inv t s p s' p' :
  ring_inv s → counters_ok s → pc_ok s t p → tstep t s p = Some (s', p') →
  ring_inv s' ∧ pc_ok s' t p' ∧ harmless t s s'.
Proof.
  intros Hri Hok Hp Hs. pose proof Hri as [Henq Hdeq Hlen _ Hslots].
  assert (0 <= nout s) as H0 by (unfold nout; lia).
  destruct p; simpl in Hs, Hp; try discriminate Hs; try injection Hs as <- <-.
  - destruct (rs_e_lock s) eqn:El; injection Hs as <- <-; [quiet|].
    split; [by apply ring_inv_e_lock|]. split; [done|]. apply harmless_e_lock. by left.
  - quiet.
  - split; [done|]. split; [|apply harmless_refl]. destruct Hp as [Hl ->]. split; [done|]. split; [done|].
    exists (nout s). split; [lia|]. split; [done|]. lia.
  - destruct Hp as (Hl & -> & d0 & Hd0 & -> & Hin). rewrite Henq in Hs. rewrite u32_sub_l in Hs.
    assert (u32 (nin s - u32 d0) = nin s - d0) as E.
    { unfold u32. rewrite Zminus_mod_idemp_r. apply Z.mod_small. lia. }
    rewrite E in Hs. rewrite Z.geb_leb in Hs. destruct (Z.leb_spec cap (nin s - d0)); injection Hs as <- <-.
    + quiet.
    + split; [apply ring_inv_slot; [done..|lia]|]. simpl. rewrite Henq. split.
      * split; [done|]. split; [done|]. split; [unfold nin, nout in *; simpl; lia|]. by rewrite lookup_insert_eq.
      * apply harmless_own_e; try done. exists []. by rewrite app_nil_r.
  - quiet.
  - destruct Hp as (Hl & -> & Hlt & Hx & ->). rewrite Henq in *. split; [by apply ring_inv_enqueued|].
    split; [done|]. apply harmless_own_e; try done. by exists [x].
  - split; [by apply ring_inv_e_lock|]. split; [done|]. apply harmless_e_lock. by right.
  - split; [by apply ring_inv_e_lock|]. split; [done|]. apply harmless_e_lock. by right.
  - destruct (rs_d_lock s) eqn:El; injection Hs as <- <-; [quiet|].
    split; [by apply ring_inv_d_lock|]. split; [done|]. apply harmless_d_lock. by left.
  - split; [done|]. split; [|apply harmless_refl]. split; [done|]. exists (nin s). split; [lia|done].
  - split; [done|]. split; [|apply harmless_refl]. naive_solver.
  - destruct Hp as (Hl & -> & e0 & He0 & ->). split; [done|]. split; [|apply harmless_refl].
    rewrite Hdeq. assert (u32 (u32 e0 - u32 (nout s)) = e0 - nout s) as ->.
    { rewrite u32_sub_l. unfold u32. rewrite Zminus_mod_idemp_r. apply Z.mod_small. lia. }
    destruct (Z.eqb_spec (e0 - nout s) 0); [done|]. split; [done|].
    destruct (lookup_lt_is_Some_2 (rs_in s) (length (rs_out s))) as [x Hx]; [unfold nin, nout in *; lia|].
    unfold nout. rewrite Hx, (Hslots _ _ Hx); [done|lia].
  - quiet.
  - destruct Hp as (Hl & Hx & ->). rewrite Hdeq. split; [by apply ring_inv_dequeued|]. split; [done|].
    apply harmless_own_d; try done. unfold nout. simpl. rewrite length_app. lia.
  - split; [by apply ring_inv_d_lock|]. split; [done|]. apply harmless_d_lock. by right.
  - split; [by apply ring_inv_d_lock|]. split; [done|]. apply harmless_d_lock. by right.
Qed.

Lemma mstep_inv st st' : inv st → counters_ok st.1 → mstep st st' → inv st'.
Proof.
  intros [Hri Hts] Hok Hstep. destruct Hstep as [t x s ts Ht|t s ts Ht|t p s ts s' p' Ht Hs]; simpl in *.
  - split; simpl; [done|]. intros t' p' Hp. apply list_lookup_insert_Some in Hp as [(<- & <- & _)|[_ Hp]]; [done|auto].
  - split; simpl; [done|]. intros t' p' Hp. apply list_lookup_insert_Some in Hp as [(<- & <- & _)|[_ Hp]]; [done|auto].
  - destruct (tstep_inv t s p s' p' Hri Hok (Hts t p Ht) Hs) as (Hri' & Hp' & Hh). split; simpl; [done|].
    intros t' p'' Hp. apply list_lookup_insert_Some in Hp as [(<- & <- & _)|[Hne Hp]]; [done|].
    eapply pc_ok_stable; eauto.
Qed.

(** The log of enqueued values only grows. *)
Lemma mstep_grows st st' : mstep st st' → nin st.1 <= nin st'.1.
Proof.
  intros Hstep. destruct Hstep as [t x s ts Ht|t s ts Ht|t p s ts s' p' Ht Hs]; simpl; [lia..|].
  destruct p; simpl in Hs; repeat case_match; simplify_eq; unfold nin; simpl; rewrite ?length_app; simpl; lia.
Qed.

Lemma ring_reachable_inv st st' : inv st → rtc mstep st st' → counters_ok st'.1 → inv st' .
Proof.
  intros Hinv Hrtc. revert st' Hrtc. apply (rtc_ind_r (λ st', counters_ok st'.1 → inv st') st); [done|].
  intros x y _ Hyz IH Hok. pose proof (mstep_grows _ _ Hyz) as Hg.
  assert (counters_ok x.1) as Hokx by (destruct Hok; [by left|right; lia]).
  eapply mstep_inv; [by apply IH|done|done].
Qed.

(** C17. The locked ring is a concurrent FIFO: however the accesses of any
    number of threads that call Enqueue and Dequeue interleave, the values
    taken out are, in order, the values put in, none is lost, duplicated or
    torn, there are never more than [max_depth] in the ring, and at most one
    thread is between the acquisition and the release of each lock.  (The
    depth divides 2^32, or fewer than 2^32 - [max_depth] values were put
    in.) *)
Theorem mpmc_ring_fifo n s ts :
  rtc mstep (ring_init, replicate n PIdle) (s, ts) → counters_ok s →
  rs_out s = take (length (rs_out s)) (rs_in s) ∧
  Z.of_nat (length (rs_in s)) <= Z.of_nat (length (rs_out s)) + cap ∧
  (∀ i x, rs_in s !! i = Some x → (length (rs_out s) <= i)%nat →
     rs_slots s !! (u32 (Z.of_nat i) mod cap) = Some x) ∧
  (∀ t1 t2 x1 x2 e1 e2, ts !! t1 = Some (EWrote x1 e1) → ts !! t2 = Some (EWrote x2 e2) → t1 = t2) ∧
  (∀ t1 t2 x1 x2, ts !! t1 = Some (DGot x1) → ts !! t2 = Some (DGot x2) → t1 = t2).
Proof.
  intros Hrtc Hok. assert (inv (s, ts)) as [[] Hts].
  { eapply ring_reachable_inv; [|exact Hrtc|done]. split; simpl.
    - split; unfold nin, nout; simpl; try done; lia.
    - intros t p [-> _]%lookup_replicate. done. }
  simpl in *. split; [done|]. split; [unfold nin, nout in *; lia|]. split; [done|]. split.
  - intros t1 t2 x1 x2 e1 e2 H1 H2. destruct (Hts _ _ H1) as [L1 _], (Hts _ _ H2) as [L2 _]. congruence.
  - intros t1 t2 x1 x2 H1 H2. destruct (Hts _ _ H1) as [L1 _], (Hts _ _ H2) as [L2 _]. congruence.
Qed.
End protocol.

(** A run of three threads on a ring of depth two.  Thread 0 puts 7 in and
    thread 1 puts 8 in while thread 2 is between its reads; a second call of
    thread 0 finds the lock taken by thread 1 and returns. *)
Definition race_schedule : list (nat * option pc) :=
  [(0, Some (EEnter 7)); (0, None); (0, None); (0, None); (0, None);  (* thread 0 wrote the slot *)
   (2, Some DEnter); (2, None);                                        (* thread 2 has the other lock *)
   (0, None); (0, None); (0, None);                                    (* incremented, released *)
   (1, Some (EEnter 8)); (1, None); (0, Some (EEnter 9)); (0, None);
   (2, None); (2, None); (1, None); (1, None); (2, None); (1, None); (2, None); (1, None); (1, None); (2, None)]%nat.

(** One scheduled step: the start of a call or an access. *)
Definition schedule_step (cap : Z) (st : ring_state * list pc) (a : nat * option pc) :
    option (ring_state * list pc) :=
  let '(s, ts) := st in let '(t, call) := a in
  match call, ts !! t with
  | Some (EEnter x), Some PIdle => Some (s, <[t := EEnter x]> ts)
  | Some DEnter, Some PIdle => Some (s, <[t := DEnter]> ts)
  | None, Some p => match tstep cap t s p with Some (s', p') => Some (s', <[t := p']> ts) | None => None end
  | _, _ => None
  end.

Fixpoint run_schedule (cap : Z) (st : ring_state * list pc) (l : list (nat * option pc)) :
    option (ring_state * list pc) :=
  match l with
  | [] => Some st
  | a :: l => st' ← schedule_step cap st a; run_schedule cap st' l
  end.

Lemma schedule_step_sound cap st a st' : schedule_step cap st a = Some st' → mstep cap st st'.
Proof.
  destruct st as [s ts], a as [t call]. unfold schedule_step. intros H.
  repeat case_match; simplify_eq; by econstructor.
Qed.

Lemma run_schedule_sound cap l st st' : run_schedule cap st l = Some st' → rtc (mstep cap) st st'.
Proof.
  revert st. induction l as [|a l IH]; intros st H; simpl in H; [by simplify_eq|].
  destruct (schedule_step cap st a) as [st1|] eqn:E; [|done].
  eapply rtc_l; [by eapply schedule_step_sound|by apply IH].
Qed.

Lemma mpmc_ring_fifo_witness :
  match run_schedule 2 (ring_init, replicate 3 PIdle) race_schedule with
  | Some (s, ts) =>
      rs_in s = [7; 8] ∧ rs_out s = [7] ∧ rs_out s = take (length (rs_out s)) (rs_in s)
  | None => False
  end.
Proof.
  destruct (run_schedule 2 (ring_init, replicate 3 PIdle) race_schedule) as [[s ts]|] eqn:E; [|vm_compute in E; discriminate].
  pose proof (run_schedule_sound _ _ _ _ E) as Hr. vm_compute in E.
  pose proof (mpmc_ring_fifo 2 ltac:(lia) 3 s ts Hr) as H.
  assert (counters_ok 2 s) as Hok by (left; exists (2 ^ 31); reflexivity).
  specialize (H Hok). destruct H as [H _]. simplify_eq. split; [reflexivity|]. split; [reflexivity|exact H].
Defined.
