(* ===== verification/BlockAllocator.v ===== *)
(** * BlockAllocator.v: the disk blocks of LabFS

    labmods/labstor_fs/lib/block_allocator.h: the blocks of a disk in two
    locked rings (MpmcRing.v), one of small and one of large blocks.  An entry
    of a ring is the 16 bytes of a [Block]. *)

From S2P Require Import Prelude Memory RingBuffer MpmcRing.

Local Open Scope Z_scope.

(** ** Blocks *)

Definition SMALL_BLOCK_SIZE : Z := 4 * Z.shiftl 1 10.
Definition LARGE_BLOCK_SIZE : Z := 128 * Z.shiftl 1 10.

(** [size_t off_; int size_]. *)
Record Block := { bk_off_ : Z; bk_size_ : Z }.

#[export] Instance Block_eq_dec : EqDecision Block.
Proof. solve_decision. Defined.

(** The bytes of a block; the last four are padding. *)
Definition sizeof_Block : nat := 16.
Definition block_bits (b : Block) : Z := bk_off_ b + 2 ^ 64 * s32_bits (bk_size_ b).
Definition block_of_bits (x : Z) : Block := {| bk_off_ := u64 x; bk_size_ := s32 (x / 2 ^ 64) |}.

(** ** The allocator *)

Record BlockAllocator := { small_blocks_ : ring_buffer; large_blocks_ : ring_buffer }.

Definition GetNumLargeBlocks (disk_size num_small_blocks : Z) : Z :=
  u64 (disk_size - u64 (num_small_blocks * SMALL_BLOCK_SIZE)) / LARGE_BLOCK_SIZE.

Definition BlockAllocator_GetSize (disk_size num_small_blocks : Z) : Z :=
  let small_block_size := ring_buffer_GetSize_global sizeof_Block (u32 num_small_blocks) in
  let large_block_size := ring_buffer_GetSize_global sizeof_Block (u32 (GetNumLargeBlocks disk_size num_small_blocks)) in
  small_block_size + large_block_size.

(** The loop that fills a ring: the offset after the last block. *)
Fixpoint fill_blocks (r : ring_buffer) (n : nat) (off size : Z) : M Z :=
  match n with
  | O => mret off
  | S n' =>
      _ ← ring_buffer_Enqueue sizeof_Block r (block_bits {| bk_off_ := off; bk_size_ := size |});
      fill_blocks r n' (u64 (off + size)) size
  end.

(** The counter of the loop is an [int]. *)
Definition fill_loop (r : ring_buffer) (n off size : Z) : M Z :=
  if 2 ^ 31 <=? n then fault else fill_blocks r (Z.to_nat n) off size.

Definition BlockAllocator_Initialize (disk_off disk_size num_small_blocks region region_size : Z) : M BlockAllocator :=
  let num_large_blocks := GetNumLargeBlocks disk_size num_small_blocks in
  small ← ring_buffer_Init sizeof_Block region (u32 region_size) (u32 num_small_blocks);
  off ← fill_loop small num_small_blocks disk_off SMALL_BLOCK_SIZE;
  section ← ring_buffer_GetNextSection sizeof_Block small;
  size ← ring_buffer_GetSize sizeof_Block small;
  large ← ring_buffer_Init sizeof_Block section (u32 (u64 (region_size - size))) (u32 num_large_blocks);
  _ ← fill_loop large num_large_blocks off LARGE_BLOCK_SIZE;
  mret {| small_blocks_ := small; large_blocks_ := large |}.

Definition BlockAllocator_Attach (region : Z) : M BlockAllocator :=
  let small := ring_buffer_Attach region in
  section ← ring_buffer_GetNextSection sizeof_Block small;
  mret {| small_blocks_ := small; large_blocks_ := ring_buffer_Attach section |}.

(** [block] is the caller's object, which a failed dequeue leaves as it is. *)
Definition BlockAllocator_GetBlock (a : BlockAllocator) (size : Z) (block : Block) : M Block :=
  r ← ring_buffer_Dequeue sizeof_Block (if size =? SMALL_BLOCK_SIZE then small_blocks_ a else large_blocks_ a);
  mret (match r with Some x => block_of_bits x | None => block end).

Definition BlockAllocator_FreeBlock (a : BlockAllocator) (block : Block) : M unit :=
  _ ← ring_buffer_Enqueue sizeof_Block
        (if bk_size_ block =? SMALL_BLOCK_SIZE then small_blocks_ a else large_blocks_ a) (block_bits block);
  mret tt.

(** ** Blocks as bits *)

Definition block_wf (b : Block) : Prop := 0 <= bk_off_ b < 2 ^ 64 ∧ - 2 ^ 31 <= bk_size_ b < 2 ^ 31.

Lemma block_bits_range b : block_wf b → 0 <= block_bits b < 256 ^ Z.of_nat sizeof_Block.
Proof.
  intros [H1 H2]. unfold block_bits, sizeof_Block. pose proof (s32_bits_range (bk_size_ b)).
  change (256 ^ Z.of_nat 16) with (2 ^ 64 * 2 ^ 64). lia.
Qed.

Lemma block_of_bits_bits b : block_wf b → block_of_bits (block_bits b) = b.
Proof.
  intros [H1 H2]. destruct b as [off size]. unfold block_of_bits, block_bits. simpl in *. f_equal.
  - unfold u64. rewrite Z.mul_comm, Z_mod_plus_full. by apply Z.mod_small.
  - rewrite Z.mul_comm, Z_div_plus_full, (Z.div_small off) by lia. by apply s32_of_bits.
Qed.

(** ** Representation *)

(** A ring of blocks. *)
Record pool_rep (r : ring_buffer) (cap d : Z) (q : list Block) (m : mem) : Prop := {
  pl_ring : mr_rep sizeof_Block r cap d (block_bits <$> q) m;
  pl_wf : Forall block_wf q
}.

Record ba_shape := { bs_region : Z; bs_small : Z; bs_large : Z }.

Definition ba_handle (s : ba_shape) : BlockAllocator :=
  {| small_blocks_ := ring_buffer_Attach (bs_region s);
     large_blocks_ := ring_buffer_Attach (bs_region s + sizeof_ring_buffer + Z.of_nat sizeof_Block * bs_small s) |}.

(** Both rings, [n] operations away from the limit of their counters. *)
Record ba_rep (s : ba_shape) (n : Z) (small large : list Block) (m : mem) : Prop := {
  ba_small : ∃ d, pool_rep (small_blocks_ (ba_handle s)) (bs_small s) d small m ∧
    ((bs_small s | 2 ^ 32) ∨ d + n + bs_small s <= 2 ^ 32);
  ba_large : ∃ d, pool_rep (large_blocks_ (ba_handle s)) (bs_large s) d large m ∧
    ((bs_large s | 2 ^ 32) ∨ d + n + bs_large s <= 2 ^ 32);
  ba_small_size : Forall (λ b, bk_size_ b = SMALL_BLOCK_SIZE) small;
  ba_large_size : Forall (λ b, bk_size_ b = LARGE_BLOCK_SIZE) large
}.

Lemma pool_enqueue_spec r cap d q m b :
  pool_rep r cap d q m → ring_ok cap d → block_wf b → Z.of_nat (length q) < cap →
  wp (ring_buffer_Enqueue sizeof_Block r (block_bits b))
     (λ _ m', modifies (mr_span sizeof_Block r cap) m m' ∧ pool_rep r cap d (q ++ [b]) m') m.
Proof.
  intros [Hr Hwf] Hok Hb Hlt. eapply wp_mono; [apply (mr_enqueue_spec _ _ _ _ _ _ _ Hr Hok); by apply block_bits_range|].
  intros o m' [Hm H]. rewrite length_fmap, decide_True in H by lia. destruct H as [_ H]. split; [done|].
  split; [by rewrite fmap_app|]. apply Forall_app; auto.
Qed.

Lemma pool_dequeue_spec r cap d q m :
  pool_rep r cap d q m →
  wp (ring_buffer_Dequeue sizeof_Block r)
     (λ o m', modifies (mr_span sizeof_Block r cap) m m' ∧
        match q with
        | [] => o = None ∧ pool_rep r cap d [] m'
        | b :: q' => o = Some (block_bits b) ∧ pool_rep r cap (u32 (d + 1)) q' m'
        end) m.
Proof.
  intros [Hr Hwf]. eapply wp_mono; [apply (mr_dequeue_spec _ _ _ _ _ _ Hr)|].
  intros o m' [Hm H]. split; [done|]. destruct q as [|b q]; simpl in H; destruct H as [-> H].
  - split; [done|]. by split.
  - split; [done|]. split; [done|]. by inv Hwf.
Qed.

(** The rings do not meet. *)
Lemma pool_frame s q cap d m m' :
  modifies (mr_span sizeof_Block (small_blocks_ (ba_handle s)) (bs_small s)) m m' →
  pool_rep (large_blocks_ (ba_handle s)) cap d q m → pool_rep (large_blocks_ (ba_handle s)) cap d q m'.
Proof.
  intros Hm [Hr Hwf]. split; [|done]. eapply mr_rep_frame; [done|exact Hm|].
  unfold mr_span, span, ba_handle, sizeof_Block in *. autounfold with layout in *. simpl in *. intros; lia.
Qed.

Lemma pool_frame' s q d m m' :
  0 <= bs_large s → modifies (mr_span sizeof_Block (large_blocks_ (ba_handle s)) (bs_large s)) m m' →
  pool_rep (small_blocks_ (ba_handle s)) (bs_small s) d q m → pool_rep (small_blocks_ (ba_handle s)) (bs_small s) d q m'.
Proof.
  intros H0 Hm [Hr Hwf]. split; [|done]. eapply mr_rep_frame; [done|exact Hm|].
  unfold mr_span, span, ba_handle, sizeof_Block in *. autounfold with layout in *. simpl in *. intros; lia.
Qed.

Lemma pool_cap r cap d q m : pool_rep r cap d q m → 0 < cap < 2 ^ 32 ∧ 0 <= d < 2 ^ 32.
Proof. intros [[] _]. split; [done|]. rewrite <-mr_deq. apply read32_range. Qed.

Lemma ba_pools s n small large m :
  ba_rep s n small large m → 0 < bs_small s < 2 ^ 32 ∧ 0 < bs_large s < 2 ^ 32.
Proof. intros [(d1 & H1 & _) (d2 & H2 & _) _ _]. by destruct (pool_cap _ _ _ _ _ H1), (pool_cap _ _ _ _ _ H2). Qed.

(** The limit of the counters after an operation. *)
Lemma limit_next cap d n : 0 <= d → 0 <= n → (cap | 2 ^ 32) ∨ d + (n + 1) + cap <= 2 ^ 32 →
  ((cap | 2 ^ 32) ∨ u32 (d + 1) + n + cap <= 2 ^ 32) ∧ ((cap | 2 ^ 32) ∨ d + n + cap <= 2 ^ 32).
Proof.
  intros Hd Hn [H|H]; [by split; left|]. split; right; [|lia].
  assert (u32 (d + 1) <= d + 1) by (unfold u32; apply Z.mod_le; lia). lia.
Qed.

Ltac pool_solve := eauto using pool_frame, pool_frame'.

(** ** Operations *)

Lemma ba_get_small s n small large m old :
  0 <= n → ba_rep s (n + 1) small large m →
  wp (BlockAllocator_GetBlock (ba_handle s) SMALL_BLOCK_SIZE old)
     (λ b m', match small with
              | [] => b = old ∧ ba_rep s n [] large m'
              | x :: q => b = x ∧ ba_rep s n q large m'
              end) m.
Proof.
  intros Hn Hr. pose proof Hr as [(d1 & H1 & L1) (d2 & H2 & L2) S1 S2]. destruct (pool_cap _ _ _ _ _ H1), (pool_cap _ _ _ _ _ H2).
  pose proof (limit_next _ d1 n ltac:(lia) Hn L1) as [L1a L1b]. pose proof (limit_next _ d2 n ltac:(lia) Hn L2) as [_ L2b].
  unfold BlockAllocator_GetBlock. rewrite Z.eqb_refl. apply wp_bind. eapply wp_mono; [exact (pool_dequeue_spec _ _ _ _ _ H1)|].
  intros o m' [Hm H']. destruct small as [|x q]; destruct H' as [-> Hp]; apply wp_ret.
  - split; [done|]. split; pool_solve.
  - pose proof (pl_wf _ _ _ _ _ H1) as Hwf. inv Hwf. inv S1.
    split; [by apply block_of_bits_bits|]. split; pool_solve.
Qed.

Lemma ba_get_large s n small large m size old :
  0 <= n → size ≠ SMALL_BLOCK_SIZE → ba_rep s (n + 1) small large m →
  wp (BlockAllocator_GetBlock (ba_handle s) size old)
     (λ b m', match large with
              | [] => b = old ∧ ba_rep s n small [] m'
              | x :: q => b = x ∧ ba_rep s n small q m'
              end) m.
Proof.
  intros Hn Hsz Hr. pose proof Hr as [(d1 & H1 & L1) (d2 & H2 & L2) S1 S2]. destruct (pool_cap _ _ _ _ _ H1), (pool_cap _ _ _ _ _ H2).
  pose proof (limit_next _ d1 n ltac:(lia) Hn L1) as [_ L1b]. pose proof (limit_next _ d2 n ltac:(lia) Hn L2) as [L2a L2b].
  unfold BlockAllocator_GetBlock. rewrite (proj2 (Z.eqb_neq _ _) Hsz). apply wp_bind.
  eapply wp_mono; [exact (pool_dequeue_spec _ _ _ _ _ H2)|].
  intros o m' [Hm H']. assert (0 <= bs_large s) by lia.
  destruct large as [|x q]; destruct H' as [-> Hp]; apply wp_ret.
  - split; [done|]. split; pool_solve.
  - pose proof (pl_wf _ _ _ _ _ H2) as Hwf. inv Hwf. inv S2.
    split; [by apply block_of_bits_bits|]. split; pool_solve.
Qed.

Lemma ba_free_small s n small large m b :
  0 <= n → ba_rep s (n + 1) small large m → block_wf b → bk_size_ b = SMALL_BLOCK_SIZE →
  Z.of_nat (length small) < bs_small s →
  wp (BlockAllocator_FreeBlock (ba_handle s) b) (λ _ m', ba_rep s n (small ++ [b]) large m') m.
Proof.
  intros Hn Hr Hb Hsz Hlt. pose proof Hr as [(d1 & H1 & L1) (d2 & H2 & L2) S1 S2]. destruct (pool_cap _ _ _ _ _ H1), (pool_cap _ _ _ _ _ H2).
  pose proof (limit_next _ d1 n ltac:(lia) Hn L1) as [_ L1b]. pose proof (limit_next _ d2 n ltac:(lia) Hn L2) as [_ L2b].
  unfold BlockAllocator_FreeBlock. rewrite Hsz, Z.eqb_refl. apply wp_bind.
  eapply wp_mono; [apply (pool_enqueue_spec _ _ _ _ _ _ H1); [destruct L1; [by left|right; lia]|done..]|].
  intros _ m' [Hm Hp]. apply wp_ret. split; pool_solve. apply Forall_app; auto.
Qed.

Lemma ba_free_large s n small large m b :
  0 <= n → ba_rep s (n + 1) small large m → block_wf b → bk_size_ b = LARGE_BLOCK_SIZE →
  Z.of_nat (length large) < bs_large s →
  wp (BlockAllocator_FreeBlock (ba_handle s) b) (λ _ m', ba_rep s n small (large ++ [b]) m') m.
Proof.
  intros Hn Hr Hb Hsz Hlt. pose proof Hr as [(d1 & H1 & L1) (d2 & H2 & L2) S1 S2]. destruct (pool_cap _ _ _ _ _ H1), (pool_cap _ _ _ _ _ H2).
  pose proof (limit_next _ d1 n ltac:(lia) Hn L1) as [_ L1b]. pose proof (limit_next _ d2 n ltac:(lia) Hn L2) as [_ L2b].
  unfold BlockAllocator_FreeBlock. rewrite Hsz. change (LARGE_BLOCK_SIZE =? SMALL_BLOCK_SIZE) with false. apply wp_bind.
  eapply wp_mono; [apply (pool_enqueue_spec _ _ _ _ _ _ H2); [destruct L2; [by left|right; lia]|done..]|].
  intros _ m' [Hm Hp]. assert (0 <= bs_large s) by lia. apply wp_ret. split; pool_solve. apply Forall_app; auto.
Qed.

(** ** Initialisation *)

(** [n] blocks of one size from an offset. *)
Fixpoint blocks_from (n : nat) (off size : Z) : list Block :=
  match n with
  | O => []
  | S n' => {| bk_off_ := off; bk_size_ := size |} :: blocks_from n' (off + size) size
  end.

Lemma blocks_from_length n off size : length (blocks_from n off size) = n.
Proof. revert off. induction n; intros; simpl; auto. Qed.

Lemma fill_blocks_spec r cap n off size q m :
  pool_rep r cap 0 q m → 0 <= off → 0 < size < 2 ^ 31 → off + size * Z.of_nat n < 2 ^ 64 →
  Z.of_nat (length q + n) <= cap →
  wp (fill_blocks r n off size)
     (λ o m', o = off + size * Z.of_nat n ∧ modifies (mr_span sizeof_Block r cap) m m' ∧
        pool_rep r cap 0 (q ++ blocks_from n off size) m') m.
Proof.
  revert off q m. induction n as [|n IH]; intros off q m Hp Hoff Hsz Hend Hcap; simpl.
  - apply wp_ret. rewrite app_nil_r. split; [lia|]. split; [apply modifies_refl|done].
  - apply wp_bind. destruct (pool_cap _ _ _ _ _ Hp).
    eapply wp_mono; [apply (pool_enqueue_spec _ _ _ _ _ {| bk_off_ := off; bk_size_ := size |} Hp)|].
    { right. lia. } { split; simpl; nia. } { lia. }
    intros _ m' [Hm Hp']. rewrite u64_small by nia.
    eapply wp_mono; [apply (IH (off + size) _ _ Hp'); rewrite ?length_app; simpl; nia|].
    intros o m'' (-> & Hm' & Hp''). split; [lia|]. split; [by eapply modifies_trans|].
    by rewrite <-app_assoc in Hp''.
Qed.

(** The arguments of [Initialize] that fit: both rings have entries, fit in
    the region, and the disk ends below 2^64. *)
Record ba_args (disk_off disk_size num_small region region_size : Z) : Prop := {
  bg_off : 0 <= disk_off;
  bg_end : disk_off + disk_size < 2 ^ 64;
  bg_small : 0 < num_small < 2 ^ 31;
  bg_small_fits : num_small * SMALL_BLOCK_SIZE + LARGE_BLOCK_SIZE <= disk_size;
  bg_large : GetNumLargeBlocks disk_size num_small < 2 ^ 31;
  bg_region : 2 * sizeof_ring_buffer + 16 * (num_small + GetNumLargeBlocks disk_size num_small) <= region_size < 2 ^ 32
}.

Definition ba_shape_of (disk_size num_small region : Z) : ba_shape :=
  {| bs_region := region; bs_small := num_small; bs_large := GetNumLargeBlocks disk_size num_small |}.

Definition small_blocks_of (disk_off num_small : Z) : list Block :=
  blocks_from (Z.to_nat num_small) disk_off SMALL_BLOCK_SIZE.

Definition large_blocks_of (disk_off disk_size num_small : Z) : list Block :=
  blocks_from (Z.to_nat (GetNumLargeBlocks disk_size num_small)) (disk_off + SMALL_BLOCK_SIZE * num_small) LARGE_BLOCK_SIZE.

Definition counters_limit (cap n : Z) : Prop := (cap | 2 ^ 32) ∨ n + cap <= 2 ^ 32.

Lemma num_large_bounds disk_off disk_size num_small region region_size :
  ba_args disk_off disk_size num_small region region_size →
  0 < GetNumLargeBlocks disk_size num_small ∧
  SMALL_BLOCK_SIZE * num_small + LARGE_BLOCK_SIZE * GetNumLargeBlocks disk_size num_small <= disk_size.
Proof.
  intros []. unfold GetNumLargeBlocks in *. change SMALL_BLOCK_SIZE with 4096 in *. change LARGE_BLOCK_SIZE with 131072 in *.
  rewrite (u64_small (num_small * 4096)), (u64_small (disk_size - _)) by lia. Z.div_mod_to_equations. lia.
Qed.

Lemma blocks_from_size n off size : Forall (λ b, bk_size_ b = size) (blocks_from n off size).
Proof. revert off. induction n; intros; simpl; auto. Qed.

Lemma ba_initialize_spec disk_off disk_size num_small region region_size n m :
  ba_args disk_off disk_size num_small region region_size → valid m region region_size →
  counters_limit num_small n → counters_limit (GetNumLargeBlocks disk_size num_small) n →
  wp (BlockAllocator_Initialize disk_off disk_size num_small region region_size)
     (λ a m', a = ba_handle (ba_shape_of disk_size num_small region) ∧
        ba_rep (ba_shape_of disk_size num_small region) n (small_blocks_of disk_off num_small)
               (large_blocks_of disk_off disk_size num_small) m' ∧ modifies (span region region_size) m m') m.
Proof.
  intros Hargs Hv Hl1 Hl2. destruct (num_large_bounds _ _ _ _ _ Hargs) as [Hpos Hdisk]. destruct Hargs.
  unfold BlockAllocator_Initialize. cbv zeta. set (nl := GetNumLargeBlocks disk_size num_small) in *.
  change SMALL_BLOCK_SIZE with 4096 in *. change LARGE_BLOCK_SIZE with 131072 in *. autounfold with layout in *.
  rewrite !(u32_small num_small), !(u32_small nl), (u32_small region_size) by lia. unfold fill_loop.
  rewrite (proj2 (Z.leb_gt _ _)) by lia. rewrite (proj2 (Z.leb_gt _ _)) by lia.
  apply wp_bind. eapply wp_mono; [apply mr_init_spec; unfold sizeof_Block; autounfold with layout; try done; lia|].
  intros small m1 (-> & Hsm & Hm1). apply wp_bind.
  assert (pool_rep (ring_buffer_Attach region) num_small 0 [] m1) as Hp by (split; [done|constructor]).
  eapply wp_mono; [apply (fill_blocks_spec _ _ _ _ _ _ _ Hp); simpl; lia|].
  intros off m2 (-> & Hm2 & Hp2). simpl in Hp2.
  assert (valid m2 region region_size) as Hv2 by (eapply valid_modifies; [done|by eapply valid_modifies]).
  pose proof (mr_max _ _ _ _ _ _ (pl_ring _ _ _ _ _ Hp2)) as Hmax. simpl in Hmax. autounfold with layout in Hmax.
  unfold ring_buffer_GetNextSection, ring_buffer_GetSize, ring_buffer_GetSize_global, sizeof_Block. autounfold with layout.
  cbn [ring_buffer_Attach mr_header_]. do 10 wp_step. rewrite !Hmax. change (Z.of_nat 16) with 16. rewrite (u32_small (24 + _)), (u64_small (region_size - _)), u32_small by lia.
  apply wp_bind. eapply wp_mono; [apply mr_init_spec; unfold sizeof_Block; autounfold with layout; try lia|].
  { apply (valid_sub _ _ _ _ _ Hv2); lia. }
  intros large m3 (-> & Hlg & Hm3). apply wp_bind.
  assert (pool_rep (ring_buffer_Attach (region + (24 + 16 * num_small))) nl 0 [] m3) as Hp3 by (split; [done|constructor]).
  eapply wp_mono; [apply (fill_blocks_spec _ _ _ _ _ _ _ Hp3); simpl; lia|].
  intros off m4 (-> & Hm4 & Hp4). simpl in Hp4. apply wp_ret.
  assert (ba_handle (ba_shape_of disk_size num_small region) =
    {| small_blocks_ := ring_buffer_Attach region; large_blocks_ := ring_buffer_Attach (region + (24 + 16 * num_small)) |}) as E.
  { unfold ba_handle, ba_shape_of, sizeof_Block. simpl. autounfold with layout. do 2 f_equal. lia. }
  split; [done|]. split.
  2: { eapply modifies_trans; [eapply modifies_weaken; [exact Hm1|]|eapply modifies_trans; [eapply modifies_weaken; [exact Hm2|]|
         eapply modifies_trans; (eapply modifies_weaken; [eassumption|])]];
         unfold mr_span, span, sizeof_Block; autounfold with layout; simpl; intros; lia. }
  split; rewrite ?E; simpl.
  - exists 0. split; [|done]. destruct Hp2 as [Hp2 Hwf]. split; [|done].
    eapply mr_rep_frame; [eapply mr_rep_frame; [exact Hp2|exact Hm3|]|exact Hm4|];
      unfold mr_span, span, sizeof_Block; autounfold with layout; simpl; intros; lia.
  - exists 0. split; [|done]. unfold large_blocks_of. fold nl. change LARGE_BLOCK_SIZE with 131072.
    change SMALL_BLOCK_SIZE with 4096. by rewrite Z2Nat.id in Hp4 by lia.
  - apply blocks_from_size.
  - apply blocks_from_size.
Qed.

(** [Attach] finds the rings another process initialised. *)
Lemma ba_attach_spec s n small large m :
  ba_rep s n small large m → sizeof_ring_buffer + 16 * bs_small s < 2 ^ 32 →
  BlockAllocator_Attach (bs_region s) m = Ret (ba_handle s) m.
Proof.
  intros [(d & [[] _] & _) _ _ _] Hsz. apply wp_exact.
  unfold BlockAllocator_Attach, ring_buffer_GetNextSection, ring_buffer_GetSize, ring_buffer_GetSize_global, ba_handle, sizeof_Block in *.
  autounfold with layout in *. simpl in *. assert (valid m (bs_region s) 16) by (eapply valid_sub; [done|lia..]).
  cbn [ring_buffer_Attach mr_header_]. wp_go. rewrite mr_max, u32_small by lia. split; [|done]. do 2 f_equal. lia.
Qed.

(** ** Clients *)

(** A client asks for a block of a size, or frees the [i]th of the blocks it
    holds.  It passes an object of size 0, by which it can tell a failure. *)
Inductive ba_op := BGet (size : Z) | BFree (i : nat).

Definition no_block : Block := {| bk_off_ := 0; bk_size_ := 0 |}.

Definition ba_step (a : BlockAllocator) (held : list Block) (op : ba_op) : M (list Block) :=
  match op with
  | BGet size =>
      b ← BlockAllocator_GetBlock a size no_block;
      mret (if decide (b = no_block) then held else held ++ [b])
  | BFree i =>
      match held !! i with
      | Some b => _ ← BlockAllocator_FreeBlock a b; mret (delete i held)
      | None => mret held
      end
  end.

Fixpoint ba_run (a : BlockAllocator) (held : list Block) (ops : list ba_op) : M (list Block) :=
  match ops with
  | [] => mret held
  | op :: ops' => held' ← ba_step a held op; ba_run a held' ops'
  end.

(** The blocks of the allocator are those it has and those the client holds. *)
Record ba_inv (s : ba_shape) (all : list Block) (n : Z) (small large held : list Block) (m : mem) : Prop := {
  bi_rep : ba_rep s n small large m;
  bi_all : small ++ large ++ held ≡ₚ all;
  bi_wf : Forall block_wf all;
  bi_sizes : Forall (λ b, bk_size_ b = SMALL_BLOCK_SIZE ∨ bk_size_ b = LARGE_BLOCK_SIZE) all;
  bi_small : Z.of_nat (length (filter (λ b, bk_size_ b = SMALL_BLOCK_SIZE) all)) = bs_small s;
  bi_large : Z.of_nat (length (filter (λ b, bk_size_ b = LARGE_BLOCK_SIZE) all)) = bs_large s
}.

Lemma filter_all {A} (P : A → Prop) `{!∀ x, Decision (P x)} l : Forall P l → filter P l = l.
Proof. induction 1; [done|]. rewrite filter_cons_True by done. by f_equal. Qed.

(** There is room in its ring for a block that is held. *)
Lemma ba_room s all n small large held m i b :
  ba_inv s all n small large held m → held !! i = Some b →
  (bk_size_ b = SMALL_BLOCK_SIZE → Z.of_nat (length small) < bs_small s) ∧
  (bk_size_ b = LARGE_BLOCK_SIZE → Z.of_nat (length large) < bs_large s).
Proof.
  intros [[_ _ S1 S2] Hall _ _ Hs Hl] Hi. rewrite <-Hall in Hs, Hl. rewrite !filter_app, !length_app in Hs, Hl.
  rewrite (filter_all _ small) in Hs by done. rewrite (filter_all _ large) in Hl by done.
  apply list_elem_of_lookup_2 in Hi. split; intros Hb.
  - assert (b ∈ filter (λ b, bk_size_ b = SMALL_BLOCK_SIZE) held) as Hin by (by apply list_elem_of_filter).
    destruct (filter (λ b, bk_size_ b = SMALL_BLOCK_SIZE) held); [by apply not_elem_of_nil in Hin|]. simpl in Hs. lia.
  - assert (b ∈ filter (λ b, bk_size_ b = LARGE_BLOCK_SIZE) held) as Hin by (by apply list_elem_of_filter).
    destruct (filter (λ b, bk_size_ b = LARGE_BLOCK_SIZE) held); [by apply not_elem_of_nil in Hin|]. simpl in Hl. lia.
Qed.

(** A block that is held, or free, is one of the allocator's. *)
Lemma ba_inv_elem s all n small large held m b :
  ba_inv s all n small large held m → b ∈ small ++ large ++ held →
  block_wf b ∧ (bk_size_ b = SMALL_BLOCK_SIZE ∨ bk_size_ b = LARGE_BLOCK_SIZE) ∧ b ≠ no_block.
Proof.
  intros [_ Hall Hwf Hsz _ _] Hb. rewrite Hall in Hb. rewrite Forall_forall in Hwf, Hsz.
  split; [auto|]. split; [auto|]. intros ->. by destruct (Hsz _ Hb).
Qed.

Lemma ba_step_inv s all n small large held m op :
  0 <= n → ba_inv s all (n + 1) small large held m →
  wp (ba_step (ba_handle s) held op) (λ held' m', ∃ small' large', ba_inv s all n small' large' held' m') m.
Proof.
  intros Hn Hinv. pose proof Hinv as []. destruct op as [size|i]; simpl.
  - apply wp_bind. destruct (decide (size = SMALL_BLOCK_SIZE)) as [->|Hsz].
    + eapply wp_mono; [by apply ba_get_small|]. intros b m' Hb. apply wp_ret.
      destruct small as [|x q]; destruct Hb as [-> Hr].
      * rewrite decide_True by done. exists [], large. by split.
      * rewrite decide_False by (apply (ba_inv_elem _ _ _ _ _ _ _ _ Hinv); set_solver).
        exists q, large. split; try done. rewrite <-bi_all0. simpl. rewrite !app_assoc. by rewrite Permutation_app_comm.
    + eapply wp_mono; [by apply ba_get_large|]. intros b m' Hb. apply wp_ret.
      destruct large as [|x q]; destruct Hb as [-> Hr].
      * rewrite decide_True by done. exists small, []. by split.
      * rewrite decide_False by (apply (ba_inv_elem _ _ _ _ _ _ _ _ Hinv); set_solver).
        exists small, q. split; try done. rewrite <-bi_all0. apply Permutation_app; [done|]. simpl.
        rewrite app_assoc. by rewrite Permutation_app_comm.
  - destruct (held !! i) as [b|] eqn:Hi.
    2: { apply wp_ret. exists small, large. split; try done. destruct bi_rep0 as [(d1 & ? & ?) (d2 & ? & ?) ? ?].
         split; try done; [exists d1|exists d2]; (split; [done|]); naive_solver lia. }
    destruct (ba_room _ _ _ _ _ _ _ _ _ Hinv Hi) as [R1 R2].
    destruct (ba_inv_elem _ _ _ _ _ _ _ b Hinv) as (Hwf & [Hsz|Hsz] & _).
    { rewrite !elem_of_app. right; right. by eapply list_elem_of_lookup_2. }
    + apply wp_bind. eapply wp_mono; [by apply ba_free_small; auto|]. intros [] m' Hr. apply wp_ret.
      exists (small ++ [b]), large. split; try done. rewrite <-bi_all0. rewrite <-app_assoc. apply Permutation_app; [done|].
      rewrite (delete_Permutation held i b Hi) at 2. simpl. by rewrite Permutation_middle.
    + apply wp_bind. eapply wp_mono; [by apply ba_free_large; auto|]. intros [] m' Hr. apply wp_ret.
      exists small, (large ++ [b]). split; try done. rewrite <-bi_all0. apply Permutation_app; [done|].
      rewrite (delete_Permutation held i b Hi) at 2. by rewrite <-app_assoc.
Qed.

Lemma ba_run_inv s all ops small large held m :
  ba_inv s all (Z.of_nat (length ops) + 1) small large held m →
  wp (ba_run (ba_handle s) held ops) (λ held' m', ∃ small' large', ba_inv s all 1 small' large' held' m') m.
Proof.
  revert small large held m. induction ops as [|op ops IH]; intros small large held m Hinv; simpl.
  - apply wp_ret. by exists small, large.
  - apply wp_bind. simpl in Hinv. rewrite Nat2Z.inj_succ in Hinv.
    eapply wp_mono; [apply (ba_step_inv _ _ (Z.of_nat (length ops) + 1) _ _ _ _ op ltac:(lia) Hinv)|].
    intros held' m' (small' & large' & Hinv'). by eapply IH.
Qed.

(** ** The blocks of a disk *)

Definition separate_blocks (b1 b2 : Block) : Prop :=
  bk_off_ b1 + bk_size_ b1 <= bk_off_ b2 ∨ bk_off_ b2 + bk_size_ b2 <= bk_off_ b1.

Definition on_disk (off size : Z) (b : Block) : Prop := off <= bk_off_ b ∧ bk_off_ b + bk_size_ b <= off + size.

Lemma blocks_from_elem n off size b :
  b ∈ blocks_from n off size → 0 < size →
  bk_size_ b = size ∧ off <= bk_off_ b ∧ bk_off_ b + size <= off + size * Z.of_nat n.
Proof.
  revert off. induction n as [|n IH]; intros off Hb Hsz; simpl in Hb; [by apply not_elem_of_nil in Hb|].
  apply elem_of_cons in Hb as [->|Hb]; simpl; [lia|]. destruct (IH _ Hb Hsz). lia.
Qed.

Lemma blocks_from_separate n off size : 0 < size → ForallOrdPairs separate_blocks (blocks_from n off size).
Proof.
  intros Hsz. revert off. induction n as [|n IH]; intros off; simpl; constructor; [|done].
  apply Forall_forall. intros b Hb. destruct (blocks_from_elem _ _ _ _ Hb Hsz). left. simpl. lia.
Qed.

Lemma ordpairs_app {A} (R : A → A → Prop) l k :
  ForallOrdPairs R l → ForallOrdPairs R k → (∀ x y, x ∈ l → y ∈ k → R x y) → ForallOrdPairs R (l ++ k).
Proof.
  intros Hl Hk Hlk. induction Hl as [|x l Hx Hl IH]; [done|]. simpl. constructor.
  - apply Forall_app. split; [done|]. apply Forall_forall. intros y Hy. apply Hlk; [left|done].
  - apply IH. intros x' y Hx' Hy. apply Hlk; [by right|done].
Qed.

Lemma ordpairs_perm {A} (R : A → A → Prop) l k :
  (∀ x y, R x y → R y x) → l ≡ₚ k → ForallOrdPairs R l → ForallOrdPairs R k.
Proof.
  intros Hsym. induction 1 as [|x l k Hp IH|x y l|l k k' _ IH1 _ IH2]; intros Hl; [done|..].
  - inv Hl. constructor; [by rewrite <-Hp|auto].
  - inv Hl. inv H1. inv H2. constructor; [constructor; auto|]. constructor; auto.
  - auto.
Qed.

Lemma ordpairs_lookup {A} (R : A → A → Prop) l i j x y :
  ForallOrdPairs R l → l !! i = Some x → l !! j = Some y → (i < j)%nat → R x y.
Proof.
  intros Hl. revert i j. induction Hl as [|z l Hz Hl IH]; intros i j Hi Hj Hij; [done|].
  destruct j as [|j]; [lia|]. destruct i as [|i]; simpl in *.
  - simplify_eq. rewrite Forall_forall in Hz. apply Hz. by eapply list_elem_of_lookup_2.
  - eapply IH; [done..|lia].
Qed.

Lemma disk_blocks disk_off disk_size num_small region region_size :
  ba_args disk_off disk_size num_small region region_size →
  let all := small_blocks_of disk_off num_small ++ large_blocks_of disk_off disk_size num_small in
  ForallOrdPairs separate_blocks all ∧ Forall (on_disk disk_off disk_size) all ∧ Forall block_wf all.
Proof.
  intros Hargs all. destruct (num_large_bounds _ _ _ _ _ Hargs) as [Hpos Hdisk]. destruct Hargs.
  unfold small_blocks_of, large_blocks_of in all. change SMALL_BLOCK_SIZE with 4096 in *. change LARGE_BLOCK_SIZE with 131072 in *.
  assert (∀ b, b ∈ all → on_disk disk_off disk_size b ∧ (bk_size_ b = 4096 ∨ bk_size_ b = 131072)) as Hin.
  { intros b [Hb|Hb]%elem_of_app; destruct (blocks_from_elem _ _ _ _ Hb ltac:(lia)); unfold on_disk; lia. }
  split; [|split].
  - apply ordpairs_app; [by apply blocks_from_separate..|]. intros x y Hx Hy.
    destruct (blocks_from_elem _ _ _ _ Hx ltac:(lia)), (blocks_from_elem _ _ _ _ Hy ltac:(lia)). left. lia.
  - apply Forall_forall. intros b Hb. by apply Hin.
  - apply Forall_forall. intros b Hb. destruct (Hin b Hb) as [[? ?] ?]. unfold block_wf. lia.
Qed.

Lemma filter_none {A} (P : A → Prop) `{!∀ x, Decision (P x)} l : Forall (λ x, ¬ P x) l → filter P l = [].
Proof. induction 1; [done|]. by rewrite filter_cons_False. Qed.

Lemma ba_inv_init disk_off disk_size num_small region region_size n m :
  ba_args disk_off disk_size num_small region region_size →
  let s := ba_shape_of disk_size num_small region in
  let small := small_blocks_of disk_off num_small in
  let large := large_blocks_of disk_off disk_size num_small in
  ba_rep s n small large m → ba_inv s (small ++ large) n small large [] m.
Proof.
  intros Hargs s small large Hr. destruct (disk_blocks _ _ _ _ _ Hargs) as (_ & _ & Hwf).
  destruct (num_large_bounds _ _ _ _ _ Hargs) as [Hpos _]. destruct Hargs.
  assert (Forall (λ b, bk_size_ b = SMALL_BLOCK_SIZE) small) as S1 by apply blocks_from_size.
  assert (Forall (λ b, bk_size_ b = LARGE_BLOCK_SIZE) large) as S2 by apply blocks_from_size.
  split; try done.
  - by rewrite app_nil_r.
  - apply Forall_app. split; [apply (Forall_impl _ _ _ S1)|apply (Forall_impl _ _ _ S2)]; naive_solver.
  - rewrite filter_app, filter_all, (filter_none _ large), app_nil_r by (first [done|apply (Forall_impl _ _ _ S2); intros ? ->; done]).
    subst small. unfold small_blocks_of. rewrite blocks_from_length. simpl. lia.
  - rewrite filter_app, (filter_none _ small), filter_all by (first [done|apply (Forall_impl _ _ _ S1); intros ? ->; done]).
    subst large. unfold large_blocks_of. simpl. rewrite blocks_from_length. lia.
Qed.

(** The next request: a free block of the size, or the caller's object when
    there is none. *)
Lemma ba_get_next s all small large held m size old :
  ba_inv s all 1 small large held m → size = SMALL_BLOCK_SIZE ∨ size = LARGE_BLOCK_SIZE →
  wp (BlockAllocator_GetBlock (ba_handle s) size old)
     (λ b _, match filter (λ b, bk_size_ b = size) (small ++ large) with [] => b = old | l => b ∈ l end) m.
Proof.
  intros [Hr _ _ _ _ _] Hsz. pose proof Hr as [_ _ S1 S2]. rewrite filter_app. destruct Hsz as [->| ->].
  - rewrite (filter_all _ small), (filter_none _ large), app_nil_r by
      (first [done|apply (Forall_impl _ _ _ S2); intros ? ->; done]).
    eapply wp_mono; [by apply (ba_get_small s 0)|]. intros b m' Hb.
    destruct small; destruct Hb as [-> _]; [done|left].
  - rewrite (filter_none _ small), (filter_all _ large) by
      (first [done|apply (Forall_impl _ _ _ S1); intros ? ->; done]).
    eapply wp_mono; [by apply (ba_get_large s 0)|]. intros b m' Hb. simpl.
    destruct large; destruct Hb as [-> _]; [done|left].
Qed.

(** C18. The block allocator of LabFS, initialised on a region that fits:
    after any sequence of requests and releases the blocks a client holds lie
    on the disk and do not overlap, no block is lost, and a request gets a
    free block of its size, or leaves the caller's object as it was when
    there is none.  (The depth of each ring divides 2^32, or the operations
    are fewer than 2^32 minus the depth.) *)
Theorem block_allocator_correct disk_off disk_size num_small region region_size ops m :
  ba_args disk_off disk_size num_small region region_size → valid m region region_size →
  counters_limit num_small (Z.of_nat (length ops) + 1) →
  counters_limit (GetNumLargeBlocks disk_size num_small) (Z.of_nat (length ops) + 1) →
  wp (a ← BlockAllocator_Initialize disk_off disk_size num_small region region_size;
      held ← ba_run a [] ops; mret (a, held))
     (λ r m', Forall (on_disk disk_off disk_size) r.2 ∧
        (∀ i j b1 b2, r.2 !! i = Some b1 → r.2 !! j = Some b2 → (i < j)%nat → separate_blocks b1 b2) ∧
        ∃ free, free ++ r.2 ≡ₚ small_blocks_of disk_off num_small ++ large_blocks_of disk_off disk_size num_small ∧
          ∀ size old, size = SMALL_BLOCK_SIZE ∨ size = LARGE_BLOCK_SIZE →
            wp (BlockAllocator_GetBlock r.1 size old)
               (λ b _, match filter (λ b, bk_size_ b = size) free with [] => b = old | l => b ∈ l end) m') m.
Proof.
  intros Hargs Hv L1 L2. apply wp_bind.
  eapply wp_mono; [by apply ba_initialize_spec|]. intros a m1 (-> & Hr & _). apply wp_bind.
  eapply wp_mono; [eapply ba_run_inv, (ba_inv_init _ _ _ _ _ _ _ Hargs Hr)|].
  intros held m' (small & large & Hinv). apply wp_ret. simpl.
  destruct (disk_blocks _ _ _ _ _ Hargs) as (Hsep & Hdisk & _). pose proof (bi_all _ _ _ _ _ _ _ Hinv) as Hall.
  rewrite app_assoc in Hall. split; [|split].
  - rewrite <-Hall in Hdisk. by apply Forall_app in Hdisk as [_ ?].
  - intros i j b1 b2 Hi Hj Hij.
    assert (ForallOrdPairs separate_blocks ((small ++ large) ++ held)) as Hs.
    { eapply ordpairs_perm; [|symmetry; exact Hall|done]. unfold separate_blocks. tauto. }
    eapply (ordpairs_lookup _ _ (length (small ++ large) + i) (length (small ++ large) + j) _ _ Hs); [..|lia];
      by rewrite lookup_app_r, Nat.add_comm, Nat.add_sub by lia.
  - exists (small ++ large). split; [done|]. intros size old Hsz. by eapply ba_get_next.
Qed.

(** A disk of 148 KiB: five small blocks and one large one. *)
Definition ex_ba_ops : list ba_op :=
  [BGet SMALL_BLOCK_SIZE; BGet LARGE_BLOCK_SIZE; BGet LARGE_BLOCK_SIZE; BGet SMALL_BLOCK_SIZE; BFree 0; BGet SMALL_BLOCK_SIZE].

Lemma block_allocator_correct_witness :
  wp (a ← BlockAllocator_Initialize 4096 151552 5 65536 144; held ← ba_run a [] ex_ba_ops; mret (a, held))
     (λ r _, (bk_off_ <$> r.2) = [24576; 8192; 12288] ∧ Forall (on_disk 4096 151552) r.2) (zero_region 65536 144).
Proof.
  assert (counters_limit 5 (Z.of_nat (length ex_ba_ops) + 1)) as L1 by (right; vm_compute; discriminate).
  assert (counters_limit (GetNumLargeBlocks 151552 5) (Z.of_nat (length ex_ba_ops) + 1)) as L2 by (right; vm_compute; discriminate).
  assert (ba_args 4096 151552 5 65536 144) as Hargs by (split; vm_compute; intuition discriminate).
  pose proof (block_allocator_correct 4096 151552 5 65536 144 ex_ba_ops (zero_region 65536 144) Hargs
                (valid_zero_region 65536 144) L1 L2) as H.
  unfold wp in *.
  destruct ((a ← BlockAllocator_Initialize 4096 151552 5 65536 144; held ← ba_run a [] ex_ba_ops; mret (a, held))
              (zero_region 65536 144)) as [r m'| | |] eqn:E; [|exact H..].
  split; [|exact (proj1 H)]. vm_compute in E. injection E as <- _. reflexivity.
Defined.

(** ** Limits *)

(** An exhausted allocator tells its caller nothing: the object is what it
    was before the call. *)
Lemma get_block_exhausted :
  (a ← BlockAllocator_Initialize 4096 151552 5 65536 144;
   b ← BlockAllocator_GetBlock a LARGE_BLOCK_SIZE no_block;
   BlockAllocator_GetBlock a LARGE_BLOCK_SIZE b) (zero_region 65536 144) =
  (a ← BlockAllocator_Initialize 4096 151552 5 65536 144;
   _ ← BlockAllocator_GetBlock a LARGE_BLOCK_SIZE no_block;
   _ ← BlockAllocator_GetBlock a LARGE_BLOCK_SIZE no_block;
   mret {| bk_off_ := 24576; bk_size_ := 131072 |}) (zero_region 65536 144).
Proof. vm_compute. reflexivity. Qed.
