(* ===== verification/UnorderedMap.v ===== *)
(** * UnorderedMap.v: the shared hash map

    types/data_structures/unordered_map/shmem_unordered_map.h: an open
    addressing hash map in shared memory, a two-bit map (Bitmap.v) next to an
    array of buckets.  The template's bucket type is the class [Bucket]; its
    laws, which the int, string and inode buckets of StringMap.v satisfy, are
    the class [BucketLaws].  The map is proved to implement an array of
    optional entries, and that array a map in which the first value set for a
    key is the one that is found. *)

From S2P Require Import Prelude Memory Bitmap RequestQueue.

Local Open Scope Z_scope.

(** ** Buckets *)

(** [BUCKET_T]: a bucket is the number its [bucket_size] bytes are; [K] and
    [V] are the types of its keys and values. *)
Class Bucket (K V : Type) := {
  bucket_size : nat;
  bucket_GetKey : Z → Z → M K;
  bucket_GetValue : Z → Z → V;
  bucket_KeyHash : K → Z → M Z;
  bucket_KeyCompare : K → K → M bool
}.

(** [key_mem]: where keys are stored when a bucket refers to them; [A]: what
    a key stands for.  Hashing and comparison depend on that only. *)
Class BucketLaws (K V A : Type) `{Bucket K V} `{EqDecision A} (key_mem : Z → Prop) := {
  key_rep : K → A → mem → Prop;
  key_hash : A → Z;
  bucket_rep : Z → Z → A → V → mem → Prop;
  key_hash_range : ∀ a, 0 <= key_hash a < 2 ^ 32;
  bucket_range : ∀ base b a v m, bucket_rep base b a v m → 0 <= b < 256 ^ Z.of_nat bucket_size;
  bucket_get_key : ∀ base b a v m, bucket_rep base b a v m →
    ∃ k, bucket_GetKey b base m = Ret k m ∧ key_rep k a m;
  bucket_get_value : ∀ base b a v m, bucket_rep base b a v m → bucket_GetValue b base = v;
  bucket_hash : ∀ k a base m, key_rep k a m → bucket_KeyHash k base m = Ret (key_hash a) m;
  bucket_compare : ∀ k1 k2 a1 a2 m, key_rep k1 a1 m → key_rep k2 a2 m →
    bucket_KeyCompare k1 k2 m = Ret (bool_decide (a1 = a2)) m;
  key_frame : ∀ k a m m' P, modifies P m m' → (∀ x, key_mem x → ¬ P x) → key_rep k a m → key_rep k a m';
  bucket_frame : ∀ base b a v m m' P, modifies P m m' → (∀ x, key_mem x → ¬ P x) →
    bucket_rep base b a v m → bucket_rep base b a v m'
}.

(** The same code as INVALID_UNORDERED_MAP_SIZE. *)
Definition INVALID_UNORDERED_MAP_KEY : Z := 301.

(** ** The map *)

(** [struct unordered_map_header]; the bitmap follows. *)
Definition umh_num_buckets_ : Z := 0.
Definition umh_max_collisions_ : Z := 4.
Definition umh_bitmap_ : Z := 8.
Definition sizeof_um_header : Z := 8.
#[export] Hint Unfold umh_num_buckets_ umh_max_collisions_ umh_bitmap_ sizeof_um_header : layout.

Record unordered_map := {
  um_header_ : Z;
  um_base_region_ : Z;
  um_num_buckets_ : Z;
  um_buckets_ : Z;
  um_bitmap_ : Z
}.

Section map.
Context {K V : Type} `{!Bucket K V}.
(** [fuel] bounds the tries of a compare-and-swap loop and the rounds of
    [Remove]. *)
Context (fuel : nat).

Definition unordered_map_GetHeaderSize (num_buckets : Z) : Z :=
  u32 (sizeof_um_header + labstor_bit2map_GetSize num_buckets).

Definition unordered_map_GetSize_global (num_buckets : Z) : Z :=
  u32 (unordered_map_GetHeaderSize num_buckets + Z.of_nat bucket_size * num_buckets).

Definition unordered_map_GetSize (t : unordered_map) : Z := unordered_map_GetSize_global (um_num_buckets_ t).
Definition unordered_map_GetRegion (t : unordered_map) : Z := um_header_ t.
Definition unordered_map_GetBaseRegion (t : unordered_map) : Z := um_base_region_ t.
Definition unordered_map_GetNumBuckets (t : unordered_map) : Z := um_num_buckets_ t.

Definition unordered_map_Init (base_region region region_size num_buckets max_collisions : Z) : M unordered_map :=
  if region_size <? unordered_map_GetSize_global num_buckets then throw INVALID_UNORDERED_MAP_SIZE
  else
    let num_buckets :=
      if num_buckets =? 0 then
        u32 (u32 (u64 (region_size - sizeof_um_header)) * LABSTOR_BIT2MAP_ENTRIES_PER_BLOCK)
        / (Z.of_nat bucket_size * LABSTOR_BIT2MAP_ENTRIES_PER_BLOCK + 4)
      else num_buckets in
    if num_buckets =? 0 then throw INVALID_UNORDERED_MAP_SIZE
    else
      _ ← store32 (region + umh_num_buckets_) num_buckets;
      _ ← store32 (region + umh_max_collisions_) max_collisions;
      num_buckets_ ← load32 (region + umh_num_buckets_);
      _ ← labstor_bit2map_Init (region + umh_bitmap_) num_buckets_;
      mret {| um_header_ := region; um_base_region_ := base_region; um_num_buckets_ := num_buckets_;
              um_buckets_ := labstor_bit2map_GetNextSection (region + umh_bitmap_) num_buckets_;
              um_bitmap_ := region + umh_bitmap_ |}.

Definition unordered_map_Attach (base_region region : Z) : M unordered_map :=
  num_buckets_ ← load32 (region + umh_num_buckets_);
  mret {| um_header_ := region; um_base_region_ := base_region; um_num_buckets_ := num_buckets_;
          um_buckets_ := labstor_bit2map_GetNextSection (region + umh_bitmap_) num_buckets_;
          um_bitmap_ := region + umh_bitmap_ |}.

(** [iters = max_collisions_ + 1], an [int]. *)
Definition map_iters (t : unordered_map) : M Z :=
  max_collisions ← load32 (um_header_ t + umh_max_collisions_); mret (s32 (u32 (max_collisions + 1))).

Definition bucket_addr (t : unordered_map) (b : Z) : Z := um_buckets_ t + Z.of_nat bucket_size * b.

Fixpoint set_loop (t : unordered_map) (bucket : Z) (iters : nat) (b : Z) : M bool :=
  match iters with
  | O => mret false
  | S iters' =>
      ok ← labstor_bit2map_BeginModify fuel (um_bitmap_ t) b;
      if ok : bool then
        _ ← store bucket_size (bucket_addr t b) bucket;
        _ ← labstor_bit2map_CommitModify fuel (um_bitmap_ t) b;
        mret true
      else b' ← umod (u32 (b + 1)) (um_num_buckets_ t); set_loop t bucket iters' b'
  end.

Definition unordered_map_Set (t : unordered_map) (bucket : Z) : M bool :=
  iters ← map_iters t;
  key ← bucket_GetKey bucket (um_base_region_ t);
  hash ← bucket_KeyHash key (um_base_region_ t);
  b ← umod hash (um_num_buckets_ t);
  set_loop t bucket (Z.to_nat iters) b.

Fixpoint find_loop (t : unordered_map) (key : K) (iters : nat) (b : Z) : M (option V) :=
  match iters with
  | O => mret None
  | S iters' =>
      let next := b' ← umod (u32 (b + 1)) (um_num_buckets_ t); find_loop t key iters' b' in
      set ← labstor_bit2map_IsSet (um_bitmap_ t) b LABSTOR_BIT2MAP_VALID;
      if set : bool then
        bucket ← load bucket_size (bucket_addr t b);
        key' ← bucket_GetKey bucket (um_base_region_ t);
        eq ← bucket_KeyCompare key' key;
        if eq : bool then mret (Some (bucket_GetValue bucket (um_base_region_ t))) else next
      else next
  end.

Definition unordered_map_Find (t : unordered_map) (key : K) : M (option V) :=
  iters ← map_iters t;
  hash ← bucket_KeyHash key (um_base_region_ t);
  b ← umod hash (um_num_buckets_ t);
  find_loop t key (Z.to_nat iters) b.

(** The [for] loop of [Remove]: the key was removed, the bucket [b] has
    another key, or none was valid and the next bucket is [b]. *)
Inductive remove_scan := Removed | OtherKey (b : Z) | NoneValid (b : Z).

Fixpoint scan_loop (t : unordered_map) (key : K) (iters : nat) (b : Z) : M remove_scan :=
  match iters with
  | O => mret (NoneValid b)
  | S iters' =>
      ok ← labstor_bit2map_BeginRemove fuel (um_bitmap_ t) b;
      if ok : bool then
        bucket ← load bucket_size (bucket_addr t b);
        key' ← bucket_GetKey bucket (um_base_region_ t);
        eq ← bucket_KeyCompare key' key;
        if eq : bool then _ ← labstor_bit2map_CommitRemove (um_bitmap_ t) b; mret Removed
        else _ ← labstor_bit2map_IgnoreRemove fuel (um_bitmap_ t) b; mret (OtherKey b)
      else b' ← umod (u32 (b + 1)) (um_num_buckets_ t); scan_loop t key iters' b'
  end.

(** The [while] loop. *)
Fixpoint remove_loop (t : unordered_map) (key : K) (rounds : nat) (iters num_failed b : Z) : M bool :=
  match rounds with
  | O => λ m, Spin m
  | S rounds' =>
      if num_failed =? iters then mret false
      else
        r ← scan_loop t key (Z.to_nat iters) b;
        match r with
        | Removed => mret true
        | OtherKey b => remove_loop t key rounds' iters (num_failed + 1) b
        | NoneValid b => remove_loop t key rounds' iters num_failed b
        end
  end.

Definition unordered_map_Remove (t : unordered_map) (key : K) : M bool :=
  hash ← bucket_KeyHash key (um_base_region_ t);
  b ← umod hash (um_num_buckets_ t);
  iters ← map_iters t;
  remove_loop t key fuel iters 0 b.

(** [operator []]. *)
Definition unordered_map_at (t : unordered_map) (key : K) : M V :=
  r ← unordered_map_Find t key;
  match r with Some value => mret value | None => throw INVALID_UNORDERED_MAP_KEY end.

(** ** An array of entries

    [slots]: the key and value of each bucket that is in use. *)

Section slots.
Context {A : Type} `{EqDecision A}.
Abbreviation slots := (list (option (A * V))).

(** The buckets tried from [b], the next one after each. *)
Fixpoint probe (n : Z) (iters : nat) (b : Z) : list Z :=
  match iters with O => [] | S i => b :: probe n i ((b + 1) mod n) end.

Definition slot (s : slots) (b : Z) : option (A * V) := mjoin (s !! Z.to_nat b).

(** The first free bucket of a list. *)
Fixpoint first_free (s : slots) (bs : list Z) : option Z :=
  match bs with
  | [] => None
  | b :: bs => if slot s b is None then Some b else first_free s bs
  end.

Fixpoint first_value (s : slots) (a : A) (bs : list Z) : option V :=
  match bs with
  | [] => None
  | b :: bs =>
      match slot s b with
      | Some (a', v) => if decide (a' = a) then Some v else first_value s a bs
      | None => first_value s a bs
      end
  end.

(** The first bucket in use. *)
Fixpoint first_used (s : slots) (bs : list Z) : option (Z * A) :=
  match bs with
  | [] => None
  | b :: bs => match slot s b with Some (a, _) => Some (b, a) | None => first_used s bs end
  end.

Definition slots_set (s : slots) (bs : list Z) (a : A) (v : V) : option slots :=
  (λ b, <[Z.to_nat b := Some (a, v)]> s) <$> first_free s bs.
End slots.

Abbreviation slots := (λ A, list (option (A * V))).

(** ** Representation *)

Section rep.
Context {A : Type} `{EqDecision A} {key_mem : Z → Prop} `{!BucketLaws K V A key_mem}.

Definition map_size (n : Z) : Z := sizeof_um_header + 4 * ((n + 15) / 16) + Z.of_nat bucket_size * n.
Definition map_span (t : unordered_map) (n : Z) : Z → Prop := span (um_header_ t) (map_size n).

Record um_rep (t : unordered_map) (n iters : Z) (s : slots A) (m : mem) : Prop := {
  ur_n : 0 < n < 2 ^ 31;
  ur_len : Z.of_nat (length s) = n;
  ur_iters : 0 < iters < 2 ^ 31;
  ur_handle : t = {| um_header_ := um_header_ t; um_base_region_ := um_base_region_ t; um_num_buckets_ := n;
                     um_buckets_ := um_header_ t + sizeof_um_header + 4 * ((n + 15) / 16);
                     um_bitmap_ := um_header_ t + sizeof_um_header |};
  ur_region : valid m (um_header_ t) (map_size n);
  ur_num : read 4 (um_header_ t + umh_num_buckets_) m = n;
  ur_max : read 4 (um_header_ t + umh_max_collisions_) m = iters - 1;
  ur_slots : ∀ b, 0 <= b < n →
    match slot s b with
    | None => entry m (um_bitmap_ t) b = EFree
    | Some (a, v) => entry m (um_bitmap_ t) b = EValid ∧
        bucket_rep (um_base_region_ t) (read bucket_size (bucket_addr t b) m) a v m
    end;
  ur_keys : ∀ x, key_mem x → ¬ map_span t n x
}.

(** Where the words of bucket [b] are. *)
Lemma um_layout t n iters s m b :
  um_rep t n iters s m → 0 <= b < n →
  um_num_buckets_ t = n ∧ um_header_ t + 8 <= entry_block_addr (um_bitmap_ t) b ∧
  entry_block_addr (um_bitmap_ t) b + 4 <= um_buckets_ t ∧ um_buckets_ t <= bucket_addr t b ∧
  bucket_addr t b + Z.of_nat bucket_size <= um_header_ t + map_size n.
Proof.
  intros [] Hb. rewrite ur_handle0. unfold entry_block_addr, bucket_addr, map_size. autounfold with layout. simpl.
  assert (0 <= b / 16 ∧ b / 16 + 1 <= (n + 15) / 16) by mod_lia. assert (0 <= Z.of_nat bucket_size * b) by nia.
  assert (Z.of_nat bucket_size * (b + 1) <= Z.of_nat bucket_size * n) by nia. lia.
Qed.

(** Two buckets are apart. *)
Lemma bucket_apart t b j : b ≠ j →
  bucket_addr t b + Z.of_nat bucket_size <= bucket_addr t j ∨ bucket_addr t j + Z.of_nat bucket_size <= bucket_addr t b.
Proof. intros Hne. unfold bucket_addr. nia. Qed.

(** A change of the entry and the bytes of one bucket. *)
Lemma um_rep_update t n iters s m m' b x :
  um_rep t n iters s m → 0 <= b < n →
  (∀ j, 0 <= j < n → j ≠ b → entry m' (um_bitmap_ t) j = entry m (um_bitmap_ t) j) →
  modifies (both (span (entry_block_addr (um_bitmap_ t) b) 4) (span (bucket_addr t b) (Z.of_nat bucket_size))) m m' →
  match x with
  | None => entry m' (um_bitmap_ t) b = EFree
  | Some (a, v) => entry m' (um_bitmap_ t) b = EValid ∧
      bucket_rep (um_base_region_ t) (read bucket_size (bucket_addr t b) m') a v m'
  end →
  um_rep t n iters (<[Z.to_nat b := x]> s) m'.
Proof.
  intros Hr Hb Hoth Hm Hx. pose proof (um_layout _ _ _ _ _ _ Hr Hb) as Hlay. pose proof Hr as [].
  assert (∀ x, key_mem x → ¬ both (span (entry_block_addr (um_bitmap_ t) b) 4)
                                  (span (bucket_addr t b) (Z.of_nat bucket_size)) x) as Hk.
  { intros y Hy HP. apply (ur_keys0 y Hy). unfold map_span, both, span in *. lia. }
  autounfold with layout in *. split; try done; autounfold with layout.
  - by rewrite length_insert.
  - by eapply valid_modifies.
  - rewrite (read_modifies _ _ _ _ _ Hm); [done|]. unfold both, span. simpl. lia.
  - rewrite (read_modifies _ _ _ _ _ Hm); [done|]. unfold both, span. simpl. lia.
  - intros j Hj. destruct (decide (j = b)) as [->|Hne].
    { unfold slot. rewrite list_lookup_insert_eq by lia. exact Hx. }
    unfold slot. rewrite list_lookup_insert_ne by lia. specialize (ur_slots0 j Hj). unfold slot in ur_slots0.
    pose proof (um_layout _ _ _ _ _ _ Hr Hj) as Hlj. pose proof (bucket_apart t b j ltac:(done)).
    destruct (mjoin (s !! Z.to_nat j)) as [[a v]|]; rewrite Hoth by (done || lia); [|done].
    destruct ur_slots0 as [He Hbk]. split; [done|]. eapply bucket_frame; [exact Hm|exact Hk|].
    rewrite (read_modifies _ _ _ _ _ Hm); [done|]. unfold both, span. intros. lia.
Qed.

(** A change elsewhere. *)
Lemma um_rep_frame t n iters s m m' P :
  um_rep t n iters s m → modifies P m m' → (∀ x, map_span t n x → ¬ P x) → (∀ x, key_mem x → ¬ P x) →
  um_rep t n iters s m'.
Proof.
  intros Hr Hm HP Hk. pose proof Hr as []. unfold map_span, span in HP.
  assert (8 <= map_size n) as H8.
  { unfold map_size. autounfold with layout. assert (0 <= (n + 15) / 16) by mod_lia. nia. }
  assert (∀ k p, um_header_ t <= p → p + Z.of_nat k <= um_header_ t + map_size n → read k p m' = read k p m) as Hrd.
  { intros k p H1 H2. apply (read_modifies _ _ _ _ _ Hm). intros a Ha. apply HP. lia. }
  autounfold with layout in *. split; try done; autounfold with layout.
  - by eapply valid_modifies.
  - by rewrite Hrd by (simpl; lia).
  - by rewrite Hrd by (simpl; lia).
  - intros b Hb. pose proof (um_layout _ _ _ _ _ _ Hr Hb) as (_ & L1 & L2 & L3 & L4). specialize (ur_slots0 b Hb).
    assert (entry m' (um_bitmap_ t) b = entry m (um_bitmap_ t) b) as ->.
    { rewrite !entry_word by lia. by rewrite Hrd by (simpl; lia). }
    destruct (slot s b) as [[a v]|]; [|done]. destruct ur_slots0 as [He Hbk]. split; [done|].
    rewrite Hrd by lia. by eapply bucket_frame.
Qed.

Lemma slot_some_insert s b x : slot (A:=A) s b = Some x → <[Z.to_nat b := Some x]> s = s.
Proof. unfold slot. intros H. apply list_insert_id. by destruct (s !! Z.to_nat b) as [[]|]; simplify_eq/=. Qed.

(** ** Probing *)

Lemma probe_app n i j b :
  0 < n → 0 <= b < n → probe n (i + j) b = probe n i b ++ probe n j ((b + Z.of_nat i) mod n).
Proof.
  intros Hn. revert b. induction i as [|i IH]; intros b Hb; simpl.
  - by rewrite Z.add_0_r, Z.mod_small.
  - f_equal. rewrite IH by (apply Z.mod_pos_bound; lia). do 2 f_equal.
    rewrite Zplus_mod_idemp_l. f_equal. lia.
Qed.

Lemma first_used_app (s : slots A) l1 l2 :
  first_used s (l1 ++ l2) = match first_used s l1 with Some x => Some x | None => first_used s l2 end.
Proof. induction l1 as [|b l1 IH]; [done|]. simpl. by destruct (slot s b) as [[]|]. Qed.

Lemma first_used_some (s : slots A) l b a : first_used s l = Some (b, a) → b ∈ l ∧ ∃ v, slot s b = Some (a, v).
Proof.
  induction l as [|b' l IH]; [done|]. simpl. destruct (slot s b') as [[a' v]|] eqn:E; intros H.
  - simplify_eq. split; [left|eauto].
  - destruct (IH H). split; [by right|done].
Qed.

Lemma probe_range n i b x : 0 < n → 0 <= b < n → x ∈ probe n i b → 0 <= x < n.
Proof.
  intros Hn. revert b. induction i as [|i IH]; intros b Hb Hx; [by apply not_elem_of_nil in Hx|].
  apply elem_of_cons in Hx as [->|Hx]; [done|]. eapply IH; [|exact Hx]. apply Z.mod_pos_bound. lia.
Qed.

Lemma first_used_window s n iters d b x :
  0 < n → 0 <= b < n → first_used (A:=A) s (probe n d b) = Some x →
  match first_used s (probe n iters b) with
  | Some y => y = x
  | None => (iters < d)%nat ∧ first_used s (probe n (d - iters) ((b + Z.of_nat iters) mod n)) = Some x
  end.
Proof.
  intros Hn Hb Hx. destruct (decide (iters <= d)%nat) as [Hle|Hgt].
  - replace d with (iters + (d - iters))%nat in Hx by lia. rewrite probe_app, first_used_app in Hx by done.
    destruct (first_used s (probe n iters b)); [by simplify_eq|]. split; [|done].
    destruct (decide (iters = d)) as [->|]; [|lia]. by rewrite Nat.sub_diag in Hx.
  - replace iters with (d + (iters - d))%nat by lia. rewrite probe_app, first_used_app by done. by rewrite Hx.
Qed.

(** The buckets a key may be in. *)
Definition window (n iters : Z) (a : A) : list Z := probe n (Z.to_nat iters) (key_hash a mod n).

Lemma home_bucket n a : 0 < n → 0 <= key_hash a mod n < n.
Proof. intros. by apply Z.mod_pos_bound. Qed.

(** The first bucket in use from the home of the key on, anywhere. *)
Definition next_used (n : Z) (s : slots A) (a : A) : option (Z * A) :=
  first_used s (probe n (Z.to_nat n) (key_hash a mod n)).

(** When nothing is found from a home bucket, nothing is in the map. *)
Lemma next_used_none n s a : 0 < n → Z.of_nat (length s) = n → next_used n s a = None → ∀ b, slot s b = None.
Proof.
  intros Hn Hlen Hu b. unfold slot. destruct (s !! Z.to_nat b) as [x|] eqn:Hx; [|done].
  pose proof (lookup_lt_Some _ _ _ Hx) as Hlt. simpl.
  set (b1 := Z.of_nat (Z.to_nat b)). assert (0 <= b1 < n) as Hb1 by lia.
  assert (∀ l, first_used s l = None → ∀ y, y ∈ l → slot s y = None) as Hall.
  { intros l. induction l as [|y l IH]; intros Hl z Hz; [by apply not_elem_of_nil in Hz|]. simpl in Hl.
    destruct (slot s y) as [[]|] eqn:Ey; [done|]. apply elem_of_cons in Hz as [->|Hz]; [done|auto]. }
  pose proof (home_bucket n a Hn) as Hh. set (h := key_hash a mod n) in *.
  set (i := Z.to_nat ((b1 - h) mod n)). pose proof (Z.mod_pos_bound (b1 - h) n Hn).
  assert (b1 ∈ probe n (Z.to_nat n) h) as Hin.
  { replace (Z.to_nat n) with (i + S (Z.to_nat n - i - 1))%nat by lia. rewrite probe_app by done.
    apply elem_of_app. right. simpl. apply elem_of_cons. left. subst i. rewrite Z2Nat.id by lia.
    rewrite Zplus_mod_idemp_r, Zplus_minus. symmetry. by apply Z.mod_small. }
  pose proof (Hall _ Hu _ Hin) as H0. unfold slot in H0. subst b1. rewrite Nat2Z.id, Hx in H0. done.
Qed.

(** ** Calls on the array *)

Inductive map_res := RSet (ok : bool) | RFind (r : option V) | RRemove (ok : bool).

(** The same calls on the array; [None]: the call does not return. *)
Inductive slot_op := SSet (a : A) (v : V) | SFind (a : A) | SRemove (a : A).

Definition slot_step (n iters : Z) (s : slots A) (op : slot_op) : option (slots A * map_res) :=
  match op with
  | SSet a v =>
      Some (match slots_set s (window n iters a) a v with Some s' => (s', RSet true) | None => (s, RSet false) end)
  | SFind a => Some (s, RFind (first_value s a (window n iters a)))
  | SRemove a =>
      '(b', a') ← next_used n s a;
      Some (if decide (a' = a) then (<[Z.to_nat b' := None]> s, RRemove true) else (s, RRemove false))
  end.

Fixpoint slot_run (n iters : Z) (s : slots A) (ops : list slot_op) : option (slots A * list map_res) :=
  match ops with
  | [] => Some (s, [])
  | op :: ops' =>
      '(s1, r) ← slot_step n iters s op;
      '(s2, rs) ← slot_run n iters s1 ops';
      Some (s2, r :: rs)
  end.

(** ** The map of the first values

    Without removals: [log] is the list of the entries that were accepted. *)

Definition first_set (log : list (A * V)) (a : A) : option V :=
  head (omap (λ e, if decide (e.1 = a) then Some e.2 else None) log).

Inductive log_run (n iters : Z) : list (A * V) → list slot_op → list map_res → Prop :=
| log_nil log : log_run n iters log [] []
| log_set log a v ops rs :
    log_run n iters (log ++ [(a, v)]) ops rs → log_run n iters log (SSet a v :: ops) (RSet true :: rs)
| log_full log a v ops rs :
    Z.min n iters <= Z.of_nat (length log) →
    log_run n iters log ops rs → log_run n iters log (SSet a v :: ops) (RSet false :: rs)
| log_find log a ops rs :
    log_run n iters log ops rs → log_run n iters log (SFind a :: ops) (RFind (first_set log a) :: rs).

Definition used (s : slots A) (b : Z) : Prop := is_Some (slot s b).
#[local] Instance used_dec s b : Decision (used s b).
Proof. unfold used. apply _. Defined.

(** The buckets before the first free one. *)
Fixpoint used_prefix (s : slots A) (l : list Z) : list Z :=
  match l with
  | [] => []
  | b :: l => if slot s b is Some _ then b :: used_prefix s l else []
  end.

Record log_inv (n iters : Z) (s : slots A) (log : list (A * V)) : Prop := {
  li_len : Z.of_nat (length s) = n;
  li_find : ∀ a, first_value s a (window n iters a) = first_set log a;
  li_prefix : ∀ a, first_value s a (used_prefix s (window n iters a)) = first_value s a (window n iters a);
  li_count : length (filter (used s) (seqZ 0 n)) = length log
}.

Lemma first_set_snoc log a v a' :
  first_set (log ++ [(a, v)]) a' =
  match first_set log a' with Some x => Some x | None => if decide (a = a') then Some v else None end.
Proof.
  unfold first_set. rewrite omap_app. simpl. destruct (omap _ log); simpl; [|done]. by destruct (decide (a = a')).
Qed.

Lemma first_value_app (s : slots A) a l1 l2 :
  first_value s a (l1 ++ l2) = match first_value s a l1 with Some x => Some x | None => first_value s a l2 end.
Proof.
  induction l1 as [|b l1 IH]; [done|]. simpl. destruct (slot s b) as [[a' v]|]; [|done]. by destruct (decide (a' = a)).
Qed.

(** The first free bucket and the buckets before it. *)
Lemma first_free_split (s : slots A) l :
  match first_free s l with
  | Some b => ∃ l2, l = used_prefix s l ++ b :: l2 ∧ slot s b = None
  | None => used_prefix s l = l
  end.
Proof.
  induction l as [|b l IH]; [done|]. simpl. destruct (slot s b) as [x|] eqn:E; [|by exists l].
  destruct (first_free s l); [|by f_equal]. destruct IH as (l2 & H & ?). exists l2. split; [|done]. simpl. by f_equal.
Qed.

Lemma used_prefix_used (s : slots A) l b : b ∈ used_prefix s l → used s b.
Proof.
  induction l as [|b' l IH]; simpl; [by intros ?%not_elem_of_nil|].
  destruct (slot s b') eqn:E; [|by intros ?%not_elem_of_nil]. intros [->|H]%elem_of_cons; [|auto]. unfold used. by rewrite E.
Qed.

Lemma used_prefix_rest (s : slots A) l : ∃ l2, l = used_prefix s l ++ l2.
Proof.
  induction l as [|b l [l2 IH]]; [by exists []|]. simpl. destruct (slot s b); [|by exists (b :: l)].
  exists l2. simpl. by f_equal.
Qed.

Section insertion.
Context (s : slots A) (b0 : Z) (a : A) (v : V).
Hypothesis Hb0 : 0 <= b0 < Z.of_nat (length s).
Hypothesis Hfree : slot s b0 = None.
Let s' := <[Z.to_nat b0 := Some (a, v)]> s.

Lemma slot_insert b : 0 <= b → slot s' b = if decide (b = b0) then Some (a, v) else slot s b.
Proof.
  intros Hb. unfold slot. destruct (decide (b = b0)) as [->|Hne].
  - subst s'. by rewrite list_lookup_insert_eq by lia.
  - subst s'. by rewrite list_lookup_insert_ne by lia.
Qed.

(** Another key is looked up as before. *)
Lemma first_value_other a' l : Forall (λ b, 0 <= b) l → a' ≠ a → first_value s' a' l = first_value s a' l.
Proof.
  intros Hl Hne. induction Hl as [|b l Hb Hl IH]; [done|]. simpl. rewrite slot_insert by done. rewrite IH.
  destruct (decide (b = b0)) as [->|]; [|done]. by rewrite Hfree, decide_False.
Qed.

(** Buckets in use are looked up as before. *)
Lemma first_value_used a' l : Forall (λ b, 0 <= b) l → Forall (used s) l → first_value s' a' l = first_value s a' l.
Proof.
  intros Hl Hu. induction Hl as [|b l Hb Hl IH]; [done|]. inversion Hu as [|? ? Hub Hu']; subst. simpl.
  rewrite slot_insert by done. destruct (decide (b = b0)) as [->|]; [|by rewrite IH].
  destruct Hub as [x Hx]. congruence.
Qed.

Lemma used_prefix_grows l : Forall (λ b, 0 <= b) l → ∃ l2, used_prefix s' l = used_prefix s l ++ l2.
Proof.
  intros Hl. induction Hl as [|b l Hb Hl [l2 IH]]; [by exists []|]. simpl. rewrite slot_insert by done.
  destruct (decide (b = b0)) as [->|]; [rewrite Hfree; by eexists|].
  destruct (slot s b); [exists l2; simpl; by f_equal|by exists []].
Qed.

Lemma used_prefix_insert up l2 :
  Forall (λ b, 0 <= b) up → Forall (used s) up → ∃ l3, used_prefix s' (up ++ b0 :: l2) = up ++ b0 :: l3.
Proof.
  intros Hup. induction Hup as [|b up Hb Hup IH]; intros Hu; simpl.
  - rewrite slot_insert by lia. rewrite decide_True by done. by eexists.
  - inversion Hu as [|? ? [x Hx] Hu']; subst. destruct (IH Hu') as [l3 E]. exists l3. rewrite slot_insert by done.
    rewrite E, Hx. by destruct (decide (b = b0)).
Qed.

Lemma used_insert b : 0 <= b → used s' b ↔ b = b0 ∨ used s b.
Proof.
  intros Hb. unfold used. rewrite slot_insert by done. destruct (decide (b = b0)); [|naive_solver].
  split; [by left|]. intros _. by eexists.
Qed.

Lemma count_insert n : Z.of_nat (length s) = n →
  length (filter (used s') (seqZ 0 n)) = S (length (filter (used s) (seqZ 0 n))).
Proof.
  intros Hn. change (S (length (filter (used s) (seqZ 0 n)))) with (length (b0 :: filter (used s) (seqZ 0 n))).
  apply Permutation_length, NoDup_Permutation.
  - apply NoDup_filter, NoDup_seqZ.
  - apply NoDup_cons. split; [|apply NoDup_filter, NoDup_seqZ]. intros [Hu _]%list_elem_of_filter.
    unfold used in Hu. rewrite Hfree in Hu. by destruct Hu.
  - intros x. rewrite elem_of_cons, !list_elem_of_filter, elem_of_seqZ. split.
    + intros [Hu Hx]. apply used_insert in Hu; [|lia]. naive_solver.
    + intros [->|[Hu Hx]]; (split; [apply used_insert; [lia|tauto]|lia]).
Qed.
End insertion.

Lemma window_nonneg n iters a : 0 < n → Forall (λ b, 0 <= b < n) (window n iters a).
Proof. intros Hn. apply Forall_forall. intros b. apply probe_range; [done|]. by apply home_bucket. Qed.

Lemma log_inv_set n iters s log a v s' :
  0 < n → log_inv n iters s log → slots_set s (window n iters a) a v = Some s' → log_inv n iters s' (log ++ [(a, v)]).
Proof.
  intros Hn [] Hs. unfold slots_set in Hs. pose proof (first_free_split s (window n iters a)) as Hsp.
  destruct (first_free s (window n iters a)) as [b0|]; [|done]. simpl in Hs. injection Hs as <-.
  destruct Hsp as (l2 & Hsp & Hfree).
  assert (∀ a', Forall (λ b, 0 <= b) (window n iters a')) as Hpos.
  { intros a'. eapply Forall_impl; [by apply window_nonneg|]. simpl. lia. }
  assert (0 <= b0 < Z.of_nat (length s)) as Hb0.
  { rewrite li_len0. pose proof (window_nonneg n iters a Hn) as Hw. rewrite Hsp in Hw. by decompose_Forall. }
  set (up := used_prefix s (window n iters a)) in *.
  assert (Forall (λ b, 0 <= b) up) as Hup by (pose proof (Hpos a) as Hp; rewrite Hsp in Hp; by decompose_Forall).
  assert (Forall (used s) up) as Huse by (apply Forall_forall; intros b Hb; by eapply used_prefix_used).
  set (s' := <[Z.to_nat b0 := Some (a, v)]> s).
  assert (∀ l, first_value s' a (up ++ b0 :: l) = first_set (log ++ [(a, v)]) a) as Hnew.
  { intros l. rewrite first_value_app, first_set_snoc, <-li_find0, <-li_prefix0. fold up.
    rewrite (first_value_used s b0 a v) by done. destruct (first_value s a up); [done|]. simpl.
    unfold s'. rewrite slot_insert by lia. rewrite decide_True by done. by rewrite !decide_True by done. }
  assert (∀ a', first_value s' a' (window n iters a') = first_set (log ++ [(a, v)]) a') as Hfind.
  { intros a'. destruct (decide (a' = a)) as [->|Hne]; [by rewrite Hsp, Hnew|].
    rewrite first_set_snoc, (decide_False (P:=a = a')) by done. unfold s'. rewrite first_value_other by done.
    rewrite li_find0. by destruct (first_set log a'). }
  split; [by unfold s'; rewrite length_insert|done| |].
  - intros a'. destruct (decide (a' = a)) as [->|Hne].
    + rewrite Hfind. assert (∃ l3, used_prefix s' (window n iters a) = up ++ b0 :: l3) as [l3 ->]; [|by apply Hnew].
      rewrite Hsp. by apply used_prefix_insert.
    + destruct (used_prefix_grows s b0 a v Hb0 Hfree (window n iters a') (Hpos a')) as [l3 Hg]. fold s' in Hg.
      destruct (used_prefix_rest s' (window n iters a')) as [l4 Hr]. rewrite Hr at 2. rewrite first_value_app.
      destruct (first_value s' a' (used_prefix s' (window n iters a'))) as [x|] eqn:Ex; [done|]. symmetry.
      assert (first_value s' a' (window n iters a') = None) as Hnone.
      { unfold s'. rewrite first_value_other by done. rewrite <-li_prefix0.
        rewrite Hg, first_value_app in Ex. destruct (first_value s' a' (used_prefix s (window n iters a'))) eqn:Ey; [done|].
        unfold s' in Ey. rewrite first_value_other in Ey; try done. pose proof (Hpos a') as Hp.
        destruct (used_prefix_rest s (window n iters a')) as [l5 Hr5]. rewrite Hr5 in Hp. by decompose_Forall. }
      rewrite Hr, first_value_app, Ex in Hnone. done.
  - unfold s'. rewrite count_insert by done. rewrite length_app, li_count0. simpl. lia.
Qed.
Lemma probe_lookup n k b i : 0 < n → 0 <= b < n → (i < k)%nat → probe n k b !! i = Some ((b + Z.of_nat i) mod n).
Proof.
  intros Hn. revert b i. induction k as [|k IH]; intros b i Hb Hi; [lia|]. destruct i as [|i]; simpl.
  - by rewrite Z.add_0_r, Z.mod_small.
  - rewrite IH by (try apply Z.mod_pos_bound; lia). rewrite Zplus_mod_idemp_l. do 2 f_equal. lia.
Qed.

Lemma probe_length n k b : length (probe n k b) = k.
Proof. revert b. induction k; intros; simpl; auto. Qed.

(** A map refuses an entry only when the window of its key is full, and a
    window has [min n iters] different buckets. *)
Lemma log_inv_full n iters s log a :
  0 < n → 0 < iters → log_inv n iters s log → first_free s (window n iters a) = None →
  Z.min n iters <= Z.of_nat (length log).
Proof.
  intros Hn Hit [] Hff. pose proof (first_free_split s (window n iters a)) as Hsp. rewrite Hff in Hsp.
  pose proof (home_bucket n a Hn) as Hh. set (h := key_hash a mod n) in *.
  set (k := Z.to_nat (Z.min n iters)).
  assert (window n iters a = probe n k h ++ probe n (Z.to_nat iters - k) ((h + Z.of_nat k) mod n)) as Hw.
  { rewrite <-probe_app by done. unfold window. f_equal. lia. }
  assert (NoDup (probe n k h)) as Hnd.
  { apply NoDup_alt. intros i j x Hi Hj. pose proof (lookup_lt_Some _ _ _ Hi). pose proof (lookup_lt_Some _ _ _ Hj).
    rewrite probe_length in *. rewrite probe_lookup in Hi, Hj by done.
    injection Hi as Hi. injection Hj as Hj. pose proof (mod_window_inj n h (Z.of_nat i) (Z.of_nat j) Hn). lia. }
  rewrite <-li_count0.
  enough (length (probe n k h) <= length (filter (used s) (seqZ 0 n)))%nat as Hlen.
  { rewrite probe_length in Hlen. lia. }
  apply submseteq_length, NoDup_submseteq; [done|]. intros x Hx.
  assert (x ∈ window n iters a) as Hx' by (rewrite Hw; apply elem_of_app; by left).
  apply list_elem_of_filter. split; [apply (used_prefix_used s (window n iters a)); by rewrite Hsp|].
  apply elem_of_seqZ. pose proof (probe_range _ _ _ _ Hn Hh Hx). lia.
Qed.

Lemma log_run_complete n iters ops s log s' rs :
  0 < n → 0 < iters → log_inv n iters s log → Forall (λ op, if op is SRemove _ then False else True) ops →
  slot_run n iters s ops = Some (s', rs) → log_run n iters log ops rs.
Proof.
  intros Hn Hit. revert s log rs. induction ops as [|op ops IH]; intros s log rs Hinv Hops Hrun; simpl in Hrun.
  { injection Hrun as <- <-. constructor. }
  inversion Hops as [|? ? Hop Hops']; subst. destruct op as [a v|a|a]; simpl in *; [| |done].
  - destruct (slots_set s (window n iters a) a v) as [s1|] eqn:Es; simpl in Hrun;
      destruct (slot_run n iters _ ops) as [[s2 rs2]|] eqn:E2; simplify_eq/=.
    + constructor. eapply IH; [by eapply log_inv_set|done..].
    + constructor; [|by eapply IH]. eapply (log_inv_full _ _ _ _ a); [done|done|exact Hinv|].
      unfold slots_set in Es. destruct (first_free s (window n iters a)); [discriminate Es|done].
  - destruct (slot_run n iters s ops) as [[s2 rs2]|] eqn:E2; simplify_eq/=.
    rewrite (li_find _ _ _ _ Hinv). constructor. by eapply IH.
Qed.

Lemma slot_run_total n iters ops s :
  Forall (λ op, if op is SRemove _ then False else True) ops → is_Some (slot_run n iters s ops).
Proof.
  intros Hops. revert s. induction Hops as [|op ops Hop Hops IH]; intros s; [by eexists|]. destruct op as [a v|a|a]; simpl; [| |done].
  - destruct (slots_set s (window n iters a) a v); simpl; [destruct (IH l) as [[] ->]|destruct (IH s) as [[] ->]]; by eexists.
  - destruct (IH s) as [[] ->]; by eexists.
Qed.

Lemma log_inv_empty n iters : 0 < n → log_inv n iters (replicate (Z.to_nat n) None) [].
Proof.
  intros Hn. assert (∀ b, slot (A:=A) (replicate (Z.to_nat n) None) b = None) as Hs.
  { intros b. unfold slot. destruct (_ !! _) as [x|] eqn:E; [|done]. apply lookup_replicate in E as [-> _]. done. }
  assert (∀ a l, first_value (A:=A) (replicate (Z.to_nat n) None) a l = None) as Hf.
  { intros a l. induction l as [|b l IH]; [done|]. simpl. by rewrite Hs. }
  split; [rewrite length_replicate; lia|done|intros; by rewrite !Hf|].
  assert (filter (used (replicate (Z.to_nat n) None)) (seqZ 0 n) = []) as ->; [|done].
  induction (seqZ 0 n) as [|x l IH]; [done|]. rewrite filter_cons_False; [done|]. intros [y Hy]. by rewrite Hs in Hy.
Qed.

(** ** Loops *)

Context (Hfuel : (0 < fuel)%nat).

(** What a call that touches one bucket changes. *)
Lemma bucket_in_map t n iters s m b m' :
  um_rep t n iters s m → 0 <= b < n →
  modifies (both (span (entry_block_addr (um_bitmap_ t) b) 4) (span (bucket_addr t b) (Z.of_nat bucket_size))) m m' →
  modifies (map_span t n) m m'.
Proof.
  intros Hr Hb Hm. pose proof (um_layout _ _ _ _ _ _ Hr Hb). eapply modifies_weaken; [exact Hm|].
  unfold map_span, both, span. lia.
Qed.

Lemma next_bucket n b : 0 < n < 2 ^ 31 → 0 <= b < n → u32 (b + 1) mod n = (b + 1) mod n ∧ 0 <= (b + 1) mod n < n.
Proof. intros. rewrite u32_small by lia. split; [done|]. apply Z.mod_pos_bound. lia. Qed.

(** The insertion of a bucket at a free entry. *)
Lemma insert_spec t n iters s m b bucket a v (next : M bool) :
  um_rep t n iters s m → 0 <= b < n → slot s b = None → bucket_rep (um_base_region_ t) bucket a v m →
  wp (ok ← labstor_bit2map_BeginModify fuel (um_bitmap_ t) b;
      if ok : bool then
        _ ← store bucket_size (bucket_addr t b) bucket;
        _ ← labstor_bit2map_CommitModify fuel (um_bitmap_ t) b;
        mret true
      else next)
     (λ r m', r = true ∧ um_rep t n iters (<[Z.to_nat b := Some (a, v)]> s) m' ∧ modifies (map_span t n) m m') m.
Proof.
  intros Hr Hb Hs Hbk. pose proof (um_layout _ _ _ _ _ _ Hr Hb) as (_ & L1 & L2 & L3 & L4). pose proof Hr as [].
  specialize (ur_slots0 b Hb). rewrite Hs in ur_slots0.
  set (P := both (span (entry_block_addr (um_bitmap_ t) b) 4) (span (bucket_addr t b) (Z.of_nat bucket_size))).
  assert (∀ x, key_mem x → ¬ P x) as Hk.
  { intros y Hy HP. apply (ur_keys0 y Hy). subst P. unfold map_span, both, span in *. lia. }
  assert (valid m (entry_block_addr (um_bitmap_ t) b) 4) as Hv by (apply (valid_sub _ _ _ _ _ ur_region0); lia).
  apply wp_bind. eapply wp_mono; [apply begin_modify_spec; [lia|done..]|].
  intros r m1 H. cbv beta in H. rewrite decide_True in H by done. destruct H as [-> [_ O1 M1]].
  apply wp_bind. apply wp_store; [eapply valid_modifies; [done|apply (valid_sub _ _ _ _ _ ur_region0); lia]|].
  set (m2 := write bucket_size (bucket_addr t b) bucket m1).
  assert (modifies P m m2) as M2.
  { apply modifies_then_write; [|eapply valid_modifies; [done|apply (valid_sub _ _ _ _ _ ur_region0); lia]|subst P; unfold both, span; lia].
    eapply modifies_weaken; [exact M1|]. subst P. unfold both. auto. }
  assert (∀ j, 0 <= j < n → entry m2 (um_bitmap_ t) j = entry m1 (um_bitmap_ t) j) as E2.
  { intros j Hj. pose proof (um_layout _ _ _ _ _ _ Hr Hj) as (_ & K1 & K2 & K3 & K4). rewrite !entry_word by lia.
    subst m2. rewrite read_write_other by (simpl; lia). done. }
  apply wp_bind. eapply wp_mono; [apply commit_modify_spec; [lia| |done]; by eapply valid_modifies|].
  intros _ m3 [E3 O3 M3]. apply wp_ret. split; [done|].
  assert (modifies P m m3) as M4.
  { eapply modifies_trans; [exact M2|]. eapply modifies_weaken; [exact M3|]. subst P. unfold both. auto. }
  split; [|by eapply bucket_in_map]. eapply (um_rep_update _ _ _ _ m); try done.
  - intros j Hj Hne. rewrite O3, E2, O1 by lia. done.
  - split; [done|]. eapply bucket_frame; [exact M4|exact Hk|].
    rewrite (read_modifies _ _ _ _ _ M3); [|unfold span; lia].
    subst m2. rewrite read_write_same, Z.mod_small; [done|]. by eapply bucket_range.
Qed.

(** [BeginModify] on an entry in use changes nothing. *)
Lemma begin_modify_used t n iters s m b x :
  um_rep t n iters s m → 0 <= b < n → slot s b = Some x →
  labstor_bit2map_BeginModify fuel (um_bitmap_ t) b m = Ret false m.
Proof.
  intros Hr Hb Hs. pose proof (um_layout _ _ _ _ _ _ Hr Hb) as (_ & L1 & L2 & L3 & L4). pose proof Hr as [].
  specialize (ur_slots0 b Hb). rewrite Hs in ur_slots0. destruct x as [a v]. destruct ur_slots0 as [He _].
  apply wp_exact. eapply wp_mono; [apply begin_modify_spec; [lia| |done]; apply (valid_sub _ _ _ _ _ ur_region0); lia|].
  intros r m' H. cbv beta in H. by rewrite decide_False in H by (by rewrite He).
Qed.

Lemma set_loop_spec t n iters s m bucket a v k b :
  um_rep t n iters s m → bucket_rep (um_base_region_ t) bucket a v m → 0 <= b < n →
  wp (set_loop t bucket k b)
     (λ r m', match slots_set s (probe n k b) a v with
              | Some s' => r = true ∧ um_rep t n iters s' m'
              | None => r = false ∧ m' = m
              end ∧ modifies (map_span t n) m m') m.
Proof.
  intros Hr Hbk. pose proof (ur_n _ _ _ _ _ Hr). pose proof (ur_handle _ _ _ _ _ Hr) as Hh.
  revert b. induction k as [|k IH]; intros b Hb; simpl.
  { apply wp_ret. split; [done|apply modifies_refl]. }
  unfold slots_set. simpl. destruct (slot s b) as [x|] eqn:Hs.
  - eapply wp_bind_run; [by eapply begin_modify_used|]. cbv beta iota.
    destruct (next_bucket n b) as [E R]; [done..|]. rewrite (f_equal um_num_buckets_ Hh). simpl.
    apply wp_bind, wp_umod; [lia|]. rewrite E. by apply IH.
  - eapply wp_mono; [by apply insert_spec|]. simpl. intros r m' (-> & Hr' & Hm). done.
Qed.

(** Reading a bucket in use and comparing its key. *)
Lemma compare_bucket t n iters s m b a' v k a :
  um_rep t n iters s m → 0 <= b < n → slot s b = Some (a', v) → key_rep k a m →
  ∃ bk, load bucket_size (bucket_addr t b) m = Ret bk m ∧ bucket_GetValue bk (um_base_region_ t) = v ∧
    bucket_rep (um_base_region_ t) bk a' v m ∧
    ∀ m', modifies (span (entry_block_addr (um_bitmap_ t) b) 4) m m' →
      ∃ key', bucket_GetKey bk (um_base_region_ t) m' = Ret key' m' ∧
        bucket_KeyCompare key' k m' = Ret (bool_decide (a' = a)) m'.
Proof.
  intros Hr Hb Hs Hk. pose proof (um_layout _ _ _ _ _ _ Hr Hb) as (_ & L1 & L2 & L3 & L4). pose proof Hr as [].
  specialize (ur_slots0 b Hb). rewrite Hs in ur_slots0. destruct ur_slots0 as [_ Hbk].
  exists (read bucket_size (bucket_addr t b) m). split.
  { unfold load. rewrite (proj2 (validb_valid _ _ _)); [done|]. apply (valid_sub _ _ _ _ _ ur_region0); lia. }
  split; [by eapply bucket_get_value|]. split; [done|]. intros m' Hm.
  assert (∀ x, key_mem x → ¬ span (entry_block_addr (um_bitmap_ t) b) 4 x) as Hkm.
  { intros y Hy HP. apply (ur_keys0 y Hy). unfold map_span, span in *. lia. }
  pose proof (bucket_frame _ _ _ _ _ _ _ Hm Hkm Hbk) as Hbk'. pose proof (key_frame _ _ _ _ _ Hm Hkm Hk) as Hk'.
  destruct (bucket_get_key _ _ _ _ _ Hbk') as (key' & Hget & Hkey').
  exists key'. split; [done|]. by apply bucket_compare.
Qed.

Lemma find_loop_spec t n iters s m k a j b :
  um_rep t n iters s m → key_rep k a m → 0 <= b < n →
  find_loop t k j b m = Ret (first_value s a (probe n j b)) m.
Proof.
  intros Hr Hk. pose proof (ur_n _ _ _ _ _ Hr) as Hn. pose proof (ur_handle _ _ _ _ _ Hr) as Hh.
  revert b. induction j as [|j IH]; intros b Hb; [done|]. simpl.
  pose proof (um_layout _ _ _ _ _ _ Hr Hb) as (_ & L1 & L2 & L3 & L4).
  destruct (next_bucket n b Hn Hb) as [E R].
  assert ((b' ← umod (u32 (b + 1)) (um_num_buckets_ t); find_loop t k j b') m =
          Ret (first_value s a (probe n j ((b + 1) mod n))) m) as Hnext.
  { apply wp_exact, wp_bind. rewrite (f_equal um_num_buckets_ Hh). simpl. apply wp_umod; [lia|]. rewrite E.
    apply wp_run. eexists _, _. split; [by apply IH|done]. }
  pose proof (is_valid_spec (um_bitmap_ t) b m ltac:(lia)) as Hvalid. unfold labstor_bit2map_IsValid in Hvalid.
  erewrite run_bind by (apply Hvalid, (valid_sub _ _ _ _ _ (ur_region _ _ _ _ _ Hr)); lia).
  pose proof (ur_slots _ _ _ _ _ Hr b Hb) as Hsl. destruct (slot s b) as [[a' v]|] eqn:Hs.
  - destruct Hsl as [-> _]. destruct (compare_bucket _ _ _ _ _ _ _ _ _ _ Hr Hb Hs Hk) as (bk & Hld & Hv & _ & Hcmp).
    destruct (Hcmp m (modifies_refl _ _)) as (key' & Hget & Hc).
    rewrite (run_bind _ _ _ _ _ Hld), (run_bind _ _ _ _ _ Hget), (run_bind _ _ _ _ _ Hc). case_bool_decide as Ha; [rewrite decide_True by done|by rewrite decide_False by done].
    by rewrite Hv.
  - by rewrite Hsl.
Qed.

(** [BeginRemove] on a free entry changes nothing. *)
Lemma begin_remove_free t n iters s m b :
  um_rep t n iters s m → 0 <= b < n → slot s b = None →
  labstor_bit2map_BeginRemove fuel (um_bitmap_ t) b m = Ret false m.
Proof.
  intros Hr Hb Hs. pose proof (um_layout _ _ _ _ _ _ Hr Hb) as (_ & L1 & L2 & L3 & L4). pose proof Hr as [].
  specialize (ur_slots0 b Hb). rewrite Hs in ur_slots0.
  apply wp_exact. eapply wp_mono; [apply begin_remove_spec; [lia| |done]; apply (valid_sub _ _ _ _ _ ur_region0); lia|].
  intros r m' H. cbv beta in H. by rewrite decide_False in H by (by rewrite ur_slots0).
Qed.

(** The removal of a bucket, or the comparison that fails. *)
Lemma remove_at_spec t n iters s m b k a a' v (next : M remove_scan) :
  um_rep t n iters s m → 0 <= b < n → slot s b = Some (a', v) → key_rep k a m →
  wp (ok ← labstor_bit2map_BeginRemove fuel (um_bitmap_ t) b;
      if ok : bool then
        bucket ← load bucket_size (bucket_addr t b);
        key' ← bucket_GetKey bucket (um_base_region_ t);
        eq ← bucket_KeyCompare key' k;
        if eq : bool then _ ← labstor_bit2map_CommitRemove (um_bitmap_ t) b; mret Removed
        else _ ← labstor_bit2map_IgnoreRemove fuel (um_bitmap_ t) b; mret (OtherKey b)
      else next)
     (λ r m', (if decide (a' = a) then r = Removed ∧ um_rep t n iters (<[Z.to_nat b := None]> s) m'
               else r = OtherKey b ∧ um_rep t n iters s m') ∧ modifies (map_span t n) m m') m.
Proof.
  intros Hr Hb Hs Hk. pose proof (um_layout _ _ _ _ _ _ Hr Hb) as (_ & L1 & L2 & L3 & L4). pose proof Hr as [].
  pose proof (ur_slots0 b Hb) as Hsl. rewrite Hs in Hsl. destruct Hsl as [He _].
  assert (valid m (entry_block_addr (um_bitmap_ t) b) 4) as Hv by (apply (valid_sub _ _ _ _ _ ur_region0); lia).
  apply wp_bind. eapply wp_mono; [apply begin_remove_spec; [lia|done..]|].
  intros r m1 H. cbv beta in H. rewrite decide_True in H by done. destruct H as [-> [_ O1 M1]].
  destruct (compare_bucket _ _ _ _ _ _ _ _ _ _ Hr Hb Hs Hk) as (bk & Hld & _ & Hbk & Hcmp).
  assert (load bucket_size (bucket_addr t b) m1 = Ret bk m1) as Hld1.
  { unfold load in *. destruct (validb m (bucket_addr t b) bucket_size) eqn:Ev; [|done]. injection Hld as <-.
    apply validb_valid in Ev. rewrite (proj2 (validb_valid _ _ _) (valid_modifies _ _ _ _ _ M1 Ev)).
    rewrite (read_modifies _ _ _ _ _ M1); [done|]. unfold span. lia. }
  destruct (Hcmp m1 M1) as (key' & Hget & Hc).
  eapply wp_bind_run; [exact Hld1|]. eapply wp_bind_run; [exact Hget|]. eapply wp_bind_run; [exact Hc|].
  assert (valid m1 (entry_block_addr (um_bitmap_ t) b) 4) as Hv1 by (by eapply valid_modifies).
  assert (∀ e m2, entry_update (um_bitmap_ t) b e m1 m2 →
    modifies (both (span (entry_block_addr (um_bitmap_ t) b) 4) (span (bucket_addr t b) (Z.of_nat bucket_size))) m m2 ∧
    ∀ j, 0 <= j < n → j ≠ b → entry m2 (um_bitmap_ t) j = entry m (um_bitmap_ t) j) as Hup.
  { intros e m2 [_ O2 M2]. split.
    - eapply modifies_weaken; [exact (modifies_trans _ _ _ _ M1 M2)|]. unfold both. auto.
    - intros j Hj Hne. rewrite O2, O1 by lia. done. }
  case_bool_decide as Ha; destruct (decide (a' = a)); try done.
  - apply wp_bind.
    eapply wp_mono; [apply commit_remove_spec; [lia|done]|]. intros [] m2 Heu. destruct (Hup _ _ Heu) as [HM HO].
    apply wp_ret. split; [split; [done|]|by eapply bucket_in_map].
    eapply (um_rep_update _ _ _ _ _ _ _ None); try done. apply Heu.
  - unfold labstor_bit2map_IgnoreRemove. apply wp_bind.
    eapply wp_mono; [apply commit_modify_spec; [lia|done|done]|]. intros [] m2 Heu. destruct (Hup _ _ Heu) as [HM HO].
    apply wp_ret. split; [split; [done|]|by eapply bucket_in_map].
    rewrite <-(slot_some_insert s b (a', v)) by done. eapply (um_rep_update _ _ _ _ m); try done.
    split; [apply Heu|]. pose proof (modifies_trans _ _ _ _ M1 (eu_mem _ _ _ _ _ Heu)) as M2.
    rewrite (read_modifies _ _ _ _ _ M2) by (unfold span; lia).
    eapply bucket_frame; [exact M2| |].
    + intros y Hy HP. apply (ur_keys0 y Hy). unfold map_span, span in *. lia.
    + unfold load in Hld. destruct (validb m _ _); [|done]. by injection Hld as <-.
Qed.

Lemma scan_loop_spec t n iters s m k a j b :
  um_rep t n iters s m → key_rep k a m → 0 <= b < n →
  wp (scan_loop t k j b)
     (λ r m', match first_used s (probe n j b) with
              | Some (b', a') =>
                  if decide (a' = a) then r = Removed ∧ um_rep t n iters (<[Z.to_nat b' := None]> s) m'
                  else r = OtherKey b' ∧ um_rep t n iters s m'
              | None => r = NoneValid ((b + Z.of_nat j) mod n) ∧ m' = m
              end ∧ modifies (map_span t n) m m') m.
Proof.
  intros Hr Hk. pose proof (ur_n _ _ _ _ _ Hr) as Hn. pose proof (ur_handle _ _ _ _ _ Hr) as Hh.
  revert b. induction j as [|j IH]; intros b Hb.
  { apply wp_ret. rewrite Z.add_0_r, Z.mod_small by done. split; [done|apply modifies_refl]. }
  cbn [scan_loop probe first_used]. destruct (slot s b) as [[a' v]|] eqn:Hs.
  - by apply (remove_at_spec _ _ _ _ _ _ _ _ _ v).
  - eapply wp_bind_run; [by eapply begin_remove_free|]. cbv beta iota.
    destruct (next_bucket n b) as [E R]; [done..|]. rewrite (f_equal um_num_buckets_ Hh). cbn [um_num_buckets_].
    apply wp_bind, wp_umod; [lia|]. rewrite E.
    eapply wp_mono; [by apply IH|]. intros r m' H. cbv beta in H.
    assert (((b + 1) mod n + Z.of_nat j) mod n = (b + Z.of_nat (S j)) mod n) as E'.
    { rewrite Zplus_mod_idemp_l. f_equal. lia. }
    by rewrite E' in H.
Qed.

(** ** The rounds of Remove *)

(** A bucket with another key is tried [iters] times. *)
Lemma remove_fails t n iters s m k a b a' v rounds num_failed :
  um_rep t n iters s m → key_rep k a m → 0 <= b < n → slot s b = Some (a', v) → a' ≠ a →
  0 <= num_failed <= iters → iters - num_failed < Z.of_nat rounds →
  wp (remove_loop t k rounds iters num_failed b)
     (λ r m', r = false ∧ um_rep t n iters s m' ∧ modifies (map_span t n) m m') m.
Proof.
  intros Hr Hk Hb Hs Hne. revert m num_failed Hr Hk.
  induction rounds as [|rounds IH]; intros m num_failed Hr Hk Hf Hrd; [lia|]. simpl.
  destruct (Z.eqb_spec num_failed iters); [apply wp_ret; split; [done|]; split; [done|apply modifies_refl]|].
  apply wp_bind. eapply wp_mono; [by apply scan_loop_spec|]. intros r m1 [H1 M1]. cbv beta in H1.
  assert (∃ i, Z.to_nat iters = S i) as [i Hi] by (exists (Nat.pred (Z.to_nat iters)); lia).
  rewrite Hi in H1. simpl in H1. rewrite Hs, decide_False in H1 by done. destruct H1 as [-> Hr1].
  eapply wp_mono; [apply (IH m1); [done| |lia..]|].
  - eapply key_frame; [exact M1|apply (ur_keys _ _ _ _ _ Hr)|done].
  - intros r m2 (-> & Hr2 & M2). split; [done|]. split; [done|]. by eapply modifies_trans.
Qed.

Lemma remove_loop_spec t n iters s m k a d b b' a' rounds :
  um_rep t n iters s m → key_rep k a m → 0 <= b < n →
  first_used s (probe n d b) = Some (b', a') → Z.of_nat d + iters < Z.of_nat rounds →
  wp (remove_loop t k rounds iters 0 b)
     (λ r m', (if decide (a' = a) then r = true ∧ um_rep t n iters (<[Z.to_nat b' := None]> s) m'
               else r = false ∧ um_rep t n iters s m') ∧ modifies (map_span t n) m m') m.
Proof.
  intros Hr Hk. pose proof (ur_n _ _ _ _ _ Hr). pose proof (ur_iters _ _ _ _ _ Hr).
  revert d b. induction rounds as [|rounds IH]; intros d b Hb Hd Hrd; [lia|]. cbn [remove_loop].
  destruct (Z.eqb_spec 0 iters); [lia|]. apply wp_bind.
  eapply wp_mono; [by apply scan_loop_spec|]. intros r m1 [H1 M1]. cbv beta in H1.
  pose proof (first_used_window s n (Z.to_nat iters) d b _ ltac:(lia) Hb Hd) as Hw.
  destruct (first_used s (probe n (Z.to_nat iters) b)) as [[b1 a1]|] eqn:Hu.
  - injection Hw as -> ->. destruct (decide (a' = a)) as [Ha|Ha]; destruct H1 as [-> Hr1]; [by apply wp_ret|].
    destruct (first_used_some _ _ _ _ Hu) as [Hin [v Hv]].
    eapply wp_mono; [apply (remove_fails t n iters s m1 k a b' a' v); try done; try lia|].
    + eapply key_frame; [exact M1|apply (ur_keys _ _ _ _ _ Hr)|done].
    + eapply probe_range; [|exact Hb|exact Hin]. lia.
    + intros r m2 (-> & Hr2 & M2). split; [done|]. by eapply modifies_trans.
  - destruct H1 as [-> ->]. destruct Hw as [Hlt Hd']. rewrite Z2Nat.id in Hd' |- * by lia.
    eapply IH; [apply Z.mod_pos_bound; lia|exact Hd'|lia].
Qed.

(** In an empty map the loop goes on for ever. *)
Lemma remove_loop_spins t n iters s m k a b rounds :
  um_rep t n iters s m → key_rep k a m → 0 <= b < n → (∀ x, slot s x = None) →
  remove_loop t k rounds iters 0 b m = Spin m.
Proof.
  intros Hr Hk Hb Hs. pose proof (ur_n _ _ _ _ _ Hr). pose proof (ur_iters _ _ _ _ _ Hr). revert b Hb.
  induction rounds as [|rounds IH]; intros b Hb; [done|]. cbn [remove_loop]. destruct (Z.eqb_spec 0 iters); [lia|].
  assert (∀ l, first_used s l = None) as Hn by (intros l; induction l; simpl; by rewrite ?Hs).
  pose proof (scan_loop_spec _ _ _ _ _ _ _ (Z.to_nat iters) b Hr Hk Hb) as Hw. rewrite Hn in Hw.
  apply wp_run in Hw as (r & m1 & E & (-> & ->) & _). rewrite (run_bind _ _ _ _ _ E).
  apply IH, Z.mod_pos_bound. lia.
Qed.

(** ** Operations *)

Lemma map_iters_spec t n iters s m : um_rep t n iters s m → map_iters t m = Ret iters m.
Proof.
  intros []. apply wp_exact. unfold map_iters. autounfold with layout in *.
  assert (8 <= map_size n) by (unfold map_size; autounfold with layout; assert (0 <= (n + 15) / 16) by mod_lia; nia).
  wp_go. rewrite ur_max0. split; [|done]. rewrite u32_small, s32_small; lia.
Qed.

Lemma um_set_spec t n iters s m bucket a v :
  um_rep t n iters s m → bucket_rep (um_base_region_ t) bucket a v m →
  wp (unordered_map_Set t bucket)
     (λ r m', match slots_set s (window n iters a) a v with
              | Some s' => r = true ∧ um_rep t n iters s' m'
              | None => r = false ∧ m' = m
              end ∧ modifies (map_span t n) m m') m.
Proof.
  intros Hr Hbk. pose proof (ur_n _ _ _ _ _ Hr). destruct (bucket_get_key _ _ _ _ _ Hbk) as (k & Hget & Hk).
  unfold unordered_map_Set. eapply wp_bind_run; [by eapply map_iters_spec|]. eapply wp_bind_run; [exact Hget|].
  eapply wp_bind_run; [by apply bucket_hash|]. apply wp_bind. rewrite (f_equal um_num_buckets_ (ur_handle _ _ _ _ _ Hr)).
  apply wp_umod; [simpl; lia|]. apply set_loop_spec; [done..|]. apply home_bucket. lia.
Qed.

Lemma um_find_spec t n iters s m k a :
  um_rep t n iters s m → key_rep k a m →
  unordered_map_Find t k m = Ret (first_value s a (window n iters a)) m.
Proof.
  intros Hr Hk. pose proof (ur_n _ _ _ _ _ Hr). apply wp_exact.
  unfold unordered_map_Find. eapply wp_bind_run; [by eapply map_iters_spec|].
  eapply wp_bind_run; [by apply bucket_hash|]. apply wp_bind. rewrite (f_equal um_num_buckets_ (ur_handle _ _ _ _ _ Hr)).
  apply wp_umod; [simpl; lia|]. apply wp_run. eexists _, _. split; [|done]. eapply find_loop_spec; [done..|].
  apply home_bucket. lia.
Qed.

Lemma um_remove_spec t n iters s m k a b' a' :
  um_rep t n iters s m → key_rep k a m → next_used n s a = Some (b', a') → n + iters < Z.of_nat fuel →
  wp (unordered_map_Remove t k)
     (λ r m', (if decide (a' = a) then r = true ∧ um_rep t n iters (<[Z.to_nat b' := None]> s) m'
               else r = false ∧ um_rep t n iters s m') ∧ modifies (map_span t n) m m') m.
Proof.
  intros Hr Hk Hu Hf. pose proof (ur_n _ _ _ _ _ Hr). unfold unordered_map_Remove.
  eapply wp_bind_run; [by apply bucket_hash|]. apply wp_bind. rewrite (f_equal um_num_buckets_ (ur_handle _ _ _ _ _ Hr)).
  apply wp_umod; [simpl; lia|]. eapply wp_bind_run; [by eapply map_iters_spec|].
  eapply remove_loop_spec; [done..| |exact Hu|lia]. apply home_bucket. lia.
Qed.

Lemma um_remove_spins t n iters s m k a :
  um_rep t n iters s m → key_rep k a m → (∀ b, slot s b = None) → unordered_map_Remove t k m = Spin m.
Proof.
  intros Hr Hk Hs. pose proof (ur_n _ _ _ _ _ Hr). unfold unordered_map_Remove.
  rewrite (run_bind _ _ _ _ _ (bucket_hash _ _ _ _ Hk)). rewrite (f_equal um_num_buckets_ (ur_handle _ _ _ _ _ Hr)).
  erewrite run_bind by (apply wp_exact, wp_umod; [simpl; lia|]; done).
  rewrite (run_bind _ _ _ _ _ (map_iters_spec _ _ _ _ _ Hr)). eapply remove_loop_spins; [done..| |done].
  apply home_bucket. simpl. lia.
Qed.

(** An initialised map is empty. *)
Lemma um_init_spec base_region region region_size n max_collisions m :
  0 < n < 2 ^ 31 → 0 <= max_collisions < 2 ^ 31 - 1 → map_size n <= region_size → map_size n < 2 ^ 32 →
  valid m region region_size → (∀ x, key_mem x → ¬ span region (map_size n) x) →
  wp (unordered_map_Init base_region region region_size n max_collisions)
     (λ t m', um_header_ t = region ∧ um_base_region_ t = base_region ∧
        um_rep t n (max_collisions + 1) (replicate (Z.to_nat n) None) m' ∧ modifies (span region (map_size n)) m m') m.
Proof.
  intros Hn Hmc Hfit Hsz Hv Hkeys. unfold unordered_map_Init, unordered_map_GetSize_global, unordered_map_GetHeaderSize.
  rewrite bit2map_size by lia. unfold map_size in *. autounfold with layout in *.
  assert (0 <= (n + 15) / 16) as H0 by mod_lia. assert (0 <= Z.of_nat bucket_size * n) by nia.
  rewrite (u32_small (8 + 4 * _)), u32_small by lia. rewrite (proj2 (Z.ltb_ge _ _)) by lia.
  rewrite (proj2 (Z.eqb_neq n 0)) by lia. rewrite (proj2 (Z.eqb_neq n 0)) by lia.
  do 5 wp_step. wp_step. mem_simpl. apply wp_bind.
  eapply wp_mono; [apply bit2map_init_free; [lia|]; rewrite bit2map_size by lia; vsolve|].
  rewrite bit2map_size by lia. intros [] m' [Hfree Hm]. apply wp_ret. simpl. split; [done|]. split; [done|].
  set (m2 := write 4 (region + 4) max_collisions (write 4 (region + 0) n m)) in *.
  assert (modifies (span region (8 + 4 * ((n + 15) / 16) + Z.of_nat bucket_size * n)) m m2) as Hm2 by (subst m2; msolve).
  split.
  - split; autounfold with layout; simpl; try done; try lia.
    + by rewrite length_replicate, Z2Nat.id by lia.
    + unfold labstor_bit2map_GetNextSection. by rewrite bit2map_size by lia.
    + apply (valid_sub _ region region_size); [|unfold map_size; autounfold with layout; lia..].
      eapply valid_modifies; [exact Hm|]. by eapply valid_modifies.
    + rewrite (read_modifies _ _ _ _ _ Hm) by (unfold span; simpl; lia). subst m2. by mem_simpl.
    + rewrite (read_modifies _ _ _ _ _ Hm) by (unfold span; simpl; lia). subst m2. mem_simpl. lia.
    + intros b Hb. unfold slot. rewrite lookup_replicate_2 by lia. simpl. by apply Hfree.
  - eapply modifies_trans; [exact Hm2|]. eapply modifies_weaken; [exact Hm|]. unfold span. lia.
Qed.

(** Another process finds the same map. *)
Lemma um_attach_spec t n iters s m :
  um_rep t n iters s m → unordered_map_Attach (um_base_region_ t) (um_header_ t) m = Ret t m.
Proof.
  intros []. apply wp_exact. unfold unordered_map_Attach. autounfold with layout in *.
  assert (8 <= map_size n) by (unfold map_size; autounfold with layout; assert (0 <= (n + 15) / 16) by mod_lia; nia).
  wp_go. rewrite ur_num0. split; [|done]. unfold labstor_bit2map_GetNextSection. rewrite bit2map_size by lia.
  by rewrite ur_handle0.
Qed.

(** ** Sequences of calls *)

Inductive map_op := MSet (bucket : Z) | MFind (k : K) | MRemove (k : K).
Definition map_step (t : unordered_map) (op : map_op) : M map_res :=
  match op with
  | MSet bucket => ok ← unordered_map_Set t bucket; mret (RSet ok)
  | MFind k => r ← unordered_map_Find t k; mret (RFind r)
  | MRemove k => ok ← unordered_map_Remove t k; mret (RRemove ok)
  end.

Fixpoint map_run (t : unordered_map) (ops : list map_op) : M (list map_res) :=
  match ops with
  | [] => mret []
  | op :: ops' => r ← map_step t op; rs ← map_run t ops'; mret (r :: rs)
  end.

(** The arguments of a call stand for those of the abstract one. *)
Definition op_rep (base : Z) (m : mem) (op : map_op) (sop : slot_op) : Prop :=
  match op, sop with
  | MSet bucket, SSet a v => bucket_rep base bucket a v m
  | MFind k, SFind a => key_rep k a m
  | MRemove k, SRemove a => key_rep k a m
  | _, _ => False
  end.

Lemma op_rep_frame base op sop m m' P :
  modifies P m m' → (∀ x, key_mem x → ¬ P x) → op_rep base m op sop → op_rep base m' op sop.
Proof. intros Hm HP. destruct op, sop; simpl; try done; eauto using key_frame, bucket_frame. Qed.

Lemma map_step_refines t n iters s m op sop :
  um_rep t n iters s m → op_rep (um_base_region_ t) m op sop → n + iters < Z.of_nat fuel →
  match slot_step n iters s sop with
  | Some (s', r) => wp (map_step t op) (λ r' m', r' = r ∧ um_rep t n iters s' m' ∧ modifies (map_span t n) m m') m
  | None => map_step t op m = Spin m
  end.
Proof.
  intros Hr Hop Hf. pose proof (ur_n _ _ _ _ _ Hr). destruct op as [bucket|k|k], sop as [a v|a|a]; simpl in *; try done.
  - pose proof (um_set_spec _ _ _ _ _ _ _ _ Hr Hop) as Hs.
    destruct (slots_set s (window n iters a) a v) as [s'|]; apply wp_bind; (eapply wp_mono; [exact Hs|]);
      intros r m' [[-> Hr'] Hm]; apply wp_ret; [done|]. subst m'. split; [done|]. split; [done|apply modifies_refl].
  - eapply wp_bind_run; [by eapply um_find_spec|]. apply wp_ret. split; [done|]. split; [done|apply modifies_refl].
  - destruct (next_used n s a) as [[b' a']|] eqn:Hu; simpl.
    + pose proof (um_remove_spec _ _ _ _ _ _ _ _ _ Hr Hop Hu Hf) as Hs.
      destruct (decide (a' = a)); apply wp_bind; (eapply wp_mono; [exact Hs|]); intros r m' [[-> Hr'] Hm]; by apply wp_ret.
    + unfold mbind, M_bind. erewrite um_remove_spins; [done|exact Hr|exact Hop|].
      eapply next_used_none; [|exact (ur_len _ _ _ _ _ Hr)|exact Hu]. lia.
Qed.

Lemma map_run_refines t n iters ops sops s m :
  um_rep t n iters s m → Forall2 (op_rep (um_base_region_ t) m) ops sops → n + iters < Z.of_nat fuel →
  match slot_run n iters s sops with
  | Some (s', rs) => wp (map_run t ops) (λ rs' m', rs' = rs ∧ um_rep t n iters s' m' ∧ modifies (map_span t n) m m') m
  | None => ∃ m', map_run t ops m = Spin m'
  end.
Proof.
  intros Hr Hops Hf. revert s m Hr Hops. revert sops.
  induction ops as [|op ops IH]; intros sops s m Hr Hops; inversion Hops as [|? sop ? sops' Hop Hops' E1 E2]; subst; simpl.
  { apply wp_ret. split; [done|]. split; [done|apply modifies_refl]. }
  pose proof (map_step_refines _ _ _ _ _ _ _ Hr Hop Hf) as Hstep.
  destruct (slot_step n iters s sop) as [[s1 r]|]; simpl.
  2: { exists m. unfold mbind, M_bind. by rewrite Hstep. }
  apply wp_run in Hstep as (r' & m1 & E & -> & Hr1 & M1).
  assert (Forall2 (op_rep (um_base_region_ t) m1) ops sops') as Hops1.
  { eapply Forall2_impl; [exact Hops'|]. intros. eapply op_rep_frame; [exact M1|apply (ur_keys _ _ _ _ _ Hr)|done]. }
  specialize (IH _ _ _ Hr1 Hops1). destruct (slot_run n iters s1 sops') as [[s2 rs]|]; simpl.
  - eapply wp_bind_run; [exact E|]. apply wp_bind. eapply wp_mono; [exact IH|].
    intros rs' m' (-> & Hr2 & M2). apply wp_ret. split; [done|]. split; [done|]. by eapply modifies_trans.
  - destruct IH as [m' E']. exists m'. rewrite (run_bind _ _ _ _ _ E). unfold mbind at 1, M_bind at 1. by rewrite E'.
Qed.


(** The hash map implements its array of entries: for every sequence of Set, Find and Remove on an initialised map, each call gives the result it
    has on the array.  Set takes the first free bucket of the window of its
    key and fails when there is none; Find returns the first entry of the
    window with the key; Remove looks only at the first bucket in use at or
    after the home of its key, and does not return when no bucket is in use.
    Nothing outside the map changes. *)
Theorem unordered_map_refines base_region region region_size n max_collisions ops sops m :
  0 < n < 2 ^ 31 → 0 <= max_collisions < 2 ^ 31 - 1 → map_size n <= region_size → map_size n < 2 ^ 32 →
  valid m region region_size → (∀ x, key_mem x → ¬ span region (map_size n) x) →
  Forall2 (op_rep base_region m) ops sops → n + max_collisions + 1 < Z.of_nat fuel →
  match slot_run n (max_collisions + 1) (replicate (Z.to_nat n) None) sops with
  | Some (_, rs) =>
      wp (t ← unordered_map_Init base_region region region_size n max_collisions; map_run t ops)
         (λ rs' m', rs' = rs ∧ modifies (span region (map_size n)) m m') m
  | None => ∃ m', (t ← unordered_map_Init base_region region region_size n max_collisions; map_run t ops) m = Spin m'
  end.
Proof.
  intros Hn Hmc Hfit Hsz Hv Hkeys Hops Hf.
  pose proof (um_init_spec base_region region region_size n max_collisions m Hn Hmc Hfit Hsz Hv Hkeys) as Hi.
  apply wp_run in Hi as (t & m1 & E & Ht & Hb & Hr & M1).
  assert (Forall2 (op_rep (um_base_region_ t) m1) ops sops) as Hops1.
  { rewrite Hb. eapply Forall2_impl; [exact Hops|]. intros. by eapply op_rep_frame. }
  pose proof (map_run_refines _ _ _ _ _ _ _ Hr Hops1 ltac:(lia)) as Hrun.
  destruct (slot_run n (max_collisions + 1) _ sops) as [[s' rs]|].
  - eapply wp_bind_run; [exact E|]. eapply wp_mono; [exact Hrun|]. intros rs' m' (-> & _ & M2). split; [done|].
    eapply modifies_trans; [exact M1|]. unfold map_span in M2. by rewrite Ht in M2.
  - destruct Hrun as [m' E']. exists m'. by rewrite (run_bind _ _ _ _ _ E).
Qed.

(** C19. Without removals the hash map is a map in which the first value set
    for a key stays: after any sequence of Set and Find on an initialised map,
    every Find returns the value of the first accepted Set of an equal key,
    none when there is none, and a Set is refused only when at least
    [min n (max_collisions + 1)] entries are in the map.  Sequences with
    Remove are not covered: Remove does not find a key behind a collision
    (MapBuckets.v, [remove_behind_collision]). *)
Theorem unordered_map_first_value base_region region region_size n max_collisions ops sops m :
  0 < n < 2 ^ 31 → 0 <= max_collisions < 2 ^ 31 - 1 → map_size n <= region_size → map_size n < 2 ^ 32 →
  valid m region region_size → (∀ x, key_mem x → ¬ span region (map_size n) x) →
  Forall2 (op_rep base_region m) ops sops → n + max_collisions + 1 < Z.of_nat fuel →
  Forall (λ op, if op is SRemove _ then False else True) sops →
  wp (t ← unordered_map_Init base_region region region_size n max_collisions; map_run t ops)
     (λ rs m', log_run n (max_collisions + 1) [] sops rs) m.
Proof.
  intros Hn Hmc Hfit Hsz Hv Hkeys Hops Hf Hnr.
  pose proof (um_init_spec base_region region region_size n max_collisions m Hn Hmc Hfit Hsz Hv Hkeys) as Hi.
  apply wp_run in Hi as (t & m1 & E & Ht & Hb & Hr & M1).
  assert (Forall2 (op_rep (um_base_region_ t) m1) ops sops) as Hops1.
  { rewrite Hb. eapply Forall2_impl; [exact Hops|]. intros. by eapply op_rep_frame. }
  pose proof (map_run_refines _ _ _ _ _ _ _ Hr Hops1 ltac:(lia)) as Hrun.
  destruct (slot_run_total n (max_collisions + 1) sops (replicate (Z.to_nat n) None) Hnr) as [[s' rs] Es].
  rewrite Es in Hrun. eapply wp_bind_run; [exact E|]. eapply wp_mono; [exact Hrun|]. intros rs' m' (-> & _ & _).
  eapply log_run_complete; [| |apply log_inv_empty|exact Hnr|exact Es]; lia.
Qed.
End rep.
End map.
