(* ===== verification/ShmemString.v ===== *)
(** * ShmemString.v: strings in shared memory

    types/data_structures/shmem_string.h: a length, the characters and a
    terminating 0 in a region that several processes map.  A C++ string is
    the list of its bytes. *)

From S2P Require Import Prelude Memory.

Local Open Scope Z_scope.

(** [string_header]. *)
Definition sh_length_ : Z := 0.
Definition sizeof_string_header : Z := 4.
#[export] Hint Unfold sh_length_ sizeof_string_header : layout.

Record ipc_string := { str_header_ : Z; str_data_ : Z; str_length_ : Z }.

(** ** Operations *)

Definition string_null : ipc_string := {| str_header_ := 0; str_data_ := 0; str_length_ := 0 |}.

Definition string_GetRegion (s : ipc_string) : Z := str_header_ s.
Definition string_c_str (s : ipc_string) : Z := str_data_ s.
Definition string_size (s : ipc_string) : Z := str_length_ s.

(** [memcpy] of the bytes of a C++ string. *)
Fixpoint store_bytes (p : Z) (bytes : list Z) : M unit :=
  match bytes with
  | [] => mret tt
  | c :: bytes' => _ ← store8 p c; store_bytes (p + 1) bytes'
  end.

Definition string_Init (region : Z) (str : list Z) : M ipc_string :=
  let data := region + sizeof_string_header in
  _ ← store_bytes data str;
  _ ← store32 (region + sh_length_) (u32 (Z.of_nat (length str)));
  length_ ← load32 (region + sh_length_);
  _ ← store8 (data + length_) 0;
  mret {| str_header_ := region; str_data_ := data; str_length_ := length_ |}.

(** The constructor that takes an allocator: [str.size()] bytes are asked
    for. *)
Definition string_new (Alloc : Z → M Z) (str : list Z) : M ipc_string :=
  header ← Alloc (Z.of_nat (length str));
  _ ← store32 (header + sh_length_) (u32 (Z.of_nat (length str)));
  length_ ← load32 (header + sh_length_);
  let data := header + sizeof_string_header in
  _ ← store_bytes data str;
  _ ← store8 (data + length_) 0;
  mret {| str_header_ := header; str_data_ := data; str_length_ := length_ |}.

Definition string_Attach (region : Z) : M ipc_string :=
  length_ ← load32 (region + sh_length_);
  mret {| str_header_ := region; str_data_ := region + sizeof_string_header; str_length_ := length_ |}.

(** The constructors from characters leave [header_] as it is. *)
Definition string_of_chars (header str length : Z) : ipc_string :=
  {| str_header_ := header; str_data_ := str; str_length_ := u32 length |}.

Fixpoint load_bytes (p : Z) (n : nat) : M (list Z) :=
  match n with
  | O => mret []
  | S n' => c ← load8 p; l ← load_bytes (p + 1) n'; mret (c :: l)
  end.

Definition string_ToString (s : ipc_string) : M (list Z) := load_bytes (str_data_ s) (Z.to_nat (string_size s)).

(** [memcmp(p, q, n) == 0]. *)
Fixpoint memcmp_eq (p q : Z) (n : nat) : M bool :=
  match n with
  | O => mret true
  | S n' => x ← load8 p; y ← load8 q; r ← memcmp_eq (p + 1) (q + 1) n'; mret ((x =? y) && r)
  end.

Definition string_eq (s str : ipc_string) : M bool :=
  if negb (string_size str =? string_size s) then mret false
  else memcmp_eq (str_data_ s) (string_c_str str) (Z.to_nat (string_size s)).

(** [operator !=]. *)
Definition string_ne (s str : ipc_string) : M bool :=
  if negb (string_size str =? string_size s) then mret false
  else r ← memcmp_eq (str_data_ s) (string_c_str str) (Z.to_nat (string_size s)); mret (negb r).

(** A [char] is signed. *)
Definition s8 (c : Z) : Z := if c <? 128 then c else c - 256.

Fixpoint hash_loop (key : Z) (n : nat) (i sum : Z) : M Z :=
  match n with
  | O => mret sum
  | S n' =>
      c ← load8 (key + i);
      hash_loop key n' (i + 1) (u32 (sum + s8 c * 2 ^ (4 * (i mod 4))))
  end.

Definition string_hash (key length : Z) : M Z := hash_loop key (Z.to_nat length) 0 0.
Definition string_Hash (s : ipc_string) : M Z := string_hash (string_c_str s) (string_size s).

(** ** Bytes in memory *)

(** The bytes [l] are stored from [p] on. *)
Definition bytes_at (p : Z) (l : list Z) (m : mem) : Prop :=
  Forall (λ c, 0 <= c < 256) l ∧ ∀ i x, l !! i = Some x → m !! (p + Z.of_nat i) = Some x.

Lemma bytes_at_nil p m : bytes_at p [] m.
Proof. split; [constructor|]. done. Qed.

Lemma bytes_at_cons p c l m : bytes_at p (c :: l) m ↔ (0 <= c < 256 ∧ m !! p = Some c) ∧ bytes_at (p + 1) l m.
Proof.
  split.
  - intros [Hr Hl]. inversion Hr; subst. split; [split; [done|]|split; [done|]].
    + specialize (Hl 0%nat c eq_refl). by rewrite Z.add_0_r in Hl.
    + intros i x Hi. rewrite <-(Hl (S i) x Hi). f_equal. lia.
  - intros [[Hc Hp] [Hr Hl]]. split; [by constructor|]. intros [|i] x Hi; simpl in Hi.
    + simplify_eq. by rewrite Z.add_0_r.
    + rewrite <-(Hl i x Hi). f_equal. lia.
Qed.

Lemma bytes_at_frame p l m m' P :
  modifies P m m' → (∀ a, p <= a < p + Z.of_nat (length l) → ¬ P a) → bytes_at p l m → bytes_at p l m'.
Proof.
  intros Hm HP [Hr Hl]. split; [done|]. intros i x Hi. pose proof (lookup_lt_Some _ _ _ Hi).
  destruct (Hm (p + Z.of_nat i)) as [_ ->]; [by apply Hl|apply HP; lia].
Qed.

Lemma load8_byte p c m : 0 <= c < 256 → m !! p = Some c → load8 p m = Ret c m.
Proof.
  intros Hc Hp. unfold load, validb, read. rewrite Hp. f_equal. change (default 0 (Some c)) with c. rewrite Z.mod_small by lia. lia.
Qed.

Lemma store_bytes_spec p l m :
  valid m p (Z.of_nat (length l)) → Forall (λ c, 0 <= c < 256) l →
  wp (store_bytes p l) (λ _ m', bytes_at p l m' ∧ modifies (span p (Z.of_nat (length l))) m m') m.
Proof.
  intros Hv Hl. revert p m Hv. induction Hl as [|c l Hc Hl IH]; intros p m Hv; simpl.
  { apply wp_ret. split; [apply bytes_at_nil|apply modifies_refl]. }
  simpl in Hv. apply wp_bind, wp_store; [by apply (valid_sub _ _ _ _ _ Hv); lia|].
  eapply wp_mono; [apply IH, valid_write, (valid_sub _ _ _ _ _ Hv); lia|]. intros [] m' [Hb Hm]. split.
  - apply bytes_at_cons. split; [|done]. split; [done|].
    destruct (Hm p) as [_ ->]; [|unfold span; lia].
    rewrite lookup_write, decide_True, Z.sub_diag, Z.div_1_r by lia. f_equal. mod_lia.
  - eapply modifies_trans; [apply (modifies_write _ 1 p c); [by apply (valid_sub _ _ _ _ _ Hv); lia|unfold span; lia]|].
    eapply modifies_weaken; [exact Hm|]. unfold span. lia.
Qed.

Lemma load_bytes_spec p l m : bytes_at p l m → load_bytes p (length l) m = Ret l m.
Proof.
  revert p. induction l as [|c l IH]; intros p Hl; [done|]. apply bytes_at_cons in Hl as [[Hc Hp] Hl]. simpl.
  rewrite (run_bind _ _ _ _ _ (load8_byte _ _ _ Hc Hp)). by rewrite (run_bind _ _ _ _ _ (IH _ Hl)).
Qed.

Lemma memcmp_eq_spec p q l k m :
  bytes_at p l m → bytes_at q k m → length l = length k →
  memcmp_eq p q (length l) m = Ret (bool_decide (l = k)) m.
Proof.
  revert p q k. induction l as [|c l IH]; intros p q [|d k] Hl Hk Hlen; try done.
  apply bytes_at_cons in Hl as [[Hc Hp] Hl]. apply bytes_at_cons in Hk as [[Hd Hq] Hk]. simpl.
  rewrite (run_bind _ _ _ _ _ (load8_byte _ _ _ Hc Hp)), (run_bind _ _ _ _ _ (load8_byte _ _ _ Hd Hq)).
  simpl in Hlen. rewrite (run_bind _ _ _ _ _ (IH _ _ _ Hl Hk ltac:(lia))). unfold mret, M_ret. f_equal.
  destruct (Z.eqb_spec c d) as [->|Hne]; simpl; repeat case_bool_decide; congruence.
Qed.

(** The hash of a list of characters. *)
Fixpoint chars_hash (l : list Z) (i sum : Z) : Z :=
  match l with
  | [] => sum
  | c :: l' => chars_hash l' (i + 1) (u32 (sum + s8 c * 2 ^ (4 * (i mod 4))))
  end.

Lemma hash_loop_spec key l i sum m :
  bytes_at (key + i) l m → hash_loop key (length l) i sum m = Ret (chars_hash l i sum) m.
Proof.
  revert i sum. induction l as [|c l IH]; intros i sum Hl; [done|]. apply bytes_at_cons in Hl as [[Hc Hp] Hl]. simpl.
  rewrite (run_bind _ _ _ _ _ (load8_byte _ _ _ Hc Hp)). apply IH. by rewrite Z.add_assoc.
Qed.

Lemma chars_hash_range l i sum : 0 <= sum < 2 ^ 32 → 0 <= chars_hash l i sum < 2 ^ 32.
Proof. revert i sum. induction l as [|c l IH]; intros i sum Hs; simpl; [done|]. apply IH, u32_range. Qed.

(** ** Strings *)

(** The string has the characters [l]. *)
Record string_rep (s : ipc_string) (l : list Z) (m : mem) : Prop := {
  sr_length : str_length_ s = Z.of_nat (length l);
  sr_bytes : bytes_at (str_data_ s) l m
}.

(** A string with a header at [p]. *)
Record string_at (p : Z) (l : list Z) (m : mem) : Prop := {
  sa_header : read 4 p m = Z.of_nat (length l);
  sa_valid : valid m p 4;
  sa_bytes : bytes_at (p + sizeof_string_header) l m
}.

Lemma string_eq_spec s str l k m :
  string_rep s l m → string_rep str k m → string_eq s str m = Ret (bool_decide (l = k)) m.
Proof.
  intros [Hl Hlb] [Hk Hkb]. unfold string_eq, string_size, string_c_str. rewrite Hl, Hk.
  destruct (Z.eqb_spec (Z.of_nat (length k)) (Z.of_nat (length l))) as [E|E]; simpl.
  - rewrite Nat2Z.id. apply memcmp_eq_spec; [done..|lia].
  - unfold mret, M_ret. f_equal. symmetry. apply bool_decide_eq_false. intros ->. done.
Qed.

Lemma string_hash_spec s l m :
  string_rep s l m → string_hash (string_c_str s) (string_size s) m = Ret (chars_hash l 0 0) m.
Proof.
  intros [Hl Hb]. unfold string_hash, string_c_str, string_size. rewrite Hl, Nat2Z.id. apply hash_loop_spec.
  by rewrite Z.add_0_r.
Qed.

Lemma string_attach_spec p l m :
  string_at p l m → ∃ s, string_Attach p m = Ret s m ∧ str_header_ s = p ∧ str_data_ s = p + 4 ∧ string_rep s l m.
Proof.
  intros [Hh Hv Hb]. eexists. split.
  - apply wp_exact. unfold string_Attach. autounfold with layout. rewrite Z.add_0_r. wp_go. rewrite Hh. done.
  - split; [done|]. split; [done|]. split; done.
Qed.

Lemma string_init_spec region str m :
  valid m region (Z.of_nat (length str) + 5) → Forall (λ c, 0 <= c < 256) str → Z.of_nat (length str) < 2 ^ 32 →
  wp (string_Init region str)
     (λ s m', s = {| str_header_ := region; str_data_ := region + 4; str_length_ := Z.of_nat (length str) |} ∧
        string_at region str m' ∧ modifies (span region (Z.of_nat (length str) + 5)) m m') m.
Proof.
  intros Hv Hc Hl. unfold string_Init. autounfold with layout. apply wp_bind.
  eapply wp_mono; [apply store_bytes_spec; [apply (valid_sub _ _ _ _ _ Hv); lia|done]|]. intros [] m1 [Hb M1].
  assert (valid m1 region (Z.of_nat (length str) + 5)) as Hv1 by (by eapply valid_modifies).
  rewrite u32_small by lia. do 3 wp_step. wp_step. mem_simpl. wp_step. wp_step. wp_step. rewrite Z.add_0_r.
  set (n := Z.of_nat (length str)) in *.
  assert (modifies (both (span region 4) (span (region + 4 + n) 1)) m1
            (write 1 (region + 4 + n) 0 (write 4 region n m1))) as M2.
  { apply modifies_then_write; [apply modifies_write; [vsolve|unfold both, span; simpl; lia]|vsolve|unfold both, span; simpl; lia]. }
  split; [done|]. split.
  - split; autounfold with layout; [mem_simpl; done|vsolve|].
    eapply bytes_at_frame; [exact M2| |done]. unfold both, span. intros; lia.
  - eapply modifies_trans; [eapply modifies_weaken; [exact M1|unfold span; lia]|].
    eapply modifies_weaken; [exact M2|unfold both, span; lia].
Qed.

(** C21. A string written into shared memory is the string another process
    reads: attaching to it gives the same characters and the same hash, and
    comparison with any other string tells whether the characters are the
    same. *)
Theorem shmem_string_shared region str other chars m :
  valid m region (Z.of_nat (length str) + 5) → Forall (λ c, 0 <= c < 256) str → Z.of_nat (length str) < 2 ^ 32 →
  string_rep other chars m →
  (∀ a, str_data_ other <= a < str_data_ other + str_length_ other → ¬ span region (Z.of_nat (length str) + 5) a) →
  wp (s ← string_Init region str; s' ← string_Attach region;
      r ← string_ToString s'; h ← string_Hash s'; e ← string_eq s' other; mret (s, s', r, h, e))
     (λ x _, ∃ s, x = (s, s, str, chars_hash str 0 0, bool_decide (str = chars))) m.
Proof.
  intros Hv Hc Hl Ho Hsep. apply wp_bind. eapply wp_mono; [by apply string_init_spec|].
  intros s m1 (-> & Hat & M1).
  assert (string_rep other chars m1) as Ho1.
  { destruct Ho as [Hlen Hb]. split; [done|]. eapply bytes_at_frame; [exact M1| |done]. by rewrite <-Hlen. }
  assert (string_Attach region m1 =
    Ret {| str_header_ := region; str_data_ := region + 4; str_length_ := Z.of_nat (length str) |} m1) as Ha.
  { destruct (string_attach_spec _ _ _ Hat) as ([h d n] & Ha & Hh & Hd & [Hn _]). simpl in *. subst h d n.
    destruct Hat as [Hhd Hhv _]. unfold string_Attach in Ha |- *. apply wp_exact. autounfold with layout. rewrite Z.add_0_r.
    wp_go. by rewrite Hhd. }
  set (s := {| str_header_ := region |}) in *.
  assert (string_rep s str m1) as Hs by (split; [done|apply Hat]).
  eapply wp_bind_run; [exact Ha|].
  eapply wp_bind_run; [unfold string_ToString, string_size; simpl; rewrite Nat2Z.id; apply load_bytes_spec, Hs|].
  eapply wp_bind_run; [by apply string_hash_spec|]. eapply wp_bind_run; [by apply string_eq_spec|].
  apply wp_ret. by exists s.
Qed.

(** The key "ab" at 4096, compared with "ab" elsewhere. *)
Lemma shmem_string_shared_witness :
  wp (s ← string_Init 4096 [97; 98]; s' ← string_Attach 4096;
      r ← string_ToString s'; h ← string_Hash s';
      e ← string_eq s' {| str_header_ := 0; str_data_ := 8192; str_length_ := 2 |}; mret (s, s', r, h, e))
     (λ x _, ∃ s, x = (s, s, [97; 98], 1665, true)) (write 2 8192 25185 (zero_region 4096 7)).
Proof.
  eapply wp_mono; [apply (shmem_string_shared 4096 [97; 98] {| str_header_ := 0; str_data_ := 8192; str_length_ := 2 |} [97; 98])|].
  - apply valid_write. exact (valid_zero_region 4096 7).
  - repeat (constructor; [lia|]). constructor.
  - simpl. lia.
  - split; [done|]. split; [repeat (constructor; [lia|]); constructor|]. intros [|[|i]] x Hx; simplify_eq/=; vm_compute; done.
  - unfold span. simpl. lia.
  - intros x m' (s & ->). exists s. reflexivity.
Defined.

(** ** Limits *)

(** The allocating constructor asks for the characters only and writes the
    header and the terminator too: 5 bytes more. *)
Lemma string_new_overruns :
  string_new (λ size m, Ret 4096 (m ∪ zero_region 4096 (Z.to_nat size))) [97; 98; 99] ∅ = Fault.
Proof. vm_compute. reflexivity. Qed.

(** Strings of different lengths are neither equal nor different. *)
Lemma string_ne_lengths s str m :
  string_size str ≠ string_size s → string_eq s str m = Ret false m ∧ string_ne s str m = Ret false m.
Proof. intros Hne. unfold string_eq, string_ne. by rewrite (proj2 (Z.eqb_neq _ _) Hne). Qed.
