(* ===== verification/MapBuckets.v ===== *)
(** * MapBuckets.v: the bucket types of the hash map

    types/data_structures/unordered_map/shmem_int_map.h, shmem_string_map.h
    and shmem_inode_map.h.  A bucket is the number its bytes are.  The int
    and the string bucket satisfy the laws of UnorderedMap.v, and so does the
    inode bucket once its parent is set. *)

From S2P Require Import Prelude Memory Bitmap UnorderedMap ShmemString.

Local Open Scope Z_scope.

(** constants.h: the offset that marks a bucket with no key. *)
Definition null0_null : Z := 0.

(** ** Integer keys *)

(** [S key_; T value_]: a key of [ks] bytes, a value of [vs] bytes at offset
    [voff]. *)
Section int_map.
Context (ks voff vs : nat) (Hks : (ks <= voff)%nat).

Definition int_bucket_size : nat := (voff + vs)%nat.
Definition int_map_bucket_Init (key value : Z) : Z := key + 256 ^ Z.of_nat voff * value.
Definition int_map_bucket_GetValue (b region : Z) : Z := (b / 256 ^ Z.of_nat voff) mod 256 ^ Z.of_nat vs.
Definition int_map_bucket_GetKey (b region : Z) : M Z := mret (b mod 256 ^ Z.of_nat ks).
Definition int_map_bucket_KeyHash (key region : Z) : M Z := mret (u32 key).
Definition int_map_bucket_KeyCompare (key1 key2 : Z) : M bool := mret (key1 =? key2).

Definition int_bucket : Bucket Z Z := {|
  bucket_size := int_bucket_size;
  bucket_GetKey := int_map_bucket_GetKey;
  bucket_GetValue := int_map_bucket_GetValue;
  bucket_KeyHash := int_map_bucket_KeyHash;
  bucket_KeyCompare := int_map_bucket_KeyCompare
|}.

Definition int_map_Set (fuel : nat) (t : unordered_map) (key value : Z) : M bool :=
  @unordered_map_Set _ _ int_bucket fuel t (int_map_bucket_Init key value).

(** A bucket that [Init] built from a key and a value of their types. *)
Definition int_bucket_rep (_ b a v : Z) (_ : mem) : Prop :=
  0 <= a < 256 ^ Z.of_nat ks ∧ 0 <= v < 256 ^ Z.of_nat vs ∧ b = int_map_bucket_Init a v.

Lemma int_bucket_fields base b a v m :
  int_bucket_rep base b a v m →
  0 <= b < 256 ^ Z.of_nat int_bucket_size ∧ int_map_bucket_GetValue b base = v ∧ b mod 256 ^ Z.of_nat ks = a.
Proof.
  intros (Ha & Hv & ->). unfold int_map_bucket_Init, int_map_bucket_GetValue, int_bucket_size.
  assert (256 ^ Z.of_nat voff = 256 ^ Z.of_nat ks * 256 ^ Z.of_nat (voff - ks)) as E.
  { rewrite <-Z.pow_add_r by lia. f_equal. lia. }
  assert (0 < 256 ^ Z.of_nat ks ∧ 0 < 256 ^ Z.of_nat (voff - ks)) as [H1 H2] by (split; apply Z.pow_pos_nonneg; lia).
  assert (a < 256 ^ Z.of_nat voff) as H3 by (rewrite E; nia).
  split; [|split].
  - rewrite Nat2Z.inj_add, Z.pow_add_r by lia. nia.
  - rewrite (Z.mul_comm (256 ^ Z.of_nat voff)), Z_div_plus_full, Z.div_small, Z.add_0_l by lia. by apply Z.mod_small.
  - rewrite E. replace (a + 256 ^ Z.of_nat ks * 256 ^ Z.of_nat (voff - ks) * v)
      with (a + 256 ^ Z.of_nat (voff - ks) * v * 256 ^ Z.of_nat ks) by ring.
    rewrite Z_mod_plus_full. by apply Z.mod_small.
Qed.

#[export] Program Instance int_bucket_laws : @BucketLaws Z Z Z int_bucket _ (λ _, False) := {|
  key_rep := λ k a _, k = a;
  key_hash := u32;
  bucket_rep := int_bucket_rep
|}.
Next Obligation. intros a. apply u32_range. Qed.
Next Obligation. intros. by eapply int_bucket_fields. Qed.
Next Obligation.
  intros base b a v m Hb. exists a. simpl. unfold int_map_bucket_GetKey.
  destruct (int_bucket_fields _ _ _ _ _ Hb) as (_ & _ & ->). done.
Qed.
Next Obligation. intros base b a v m Hb. by apply (int_bucket_fields base b a v m). Qed.
Next Obligation. intros k a base m ->. done. Qed.
Next Obligation.
  intros k1 k2 a1 a2 m -> ->. simpl. unfold int_map_bucket_KeyCompare, mret, M_ret. f_equal.
  destruct (Z.eqb_spec a1 a2); by case_bool_decide.
Qed.
Next Obligation. done. Qed.
Next Obligation. done. Qed.
End int_map.

(** ** String keys *)

(** [off_t off_; uint32_t value_]: eight bytes. *)
Definition string_map_bucket_Init (key : ipc_string) (value region : Z) : Z :=
  s32_bits (LABSTOR_REGION_SUB (string_GetRegion key) region) + 2 ^ 32 * value.
Definition string_map_bucket_off (b : Z) : Z := s32 (u32 b).
Definition string_map_bucket_GetValue (b region : Z) : Z := u32 (b / 2 ^ 32).
Definition string_map_bucket_IsNull (b : Z) : bool := string_map_bucket_off b =? null0_null.
Definition string_map_bucket_GetKey (b region : Z) : M ipc_string :=
  if string_map_bucket_IsNull b then mret string_null
  else string_Attach (LABSTOR_REGION_ADD (string_map_bucket_off b) region).
Definition string_map_bucket_KeyHash (key : ipc_string) (region : Z) : M Z :=
  string_hash (string_c_str key) (string_size key).
Definition string_map_bucket_KeyCompare (key1 key2 : ipc_string) : M bool := string_eq key1 key2.

#[export] Instance string_bucket : Bucket ipc_string Z := {|
  bucket_size := 8;
  bucket_GetKey := string_map_bucket_GetKey;
  bucket_GetValue := string_map_bucket_GetValue;
  bucket_KeyHash := string_map_bucket_KeyHash;
  bucket_KeyCompare := string_map_bucket_KeyCompare
|}.

Definition string_map_Set (fuel : nat) (t : unordered_map) (key : ipc_string) (value : Z) : M bool :=
  unordered_map_Set fuel t (string_map_bucket_Init key value (unordered_map_GetBaseRegion t)).

Section string_map.
(** The addresses where the characters of keys may be. *)
Context (key_mem : Z → Prop).

Record string_key (k : ipc_string) (l : list Z) (m : mem) : Prop := {
  sk_rep : string_rep k l m;
  sk_mem : ∀ x, str_data_ k <= x < str_data_ k + Z.of_nat (length l) → key_mem x
}.

Record string_bucket_rep (base b : Z) (l : list Z) (v : Z) (m : mem) : Prop := {
  sb_range : 0 <= b < 2 ^ 64;
  sb_value : string_map_bucket_GetValue b base = v;
  sb_off : string_map_bucket_off b ≠ null0_null;
  sb_key : string_at (base + string_map_bucket_off b) l m;
  sb_mem : ∀ x, span (base + string_map_bucket_off b) (4 + Z.of_nat (length l)) x → key_mem x
}.

Lemma string_at_frame p l m m' P :
  modifies P m m' → (∀ x, span p (4 + Z.of_nat (length l)) x → ¬ P x) → string_at p l m → string_at p l m'.
Proof.
  intros Hm HP [Hh Hv Hb]. unfold span in HP. split.
  - rewrite (read_modifies _ _ _ _ _ Hm); [done|]. simpl. intros x Hx. apply HP. lia.
  - by eapply valid_modifies.
  - eapply bytes_at_frame; [exact Hm| |done]. autounfold with layout. intros x Hx. apply HP. lia.
Qed.

Lemma string_key_frame k l m m' P :
  modifies P m m' → (∀ x, key_mem x → ¬ P x) → string_key k l m → string_key k l m'.
Proof.
  intros Hm HP [[Hl Hb] Hk]. split; [|done]. split; [done|]. eapply bytes_at_frame; [exact Hm| |done]. auto.
Qed.

(** [Init] of a key in shared memory builds a bucket that stands for it. *)
Lemma string_bucket_init key value base l m :
  string_at (str_header_ key) l m → 0 <= value < 2 ^ 32 → 0 < str_header_ key - base < 2 ^ 31 →
  (∀ x, span (str_header_ key) (4 + Z.of_nat (length l)) x → key_mem x) →
  string_bucket_rep base (string_map_bucket_Init key value base) l value m.
Proof.
  intros Hat Hv Hd Hk. pose proof (s32_bits_range (LABSTOR_REGION_SUB (str_header_ key) base)).
  assert (string_map_bucket_off (string_map_bucket_Init key value base) = str_header_ key - base) as Hoff.
  { unfold string_map_bucket_off, string_map_bucket_Init, string_GetRegion.
    rewrite region_sub_small by lia. unfold u32. rewrite (Z.mul_comm (2 ^ 32)), Z_mod_plus_full.
    rewrite Z.mod_small by (apply s32_bits_range). apply s32_of_bits. lia. }
  split; rewrite ?Hoff; unfold null0_null; try lia.
  - unfold string_map_bucket_Init, string_GetRegion. lia.
  - unfold string_map_bucket_GetValue, string_map_bucket_Init, string_GetRegion.
    rewrite (Z.mul_comm (2 ^ 32)), Z_div_plus_full, Z.div_small, Z.add_0_l by lia. by apply u32_small.
  - by rewrite Zplus_minus.
  - by rewrite Zplus_minus.
Qed.

#[export] Program Instance string_bucket_laws : BucketLaws ipc_string Z (list Z) key_mem := {|
  key_rep := string_key;
  key_hash := λ l, chars_hash l 0 0;
  bucket_rep := string_bucket_rep
|}.
Next Obligation. intros l. by apply chars_hash_range. Qed.
Next Obligation. intros base b l v m []. done. Qed.
Next Obligation.
  intros base b l v m []. simpl. unfold string_map_bucket_GetKey, string_map_bucket_IsNull.
  rewrite (proj2 (Z.eqb_neq _ _)) by done. unfold LABSTOR_REGION_ADD.
  destruct (string_attach_spec _ _ _ sb_key0) as (s & Hs & Hh & Hd & Hr). exists s. split; [done|]. split; [done|].
  intros x Hx. apply sb_mem0. unfold span. lia.
Qed.
Next Obligation. intros base b l v m []. done. Qed.
Next Obligation. intros k l base m [Hr _]. by apply string_hash_spec. Qed.
Next Obligation. intros k1 k2 l1 l2 m [H1 _] [H2 _]. by apply string_eq_spec. Qed.
Next Obligation. intros. by eapply string_key_frame. Qed.
Next Obligation.
  intros base b l v m m' P Hm HP []. split; try done. eapply string_at_frame; [exact Hm| |done]. auto.
Qed.
End string_map.

(** ** Inode keys *)

(** [uint64_t parent_; off_t off_; uint32_t value_]: sixteen bytes.  [Init]
    does not set [parent_]: [parent] is what the object held. *)
Definition inode_map_bucket_Init (parent : Z) (key : Z * ipc_string) (value region : Z) : Z :=
  parent + 2 ^ 64 * string_map_bucket_Init key.2 value region.
Definition inode_map_bucket_parent (b : Z) : Z := u64 b.
Definition inode_map_bucket_GetValue (b region : Z) : Z := string_map_bucket_GetValue (b / 2 ^ 64) region.
Definition inode_map_bucket_IsNull (b : Z) : bool := string_map_bucket_off (b / 2 ^ 64) =? null0_null.
Definition inode_map_bucket_GetKey (b region : Z) : M (Z * ipc_string) :=
  if inode_map_bucket_IsNull b then mret (0, string_null)
  else key ← string_Attach (LABSTOR_REGION_ADD (string_map_bucket_off (b / 2 ^ 64)) region);
       mret (inode_map_bucket_parent b, key).

(** Five rounds of the loop of [KeyHash]. *)
Fixpoint inode_hash_rounds (n : nat) (first str_hash : Z) : Z :=
  match n with
  | O => str_hash
  | S n' =>
      let str_hash := u64 (str_hash + u64 (str_hash * first)) in
      let str_hash := u64 (str_hash + u64 (str_hash * u64 (first + 1))) in
      inode_hash_rounds n' first str_hash
  end.

Definition inode_map_bucket_KeyHash (key : Z * ipc_string) (region : Z) : M Z :=
  str_hash ← string_hash (string_c_str key.2) (string_size key.2);
  mret (u32 (inode_hash_rounds 5 key.1 str_hash)).

(** [==] of pairs. *)
Definition inode_map_bucket_KeyCompare (key1 key2 : Z * ipc_string) : M bool :=
  if negb (key1.1 =? key2.1) then mret false else string_eq key1.2 key2.2.

Definition inode_bucket : Bucket (Z * ipc_string) Z := {|
  bucket_size := 16;
  bucket_GetKey := inode_map_bucket_GetKey;
  bucket_GetValue := inode_map_bucket_GetValue;
  bucket_KeyHash := inode_map_bucket_KeyHash;
  bucket_KeyCompare := inode_map_bucket_KeyCompare
|}.

Definition inode_map_Set (fuel : nat) (t : unordered_map) (parent : Z) (key : Z * ipc_string) (value : Z) : M bool :=
  @unordered_map_Set _ _ inode_bucket fuel t (inode_map_bucket_Init parent key value (unordered_map_GetBaseRegion t)).

Section inode_map.
Context (key_mem : Z → Prop).

Record inode_bucket_rep (base b : Z) (a : Z * list Z) (v : Z) (m : mem) : Prop := {
  ib_parent : inode_map_bucket_parent b = a.1;
  ib_range : 0 <= b < 2 ^ 128;
  ib_rest : string_bucket_rep key_mem base (b / 2 ^ 64) a.2 v m
}.

#[export] Program Instance inode_bucket_laws : @BucketLaws (Z * ipc_string) Z (Z * list Z) inode_bucket _ key_mem := {|
  key_rep := λ k a m, k.1 = a.1 ∧ string_key key_mem k.2 a.2 m;
  key_hash := λ a, u32 (inode_hash_rounds 5 a.1 (chars_hash a.2 0 0));
  bucket_rep := inode_bucket_rep
|}.
Next Obligation. intros a. apply u32_range. Qed.
Next Obligation. intros base b a v m []. done. Qed.
Next Obligation.
  intros base b a v m [Hp _ Hs]. simpl. unfold inode_map_bucket_GetKey, inode_map_bucket_IsNull.
  destruct (bucket_get_key (BucketLaws:=string_bucket_laws key_mem) _ _ _ _ _ Hs) as (k & Hk & Hkr).
  simpl in Hk. unfold string_map_bucket_GetKey, string_map_bucket_IsNull in Hk.
  rewrite (proj2 (Z.eqb_neq _ _)) in Hk |- * by apply Hs. rewrite (run_bind _ _ _ _ _ Hk).
  eexists. split; [done|]. done.
Qed.
Next Obligation. intros base b a v m [_ _ []]. done. Qed.
Next Obligation.
  intros k a base m [H1 [H2 _]]. simpl. unfold inode_map_bucket_KeyHash.
  rewrite (run_bind _ _ _ _ _ (string_hash_spec _ _ _ H2)). by rewrite H1.
Qed.
Next Obligation.
  intros [p1 k1] [p2 k2] [q1 l1] [q2 l2] m [H1 [K1 _]] [H2 [K2 _]]. simpl in *. subst. unfold inode_map_bucket_KeyCompare. simpl.
  destruct (Z.eqb_spec q1 q2) as [->|Hne]; simpl.
  - rewrite (string_eq_spec _ _ _ _ _ K1 K2). f_equal. repeat case_bool_decide; congruence.
  - unfold mret, M_ret. f_equal. symmetry. apply bool_decide_eq_false. congruence.
Qed.
Next Obligation. intros k a m m' P Hm HP [H1 H2]. split; [done|]. by eapply string_key_frame. Qed.
Next Obligation.
  intros base b a v m m' P Hm HP [H1 H2 H3]. split; [done|done|].
  by apply (bucket_frame (BucketLaws:=string_bucket_laws key_mem) _ _ _ _ m m' P).
Qed.
End inode_map.

(** ** Instances of the theorems *)

(** A map of five string buckets at 4096 and the keys "ab" and "ca" at 8192
    and 8208, which have different homes. *)
Definition ex_key_mem (x : Z) : Prop := 8192 <= x < 8232.
Definition ex_keys : mem := 
  write 7 8208 (2 + 2 ^ 32 * (99 + 256 * 97)) (write 7 8192 (2 + 2 ^ 32 * (97 + 256 * 98)) (zero_region 8192 40)).
Definition ex_map_mem : mem := write 96 4096 0 ex_keys.
Definition ex_ab : ipc_string := {| str_header_ := 8192; str_data_ := 8196; str_length_ := 2 |}.
Definition ex_ca : ipc_string := {| str_header_ := 8208; str_data_ := 8212; str_length_ := 2 |}.

Lemma ex_bytes p l : forallb (λ c, (0 <=? c) && (c <? 256)) l = true →
  (λ i, ex_map_mem !! (p + Z.of_nat i)) <$> seq 0 (length l) = Some <$> l → bytes_at p l ex_map_mem.
Proof.
  intros Hr Hl. split.
  - apply Forall_forall. intros x Hx. rewrite forallb_forall in Hr. specialize (Hr x).
    rewrite <-list_elem_of_In in Hr. specialize (Hr Hx). lia.
  - intros i x Hi. pose proof (lookup_lt_Some _ _ _ Hi) as Hlt.
    assert ((Some <$> l) !! i = Some (Some x)) as H by (by rewrite list_lookup_fmap, Hi).
    rewrite <-Hl, list_lookup_fmap, lookup_seq_lt in H by done. simpl in H. by injection H.
Qed.

Lemma ex_string_at p l :
  read 4 p ex_map_mem = Z.of_nat (length l) → validb ex_map_mem p 4 = true →
  forallb (λ c, (0 <=? c) && (c <? 256)) l = true →
  (λ i, ex_map_mem !! (p + 4 + Z.of_nat i)) <$> seq 0 (length l) = Some <$> l → string_at p l ex_map_mem.
Proof.
  intros Hh Hv Hr Hl. split; [done|by apply (proj1 (validb_valid _ _ 4))|]. by apply ex_bytes.
Qed.

Lemma ex_at_ab : string_at 8192 [97; 98] ex_map_mem.
Proof. apply ex_string_at; vm_compute; reflexivity. Qed.
Lemma ex_at_ca : string_at 8208 [99; 97] ex_map_mem.
Proof. apply ex_string_at; vm_compute; reflexivity. Qed.

Lemma ex_key_ab : string_key ex_key_mem ex_ab [97; 98] ex_map_mem.
Proof. split; [split; [done|apply ex_at_ab]|]. unfold ex_key_mem. simpl. lia. Qed.
Lemma ex_key_ca : string_key ex_key_mem ex_ca [99; 97] ex_map_mem.
Proof. split; [split; [done|apply ex_at_ca]|]. unfold ex_key_mem. simpl. lia. Qed.

Lemma ex_bucket key l value :
  string_at (str_header_ key) l ex_map_mem → 8192 <= str_header_ key → str_header_ key + 4 + Z.of_nat (length l) <= 8232 →
  0 <= value < 2 ^ 32 → string_bucket_rep ex_key_mem 4096 (string_map_bucket_Init key value 4096) l value ex_map_mem.
Proof. intros Hat H1 H2 Hv. apply string_bucket_init; [done|done|lia|]. unfold span, ex_key_mem. lia. Qed.

Definition ex_ops : list (map_op (K:=ipc_string)) :=
  [MSet (string_map_bucket_Init ex_ab 7 4096); MSet (string_map_bucket_Init ex_ca 8 4096);
   MSet (string_map_bucket_Init ex_ab 9 4096); MFind ex_ab; MFind ex_ca].
Definition ex_sops : list (slot_op (V:=Z) (A:=list Z)) :=
  [SSet [97; 98] 7; SSet [99; 97] 8; SSet [97; 98] 9; SFind [97; 98]; SFind [99; 97]].

Lemma ex_ops_rep : Forall2 (op_rep (key_mem:=ex_key_mem) 4096 ex_map_mem) ex_ops ex_sops.
Proof.
  do 5 (apply Forall2_cons; split;
    [simpl; first [apply ex_bucket; [first [apply ex_at_ab|apply ex_at_ca]|simpl; lia..]|apply ex_key_ab|apply ex_key_ca]|]).
  constructor.
Qed.

Lemma unordered_map_refines_witness :
  wp (t ← @unordered_map_Init _ _ string_bucket 4096 4096 52 5 2; map_run 20 t (ex_ops ++ [MRemove ex_ca; MFind ex_ca]))
     (λ rs _, rs = [RSet true; RSet true; RSet true; RFind (Some 7); RFind (Some 8); RRemove true; RFind None]) ex_map_mem.
Proof.
  assert (Forall2 (op_rep (key_mem:=ex_key_mem) 4096 ex_map_mem) (ex_ops ++ [MRemove ex_ca; MFind ex_ca])
            (ex_sops ++ [SRemove [99; 97]; SFind [99; 97]])) as Hops.
  { apply Forall2_app; [exact ex_ops_rep|]. constructor; [exact ex_key_ca|]. constructor; [exact ex_key_ca|constructor]. }
  assert (valid ex_map_mem 4096 52) as Hv by (apply (proj1 (validb_valid ex_map_mem 4096 52)); vm_compute; reflexivity).
  assert (∀ x, ex_key_mem x → ¬ span 4096 (@map_size _ _ string_bucket 5) x) as Hk.
  { intros x. unfold ex_key_mem, span. change (@map_size _ _ string_bucket 5) with 52. lia. }
  pose proof (unordered_map_refines (BucketLaws0:=string_bucket_laws ex_key_mem) 20 ltac:(lia) 4096 4096 52 5 2 _ _ ex_map_mem ltac:(lia) ltac:(lia)
                ltac:(vm_compute; discriminate) ltac:(reflexivity) Hv Hk Hops ltac:(lia)) as H.
  assert (slot_run (BucketLaws0:=string_bucket_laws ex_key_mem) 5 (2 + 1) (replicate (Z.to_nat 5) None)
            (ex_sops ++ [SRemove [99; 97]; SFind [99; 97]]) =
          Some ([Some ([97; 98], 7); None; Some ([97; 98], 9); None; None],
                [RSet true; RSet true; RSet true; RFind (Some 7); RFind (Some 8); RRemove true; RFind None])) as E
    by (vm_compute; reflexivity).
  rewrite E in H. eapply wp_mono; [exact H|]. intros rs' m' [-> _]. reflexivity.
Defined.

Lemma unordered_map_first_value_witness :
  wp (t ← @unordered_map_Init _ _ string_bucket 4096 4096 52 5 2; map_run 20 t ex_ops)
     (λ rs _, log_run 5 (2 + 1) [] ex_sops rs) ex_map_mem.
Proof.
  apply (unordered_map_first_value (BucketLaws0:=string_bucket_laws ex_key_mem) 20).
  - lia.
  - lia.
  - lia.
  - vm_compute; discriminate.
  - reflexivity.
  - apply (proj1 (validb_valid ex_map_mem 4096 52)). vm_compute. reflexivity.
  - intros x. unfold ex_key_mem, span. change (@map_size _ _ string_bucket 5) with 52. lia.
  - exact ex_ops_rep.
  - lia.
  - repeat constructor.
Defined.

(** ** Limits *)

(** A key behind another one in its window cannot be removed: the integer
    keys 3 and 8 have the same home. *)
Lemma remove_behind_collision :
  (t ← @unordered_map_Init Z Z (int_bucket 4 4 4) 4096 4096 52 5 2;
   _ ← int_map_Set 4 4 4 20 t 3 30; _ ← int_map_Set 4 4 4 20 t 8 80;
   r ← @unordered_map_Remove Z Z (int_bucket 4 4 4) 20 t 8;
   v ← @unordered_map_Find Z Z (int_bucket 4 4 4) t 8; mret (r, v)) (zero_region 4096 52) =
  (t ← @unordered_map_Init Z Z (int_bucket 4 4 4) 4096 4096 52 5 2;
   _ ← int_map_Set 4 4 4 20 t 3 30; _ ← int_map_Set 4 4 4 20 t 8 80; mret (false, Some 80)) (zero_region 4096 52).
Proof. vm_compute. reflexivity. Qed.

(** [Remove] on an empty map does not return, whatever the number of rounds. *)
Lemma remove_empty_spins rounds key :
  (0 < rounds)%nat → 
  ∃ m', (t ← @unordered_map_Init Z Z (int_bucket 4 4 4) 4096 4096 52 5 2;
         @unordered_map_Remove Z Z (int_bucket 4 4 4) rounds t key) (zero_region 4096 52) = Spin m'.
Proof.
  intros Hr. assert (4 <= 4)%nat as H4 by lia.
  assert (valid (zero_region 4096 52) 4096 52) as Hv by (apply (proj1 (validb_valid _ 4096 52)); vm_compute; reflexivity).
  assert (∀ x : Z, False → ¬ span 4096 (@map_size Z Z (int_bucket 4 4 4) 5) x) as Hk by (intros x []).
  assert (@map_size Z Z (int_bucket 4 4 4) 5 = 52) as Hsz by reflexivity.
  pose proof (um_init_spec (BucketLaws0:=int_bucket_laws 4 4 4 H4) rounds Hr 4096 4096 52 5 2 (zero_region 4096 52)
    ltac:(lia) ltac:(lia) ltac:(lia) ltac:(lia) Hv Hk) as Hi.
  apply wp_run in Hi as (t & m1 & E & _ & _ & Hrep & _). exists m1. rewrite (run_bind _ _ _ _ _ E).
  eapply (um_remove_spins (BucketLaws0:=int_bucket_laws 4 4 4 H4) rounds Hr); [exact Hrep|reflexivity|].
  intros b. unfold slot. destruct (_ !! _) as [x|] eqn:Ex; [|done]. by apply lookup_replicate in Ex as [-> _].
Qed.

(** The parent of an inode key is not stored: the entry is not found again. *)
Lemma inode_parent_lost :
  (t ← @unordered_map_Init _ _ inode_bucket 4096 4096 92 5 2;
   _ ← inode_map_Set 20 t 0 (5, ex_ab) 7;
   @unordered_map_Find _ _ inode_bucket t (5, ex_ab)) (write 92 4096 0 ex_keys) =
  (t ← @unordered_map_Init _ _ inode_bucket 4096 4096 92 5 2;
   _ ← inode_map_Set 20 t 0 (5, ex_ab) 7; mret None) (write 92 4096 0 ex_keys).
Proof. vm_compute. reflexivity. Qed.
