(* ===== verification/Namespace.v ===== *)
(** * Namespace.v: names of modules

    userspace/types/shared_namespace.h and userspace/client/namespace.h: a
    name is mapped to a namespace id by a string map in shared memory
    (UnorderedMap.v, MapBuckets.v), an id to the module of this process by a
    vector.  Ids that were given back are kept in a locked ring (MpmcRing.v).
    A module is its address and its module id. *)

From S2P Require Import Prelude Memory RingBuffer Bitmap MpmcRing UnorderedMap ShmemString MapBuckets Allocators.

Local Open Scope Z_scope.

Record Module := { mod_ptr : Z; mod_id : list Z }.

Record Namespace := {
  ns_ids_ : ring_buffer;
  key_to_ns_id_ : unordered_map;
  private_state_ : list Z;
  module_id_to_instance_ : gmap (list Z) (list Z)
}.

(** [-1] as [uint32_t]. *)
Definition LABSTOR_INVALID_NAMESPACE_KEY : Z := 2 ^ 32 - 1.

Section namespace.
Context (fuel : nat).

(** [v[i] = x] on a vector: out of range is undefined behaviour. *)
Definition vector_set (v : list Z) (i x : Z) : M (list Z) :=
  if i <? Z.of_nat (length v) then mret (<[Z.to_nat i := x]> v) else fault.

Definition with_private_state (ns : Namespace) (v : list Z) : Namespace :=
  {| ns_ids_ := ns_ids_ ns; key_to_ns_id_ := key_to_ns_id_ ns; private_state_ := v;
     module_id_to_instance_ := module_id_to_instance_ ns |}.

Definition Namespace_RegisterPrivateState (ns : Namespace) (ns_id module : Z) : M Namespace :=
  let v := private_state_ ns in
  let v := if Z.of_nat (length v) <? ns_id then resize (Z.to_nat (u32 (ns_id + 1))) 0 v else v in
  v ← vector_set v ns_id module;
  mret (with_private_state ns v).

(** A key that cannot be set is only reported. *)
Definition Namespace_AddKey (ns : Namespace) (key : ipc_string) (module : Module) : M (Namespace * Z) :=
  r ← ring_buffer_Dequeue 4 (ns_ids_ ns);
  idv ← (match r with
         | Some ns_id => v ← vector_set (private_state_ ns) ns_id (mod_ptr module); mret (ns_id, v)
         | None => mret (u32 (Z.of_nat (length (private_state_ ns))), private_state_ ns ++ [mod_ptr module])
         end);
  _ ← string_map_Set fuel (key_to_ns_id_ ns) key idv.1;
  let instances := default [] (module_id_to_instance_ ns !! mod_id module) in
  mret ({| ns_ids_ := ns_ids_ ns; key_to_ns_id_ := key_to_ns_id_ ns; private_state_ := idv.2;
           module_id_to_instance_ := <[mod_id module := instances ++ [mod_ptr module]]> (module_id_to_instance_ ns) |},
        idv.1).

(** The key is first copied to shared memory. *)
Definition Namespace_AddKey_string (Alloc : Z → M Z) (ns : Namespace) (key : list Z) (module : Module) : M (Namespace * Z) :=
  s ← string_new Alloc key; Namespace_AddKey ns s module.

(** [RemoveKey] returns the null pointer. *)
Definition Namespace_RemoveKey (ns : Namespace) (key : ipc_string) : Z := 0.

Definition Namespace_DeleteKey (ns : Namespace) (key : ipc_string) : Namespace :=
  if Namespace_RemoveKey ns key =? 0 then ns else ns.

(** The module whose key was removed; its module id is read from it. *)
Definition Namespace_RenameKey (module_at : Z → Module) (ns : Namespace) (old_key new_key : ipc_string) : M Namespace :=
  let module := Namespace_RemoveKey ns old_key in
  if module =? 0 then mret ns else r ← Namespace_AddKey ns new_key (module_at module); mret r.1.

Definition Namespace_FindNamespaceID (ns : Namespace) (key : ipc_string) : M (option Z) :=
  unordered_map_Find (key_to_ns_id_ ns) key.

Definition Namespace_GetNamespaceID (ns : Namespace) (key : ipc_string) : M Z :=
  r ← unordered_map_Find (key_to_ns_id_ ns) key;
  match r with Some ns_id => mret ns_id | None => mret LABSTOR_INVALID_NAMESPACE_KEY end.

Definition Namespace_GetModule (ns : Namespace) (ns_id : Z) : Z :=
  if (0 <=? ns_id) && (ns_id <? Z.of_nat (length (private_state_ ns)))
  then default 0 (private_state_ ns !! Z.to_nat ns_id) else 0.

(** [operator []] of the map of instances adds an empty queue. *)
Definition Namespace_AllModuleInstances (ns : Namespace) (module_id : list Z) : Namespace * list Z :=
  let q := default [] (module_id_to_instance_ ns !! module_id) in
  ({| ns_ids_ := ns_ids_ ns; key_to_ns_id_ := key_to_ns_id_ ns; private_state_ := private_state_ ns;
      module_id_to_instance_ := <[module_id := q]> (module_id_to_instance_ ns) |}, q).

(** [labstor::Client::Namespace::Attach] on the mapped [region]: the
    namespace and the allocator for keys. *)
Definition Client_Namespace_Attach (region : Z) : M (Namespace * labstor_shmem_allocator) :=
  let ns_ids := ring_buffer_Attach region in
  section ← ring_buffer_GetNextSection 4 ns_ids;
  map ← @unordered_map_Attach region section;
  section ← ring_buffer_GetNextSection 4 ns_ids;
  alloc ← labstor_shmem_allocator_Attach region section;
  mret ({| ns_ids_ := ns_ids; key_to_ns_id_ := map; private_state_ := []; module_id_to_instance_ := ∅ |}, alloc).

(** ** Representation *)

Section rep.
Context {key_mem : Z → Prop}.
#[local] Instance laws : BucketLaws ipc_string Z (list Z) key_mem := string_bucket_laws key_mem.

(** A namespace in which [entries] were added: no id was given back, every
    key was accepted, the [i]th one for the id [i]. *)
Record ns_rep (ns : Namespace) (n iters cap d : Z) (entries : list (list Z * Z)) (m : mem) : Prop := {
  nr_ring : mr_rep 4 (ns_ids_ ns) cap d [] m;
  nr_map : ∃ s, um_rep (key_to_ns_id_ ns) n iters s m ∧
     log_inv n iters s (imap (λ i e, (e.1, Z.of_nat i)) entries);
  nr_private : private_state_ ns = entries.*2;
  nr_apart : ∀ x, mr_span 4 (ns_ids_ ns) cap x → ¬ map_span (key_to_ns_id_ ns) n x;
  nr_keys : ∀ x, mr_span 4 (ns_ids_ ns) cap x → ¬ key_mem x
}.

(** A key in shared memory that a bucket can refer to. *)
Record ns_key (base : Z) (key : ipc_string) (l : list Z) (m : mem) : Prop := {
  nk_key : string_key key_mem key l m;
  nk_at : string_at (str_header_ key) l m;
  nk_off : 0 < str_header_ key - base < 2 ^ 31;
  nk_mem : ∀ x, span (str_header_ key) (4 + Z.of_nat (length l)) x → key_mem x
}.

Lemma ns_key_frame base key l m m' P :
  modifies P m m' → (∀ x, key_mem x → ¬ P x) → ns_key base key l m → ns_key base key l m'.
Proof.
  intros Hm HP []. split; try done; [by eapply string_key_frame|]. eapply string_at_frame; [exact Hm|auto|done].
Qed.

Lemma ns_add_spec ns n iters cap d entries m key l module :
  (0 < fuel)%nat → ns_rep ns n iters cap d entries m → ns_key (um_base_region_ (key_to_ns_id_ ns)) key l m →
  Z.of_nat (length entries) < Z.min n iters →
  wp (Namespace_AddKey ns key module)
     (λ r m', r.2 = Z.of_nat (length entries) ∧ ns_rep r.1 n iters cap d (entries ++ [(l, mod_ptr module)]) m' ∧
        key_to_ns_id_ r.1 = key_to_ns_id_ ns ∧ ns_ids_ r.1 = ns_ids_ ns ∧
        modifies (both (mr_span 4 (ns_ids_ ns) cap) (map_span (key_to_ns_id_ ns) n)) m m') m.
Proof.
  intros Hf Hns Hk Hlt. pose proof Hns as [Hring (s & Hmap & Hlog) Hpriv Hap Hkm].
  pose proof (ur_n _ _ _ _ _ Hmap) as Hn. pose proof (ur_iters _ _ _ _ _ Hmap) as Hit.
  unfold Namespace_AddKey. apply wp_bind. eapply wp_mono; [apply (mr_dequeue_spec _ _ _ _ _ _ Hring)|].
  intros r m1 [M1 H1]. cbv beta iota in H1. destruct H1 as [-> Hring1]. cbv beta iota.
  assert (um_rep (key_to_ns_id_ ns) n iters s m1) as Hmap1.
  { eapply um_rep_frame; [exact Hmap|exact M1|intros x Hx Hy; exact (Hap x Hy Hx)|intros x Hx Hy; exact (Hkm x Hy Hx)]. }
  apply wp_bind, wp_ret. cbn [fst snd].
  assert (ns_key (um_base_region_ (key_to_ns_id_ ns)) key l m1) as Hk1.
  { eapply ns_key_frame; [exact M1|intros x Hx Hy; exact (Hkm x Hy Hx)|done]. }
  rewrite Hpriv, length_fmap, u32_small by lia.
  assert (string_bucket_rep key_mem (um_base_region_ (key_to_ns_id_ ns))
    (string_map_bucket_Init key (Z.of_nat (length entries)) (um_base_region_ (key_to_ns_id_ ns))) l
    (Z.of_nat (length entries)) m1) as Hb.
  { destruct Hk1. apply string_bucket_init; [done|lia|done|done]. }
  apply wp_bind. unfold string_map_Set, unordered_map_GetBaseRegion.
  eapply wp_mono; [apply (um_set_spec fuel Hf _ _ _ _ _ _ _ _ Hmap1 Hb)|]. intros ok m2 [H2 M2].
  destruct (slots_set s (window n iters l) l (Z.of_nat (length entries))) as [s'|] eqn:Es.
  2: { exfalso. pose proof (log_inv_full n iters s _ l ltac:(lia) ltac:(lia) Hlog) as Hfull.
       unfold slots_set in Es. destruct (first_free s (window n iters l)); [discriminate Es|].
       specialize (Hfull eq_refl). rewrite length_imap in Hfull. lia. }
  destruct H2 as [_ Hmap2]. apply wp_ret. cbn [fst snd key_to_ns_id_]. split; [done|]. split; [|split; [done|split; [done|]]].
  - split; cbn [ns_ids_ key_to_ns_id_ private_state_]; try done.
    + eapply mr_rep_frame; [exact Hring1|exact M2|done].
    + exists s'. split; [done|]. rewrite imap_app. simpl. rewrite Nat.add_0_r. eapply log_inv_set; [lia|exact Hlog|done].
    + by rewrite fmap_app.
  - eapply modifies_trans; (eapply modifies_weaken; [eassumption|]); unfold both; auto.
Qed.

(** ** Sequences of keys *)

Fixpoint ns_add_all (ns : Namespace) (keys : list (ipc_string * Module)) : M (Namespace * list Z) :=
  match keys with
  | [] => mret (ns, [])
  | (key, module) :: keys' =>
      r ← Namespace_AddKey ns key module;
      rs ← ns_add_all r.1 keys';
      mret (rs.1, r.2 :: rs.2)
  end.

(** The position of the first key equal to [l]. *)
Fixpoint name_index (names : list (list Z)) (l : list Z) : option Z :=
  match names with
  | [] => None
  | x :: xs => if decide (x = l) then Some 0 else Z.succ <$> name_index xs l
  end.

Lemma name_index_snoc names x l :
  name_index (names ++ [x]) l =
  match name_index names l with
  | Some i => Some i
  | None => if decide (x = l) then Some (Z.of_nat (length names)) else None
  end.
Proof.
  induction names as [|y names IH]; simpl; [by destruct (decide (x = l))|]. destruct (decide (y = l)); [done|].
  rewrite IH. destruct (name_index names l); [done|]. destruct (decide (x = l)); [|done]. simpl. f_equal. lia.
Qed.

Lemma first_set_index (entries : list (list Z * Z)) l :
  first_set (imap (λ i e, (e.1, Z.of_nat i)) entries) l = name_index entries.*1 l.
Proof.
  induction entries as [|[k v] entries IH] using rev_ind; [done|].
  rewrite imap_app, fmap_app. simpl. rewrite Nat.add_0_r, first_set_snoc, name_index_snoc, IH, length_fmap. done.
Qed.

Lemma ns_add_all_spec keys names ns n iters cap d entries m :
  (0 < fuel)%nat → ns_rep ns n iters cap d entries m →
  Forall2 (λ k l, ns_key (um_base_region_ (key_to_ns_id_ ns)) k.1 l m) keys names →
  Z.of_nat (length entries + length keys) <= Z.min n iters →
  wp (ns_add_all ns keys)
     (λ r m', r.2 = seqZ (Z.of_nat (length entries)) (Z.of_nat (length keys)) ∧
        ns_rep r.1 n iters cap d (entries ++ zip names (mod_ptr <$> keys.*2)) m' ∧
        modifies (both (mr_span 4 (ns_ids_ ns) cap) (map_span (key_to_ns_id_ ns) n)) m m') m.
Proof.
  intros Hf Hns Hkeys. revert ns entries m Hns Hkeys. revert names.
  induction keys as [|[key module] keys IH]; intros names ns entries m Hns Hkeys Hlen;
    inversion Hkeys as [|? l ? names' Hk Hks E1 E2]; subst; simpl.
  { apply wp_ret. simpl. rewrite app_nil_r. split; [done|]. split; [done|apply modifies_refl]. }
  simpl in Hlen. apply wp_bind. eapply wp_mono; [apply (ns_add_spec _ _ _ _ _ _ _ key l module Hf Hns Hk); lia|].
  intros [ns1 id] m1 (Hid & Hns1 & Hbase & Hids1 & M1). cbn [fst snd] in *. apply wp_bind.
  assert (Forall2 (λ k l, ns_key (um_base_region_ (key_to_ns_id_ ns1)) k.1 l m1) keys names') as Hks1.
  { rewrite Hbase. eapply Forall2_impl; [exact Hks|]. intros k l' Hk'. eapply ns_key_frame; [exact M1| |done].
    intros x Hx [Hy|Hy]; [exact (nr_keys _ _ _ _ _ _ _ Hns x Hy Hx)|].
    destruct (nr_map _ _ _ _ _ _ _ Hns) as (s & Hmap & _). exact (ur_keys _ _ _ _ _ Hmap x Hx Hy). }
  eapply wp_mono; [apply (IH _ _ _ _ Hns1 Hks1); rewrite length_app; simpl; lia|].
  intros [ns2 ids] m2 (Hids & Hns2 & M2). cbn [fst snd] in *. apply wp_ret. cbn [fst snd].
  rewrite Hbase, Hids1 in M2. split; [|split; [|by eapply modifies_trans]].
  - rewrite Hid, Hids, length_app, Nat2Z.inj_succ, Nat2Z.inj_add. simpl.
    rewrite (seqZ_cons (Z.of_nat (length entries)) (Z.succ (Z.of_nat (length keys)))) by lia.
    f_equal. f_equal; lia.
  - by rewrite <-app_assoc in Hns2.
Qed.

(** A namespace to which keys are added, no more than the map has room
    for, numbers them 0, 1, 2, ... in order; a lookup gives the number of the
    first key with the same characters, -1 when there is none, and the
    number gives back the module it was added for. *)
Theorem namespace_correct ns n iters cap d keys names m :
  (0 < fuel)%nat → ns_rep ns n iters cap d [] m →
  Forall2 (λ k l, ns_key (um_base_region_ (key_to_ns_id_ ns)) k.1 l m) keys names →
  Z.of_nat (length keys) <= Z.min n iters →
  wp (ns_add_all ns keys)
     (λ r m', r.2 = seqZ 0 (Z.of_nat (length keys)) ∧
        (∀ key l, string_key key_mem key l m' →
           Namespace_GetNamespaceID r.1 key m' = Ret (default LABSTOR_INVALID_NAMESPACE_KEY (name_index names l)) m') ∧
        (∀ i k, keys !! i = Some k → Namespace_GetModule r.1 (Z.of_nat i) = mod_ptr k.2) ∧
        modifies (both (mr_span 4 (ns_ids_ ns) cap) (map_span (key_to_ns_id_ ns) n)) m m') m.
Proof.
  intros Hf Hns Hkeys Hlen.
  eapply wp_mono; [apply (ns_add_all_spec keys names ns n iters cap d [] m Hf Hns Hkeys); simpl; lia|].
  intros [ns' ids] m' (Hids & Hns' & M'). cbn [fst snd] in *. split; [done|]. simpl in Hns'.
  pose proof (Forall2_length _ _ _ Hkeys) as Hl. destruct Hns' as [_ (s & Hmap & Hlog) Hpriv _ _]. split; [|split; [|done]].
  - intros key l Hk. unfold Namespace_GetNamespaceID.
    rewrite (run_bind _ _ _ _ _ (um_find_spec fuel Hf _ _ _ _ _ _ _ Hmap Hk)).
    rewrite (li_find _ _ _ _ Hlog), first_set_index, fst_zip by (rewrite !length_fmap; lia).
    by destruct (name_index names l).
  - intros i k Hi. unfold Namespace_GetModule. pose proof (lookup_lt_Some _ _ _ Hi).
    rewrite Hpriv, snd_zip, !length_fmap by (rewrite !length_fmap; lia).
    rewrite (proj2 (Z.leb_le _ _)), (proj2 (Z.ltb_lt _ _)) by lia. simpl.
    by rewrite Nat2Z.id, !list_lookup_fmap, Hi.
Qed.

(** The tables of a new namespace, one after the other. *)
Definition ns_tables (region cap n max_collisions : Z) : M Namespace :=
  ids ← ring_buffer_Init 4 region (ring_buffer_GetSize_global 4 cap) cap;
  section ← ring_buffer_GetNextSection 4 ids;
  map ← unordered_map_Init region section (@unordered_map_GetSize_global _ _ string_bucket n) n max_collisions;
  mret {| ns_ids_ := ids; key_to_ns_id_ := map; private_state_ := []; module_id_to_instance_ := ∅ |}.

Lemma ns_tables_spec region cap n max_collisions m :
  (0 < fuel)%nat → 0 < cap < 2 ^ 29 → 0 < n < 2 ^ 28 → 0 <= max_collisions < 2 ^ 31 - 1 →
  valid m region (24 + 4 * cap + map_size n) → (∀ x, key_mem x → ¬ span region (24 + 4 * cap + map_size n) x) →
  wp (ns_tables region cap n max_collisions)
     (λ ns m', um_base_region_ (key_to_ns_id_ ns) = region ∧ ns_rep ns n (max_collisions + 1) cap 0 [] m' ∧
        modifies (span region (24 + 4 * cap + map_size n)) m m') m.
Proof.
  intros Hf Hcap Hn Hmc Hv Hk. unfold ns_tables.
  assert (unordered_map_GetSize_global n = map_size n) as Esz.
  { unfold unordered_map_GetSize_global, unordered_map_GetHeaderSize, map_size. rewrite bit2map_size by lia.
    autounfold with layout. simpl. assert (0 <= (n + 15) / 16 < 2 ^ 28) by mod_lia.
    rewrite (u32_small (8 + _)), u32_small by lia. lia. }
  assert (12 <= map_size n < 2 ^ 32) as Hms.
  { unfold map_size. autounfold with layout. simpl. assert (1 <= (n + 15) / 16 < 2 ^ 28) by mod_lia. lia. }
  unfold ring_buffer_GetSize_global. autounfold with layout. rewrite u32_small by lia. rewrite Esz.
  apply wp_bind. eapply wp_mono; [apply mr_init_spec; autounfold with layout; try lia; apply (valid_sub _ _ _ _ _ Hv); lia|].
  intros ids m1 (-> & Hring & M1). apply wp_bind.
  assert (ring_buffer_GetNextSection 4 (ring_buffer_Attach region) m1 = Ret (region + (24 + 4 * cap)) m1) as Hnext.
  { apply wp_exact. unfold ring_buffer_GetNextSection, ring_buffer_GetSize, ring_buffer_GetSize_global.
    destruct Hring. autounfold with layout in *. simpl in *. wp_go. rewrite mr_max, u32_small by lia. split; [lia|done]. }
  apply wp_run. eexists _, _. split; [exact Hnext|]. apply wp_bind.
  eapply wp_mono; [apply (um_init_spec fuel Hf)|]; try lia.
  { eapply valid_modifies; [exact M1|]. apply (valid_sub _ _ _ _ _ Hv); lia. }
  { intros x Hx Hy. apply (Hk x Hx). unfold span in *. lia. }
  intros t m2 (Ht & Hb & Hmap & M2). apply wp_ret. split; [done|]. split.
  - split; cbn [ns_ids_ key_to_ns_id_ private_state_]; try done.
    + eapply mr_rep_frame; [exact Hring|exact M2|]. unfold mr_span, span. autounfold with layout. simpl. intros; lia.
    + eexists. split; [exact Hmap|]. apply log_inv_empty. lia.
    + intros x. unfold mr_span, map_span, span. rewrite Ht. autounfold with layout. simpl. lia.
    + intros x Hx Hy. apply (Hk x Hy). unfold mr_span, span in *. autounfold with layout in *. simpl in *. lia.
  - eapply modifies_trans; (eapply modifies_weaken; [eassumption|]); unfold span; autounfold with layout; intros; lia.
Qed.
End rep.
End namespace.

(** Two modules with the keys of MapBuckets.v. *)
Definition ex_modules : list (ipc_string * Module) :=
  [(ex_ab, {| mod_ptr := 1000; mod_id := [77] |}); (ex_ca, {| mod_ptr := 2000; mod_id := [77] |})].

Lemma namespace_correct_witness :
  wp (ns ← ns_tables 4096 2 5 2; ns_add_all 20 ns ex_modules)
     (λ r m', r.2 = [0; 1] ∧ Namespace_GetNamespaceID r.1 ex_ca m' = Ret 1 m' ∧ Namespace_GetModule r.1 1 = 2000) ex_map_mem.
Proof.
  assert (valid ex_map_mem 4096 (24 + 4 * 2 + @map_size _ _ string_bucket 5)) as Hv
    by (apply (proj1 (validb_valid ex_map_mem 4096 84)); vm_compute; reflexivity).
  assert (∀ x, ex_key_mem x → ¬ span 4096 (24 + 4 * 2 + @map_size _ _ string_bucket 5) x) as Hsep.
  { intros x. unfold ex_key_mem, span. change (@map_size _ _ string_bucket 5) with 52. lia. }
  apply wp_bind. eapply wp_mono; [apply (ns_tables_spec (key_mem:=ex_key_mem) 20 4096 2 5 2 ex_map_mem); try lia; done|].
  intros ns m1 (Hb & Hns & M1).
  assert (Forall2 (λ k l, ns_key (key_mem:=ex_key_mem) (um_base_region_ (key_to_ns_id_ ns)) k.1 l m1) ex_modules
            [[97; 98]; [99; 97]]) as Hkeys.
  { rewrite Hb. constructor; [|constructor; [|constructor]]; (eapply ns_key_frame; [exact M1|exact Hsep|]).
    - split; [exact ex_key_ab|exact ex_at_ab|simpl; lia|unfold span, ex_key_mem; simpl; lia].
    - split; [exact ex_key_ca|exact ex_at_ca|simpl; lia|unfold span, ex_key_mem; simpl; lia]. }
  pose proof (namespace_correct (key_mem:=ex_key_mem) 20 ns 5 (2 + 1) 2 0 ex_modules [[97; 98]; [99; 97]] m1
                ltac:(lia) Hns Hkeys ltac:(simpl; lia)) as H.
  eapply wp_mono; [exact H|]. intros r m' (Hids & Hfind & Hmod & M2).
  split; [exact Hids|]. split; [|exact (Hmod 1%nat _ eq_refl)].
  assert (string_key ex_key_mem ex_ca [99; 97] m') as Hk.
  { eapply string_key_frame; [exact M2| |eapply string_key_frame; [exact M1|exact Hsep|exact ex_key_ca]].
    destruct (nr_map _ _ _ _ _ _ _ Hns) as (s & Hmap & _). intros x Hx [Hy|Hy].
    - exact (nr_keys _ _ _ _ _ _ _ Hns x Hy Hx).
    - exact (ur_keys _ _ _ _ _ Hmap x Hx Hy). }
  rewrite (Hfind ex_ca [99; 97] Hk). reflexivity.
Defined.

(** ** Limits *)

(** The vector is not grown for the id just past its end. *)
Lemma register_private_state_past_end :
  Namespace_RegisterPrivateState
    {| ns_ids_ := ring_buffer_Attach 0; key_to_ns_id_ := {| um_header_ := 0; um_base_region_ := 0; um_num_buckets_ := 0;
         um_buckets_ := 0; um_bitmap_ := 0 |}; private_state_ := [1000]; module_id_to_instance_ := ∅ |} 1 2000 ∅ = Fault.
Proof. reflexivity. Qed.

(** Running a sequence backwards; loads leave the memory. *)
Lemma ret_bind_inv {A B} (c : M A) (k : A → M B) b m m' :
  (c ≫= k) m = Ret b m' → ∃ a m1, c m = Ret a m1 ∧ k a m1 = Ret b m'.
Proof. unfold mbind, M_bind. destruct (c m) as [a m1| | |]; intros H; try done. eauto. Qed.

Lemma ret_load n p x m m' : load n p m = Ret x m' → m' = m.
Proof. unfold load. destruct (validb m p n); intros H; by simplify_eq. Qed.

Lemma next_section_same r x m m' : ring_buffer_GetNextSection 4 r m = Ret x m' → m' = m.
Proof.
  unfold ring_buffer_GetNextSection, ring_buffer_GetSize. intros (? & ? & (? & ? & ->%ret_load & H)%ret_bind_inv & H')%ret_bind_inv.
  unfold mret, M_ret in *. congruence.
Qed.

(** A client attaches the allocator of keys to the header of the map. *)
Lemma client_allocator_on_map region m ns alloc m' :
  Client_Namespace_Attach region m = Ret (ns, alloc) m' → sm_header_ alloc = um_header_ (key_to_ns_id_ ns).
Proof.
  unfold Client_Namespace_Attach. intros H. apply ret_bind_inv in H as (s1 & m1 & E1 & H).
  pose proof (next_section_same _ _ _ _ E1) as ->. apply ret_bind_inv in H as (map & m2 & E2 & H).
  unfold unordered_map_Attach in E2. apply ret_bind_inv in E2 as (nb & m3 & ->%ret_load & E2).
  unfold mret, M_ret in E2. injection E2 as <- <-. apply ret_bind_inv in H as (s2 & m4 & E4 & H).
  rewrite E1 in E4. injection E4 as <- <-. apply ret_bind_inv in H as (al & m5 & E5 & H).
  unfold mret, M_ret in H. injection H as <- <- _. cbn [key_to_ns_id_ um_header_].
  unfold labstor_shmem_allocator_Attach in E5. apply ret_bind_inv in E5 as (? & ? & _ & E5).
  apply ret_bind_inv in E5 as (? & ? & _ & E5). apply ret_bind_inv in E5 as (? & ? & _ & E5).
  unfold mret, M_ret in E5. by injection E5 as <- _.
Qed.
