(* ===== verification/QueuePool.v ===== *)
(** * QueuePool.v: the queue pairs of a process

    userspace/types/queue_pool.h: queue pairs by type, flags and number.  A
    C++ exception is [None]; INVALID_QP_QUERY is the only one.  A queue pair
    is its address and its queue id (RequestQueue.v). *)

From S2P Require Import Prelude RequestQueue.

Local Open Scope Z_scope.

Record queue_pair_ref := { qpr_ptr : Z; qpr_qid : labstor_qid_t }.

Record QueuePool := {
  qp_type_to_id_ : gmap (list Z) Z;
  qps_ : list (list (list queue_pair_ref))
}.

(** [v[i]] after the test [i >= v.size()], in which [i] is converted to
    [size_t]. *)
Definition checked_at {A} (v : list A) (i : Z) : option A :=
  if u64 i >=? Z.of_nat (length v) then None else v !! Z.to_nat i.

Definition LABSTOR_QP_ALL_FLAGS : Z := 31.

(** The names of types are strings of bytes. *)
Definition QueuePool_RegisterQueuePairType (p : QueuePool) (qp_type : list Z) (possible_flags : Z) : QueuePool * Z :=
  let ids := match qp_type_to_id_ p !! qp_type with
             | Some _ => qp_type_to_id_ p
             | None => <[qp_type := Z.of_nat (size (qp_type_to_id_ p))]> (qp_type_to_id_ p)
             end in
  ({| qp_type_to_id_ := ids; qps_ := qps_ p ++ [replicate (Z.to_nat (possible_flags + 1)) []] |},
   default 0 (ids !! qp_type)).

(** [QueuePool()]: the type "LabStor". *)
Definition QueuePool_new : QueuePool :=
  (QueuePool_RegisterQueuePairType {| qp_type_to_id_ := ∅; qps_ := [] |} [76; 97; 98; 83; 116; 111; 114]
     LABSTOR_QP_ALL_FLAGS).1.

(** Reserving changes the capacity of a vector only. *)
Definition QueuePool_ReserveQueues (p : QueuePool) (type flags n : Z) : option QueuePool :=
  qps_type ← checked_at (qps_ p) type;
  _ ← checked_at qps_type flags;
  Some p.

(** [operator []] adds the name with the id 0. *)
Definition QueuePool_GetQueuePairTypeID (p : QueuePool) (qp_type : list Z) : QueuePool * Z :=
  let id := default 0 (qp_type_to_id_ p !! qp_type) in
  ({| qp_type_to_id_ := <[qp_type := id]> (qp_type_to_id_ p); qps_ := qps_ p |}, id).

Definition QueuePool_RegisterQueuePair (p : QueuePool) (qp : queue_pair_ref) : option QueuePool :=
  let qid := qpr_qid qp in
  qps_type ← checked_at (qps_ p) (qid_type_ qid);
  qps_flags ← checked_at qps_type (qid_flags_ qid);
  Some {| qp_type_to_id_ := qp_type_to_id_ p;
          qps_ := <[Z.to_nat (qid_type_ qid) := <[Z.to_nat (qid_flags_ qid) := qps_flags ++ [qp]]> qps_type]> (qps_ p) |}.

Definition QueuePool_GetQueuePair (p : QueuePool) (type flags off : Z) : option queue_pair_ref :=
  qps_type ← checked_at (qps_ p) type;
  qps_flags ← checked_at qps_type flags;
  checked_at qps_flags off.

Definition QueuePool_GetQueuePair_qid (p : QueuePool) (qid : labstor_qid_t) : option queue_pair_ref :=
  QueuePool_GetQueuePair p (qid_type_ qid) (qid_flags_ qid) (qid_cnt_ qid).

Definition QueuePool_GetQueuePair_qtok (p : QueuePool) (qtok : labstor_qtok_t) : option queue_pair_ref :=
  QueuePool_GetQueuePair_qid p (qtok_qid_ qtok).

Definition QueuePool_GetNumQueuePairs (p : QueuePool) (type flags : Z) : option Z :=
  qps_type ← checked_at (qps_ p) type;
  qps_flags ← checked_at qps_type flags;
  Some (s32 (Z.of_nat (length qps_flags))).

(** Without the tests: [None] is an access out of range. *)
Definition QueuePool_GetNumQueuePairsFast (p : QueuePool) (type flags : Z) : option Z :=
  qps_type ← qps_ p !! Z.to_nat type;
  qps_flags ← qps_type !! Z.to_nat flags;
  Some (s32 (Z.of_nat (length qps_flags))).

(** ** The pool by type and flags *)

(** The list of a type and flags that exist. *)
Definition pool_list (p : QueuePool) (type flags : Z) : option (list queue_pair_ref) :=
  qps_type ← checked_at (qps_ p) type; checked_at qps_type flags.

Definition qid_ok (qid : labstor_qid_t) : Prop := 0 <= qid_type_ qid < 256 ∧ 0 <= qid_flags_ qid < 256.

Definition same_list (type flags : Z) (qp : queue_pair_ref) : bool :=
  (qid_type_ (qpr_qid qp) =? type) && (qid_flags_ (qpr_qid qp) =? flags).

Lemma checked_at_some {A} (v : list A) i x :
  0 <= i < 2 ^ 31 → checked_at v i = Some x ↔ v !! Z.to_nat i = Some x.
Proof.
  intros Hi. unfold checked_at. rewrite u64_small, Z.geb_leb by lia. destruct (Z.leb_spec (Z.of_nat (length v)) i); [|done].
  split; [done|]. intros H1%lookup_lt_Some. lia.
Qed.

Lemma checked_at_insert {A} (v : list A) i j x :
  0 <= i < 2 ^ 31 → 0 <= j < 2 ^ 31 → is_Some (checked_at v i) →
  checked_at (<[Z.to_nat i := x]> v) j = if decide (i = j) then Some x else checked_at v j.
Proof.
  intros Hi Hj [y Hy%checked_at_some]; [|done]. pose proof (lookup_lt_Some _ _ _ Hy).
  destruct (decide (i = j)) as [<-|Hne]; [apply checked_at_some; [done|]; by apply list_lookup_insert_eq|].
  unfold checked_at. rewrite length_insert. destruct (_ >=? _); [done|]. apply list_lookup_insert_ne. lia.
Qed.

(** Registration appends to one list and leaves the others; it fails when the
    list does not exist. *)
Lemma register_pool_list p qp type flags :
  qid_ok (qpr_qid qp) → 0 <= type < 256 → 0 <= flags < 256 →
  match QueuePool_RegisterQueuePair p qp with
  | Some p' => is_Some (pool_list p (qid_type_ (qpr_qid qp)) (qid_flags_ (qpr_qid qp))) ∧
      pool_list p' type flags = if same_list type flags qp then (λ l, l ++ [qp]) <$> pool_list p type flags else pool_list p type flags
  | None => pool_list p (qid_type_ (qpr_qid qp)) (qid_flags_ (qpr_qid qp)) = None
  end.
Proof.
  destruct qp as [ptr [f t c pid]]. unfold qid_ok, same_list, QueuePool_RegisterQueuePair, pool_list. simpl. intros [Ht Hf] Htype Hflags.
  destruct (checked_at (qps_ p) t) as [qt|] eqn:Et; simpl; [|done].
  destruct (checked_at qt f) as [qf|] eqn:Ef; simpl; [|done]. split; [by eexists|].
  rewrite checked_at_insert by (first [lia|by eexists]).
  destruct (decide (t = type)) as [<-|Hne].
  - rewrite Z.eqb_refl, Et. simpl. rewrite checked_at_insert by (first [lia|by eexists]).
    destruct (decide (f = flags)) as [<-|Hne]; [by rewrite Z.eqb_refl, Ef|].
    by rewrite (proj2 (Z.eqb_neq f flags)) by done.
  - by rewrite (proj2 (Z.eqb_neq t type)) by done.
Qed.

(** Registration of several queue pairs, in which a failure is an exception
    the caller handles. *)
Definition register_all (p : QueuePool) (l : list queue_pair_ref) : QueuePool :=
  foldl (λ p qp, default p (QueuePool_RegisterQueuePair p qp)) p l.

Lemma register_all_pool_list l p type flags :
  Forall (λ qp, qid_ok (qpr_qid qp)) l → 0 <= type < 256 → 0 <= flags < 256 →
  pool_list (register_all p l) type flags = (λ k, k ++ filter (λ qp, same_list type flags qp = true) l) <$> pool_list p type flags.
Proof.
  intros Hl Ht Hf. revert p. induction Hl as [|qp l Hqp Hl IH]; intros p; simpl.
  { destruct (pool_list p type flags); simpl; by rewrite ?app_nil_r. }
  rewrite IH. pose proof (register_pool_list p qp type flags Hqp Ht Hf) as Hr.
  destruct (QueuePool_RegisterQueuePair p qp) as [p'|]; simpl.
  - destruct Hr as [_ ->]. destruct (same_list type flags qp) eqn:E.
    + rewrite filter_cons_True by done. destruct (pool_list p type flags); simpl; [|done]. by rewrite <-app_assoc.
    + rewrite filter_cons_False by (by rewrite E). done.
  - destruct (same_list type flags qp) eqn:E; [|by rewrite filter_cons_False by (by rewrite E)].
    unfold same_list in E. apply andb_true_iff in E as [<-%Z.eqb_eq <-%Z.eqb_eq]. by rewrite Hr.
Qed.

(** The queue pool keeps queue pairs by type and flags in the order they
    were registered: for any sequence of registrations a lookup gives the
    [off]th queue pair registered with that type and those flags, and throws
    when the type, the flags or the number does not exist.  The count is the
    number of those queue pairs. *)
Theorem queue_pool_lookup l type flags off :
  Forall (λ qp, qid_ok (qpr_qid qp)) l → 0 <= type < 256 → 0 <= flags < 256 → 0 <= off < 2 ^ 31 →
  let mine := filter (λ qp, same_list type flags qp = true) l in
  let p := register_all QueuePool_new l in
  Z.of_nat (length mine) < 2 ^ 31 →
  QueuePool_GetQueuePair p type flags off =
    (if (type =? 0) && (flags <=? LABSTOR_QP_ALL_FLAGS) then mine !! Z.to_nat off else None) ∧
  QueuePool_GetNumQueuePairs p type flags =
    (if (type =? 0) && (flags <=? LABSTOR_QP_ALL_FLAGS) then Some (Z.of_nat (length mine)) else None).
Proof.
  intros Hl Ht Hf Ho mine p Hlen.
  assert (pool_list QueuePool_new type flags = if (type =? 0) && (flags <=? 31) then Some [] else None) as Hnew.
  { unfold pool_list, checked_at. rewrite !u64_small, !Z.geb_leb by lia.
    change (qps_ QueuePool_new) with [replicate 32 (@nil queue_pair_ref)]. simpl length.
    destruct (Z.eqb_spec type 0) as [->|Hne]; [|by rewrite (proj2 (Z.leb_le _ _)) by lia]. simpl.
    rewrite (Z.leb_antisym 31 flags), Z.geb_leb.
    destruct (Z.ltb_spec 31 flags); [by rewrite (proj2 (Z.leb_le _ _)) by lia|].
    rewrite (proj2 (Z.leb_gt _ _)) by lia. apply (lookup_replicate_2 32). lia. }
  pose proof (register_all_pool_list l QueuePool_new type flags Hl Ht Hf) as Hp. fold p mine in Hp. rewrite Hnew in Hp.
  unfold QueuePool_GetQueuePair, QueuePool_GetNumQueuePairs, LABSTOR_QP_ALL_FLAGS. unfold pool_list in Hp.
  destruct (checked_at (qps_ p) type) as [qt|]; simpl in *.
  - rewrite Hp. destruct ((type =? 0) && (flags <=? 31)); simpl; [|done]. split; [|by rewrite s32_small by lia].
    unfold checked_at. rewrite u64_small, Z.geb_leb by lia. destruct (Z.leb_spec (Z.of_nat (length mine)) off); [|done].
    symmetry. apply lookup_ge_None. lia.
  - by destruct ((type =? 0) && (flags <=? 31)).
Qed.

Lemma queue_pool_lookup_witness :
  let qp n flags := {| qpr_ptr := n; qpr_qid := {| qid_flags_ := flags; qid_type_ := 0; qid_cnt_ := 0; qid_pid_ := 1 |} |} in
  let p := register_all QueuePool_new [qp 100 1; qp 200 2; qp 300 1; qp 400 40] in
  QueuePool_GetQueuePair p 0 1 1 = Some (qp 300 1) ∧ QueuePool_GetNumQueuePairs p 0 1 = Some 2.
Proof.
  intros qp p. apply (queue_pool_lookup [qp 100 1; qp 200 2; qp 300 1; qp 400 40] 0 1 1).
  - repeat (constructor; [unfold qid_ok; simpl; lia|]). constructor.
  - lia.
  - lia.
  - lia.
  - reflexivity.
Defined.

(** ** Limits *)

(** Asking for a type that was never registered enters its name, and the id
    of the next type no longer is its place in the pool. *)
Lemma type_query_breaks_ids :
  let p := (QueuePool_GetQueuePairTypeID QueuePool_new [88]).1 in
  let '(p', id) := QueuePool_RegisterQueuePairType p [89] 3 in
  id = 2 ∧ pool_list p' id 0 = None ∧ pool_list p' 1 0 = Some [].
Proof. vm_compute. done. Qed.
