(* ===== verification/Formatter.v ===== *)
(** * Formatter.v: formatted messages and errors

    userspace/util/serializeable.h ([SizeType], [Arg], [ArgPacker],
    [Formatter::format]), error.h and errors.h.  Text is a list of bytes.
    [None] is undefined behaviour: an argument that was not passed, or a write
    past the 8192 bytes of the buffer that [format] allocates.  The floating
    point types are the binary formats of IEEE 754 (Stdlib's [spec_float]);
    [std::to_string] prints them as printf does with %f.

    [format_correct] says what [format] computes in terms of the text between
    the placeholders. *)

From Stdlib Require Import SpecFloat String Ascii.
From S2P Require Import Prelude.

Local Open Scope Z_scope.

(** The bytes of a literal. *)
Definition chars (s : string) : list Z := (λ c, Z.of_N (N_of_ascii c)) <$> list_ascii_of_string s.

(** ** [std::to_string] *)

(** Decimal digits; [fuel] bounds their number. *)
Fixpoint decimal (fuel : nat) (n : Z) (acc : list Z) : list Z :=
  match fuel with
  | O => acc
  | S fuel' => if n <? 10 then 48 + n :: acc else decimal fuel' (n / 10) (48 + n mod 10 :: acc)
  end.

Definition decimal_digits (n : Z) : list Z := decimal (S (Z.to_nat (Z.log2 n))) n [].

Definition to_string (n : Z) : list Z :=
  if n <? 0 then 45 :: decimal_digits (- n) else decimal_digits n.

Definition round_half_even (num den : Z) : Z :=
  let q := num / den in
  match 2 * (num mod den) ?= den with
  | Lt => q
  | Gt => q + 1
  | Eq => if Z.even q then q else q + 1
  end.

Definition sign_text (s : bool) : list Z := if s then [45] else [].

(** Millionths, as an integer part and six digits. *)
Definition fixed_text (n : Z) : list Z :=
  decimal_digits (n / 10 ^ 6) ++ 46 :: ((λ d, 48 + n / d mod 10) <$> [10 ^ 5; 10 ^ 4; 10 ^ 3; 10 ^ 2; 10; 1]).

Definition to_string_float (x : spec_float) : list Z :=
  match x with
  | S754_nan => chars "nan"
  | S754_infinity s => sign_text s ++ chars "inf"
  | S754_zero s => sign_text s ++ fixed_text 0
  | S754_finite s m e =>
      sign_text s ++
      fixed_text (if 0 <=? e then Z.pos m * 2 ^ e * 10 ^ 6
                  else round_half_even (Z.pos m * 10 ^ 6) (2 ^ (- e)))
  end.

(** Conversion of an integer to [double], and division of doubles. *)
Definition double_of_int (n : Z) : spec_float := binary_normalize 53 1024 n 0 false.
Definition double_div : spec_float → spec_float → spec_float := SFdiv 53 1024.

(** ** SizeType *)

Record SizeType := { num_ : spec_float; unit_ : Z }.

Definition SizeType_BYTES : Z := 1.
Definition SizeType_KB : Z := Z.shiftl 1 10.
Definition SizeType_MB : Z := Z.shiftl 1 20.
Definition SizeType_GB : Z := Z.shiftl 1 30.
Definition SizeType_TB : Z := Z.shiftl 1 40.

Definition SizeType_unit_to_str (unit : Z) : list Z :=
  if unit =? SizeType_BYTES then chars "BYTES"
  else if unit =? SizeType_KB then chars "KB"
  else if unit =? SizeType_MB then chars "MB"
  else if unit =? SizeType_GB then chars "GB"
  else if unit =? SizeType_TB then chars "TB"
  else [].

Definition SizeType_default : SizeType := {| num_ := S754_zero false; unit_ := 0 |}.
Definition SizeType_copy (old_obj : SizeType) : SizeType := {| num_ := num_ old_obj; unit_ := unit_ old_obj |}.

(** The constructors from integer types, and from [float] and [double]. *)
Definition SizeType_of_int (bytes unit : Z) : SizeType :=
  {| num_ := double_div (double_of_int bytes) (double_of_int unit); unit_ := unit |}.
Definition SizeType_of_float (bytes : spec_float) (unit : Z) : SizeType :=
  {| num_ := double_div bytes (double_of_int unit); unit_ := unit |}.

Definition SizeType_ToString (s : SizeType) : list Z :=
  to_string_float (num_ s) ++ SizeType_unit_to_str (unit_ s).

(** ** Arg *)

(** One constructor per C++ constructor that sets [type_] to 0, ..., 13.  The
    template constructor takes any other [Serializeable] object and sets
    [type_] to 11 as the constructors from strings do. *)
Inductive Arg :=
| Arg_d8 (num : Z) | Arg_d16 (num : Z) | Arg_d32 (num : Z) | Arg_d64 (num : Z)
| Arg_u8 (num : Z) | Arg_u16 (num : Z) | Arg_u32 (num : Z) | Arg_u64 (num : Z)
| Arg_f32 (num : spec_float) | Arg_f64 (num : spec_float) | Arg_f96 (num : spec_float)
| Arg_cstr (str : option (list Z)) | Arg_str (str : list Z)
| Arg_obj (obj : SizeType) | Arg_obj_shared (obj : SizeType)
| Arg_template (obj : SizeType).

(** The text that [Arg::serialize] copies to the buffer.  For the template
    constructor [str_] is the empty string. *)
Definition Arg_text (a : Arg) : list Z :=
  match a with
  | Arg_d8 num | Arg_d16 num | Arg_d32 num | Arg_d64 num
  | Arg_u8 num | Arg_u16 num | Arg_u32 num | Arg_u64 num => to_string num
  | Arg_f32 num | Arg_f64 num | Arg_f96 num => to_string_float num
  | Arg_cstr str => default [] str
  | Arg_str str => str
  | Arg_obj obj | Arg_obj_shared obj => SizeType_ToString obj
  | Arg_template _ => []
  end.

(** ** Formatter *)

(** [memcpy(buffer + off, text, text.size())]. *)
Definition buffer_copy (buffer : list Z) (off : nat) (text : list Z) : option (list Z) :=
  if decide (off + length text <= length buffer)%nat
  then Some (take off buffer ++ text ++ drop (off + length text) buffer) else None.

Definition Arg_serialize (a : Arg) (buffer : list Z) (off : nat) : option (list Z * nat) :=
  buffer ← buffer_copy buffer off (Arg_text a); Some (buffer, length (Arg_text a)).

(** The loop over [fmt], of which [fmt] is the part from index [i].  The
    character after the last one is the terminator. *)
Fixpoint format_loop (args : list Arg) (fmt : list Z) (arg : nat) (buffer : list Z) (off : nat)
    : option (list Z * nat) :=
  match fmt with
  | [] => Some (buffer, off)
  | c :: fmt1 =>
      let literal :=
        buffer ← buffer_copy buffer off [c]; format_loop args fmt1 arg buffer (off + 1) in
      match fmt1 with
      | c1 :: fmt2 =>
          if (c =? 123) && (c1 =? 125) then
            a ← args !! arg;
            '(buffer, n) ← Arg_serialize a buffer off;
            format_loop args fmt2 (arg + 1) buffer (off + n)
          else literal
      | [] => literal
      end
  end.

Definition FORMAT_BUFFER_SIZE : nat := Z.to_nat 8192.

Definition Formatter_format (fmt : list Z) (args : list Arg) : option (list Z) :=
  let buffer := replicate FORMAT_BUFFER_SIZE 0 in
  '(buffer, off) ← format_loop args fmt 0 buffer 0;
  Some (take off buffer).

(** ** Errors *)

Record Error := { code_ : Z; fmt_ : list Z; msg_ : list Z }.

Definition Error_new (code : Z) (fmt : list Z) : Error := {| code_ := code; fmt_ := fmt; msg_ := [] |}.
Definition Error_get_code (e : Error) : Z := code_ e.
Definition Error_format (e : Error) (args : list Arg) : option Error :=
  msg ← Formatter_format (fmt_ e) args;
  Some {| code_ := code_ e; fmt_ := fmt_ e; msg_ := msg |}.
Definition LABSTOR_ERROR_IS (err check : Error) : bool := Error_get_code err =? Error_get_code check.

(** errors.h: the constants by name, each with its code and format. *)
Definition errors : list (string * Error) :=
  (λ '(name, code, fmt), (name, Error_new code (chars fmt))) <$> [
    ("FILE_NOT_FOUND"%string, 0, "File not found at {}"%string);
    ("INVALID_STORAGE_TYPE"%string, 1, "{} is not a valid storage method"%string);
    ("INVALID_SERIALIZER_TYPE"%string, 2, "{} is not a valid serializer type"%string);
    ("INVALID_TRANSPORT_TYPE"%string, 3, "{} is not a valid transport type"%string);
    ("INVALID_AFFINITY"%string, 3, "Could not set CPU affinity of thread: {}"%string);
    ("MMAP_FAILED"%string, 4, "Could not mmap file: {}"%string);
    ("LAZY_ERROR"%string, 5, "Error in function {}"%string);
    ("DLSYM_MODULE_NOT_FOUND"%string, 100, "Module {} was not loaded; error {}"%string);
    ("DLSYM_MODULE_NO_CONSTRUCTOR"%string, 101, "Module {} has no constructor"%string);
    ("UNIX_SOCKET_FAILED"%string, 200, "Failed to create socket: {}"%string);
    ("UNIX_BIND_FAILED"%string, 201, "Failed to bind socket: {}"%string);
    ("UNIX_CONNECT_FAILED"%string, 202, "Failed to connect over socket: {}"%string);
    ("UNIX_SENDMSG_FAILED"%string, 203, "Failed to send message over socket: {}"%string);
    ("UNIX_RECVMSG_FAILED"%string, 204, "Failed to receive message over socket: {}"%string);
    ("UNIX_SETSOCKOPT_FAILED"%string, 205, "Failed to set socket options: {}"%string);
    ("UNIX_GETSOCKOPT_FAILED"%string, 205, "Failed to acquire user credentials: {}"%string);
    ("UNIX_LISTEN_FAILED"%string, 206, "Failed to listen for connections: {}"%string);
    ("UNIX_ACCEPT_FAILED"%string, 207, "Failed accept connections: {}"%string);
    ("INVALID_RING_BUFFER_SIZE"%string, 300, "Failed to allocate ring buffer, {} is too small to support {} requests."%string);
    ("INVALID_UNORDERED_MAP_SIZE"%string, 301, "Failed to allocate unordered map, {} is too small to support {} requests."%string);
    ("INVALID_UNORDERED_MAP_KEY"%string, 301, "No such key in map"%string);
    ("INVALID_QP_QUERY"%string, 302, "There is no such queue: pid={}, type={}, flags={}, cnt={}."%string);
    ("INVALID_REGION_SUB"%string, 303, "The pointer {} exists outside of {}"%string);
    ("SHMEM_CREATE_FAILED"%string, 400, "Failed to allocate SHMEM"%string);
    ("INVALID_MODULE_ID"%string, 500, "Failed to find module {}"%string);
    ("INVALID_NAMESPACE_ENTRY"%string, 501, "Failed to find namespace entry {}"%string);
    ("WORK_ORCHESTRATOR_WORK_QUEUE_ALLOC_FAILED"%string, 502, "Failed to allocate work queue entries"%string);
    ("WORK_ORCHESTRATOR_WORK_QUEUE_MMAP_FAILED"%string, 503, "Failed to mmap work queue entries"%string);
    ("WORK_ORCHESTRATOR_HAS_NO_WORKERS"%string, 504, "Work orchestrator has no {} workers"%string);
    ("IPC_MANAGER_CANT_REGISTER_QP"%string, 505, "IPCManager failed to register qp"%string);
    ("KERNEL_IPC_MANAGER_FAILED_TO_REGISTER"%string, 506, "IPCManager failed to initialize: {}"%string);
    ("MODULE_DOES_NOT_EXIST"%string, 507, "Module does not exist: {}"%string);
    ("NOT_ENOUGH_REQUEST_MEMORY"%string, 508, "{}: {} were allocated. Minimum of {} expected"%string);
    ("FAILED_TO_ASSIGN_QUEUE"%string, 509, "Failed to assign queue {} to worker {}"%string);
    ("INVALID_QP_FLAGS"%string, 510, "Attempted to find QP with invalid flags set: {}"%string);
    ("INVALID_QP_CNT"%string, 511, "Attempted to find QP with invalid index: {}"%string);
    ("FAILED_TO_SET_NAMESPACE_KEY"%string, 512, "Failed to insert {} into the namespace"%string);
    ("SPDK_CANT_CREATE_QP"%string, 513, "Failed to allocate queue {}"%string);
    ("SPDK_CANT_RESET_ZONE"%string, 513, "Failed to reset zone"%string);
    ("FAILED_TO_ENQUEUE"%string, 508, "Failed to enqueue a request"%string);
    ("FAILED_TO_DEQUEUE"%string, 509, "Failed to enqueue a request"%string);
    ("FAILED_TO_COMPLETE"%string, 510, "Failed to enqueue a request"%string);
    ("QP_WAIT_TIMED_OUT"%string, 511, "Failed to wait for a request"%string);
    ("NOT_YET_IMPLEMENTED"%string, 1000, "{} is not yet implemented"%string)].

(** ** What a format means *)

(** The text up to the first placeholder, and the text after each one. *)
Fixpoint pieces (fmt : list Z) : list Z * list (list Z) :=
  match fmt with
  | [] => ([], [])
  | c :: fmt1 =>
      let literal := let '(p, ps) := pieces fmt1 in (c :: p, ps) in
      match fmt1 with
      | c1 :: fmt2 =>
          if (c =? 123) && (c1 =? 125) then let '(p, ps) := pieces fmt2 in ([], p :: ps)
          else literal
      | [] => literal
      end
  end.

(** Text without a placeholder. *)
Definition plain (p : list Z) : Prop := ∀ i, ¬ (p !! i = Some 123 ∧ p !! S i = Some 125).

(** Text with a placeholder before each further piece, and the same with the
    text of the arguments in their place. *)
Definition with_holes (p : list Z) (ps : list (list Z)) : list Z := p ++ concat ((λ q, [123; 125] ++ q) <$> ps).
Definition filled (p : list Z) (ps : list (list Z)) (args : list Arg) : list Z :=
  p ++ concat (zip_with (λ a q, Arg_text a ++ q) args ps).

(** Induction on a format the way the loop goes through it. *)
Lemma format_ind (P : list Z → Prop) :
  P [] →
  (∀ c fmt, ¬ (c = 123 ∧ fmt !! 0%nat = Some 125) → P fmt → P (c :: fmt)) →
  (∀ fmt, P fmt → P (123 :: 125 :: fmt)) →
  ∀ fmt, P fmt.
Proof.
  intros H0 H1 H2 fmt. remember (length fmt) as n eqn:Hn. revert fmt Hn.
  induction (lt_wf n) as [n _ IH]. intros [|c fmt] ->; [done|].
  destruct (decide (c = 123 ∧ fmt !! 0%nat = Some 125)) as [[-> Hc]|Hc].
  - destruct fmt as [|c1 fmt]; simplify_eq/=. apply H2, (IH (length fmt)); [lia|done].
  - apply H1; [done|]. apply (IH (length fmt)); [simpl; lia|done].
Qed.

Lemma hole_test c fmt :
  ¬ (c = 123 ∧ fmt !! 0%nat = Some 125) →
  ∀ c1 fmt2, fmt = c1 :: fmt2 → (c =? 123) && (c1 =? 125) = false.
Proof.
  intros Hc c1 fmt2 ->. apply andb_false_iff. destruct (Z.eqb_spec c 123), (Z.eqb_spec c1 125); subst; naive_solver.
Qed.

Lemma pieces_literal c fmt :
  ¬ (c = 123 ∧ fmt !! 0%nat = Some 125) → pieces (c :: fmt) = (c :: (pieces fmt).1, (pieces fmt).2).
Proof.
  intros Hc. pose proof (hole_test _ _ Hc) as Ht. cbn [pieces].
  destruct fmt as [|c1 fmt2]; [done|]. rewrite (Ht _ _ eq_refl). by destruct (pieces _).
Qed.

Lemma pieces_hole fmt : pieces (123 :: 125 :: fmt) = ([], (pieces fmt).1 :: (pieces fmt).2).
Proof. cbn [pieces]. by destruct (pieces fmt). Qed.

Lemma pieces_join fmt : with_holes (pieces fmt).1 (pieces fmt).2 = fmt.
Proof.
  induction fmt as [|c fmt Hc IH|fmt IH] using format_ind; [done|..].
  - rewrite pieces_literal by done. unfold with_holes in *. simpl in *. by f_equal.
  - rewrite pieces_hole. unfold with_holes in *. simpl in *. by do 2 f_equal.
Qed.

(** The first piece of a format begins as the format does. *)
Lemma pieces_head fmt c : (pieces fmt).1 !! 0%nat = Some c → fmt !! 0%nat = Some c.
Proof.
  destruct fmt as [|c0 fmt]; [done|]. destruct (decide (c0 = 123 ∧ fmt !! 0%nat = Some 125)) as [[-> Hc]|Hc].
  - destruct fmt as [|c1 fmt]; simplify_eq/=. by destruct (pieces fmt).
  - by rewrite pieces_literal.
Qed.

Lemma pieces_plain fmt : plain (pieces fmt).1 ∧ Forall plain (pieces fmt).2.
Proof.
  induction fmt as [|c fmt Hc [IH1 IH2]|fmt [IH1 IH2]] using format_ind.
  - split; [|constructor]. intros i [H _]. by destruct i.
  - rewrite pieces_literal by done. split; [|done]. intros [|i] [Hi1 Hi2]; simpl in *; [|by apply (IH1 i)].
    simplify_eq. by apply Hc; split; [|apply pieces_head].
  - rewrite pieces_hole. split; [|by constructor]. intros i [H _]. by destruct i.
Qed.

(** ** The loop *)

(** The buffer holds [text] and has room for [room] more bytes. *)
Definition holds (buffer text : list Z) (room : nat) : Prop :=
  take (length text) buffer = text ∧ length buffer = (length text + room)%nat.

Lemma buffer_copy_spec buffer text new room :
  holds buffer text room →
  match buffer_copy buffer (length text) new with
  | Some buffer' => (length new <= room)%nat ∧ holds buffer' (text ++ new) (room - length new)
  | None => (room < length new)%nat
  end.
Proof.
  intros [Ht Hl]. unfold buffer_copy. case_decide as H; [|lia]. split; [lia|]. unfold holds.
  rewrite Ht, !length_app, app_assoc. split.
  - rewrite take_app_le by (rewrite length_app; lia). apply take_ge. rewrite length_app; lia.
  - rewrite length_drop. lia.
Qed.

(** The loop appends to the buffer what the rest of the format means, if
    there are enough arguments and enough room. *)
Lemma format_loop_spec args fmt arg buffer text room :
  holds buffer text room →
  let '(p, ps) := pieces fmt in
  let out := filled p ps (drop arg args) in
  match format_loop args fmt arg buffer (length text) with
  | Some (buffer', off) =>
      (length ps <= length (drop arg args))%nat ∧ (length out <= room)%nat ∧
      off = length (text ++ out) ∧ holds buffer' (text ++ out) (room - length out)
  | None => (length (drop arg args) < length ps)%nat ∨ (room < length out)%nat
  end.
Proof.
  revert arg buffer text room. induction fmt as [|c fmt Hc IH|fmt IH] using format_ind; intros arg buffer text room Hh.
  - simpl. unfold filled. rewrite zip_with_nil_r. simpl. rewrite app_nil_r, Nat.sub_0_r. split; [lia|]. split; [lia|done].
  - rewrite pieces_literal by done. pose proof (hole_test _ _ Hc) as Ht.
    assert (format_loop args (c :: fmt) arg buffer (length text) =
      buffer_copy buffer (length text) [c] ≫= λ buffer, format_loop args fmt arg buffer (length text + 1)) as ->.
    { cbn [format_loop]. destruct fmt as [|c1 fmt2]; [done|]. by rewrite (Ht _ _ eq_refl). }
    pose proof (buffer_copy_spec buffer text [c] room Hh) as Hb.
    destruct (buffer_copy buffer (length text) [c]) as [buffer1|]; simpl in *.
    + destruct Hb as [Hr Hh1]. specialize (IH arg buffer1 (text ++ [c]) (room - 1)%nat Hh1).
      rewrite length_app in IH. simpl in IH. destruct (pieces fmt) as [p ps]. simpl in *.
      unfold filled in *. simpl. destruct (format_loop _ _ _ _ _) as [[buffer2 off]|].
      * destruct IH as (H1 & H2 & -> & H3). rewrite <-app_assoc in *. simpl in *. split; [done|]. split; [lia|]. split; [done|].
        replace (room - S _)%nat with (room - 1 - length (p ++ concat (zip_with (λ a q, Arg_text a ++ q) (drop arg args) ps)))%nat by lia.
        done.
      * destruct IH; [by left|right; lia].
    + right. unfold filled. simpl. lia.
  - rewrite pieces_hole. cbn [format_loop]. change ((123 =? 123) && (125 =? 125)) with true. cbv iota.
    destruct (args !! arg) as [a|] eqn:Ea; simpl.
    + unfold Arg_serialize. pose proof (buffer_copy_spec buffer text (Arg_text a) room Hh) as Hb.
      rewrite (drop_S _ _ _ Ea). unfold filled. simpl.
      destruct (buffer_copy buffer (length text) (Arg_text a)) as [buffer1|]; simpl in *.
      * destruct Hb as [Hr Hh1]. specialize (IH (arg + 1)%nat buffer1 (text ++ Arg_text a) _ Hh1).
        rewrite length_app, Nat.add_1_r in IH. rewrite Nat.add_1_r. destruct (pieces fmt) as [p ps]. simpl in *. unfold filled in *.
        set (rest := p ++ concat _) in *. rewrite <-app_assoc. fold rest. rewrite length_app.
        destruct (format_loop _ _ _ _ _) as [[buffer2 off]|].
        -- destruct IH as (H1 & H2 & -> & H3). rewrite <-app_assoc in *. split; [lia|]. split; [lia|]. split; [done|].
           by replace (room - (length (Arg_text a) + length rest))%nat with (room - length (Arg_text a) - length rest)%nat by lia.
        -- destruct IH; [left; lia|right; lia].
      * right. rewrite <-app_assoc, length_app. lia.
    + left. simpl. rewrite drop_ge by (by apply lookup_ge_None). simpl. lia.
Qed.

(** C24. [Formatter::format], for every format and every list of arguments:
    the format splits in exactly one way into pieces without a placeholder,
    one more than it has placeholders; the result is the first piece followed
    by the text of each argument and the next piece; and the call is free of
    undefined behaviour exactly when there is an argument for each placeholder
    and the result has at most 8192 bytes. *)
Theorem format_correct fmt args :
  let '(p, ps) := pieces fmt in
  with_holes p ps = fmt ∧ plain p ∧ Forall plain ps ∧
  Formatter_format fmt args =
    if bool_decide ((length ps <= length args)%nat ∧ Z.of_nat (length (filled p ps args)) <= 8192)
    then Some (filled p ps args) else None.
Proof.
  pose proof (pieces_join fmt) as Hj. pose proof (pieces_plain fmt) as [Hp Hps].
  assert (holds (replicate FORMAT_BUFFER_SIZE 0) [] FORMAT_BUFFER_SIZE) as Hh by (split; [done|by rewrite length_replicate]).
  pose proof (format_loop_spec args fmt 0 _ _ _ Hh) as Hl. destruct (pieces fmt) as [p ps]. simpl in *.
  split; [done|]. split; [done|]. split; [done|]. rewrite drop_0 in Hl.
  assert (Z.of_nat FORMAT_BUFFER_SIZE = 8192) as Hsize by done.
  unfold Formatter_format. destruct (format_loop _ _ _ _ _) as [[buffer off]|]; simpl.
  - destruct Hl as (H1 & H2 & -> & [H3 _]). rewrite bool_decide_true by lia. by rewrite H3.
  - rewrite bool_decide_false; [done|]. destruct Hl; lia.
Qed.

(** ** The text of integers *)

Fixpoint decimal_value (acc : Z) (l : list Z) : Z :=
  match l with [] => acc | c :: l' => decimal_value (acc * 10 + (c - 48)) l' end.

Definition text_value (l : list Z) : Z :=
  match l with 45 :: l' => - decimal_value 0 l' | _ => decimal_value 0 l end.

Lemma decimal_value_spec fuel n acc :
  0 <= n < 2 ^ Z.of_nat fuel → decimal_value 0 (decimal fuel n acc) = decimal_value n acc.
Proof.
  revert n acc. induction fuel as [|fuel IH]; intros n acc Hn; cbn [decimal].
  { assert (n = 0) as -> by (simpl in Hn; lia). done. }
  rewrite Nat2Z.inj_succ, Z.pow_succ_r in Hn by lia. destruct (Z.ltb_spec n 10) as [H|H].
  { simpl. f_equal. lia. }
  rewrite IH; [|Z.div_mod_to_equations; lia]. simpl. f_equal. Z.div_mod_to_equations; lia.
Qed.

Lemma decimal_head fuel n acc :
  0 <= n → ∃ d l, decimal (S fuel) n acc = d :: l ∧ 48 <= d.
Proof.
  revert n acc. induction fuel as [|fuel IH]; intros n acc Hn; cbn [decimal].
  - destruct (Z.ltb_spec n 10); eexists _, _; (split; [done|]); Z.div_mod_to_equations; lia.
  - destruct (Z.ltb_spec n 10) as [H|H]; [eexists _, _; split; [done|lia]|].
    apply (IH (n / 10)). apply Z.div_pos; lia.
Qed.

Lemma decimal_digits_value n : 0 <= n → decimal_value 0 (decimal_digits n) = n.
Proof.
  intros Hn. unfold decimal_digits. rewrite decimal_value_spec; [done|].
  rewrite Nat2Z.inj_succ, Z2Nat.id by apply Z.log2_nonneg. destruct (decide (n = 0)) as [->|]; [done|].
  pose proof (Z.log2_spec n). lia.
Qed.

(** The text of an integer argument reads back as that integer. *)
Lemma to_string_value n : text_value (to_string n) = n.
Proof.
  unfold to_string. destruct (Z.ltb_spec n 0) as [H|H]; simpl.
  - rewrite decimal_digits_value; lia.
  - pose proof (decimal_digits_value n H) as Hv. unfold decimal_digits in *.
    destruct (decimal_head (Z.to_nat (Z.log2 n)) n [] H) as (d & l & E & Hd). rewrite E in *. unfold text_value.
    destruct (decide (d = 45)); [lia|]. repeat case_match; done.
Qed.

#[export] Instance to_string_inj : Inj (=) (=) to_string.
Proof. intros x y H. by rewrite <-(to_string_value x), H, to_string_value. Qed.

(** ** Limits *)

(** An object passed by value is serialized as the empty string. *)
Lemma template_argument_lost s : Formatter_format (chars "size {}") [Arg_template s] = Some (chars "size ").
Proof. reflexivity. Qed.

Lemma pointer_argument_kept :
  Formatter_format (chars "size {}") [Arg_obj (SizeType_of_int 1536 SizeType_KB)] = Some (chars "size 1.500000KB").
Proof. vm_compute. reflexivity. Qed.

(** Different errors have the same code, and one has the code of success. *)
Lemma error_codes_shared :
  ∃ i j x y, errors !! i = Some x ∧ errors !! j = Some y ∧ x.1 = "NOT_ENOUGH_REQUEST_MEMORY"%string ∧
    y.1 = "FAILED_TO_ENQUEUE"%string ∧ LABSTOR_ERROR_IS x.2 y.2 = true.
Proof. exists 32%nat, 39%nat. do 2 eexists. by repeat (split; [reflexivity|]). Qed.
