(* ===== verification/Socket.v ===== *)
(** * Socket.v: messages over a stream socket

    userspace/types/socket.h and messages.h, and the exchange of messages when
    a client connects (the socket calls of client/ipc_manager.cpp and
    server/ipc_manager.cpp).

    The socket is non-blocking.  What a call of [recv] or [send] can transfer
    at that moment is decided by the peer and the kernel: each call takes the
    next number of a schedule, the number of bytes that can be moved, and a
    call after the end of the schedule is [Pending].  A call that can move
    nothing fails with EAGAIN; [recv] on a connection that the peer has closed
    returns 0 and leaves [errno] as it was. *)

From S2P Require Import Prelude RequestQueue QueuePair.

Local Open Scope Z_scope.

(** ** The system calls *)

Definition EAGAIN : Z := 11.
Definition EWOULDBLOCK : Z := EAGAIN.

(** One end of a connection: bytes sent by the peer and not yet received,
    whether the peer has closed, bytes sent, and the [errno] of the thread. *)
Record endpoint := {
  ep_in : list Z;
  ep_closed : bool;
  ep_out : list Z;
  ep_errno : Z
}.

Inductive sresult (A : Type) : Type :=
| SRet (a : A) (e : endpoint) (sched : list nat)
| SThrow (code : Z) (e : endpoint) (sched : list nat)
| Pending (e : endpoint).
Arguments SRet {A} a e sched.
Arguments SThrow {A} code e sched.
Arguments Pending {A} e.

Definition SockM (A : Type) : Type := endpoint → list nat → sresult A.

#[export] Instance SockM_ret : MRet SockM := λ A a e sched, SRet a e sched.
#[export] Instance SockM_bind : MBind SockM := λ A B f c e sched,
  match c e sched with
  | SRet a e' sched' => f a e' sched'
  | SThrow code e' sched' => SThrow code e' sched'
  | Pending e' => Pending e'
  end.

Definition with_in (e : endpoint) (l : list Z) : endpoint :=
  {| ep_in := l; ep_closed := ep_closed e; ep_out := ep_out e; ep_errno := ep_errno e |}.
Definition with_out (e : endpoint) (l : list Z) : endpoint :=
  {| ep_in := ep_in e; ep_closed := ep_closed e; ep_out := l; ep_errno := ep_errno e |}.
Definition with_errno (e : endpoint) (errno : Z) : endpoint :=
  {| ep_in := ep_in e; ep_closed := ep_closed e; ep_out := ep_out e; ep_errno := errno |}.

(** The returned value and the bytes stored in the buffer. *)
Definition recv (size : Z) (peek : bool) : SockM (Z * list Z) := λ e sched,
  match sched with
  | [] => Pending e
  | n :: sched' =>
      let got := take (n `min` Z.to_nat size) (ep_in e) in
      match got with
      | _ :: _ => SRet (Z.of_nat (length got), got)
                    (if peek then e else with_in e (drop (length got) (ep_in e))) sched'
      | [] =>
          if (size =? 0) || (ep_closed e && bool_decide (ep_in e = [])) then SRet (0, []) e sched'
          else SRet (-1, []) (with_errno e EAGAIN) sched'
      end
  end.

Definition send (bytes : list Z) : SockM Z := λ e sched,
  match sched with
  | [] => Pending e
  | n :: sched' =>
      let moved := take n bytes in
      match moved with
      | _ :: _ => SRet (Z.of_nat (length moved)) (with_out e (ep_out e ++ moved)) sched'
      | [] =>
          if bool_decide (bytes = []) then SRet 0 e sched'
          else SRet (-1) (with_errno e EAGAIN) sched'
      end
  end.

Definition sock_throw {A} (code : Z) : SockM A := λ e sched, SThrow code e sched.
Definition get_errno : SockM Z := λ e sched, SRet (ep_errno e) e sched.

(** ** UnixSocket *)

Definition UNIX_SENDMSG_FAILED : Z := 203.
Definition UNIX_RECVMSG_FAILED : Z := 204.

Definition UnixSocket_safe_recv (size : Z) (peek : bool) : SockM (Z * list Z) :=
  '(ret, got) ← recv size peek;
  if 0 <? ret then mret (ret, got)
  else
    errno ← get_errno;
    if (errno =? EAGAIN) || (errno =? EWOULDBLOCK) then mret (0, []) else sock_throw UNIX_RECVMSG_FAILED.

Definition UnixSocket_safe_send (bytes : list Z) : SockM Z :=
  ret ← send bytes;
  if 0 <? ret then mret ret
  else
    errno ← get_errno;
    if (errno =? EAGAIN) || (errno =? EWOULDBLOCK) then mret 0 else sock_throw UNIX_SENDMSG_FAILED.

(** Bytes stored at offset [net] of the buffer. *)
Definition store_at (buf : list Z) (net : Z) (got : list Z) : list Z :=
  take (Z.to_nat net) buf ++ got ++ drop (Z.to_nat net + length got) buf.

(** The loops of the three functions: one turn takes at least one entry of
    the schedule, so the fuel is the length of the schedule plus one. *)
Fixpoint recv_loop (fuel : nat) (buf : list Z) (net size : Z) : SockM (list Z) :=
  match fuel with
  | O => λ e _, Pending e
  | S fuel' =>
      if net <? size then
        '(cnt, got) ← UnixSocket_safe_recv (size - net) false;
        recv_loop fuel' (store_at buf net got) (net + cnt) size
      else mret buf
  end.

Fixpoint peek_loop (fuel : nat) (buf : list Z) (net size : Z) : SockM (list Z) :=
  match fuel with
  | O => λ e _, Pending e
  | S fuel' =>
      if net <? size then
        '(cnt, got) ← UnixSocket_safe_recv (size - net) true;
        peek_loop fuel' (store_at buf net got) cnt size
      else mret buf
  end.

Fixpoint send_loop (fuel : nat) (buf : list Z) (net size : Z) : SockM unit :=
  match fuel with
  | O => λ e _, Pending e
  | S fuel' =>
      if net <? size then
        cnt ← UnixSocket_safe_send (take (Z.to_nat (size - net)) (drop (Z.to_nat net) buf));
        send_loop fuel' buf (net + cnt) size
      else mret tt
  end.

(** The result and the buffer. *)
Definition UnixSocket_RecvMSG (buf : list Z) (size : Z) (do_wait : bool) : SockM (bool * list Z) := λ e sched,
  ('(cnt, got) ← UnixSocket_safe_recv size false;
   if negb do_wait && (cnt =? 0) then mret (false, store_at buf 0 got)
   else buf ← recv_loop (S (length sched)) (store_at buf 0 got) (0 + cnt) size; mret (true, buf)) e sched.

Definition UnixSocket_RecvMSGPeek (buf : list Z) (size : Z) (do_wait : bool) : SockM (bool * list Z) := λ e sched,
  ('(cnt, got) ← UnixSocket_safe_recv size true;
   if negb do_wait && (cnt =? 0) then mret (false, store_at buf 0 got)
   else buf ← peek_loop (S (length sched)) (store_at buf 0 got) cnt size; mret (true, buf)) e sched.

Definition UnixSocket_SendMSG (buf : list Z) (size : Z) (do_wait : bool) : SockM bool := λ e sched,
  (cnt ← UnixSocket_safe_send (take (Z.to_nat size) buf);
   if negb do_wait && (cnt =? 0) then mret false
   else _ ← send_loop (S (length sched)) buf (0 + cnt) size; mret true) e sched.

(** ** Messages arrive whole *)

(** The calls of a schedule that can move something. *)
Definition moves (sched : list nat) : nat := length (filter (λ n, n ≠ O) sched).
#[local] Arguments moves : simpl never.

Lemma moves_cons n sched : moves (n :: sched) = ((if decide (n = O) then 0 else 1) + moves sched)%nat.
Proof. unfold moves. rewrite filter_cons. repeat case_decide; subst; simpl; lia. Qed.

(** Two states of an endpoint that differ in what was received, sent and in
    [errno] only as given. *)
Record recv_to (e e' : endpoint) (rest : list Z) : Prop := {
  rt_in : ep_in e' = rest;
  rt_closed : ep_closed e' = ep_closed e;
  rt_out : ep_out e' = ep_out e
}.

Record send_to (e e' : endpoint) (sent : list Z) : Prop := {
  st_out : ep_out e' = ep_out e ++ sent;
  st_closed : ep_closed e' = ep_closed e;
  st_in : ep_in e' = ep_in e
}.

Lemma recv_to_trans e1 e2 e3 l l' : recv_to e1 e2 l → recv_to e2 e3 l' → recv_to e1 e3 l'.
Proof. intros [] []. split; congruence. Qed.

Lemma send_to_trans e1 e2 e3 l l' : send_to e1 e2 l → send_to e2 e3 l' → send_to e1 e3 (l ++ l').
Proof. intros [] []. split; [|congruence..]. rewrite app_assoc. congruence. Qed.

(** One call: it moves what the schedule allows, up to what is asked. *)
Lemma safe_recv_spec k a rest e n sched :
  a ≠ [] → k = Z.of_nat (length a) → ep_in e = a ++ rest →
  let j := (n `min` length a)%nat in
  ∃ e', UnixSocket_safe_recv k false e (n :: sched) = SRet (Z.of_nat j, take j a) e' sched ∧
    recv_to e e' (drop j a ++ rest).
Proof.
  intros Ha -> Hin j. unfold UnixSocket_safe_recv, recv, mbind, SockM_bind. cbn. rewrite Nat2Z.id. fold j. rewrite Hin.
  assert (take j (a ++ rest) = take j a) as -> by (apply take_app_le; lia).
  assert (drop j (a ++ rest) = drop j a ++ rest) as Hd by (apply drop_app_le; lia).
  destruct (take j a) as [|x l] eqn:E.
  - assert (j = O) as Hj. { apply (f_equal length) in E. rewrite length_take in E. simpl in E.
      destruct a; [done|]. simpl in *. lia. }
    rewrite Hj in *. destruct a as [|y a]; [done|]. simpl. rewrite andb_false_r. cbn.
    eexists. split; [reflexivity|]. by split.
  - assert (length (x :: l) = j) as Hl by (rewrite <-E, length_take; lia). rewrite Hl.
    assert ((0 <? Z.of_nat j) = true) as Hj by (apply Z.ltb_lt; simpl in Hl; lia). cbn. rewrite Hj.
    eexists. split; [reflexivity|]. split; [by simpl; rewrite Hd|done..].
Qed.

Lemma safe_send_spec bytes e n sched :
  bytes ≠ [] →
  let j := (n `min` length bytes)%nat in
  ∃ e', UnixSocket_safe_send bytes e (n :: sched) = SRet (Z.of_nat j) e' sched ∧ send_to e e' (take j bytes).
Proof.
  intros Hb j. unfold UnixSocket_safe_send, send, mbind, SockM_bind. cbn.
  assert (take n bytes = take j bytes) as ->.
  { subst j. destruct (decide (n <= length bytes)%nat); [by rewrite Nat.min_l by lia|].
    rewrite Nat.min_r by lia. by rewrite !take_ge by lia. }
  destruct (take j bytes) as [|x l] eqn:E.
  - assert (j = O) as ->. { apply (f_equal length) in E. rewrite length_take in E. simpl in E.
      destruct bytes; [done|]. simpl in *. lia. }
    rewrite bool_decide_false by done. cbn. eexists. split; [reflexivity|]. split; simpl; by rewrite ?app_nil_r.
  - assert (length (x :: l) = j) as Hl by (rewrite <-E, length_take; lia). rewrite Hl.
    assert ((0 <? Z.of_nat j) = true) as Hj by (apply Z.ltb_lt; simpl in Hl; lia). cbn. rewrite Hj.
    eexists. split; [reflexivity|]. by split.
Qed.

Lemma store_at_split buf net a j :
  (net + j <= length buf)%nat → (j <= length a)%nat →
  take (net + j) (store_at buf (Z.of_nat net) (take j a)) = take net buf ++ take j a ∧
  ∀ size, (net + j <= size)%nat → drop size (store_at buf (Z.of_nat net) (take j a)) = drop size buf.
Proof.
  intros Hn Hj. unfold store_at. rewrite Nat2Z.id, length_take, Nat.min_l by lia. split.
  - rewrite app_assoc. rewrite take_app_le by (rewrite length_app, !length_take; lia).
    apply take_ge. rewrite length_app, !length_take. lia.
  - intros size Hs. rewrite app_assoc, drop_app_ge by (rewrite length_app, !length_take; lia).
    rewrite drop_drop. f_equal. rewrite length_app, !length_take. lia.
Qed.

Lemma length_store_at buf net a j :
  (net + j <= length buf)%nat → (j <= length a)%nat →
  length (store_at buf (Z.of_nat net) (take j a)) = length buf.
Proof.
  intros Hn Hj. unfold store_at. rewrite Nat2Z.id, !length_app, !length_take, length_drop. lia.
Qed.

Lemma recv_loop_spec sched fuel buf net size a rest e :
  (length sched < fuel)%nat → (length a <= moves sched)%nat → (net + length a = size)%nat →
  (size <= length buf)%nat → ep_in e = a ++ rest →
  ∃ e' sched', recv_loop fuel buf (Z.of_nat net) (Z.of_nat size) e sched =
      SRet (take net buf ++ a ++ drop size buf) e' sched' ∧
    recv_to e e' rest ∧ (moves sched <= moves sched' + length a)%nat.
Proof.
  revert fuel buf net a e. induction sched as [|n sched IH]; intros fuel buf net a e Hf Hm Hs Hb Hin.
  - destruct fuel as [|fuel]; [simpl in Hf; lia|]. destruct a as [|x a]; [|unfold moves in Hm; simpl in Hm; lia].
    simpl in Hs. replace net with size by lia. cbn [recv_loop]. rewrite Z.ltb_irrefl. simpl.
    rewrite take_drop. exists e, []. split; [done|]. split; [by split|unfold moves; simpl; lia].
  - destruct fuel as [|fuel]; [simpl in Hf; lia|]. cbn [recv_loop].
    destruct (decide (a = [])) as [->|Ha].
    { simpl in Hs. replace net with size by lia. rewrite Z.ltb_irrefl. simpl. rewrite take_drop.
      exists e, (n :: sched). split; [done|]. split; [by split|simpl; lia]. }
    assert (length a ≠ O) as Hla by (by destruct a).
    rewrite (proj2 (Z.ltb_lt _ _)) by lia.
    destruct (safe_recv_spec (Z.of_nat size - Z.of_nat net) a rest e n sched Ha ltac:(lia) Hin) as (e1 & E1 & H1).
    set (j := (n `min` length a)%nat) in *. unfold mbind, SockM_bind at 1. rewrite E1. cbn.
    rewrite <-Nat2Z.inj_add.
    destruct (store_at_split buf net a j ltac:(lia) ltac:(lia)) as [Ht Hd].
    rewrite moves_cons in Hm. simpl in Hf.
    destruct (IH fuel (store_at buf (Z.of_nat net) (take j a)) (net + j)%nat (drop j a) e1) as (e2 & s2 & E2 & H2 & Hm2).
    + lia.
    + rewrite length_drop. case_decide; lia.
    + rewrite length_drop. lia.
    + rewrite length_store_at; lia.
    + apply H1.
    + exists e2, s2. rewrite E2, Ht, Hd by lia. rewrite <-!app_assoc, (app_assoc (take j a)), take_drop. split; [done|].
      split; [by eapply recv_to_trans|]. rewrite moves_cons. rewrite length_drop in Hm2. case_decide; lia.
Qed.

Lemma recv_loop_S fuel buf net size :
  recv_loop (S fuel) buf net size =
    if net <? size then
      '(cnt, got) ← UnixSocket_safe_recv (size - net) false;
      recv_loop fuel (store_at buf net got) (net + cnt) size
    else mret buf.
Proof. done. Qed.

Lemma send_loop_S fuel buf net size :
  send_loop (S fuel) buf net size =
    if net <? size then
      cnt ← UnixSocket_safe_send (take (Z.to_nat (size - net)) (drop (Z.to_nat net) buf));
      send_loop fuel buf (net + cnt) size
    else mret tt.
Proof. done. Qed.

Lemma RecvMSG_spec buf size a rest e sched :
  a ≠ [] → size = Z.of_nat (length a) → (length a <= length buf)%nat →
  (length a <= moves sched)%nat → ep_in e = a ++ rest →
  ∃ e' sched', UnixSocket_RecvMSG buf size true e sched = SRet (true, a ++ drop (length a) buf) e' sched' ∧
    recv_to e e' rest ∧ (moves sched <= moves sched' + length a)%nat.
Proof.
  intros Ha -> Hb Hm Hin. assert (length a ≠ O) as Hla by (by destruct a).
  destruct (recv_loop_spec sched (S (S (length sched))) buf 0 (length a) a rest e) as (e' & s' & E & H); [lia..|done|].
  exists e', s'. split; [|done]. rewrite recv_loop_S, (proj2 (Z.ltb_lt _ _)) in E by lia.
  rewrite Z.sub_0_r in E. unfold UnixSocket_RecvMSG, mbind, SockM_bind in *. simpl negb. cbv beta iota in *.
  destruct (UnixSocket_safe_recv (Z.of_nat (length a)) false e sched) as [[cnt got] e1 s1| |]; [|done..].
  change (Z.of_nat 0) with 0 in E. cbn [negb andb]. cbv beta. by rewrite E.
Qed.

Lemma send_loop_spec sched fuel buf net size e :
  (length sched < fuel)%nat → (net <= size)%nat → (size <= length buf)%nat → (size - net <= moves sched)%nat →
  ∃ e' sched', send_loop fuel buf (Z.of_nat net) (Z.of_nat size) e sched = SRet tt e' sched' ∧
    send_to e e' (take (size - net) (drop net buf)) ∧ (moves sched <= moves sched' + (size - net))%nat.
Proof.
  revert fuel net e. induction sched as [|n sched IH]; intros fuel net e Hf Hn Hb Hm;
    (destruct fuel as [|fuel]; [simpl in Hf; lia|]); cbn [send_loop].
  - change (moves []) with O in Hm. assert (net = size) as -> by lia. rewrite Z.ltb_irrefl.
    exists e, []. split; [done|]. rewrite Nat.sub_diag, take_0. split; [split; by rewrite ?app_nil_r|lia].
  - destruct (decide (net = size)) as [->|Hne].
    { rewrite Z.ltb_irrefl. exists e, (n :: sched). split; [done|]. rewrite Nat.sub_diag, take_0.
      split; [split; by rewrite ?app_nil_r|lia]. }
    rewrite (proj2 (Z.ltb_lt _ _)) by lia.
    replace (Z.to_nat (Z.of_nat size - Z.of_nat net)) with (size - net)%nat by lia. rewrite Nat2Z.id.
    set (msg := take (size - net) (drop net buf)).
    assert (length msg = (size - net)%nat) as Hl by (subst msg; rewrite length_take, length_drop; lia).
    destruct (safe_send_spec msg e n sched) as (e1 & E1 & H1); [intros E; rewrite E in Hl; simpl in Hl; lia|].
    rewrite Hl in *. set (j := (n `min` (size - net))%nat) in *. unfold mbind, SockM_bind at 1. rewrite E1.
    rewrite <-Nat2Z.inj_add. rewrite moves_cons in *. simpl in Hf.
    destruct (IH fuel (net + j)%nat e1) as (e2 & s2 & E2 & H2 & Hm2); [lia..|case_decide; lia|].
    exists e2, s2. split; [done|]. split; [|case_decide; lia].
    replace msg with (take j msg ++ take (size - (net + j)) (drop (net + j) buf)); [by eapply send_to_trans|].
    rewrite <-(take_drop j msg) at 2. f_equal. subst msg. rewrite skipn_firstn_comm, drop_drop. f_equal. lia.
Qed.

Lemma SendMSG_spec buf size e sched :
  buf ≠ [] → size = Z.of_nat (length buf) → (length buf <= moves sched)%nat →
  ∃ e' sched', UnixSocket_SendMSG buf size true e sched = SRet true e' sched' ∧
    send_to e e' buf ∧ (moves sched <= moves sched' + length buf)%nat.
Proof.
  intros Hb -> Hm. assert (length buf ≠ O) as Hl by (by destruct buf).
  destruct (send_loop_spec sched (S (S (length sched))) buf 0 (length buf) e) as (e' & s' & E & H & Hm'); [lia..|].
  rewrite Nat.sub_0_r, drop_0, take_ge in * by lia.
  exists e', s'. split; [|split; [done|lia]]. rewrite send_loop_S, (proj2 (Z.ltb_lt _ _)) in E by lia.
  rewrite Z.sub_0_r, drop_0, Nat2Z.id in E. unfold UnixSocket_SendMSG, mbind, SockM_bind in *. rewrite Nat2Z.id.
  cbv beta iota in *. destruct (UnixSocket_safe_send (take (length buf) buf) e sched) as [cnt e1 s1| |]; [|done..].
  cbn [negb andb]. cbv beta. change (Z.of_nat 0) with 0 in E. by rewrite E.
Qed.

(** ** The messages of messages.h *)

(** A struct of 4-byte integers, in little-endian order. *)
Definition int_bytes (v : Z) : list Z := [v mod 256; v / 256 mod 256; v / 256 ^ 2 mod 256; v / 256 ^ 3 mod 256].
Definition ints_bytes (l : list Z) : list Z := concat (int_bytes <$> l).

Definition bytes_int (l : list Z) : Z :=
  match l with a :: b :: c :: d :: _ => a + 256 * (b + 256 * (c + 256 * d)) | _ => 0 end.

Fixpoint bytes_ints (n : nat) (l : list Z) : list Z :=
  match n with O => [] | S n' => bytes_int l :: bytes_ints n' (drop 4 l) end.

Lemma bytes_int_bytes v rest : bytes_int (int_bytes v ++ rest) = u32 v.
Proof. unfold int_bytes, u32. simpl. change (256 ^ 2) with 65536. change (256 ^ 3) with 16777216. Z.div_mod_to_equations; lia. Qed.

Lemma bytes_ints_bytes l rest : bytes_ints (length l) (ints_bytes l ++ rest) = u32 <$> l.
Proof.
  induction l as [|v l IH]; [done|]. cbn [length bytes_ints]. unfold ints_bytes in *. cbn [fmap list_fmap concat].
  rewrite <-app_assoc. rewrite bytes_int_bytes. by rewrite (drop_app_length' (int_bytes v)), IH.
Qed.

Lemma length_ints_bytes l : length (ints_bytes l) = (4 * length l)%nat.
Proof. induction l as [|v l IH]; [done|]. unfold ints_bytes in *. cbn [fmap list_fmap concat]. rewrite length_app, IH. simpl. lia. Qed.

Record setup_reply := {
  sr_code_ : Z;
  sr_region_id_ : Z;
  sr_region_size_ : Z;
  sr_request_region_size_ : Z;
  sr_request_unit_ : Z;
  sr_queue_region_size_ : Z;
  sr_queue_depth_ : Z;
  sr_num_queues_ : Z;
  sr_namespace_region_id_ : Z;
  sr_namespace_region_size_ : Z;
  sr_namespace_max_entries_ : Z
}.

Definition sizeof_setup_reply : Z := 44.

Definition setup_reply_ints (r : setup_reply) : list Z :=
  [sr_code_ r; sr_region_id_ r; sr_region_size_ r; sr_request_region_size_ r; sr_request_unit_ r;
   sr_queue_region_size_ r; sr_queue_depth_ r; sr_num_queues_ r; sr_namespace_region_id_ r;
   sr_namespace_region_size_ r; sr_namespace_max_entries_ r].

Definition setup_reply_of (l : list Z) : option setup_reply :=
  match bytes_ints 11 l with
  | [code; id; size; rsize; unit; qsize; depth; num; nsid; nssize; nsmax] =>
      Some {| sr_code_ := s32 code; sr_region_id_ := id; sr_region_size_ := size; sr_request_region_size_ := rsize;
              sr_request_unit_ := unit; sr_queue_region_size_ := qsize; sr_queue_depth_ := depth;
              sr_num_queues_ := num; sr_namespace_region_id_ := nsid; sr_namespace_region_size_ := nssize;
              sr_namespace_max_entries_ := nsmax |}
  | _ => None
  end.

Definition LABSTOR_ADMIN_REGISTER_QP : Z := 0.
Record register_qp_request := { rqr_op_ : Z; rqr_count_ : Z }.
Definition sizeof_register_qp_request : Z := 8.
Definition register_qp_request_new (count : Z) : register_qp_request :=
  {| rqr_op_ := LABSTOR_ADMIN_REGISTER_QP; rqr_count_ := count |}.

Definition sizeof_queue_pair_ptr : Z := 12.
Definition register_qp_request_GetQueueArrayLength (r : register_qp_request) : Z :=
  u32 (rqr_count_ r * sizeof_queue_pair_ptr).

Definition register_qp_request_of (l : list Z) : register_qp_request :=
  {| rqr_op_ := s32 (bytes_int l); rqr_count_ := s32 (bytes_int (drop 4 l)) |}.

Definition ptr_ints (p : labstor_queue_pair_ptr) : list Z := [qpp_sq_off_ p; qpp_cq_off_ p; qpp_pid_ p].

(** [ptrs[0]], ..., [ptrs[n - 1]]. *)
Fixpoint ptrs_of (n : nat) (l : list Z) : list labstor_queue_pair_ptr :=
  match n with
  | O => []
  | S n' => {| qpp_sq_off_ := s32 (bytes_int l); qpp_cq_off_ := s32 (bytes_int (drop 4 l));
               qpp_pid_ := bytes_int (drop 8 l) |} :: ptrs_of n' (drop 12 l)
  end.

(** ** Connecting a client

    The socket calls of [Server::IPCManager::RegisterClient] and
    [RegisterClientQP], and of [Client::IPCManager::Connect] and
    [CreateQueuesSHMEM].  The objects a message is received into are not
    initialised; here they hold zeros. *)

Definition fresh_buf (size : Z) : list Z := replicate (Z.to_nat size) 0.

Definition RegisterClient_send (reply : setup_reply) : SockM bool :=
  UnixSocket_SendMSG (ints_bytes (setup_reply_ints reply)) sizeof_setup_reply true.

Definition Connect_receive : SockM (option setup_reply) :=
  '(_, buf) ← UnixSocket_RecvMSG (fresh_buf sizeof_setup_reply) sizeof_setup_reply true;
  mret (setup_reply_of buf).

Definition CreateQueuesSHMEM_send (request : register_qp_request) (qps : list labstor_queue_pair_ptr) : SockM bool :=
  _ ← UnixSocket_SendMSG (ints_bytes [rqr_op_ request; rqr_count_ request]) sizeof_register_qp_request true;
  UnixSocket_SendMSG (ints_bytes (concat (ptr_ints <$> qps))) (register_qp_request_GetQueueArrayLength request) true.

Definition RegisterClientQP_receive : SockM (register_qp_request * list labstor_queue_pair_ptr) :=
  '(_, buf) ← UnixSocket_RecvMSG (fresh_buf sizeof_register_qp_request) sizeof_register_qp_request true;
  let request := register_qp_request_of buf in
  let size := register_qp_request_GetQueueArrayLength request in
  '(_, ptrs) ← UnixSocket_RecvMSG (fresh_buf size) size true;
  mret (request, ptrs_of (Z.to_nat (rqr_count_ request)) ptrs).

Definition RegisterClientQP_send (code : Z) : SockM bool :=
  UnixSocket_SendMSG (ints_bytes [code]) 4 true.

Definition CreateQueuesSHMEM_receive : SockM Z :=
  '(_, buf) ← UnixSocket_RecvMSG (fresh_buf 4) 4 true; mret (s32 (bytes_int buf)).

(** The two ends; what one has sent is delivered to the other. *)
Record connection := {
  cn_server : endpoint; cn_server_sched : list nat;
  cn_client : endpoint; cn_client_sched : list nat
}.

Definition at_server {A} (c : SockM A) (cn : connection) : option (A * connection) :=
  match c (cn_server cn) (cn_server_sched cn) with
  | SRet a e sched =>
      Some (a, {| cn_server := with_out e []; cn_server_sched := sched;
                  cn_client := with_in (cn_client cn) (ep_in (cn_client cn) ++ ep_out e);
                  cn_client_sched := cn_client_sched cn |})
  | _ => None
  end.

Definition at_client {A} (c : SockM A) (cn : connection) : option (A * connection) :=
  match c (cn_client cn) (cn_client_sched cn) with
  | SRet a e sched =>
      Some (a, {| cn_server := with_in (cn_server cn) (ep_in (cn_server cn) ++ ep_out e);
                  cn_server_sched := cn_server_sched cn;
                  cn_client := with_out e []; cn_client_sched := sched |})
  | _ => None
  end.

(** What each side has after the exchange: the reply the client received,
    the request and the queue pairs the server received, and the last reply. *)
Definition handshake (reply : setup_reply) (qps : list labstor_queue_pair_ptr) (cn : connection)
    : option ((option setup_reply * register_qp_request * list labstor_queue_pair_ptr * Z) * connection) :=
  '(_, cn) ← at_server (RegisterClient_send reply) cn;
  '(got, cn) ← at_client Connect_receive cn;
  '(_, cn) ← at_client (CreateQueuesSHMEM_send (register_qp_request_new (s32 (Z.of_nat (length qps)))) qps) cn;
  '(received, cn) ← at_server RegisterClientQP_receive cn;
  '(_, cn) ← at_server (RegisterClientQP_send 0) cn;
  '(code, cn) ← at_client CreateQueuesSHMEM_receive cn;
  Some (got, received.1, received.2, code, cn).

(** The bytes on their way to the server and to the client, and at least [s]
    and [c] moves to come. *)
Record flight (cn : connection) (sin cin : list Z) (s c : nat) : Prop := {
  fl_server_in : ep_in (cn_server cn) = sin;
  fl_client_in : ep_in (cn_client cn) = cin;
  fl_server_out : ep_out (cn_server cn) = [];
  fl_client_out : ep_out (cn_client cn) = [];
  fl_server : (s <= moves (cn_server_sched cn))%nat;
  fl_client : (c <= moves (cn_client_sched cn))%nat
}.

(** The fields of the messages are in the range of their types. *)
Definition setup_reply_ok (r : setup_reply) : Prop :=
  - 2 ^ 31 <= sr_code_ r < 2 ^ 31 ∧ Forall (λ v, 0 <= v < 2 ^ 32) (tail (setup_reply_ints r)).

Definition ptr_ok (p : labstor_queue_pair_ptr) : Prop :=
  - 2 ^ 31 <= qpp_sq_off_ p < 2 ^ 31 ∧ - 2 ^ 31 <= qpp_cq_off_ p < 2 ^ 31 ∧ 0 <= qpp_pid_ p < 2 ^ 32.

Lemma s32_u32 x : - 2 ^ 31 <= x < 2 ^ 31 → s32 (u32 x) = x.
Proof. intros. by apply s32_of_bits. Qed.

Lemma setup_reply_roundtrip r rest :
  setup_reply_ok r → setup_reply_of (ints_bytes (setup_reply_ints r) ++ rest) = Some r.
Proof.
  intros [Hc Hf]. unfold setup_reply_of.
  change 11%nat with (length (setup_reply_ints r)). rewrite bytes_ints_bytes.
  destruct r. simpl in *. repeat (apply Forall_cons in Hf as [? Hf]).
  by rewrite s32_u32, !u32_small by done.
Qed.

Lemma ptrs_roundtrip l rest :
  Forall ptr_ok l → ptrs_of (length l) (ints_bytes (concat (ptr_ints <$> l)) ++ rest) = l.
Proof.
  induction 1 as [|p l (H1 & H2 & H3) Hl IH]; [done|]. cbn [length ptrs_of fmap list_fmap concat].
  unfold ints_bytes in *. rewrite fmap_app, concat_app, <-app_assoc.
  destruct p as [sq cq pid]. simpl in H1, H2, H3.
  change (concat (int_bytes <$> ptr_ints _)) with (int_bytes sq ++ int_bytes cq ++ int_bytes pid). rewrite <-!app_assoc.
  change 12%nat with (4 + (4 + 4))%nat. change 8%nat with (4 + 4)%nat. rewrite <-!drop_drop, !bytes_int_bytes.
  rewrite !(drop_app_length' (int_bytes sq)), !(drop_app_length' (int_bytes cq)), !(drop_app_length' (int_bytes pid)) by done.
  rewrite !bytes_int_bytes.
  by rewrite !s32_u32, u32_small, IH by done.
Qed.

(** ** The exchange *)

Lemma sock_bind_ret {A B} (c : SockM A) (f : A → SockM B) e sched a e' sched' :
  c e sched = SRet a e' sched' → (c ≫= f) e sched = f a e' sched'.
Proof. intros E. unfold mbind, SockM_bind. by rewrite E. Qed.

Lemma at_server_run {A} (c : SockM A) cn sin cin s cl a e sched :
  flight cn sin cin s cl → c (cn_server cn) (cn_server_sched cn) = SRet a e sched →
  ∃ cn', at_server c cn = Some (a, cn') ∧ flight cn' (ep_in e) (cin ++ ep_out e) (moves sched) cl.
Proof. intros [] E. unfold at_server. rewrite E. eexists. split; [done|]. split; simpl; congruence || done. Qed.

Lemma at_client_run {A} (c : SockM A) cn sin cin s cl a e sched :
  flight cn sin cin s cl → c (cn_client cn) (cn_client_sched cn) = SRet a e sched →
  ∃ cn', at_client c cn = Some (a, cn') ∧ flight cn' (sin ++ ep_out e) (ep_in e) s (moves sched).
Proof. intros [] E. unfold at_client. rewrite E. eexists. split; [done|]. split; simpl; congruence || done. Qed.

Lemma flight_le cn sin cin s c s' c' :
  flight cn sin cin s c → (s' <= s)%nat → (c' <= c)%nat → flight cn sin cin s' c'.
Proof. intros [] ??. split; try done; lia. Qed.

(** A message received into a fresh object of its size. *)
Lemma RecvMSG_fresh size a rest e sched :
  a ≠ [] → size = Z.of_nat (length a) → (length a <= moves sched)%nat → ep_in e = a ++ rest →
  ∃ e' sched', UnixSocket_RecvMSG (fresh_buf size) size true e sched = SRet (true, a) e' sched' ∧
    recv_to e e' rest ∧ (moves sched <= moves sched' + length a)%nat.
Proof.
  intros Ha -> Hm Hin.
  assert (length (fresh_buf (Z.of_nat (length a))) = length a) as Hl by (unfold fresh_buf; rewrite length_replicate; lia).
  destruct (RecvMSG_spec (fresh_buf (Z.of_nat (length a))) _ a rest e sched Ha eq_refl ltac:(lia) Hm Hin) as (e' & s' & E & H).
  exists e', s'. split; [|done]. rewrite E, drop_ge by lia. by rewrite app_nil_r.
Qed.

(** The messages of one exchange with [n] queue pairs: 44, 8, 12 n and 4
    bytes. *)
Definition exchange_bytes (n : nat) : nat := 56 + 12 * n.

Lemma server_send cn buf sin cin s c :
  buf ≠ [] → flight cn sin cin (length buf + s) c →
  ∃ cn', at_server (UnixSocket_SendMSG buf (Z.of_nat (length buf)) true) cn = Some (true, cn') ∧
    flight cn' sin (cin ++ buf) s c.
Proof.
  intros Hb Hf. pose proof Hf as [].
  destruct (SendMSG_spec buf _ (cn_server cn) (cn_server_sched cn) Hb eq_refl ltac:(lia)) as (e & sc & E & [] & Hm).
  destruct (at_server_run _ _ _ _ _ _ _ _ _ Hf E) as (cn' & E' & Hf'). exists cn'. split; [done|].
  rewrite st_in0, st_out0, fl_server_in0, fl_server_out0 in Hf'. eapply flight_le; [done|lia..].
Qed.

Lemma client_receive_reply cn reply sin s c :
  setup_reply_ok reply → flight cn sin (ints_bytes (setup_reply_ints reply)) s (44 + c) →
  ∃ cn', at_client Connect_receive cn = Some (Some reply, cn') ∧ flight cn' sin [] s c.
Proof.
  intros Hr Hf. pose proof Hf as []. set (a := ints_bytes (setup_reply_ints reply)) in *.
  destruct (RecvMSG_fresh sizeof_setup_reply a [] (cn_client cn) (cn_client_sched cn)) as (e & sc & E & [] & Hm);
    [done|done|simpl; lia|by rewrite app_nil_r|].
  assert (Connect_receive (cn_client cn) (cn_client_sched cn) = SRet (Some reply) e sc) as E'.
  { unfold Connect_receive. rewrite (sock_bind_ret _ _ _ _ _ _ _ E). unfold mret, SockM_ret. f_equal.
    rewrite <-(app_nil_r a). by apply setup_reply_roundtrip. }
  destruct (at_client_run _ _ _ _ _ _ _ _ _ Hf E') as (cn' & E2 & Hf'). exists cn'. split; [done|].
  rewrite rt_in0, rt_out0, fl_client_out0, app_nil_r in Hf'. simpl in Hm. eapply flight_le; [done|lia..].
Qed.

Lemma length_ptrs_bytes qps : length (ints_bytes (concat (ptr_ints <$> qps))) = (12 * length qps)%nat.
Proof.
  rewrite length_ints_bytes. enough (length (concat (ptr_ints <$> qps)) = 3 * length qps)%nat by lia.
  induction qps as [|p l IH]; [done|]. cbn [fmap list_fmap concat]. rewrite length_app, IH. simpl. lia.
Qed.

Definition request_bytes (n : nat) : list Z := ints_bytes [LABSTOR_ADMIN_REGISTER_QP; s32 (Z.of_nat n)].

Lemma array_length qps :
  12 * Z.of_nat (length qps) < 2 ^ 31 →
  register_qp_request_GetQueueArrayLength (register_qp_request_new (s32 (Z.of_nat (length qps)))) =
    Z.of_nat (length (ints_bytes (concat (ptr_ints <$> qps)))).
Proof.
  intros Hn. rewrite length_ptrs_bytes. unfold register_qp_request_GetQueueArrayLength. simpl.
  rewrite s32_small, u32_small by (unfold sizeof_queue_pair_ptr; lia). unfold sizeof_queue_pair_ptr. lia.
Qed.

Lemma client_send_queues cn qps cin s c :
  qps ≠ [] → 12 * Z.of_nat (length qps) < 2 ^ 31 → flight cn [] cin s (8 + 12 * length qps + c) →
  ∃ cn', at_client (CreateQueuesSHMEM_send (register_qp_request_new (s32 (Z.of_nat (length qps)))) qps) cn = Some (true, cn') ∧
    flight cn' (request_bytes (length qps) ++ ints_bytes (concat (ptr_ints <$> qps))) cin s c.
Proof.
  intros Hq Hn Hf. pose proof Hf as []. pose proof (length_ptrs_bytes qps) as Hl.
  set (ptrs := ints_bytes (concat (ptr_ints <$> qps))) in *.
  assert (length qps ≠ O) by (by destruct qps).
  destruct (SendMSG_spec (request_bytes (length qps)) sizeof_register_qp_request (cn_client cn) (cn_client_sched cn))
    as (e & sc & E & H1 & Hm); [done|done|simpl; lia|]. simpl in Hm.
  destruct (SendMSG_spec ptrs (Z.of_nat (length ptrs)) e sc) as (e2 & sc2 & E2 & H2 & Hm2);
    [intros E0; rewrite E0 in Hl; simpl in Hl; lia|done|lia|].
  assert (CreateQueuesSHMEM_send (register_qp_request_new (s32 (Z.of_nat (length qps)))) qps
    (cn_client cn) (cn_client_sched cn) = SRet true e2 sc2) as E'.
  { unfold CreateQueuesSHMEM_send. rewrite (sock_bind_ret _ _ _ _ _ _ _ E), array_length by done. exact E2. }
  destruct (at_client_run _ _ _ _ _ _ _ _ _ Hf E') as (cn' & E3 & Hf'). exists cn'. split; [done|].
  pose proof (send_to_trans _ _ _ _ _ H1 H2) as []. rewrite st_in0, st_out0, fl_client_out0, fl_client_in0 in Hf'.
  eapply flight_le; [done|lia..].
Qed.

Lemma server_receive_queues cn qps cin s c :
  qps ≠ [] → Forall ptr_ok qps → 12 * Z.of_nat (length qps) < 2 ^ 31 →
  flight cn (request_bytes (length qps) ++ ints_bytes (concat (ptr_ints <$> qps))) cin (8 + 12 * length qps + s) c →
  ∃ cn', at_server RegisterClientQP_receive cn =
      Some (register_qp_request_new (Z.of_nat (length qps)), qps, cn') ∧ flight cn' [] cin s c.
Proof.
  intros Hq Hok Hn Hf. pose proof Hf as []. pose proof (length_ptrs_bytes qps) as Hl. pose proof (array_length qps Hn) as Ha.
  set (ptrs := ints_bytes (concat (ptr_ints <$> qps))) in *. assert (length qps ≠ O) by (by destruct qps).
  destruct (RecvMSG_fresh sizeof_register_qp_request (request_bytes (length qps)) ptrs (cn_server cn) (cn_server_sched cn))
    as (e & sc & E & [] & Hm); [done|done|simpl; lia|done|]. simpl in Hm.
  destruct (RecvMSG_fresh (Z.of_nat (length ptrs)) ptrs [] e sc) as (e2 & sc2 & E2 & [] & Hm2);
    [intros E0; rewrite E0 in Hl; simpl in Hl; lia|done|lia|by rewrite app_nil_r|].
  assert (register_qp_request_of (request_bytes (length qps)) = register_qp_request_new (Z.of_nat (length qps))) as Hrq.
  { unfold register_qp_request_of, request_bytes, ints_bytes. cbn [fmap list_fmap concat]. rewrite !bytes_int_bytes.
    rewrite (drop_app_length' (int_bytes _)), bytes_int_bytes by done. rewrite !s32_u32 by (rewrite ?s32_small; unfold LABSTOR_ADMIN_REGISTER_QP; lia).
    by rewrite s32_small by lia. }
  assert (RegisterClientQP_receive (cn_server cn) (cn_server_sched cn) =
    SRet (register_qp_request_new (Z.of_nat (length qps)), qps) e2 sc2) as E'.
  { unfold RegisterClientQP_receive. rewrite (sock_bind_ret _ _ _ _ _ _ _ E), Hrq.
    rewrite (s32_small (Z.of_nat (length qps))) in Ha by lia. rewrite Ha, (sock_bind_ret _ _ _ _ _ _ _ E2).
    unfold mret, SockM_ret. do 2 f_equal. cbn [register_qp_request_new rqr_count_]. rewrite Nat2Z.id, <-(app_nil_r ptrs).
    by apply ptrs_roundtrip. }
  destruct (at_server_run _ _ _ _ _ _ _ _ _ Hf E') as (cn' & E3 & Hf'). exists cn'. split; [done|].
  rewrite rt_in1, rt_out1, rt_out0, fl_server_out0, app_nil_r in Hf'. eapply flight_le; [done|lia..].
Qed.

Lemma client_receive_code cn code sin s c :
  - 2 ^ 31 <= code < 2 ^ 31 → flight cn sin (ints_bytes [code]) s (4 + c) →
  ∃ cn', at_client CreateQueuesSHMEM_receive cn = Some (code, cn') ∧ flight cn' sin [] s c.
Proof.
  intros Hr Hf. pose proof Hf as []. set (a := ints_bytes [code]) in *.
  destruct (RecvMSG_fresh 4 a [] (cn_client cn) (cn_client_sched cn)) as (e & sc & E & [] & Hm);
    [done|done|simpl; lia|by rewrite app_nil_r|].
  assert (CreateQueuesSHMEM_receive (cn_client cn) (cn_client_sched cn) = SRet code e sc) as E'.
  { unfold CreateQueuesSHMEM_receive. rewrite (sock_bind_ret _ _ _ _ _ _ _ E). unfold mret, SockM_ret. f_equal.
    subst a. unfold ints_bytes. cbn [fmap list_fmap concat]. by rewrite bytes_int_bytes, s32_u32. }
  destruct (at_client_run _ _ _ _ _ _ _ _ _ Hf E') as (cn' & E2 & Hf'). exists cn'. split; [done|].
  rewrite rt_in0, rt_out0, fl_client_out0, app_nil_r in Hf'. simpl in Hm. eapply flight_le; [done|lia..].
Qed.

(** C25. The exchange of messages when a client connects, over a stream
    socket that splits and delays them in any way: with schedules that let
    each side move as often as the exchange has bytes, no call blocks or
    throws; the client receives the setup reply the server sent; the server
    receives the number of queue pairs and the queue pairs the client
    announced; the client receives the code 0; and no byte is left over. *)
Theorem handshake_correct reply qps cn :
  setup_reply_ok reply → qps ≠ [] → Forall ptr_ok qps → 12 * Z.of_nat (length qps) < 2 ^ 31 →
  flight cn [] [] (exchange_bytes (length qps)) (exchange_bytes (length qps)) →
  ∃ cn', handshake reply qps cn =
      Some (Some reply, register_qp_request_new (Z.of_nat (length qps)), qps, 0, cn') ∧ flight cn' [] [] 0 0.
Proof.
  intros Hr Hq Hok Hn Hf. unfold exchange_bytes in Hf. unfold handshake.
  destruct (server_send cn (ints_bytes (setup_reply_ints reply)) [] [] (8 + 12 * length qps + 4) (56 + 12 * length qps))
    as (c1 & E1 & F1); [done|eapply flight_le; [exact Hf|simpl; lia..]|].
  change (at_server (RegisterClient_send reply) cn = Some (true, c1)) in E1. rewrite E1. cbn.
  destruct (client_receive_reply c1 reply [] (8 + 12 * length qps + 4) (8 + 12 * length qps + 4)) as (c2 & E2 & F2);
    [done|eapply flight_le; [exact F1|lia..]|]. rewrite E2. cbn.
  destruct (client_send_queues c2 qps [] (8 + 12 * length qps + 4) 4 Hq Hn F2) as (c3 & E3 & F3). rewrite E3. cbn.
  destruct (server_receive_queues c3 qps [] 4 4 Hq Hok Hn F3) as (c4 & E4 & F4). rewrite E4. cbn.
  destruct (server_send c4 (ints_bytes [0]) [] [] 0 4) as (c5 & E5 & F5); [done|exact F4|].
  change (at_server (RegisterClientQP_send 0) c4 = Some (true, c5)) in E5. rewrite E5. cbn.
  destruct (client_receive_code c5 0 [] 0 0) as (c6 & E6 & F6); [lia|exact F5|]. rewrite E6. cbn.
  by exists c6.
Qed.

Definition ex_reply : setup_reply :=
  {| sr_code_ := 0; sr_region_id_ := 3; sr_region_size_ := 1048576; sr_request_region_size_ := 1000000;
     sr_request_unit_ := 256; sr_queue_region_size_ := 48576; sr_queue_depth_ := 64; sr_num_queues_ := 2;
     sr_namespace_region_id_ := 1; sr_namespace_region_size_ := 65536; sr_namespace_max_entries_ := 128 |}.

Definition ex_ptrs : list labstor_queue_pair_ptr :=
  [{| qpp_sq_off_ := 1000000; qpp_cq_off_ := 1000280; qpp_pid_ := 77 |};
   {| qpp_sq_off_ := 1000540; qpp_cq_off_ := 1000820; qpp_pid_ := 77 |}].

(** Both sides fail every other call, and move at most three bytes. *)
Definition ex_connection : connection :=
  let sched := concat (replicate 80 [O; 3%nat]) in
  let e := {| ep_in := []; ep_closed := false; ep_out := []; ep_errno := 0 |} in
  {| cn_server := e; cn_server_sched := sched; cn_client := e; cn_client_sched := sched |}.

Lemma handshake_correct_witness :
  ∃ cn', handshake ex_reply ex_ptrs ex_connection =
      Some (Some ex_reply, register_qp_request_new 2, ex_ptrs, 0, cn') ∧ flight cn' [] [] 0 0.
Proof.
  apply (handshake_correct ex_reply ex_ptrs ex_connection).
  - split; [simpl; lia|]. repeat constructor; simpl; lia.
  - discriminate.
  - repeat constructor; simpl; lia.
  - simpl. lia.
  - split; [reflexivity..| |]; apply Nat.leb_le; vm_compute; reflexivity.
Defined.

(** ** Limits *)

(** A peer that has closed is not noticed after a call that failed with
    EAGAIN: the stale [errno] says that data may still come. *)
Lemma closed_peer_not_noticed e buf size n sched :
  ep_closed e = true → ep_in e = [] → ep_errno e = EAGAIN →
  UnixSocket_RecvMSGPeek buf size false e (n :: sched) = SRet (false, buf) e sched.
Proof.
  intros Hc Hi He. unfold UnixSocket_RecvMSGPeek, UnixSocket_safe_recv, recv, get_errno, mbind, SockM_bind.
  cbn. rewrite Hi, take_nil, Hc, orb_true_r. cbn. rewrite He. cbn. unfold store_at. simpl. by destruct buf.
Qed.

(** When the first part of a message is there and the rest arrives later,
    [RecvMSGPeek] starts again at the first byte each time and never has all
    of it. *)
Lemma peek_alternates k fuel buf e :
  (ep_in e = [1; 2; 3; 4; 5; 6; 7; 8]) →
  peek_loop fuel buf 3 8 e (replicate k 8%nat) = Pending e ∧ peek_loop fuel buf 5 8 e (replicate k 8%nat) = Pending e.
Proof.
  intros Hin. revert fuel buf. induction k as [|k IH]; intros fuel buf.
  - destruct fuel; done.
  - destruct fuel as [|fuel]; [done|].
    split; cbn [peek_loop replicate]; unfold UnixSocket_safe_recv, recv, mbind, SockM_bind; cbn; rewrite Hin; cbn; apply IH.
Qed.

Lemma partial_peek_never_returns k :
  let e := {| ep_in := [1; 2; 3; 4; 5; 6; 7; 8]; ep_closed := false; ep_out := []; ep_errno := 0 |} in
  UnixSocket_RecvMSGPeek (fresh_buf 8) 8 true e (3%nat :: replicate k 8%nat) = Pending e.
Proof.
  intros e. unfold UnixSocket_RecvMSGPeek. cbn [length]. set (fuel := S (S _)). clearbody fuel.
  assert (UnixSocket_safe_recv 8 true e (3%nat :: replicate k 8%nat) = SRet (3, [1; 2; 3]) e (replicate k 8%nat)) as E by done.
  rewrite (sock_bind_ret _ _ _ _ _ _ _ E). cbn [negb andb]. unfold mbind, SockM_bind.
  destruct (peek_alternates k fuel (store_at (fresh_buf 8) 0 [1; 2; 3]) e eq_refl) as [E' _]. by rewrite E'.
Qed.

(** Receiving a message of no bytes, as the queue pairs of a client without
    queues, throws when [errno] is not EAGAIN. *)
Lemma recv_nothing_throws e n sched :
  ep_errno e = 0 → UnixSocket_RecvMSG [] 0 true e (n :: sched) = SThrow UNIX_RECVMSG_FAILED e sched.
Proof.
  intros He. unfold UnixSocket_RecvMSG, UnixSocket_safe_recv, recv, get_errno, mbind, SockM_bind. cbn.
  rewrite Nat.min_0_r. simpl. rewrite He. done.
Qed.
