(* ===== verification/PosixClient.v ===== *)
(** * PosixClient.v: the POSIX interface of a client process

    labmods/generic_posix/client: file descriptors, the search for the module
    that a path belongs to, and the functions that a preloaded library puts in
    the place of the C library's (generic_posix_overload.cpp).  The modules
    behind the interface ([labstor::Posix::Client]) are a table of methods by
    address; looking up a name and loading a module are the namespace's.
    A path is a string of bytes without the terminator. *)

From S2P Require Import Prelude Memory RingBuffer MpmcRing RequestQueue Namespace.

Local Open Scope Z_scope.

Definition LABSTOR_FD_MIN : Z := 50000.
Definition LABSTOR_PATH_PREFIX : list Z := [108; 97; 98; 58; 58].
Definition LABSTOR_MAX_FDS_PER_THREAD : Z := 1000.
Definition LABSTOR_INVALID_FD : Z := -1.
Definition LABSTOR_GENERIC_FS_INVALID_FD : Z := -1350.
Definition LABSTOR_GENERIC_FS_PATH_NOT_FOUND : Z := -1351.
Definition TOO_MANY_FDS : Z := 5000.

(** ** File descriptors *)

Record FDAllocator := {
  min_fd_ : Z; alloced_fds_ : Z; max_fds_ : Z; free_fds_ : ring_buffer
}.

Definition FDAllocator_new (min_fd region fd_alloc_size max_fds_per_thread : Z) : M FDAllocator :=
  free_fds ← ring_buffer_Init 4 region fd_alloc_size max_fds_per_thread;
  mret {| min_fd_ := min_fd; alloced_fds_ := 0; max_fds_ := max_fds_per_thread; free_fds_ := free_fds |}.

Definition FDAllocator_Allocate (a : FDAllocator) : M Z :=
  r ← ring_buffer_Dequeue 4 (free_fds_ a);
  match r with
  | Some fd => mret (s32 fd)
  | None =>
      let fd := s32 (min_fd_ a + alloced_fds_ a) in
      if fd >=? s32 (min_fd_ a + max_fds_ a) then throw TOO_MANY_FDS else mret fd
  end.

Definition FDAllocator_Free (a : FDAllocator) (fd : Z) : M unit :=
  _ ← ring_buffer_Enqueue 4 (free_fds_ a) (s32_bits fd); mret tt.

(** The constructor of the client: one allocator per CPU. *)
Fixpoint fd_allocators (n : nat) (i region fd_alloc_size : Z) : M (list FDAllocator) :=
  match n with
  | O => mret []
  | S n' =>
      let region := region + fd_alloc_size in
      a ← FDAllocator_new (LABSTOR_FD_MIN + i * LABSTOR_MAX_FDS_PER_THREAD) region fd_alloc_size LABSTOR_MAX_FDS_PER_THREAD;
      fds ← fd_allocators n' (i + 1) region fd_alloc_size;
      mret (a :: fds)
  end.

Definition fd_alloc_size : Z := ring_buffer_GetSize_global 4 LABSTOR_MAX_FDS_PER_THREAD.

(** ** The client *)

Record PosixClient := {
  pc_is_initialized_ : bool;
  pc_locked_ : bool;
  pc_ns_id_ : Z;
  pc_fd_min_ : Z;
  pc_prefix_ : list Z;
  pc_fds_ : list FDAllocator;
  pc_fd_to_ns_id_ : gmap Z Z;
  pc_namespace_ : Namespace
}.

(** [region] is what malloc returns for [fd_alloc_size * ncpu] bytes, [fd_min]
    what the uninitialised field holds. *)
Definition PosixClient_new (ncpu : nat) (region fd_min : Z) (ns : Namespace) : M PosixClient :=
  fds ← fd_allocators ncpu 0 region fd_alloc_size;
  mret {| pc_is_initialized_ := false; pc_locked_ := false; pc_ns_id_ := 0; pc_fd_min_ := fd_min; pc_prefix_ := [];
          pc_fds_ := fds; pc_fd_to_ns_id_ := ∅; pc_namespace_ := ns |}.

Definition with_fd_map (c : PosixClient) (f : gmap Z Z) : PosixClient :=
  {| pc_is_initialized_ := pc_is_initialized_ c; pc_locked_ := pc_locked_ c; pc_ns_id_ := pc_ns_id_ c; pc_fd_min_ := pc_fd_min_ c;
     pc_prefix_ := pc_prefix_ c; pc_fds_ := pc_fds_ c; pc_fd_to_ns_id_ := f; pc_namespace_ := pc_namespace_ c |}.

Definition with_namespace (c : PosixClient) (ns : Namespace) : PosixClient :=
  {| pc_is_initialized_ := pc_is_initialized_ c; pc_locked_ := pc_locked_ c; pc_ns_id_ := pc_ns_id_ c; pc_fd_min_ := pc_fd_min_ c;
     pc_prefix_ := pc_prefix_ c; pc_fds_ := pc_fds_ c; pc_fd_to_ns_id_ := pc_fd_to_ns_id_ c; pc_namespace_ := ns |}.

(** [registered] and [found] are what the registrar answers.  Connecting is
    the IPC manager's. *)
Definition PosixClient_Register (registered : Z) (c : PosixClient) : PosixClient :=
  {| pc_is_initialized_ := pc_is_initialized_ c; pc_locked_ := pc_locked_ c; pc_ns_id_ := registered;
     pc_fd_min_ := pc_fd_min_ c; pc_prefix_ := pc_prefix_ c; pc_fds_ := pc_fds_ c;
     pc_fd_to_ns_id_ := pc_fd_to_ns_id_ c; pc_namespace_ := pc_namespace_ c |}.

(** [lock_.try_lock()] without an unlock: a second call does nothing. *)
Definition PosixClient_Initialize (found : Z) (c : PosixClient) : PosixClient :=
  if pc_locked_ c then c
  else if pc_is_initialized_ c then
    {| pc_is_initialized_ := true; pc_locked_ := true; pc_ns_id_ := pc_ns_id_ c; pc_fd_min_ := pc_fd_min_ c;
       pc_prefix_ := pc_prefix_ c; pc_fds_ := pc_fds_ c; pc_fd_to_ns_id_ := pc_fd_to_ns_id_ c;
       pc_namespace_ := pc_namespace_ c |}
  else
    {| pc_is_initialized_ := true; pc_locked_ := true; pc_ns_id_ := found; pc_fd_min_ := LABSTOR_FD_MIN;
       pc_prefix_ := LABSTOR_PATH_PREFIX; pc_fds_ := pc_fds_ c; pc_fd_to_ns_id_ := pc_fd_to_ns_id_ c;
       pc_namespace_ := pc_namespace_ c |}.

(** The allocator of the calling thread; an index past the vector is
    undefined behaviour. *)
Definition thread_fds (c : PosixClient) (tid : Z) : M FDAllocator :=
  match pc_fds_ c !! Z.to_nat tid with Some a => mret a | None => fault end.

Definition PosixClient_AllocateFD (c : PosixClient) (tid : Z) : M Z :=
  a ← thread_fds c tid; FDAllocator_Allocate a.

Definition PosixClient_FreeFD (c : PosixClient) (tid fd : Z) : M unit :=
  a ← thread_fds c tid; FDAllocator_Free a fd.

(** [PriorSlash]: the last slash before index [len], or 0. *)
Fixpoint prior_slash (path : list Z) (len : nat) : nat :=
  match len with
  | O => O
  | S i => if decide (path !! i = Some 47) then i else prior_slash path i
  end.

Definition PriorSlash (path : list Z) (len : Z) : Z := Z.of_nat (prior_slash path (Z.to_nat len)).

Inductive posix_op := KInit | KOpen | KClose | KRead | KWrite | KFsync | KFdatasync.

(** The methods of a module; an offset of [None] stands for the overloads
    without one. *)
Record PosixModule := {
  pm_Open : Z → list Z → Z → Z → M Z;
  pm_Close : Z → M Z;
  pm_IO : posix_op → Z → Z → option Z → Z → M Z;
  pm_AIO : posix_op → Z → Z → option Z → Z → M labstor_qtok_t
}.

Section client.
(** The methods by the address of the module, the lookup of a name in the
    shared namespace, and loading of a module. *)
Context (methods : Z → PosixModule) (GetNamespaceID : list Z → M (option Z))
  (LoadClientModule : Namespace → Z → M (Namespace * Z)).

(** A call through a null pointer is undefined behaviour. *)
Definition method (module : Z) : M PosixModule := if module =? 0 then fault else mret (methods module).

(** The loop of [Open] over prefixes of the path; [fuel] bounds the rounds. *)
Fixpoint open_search (fuel : nat) (path : list Z) (len : Z) : M (Z * Z) :=
  match fuel with
  | O => λ m, Spin m
  | S fuel' =>
      if 0 <? len then
        r ← GetNamespaceID (take (Z.to_nat len) path);
        match r with
        | Some ns_id => mret (len, ns_id)
        | None => open_search fuel' path (PriorSlash path len)
        end
      else mret (len, 0)
  end.

Definition PosixClient_Open (c : PosixClient) (tid : Z) (path : list Z) (oflag : Z) : M (PosixClient * Z) :=
  if negb (bool_decide (take (length (pc_prefix_ c)) path = pc_prefix_ c))
  then mret (c, LABSTOR_GENERIC_FS_PATH_NOT_FOUND)
  else
    '(len, ns_id) ← open_search (S (length path)) path (s32 (Z.of_nat (length path)));
    if len =? 0 then mret (c, LABSTOR_GENERIC_FS_PATH_NOT_FOUND)
    else
      let module := Namespace_GetModule (pc_namespace_ c) ns_id in
      '(ns, module) ← (if module =? 0 then LoadClientModule (pc_namespace_ c) ns_id
                       else mret (pc_namespace_ c, module));
      let c := with_namespace c ns in
      fd ← PosixClient_AllocateFD c tid;
      (* emplace keeps a value that is there *)
      let c := with_fd_map c (<[fd := default ns_id (pc_fd_to_ns_id_ c !! fd)]> (pc_fd_to_ns_id_ c)) in
      methods ← method module;
      fd ← pm_Open methods fd path len oflag;
      mret (c, fd).

(** [operator []] adds 0 for a descriptor that is not there. *)
Definition fd_module (c : PosixClient) (fd : Z) : PosixClient * Z :=
  let ns_id := default 0 (pc_fd_to_ns_id_ c !! fd) in
  (with_fd_map c (<[fd := ns_id]> (pc_fd_to_ns_id_ c)), Namespace_GetModule (pc_namespace_ c) ns_id).

Definition PosixClient_Close (c : PosixClient) (tid fd : Z) : M (PosixClient * Z) :=
  if fd <? pc_fd_min_ c then mret (c, LABSTOR_INVALID_FD)
  else
    let '(c, module) := fd_module c fd in
    client ← method module;
    _ ← pm_Close client fd;
    let c := with_fd_map c (delete fd (pc_fd_to_ns_id_ c)) in
    _ ← PosixClient_FreeFD c tid fd;
    mret (c, 0).

(** The default token is not initialised; here it is all zero. *)
Definition qtok_default : labstor_qtok_t :=
  {| qtok_qid_ := {| qid_flags_ := 0; qid_type_ := 0; qid_cnt_ := 0; qid_pid_ := 0 |}; qtok_req_id_ := 0 |}.

Definition PosixClient_AIO (c : PosixClient) (op : posix_op) (fd buf : Z) (off : option Z) (size : Z)
    : M (PosixClient * labstor_qtok_t) :=
  if fd <? pc_fd_min_ c then mret (c, qtok_default)
  else
    let '(c, module) := fd_module c fd in
    client ← method module;
    qtok ← pm_AIO client op fd buf off size;
    mret (c, qtok).

Definition PosixClient_IO (c : PosixClient) (op : posix_op) (fd buf : Z) (off : option Z) (size : Z) : M (PosixClient * Z) :=
  if fd <? pc_fd_min_ c then mret (c, -1)
  else
    let '(c, module) := fd_module c fd in
    client ← method module;
    ret ← pm_IO client op fd buf off size;
    mret (c, ret).

Definition PosixClient_Read (c : PosixClient) (fd buf size : Z) := PosixClient_IO c KRead fd buf None size.
Definition PosixClient_Write (c : PosixClient) (fd buf size : Z) := PosixClient_IO c KWrite fd buf None size.

(** ** The overloaded functions *)

(** The functions of the C library. *)
Context (real_open : list Z → Z → Z → M Z) (real_close : Z → M Z) (real_read real_write : Z → Z → Z → M Z).

Definition O_CREAT : Z := 64.

(** [mode] is the argument after [oflag], read only with O_CREAT. *)
Definition overload_open (initialized_ : bool) (c : PosixClient) (tid : Z) (path : list Z) (oflag mode : Z)
    : M (PosixClient * Z) :=
  let mode := if negb (Z.land oflag O_CREAT =? 0) then mode else 0 in
  '(c, fd) ← (if initialized_ then PosixClient_Open c tid path oflag
              else mret (c, LABSTOR_GENERIC_FS_PATH_NOT_FOUND));
  if fd =? LABSTOR_GENERIC_FS_PATH_NOT_FOUND then fd ← real_open path oflag mode; mret (c, fd)
  else mret (c, fd).

Definition overload_close (initialized_ : bool) (c : PosixClient) (tid fd : Z) : M (PosixClient * Z) :=
  '(c, ret) ← (if initialized_ then PosixClient_Close c tid fd else mret (c, LABSTOR_GENERIC_FS_INVALID_FD));
  if ret =? LABSTOR_GENERIC_FS_INVALID_FD then ret ← real_close fd; mret (c, ret) else mret (c, ret).

Definition overload_read (initialized_ : bool) (c : PosixClient) (fd buf size : Z) : M (PosixClient * Z) :=
  '(c, ret_size) ← (if initialized_ then PosixClient_Read c fd buf size else mret (c, LABSTOR_GENERIC_FS_INVALID_FD));
  if ret_size =? LABSTOR_GENERIC_FS_INVALID_FD then ret ← real_read fd buf size; mret (c, ret) else mret (c, ret_size).

Definition overload_write (initialized_ : bool) (c : PosixClient) (fd buf size : Z) : M (PosixClient * Z) :=
  '(c, ret_size) ← (if initialized_ then PosixClient_Write c fd buf size else mret (c, LABSTOR_GENERIC_FS_INVALID_FD));
  if ret_size =? LABSTOR_GENERIC_FS_INVALID_FD then ret ← real_write fd buf size; mret (c, ret) else mret (c, ret_size).
(** These pass their arguments on without a look at the descriptor. *)
Context (real_pread real_pwrite real_pread64 real_pwrite64 real_preadv real_preadv64 real_pwritev real_pwritev64 : Z → Z → Z → Z → M Z)
  (real_readv real_writev : Z → Z → Z → M Z)
  (real_preadv2 real_preadv64v2 real_pwritev2 real_pwritev64v2 : Z → Z → Z → Z → Z → M Z).

Definition overload_pread (fd buf size offset : Z) : M Z := real_pread fd buf size offset.
Definition overload_pwrite (fd buf size offset : Z) : M Z := real_pwrite fd buf size offset.
Definition overload_pread64 (fd buf size offset : Z) : M Z := real_pread64 fd buf size offset.
Definition overload_pwrite64 (fd buf size offset : Z) : M Z := real_pwrite64 fd buf size offset.
Definition overload_readv (fd iov iovcnt : Z) : M Z := real_readv fd iov iovcnt.
Definition overload_preadv (fd iov iovcnt offset : Z) : M Z := real_preadv fd iov iovcnt offset.
Definition overload_preadv64 (fd iov iovcnt offset : Z) : M Z := real_preadv64 fd iov iovcnt offset.
Definition overload_preadv2 (fd iov iovcnt offset flags : Z) : M Z := real_preadv2 fd iov iovcnt offset flags.
Definition overload_preadv64v2 (fd iov iovcnt offset flags : Z) : M Z := real_preadv64v2 fd iov iovcnt offset flags.
Definition overload_writev (fd iov iovcnt : Z) : M Z := real_writev fd iov iovcnt.
Definition overload_pwritev (fd iov iovcnt offset : Z) : M Z := real_pwritev fd iov iovcnt offset.
Definition overload_pwritev64 (fd iov iovcnt offset : Z) : M Z := real_pwritev64 fd iov iovcnt offset.
Definition overload_pwritev2 (fd iov iovcnt offset flags : Z) : M Z := real_pwritev2 fd iov iovcnt offset flags.
Definition overload_pwritev64v2 (fd iov iovcnt offset flags : Z) : M Z := real_pwritev64v2 fd iov iovcnt offset flags.
End client.

(** ** The module of a path *)

(** Where a path is cut: at its end and before each slash. *)
Definition is_cut (path : list Z) (n : nat) : Prop := n ≠ O ∧ (n = length path ∨ path !! n = Some 47).

(** The longest prefix with a name, among those at a cut. *)
Definition resolves (names : list Z → option Z) (path : list Z) (r : option (nat * Z)) : Prop :=
  match r with
  | Some (n, id) => is_cut path n ∧ names (take n path) = Some id ∧
      ∀ k, is_cut path k → (n < k)%nat → names (take k path) = None
  | None => ∀ k, is_cut path k → names (take k path) = None
  end.

Lemma resolves_unique names path r r' : resolves names path r → resolves names path r' → r = r'.
Proof.
  destruct r as [[n id]|], r' as [[n' id']|]; simpl; [| | |done].
  - intros (H1 & H2 & H3) (H1' & H2' & H3'). destruct (decide (n = n')) as [->|]; [congruence|].
    destruct (decide (n < n')%nat); [rewrite (H3 n') in H2' by (done || lia)|rewrite (H3' n) in H2 by (done || lia)]; done.
  - intros (H1 & H2 & _) H. rewrite (H _ H1) in H2. done.
  - intros H (H1 & H2 & _). rewrite (H _ H1) in H2. done.
Qed.

(** The slash before [len] is the next cut. *)
Lemma prior_slash_spec path len :
  (len <= length path)%nat →
  (prior_slash path len <= len)%nat ∧ (len ≠ O → prior_slash path len < len)%nat ∧
  (prior_slash path len ≠ O → is_cut path (prior_slash path len)) ∧
  (∀ k, (prior_slash path len < k < len)%nat → ¬ is_cut path k).
Proof.
  induction len as [|i IH]; intros Hlen; simpl; [split; [lia|]; split; [done|]; split; [done|lia]|].
  case_decide as H.
  - split; [lia|]. split; [lia|]. split; [intros Hi; split; [done|by right]|lia].
  - destruct IH as (H1 & H2 & H3 & H4); [lia|]. split; [lia|]. split; [lia|]. split; [done|].
    intros k Hk. destruct (decide (k = i)) as [->|]; [|apply H4; lia]. intros [_ [->|?]]; [lia|done].
Qed.

Section search.
Context (GetNamespaceID : list Z → M (option Z)) (names : list Z → option Z) (path : list Z) (m : mem).
Hypothesis Hnames : ∀ p, GetNamespaceID p m = Ret (names p) m.

(** What the search returns for a result. *)
Definition search_result (r : option (nat * Z)) : Z * Z :=
  match r with Some (n, id) => (Z.of_nat n, id) | None => (0, 0) end.

Lemma open_search_from fuel len :
  (len < fuel)%nat → (len <= length path)%nat → (len ≠ O → is_cut path len) →
  (∀ k, is_cut path k → (len < k)%nat → names (take k path) = None) →
  ∃ r, resolves names path r ∧ open_search GetNamespaceID fuel path (Z.of_nat len) m = Ret (search_result r) m.
Proof.
  revert len. induction fuel as [|fuel IH]; intros len Hf Hlen Hcut Hno; [lia|]. cbn [open_search].
  destruct (decide (len = O)) as [->|Hl].
  - exists None. split; [|done]. intros k Hk. apply Hno; [done|]. destruct Hk; lia.
  - rewrite (proj2 (Z.ltb_lt _ _)) by lia. rewrite Nat2Z.id. rewrite (run_bind _ _ _ _ _ (Hnames _)).
    destruct (names (take len path)) as [id|] eqn:E.
    + exists (Some (len, id)). split; [|done]. split; [by apply Hcut|done].
    + unfold PriorSlash. rewrite Nat2Z.id. destruct (prior_slash_spec path len Hlen) as (H1 & H2 & H3 & H4).
      apply IH; [specialize (H2 Hl); lia|lia|done|]. intros k Hk Hlt.
      destruct (decide (k = len)) as [->|]; [done|]. destruct (decide (k < len)%nat); [|apply Hno; [done|lia]].
      exfalso. apply (H4 k); [lia|done].
Qed.

Lemma open_search_spec :
  Z.of_nat (length path) < 2 ^ 31 →
  ∃ r, resolves names path r ∧
    open_search GetNamespaceID (S (length path)) path (s32 (Z.of_nat (length path))) m = Ret (search_result r) m.
Proof.
  intros Hlen. rewrite s32_small by lia. apply open_search_from; try done; try lia.
  - intros Hl. split; [done|by left].
  - intros k [_ [->|Hk%lookup_lt_Some]]; lia.
Qed.
End search.

(** C26. The search of [Open] for the module of a path ends, after at most
    one round per character, whatever names exist: with the longest prefix of
    the path, cut at its end or before a slash, that is a name in the
    namespace, or with length 0 when no such prefix is one. *)
Theorem open_search_terminates (GetNamespaceID : list Z → M (option Z)) names path m :
  Z.of_nat (length path) < 2 ^ 31 → (∀ p, GetNamespaceID p m = Ret (names p) m) →
  ∃ r, resolves names path r ∧
    open_search GetNamespaceID (S (length path)) path (s32 (Z.of_nat (length path))) m = Ret (search_result r) m.
Proof.
  intros Hlen Hn. by apply open_search_spec.
Qed.

(** ** Routing *)

Section routing.
Context (methods : Z → PosixModule) (GetNamespaceID : list Z → M (option Z))
  (LoadClientModule : Namespace → Z → M (Namespace * Z))
  (real_open : list Z → Z → Z → M Z) (real_read : Z → Z → Z → M Z).
Context (names : list Z → option Z) (c : PosixClient) (m : mem).
Hypothesis Hnames : ∀ p, GetNamespaceID p m = Ret (names p) m.

Lemma open_unresolved tid path oflag :
  Z.of_nat (length path) < 2 ^ 31 →
  take (length (pc_prefix_ c)) path ≠ pc_prefix_ c ∨ resolves names path None →
  PosixClient_Open methods GetNamespaceID LoadClientModule c tid path oflag m = Ret (c, LABSTOR_GENERIC_FS_PATH_NOT_FOUND) m.
Proof.
  intros Hlen H. unfold PosixClient_Open. case_bool_decide as Hp; [|done]. destruct H as [|Hr]; [done|].
  destruct (open_search_spec GetNamespaceID names path m Hnames Hlen) as (r & Hr' & E).
  assert (r = None) as -> by (by eapply resolves_unique). simpl. by rewrite (run_bind _ _ _ _ _ E).
Qed.

Lemma open_resolved tid path oflag n id module :
  Z.of_nat (length path) < 2 ^ 31 → take (length (pc_prefix_ c)) path = pc_prefix_ c →
  resolves names path (Some (n, id)) → Namespace_GetModule (pc_namespace_ c) id = module → module ≠ 0 →
  PosixClient_Open methods GetNamespaceID LoadClientModule c tid path oflag m =
    (fd ← PosixClient_AllocateFD c tid;
     ret ← pm_Open (methods module) fd path (Z.of_nat n) oflag;
     mret (with_fd_map c (<[fd := default id (pc_fd_to_ns_id_ c !! fd)]> (pc_fd_to_ns_id_ c)), ret)) m.
Proof.
  intros Hlen Hp Hr Hmod Hnz. unfold PosixClient_Open. rewrite bool_decide_true by done.
  destruct (open_search_spec GetNamespaceID names path m Hnames Hlen) as (r & Hr' & E).
  assert (r = Some (n, id)) as -> by (by eapply resolves_unique). cbn [negb]. rewrite (run_bind _ _ _ _ _ E).
  cbn [search_result]. cbv beta iota zeta. destruct Hr as [[Hn _] _]. rewrite (proj2 (Z.eqb_neq _ 0)) by lia.
  rewrite Hmod, (proj2 (Z.eqb_neq _ 0)) by done. rewrite (run_bind _ _ (pc_namespace_ c, module) m m eq_refl).
  cbv beta iota. assert (with_namespace c (pc_namespace_ c) = c) as -> by (by destruct c).
  assert (method methods module = mret (methods module)) as ->
    by (unfold method; by rewrite (proj2 (Z.eqb_neq _ 0)) by done).
  done.
Qed.

(** A descriptor of the client is read through the module it was opened
    with. *)
Lemma read_routed c' fd id module buf size m' :
  pc_fd_min_ c' <= fd → pc_fd_to_ns_id_ c' !! fd = Some id → Namespace_GetModule (pc_namespace_ c') id = module →
  module ≠ 0 →
  overload_read methods real_read true c' fd buf size m' =
    (ret ← pm_IO (methods module) KRead fd buf None size;
     if ret =? LABSTOR_GENERIC_FS_INVALID_FD then ret ← real_read fd buf size; mret (c', ret) else mret (c', ret)) m'.
Proof.
  intros Hfd Hid Hmod Hnz. unfold overload_read, PosixClient_Read, PosixClient_IO.
  rewrite (proj2 (Z.ltb_ge _ _)) by done. unfold fd_module. rewrite Hid. simpl. rewrite Hmod. unfold method.
  rewrite (proj2 (Z.eqb_neq _ 0)) by done. rewrite insert_id by done.
  assert (with_fd_map c' (pc_fd_to_ns_id_ c') = c') as -> by (by destruct c').
  unfold mbind, M_bind, mret, M_ret. by destruct (pm_IO _ _ _ _ _ _ _).
Qed.
End routing.

(** C27. The [open] that is put in the place of the C library's, with the
    library initialised.  A path that does not have the prefix, and a path
    without a mounted prefix, is opened by the C library with the same flags.
    A path whose longest mounted prefix belongs to a module that the client has
    already loaded is opened by that module, which is given the descriptor that
    the client allocates, the path and the length of the prefix; and when the
    module accepts the descriptor, and the table of open files has no entry for
    it, reading from it goes to the same module.  The last condition is met by
    the first open of a thread; a second open is given the same descriptor
    ([allocate_repeats]) and is routed to the module of the first
    ([second_open_misrouted]). *)
Theorem posix_open_routes methods GetNamespaceID LoadClientModule real_open real_read names c tid path oflag mode m :
  (∀ p, GetNamespaceID p m = Ret (names p) m) → Z.of_nat (length path) < 2 ^ 31 →
  let mode' := if Z.land oflag O_CREAT =? 0 then 0 else mode in
  let open := overload_open methods GetNamespaceID LoadClientModule real_open true c tid path oflag mode in
  (take (length (pc_prefix_ c)) path ≠ pc_prefix_ c ∨ resolves names path None →
   open m = (fd ← real_open path oflag mode'; mret (c, fd)) m) ∧
  (∀ n id module fd m1 m2,
   take (length (pc_prefix_ c)) path = pc_prefix_ c → resolves names path (Some (n, id)) →
   Namespace_GetModule (pc_namespace_ c) id = module → module ≠ 0 →
   PosixClient_AllocateFD c tid m = Ret fd m1 → pc_fd_min_ c <= fd → 0 <= fd → pc_fd_to_ns_id_ c !! fd = None →
   pm_Open (methods module) fd path (Z.of_nat n) oflag m1 = Ret fd m2 →
   ∃ c', open m = Ret (c', fd) m2 ∧
     ∀ buf size m3, overload_read methods real_read true c' fd buf size m3 =
       (ret ← pm_IO (methods module) KRead fd buf None size;
        if ret =? LABSTOR_GENERIC_FS_INVALID_FD then ret ← real_read fd buf size; mret (c', ret)
        else mret (c', ret)) m3).
Proof.
  intros Hn Hlen mode' open. assert (mode' = if negb (Z.land oflag O_CREAT =? 0) then mode else 0) as Hmode.
  { subst mode'. by destruct (_ =? _). } split.
  - intros H. unfold open, overload_open. rewrite <-Hmode.
    rewrite (run_bind _ _ _ _ _ (open_unresolved _ _ _ names c m Hn tid path oflag Hlen H)). done.
  - intros n id module fd m1 m2 Hp Hr Hmod Hnz Ha Hmin Hfd0 Hfree Hopen.
    pose proof (open_resolved methods _ LoadClientModule names c m Hn tid path oflag n id module Hlen Hp Hr Hmod Hnz) as E.
    rewrite (run_bind _ _ _ _ _ Ha), (run_bind _ _ _ _ _ Hopen), Hfree in E. simpl in E.
    eexists. split.
    { unfold open, overload_open. rewrite (run_bind _ _ _ _ _ E). rewrite (proj2 (Z.eqb_neq _ _)); [done|].
      unfold LABSTOR_GENERIC_FS_PATH_NOT_FOUND. lia. }
    intros buf size m3. apply (read_routed methods real_read _ fd id); simpl; try done. by rewrite lookup_insert_eq.
Qed.

(** ** A concrete client: "lab::a" is the name of module 1 at address 4000,
    and the ring of free descriptors is at 4096. *)

Definition ex_path : list Z := [108; 97; 98; 58; 58; 97; 47; 98].
Definition ex_names (p : list Z) : option Z := if decide (p = [108; 97; 98; 58; 58; 97]) then Some 1 else None.
Definition ex_ns : Namespace :=
  {| ns_ids_ := ring_buffer_Attach 0; key_to_ns_id_ := UnorderedMap.Build_unordered_map 0 0 0 0 0;
     private_state_ := [0; 4000]; module_id_to_instance_ := ∅ |}.
Definition ex_posix_mem : mem := write 4 (4096 + mrh_max_depth_) 4 (zero_region 4096 32).
Definition ex_client : PosixClient :=
  PosixClient_Initialize 0
    {| pc_is_initialized_ := false; pc_locked_ := false; pc_ns_id_ := 0; pc_fd_min_ := 0; pc_prefix_ := [];
       pc_fds_ := [{| min_fd_ := LABSTOR_FD_MIN; alloced_fds_ := 0; max_fds_ := 4; free_fds_ := ring_buffer_Attach 4096 |}];
       pc_fd_to_ns_id_ := ∅; pc_namespace_ := ex_ns |}.
Definition ex_methods (module : Z) : PosixModule :=
  {| pm_Open := λ fd _ _ _, mret fd; pm_Close := λ _, mret 0; pm_IO := λ _ _ _ _ size, mret size;
     pm_AIO := λ _ _ _ _ _, mret qtok_default |}.

Definition ex_find (p : list Z) : M (option Z) := mret (ex_names p).
Definition ex_load (ns : Namespace) (id : Z) : M (Namespace * Z) := mret (ns, 0).
Definition ex_real (path : list Z) (oflag mode : Z) : M Z := mret 7.
Definition ex_real_read (fd buf size : Z) : M Z := mret 0.

Lemma ex_resolves : resolves ex_names ex_path (Some (6%nat, 1)).
Proof.
  split; [split; [done|by right]|]. split; [done|]. intros k [_ [->|Hk]] Hlt; [done|].
  do 8 (destruct k as [|k]; [try lia; done|]). done.
Qed.

Lemma open_search_terminates_witness :
  ∃ r, resolves ex_names ex_path r ∧
    open_search ex_find 9 ex_path 8 ex_posix_mem = Ret (search_result r) ex_posix_mem.
Proof. apply (open_search_terminates ex_find ex_names ex_path ex_posix_mem); [simpl; lia|done]. Defined.

Lemma posix_open_routes_witness :
  ∃ c' m', overload_open ex_methods ex_find ex_load ex_real true
      ex_client 0 ex_path 0 0 ex_posix_mem = Ret (c', 50000) m'.
Proof.
  destruct (posix_open_routes ex_methods ex_find ex_load ex_real
    ex_real_read ex_names ex_client 0 ex_path 0 0 ex_posix_mem) as [_ H]; [done|simpl; lia|].
  destruct (PosixClient_AllocateFD ex_client 0 ex_posix_mem) as [fd m1| | |] eqn:E; vm_compute in E; [|discriminate..].
  injection E as <- <-. eassert (PosixClient_AllocateFD ex_client 0 ex_posix_mem = Ret 50000 _) as E by (vm_compute; reflexivity).
  destruct (H 6%nat 1 4000 50000 _ _ eq_refl ex_resolves eq_refl ltac:(lia) E ltac:(vm_compute; congruence)
    ltac:(lia) eq_refl eq_refl) as (c' & Hc & _).
  eexists c', _. exact Hc.
Defined.

(** ** Limits *)

(** The counter of descriptors is never increased: as long as none was freed,
    every call returns the same one. *)
Lemma allocate_repeats a cap d m :
  mr_rep 4 (free_fds_ a) cap d [] m → 0 <= alloced_fds_ a < max_fds_ a → - 2 ^ 31 <= min_fd_ a → min_fd_ a + max_fds_ a < 2 ^ 31 →
  wp (x ← FDAllocator_Allocate a; y ← FDAllocator_Allocate a; mret (x, y)) (λ r _, r.1 = r.2) m.
Proof.
  intros Hr Ha Hmin Hmax.
  assert (∀ m0, mr_rep 4 (free_fds_ a) cap d [] m0 →
    wp (FDAllocator_Allocate a) (λ x m1, x = min_fd_ a + alloced_fds_ a ∧ mr_rep 4 (free_fds_ a) cap d [] m1) m0) as Hw.
  { intros m0 H0. unfold FDAllocator_Allocate. apply wp_bind. eapply wp_mono; [by apply mr_dequeue_spec|].
    intros r m1 (_ & -> & H1). rewrite !s32_small by lia. rewrite Z.geb_leb, (proj2 (Z.leb_gt _ _)) by lia. by apply wp_ret. }
  apply wp_bind. eapply wp_mono; [by apply Hw|]. intros x m1 [-> H1]. apply wp_bind.
  eapply wp_mono; [by apply Hw|]. intros y m2 [-> _]. by apply wp_ret.
Qed.

(** A second file that gets the descriptor of an open one is read through the
    module of the first. *)
Lemma second_open_misrouted methods GetNamespaceID LoadClientModule c tid path oflag n id id' module fd m m1 m2 :
  (∀ p, GetNamespaceID p m = Ret (ex_names p) m) → Z.of_nat (length path) < 2 ^ 31 →
  take (length (pc_prefix_ c)) path = pc_prefix_ c → resolves ex_names path (Some (n, id)) →
  Namespace_GetModule (pc_namespace_ c) id = module → module ≠ 0 →
  PosixClient_AllocateFD c tid m = Ret fd m1 → pc_fd_to_ns_id_ c !! fd = Some id' →
  pm_Open (methods module) fd path (Z.of_nat n) oflag m1 = Ret fd m2 →
  ∃ c', PosixClient_Open methods GetNamespaceID LoadClientModule c tid path oflag m = Ret (c', fd) m2 ∧
    pc_fd_to_ns_id_ c' !! fd = Some id'.
Proof.
  intros Hn Hlen Hp Hr Hmod Hnz Ha Hid Hopen.
  pose proof (open_resolved methods _ LoadClientModule ex_names c m Hn tid path oflag n id module Hlen Hp Hr Hmod Hnz) as E.
  rewrite (run_bind _ _ _ _ _ Ha), (run_bind _ _ _ _ _ Hopen), Hid in E.
  eexists. split; [exact E|]. simpl. by rewrite lookup_insert_eq.
Qed.

(** Closing and reading a descriptor that is not the client's never reaches
    the C library: the client reports it with -1, the library waits for
    -1350. *)
Lemma foreign_fd_lost methods real_close real_read c tid fd buf size m :
  fd < pc_fd_min_ c →
  overload_close methods real_close true c tid fd m = Ret (c, -1) m ∧
  overload_read methods real_read true c fd buf size m = Ret (c, -1) m.
Proof.
  intros H. unfold overload_close, PosixClient_Close, overload_read, PosixClient_Read, PosixClient_IO.
  by rewrite (proj2 (Z.ltb_lt _ _)) by done.
Qed.

(** The first allocator is placed one allocator too far: with one CPU it lies
    behind the region. *)
Lemma fd_allocators_past_end region m :
  m !! (region + fd_alloc_size) = None → fd_allocators 1 0 region fd_alloc_size m = Fault.
Proof.
  intros H. cbn [fd_allocators]. unfold FDAllocator_new, ring_buffer_Init, mbind, M_bind. unfold store at 1.
  assert (validb m (region + fd_alloc_size + mrh_enqueued_) 4 = false) as ->; [|done].
  unfold mrh_enqueued_. rewrite Z.add_0_r. destruct (validb _ _ _) eqn:E; [|done]. apply validb_valid in E. destruct (E (region + fd_alloc_size)) as [x Hx]; [lia|congruence].
Qed.

(** A thread whose number is not below the number of CPUs has no allocator. *)
Lemma many_threads_fault c tid m :
  Z.of_nat (length (pc_fds_ c)) <= tid → PosixClient_AllocateFD c tid m = Fault.
Proof.
  intros H. unfold PosixClient_AllocateFD, thread_fds. by rewrite lookup_ge_None_2 by lia.
Qed.
