(* ===== verification/ModuleTable.v ===== *)
(** * ModuleTable.v: modules of the userspace by id

    types/basics.h ([labstor::id], its equality and hash), and the module
    table with its two users: userspace/types/module.h,
    src/userspace/server/module_manager.cpp and
    src/userspace/client/module_manager.cpp.

    dlopen, dlsym, the file system and the configuration file are parameters.
    The table is kept in hash maps with ids as keys; the theorem
    [id_hash_consistent] is what the hash map asks of its hash, and lets the
    maps be modelled as maps from the text of an id. *)

From S2P Require Import Prelude Namespace.

Local Open Scope Z_scope.

(** ** labstor::id *)

Definition MODULE_KEY_SIZE : nat := 32.

(** The 32 bytes of the array. *)
Record id := { key_ : list Z }.

(** The characters before the terminator; all of them if there is none. *)
Fixpoint c_str (l : list Z) : list Z :=
  match l with [] => [] | c :: l' => if c =? 0 then [] else c :: c_str l' end.

Definition id_text (i : id) : list Z := c_str (take MODULE_KEY_SIZE (key_ i)).

(** [strcpy] into an array whose old bytes are [old]; a text that does not
    fit is undefined behaviour. *)
Definition id_new (old str : list Z) : option id :=
  if (length str <? MODULE_KEY_SIZE)%nat then Some {| key_ := str ++ 0 :: drop (S (length str)) old |} else None.

(** [copy]: the bytes and a terminator. *)
Definition id_copy (i : id) (str : list Z) : option id :=
  if (length str <? MODULE_KEY_SIZE)%nat then Some {| key_ := str ++ 0 :: drop (S (length str)) (key_ i) |} else None.

(** [strncmp(a, b, n) == 0]. *)
Fixpoint strncmp_eq (n : nat) (a b : list Z) : bool :=
  match n with
  | O => true
  | S n' =>
      match a, b with
      | c :: a', c' :: b' => if negb (c =? c') then false else if c =? 0 then true else strncmp_eq n' a' b'
      | _, _ => false
      end
  end.

Definition id_eqb (a b : id) : bool := strncmp_eq MODULE_KEY_SIZE (key_ a) (key_ b).

Definition strnlen (l : list Z) : nat := length (c_str (take MODULE_KEY_SIZE l)).

(** A [char] is signed. *)
Definition char_value (c : Z) : Z := (c + 128) mod 256 - 128.

Fixpoint id_hash_loop (n : nat) (l : list Z) (i : Z) (sum : Z) : Z :=
  match n, l with
  | S n', c :: l' => if c =? 0 then sum else id_hash_loop n' l' (i + 1) (u64 (sum + char_value c * 2 ^ (i mod 8)))
  | _, _ => sum
  end.

Definition id_hash (i : id) : Z := id_hash_loop (strnlen (key_ i)) (key_ i) 0 0.

(** An object of the type: its array has 32 bytes. *)
Definition id_ok (i : id) : Prop := length (key_ i) = MODULE_KEY_SIZE.

Lemma strncmp_eq_spec n a b :
  (n <= length a)%nat → (n <= length b)%nat → strncmp_eq n a b = true ↔ c_str (take n a) = c_str (take n b).
Proof.
  revert a b. induction n as [|n IH]; intros a b Ha Hb; [done|].
  destruct a as [|c a], b as [|c' b]; simpl in *; try lia.
  destruct (Z.eqb_spec c c') as [->|Hne]; simpl.
  - destruct (Z.eqb_spec c' 0) as [->|]; [done|]. rewrite IH by lia. split; [by intros ->|]. by intros [= ->].
  - split; [done|]. destruct (Z.eqb_spec c 0), (Z.eqb_spec c' 0); congruence.
Qed.

Lemma id_eqb_text a b : id_ok a → id_ok b → id_eqb a b = true ↔ id_text a = id_text b.
Proof. intros Ha Hb. unfold id_eqb, id_text. apply strncmp_eq_spec; by rewrite ?Ha, ?Hb. Qed.

(** The hash reads the text only. *)
Lemma id_hash_loop_text n l i sum :
  (length (c_str (take n l)) <= n)%nat →
  id_hash_loop (length (c_str (take n l))) l i sum =
    id_hash_loop (length (c_str (take n l))) (c_str (take n l)) i sum.
Proof.
  revert n i sum. induction l as [|c l IH]; intros n i sum Hn; [by rewrite take_nil|].
  destruct n as [|n]; [done|]. simpl. destruct (Z.eqb_spec c 0) as [->|Hc]; [done|]. simpl.
  rewrite (proj2 (Z.eqb_neq c 0)) by done. apply IH. simpl in Hn.
  rewrite (proj2 (Z.eqb_neq c 0)) in Hn by done. simpl in Hn. lia.
Qed.

Lemma c_str_length l : (length (c_str l) <= length l)%nat.
Proof. induction l as [|c l IH]; simpl; [done|]. destruct (c =? 0); simpl; lia. Qed.

Lemma id_hash_text i : id_hash i = id_hash_loop (length (id_text i)) (id_text i) 0 0.
Proof.
  unfold id_hash, strnlen, id_text. apply id_hash_loop_text.
  pose proof (c_str_length (take MODULE_KEY_SIZE (key_ i))). rewrite length_take in H. lia.
Qed.

Lemma id_hash_loop_range n l i sum : 0 <= sum < 2 ^ 64 → 0 <= id_hash_loop n l i sum < 2 ^ 64.
Proof.
  revert l i sum. induction n as [|n IH]; intros l i sum Hs; simpl; [done|]. destruct l as [|c l]; [done|].
  destruct (c =? 0); [done|]. apply IH. unfold u64. apply Z.mod_pos_bound. lia.
Qed.

(** Ids that compare equal. *)
Definition id_equiv (a b : { i : id | id_ok i }) : Prop := id_eqb (`a) (`b) = true.

#[export] Instance id_equiv_equivalence : Equivalence id_equiv.
Proof.
  split.
  - intros [a Ha]. unfold id_equiv. simpl. by rewrite id_eqb_text.
  - intros [a Ha] [b Hb]. unfold id_equiv. simpl. rewrite !id_eqb_text by done. done.
  - intros [a Ha] [b Hb] [c Hc]. unfold id_equiv. simpl. rewrite !id_eqb_text by done. congruence.
Qed.

#[export] Instance id_text_proper : Proper (id_equiv ==> eq) (λ a, id_text (`a)).
Proof. intros [a Ha] [b Hb]. unfold id_equiv. simpl. by rewrite id_eqb_text. Qed.

Lemma c_str_app l r : 0 ∉ l → c_str (l ++ 0 :: r) = l.
Proof.
  induction l as [|c l IH]; intros H; simpl; [done|]. apply not_elem_of_cons in H as [Hc Hl].
  rewrite (proj2 (Z.eqb_neq c 0)) by done. by rewrite IH.
Qed.

(** C28. Module ids as keys of a hash map, over every content of their
    arrays: [operator ==] is an equivalence that holds exactly for ids with
    the same text; ids that are equal have the same hash, which is what
    [std::unordered_map] asks for; the hash is a 64-bit number; and an id made
    from a text of at most 31 characters, in an array with any old content,
    has that text. *)
Theorem id_hash_consistent :
  Equivalence id_equiv ∧
  (∀ a b, id_equiv a b ↔ id_text (`a) = id_text (`b)) ∧
  Proper (id_equiv ==> eq) (λ a, id_hash (`a)) ∧
  (∀ a, 0 <= id_hash a < 2 ^ 64) ∧
  (∀ old str, length old = MODULE_KEY_SIZE → 0 ∉ str → (length str < MODULE_KEY_SIZE)%nat →
     ∃ i, id_new old str = Some i ∧ id_ok i ∧ id_text i = str).
Proof.
  split; [apply _|]. split; [intros [a Ha] [b Hb]; by apply id_eqb_text|]. split; [|split].
  - intros a b Hab. rewrite !id_hash_text. by rewrite (id_text_proper a b Hab).
  - intros a. by apply id_hash_loop_range.
  - intros old str Hold Hnul Hlen. unfold id_new. rewrite (proj2 (Nat.ltb_lt _ _)) by done.
    eexists. split; [done|]. split; [unfold id_ok; simpl; rewrite length_app; simpl; rewrite length_drop; lia|].
    unfold id_text. cbn [key_]. rewrite take_ge; [by apply c_str_app|].
    rewrite length_app. simpl. rewrite length_drop. lia.
Qed.

(** ** The module table *)

Record ModuleHandle := { constructor_ : Z; handle_ : Z }.
Record ModulePath := { mp_client : list Z; mp_server : list Z }.
Inductive ModulePathType := kClient | kServer.

(** The table, the paths, and how often each library is open.  Keys are the
    texts of ids. *)
Record ModuleManager := {
  mutex_ : bool;
  pkg_pool_ : gmap (list Z) ModuleHandle;
  upgrades_ : list Z;
  paths_ : gmap (list Z) ModulePath;
  dl_refs : gmap Z nat
}.

(** A result, a C++ exception with its code, or undefined behaviour (a mutex
    that the thread has already locked, a text that does not fit). *)
Inductive mm_result (A : Type) : Type :=
| MRet_ (a : A) (s : ModuleManager)
| MThrow (code : Z) (s : ModuleManager)
| MFault.
Arguments MRet_ {A} a s.
Arguments MThrow {A} code s.
Arguments MFault {A}.

Definition MM (A : Type) : Type := ModuleManager → mm_result A.
#[export] Instance MM_ret : MRet MM := λ A a s, MRet_ a s.
#[export] Instance MM_bind : MBind MM := λ A B f c s,
  match c s with MRet_ a s' => f a s' | MThrow code s' => MThrow code s' | MFault => MFault end.

Definition mm_throw {A} (code : Z) : MM A := λ s, MThrow code s.
Definition mm_get : MM ModuleManager := λ s, MRet_ s s.

Definition mm_lock : MM unit := λ s,
  if mutex_ s then MFault
  else MRet_ tt {| mutex_ := true; pkg_pool_ := pkg_pool_ s; upgrades_ := upgrades_ s; paths_ := paths_ s; dl_refs := dl_refs s |}.
Definition mm_unlock : MM unit := λ s,
  MRet_ tt {| mutex_ := false; pkg_pool_ := pkg_pool_ s; upgrades_ := upgrades_ s; paths_ := paths_ s; dl_refs := dl_refs s |}.
Definition mm_set_pool (pool : gmap (list Z) ModuleHandle) : MM unit := λ s,
  MRet_ tt {| mutex_ := mutex_ s; pkg_pool_ := pool; upgrades_ := upgrades_ s; paths_ := paths_ s; dl_refs := dl_refs s |}.
Definition mm_set_refs (refs : gmap Z nat) : MM unit := λ s,
  MRet_ tt {| mutex_ := mutex_ s; pkg_pool_ := pkg_pool_ s; upgrades_ := upgrades_ s; paths_ := paths_ s; dl_refs := refs |}.

Definition DLSYM_MODULE_NOT_FOUND : Z := 100.
Definition DLSYM_MODULE_NO_CONSTRUCTOR : Z := 101.
Definition INVALID_MODULE_ID : Z := 500.

Definition ModuleTable_PushUpgrade (req : Z) : MM unit := λ s,
  MRet_ tt {| mutex_ := mutex_ s; pkg_pool_ := pkg_pool_ s; upgrades_ := upgrades_ s ++ [req]; paths_ := paths_ s; dl_refs := dl_refs s |}.

Definition ModuleTable_GetUpgrades : MM (list Z) := s ← mm_get; mret (upgrades_ s).

(** [emplace] keeps an entry that is there. *)
Definition ModuleTable_SetModuleConstructor (module_id : list Z) (module_info : ModuleHandle) : MM unit :=
  _ ← mm_lock;
  s ← mm_get;
  _ ← (match pkg_pool_ s !! module_id with
       | Some old => mm_set_refs (alter pred (handle_ old) (dl_refs s))
       | None => mret tt
       end);
  _ ← mm_set_pool (match pkg_pool_ s !! module_id with Some _ => pkg_pool_ s | None => <[module_id := module_info]> (pkg_pool_ s) end);
  mm_unlock.

Definition ModuleTable_GetModuleConstructor (module_id : list Z) : MM Z :=
  _ ← mm_lock;
  s ← mm_get;
  match pkg_pool_ s !! module_id with
  | None => _ ← mm_unlock; mm_throw INVALID_MODULE_ID
  | Some module_info => _ ← mm_unlock; mret (constructor_ module_info)
  end.

Definition ModuleTable_HasModule (module_id : list Z) : MM bool :=
  _ ← mm_lock; s ← mm_get; _ ← mm_unlock; mret (bool_decide (is_Some (pkg_pool_ s !! module_id))).

Section libraries.
(** dlopen by path, and dlsym of "create_module" and of "get_module_id" (of
    which the value is the id it returns). *)
Context (dlopen : list Z → option Z) (create_module : Z → option Z) (get_module_id : Z → option (list Z)).

(** The handle and the id of the module. *)
Definition ModuleTable_OpenModule (path : list Z) : MM (ModuleHandle * list Z) :=
  match dlopen path with
  | None => mm_throw DLSYM_MODULE_NOT_FOUND
  | Some handle =>
      s ← mm_get;
      _ ← mm_set_refs (<[handle := S (default O (dl_refs s !! handle))]> (dl_refs s));
      match create_module handle with
      | None => mm_throw DLSYM_MODULE_NO_CONSTRUCTOR
      | Some create =>
          match get_module_id handle with
          | None => mm_throw DLSYM_MODULE_NO_CONSTRUCTOR
          | Some module_id => mret ({| constructor_ := create; handle_ := handle |}, module_id)
          end
      end
  end.

(** [labstor::Client::ModuleManager::UpdateModule]; pausing and resuming the
    queues has no body. *)
Definition Client_UpdateModule (path : list Z) : MM (list Z) :=
  '(module_info, module_id) ← ModuleTable_OpenModule path;
  _ ← ModuleTable_SetModuleConstructor module_id module_info;
  mret module_id.

Definition Server_AddModulePaths (module_id : list Z) (paths : ModulePath) : MM unit := λ s,
  MRet_ tt {| mutex_ := mutex_ s; pkg_pool_ := pkg_pool_ s; upgrades_ := upgrades_ s;
              paths_ := <[module_id := paths]> (paths_ s); dl_refs := dl_refs s |}.

(** [operator []] adds empty paths. *)
Definition Server_GetModulePath (module_id : list Z) (type : ModulePathType) : MM (list Z) :=
  s ← mm_get;
  let p := default {| mp_client := []; mp_server := [] |} (paths_ s !! module_id) in
  _ ← Server_AddModulePaths module_id p;
  mret (match type with kClient => mp_client p | kServer => mp_server p end).

(** The repositories of the configuration after [path_parser], the file
    system, and the entries of a directory. *)
Context (repos : list (list Z)) (exists_ : list Z → bool) (directory : list Z → list (list Z)).

Definition slash (a b : list Z) : list Z := a ++ 47 :: b.
Definition text_include_labmods : list Z := [105; 110; 99; 108; 117; 100; 101; 47; 108; 97; 98; 109; 111; 100; 115].
Definition text_lib : list Z := [108; 105; 98].
Definition text_client_so : list Z := [95; 99; 108; 105; 101; 110; 116; 46; 115; 111].
Definition text_server_so : list Z := [95; 115; 101; 114; 118; 101; 114; 46; 115; 111].

Definition client_lib (repo_path name : list Z) : list Z := slash (slash repo_path text_lib) (text_lib ++ name ++ text_client_so).
Definition server_lib (repo_path name : list Z) : list Z := slash (slash repo_path text_lib) (text_lib ++ name ++ text_server_so).

(** The loop over the directory; [paths] is declared outside it, and the id of
    the directory is overwritten by the one the library reports. *)
Fixpoint load_modules (repo_path : list Z) (names : list (list Z)) (paths : ModulePath) : MM unit :=
  match names with
  | [] => mret tt
  | name :: names' =>
      if (MODULE_KEY_SIZE <=? length name)%nat then λ _, MFault
      else
        has ← ModuleTable_HasModule name;
        if has : bool then load_modules repo_path names' paths
        else
          let paths := if exists_ (client_lib repo_path name)
                       then {| mp_client := client_lib repo_path name; mp_server := mp_server paths |} else paths in
          '(paths, uuid) ← (if exists_ (server_lib repo_path name) then
                              let paths := {| mp_client := mp_client paths; mp_server := server_lib repo_path name |} in
                              '(module_info, uuid) ← ModuleTable_OpenModule (mp_server paths);
                              _ ← ModuleTable_SetModuleConstructor uuid module_info;
                              mret (paths, uuid)
                            else mret (paths, name));
          _ ← Server_AddModulePaths uuid paths;
          load_modules repo_path names' paths
  end.

Fixpoint load_repos (l : list (list Z)) : MM bool :=
  match l with
  | [] => mret true
  | repo_path :: l' =>
      let labmod_uuid_path := slash repo_path text_include_labmods in
      if negb (exists_ labmod_uuid_path) then mret false
      else _ ← load_modules repo_path (directory labmod_uuid_path) {| mp_client := []; mp_server := [] |};
           load_repos l'
  end.

Definition Server_LoadRepos : MM bool := load_repos repos.
End libraries.

Definition ModuleManager_new : ModuleManager :=
  {| mutex_ := false; pkg_pool_ := ∅; upgrades_ := []; paths_ := ∅; dl_refs := ∅ |}.

(** ** Upgrades *)

(** The loop of [CentralizedUpdateModule] over the queue of instances: the
    oldest is taken, a new one made and appended, the old one deleted.
    [construct i] is the [i]th object the constructor makes.  The queue keeps
    its size, so there are as many rounds as instances. *)
Fixpoint update_instances (construct : nat → Z) (n i : nat) (modules deleted : list Z) : list Z * list Z :=
  match n, modules with
  | S n', old_instance :: modules' =>
      update_instances construct n' (S i) (modules' ++ [construct i]) (deleted ++ [old_instance])
  | _, _ => (modules, deleted)
  end.

(** The namespace after the upgrade and the deleted objects; [construct] is
    given the constructor of the new library. *)
Definition Server_CentralizedUpdateModule (dlopen : list Z → option Z) (create_module : Z → option Z)
    (get_module_id : Z → option (list Z)) (construct : Z → nat → Z) (path : list Z) (ns : Namespace)
    : MM (Namespace * list Z) :=
  '(module_info, module_id) ← ModuleTable_OpenModule dlopen create_module get_module_id path;
  let '(ns, modules) := Namespace_AllModuleInstances ns module_id in
  let '(modules, deleted) :=
    update_instances (construct (constructor_ module_info)) (length modules) 0 modules [] in
  let ns := {| ns_ids_ := ns_ids_ ns; key_to_ns_id_ := key_to_ns_id_ ns; private_state_ := private_state_ ns;
               module_id_to_instance_ := <[module_id := modules]> (module_id_to_instance_ ns) |} in
  _ ← ModuleTable_SetModuleConstructor module_id module_info;
  mret (ns, deleted).

(** [DecentralizedUpdateModule] has no body. *)
Definition Server_DecentralizedUpdateModule : MM unit := mret tt.

(** ** Loading *)

(** Every library in the table is open, and the table is not locked. *)
Record table_ok (s : ModuleManager) : Prop := {
  to_unlocked : mutex_ s = false;
  to_open : ∀ k h, pkg_pool_ s !! k = Some h → ∃ n, dl_refs s !! handle_ h = Some (S n)
}.

Section loading.
Context (dlopen : list Z → option Z) (create_module : Z → option Z) (get_module_id : Z → option (list Z))
  (exists_ : list Z → bool) (directory : list Z → list (list Z)).

(** The library of a module, if the repository has one. *)
Definition lib_of (repo name : list Z) : option (list Z * ModuleHandle) :=
  if exists_ (server_lib repo name) then
    handle ← dlopen (server_lib repo name);
    create ← create_module handle;
    module_id ← get_module_id handle;
    Some (module_id, {| constructor_ := create; handle_ := handle |})
  else None.

(** A directory entry that can be loaded: its name is short enough, and its
    server library, if there is one, has a constructor and an id. *)
Definition loadable (repo name : list Z) : Prop :=
  (length name < MODULE_KEY_SIZE)%nat ∧
  (exists_ (server_lib repo name) = true → is_Some (lib_of repo name)).

(** The libraries [libs], by the ids they report, and the names of their
    directories are new to the table [pool]: no id is reported twice or has an
    entry, and no directory is named like an id. *)
Record all_new (pool : gmap (list Z) ModuleHandle) (libs : list (list Z * ModuleHandle)) (names : list (list Z)) : Prop := {
  an_distinct : NoDup libs.*1;
  an_ids : ∀ i, i ∈ libs.*1 → pool !! i = None;
  an_names : ∀ n, n ∈ names → pool !! n = None ∧ n ∉ libs.*1
}.

Definition entries (repo : list Z) : list (list Z) := directory (slash repo text_include_labmods).

Lemma mm_bind_ret {A B} (c : MM A) (f : A → MM B) s a s' : c s = MRet_ a s' → (c ≫= f) s = f a s'.
Proof. intros E. unfold mbind, MM_bind. by rewrite E. Qed.

Lemma has_module_spec name s :
  table_ok s → ModuleTable_HasModule name s = MRet_ (bool_decide (is_Some (pkg_pool_ s !! name))) s.
Proof.
  intros [Hu _]. unfold ModuleTable_HasModule, mbind, MM_bind, mm_lock, mm_get. destruct s. simpl in *. by rewrite Hu.
Qed.

(** Opening a library and entering it under a new id. *)
Lemma open_set_spec path name handle create s :
  table_ok s → pkg_pool_ s !! name = None →
  dlopen path = Some handle → create_module handle = Some create → get_module_id handle = Some name →
  ∃ s', ('(module_info, uuid) ← ModuleTable_OpenModule dlopen create_module get_module_id path;
         _ ← ModuleTable_SetModuleConstructor uuid module_info; mret uuid) s = MRet_ name s' ∧
    table_ok s' ∧ pkg_pool_ s' = <[name := {| constructor_ := create; handle_ := handle |}]> (pkg_pool_ s).
Proof.
  destruct s as [mu pool up pa refs]. intros [Hu Ho] Hnew Hd Hc Hg. simpl in *. subst mu.
  unfold ModuleTable_OpenModule, ModuleTable_SetModuleConstructor. rewrite Hd.
  unfold mbind, MM_bind, mm_get, mm_set_refs, mret, MM_ret. cbn. rewrite Hc, Hg. cbn. rewrite Hnew. cbn.
  eexists. split; [done|].
  split; [|done]. split; [done|]. simpl. intros k h [[<- <-]|[Hne Hk]]%lookup_insert_Some; simpl.
  - rewrite lookup_insert_eq. by eexists.
  - destruct (decide (handle_ h = handle)) as [->|]; [rewrite lookup_insert_eq; by eexists|].
    rewrite lookup_insert_ne by done. by eapply Ho.
Qed.

Lemma add_paths_spec name paths s :
  table_ok s → ∃ s', Server_AddModulePaths name paths s = MRet_ tt s' ∧ table_ok s' ∧ pkg_pool_ s' = pkg_pool_ s.
Proof. intros [Hu Ho]. eexists. split; [done|]. split; [by split|done]. Qed.

Lemma lib_of_Some repo name i h :
  lib_of repo name = Some (i, h) →
  exists_ (server_lib repo name) = true ∧ dlopen (server_lib repo name) = Some (handle_ h) ∧
  create_module (handle_ h) = Some (constructor_ h) ∧ get_module_id (handle_ h) = Some i.
Proof.
  unfold lib_of. destruct (exists_ _); [|done]. intros (handle & Hd & H)%bind_Some.
  apply bind_Some in H as (create & Hc & H). apply bind_Some in H as (mid & Hg & [= <- <-]). done.
Qed.

(** Only fewer libraries and names are left, in a table that has the first. *)
Lemma all_new_tail pool i h libs n names :
  all_new pool ((i, h) :: libs) (n :: names) → all_new (<[i := h]> pool) libs names.
Proof.
  intros [Hnd Hids Hns]. cbn [fmap list_fmap fst] in *. apply NoDup_cons in Hnd as [Hi Hnd]. split; [done| |].
  - intros j Hj. rewrite lookup_insert_ne by (by intros ->). apply Hids. by right.
  - intros k Hk. destruct (Hns k) as [H1 H2]; [by right|]. apply not_elem_of_cons in H2 as [H2 H3].
    by rewrite lookup_insert_ne by done.
Qed.

Lemma union_list_to_map_cons (pool : gmap (list Z) ModuleHandle) i h libs :
  pool !! i = None → <[i := h]> pool ∪ list_to_map libs = pool ∪ list_to_map ((i, h) :: libs).
Proof.
  intros Hi. apply map_eq. intros k. cbn [list_to_map foldr fst snd uncurry]. rewrite !lookup_union.
  destruct (decide (k = i)) as [->|Hne].
  - rewrite !lookup_insert_eq, Hi. by rewrite union_Some_l, (left_id None _).
  - by rewrite !lookup_insert_ne by done.
Qed.

Lemma load_modules_spec repo names paths s :
  table_ok s → Forall (loadable repo) names → all_new (pkg_pool_ s) (omap (lib_of repo) names) names →
  ∃ s', load_modules dlopen create_module get_module_id exists_ repo names paths s = MRet_ tt s' ∧
    table_ok s' ∧ pkg_pool_ s' = pkg_pool_ s ∪ list_to_map (omap (lib_of repo) names).
Proof.
  intros Hs Hl. revert paths s Hs. induction Hl as [|name names [Hlen Hlib] Hl IH]; intros paths s Hs Hnew.
  { exists s. split; [done|]. split; [done|]. simpl. by rewrite (right_id ∅ (∪)). }
  cbn [load_modules omap list_omap] in *. rewrite (proj2 (Nat.leb_gt _ _)) by done.
  rewrite (mm_bind_ret _ _ _ _ _ (has_module_spec name s Hs)).
  destruct (an_names _ _ _ Hnew name) as [Hname _]; [by left|].
  rewrite bool_decide_false by (rewrite Hname; by intros [? ?]).
  set (paths1 := if exists_ (client_lib repo name) then _ else paths).
  destruct (lib_of repo name) as [[i h]|] eqn:Elib.
  - destruct (lib_of_Some _ _ _ _ Elib) as (Ex & Hd & Hc & Hg). rewrite Ex.
    assert (pkg_pool_ s !! i = None) as Hi by (apply (an_ids _ _ _ Hnew); by left).
    destruct (open_set_spec _ i (handle_ h) (constructor_ h) s Hs Hi Hd Hc Hg) as (s1 & E1 & Hs1 & Hp1).
    replace {| constructor_ := constructor_ h; handle_ := handle_ h |} with h in Hp1 by (by destruct h).
    set (paths2 := {| mp_client := mp_client paths1; mp_server := server_lib repo name |}).
    destruct (add_paths_spec i paths2 s1 Hs1) as (s2 & E2 & Hs2 & Hp2).
    destruct (IH paths2 s2 Hs2) as (s3 & E3 & Hs3 & Hp3).
    { rewrite Hp2, Hp1. by eapply all_new_tail. }
    exists s3. split; [|split; [done|]].
    + rewrite <-E3. unfold mbind, MM_bind, mret, MM_ret, Server_AddModulePaths in *. cbn [mp_server].
      destruct (ModuleTable_OpenModule _ _ _ _ s) as [[info uuid] s0| |]; simplify_eq/=.
      destruct (ModuleTable_SetModuleConstructor uuid info s0); by simplify_eq/=.
    + rewrite Hp3, Hp2, Hp1. by apply union_list_to_map_cons.
  - assert (exists_ (server_lib repo name) = false) as ->.
    { apply not_true_iff_false. intros Ex. by destruct (Hlib Ex). }
    destruct (add_paths_spec name paths1 s Hs) as (s2 & E2 & Hs2 & Hp2).
    destruct (IH paths1 s2 Hs2) as (s3 & E3 & Hs3 & Hp3).
    { rewrite Hp2. destruct Hnew as [? ? Hns]. split; [done..|]. intros n Hn. apply Hns. by right. }
    exists s3. split; [|split; [done|]].
    + rewrite <-E3. injection E2 as <-. done.
    + by rewrite Hp3, Hp2.
Qed.

(** The libraries and the directories of a list of repositories. *)
Definition repo_libs (repos : list (list Z)) : list (list Z * ModuleHandle) :=
  concat ((λ repo, omap (lib_of repo) (entries repo)) <$> repos).
Definition repo_names (repos : list (list Z)) : list (list Z) := concat (entries <$> repos).

Lemma all_new_app pool libs1 libs2 names1 names2 :
  all_new pool (libs1 ++ libs2) (names1 ++ names2) →
  all_new pool libs1 names1 ∧ all_new (pool ∪ list_to_map libs1) libs2 names2.
Proof.
  intros [Hnd Hids Hns]. rewrite fmap_app in *. apply NoDup_app in Hnd as (Hnd1 & Hdis & Hnd2).
  split; split; [done| | |done| |].
  - intros i Hi. apply Hids, elem_of_app. by left.
  - intros n Hn. destruct (Hns n) as [H1 H2]; [apply elem_of_app; by left|]. split; [done|].
    intros Hin. apply H2, elem_of_app. by left.
  - intros i Hi. apply lookup_union_None. split; [apply Hids, elem_of_app; by right|].
    apply not_elem_of_list_to_map_1. intros Hin. by apply (Hdis i).
  - intros n Hn. destruct (Hns n) as [H1 H2]; [apply elem_of_app; by right|]. rewrite elem_of_app in H2. split; [|tauto].
    apply lookup_union_None. split; [done|]. apply not_elem_of_list_to_map_1. tauto.
Qed.

Lemma load_repos_spec good rest s :
  table_ok s → Forall (λ repo, exists_ (slash repo text_include_labmods) = true ∧ Forall (loadable repo) (entries repo)) good →
  all_new (pkg_pool_ s) (repo_libs good) (repo_names good) →
  match rest with [] => True | bad :: _ => exists_ (slash bad text_include_labmods) = false end →
  ∃ s', load_repos dlopen create_module get_module_id exists_ directory (good ++ rest) s = MRet_ (bool_decide (rest = [])) s' ∧
    table_ok s' ∧ pkg_pool_ s' = pkg_pool_ s ∪ list_to_map (repo_libs good).
Proof.
  intros Hs Hg Hnew Hr. revert s Hs Hnew. induction Hg as [|repo good [Hex Hl] Hg IH]; intros s Hs Hnew.
  - exists s. simpl. split; [|split; [done|by rewrite (right_id ∅ (∪))]].
    destruct rest as [|bad rest]; [done|]. cbn [load_repos]. by rewrite Hr.
  - cbn [app load_repos]. rewrite Hex. cbn [negb]. unfold repo_libs, repo_names in *. cbn [fmap list_fmap concat] in *.
    apply all_new_app in Hnew as [Hnew1 Hnew2].
    destruct (load_modules_spec repo (entries repo) {| mp_client := []; mp_server := [] |} s Hs Hl Hnew1) as (s1 & E1 & Hs1 & Hp1).
    unfold entries at 1 in E1. rewrite (mm_bind_ret _ _ _ _ _ E1).
    destruct (IH s1 Hs1) as (s2 & E2 & Hs2 & Hp2); [by rewrite Hp1|]. exists s2. split; [done|]. split; [done|].
    by rewrite Hp2, Hp1, list_to_map_app, (assoc_L (∪)).
Qed.
End loading.

(** C29. [LoadRepos], with any file system and any libraries: when the entries
    of the repositories up to the first one without a module directory can be
    loaded (names of less than 32 characters; every server library has a
    constructor and an id), and the ids that the libraries report are new (no
    two libraries report the same, none has an entry in the table, and no
    directory is named like one), the call returns, with false exactly when
    there is such a repository.  The table then has the modules it had and the
    constructor of every server library of these repositories under the id it
    reports; every library in the table is open and the table is not locked.
    When two libraries report the same id, the first is closed and stays in the
    table ([shared_id_dangling]). *)
Theorem load_repos_correct dlopen create_module get_module_id exists_ directory good rest s :
  table_ok s →
  Forall (λ repo, exists_ (slash repo text_include_labmods) = true ∧
     Forall (loadable dlopen create_module get_module_id exists_ repo) (entries directory repo)) good →
  all_new (pkg_pool_ s) (repo_libs dlopen create_module get_module_id exists_ directory good) (repo_names directory good) →
  match rest with [] => True | bad :: _ => exists_ (slash bad text_include_labmods) = false end →
  ∃ s', Server_LoadRepos dlopen create_module get_module_id (good ++ rest) exists_ directory s =
      MRet_ (bool_decide (rest = [])) s' ∧
    table_ok s' ∧
    pkg_pool_ s' = pkg_pool_ s ∪ list_to_map (repo_libs dlopen create_module get_module_id exists_ directory good).
Proof. intros Hs Hg Hn Hr. by apply load_repos_spec. Qed.

(** ** An upgrade *)

(** Each instance is replaced once, in order. *)
Lemma update_instances_spec construct i q new deleted :
  update_instances construct (length q) i (q ++ new) deleted =
    (new ++ (construct <$> seq i (length q)), deleted ++ q).
Proof.
  revert i new deleted. induction q as [|x q IH]; intros i new deleted.
  - simpl. destruct new; by rewrite ?app_nil_r.
  - cbn [length update_instances app]. rewrite <-app_assoc, IH. by rewrite <-!app_assoc.
Qed.

(** ** A concrete repository, at "r", with the directories "a" and "b", whose
    server libraries report the ids "A" and "B"; only "a" has a client
    library. *)

Definition ex_dlopen (path : list Z) : option Z := if decide (path = server_lib [114] [97]) then Some 1 else Some 2.
Definition ex_create (handle : Z) : option Z := Some (100 + handle).
Definition ex_get_id (handle : Z) : option (list Z) := Some (if handle =? 1 then [65] else [66]).
Definition ex_exists (path : list Z) : bool := negb (bool_decide (path = client_lib [114] [98])).
Definition ex_directory (path : list Z) : list (list Z) := [[97]; [98]].

Lemma load_repos_correct_witness :
  ∃ s', Server_LoadRepos ex_dlopen ex_create ex_get_id [[114]] ex_exists ex_directory ModuleManager_new = MRet_ true s' ∧
    table_ok s' ∧ pkg_pool_ s' !! [66] = Some {| constructor_ := 102; handle_ := 2 |}.
Proof.
  destruct (load_repos_correct ex_dlopen ex_create ex_get_id ex_exists ex_directory [[114]] [] ModuleManager_new)
    as (s' & E & Hs & Hp).
  - split; done.
  - constructor; [|constructor]. split; [done|]. repeat constructor; simpl; try lia; intros _;
      (eexists; vm_compute; reflexivity).
  - split.
    + apply (bool_decide_unpack _). vm_compute. exact I.
    + intros i _. apply lookup_empty.
    + intros n Hn. split; [apply lookup_empty|].
      assert (n = [97] ∨ n = [98]) as [-> | ->] by (revert Hn; vm_compute; set_solver);
        apply (bool_decide_unpack _); vm_compute; exact I.
  - done.
  - exists s'. split; [done|]. split; [done|]. rewrite Hp. vm_compute. reflexivity.
Defined.

(** ** Limits *)

(** Entering a module a second time closes the library of the first entry and
    keeps that entry. *)
Lemma reload_dangling name old new s :
  table_ok s → pkg_pool_ s !! name = Some old → dl_refs s !! handle_ old = Some 1%nat →
  ∃ s', ModuleTable_SetModuleConstructor name new s = MRet_ tt s' ∧
    pkg_pool_ s' !! name = Some old ∧ dl_refs s' !! handle_ old = Some O.
Proof.
  destruct s as [mu pool up pa refs]. intros [Hu _] Hold Hrefs. simpl in *. subst mu.
  unfold ModuleTable_SetModuleConstructor, mbind, MM_bind, mm_get. cbn. rewrite Hold. cbn.
  eexists. split; [done|]. split; [done|]. simpl. by rewrite lookup_alter_eq, Hrefs.
Qed.

(** Two directories whose libraries report the same id, as labstor_fs and lru
    do: the library of the first is closed and stays in the table. *)
Lemma shared_id_dangling :
  match Server_LoadRepos ex_dlopen ex_create (λ _, Some [65]) [[114]] ex_exists ex_directory ModuleManager_new with
  | MRet_ ok s => ok = true ∧ pkg_pool_ s !! [65] = Some {| constructor_ := 101; handle_ := 1 |} ∧ dl_refs s !! 1 = Some O
  | _ => False
  end.
Proof. vm_compute. done. Qed.

(** A module without a client library is given the one of the module before
    it in the directory. *)
Lemma client_path_stale :
  match Server_LoadRepos ex_dlopen ex_create ex_get_id [[114]] ex_exists ex_directory ModuleManager_new with
  | MRet_ _ s => mp_client <$> paths_ s !! [66] = Some (client_lib [114] [97])
  | _ => False
  end.
Proof. vm_compute. reflexivity. Qed.

(** After an upgrade the namespace still leads to the deleted instances. *)
Lemma upgrade_keeps_deleted dlopen create get construct path ns s ns' deleted s' :
  Server_CentralizedUpdateModule dlopen create get construct path ns s = MRet_ (ns', deleted) s' →
  private_state_ ns' = private_state_ ns ∧
  ∃ module_id, deleted = default [] (module_id_to_instance_ ns !! module_id) ∧
    ∃ ctor, module_id_to_instance_ ns' !! module_id = Some (construct ctor <$> seq 0 (length deleted)).
Proof.
  unfold Server_CentralizedUpdateModule, mbind, MM_bind. intros H.
  destruct (ModuleTable_OpenModule dlopen create get path s) as [[info uuid] s1| |]; [|done..].
  unfold Namespace_AllModuleInstances in H. set (q := default [] (module_id_to_instance_ ns !! uuid)) in *.
  pose proof (update_instances_spec (construct (constructor_ info)) 0 q [] []) as E. rewrite app_nil_r in E. simpl in E.
  cbv beta iota zeta in H. rewrite E in H.
  destruct (ModuleTable_SetModuleConstructor uuid info s1); [|done..]. simpl in H. injection H as <- <- _. simpl.
  split; [done|]. exists uuid. split; [done|]. exists (constructor_ info). by rewrite lookup_insert_eq.
Qed.
