(* ===== verification/IpcManager.v ===== *)
(** * IpcManager.v: memory and queue pairs of the userspace processes

    userspace/types/memory_manager.h, the IPC managers of the client
    (userspace/client/ipc_manager.h, src/userspace/client/ipc_manager.cpp) and
    of the server (userspace/server/ipc_manager.h,
    src/userspace/server/ipc_manager.cpp, per_process_ipc.h), and the
    assignment of queue pairs to workers (work_orchestrator.cpp, worker.h).

    The shared region of a client has the pool of requests in front and its
    queues behind.  The client lays the queues out and initialises them, the
    server attaches to them, registers them and gives them to its workers.
    Objects made with [new] are in a heap of the process: [heap] for the
    handles of queue pairs, [si_ipcs] for the IPC objects of the server.  The
    address [new] returns is a parameter. *)

From S2P Require Import Prelude Memory RingBuffer RequestQueue QueuePair WorkQueue Allocators AllocatorSpec QueuePool Socket.

Local Open Scope Z_scope.

(** ** MemoryManager *)

(** [None]: a pointer that was not set. *)
Record MemoryManager := {
  mm_private_alloc_ : option labstor_shmem_allocator;
  mm_shmem_alloc_ : option labstor_shmem_allocator;
  mm_qp_alloc_ : option labstor_segment_allocator
}.

Definition MemoryManager_unset : MemoryManager :=
  {| mm_private_alloc_ := None; mm_shmem_alloc_ := None; mm_qp_alloc_ := None |}.

(** Dereferencing a pointer. *)
Definition deref {A} (p : option A) : M A := match p with Some a => mret a | None => fault end.

Definition MemoryManager_SetPrivateAlloc (mm : MemoryManager) (a : labstor_shmem_allocator) : MemoryManager :=
  {| mm_private_alloc_ := Some a; mm_shmem_alloc_ := mm_shmem_alloc_ mm; mm_qp_alloc_ := mm_qp_alloc_ mm |}.

Definition MemoryManager_SetShmemAlloc (mm : MemoryManager) (a : labstor_shmem_allocator) : MemoryManager :=
  {| mm_private_alloc_ := mm_private_alloc_ mm; mm_shmem_alloc_ := Some a; mm_qp_alloc_ := mm_qp_alloc_ mm |}.

Definition MemoryManager_SetQueueAlloc (mm : MemoryManager) (a : labstor_segment_allocator) : MemoryManager :=
  {| mm_private_alloc_ := mm_private_alloc_ mm; mm_shmem_alloc_ := mm_shmem_alloc_ mm; mm_qp_alloc_ := Some a |}.

(** The allocator the flags of a queue select. *)
Definition alloc_of (mm : MemoryManager) (flags : Z) : M labstor_shmem_allocator :=
  if LABSTOR_QP_IS_SHMEM flags then deref (mm_shmem_alloc_ mm) else deref (mm_private_alloc_ mm).

Definition MemoryManager_GetRegion (mm : MemoryManager) (flags : Z) : M Z :=
  a ← alloc_of mm flags; mret (labstor_shmem_allocator_GetRegion a).

Definition MemoryManager_AllocShmemQueue (mm : MemoryManager) (size : Z) : M (MemoryManager * Z) :=
  a ← deref (mm_qp_alloc_ mm);
  let '(a, p) := labstor_segment_allocator_Alloc a (u32 size) in
  mret (MemoryManager_SetQueueAlloc mm a, p).

Definition MemoryManager_AllocPrivateQueue (mm : MemoryManager) (tid size : Z) : M Z :=
  a ← deref (mm_private_alloc_ mm); labstor_shmem_allocator_Alloc a (u32 size) (u32 tid).

Definition MemoryManager_AllocRequest (mm : MemoryManager) (tid flags size : Z) : M Z :=
  a ← alloc_of mm flags; labstor_shmem_allocator_Alloc a size (u32 tid).

Definition MemoryManager_FreeRequest (fuel : nat) (mm : MemoryManager) (flags rq : Z) : M unit :=
  a ← alloc_of mm flags; labstor_shmem_allocator_Free fuel a rq.

(** ** The memory of a process *)

(** The options of a process type in the configuration, [uint32_t] each. *)
Record MemoryOptions := {
  max_region_size_kb : Z;
  request_unit_bytes : Z;
  min_request_region_kb : Z;
  opt_queue_depth : Z;
  opt_num_queues : Z
}.

Record MemoryConfig := {
  region_size : Z;
  request_unit : Z;
  min_request_region : Z;
  queue_depth : Z;
  num_queues : Z;
  queue_region_size : Z;
  request_region_size : Z;
  request_queue_size : Z;
  request_map_size : Z
}.

Definition NOT_ENOUGH_REQUEST_MEMORY : Z := 508.

(** Products with [SizeType::KB] are 64 bits wide and are stored in 32. *)
Definition LoadMemoryConfig (o : MemoryOptions) : M MemoryConfig :=
  let region := u32 (max_region_size_kb o * 1024) in
  let min_request := u32 (min_request_region_kb o * 1024) in
  let queues := u32 (opt_num_queues o * labstor_queue_pair_GetSize_global Userspace (opt_queue_depth o)) in
  let requests := u32 (region - queues) in
  if queues >=? region then throw NOT_ENOUGH_REQUEST_MEMORY
  else if requests <? min_request then throw NOT_ENOUGH_REQUEST_MEMORY
  else mret {| region_size := region; request_unit := u32 (request_unit_bytes o * 1);
               min_request_region := min_request;
               queue_depth := opt_queue_depth o; num_queues := opt_num_queues o;
               queue_region_size := queues; request_region_size := requests;
               request_queue_size := labstor_request_queue_GetSize_global (opt_queue_depth o);
               request_map_size := labstor_request_map_GetSize_global (opt_queue_depth o) |}.

(** ** Objects *)

Definition INVALID_QP_QUERY : Z := 302.

(** A member function of the queue pool that may throw. *)
Definition of_query {A} (r : option A) : M A := match r with Some a => mret a | None => throw INVALID_QP_QUERY end.

(** [new shmem_queue_pair()] sets its members to zero. *)
Definition shmem_queue_pair_new : labstor_queue_pair :=
  {| qp_sq_ := {| lrq_base_region_ := 0; lrq_header_ := 0; lrq_queue_ := {| rb_header_ := 0; rb_queue_ := 0 |} |};
     qp_cq_ := {| rm_header_ := 0; rm_buckets_ := 0; rm_base_region_ := 0 |} |}.

(** [qp->GetQID()]. *)
Definition queue_pair_qid (h : labstor_queue_pair) : M labstor_qid_t := load_qid (labstor_queue_pair_GetQID h).

Section processes.
Context (new : gmap Z labstor_queue_pair → Z).

(** ** The client *)

Record ClientIPC := {
  ci_pid_ : Z;
  ci_pool : QueuePool;
  ci_mem : MemoryManager;
  ci_heap : gmap Z labstor_queue_pair
}.

(** The flags of the queues of a client. *)
Definition CLIENT_SHMEM_FLAGS : Z :=
  Z.lor LABSTOR_QP_SHMEM (Z.lor LABSTOR_QP_PRIMARY LABSTOR_QP_ORDERED).
Definition CLIENT_PRIVATE_FLAGS : Z :=
  Z.lor LABSTOR_QP_PRIVATE (Z.lor LABSTOR_QP_PRIMARY LABSTOR_QP_ORDERED).

(** [RegisterQueuePair] of the pool of the client. *)
Definition Client_RegisterQueuePair (c : ClientIPC) (p : Z) (h : labstor_queue_pair) : M ClientIPC :=
  qid ← queue_pair_qid h;
  pool ← of_query (QueuePool_RegisterQueuePair (ci_pool c) {| qpr_ptr := p; qpr_qid := qid |});
  mret {| ci_pid_ := ci_pid_ c; ci_pool := pool; ci_mem := ci_mem c; ci_heap := <[p := h]> (ci_heap c) |}.

(** One queue of [CreateQueuesSHMEM]. *)
Definition create_queue_shmem (c : ClientIPC) (i num_queues request_queue_size request_map_size : Z)
    : M (ClientIPC * labstor_queue_pair_ptr) :=
  qid ← queue_pair_GetQID 0 CLIENT_SHMEM_FLAGS (u32 i) (u32 num_queues) (ci_pid_ c);
  '(mm, sq_region) ← MemoryManager_AllocShmemQueue (ci_mem c) request_queue_size;
  '(mm, cq_region) ← MemoryManager_AllocShmemQueue mm request_map_size;
  region ← MemoryManager_GetRegion mm LABSTOR_QP_SHMEM;
  h ← labstor_queue_pair_Init Userspace shmem_queue_pair_new qid region 0
        sq_region request_queue_size cq_region request_map_size;
  c ← Client_RegisterQueuePair {| ci_pid_ := ci_pid_ c; ci_pool := ci_pool c; ci_mem := mm; ci_heap := ci_heap c |}
        (new (ci_heap c)) h;
  ptr ← labstor_queue_pair_GetPointer h region;
  mret (c, ptr).

(** The loop; [n] queues are left. *)
Fixpoint create_queues_shmem (n : nat) (c : ClientIPC) (i num_queues request_queue_size request_map_size : Z)
    : M (ClientIPC * list labstor_queue_pair_ptr) :=
  match n with
  | O => mret (c, [])
  | S n' =>
      '(c, ptr) ← create_queue_shmem c i num_queues request_queue_size request_map_size;
      '(c, ptrs) ← create_queues_shmem n' c (i + 1) num_queues request_queue_size request_map_size;
      mret (c, ptr :: ptrs)
  end.

(** [CreateQueuesSHMEM] up to the messages, which Socket.v models: the result
    has the array that is sent. *)
Definition CreateQueuesSHMEM (c : ClientIPC) (num_queues depth : Z) : M (ClientIPC * list labstor_queue_pair_ptr) :=
  _ ← of_query (QueuePool_ReserveQueues (ci_pool c) 0 LABSTOR_QP_SHMEM num_queues);
  create_queues_shmem (Z.to_nat num_queues) c 0 num_queues
    (labstor_request_queue_GetSize_global (u32 depth)) (labstor_request_map_GetSize_global (u32 depth)).

(** [CreatePrivateQueues]: [queue_size] is the number of bytes of both parts. *)
Fixpoint Client_create_private_queues (n : nat) (tid : Z) (c : ClientIPC) (i num_queues queue_size : Z) : M ClientIPC :=
  match n with
  | O => mret c
  | S n' =>
      qid ← queue_pair_GetQID 0 CLIENT_PRIVATE_FLAGS (u32 i) (u32 num_queues) (ci_pid_ c);
      sq_region ← MemoryManager_AllocPrivateQueue (ci_mem c) tid queue_size;
      cq_region ← MemoryManager_AllocPrivateQueue (ci_mem c) tid queue_size;
      region ← MemoryManager_GetRegion (ci_mem c) LABSTOR_QP_PRIVATE;
      h ← labstor_queue_pair_Init Userspace shmem_queue_pair_new qid region 0
            sq_region (u32 queue_size) cq_region (u32 queue_size);
      c ← Client_RegisterQueuePair c (new (ci_heap c)) h;
      Client_create_private_queues n' tid c (i + 1) num_queues queue_size
  end.

Definition Client_CreatePrivateQueues (tid : Z) (c : ClientIPC) (num_queues queue_size : Z) : M ClientIPC :=
  Client_create_private_queues (Z.to_nat num_queues) tid c 0 num_queues queue_size.

(** [GetQueuePair], [GetQueuePairByName] and [Wait]. *)
Definition Client_GetQueuePair (c : ClientIPC) (tid type flags : Z) : M Z :=
  n ← deref (QueuePool_GetNumQueuePairsFast (ci_pool c) type flags);
  qid ← queue_pair_GetQID type flags (u32 tid) (u32 n) (ci_pid_ c);
  q ← of_query (QueuePool_GetQueuePair (ci_pool c) type flags (qid_cnt_ qid));
  mret (qpr_ptr q).

Definition Client_GetQueuePairByName (c : ClientIPC) (flags : Z) (str : list Z) (ns_id : Z) : M Z :=
  n ← deref (QueuePool_GetNumQueuePairsFast (ci_pool c) 0 flags);
  qid ← queue_pair_GetQID_str 0 flags str ns_id (u32 n) (ci_pid_ c);
  q ← of_query (QueuePool_GetQueuePair (ci_pool c) 0 flags (qid_cnt_ qid));
  mret (qpr_ptr q).

Definition Client_Wait (fuel : nat) (c : ClientIPC) (qtok : labstor_qtok_t) : M Z :=
  q ← of_query (QueuePool_GetQueuePair_qtok (ci_pool c) qtok);
  h ← deref (ci_heap c !! qpr_ptr q);
  labstor_queue_pair_Wait fuel h (qtok_req_id_ qtok).

Definition Client_WaitFree (fuel : nat) (c : ClientIPC) (qtok : labstor_qtok_t) : M Z :=
  rq ← Client_Wait fuel c qtok;
  code ← load32 (rq + rq_code_);
  _ ← MemoryManager_FreeRequest fuel (ci_mem c) (qid_flags_ (qtok_qid_ qtok)) rq;
  mret (s32 code).

Fixpoint Client_WaitFree_all (fuel : nat) (c : ClientIPC) (qtoks : list labstor_qtok_t) : M Z :=
  match qtoks with
  | [] => mret 0
  | qtok :: qtoks' =>
      rq ← Client_Wait fuel c qtok;
      _ ← MemoryManager_FreeRequest fuel (ci_mem c) (qid_flags_ (qtok_qid_ qtok)) rq;
      Client_WaitFree_all fuel c qtoks'
  end.

(** ** The server *)

Record PerProcessIPC := {
  ipc_pool : QueuePool;
  ipc_mem : MemoryManager;
  ipc_pid_ : Z
}.

(** [si_workers]: [worker_pool_[pid_]], a null pointer for an id without a
    worker. *)
Record ServerIPC := {
  si_pid_ : Z;
  si_ipcs : gmap Z PerProcessIPC;
  si_pid_to_ipc_ : gmap Z Z;
  si_heap : gmap Z labstor_queue_pair;
  si_workers : list (option labstor_work_queue_secure)
}.

Definition with_ipcs (s : ServerIPC) (ipcs : gmap Z PerProcessIPC) : ServerIPC :=
  {| si_pid_ := si_pid_ s; si_ipcs := ipcs; si_pid_to_ipc_ := si_pid_to_ipc_ s; si_heap := si_heap s;
     si_workers := si_workers s |}.

Definition with_heap (s : ServerIPC) (heap : gmap Z labstor_queue_pair) : ServerIPC :=
  {| si_pid_ := si_pid_ s; si_ipcs := si_ipcs s; si_pid_to_ipc_ := si_pid_to_ipc_ s; si_heap := heap;
     si_workers := si_workers s |}.

(** [new PerProcessIPC], at an address that is not in use; [emplace] keeps the
    entry of a process id that has one. *)
Context (new_ipc : gmap Z PerProcessIPC → Z).

Definition RegisterIPC (s : ServerIPC) (pid : Z) : ServerIPC * Z :=
  let p := new_ipc (si_ipcs s) in
  ({| si_pid_ := si_pid_ s;
      si_ipcs := <[p := {| ipc_pool := QueuePool_new; ipc_mem := MemoryManager_unset; ipc_pid_ := pid |}]> (si_ipcs s);
      si_pid_to_ipc_ := match si_pid_to_ipc_ s !! u32 pid with
                        | Some _ => si_pid_to_ipc_ s
                        | None => <[u32 pid := p]> (si_pid_to_ipc_ s)
                        end;
      si_heap := si_heap s; si_workers := si_workers s |}, p).

(** [pid_to_ipc_[pid]->]: a missing entry is made with the null pointer, which
    is then dereferenced. *)
Definition ipc_of_pid (s : ServerIPC) (pid : Z) : M (Z * PerProcessIPC) :=
  p ← deref (si_pid_to_ipc_ s !! u32 pid);
  ipc ← deref (si_ipcs s !! p);
  mret (p, ipc).

Definition Server_RegisterQueuePair (s : ServerIPC) (p : Z) : M ServerIPC :=
  h ← deref (si_heap s !! p);
  qid ← queue_pair_qid h;
  '(a, ipc) ← ipc_of_pid s (qid_pid_ qid);
  pool ← of_query (QueuePool_RegisterQueuePair (ipc_pool ipc) {| qpr_ptr := p; qpr_qid := qid |});
  mret (with_ipcs s (<[a := {| ipc_pool := pool; ipc_mem := ipc_mem ipc; ipc_pid_ := ipc_pid_ ipc |}]> (si_ipcs s))).

Definition Server_UnregisterQueuePair (s : ServerIPC) (p : Z) : bool := false.

(** [GetQueuePair(qp, qid)]. *)
Definition Server_GetQueuePair (s : ServerIPC) (qid : labstor_qid_t) : M Z :=
  '(_, ipc) ← ipc_of_pid s (qid_pid_ qid);
  q ← of_query (QueuePool_GetQueuePair_qid (ipc_pool ipc) qid);
  mret (qpr_ptr q).

Definition Server_GetQueuePairByPidHash (s : ServerIPC) (flags pid hash : Z) : M Z :=
  '(_, ipc) ← ipc_of_pid s pid;
  n ← deref (QueuePool_GetNumQueuePairsFast (ipc_pool ipc) 0 flags);
  qid ← queue_pair_GetQID 0 flags (u32 hash) (u32 n) pid;
  q ← of_query (QueuePool_GetQueuePair_qid (ipc_pool ipc) qid);
  mret (qpr_ptr q).

Definition Server_GetQueuePairByPid (s : ServerIPC) (tid flags pid : Z) : M Z :=
  Server_GetQueuePairByPidHash s flags pid tid.

Definition Server_GetNextQueuePair (s : ServerIPC) (tid flags : Z) : M Z :=
  Server_GetQueuePairByPidHash s flags (si_pid_ s) (tid + 1).

Definition Server_AllocRequest (s : ServerIPC) (tid : Z) (qid : labstor_qid_t) (size : Z) : M Z :=
  '(_, ipc) ← ipc_of_pid s (LABSTOR_GET_QP_IPC_ID qid);
  MemoryManager_AllocRequest (ipc_mem ipc) tid (qid_flags_ qid) size.

Definition Server_FreeRequest (fuel : nat) (s : ServerIPC) (qid : labstor_qid_t) (rq : Z) : M unit :=
  '(_, ipc) ← ipc_of_pid s (LABSTOR_GET_QP_IPC_ID qid);
  MemoryManager_FreeRequest fuel (ipc_mem ipc) (qid_flags_ qid) rq.

(** ** Workers *)

Definition NOT_YET_IMPLEMENTED : Z := 1000.
Definition FAILED_TO_ASSIGN_QUEUE : Z := 509.

(** The member [creds_] of the IPC object at an address. *)
Context (creds_ : Z → Z).

Definition Worker_AssignQP (w : labstor_work_queue_secure) (qp creds : Z) : M unit :=
  ok ← labstor_work_queue_secure_Enqueue w qp creds;
  if ok : bool then mret tt else throw FAILED_TO_ASSIGN_QUEUE.

(** [GetRegion(qp, creds)] gives the credentials of the process that the queue
    names. *)
Definition Server_GetCreds (s : ServerIPC) (p : Z) : M Z :=
  h ← deref (si_heap s !! p);
  pid ← labstor_queue_pair_GetPID h;
  '(a, ipc) ← ipc_of_pid s pid;
  _ ← MemoryManager_GetRegion (ipc_mem ipc) LABSTOR_QP_SHMEM;
  mret (creds_ a).

Definition AssignQueuePair (s : ServerIPC) (p worker_id : Z) : M unit :=
  creds ← Server_GetCreds s p;
  if worker_id <? 0 then throw NOT_YET_IMPLEMENTED
  else
    worker_id ← umod worker_id (Z.of_nat (length (si_workers s)));
    w ← deref (mjoin (si_workers s !! Z.to_nat worker_id));
    Worker_AssignQP w p creds.

(** [Worker::Worker]; [region] is what malloc returned. *)
Definition Worker_new (region depth : Z) : M labstor_work_queue_secure :=
  '(w, _) ← labstor_work_queue_secure_Init Userspace {| wqs_header_ := 0; wqs_queue_ := 0 |}
              region (labstor_work_queue_secure_GetSize_global depth) depth;
  mret w.

(** ** Attaching to the queues of a client *)

(** One queue of [RegisterClientQP]. *)
Definition register_client_qp (s : ServerIPC) (client_ipc i count : Z) (ptr : labstor_queue_pair_ptr) : M ServerIPC :=
  ipc ← deref (si_ipcs s !! client_ipc);
  region ← MemoryManager_GetRegion (ipc_mem ipc) LABSTOR_QP_SHMEM;
  let h := labstor_queue_pair_Attach ptr region in
  let p := new (si_heap s) in
  let s := with_heap s (<[p := h]> (si_heap s)) in
  _ ← (if i =? 0 then
         qid ← queue_pair_qid h;
         _ ← of_query (QueuePool_ReserveQueues (ipc_pool ipc) 0 (qid_flags_ qid) count); mret tt
       else mret tt);
  s ← Server_RegisterQueuePair s p;
  _ ← AssignQueuePair s p i;
  mret s.

Fixpoint register_client_qps (s : ServerIPC) (client_ipc i count : Z) (ptrs : list labstor_queue_pair_ptr) : M ServerIPC :=
  match ptrs with
  | [] => mret s
  | ptr :: ptrs' =>
      s ← register_client_qp s client_ipc i count ptr;
      register_client_qps s client_ipc (i + 1) count ptrs'
  end.

(** [RegisterClientQP] between its messages: [ptrs] is what was received. *)
Definition RegisterClientQP (s : ServerIPC) (client_ipc region : Z) (ptrs : list labstor_queue_pair_ptr) : M ServerIPC :=
  alloc ← labstor_shmem_allocator_Attach region region;
  ipc ← deref (si_ipcs s !! client_ipc);
  let ipc := {| ipc_pool := ipc_pool ipc; ipc_mem := MemoryManager_SetShmemAlloc (ipc_mem ipc) alloc;
                ipc_pid_ := ipc_pid_ ipc |} in
  register_client_qps (with_ipcs s (<[client_ipc := ipc]> (si_ipcs s))) client_ipc 0 (Z.of_nat (length ptrs)) ptrs.
(** ** The queues of the server and of the kernel *)

(** [nprocs] is the number of processors; [fresh] the content of the array of
    per-core pools before it is initialised. *)
Context (nprocs : Z) (fresh : labstor_private_shmem_allocator).

(** The flags of the queues between modules, and of the queues to the kernel. *)
Definition SERVER_PRIVATE_FLAGS : Z := Z.lor LABSTOR_QP_PRIVATE LABSTOR_QP_INTERMEDIATE.
Definition KERNEL_FLAGS : Z := Z.lor LABSTOR_QP_SHMEM LABSTOR_QP_INTERMEDIATE.
Definition KERNEL_PID : Z := 0.

Definition set_mem (s : ServerIPC) (a : Z) (mm : MemoryManager) : M ServerIPC :=
  ipc ← deref (si_ipcs s !! a);
  mret (with_ipcs s (<[a := {| ipc_pool := ipc_pool ipc; ipc_mem := mm; ipc_pid_ := ipc_pid_ ipc |}]> (si_ipcs s))).

Definition get_mem (s : ServerIPC) (a : Z) : M MemoryManager :=
  ipc ← deref (si_ipcs s !! a); mret (ipc_mem ipc).

(** [client_ipc->AllocShmemQueue]. *)
Definition alloc_queue (s : ServerIPC) (a size : Z) : M (ServerIPC * Z) :=
  mm ← get_mem s a;
  '(mm, p) ← MemoryManager_AllocShmemQueue mm size;
  s ← set_mem s a mm;
  mret (s, p).

(** One queue of [CreatePrivateQueues]. *)
Definition create_private_queue (s : ServerIPC) (a region i : Z) (c : MemoryConfig) : M ServerIPC :=
  qid ← queue_pair_GetQID 0 SERVER_PRIVATE_FLAGS (u32 i) (num_queues c) (si_pid_ s);
  '(s, sq_region) ← alloc_queue s a (request_queue_size c);
  '(s, cq_region) ← alloc_queue s a (request_map_size c);
  h ← labstor_queue_pair_Init Userspace shmem_queue_pair_new qid region 0
        sq_region (request_queue_size c) cq_region (request_map_size c);
  let p := new (si_heap s) in
  s ← Server_RegisterQueuePair (with_heap s (<[p := h]> (si_heap s))) p;
  _ ← AssignQueuePair s p i;
  mret s.

Fixpoint create_private_queues (n : nat) (s : ServerIPC) (a region i : Z) (c : MemoryConfig) : M ServerIPC :=
  match n with
  | O => mret s
  | S n' => s ← create_private_queue s a region i c; create_private_queues n' s a region (i + 1) c
  end.

(** [private_mem] is what malloc returned for the region. *)
Definition Server_CreatePrivateQueues (s : ServerIPC) (o : MemoryOptions) (private_mem : Z) : M ServerIPC :=
  c ← LoadMemoryConfig o;
  let '(s, a) := RegisterIPC s (si_pid_ s) in
  alloc ← labstor_shmem_allocator_Init Userspace fresh nprocs private_mem private_mem (request_region_size c) (request_unit c) 0;
  mm ← get_mem s a;
  let mm := MemoryManager_SetPrivateAlloc (MemoryManager_SetShmemAlloc mm alloc) alloc in
  region ← MemoryManager_GetRegion mm LABSTOR_QP_SHMEM;
  let mm := MemoryManager_SetQueueAlloc mm
              (labstor_segment_allocator_Init (LABSTOR_REGION_ADD (request_region_size c) region) (queue_region_size c)) in
  s ← set_mem s a mm;
  ipc ← deref (si_ipcs s !! a);
  _ ← of_query (QueuePool_ReserveQueues (ipc_pool ipc) 0 SERVER_PRIVATE_FLAGS (num_queues c));
  create_private_queues (Z.to_nat (num_queues c)) s a (labstor_shmem_allocator_GetRegion alloc) 0 c.

(** [InitializeKernelIPCManager]; [region_id] is the answer of the kernel to the
    request for a region, [region] its mapping, or the null pointer. *)
Definition WORK_ORCHESTRATOR_WORK_QUEUE_ALLOC_FAILED : Z := 502.
Definition WORK_ORCHESTRATOR_WORK_QUEUE_MMAP_FAILED : Z := 503.

Definition InitializeKernelIPCManager (s : ServerIPC) (o : MemoryOptions) (region_id region : Z) : M ServerIPC :=
  c ← LoadMemoryConfig o;
  let '(s, a) := RegisterIPC s KERNEL_PID in
  if region_id <? 0 then throw WORK_ORCHESTRATOR_WORK_QUEUE_ALLOC_FAILED
  else if region =? 0 then throw WORK_ORCHESTRATOR_WORK_QUEUE_MMAP_FAILED
  else
    alloc ← labstor_shmem_allocator_Init Userspace fresh nprocs region region (request_region_size c) (request_unit c) 0;
    mm ← get_mem s a;
    let mm := MemoryManager_SetShmemAlloc mm alloc in
    region ← MemoryManager_GetRegion mm LABSTOR_QP_SHMEM;
    set_mem s a (MemoryManager_SetQueueAlloc mm
      (labstor_segment_allocator_Init (LABSTOR_REGION_ADD (request_region_size c) region) (queue_region_size c))).

(** [RegisterClient] up to its reply; [namespace] is what [GetSharedRegion]
    gives, and the code of the reply is not set. *)
Definition SHMEM_CREATE_FAILED : Z := 400.
Definition MMAP_FAILED : Z := 4.

Definition RegisterClient (s : ServerIPC) (o : MemoryOptions) (pid region_id region : Z) (namespace : Z * Z * Z) (code : Z)
    : M (ServerIPC * Z * setup_reply) :=
  c ← LoadMemoryConfig o;
  let '(s, a) := RegisterIPC s pid in
  if region_id <? 0 then throw SHMEM_CREATE_FAILED
  else if region =? 0 then throw MMAP_FAILED
  else
    let '(ns_id, ns_size, ns_entries) := namespace in
    mret (s, a, {| sr_code_ := code; sr_region_id_ := region_id; sr_region_size_ := region_size c;
                   sr_request_region_size_ := request_region_size c; sr_request_unit_ := request_unit c;
                   sr_queue_region_size_ := queue_region_size c; sr_queue_depth_ := queue_depth c;
                   sr_num_queues_ := num_queues c; sr_namespace_region_id_ := ns_id;
                   sr_namespace_region_size_ := ns_size; sr_namespace_max_entries_ := ns_entries |}).

(** The memory of a client, in [Connect] after the reply of the server;
    [region] is the mapping of the shared region, [internal] what malloc
    returned. *)
Definition Connect_memory (c : ClientIPC) (n_cpu : Z) (reply : setup_reply) (region internal : Z) : M ClientIPC :=
  shmem_alloc ← labstor_shmem_allocator_Init Userspace fresh nprocs region region
                  (sr_request_region_size_ reply) (sr_request_unit_ reply) n_cpu;
  let mm := MemoryManager_SetShmemAlloc (ci_mem c) shmem_alloc in
  let mm := MemoryManager_SetQueueAlloc mm
              (labstor_segment_allocator_Attach (LABSTOR_REGION_ADD (sr_request_region_size_ reply) region)
                 (sr_queue_region_size_ reply)) in
  private_alloc ← labstor_shmem_allocator_Init Userspace fresh nprocs internal internal
                    (sr_region_size_ reply) (sr_request_unit_ reply) n_cpu;
  mret {| ci_pid_ := ci_pid_ c; ci_pool := ci_pool c; ci_mem := MemoryManager_SetPrivateAlloc mm private_alloc;
          ci_heap := ci_heap c |}.

(** [struct labstor_queue_pair] in a region, as the C++ build lays it out: each
    of its three parts begins with a pointer that [Init] does not set. *)
Definition store_qp_userspace (p : Z) (qp : labstor_queue_pair) : M unit :=
  _ ← store64 (p + 8) (lrq_base_region_ (qp_sq_ qp));
  _ ← store64 (p + 16) (lrq_header_ (qp_sq_ qp));
  _ ← store64 (p + 32) (rb_header_ (lrq_queue_ (qp_sq_ qp)));
  _ ← store64 (p + 40) (rb_queue_ (lrq_queue_ (qp_sq_ qp)));
  _ ← store64 (p + 56) (rm_header_ (qp_cq_ qp));
  _ ← store64 (p + 64) (rm_buckets_ (qp_cq_ qp));
  store64 (p + 72) (rm_base_region_ (qp_cq_ qp)).

(** One queue of [CreateKernelQueues], with the request to the kernel. *)
Definition create_kernel_queue (s : ServerIPC) (a i : Z) (c : MemoryConfig) : M (ServerIPC * (Z * labstor_queue_pair_ptr)) :=
  '(s, remote_qp) ← alloc_queue s a (sizeof_labstor_queue_pair Userspace);
  qid ← queue_pair_GetQID 0 KERNEL_FLAGS (u32 i) (num_queues c) KERNEL_PID;
  '(s, sq_region) ← alloc_queue s a (request_queue_size c);
  '(s, cq_region) ← alloc_queue s a (request_map_size c);
  mm ← get_mem s a;
  region ← MemoryManager_GetRegion mm LABSTOR_QP_SHMEM;
  h ← labstor_queue_pair_Init Userspace shmem_queue_pair_new qid region 0
        sq_region (request_queue_size c) cq_region (request_map_size c);
  _ ← store_qp_userspace remote_qp h;
  ptr ← labstor_queue_pair_GetPointer h region;
  let p := new (si_heap s) in
  s ← Server_RegisterQueuePair (with_heap s (<[p := labstor_queue_pair_Attach ptr region]> (si_heap s))) p;
  mret (s, (p, ptr)).

Fixpoint create_kernel_queues (n : nat) (s : ServerIPC) (a i : Z) (c : MemoryConfig)
    : M (ServerIPC * list (Z * labstor_queue_pair_ptr)) :=
  match n with
  | O => mret (s, [])
  | S n' =>
      '(s, q) ← create_kernel_queue s a i c;
      '(s, qs) ← create_kernel_queues n' s a (i + 1) c;
      mret (s, q :: qs)
  end.

(** The result is the vector that is sent to the kernel. *)
Definition CreateKernelQueues (s : ServerIPC) (o : MemoryOptions) : M (ServerIPC * list (Z * labstor_queue_pair_ptr)) :=
  c ← LoadMemoryConfig o;
  '(a, ipc) ← ipc_of_pid s KERNEL_PID;
  _ ← of_query (QueuePool_ReserveQueues (ipc_pool ipc) 0 KERNEL_FLAGS (num_queues c));
  create_kernel_queues (Z.to_nat (num_queues c)) s a 0 c.

(** Creating the workers of the server: [regions] are the work queues malloc
    returned, [ids] the numbers in the configuration. *)
Definition WORK_ORCHESTRATOR_HAS_NO_WORKERS : Z := 504.

Fixpoint create_workers (workers : list (option labstor_work_queue_secure)) (queue_depth : Z) (ids : list (Z * Z))
    : M (list (option labstor_work_queue_secure)) :=
  match ids with
  | [] => mret workers
  | (worker_id, region) :: ids' =>
      w ← Worker_new region queue_depth;
      if (worker_id <? 0) || (Z.of_nat (length workers) <=? worker_id) then fault
      else create_workers (<[Z.to_nat worker_id := Some w]> workers) queue_depth ids'
  end.

Definition CreateWorkers (s : ServerIPC) (queue_depth : Z) (ids : list (Z * Z)) : M ServerIPC :=
  if decide (ids = []) then throw WORK_ORCHESTRATOR_HAS_NO_WORKERS
  else
    workers ← create_workers (replicate (length ids) None) queue_depth ids;
    mret {| si_pid_ := si_pid_ s; si_ipcs := si_ipcs s; si_pid_to_ipc_ := si_pid_to_ipc_ s; si_heap := si_heap s;
            si_workers := workers |}.
End processes.

(** ** The region of a process *)

(** The bytes of the queues of a process of depth [d]: the structure, the ring
    with its headers and the map. *)
Definition queue_bytes_needed (d : Z) : Z := 80 + (24 + 4 * d) + (4 + 4 * d).

Lemma queue_sizes d :
  0 <= d < 2 ^ 28 →
  labstor_request_queue_GetSize_global d = 24 + 4 * d ∧ labstor_request_map_GetSize_global d = 4 + 4 * d ∧
  labstor_queue_pair_GetSize_global Userspace d = queue_bytes_needed d.
Proof.
  intros Hd. unfold labstor_queue_pair_GetSize_global, labstor_request_queue_GetSize_global,
    labstor_request_map_GetSize_global, labstor_request_ring_buffer_GetSize_global, queue_bytes_needed.
  autounfold with layout. unfold sizeof_labstor_queue_pair.
  rewrite (u32_small (12 + 4 * d)), (u32_small (12 + (12 + 4 * d))), (u32_small (4 + 4 * d)) by lia.
  rewrite u32_small by lia. lia.
Qed.

Lemma sum_app l k : sum (l ++ k) = sum l + sum k.
Proof. induction l as [|x l IH]; simpl; [done|]. fold (sum (l ++ k)) (sum l). lia. Qed.

Lemma sum_repeat (n : nat) l : sum (concat (replicate n l)) = Z.of_nat n * sum l.
Proof. induction n as [|n IH]; [done|]. cbn [replicate concat]. rewrite sum_app, IH. lia. Qed.

Lemma sum_nonneg l : Forall (λ s, 0 <= s) l → 0 <= sum l.
Proof. induction 1; simpl; [lia|]. fold (sum l). lia. Qed.

Lemma segment_run_length sizes a : length (segment_run a sizes) = length sizes.
Proof. revert a. induction sizes as [|s sizes IH]; intros a; simpl; [done|]. by rewrite IH. Qed.

(** Segments of [sizes] that fit in a region follow each other in it. *)
Lemma segments_fit sizes start len :
  Forall (λ s, 0 <= s) sizes → sum sizes <= len → len < 2 ^ 32 →
  let segs := segment_run (labstor_segment_allocator_Init start len) sizes in
  ∀ i p s, segs !! i = Some p → sizes !! i = Some s →
    start <= p ∧ p + s <= start + len ∧ ∀ j q, (i < j)%nat → segs !! j = Some q → p + s <= q.
Proof.
  intros Hs Hsum Hlen segs i p s Hp Hsz.
  assert (∀ k q, segs !! k = Some q → q = start + sum (take k sizes)) as Hoff.
  { intros k q Hq. apply (segment_run_offsets sizes start 0 len k q) in Hq; [lia|done|lia|lia]. }
  assert (∀ k, (i < k)%nat → sum (take i sizes) + s <= sum (take k sizes)) as Hnext.
  { intros k Hk. rewrite <-(take_drop (S i) (take k sizes)), take_take, sum_app, Nat.min_l by lia.
    rewrite (take_S_r _ _ _ Hsz), sum_app. cbn [sum foldr].
    pose proof (sum_nonneg (drop (S i) (take k sizes)) ltac:(by apply Forall_drop, Forall_take)). lia. }
  rewrite (Hoff _ _ Hp). pose proof (sum_nonneg (take i sizes) ltac:(by apply Forall_take)).
  split; [lia|]. split.
  - specialize (Hnext (length sizes)). pose proof (lookup_lt_Some _ _ _ Hsz).
    rewrite (take_ge sizes (length sizes)) in Hnext by lia. specialize (Hnext ltac:(lia)). lia.
  - intros j q Hj Hq. rewrite (Hoff _ _ Hq). specialize (Hnext j Hj). lia.
Qed.

(** The sizes that the loops of [CreateKernelQueues] and of
    [CreatePrivateQueues] and [CreateQueuesSHMEM] ask for. *)
Definition kernel_queue_sizes (c : MemoryConfig) : list Z :=
  concat (replicate (Z.to_nat (num_queues c))
            [sizeof_labstor_queue_pair Userspace; request_queue_size c; request_map_size c]).
Definition process_queue_sizes (c : MemoryConfig) : list Z :=
  concat (replicate (Z.to_nat (num_queues c)) [request_queue_size c; request_map_size c]).

Definition options_ok (o : MemoryOptions) : Prop :=
  0 <= max_region_size_kb o ∧ 0 <= min_request_region_kb o ∧ 0 <= opt_num_queues o ∧ 0 <= opt_queue_depth o < 2 ^ 28 ∧
  max_region_size_kb o * 1024 < 2 ^ 32 ∧ min_request_region_kb o * 1024 < 2 ^ 32 ∧
  opt_num_queues o * queue_bytes_needed (opt_queue_depth o) < 2 ^ 32.

(** The queues fit, with the memory for requests the configuration asks for. *)
Definition options_fit (o : MemoryOptions) : Prop :=
  opt_num_queues o * queue_bytes_needed (opt_queue_depth o) < max_region_size_kb o * 1024 ∧
  min_request_region_kb o * 1024 + opt_num_queues o * queue_bytes_needed (opt_queue_depth o) <= max_region_size_kb o * 1024.

(** C30. [LoadMemoryConfig], for options within [options_ok] (a queue depth
    below 2^28, and the sizes of the region, of the least memory for requests
    and of all the queues, in bytes, below 2^32): it throws exactly when the
    queues and the least memory for requests do not fit in the region.
    Otherwise the memory for requests and the queue region make up the region
    without a gap, the first is at least what the options ask, the second is
    the size of all the queues, and the segments that the queue allocator hands
    out for the queues of a process or of the kernel, in a region mapped at any
    address, lie in the queue region, each ending before the next one begins.
    Without the bounds a configuration can be accepted that does not fit
    ([memory_config_overflow]). *)
Theorem memory_config_bounds o m :
  options_ok o →
  match LoadMemoryConfig o m with
  | Ret c m' =>
      m' = m ∧ options_fit o ∧ region_size c = max_region_size_kb o * 1024 ∧
      request_region_size c + queue_region_size c = region_size c ∧
      min_request_region_kb o * 1024 <= request_region_size c ∧
      queue_region_size c = opt_num_queues o * queue_bytes_needed (opt_queue_depth o) ∧
      ∀ region sizes, sizes = kernel_queue_sizes c ∨ sizes = process_queue_sizes c →
        let segs := segment_run (labstor_segment_allocator_Init
                      (LABSTOR_REGION_ADD (request_region_size c) region) (queue_region_size c)) sizes in
        length segs = length sizes ∧
        ∀ i p s, segs !! i = Some p → sizes !! i = Some s →
          region + request_region_size c <= p ∧ p + s <= region + request_region_size c + queue_region_size c ∧
          ∀ j q, (i < j)%nat → segs !! j = Some q → p + s <= q
  | Throw code m' => code = NOT_ENOUGH_REQUEST_MEMORY ∧ m' = m ∧ ¬ options_fit o
  | _ => False
  end.
Proof.
  intros (Hr & Hmin & Hn & Hd & Hr32 & Hmin32 & Hq32). pose proof (queue_sizes _ Hd) as (Erq & Erm & Eqp).
  unfold LoadMemoryConfig. rewrite Eqp, Erq, Erm. set (need := queue_bytes_needed (opt_queue_depth o)) in *.
  assert (0 < need) as Hneed by (unfold need, queue_bytes_needed; lia).
  rewrite (u32_small (max_region_size_kb o * 1024)), (u32_small (min_request_region_kb o * 1024)),
    (u32_small (opt_num_queues o * need)) by nia.
  unfold options_fit. fold need. rewrite Z.geb_leb.
  destruct (Z.leb_spec (max_region_size_kb o * 1024) (opt_num_queues o * need)) as [Hle|Hlt];
    [split; [done|]; split; [done|]; lia|].
  rewrite u32_small by nia.
  destruct (Z.ltb_spec (max_region_size_kb o * 1024 - opt_num_queues o * need) (min_request_region_kb o * 1024)) as [Hm|Hm];
    [split; [done|]; split; [done|]; lia|].
  simpl. split; [done|]. split; [lia|]. split; [done|]. split; [lia|]. split; [lia|]. split; [done|]. intros region sizes Hsizes. split; [apply segment_run_length|].
  intros i p s Hp Hs. unfold LABSTOR_REGION_ADD in Hp |- *.
  assert (Forall (λ s, 0 <= s) sizes ∧ sum sizes <= opt_num_queues o * need) as [Hpos Hsum].
  { destruct Hsizes as [->| ->]; (split; [apply Forall_concat, Forall_replicate; repeat constructor; unfold sizeof_labstor_queue_pair; simpl; lia|]);
      unfold kernel_queue_sizes, process_queue_sizes; rewrite sum_repeat; simpl; rewrite Z2Nat.id by done;
      unfold need, queue_bytes_needed; nia. }
  pose proof (segments_fit sizes _ _ Hpos Hsum Hq32 i p s Hp Hs) as (H1 & H2 & H3).
  split; [lia|]. split; [lia|]. exact H3.
Qed.

Lemma memory_config_bounds_witness :
  let o := {| max_region_size_kb := 4; request_unit_bytes := 256; min_request_region_kb := 2;
              opt_queue_depth := 32; opt_num_queues := 4 |} in
  match LoadMemoryConfig o ∅ with
  | Ret c m' =>
      m' = ∅ ∧ options_fit o ∧ region_size c = 4096 ∧
      request_region_size c + queue_region_size c = region_size c ∧ 2048 <= request_region_size c ∧
      queue_region_size c = 4 * queue_bytes_needed 32 ∧
      ∀ region sizes, sizes = kernel_queue_sizes c ∨ sizes = process_queue_sizes c →
        let segs := segment_run (labstor_segment_allocator_Init
                      (LABSTOR_REGION_ADD (request_region_size c) region) (queue_region_size c)) sizes in
        length segs = length sizes ∧
        ∀ i p s, segs !! i = Some p → sizes !! i = Some s →
          region + request_region_size c <= p ∧ p + s <= region + request_region_size c + queue_region_size c ∧
          ∀ j q, (i < j)%nat → segs !! j = Some q → p + s <= q
  | Throw code m' => code = NOT_ENOUGH_REQUEST_MEMORY ∧ m' = ∅ ∧ ¬ options_fit o
  | _ => False
  end.
Proof.
  intros o. apply (memory_config_bounds o ∅). unfold options_ok, queue_bytes_needed. simpl. lia.
Defined.

(** ** Queue pairs in the region *)

(** [Init] without a depth takes the depth that fills its two regions. *)
Lemma qp_init_fills qp0 qid base cap sq_region cq_region :
  0 < cap < 2 ^ 28 →
  labstor_queue_pair_Init Userspace qp0 qid base 0 sq_region (24 + 4 * cap) cq_region (4 + 4 * cap) =
  labstor_queue_pair_Init Userspace qp0 qid base cap sq_region (24 + 4 * cap) cq_region (4 + 4 * cap).
Proof.
  intros Hcap. unfold labstor_queue_pair_Init, labstor_request_queue_Init, labstor_request_map_Init,
    labstor_request_ring_buffer_Init, labstor_request_map_GetSize_global, labstor_request_ring_buffer_GetSize_global.
  autounfold with layout. rewrite (u32_small (24 + 4 * cap - 12)) by lia.
  rewrite (u32_small (12 + 4 * 0)), (u32_small (12 + 4 * cap)), (u32_small (24 + 4 * cap - 12 - 12)),
    (u32_small (4 + 4 * 0)), (u32_small (4 + 4 * cap)), (u32_small (4 + 4 * cap - 4)) by lia.
  rewrite (proj2 (Z.eqb_neq cap 0)) by lia. simpl.
  replace ((24 + 4 * cap - 12 - 12) / 4) with cap by (apply Z.div_unique_exact; lia).
  replace ((4 + 4 * cap - 4) / 4) with cap by (apply Z.div_unique_exact; lia).
  rewrite !(proj2 (Z.ltb_ge _ _)) by lia. done.
Qed.

(** The queue id at the head of the queue can be read. *)
Definition qid_ready (h : labstor_queue_pair) (qid : labstor_qid_t) (m : mem) : Prop :=
  valid m (lrq_header_ (qp_sq_ h)) 8 ∧ qid_at (lrq_header_ (qp_sq_ h)) m = qid.

Lemma qid_ready_rep h qid cap d rqs m : lrq_rep (qp_sq_ h) qid cap d rqs m → qid_ready h qid m.
Proof.
  intros Hr. split; [|by rewrite <-(lr_qid _ _ _ _ _ _ Hr); unfold lrqh_qid_; rewrite Z.add_0_r].
  apply (valid_sub _ _ _ _ _ (lr_valid _ _ _ _ _ _ Hr)); unfold sizeof_lrq_header; lia.
Qed.

Lemma queue_pair_qid_run h qid m : qid_ready h qid m → queue_pair_qid h m = Ret qid m.
Proof.
  intros [Hv Hq]. apply wp_exact. unfold queue_pair_qid, labstor_queue_pair_GetQID, labstor_request_queue_GetQID, lrqh_qid_.
  rewrite Z.add_0_r. by apply wp_load_qid.
Qed.

Lemma qid_ready_frame h qid P m m' :
  qid_ready h qid m → modifies P m m' → (∀ a, P a → ¬ span (lrq_header_ (qp_sq_ h)) 8 a) → qid_ready h qid m'.
Proof.
  intros [Hv Hq] Hm HP. split; [by eapply valid_modifies|]. rewrite <-Hq. eapply qid_at_modifies; [exact Hm|].
  intros a Ha Pa. by apply (HP a Pa).
Qed.

(** ** The queues a client makes *)

Section client_queues.
Context (new : gmap Z labstor_queue_pair → Z).
Hypothesis Hnew : ∀ h, Z.of_nat (size h) < 2 ^ 32 → h !! new h = None ∧ 0 < new h < 2 ^ 64.
(** The region at [base]: [start] bytes for requests, then the queues of depth
    [cap]; [objs] are requests. *)
Context (pid base start cap num : Z) (objs : gset Z).
Hypothesis Hcap : 0 < cap < 2 ^ 28.
Hypothesis Hbase : 0 <= base.
Hypothesis Hstart : 0 <= start.
Hypothesis Hend : start + num * (28 + 8 * cap) < 2 ^ 31.
Hypothesis Hend64 : base + start + num * (28 + 8 * cap) < 2 ^ 64.
Hypothesis Hnum : 0 < num <= 2 ^ 16.
Hypothesis Hpid : 0 <= pid < 2 ^ 32.
Hypothesis Hok : ids_ok cap 0 = true.
Hypothesis Hobjs : ∀ rq, rq ∈ objs → base <= rq ∧ rq + 16 <= base + start.
Hypothesis Hobjs_apart : ∀ p q, p ∈ objs → q ∈ objs → p ≠ q → outside p 16 q 16.

(** The [i]th queue: its id, where it is, its pointer. *)
Definition client_qid (i : Z) : labstor_qid_t :=
  {| qid_flags_ := CLIENT_SHMEM_FLAGS; qid_type_ := 0; qid_cnt_ := i; qid_pid_ := pid |}.
Definition queue_off (i : Z) : Z := start + i * (28 + 8 * cap).
Definition client_queue (i : Z) : labstor_queue_pair :=
  queue_pair_at base (base + queue_off i) (base + queue_off i + (24 + 4 * cap)).
Definition client_ptr (i : Z) : labstor_queue_pair_ptr :=
  {| qpp_sq_off_ := queue_off i; qpp_cq_off_ := queue_off i + (24 + 4 * cap); qpp_pid_ := pid |}.

(** The bytes of a queue, and of the queues from the [i]th on. *)
Definition queue_span (i : Z) : Z → Prop := span (base + queue_off i) (28 + 8 * cap).
Definition queues_from (i : Z) (a : Z) : Prop := base + queue_off i <= a < base + queue_off num.

(** An initialised, empty queue. *)
Definition queue_empty (i : Z) (m : mem) : Prop := qp_rel (client_queue i) (client_qid i) cap objs qp_spec_init m.

(** The state of the client after [k] queues. *)
Record client_rel (k : nat) (c : ClientIPC) (m : mem) : Prop := {
  cr_pid : ci_pid_ c = pid;
  cr_region : ∃ a, mm_shmem_alloc_ (ci_mem c) = Some a ∧ labstor_shmem_allocator_GetRegion a = base;
  cr_alloc : ∃ max, mm_qp_alloc_ (ci_mem c) =
    Some {| sa_offset_ := Z.of_nat k * (28 + 8 * cap); sa_max_size_ := max; sa_region_ := base + start |};
  cr_valid : ∀ rq, rq ∈ objs → valid m rq 4;
  cr_pool : ∃ refs, pool_list (ci_pool c) 0 CLIENT_SHMEM_FLAGS = Some refs ∧ length refs = k ∧
    ∀ i r, refs !! i = Some r → qpr_qid r = client_qid (Z.of_nat i) ∧
      ci_heap c !! qpr_ptr r = Some (client_queue (Z.of_nat i));
  cr_queues : ∀ i : nat, (i < k)%nat → queue_empty (Z.of_nat i) m
}.

Ltac layout_lia := unfold both, sq_bytes, cq_bytes, lrq_span, rm_span, span, outside, near in *;
  autounfold with layout in *; simpl in *; lia.

Lemma client_queue_layout i : 0 <= i < num → qp_layout (client_queue i) cap objs.
Proof.
  intros Hi. assert (0 <= i * (28 + 8 * cap)) by nia. assert ((i + 1) * (28 + 8 * cap) <= num * (28 + 8 * cap)) by nia.
  split; simpl; try done.
  - left. lia.
  - intros rq Hrq. pose proof (Hobjs rq Hrq). unfold near. lia.
  - intros rq Hrq. pose proof (Hobjs rq Hrq). unfold outside, queue_off. lia.
  - intros rq Hrq. pose proof (Hobjs rq Hrq). unfold outside, queue_off. lia.
  - intros p q Hp Hq Hne. destruct (Hobjs_apart p q Hp Hq Hne); unfold outside; lia.
Qed.

Lemma client_queue_bytes i a : both (sq_bytes (client_queue i) cap) (cq_bytes (client_queue i) cap) a → queue_span i a.
Proof. unfold queue_span. intros [Ha|Ha]; layout_lia. Qed.

(** A queue is not disturbed by changes to a later one. *)
Lemma queue_empty_frame i j P m m' :
  0 <= i < j → j < num → queue_empty i m → modifies P m m' → (∀ a, P a → queue_span j a) → queue_empty i m'.
Proof.
  intros Hij Hj Hq Hm HP. eapply qp_rel_frame; [exact Hq|exact Hm|]. intros a Pa. specialize (HP a Pa).
  unfold queue_span, span, queue_off in HP. assert ((i + 1) * (28 + 8 * cap) <= j * (28 + 8 * cap)) by nia.
  split; [|split].
  - intros Ha. pose proof (client_queue_bytes i a (or_introl Ha)) as Hb. unfold queue_span, span, queue_off in Hb. lia.
  - intros Ha. pose proof (client_queue_bytes i a (or_intror Ha)) as Hb. unfold queue_span, span, queue_off in Hb. lia.
  - intros rq Hrq. pose proof (Hobjs rq Hrq). nia.
Qed.
Lemma client_qid_run i m : 0 <= i < num → queue_pair_GetQID 0 CLIENT_SHMEM_FLAGS (u32 i) (u32 num) pid m = Ret (client_qid i) m.
Proof.
  intros Hi. apply wp_exact. unfold queue_pair_GetQID. rewrite (u32_small i), (u32_small num) by lia.
  apply wp_bind, wp_umod; [lia|]. rewrite Z.mod_small by lia. wp_go. unfold client_qid. rewrite (u32_small pid) by done.
  split; [|done]. f_equal. unfold u16. apply Z.mod_small. lia.
Qed.

(** The two allocations of the [k]th queue. *)
Lemma client_alloc k c m :
  client_rel k c m → 0 <= Z.of_nat k < num →
  ∃ mm max, MemoryManager_AllocShmemQueue (ci_mem c) (24 + 4 * cap) m = Ret (mm, base + queue_off (Z.of_nat k)) m ∧
    MemoryManager_AllocShmemQueue mm (4 + 4 * cap) m =
      Ret (MemoryManager_SetQueueAlloc (ci_mem c)
             {| sa_offset_ := Z.of_nat (S k) * (28 + 8 * cap); sa_max_size_ := max; sa_region_ := base + start |},
           base + queue_off (Z.of_nat k) + (24 + 4 * cap)) m.
Proof.
  intros Hc Hk. destruct (cr_alloc _ _ _ Hc) as [max Ha]. unfold MemoryManager_AllocShmemQueue. rewrite Ha.
  unfold queue_off, LABSTOR_REGION_ADD. assert ((Z.of_nat k + 1) * (28 + 8 * cap) <= num * (28 + 8 * cap)) by nia.
  eexists _, max. split.
  - unfold deref, mbind, M_bind, mret, M_ret. cbn. rewrite (u32_small (24 + 4 * cap)) by lia. f_equal. f_equal.
    unfold LABSTOR_REGION_ADD. lia.
  - unfold deref, mbind, M_bind, mret, M_ret. cbn. rewrite (u32_small (4 + 4 * cap)) by lia.
    unfold LABSTOR_REGION_ADD. rewrite !u32_small by nia. unfold MemoryManager_SetQueueAlloc. simpl. f_equal.
    f_equal; [|lia]. do 3 f_equal. lia.
Qed.

Lemma register_new p ref refs :
  qid_type_ (qpr_qid ref) = 0 → qid_flags_ (qpr_qid ref) = 0 → pool_list p 0 0 = Some refs →
  ∃ p', QueuePool_RegisterQueuePair p ref = Some p' ∧ pool_list p' 0 0 = Some (refs ++ [ref]).
Proof.
  intros Ht Hf Hp. pose proof (register_pool_list p ref 0 0) as Hr. unfold qid_ok, same_list in Hr. rewrite Ht, Hf in Hr.
  destruct (QueuePool_RegisterQueuePair p ref) as [p'|].
  - exists p'. split; [done|]. destruct Hr as [_ Hr]; [lia..|]. by rewrite Hr, Hp.
  - rewrite Hp in Hr. assert (Some refs = None) by (apply Hr; lia). done.
Qed.

Lemma create_queue_spec k c m :
  client_rel k c m → 0 <= Z.of_nat k < num → valid m (base + start) (num * (28 + 8 * cap)) →
  Z.of_nat (size (ci_heap c)) < 2 ^ 32 →
  wp (create_queue_shmem new c (Z.of_nat k) num (24 + 4 * cap) (4 + 4 * cap))
     (λ r m', client_rel (S k) r.1 m' ∧ r.2 = client_ptr (Z.of_nat k) ∧ size (ci_heap r.1) = S (size (ci_heap c)) ∧
        modifies (queue_span (Z.of_nat k)) m m') m.
Proof.
  intros Hc Hk Hv Hsize. pose proof Hc as []. unfold create_queue_shmem. rewrite cr_pid0.
  assert ((Z.of_nat k + 1) * (28 + 8 * cap) <= num * (28 + 8 * cap)) as Hfit by nia.
  eapply wp_bind_run; [by apply client_qid_run|].
  destruct (client_alloc k c m Hc Hk) as (mm & max & E1 & E2).
  eapply wp_bind_run; [exact E1|]. cbn beta iota. eapply wp_bind_run; [exact E2|]. cbn beta iota.
  destruct cr_region0 as (al & Hal & Hregion).
  eapply wp_bind_run.
  { unfold MemoryManager_GetRegion, alloc_of. simpl. rewrite Hal. unfold deref, mbind, M_bind, mret, M_ret. by rewrite Hregion. }
  rewrite qp_init_fills by done. apply wp_bind. eapply wp_mono.
  { apply (qp_init_rel Userspace shmem_queue_pair_new (client_qid (Z.of_nat k)) base cap (base + queue_off (Z.of_nat k))
      (24 + 4 * cap) (base + queue_off (Z.of_nat k) + (24 + 4 * cap)) (4 + 4 * cap) objs m).
    - apply (valid_sub _ _ _ _ _ Hv); unfold queue_off; lia.
    - lia.
    - apply (valid_sub _ _ _ _ _ Hv); unfold queue_off; lia.
    - lia.
    - lia.
    - unfold qid_in_range. simpl. change CLIENT_SHMEM_FLAGS with 0. lia.
    - by apply (client_queue_layout (Z.of_nat k)).
    - done.
    - done. }
  cbv zeta. intros h m1 (-> & Hrel & Hm). fold (client_queue (Z.of_nat k)) in *.
  pose proof (qid_ready_rep _ _ _ _ _ _ (qr_sq _ _ _ _ _ _ Hrel)) as Hq.
  destruct cr_pool0 as (refs & Hpool & Hlen & Hrefs).
  destruct (Hnew (ci_heap c) Hsize) as [Hfresh Hrange].
  set (ref := {| qpr_ptr := new (ci_heap c); qpr_qid := client_qid (Z.of_nat k) |}).
  destruct (register_new (ci_pool c) ref refs eq_refl eq_refl Hpool) as (pool' & Ereg & Hpool').
  eapply wp_bind_run.
  { unfold Client_RegisterQueuePair. rewrite (run_bind _ _ _ _ _ (queue_pair_qid_run _ _ _ Hq)). simpl. fold ref.
    rewrite Ereg. reflexivity. }
  eapply wp_bind_run.
  { unfold labstor_queue_pair_GetPointer. rewrite (run_bind _ _ _ _ _ (queue_pair_qid_run _ _ _ Hq)). reflexivity. }
  assert (modifies (queue_span (Z.of_nat k)) m m1) as Hm1 by (eapply modifies_weaken; [exact Hm|]; apply client_queue_bytes).
  apply wp_ret. cbn [fst snd]. split; [split; simpl; try done|split; [|split; [|done]]].
  - by exists al.
  - by exists max.
  - intros rq Hrq. by eapply valid_modifies, cr_valid0.
  - exists (refs ++ [ref]). split; [done|]. split; [rewrite length_app; simpl; lia|].
    intros i r [Hi|[Hge Hi]]%lookup_app_Some.
    + destruct (Hrefs i r Hi) as [Hrq Hh]. split; [done|]. rewrite lookup_insert_ne; [done|]. intros E. by rewrite <-E, Hfresh in Hh.
    + apply list_lookup_singleton_Some in Hi as [Hi <-]. simpl. replace i with k by lia. by rewrite lookup_insert_eq.
  - intros i Hi. destruct (decide (i = k)) as [->|Hne]; [done|].
    eapply (queue_empty_frame (Z.of_nat i) (Z.of_nat k)); [lia|lia|by apply cr_queues0; lia|exact Hm1|done].
  - unfold labstor_queue_pair_ptr_Init, client_ptr, labstor_request_queue_GetRegion, labstor_request_map_GetRegion. simpl.
    rewrite !near_sub by (unfold near, queue_off; lia). f_equal; lia.
  - cbn [ci_heap]. by rewrite map_size_insert_None.
Qed.

Lemma create_queues_spec n k c m :
  client_rel k c m → Z.of_nat k + Z.of_nat n = num → valid m (base + start) (num * (28 + 8 * cap)) →
  Z.of_nat (size (ci_heap c)) + Z.of_nat n < 2 ^ 32 →
  wp (create_queues_shmem new n c (Z.of_nat k) num (24 + 4 * cap) (4 + 4 * cap))
     (λ r m', client_rel (Z.to_nat num) r.1 m' ∧ r.2 = (λ i, client_ptr (Z.of_nat i)) <$> seq k n ∧
        modifies (queues_from (Z.of_nat k)) m m') m.
Proof.
  revert k c m. induction n as [|n IH]; intros k c m Hc Hk Hv Hsize; cbn [create_queues_shmem].
  { apply wp_ret. replace (Z.to_nat num) with k by lia. split; [done|]. split; [done|apply modifies_refl]. }
  apply wp_bind. eapply wp_mono; [apply create_queue_spec; [done|lia|done|lia]|].
  intros [c1 ptr] m1 (Hc1 & Hptr & Hs1 & Hm1). cbn [fst snd] in *. apply wp_bind. 
  replace (Z.of_nat k + 1) with (Z.of_nat (S k)) by lia.
  eapply wp_mono; [apply IH; [done|lia|by eapply valid_modifies|lia]|].
  intros [c2 ptrs] m2 (Hc2 & Hptrs & Hm2). cbn [fst snd] in *. apply wp_ret. split; [done|].
  split; [by rewrite Hptr, Hptrs|]. assert (Z.of_nat (S k) * (28 + 8 * cap) <= num * (28 + 8 * cap)) by nia.
  eapply modifies_trans; (eapply modifies_weaken; [eassumption|]);
    unfold queue_span, span, queues_from, queue_off; intros a Ha; lia.
Qed.
End client_queues.

(** ** The server attaches to the queues *)

(** The queue pairs [ps], from number [i] on, dealt to the workers in turn. *)
Fixpoint round_robin (entries : list (list (Z * Z))) (i : nat) (creds : Z) (ps : list Z) : list (list (Z * Z)) :=
  match ps with
  | [] => entries
  | p :: ps' => round_robin (alter (λ es, es ++ [(p, creds)]) (i mod length entries)%nat entries) (S i) creds ps'
  end.

Section server_queues.
Context (new : gmap Z labstor_queue_pair → Z) (creds_ : Z → Z).
Hypothesis Hnew : ∀ h, Z.of_nat (size h) < 2 ^ 32 → h !! new h = None ∧ 0 < new h < 2 ^ 64.
(** The client [pid], whose IPC object is at [a]; its region at [base]; the
    pointers it sent and the work queues with their depths. *)
Context (pid a base : Z) (ptrs : list labstor_queue_pair_ptr) (ws : list (labstor_work_queue_secure * Z)).
Hypothesis Hpid : 0 <= pid < 2 ^ 31.
Hypothesis Hcreds : 0 <= creds_ a < 2 ^ 64.

Definition work_bytes (w : labstor_work_queue_secure * Z) : Z → Prop :=
  span (wqs_header_ w.1) (sizeof_wq_header + sizeof_wq_secure_entry * w.2).

Definition work_rep (m : mem) (w : labstor_work_queue_secure * Z) (es : list (Z * Z)) : Prop :=
  vec_rep sizeof_wq_secure_entry rd_secure (wqs_header_ w.1) w.2 es m ∧
  wqs_queue_ w.1 = wqs_header_ w.1 + sizeof_wq_header.

Hypothesis Hws : ∀ i j w w' x, ws !! i = Some w → ws !! j = Some w' → i ≠ j → work_bytes w x → ¬ work_bytes w' x.
Hypothesis Hws_some : 0 < Z.of_nat (length ws) < 2 ^ 31.

Definition handle_of (ptr : labstor_queue_pair_ptr) : labstor_queue_pair := labstor_queue_pair_Attach ptr base.

(** The pointers lead to queues with the ids the client gave them, outside the
    work queues. *)
Definition attachable (m : mem) : Prop :=
  ∀ i ptr, ptrs !! i = Some ptr → qid_ready (handle_of ptr) (client_qid pid (Z.of_nat i)) m ∧
    ∀ w x, w ∈ ws → work_bytes w x → ¬ span (lrq_header_ (qp_sq_ (handle_of ptr))) 8 x.

(** The state of the server after [k] queues. *)
Record server_rel (k : nat) (s : ServerIPC) (regs : list queue_pair_ref) (entries : list (list (Z * Z))) (m : mem) : Prop := {
  sr_pid : si_pid_to_ipc_ s !! pid = Some a;
  sr_ipc : ∃ ipc al, si_ipcs s !! a = Some ipc ∧ mm_shmem_alloc_ (ipc_mem ipc) = Some al ∧
    labstor_shmem_allocator_GetRegion al = base ∧ pool_list (ipc_pool ipc) 0 0 = Some regs;
  sr_regs : length regs = k;
  sr_heap : ∀ i r ptr, regs !! i = Some r → ptrs !! i = Some ptr →
    qpr_qid r = client_qid pid (Z.of_nat i) ∧ si_heap s !! qpr_ptr r = Some (handle_of ptr);
  sr_workers : si_workers s = (λ w, Some w.1) <$> ws;
  sr_work : Forall2 (work_rep m) ws entries;
  sr_attach : attachable m
}.

(** Appending to one work queue. *)
Lemma work_push m m' i w es entries e :
  Forall2 (work_rep m) ws entries → ws !! i = Some w → entries !! i = Some es →
  work_rep m' w (es ++ [e]) → modifies (work_bytes w) m m' →
  Forall2 (work_rep m') ws (alter (λ es, es ++ [e]) i entries).
Proof.
  intros Hall Hw He Hnew' Hm. apply Forall2_same_length_lookup_2; [rewrite length_alter; by eapply Forall2_length|].
  intros j w' es' Hj He'. destruct (decide (j = i)) as [->|Hne].
  - rewrite list_lookup_alter_eq, He in He'. simpl in He'. injection He' as <-. by simplify_eq.
  - rewrite list_lookup_alter_ne in He' by done. destruct (Forall2_lookup_lr _ _ _ _ _ _ Hall Hj He') as [Hv Hq].
    split; [|done]. eapply (vec_frame sizeof_wq_secure_entry rd_secure); [done|exact Hv|exact Hm|].
    intros x Hx. by apply (Hws i j w w').
Qed.

Lemma ipc_of_pid_run s p ipc m :
  0 <= pid < 2 ^ 32 → si_pid_to_ipc_ s !! pid = Some p → si_ipcs s !! p = Some ipc → ipc_of_pid s pid m = Ret (p, ipc) m.
Proof. intros Hp H1 H2. unfold ipc_of_pid. rewrite u32_small by done. rewrite H1. unfold mbind, M_bind. simpl. by rewrite H2. Qed.

(** [AssignQueuePair] gives a registered queue to the worker whose turn it is. *)
Lemma assign_step k k' s regs entries m p h qid w es :
  server_rel k' s regs entries m → si_heap s !! p = Some h → qid_ready h qid m → qid_pid_ qid = pid → 0 <= p < 2 ^ 64 →
  ws !! (k mod length ws)%nat = Some w → entries !! (k mod length ws)%nat = Some es → Z.of_nat (length es) < w.2 →
  wp (AssignQueuePair creds_ s p (Z.of_nat k))
     (λ _ m', Forall2 (work_rep m') ws (alter (λ es, es ++ [(p, creds_ a)]) (k mod length ws)%nat entries) ∧
        modifies (work_bytes w) m m') m.
Proof.
  intros [] Hh Hq Hqp Hp Hw Hes Hroom. destruct sr_ipc0 as (ipc & al & Hipc & Hal & Hreg & _). unfold AssignQueuePair.
  eapply wp_bind_run.
  { apply wp_exact. unfold Server_GetCreds. rewrite Hh. cbn [deref]. apply wp_bind, wp_ret, wp_bind.
    unfold labstor_queue_pair_GetPID. eapply wp_bind_run; [exact (queue_pair_qid_run _ _ _ Hq)|]. apply wp_ret.
    unfold LABSTOR_GET_QP_IPC_ID. rewrite Hqp, s32_small by lia. eapply wp_bind_run; [apply (ipc_of_pid_run s a ipc); [lia|done|done]|].
    apply wp_bind. unfold MemoryManager_GetRegion, alloc_of. simpl. rewrite Hal. cbn [deref]. wp_go. done. }
  rewrite (proj2 (Z.ltb_ge _ _)) by lia. rewrite sr_workers0, length_fmap.
  apply wp_bind, wp_umod; [lia|]. rewrite <-Nat2Z.inj_mod, Nat2Z.id, list_lookup_fmap, Hw. simpl.
  unfold deref. apply wp_bind, wp_ret. unfold Worker_AssignQP. apply wp_bind.
  destruct (Forall2_lookup_lr _ _ _ _ _ _ sr_work0 Hw Hes) as [Hv Hwq].
  eapply wp_mono; [apply (wqs_enqueue_spec _ _ _ _ p (creds_ a) Hv Hwq Hp Hcreds)|]. simpl.
  intros ok m' H. rewrite decide_True in H by done. destruct H as (-> & Hv' & Hm). wp_go. split; [|done].
  eapply work_push; [exact sr_work0|done|exact Hes|by split|exact Hm].
Qed.
Lemma attachable_frame m m' w : attachable m → w ∈ ws → modifies (work_bytes w) m m' → attachable m'.
Proof.
  intros Ha Hw Hm i ptr Hi. destruct (Ha i ptr Hi) as [Hq Hout]. split; [|done].
  eapply qid_ready_frame; [exact Hq|exact Hm|]. intros x Hx. by apply (Hout w x).
Qed.

(** [n] more entries fit in each work queue. *)
Definition rooms (n : nat) (entries : list (list (Z * Z))) : Prop :=
  Forall2 (λ w es, Z.of_nat (length es) + Z.of_nat n <= w.2) ws entries.

Lemma rooms_push n i e entries : rooms (S n) entries → rooms n (alter (λ es, es ++ [e]) i entries).
Proof.
  intros Hr. apply Forall2_same_length_lookup_2; [rewrite length_alter; by eapply Forall2_length|].
  intros j w es Hj He. destruct (decide (j = i)) as [->|Hne].
  - rewrite list_lookup_alter_eq in He. apply fmap_Some in He as (es0 & He & ->).
    pose proof (Forall2_lookup_lr _ _ _ _ _ _ Hr Hj He). rewrite length_app. simpl in *. lia.
  - rewrite list_lookup_alter_ne in He by done. pose proof (Forall2_lookup_lr _ _ _ _ _ _ Hr Hj He). simpl in *. lia.
Qed.

Definition all_work_bytes (x : Z) : Prop := ∃ w, w ∈ ws ∧ work_bytes w x.

Lemma register_one k n s regs entries m ptr count :
  server_rel k s regs entries m → ptrs !! k = Some ptr → Z.of_nat (size (si_heap s)) < 2 ^ 32 → rooms (S n) entries →
  let p := new (si_heap s) in
  wp (register_client_qp new creds_ s a (Z.of_nat k) count ptr)
     (λ s' m', server_rel (S k) s' (regs ++ [{| qpr_ptr := p; qpr_qid := client_qid pid (Z.of_nat k) |}])
          (alter (λ es, es ++ [(p, creds_ a)]) (k mod length entries)%nat entries) m' ∧
        size (si_heap s') = S (size (si_heap s)) ∧ modifies all_work_bytes m m') m.
Proof.
  intros Hs Hptr Hsize Hroom p. pose proof Hs as []. destruct sr_ipc0 as (ipc & al & Hipc & Hal & Hreg & Hpool).
  destruct (Hnew _ Hsize) as [Hfresh Hrange]. fold p in Hfresh, Hrange. destruct (sr_attach0 k ptr Hptr) as [Hq _].
  unfold register_client_qp. rewrite Hipc. cbn [deref]. apply wp_bind, wp_ret, wp_bind.
  unfold MemoryManager_GetRegion, alloc_of. simpl. rewrite Hal. cbn [deref]. apply wp_bind, wp_ret, wp_ret. rewrite Hreg.
  fold (handle_of ptr) p. set (s1 := with_heap s (<[p := handle_of ptr]> (si_heap s))). apply wp_bind.
  assert (∃ qt qf, checked_at (qps_ (ipc_pool ipc)) 0 = Some qt ∧ checked_at qt 0 = Some qf) as (qt & qf & Et & Ef).
  { unfold pool_list in Hpool. apply bind_Some in Hpool as (qt & ? & ?). by exists qt, regs. }
  apply (wp_mono _ (λ _ m', m' = m)).
  { destruct (Z.of_nat k =? 0); [|by apply wp_ret]. eapply wp_bind_run; [by apply queue_pair_qid_run|].
    unfold QueuePool_ReserveQueues. simpl. change (CLIENT_SHMEM_FLAGS) with 0. rewrite Et. simpl. rewrite Ef. simpl. wp_go. done. }
  intros _ m0 ->. set (ref := {| qpr_ptr := p; qpr_qid := client_qid pid (Z.of_nat k) |}).
  destruct (register_new (ipc_pool ipc) ref regs eq_refl eq_refl Hpool) as (pool' & Ereg & Hpool').
  eapply wp_bind_run.
  { apply wp_exact. unfold Server_RegisterQueuePair. subst s1. simpl. rewrite lookup_insert_eq. cbn [deref].
    apply wp_bind, wp_ret. eapply wp_bind_run; [by apply queue_pair_qid_run|]. simpl.
    eapply wp_bind_run; [apply (ipc_of_pid_run _ a ipc); [lia|done|done]|]. cbn beta iota. fold ref. rewrite Ereg. cbn [of_query].
    apply wp_bind, wp_ret, wp_ret. split; reflexivity. }
  match goal with |- wp (_ ← AssignQueuePair _ ?st _ _; _) _ _ => set (s2 := st) end.
  pose proof (Forall2_length _ _ _ sr_work0) as Hlen.
  assert (server_rel (S k) s2 (regs ++ [ref]) entries m) as Hs2.
  { split; simpl; try done.
    - eexists _, al. rewrite lookup_insert_eq. split; [done|]. split; [done|]. split; [done|]. exact Hpool'.
    - rewrite length_app. simpl. lia.
    - intros i r pt [Hi|[Hge Hi]]%lookup_app_Some Hpt.
      + destruct (sr_heap0 i r pt Hi Hpt) as [Hrq Hh]. split; [done|]. rewrite lookup_insert_ne; [done|].
        intros E. by rewrite <-E, Hfresh in Hh.
      + apply list_lookup_singleton_Some in Hi as [Hi <-]. assert (i = k) as -> by lia. simplify_eq. by rewrite lookup_insert_eq. }
  assert (k mod length ws < length ws)%nat as Hlt by (apply Nat.mod_upper_bound; lia).
  destruct (lookup_lt_is_Some_2 ws _ Hlt) as [w Hw]. destruct (lookup_lt_is_Some_2 entries (k mod length ws)%nat ltac:(lia)) as [es Hes].
  pose proof (Forall2_lookup_lr _ _ _ _ _ _ Hroom Hw Hes) as Hr. simpl in Hr. rewrite <-Hlen.
  apply wp_bind. eapply wp_mono.
  { apply (assign_step k (S k) s2 (regs ++ [ref]) entries m p (handle_of ptr) (client_qid pid (Z.of_nat k)) w es Hs2); try done; [|lia|lia].
    simpl. by rewrite lookup_insert_eq. }
  intros _ m1 (Hwork & Hm). apply wp_ret. split; [|split; [subst s2; simpl; by rewrite map_size_insert_None|]].
  2: { eapply modifies_weaken; [exact Hm|]. intros x Hx. exists w. split; [by eapply list_elem_of_lookup_2|done]. }
  destruct Hs2. split; try done. eapply attachable_frame; [done| |exact Hm]. by eapply list_elem_of_lookup_2.
Qed.
Lemma register_rest rest k s regs entries m count :
  server_rel k s regs entries m → drop k ptrs = rest → Z.of_nat (size (si_heap s)) + Z.of_nat (length rest) < 2 ^ 32 →
  rooms (length rest) entries →
  wp (register_client_qps new creds_ s a (Z.of_nat k) count rest)
     (λ s' m', modifies all_work_bytes m m' ∧ ∃ refs, length refs = length rest ∧
        server_rel (k + length rest) s' (regs ++ refs) (round_robin entries k (creds_ a) (qpr_ptr <$> refs)) m') m.
Proof.
  revert k s regs entries m. induction rest as [|ptr rest IH]; intros k s regs entries m Hs Hrest Hsize Hroom;
    cbn [register_client_qps].
  { apply wp_ret. split; [apply modifies_refl|]. exists []. split; [done|]. simpl. by rewrite Nat.add_0_r, app_nil_r. }
  assert (ptrs !! k = Some ptr) as Hk by (by rewrite <-(Nat.add_0_r k), <-lookup_drop, Hrest).
  apply wp_bind. eapply wp_mono; [by apply (register_one k (length rest)); [..|simpl in Hsize; lia|]|].
  intros s1 m1 (Hs1 & Hsize1 & Hm1). replace (Z.of_nat k + 1) with (Z.of_nat (S k)) by lia.
  eapply wp_mono.
  { eapply (IH (S k)); [exact Hs1| |simpl in Hsize; lia|by apply rooms_push].
    by rewrite <-Nat.add_1_r, <-drop_drop, Hrest. }
  intros s2 m2 (Hm2 & refs & Hlen & Hs2). split; [by eapply modifies_trans|]. exists ({| qpr_ptr := new (si_heap s); qpr_qid := client_qid pid (Z.of_nat k) |} :: refs).
  split; [simpl; by rewrite Hlen|]. rewrite <-app_assoc in Hs2. simpl in *. by rewrite Nat.add_succ_r.
Qed.
End server_queues.

(** ** A queue seen through another mapping *)

Lemma valid_agree m m' p n : (∀ x, p <= x < p + n → m' !! x = m !! x) → valid m p n → valid m' p n.
Proof. intros H Hv x Hx. rewrite H by done. by apply Hv. Qed.

Lemma lrq_rep_agree lrq qid cap d rqs m m' :
  lrq_rep lrq qid cap d rqs m → (∀ x, lrq_span lrq cap x → m' !! x = m !! x) → lrq_rep lrq qid cap d rqs m'.
Proof.
  intros [Hh Hv Hq [] Hn] H. unfold lrq_span, span in H. autounfold with layout in *. rewrite Hh in *. simpl in *.
  split; autounfold with layout; rewrite ?Hh; try done.
  - eapply valid_agree; [|exact Hv]. intros x Hx. apply H. lia.
  - rewrite <-Hq. unfold qid_at. f_equal; apply read_ext; intros x Hx; apply H; lia.
  - split; simpl; autounfold with layout; try done.
    + eapply valid_agree; [|exact rr_valid]. intros x Hx. apply H. lia.
    + etransitivity; [|exact rr_deq]. apply read_ext. intros x Hx. apply H. lia.
    + etransitivity; [|exact rr_enq]. apply read_ext. intros x Hx. apply H. lia.
    + etransitivity; [|exact rr_max]. apply read_ext. intros x Hx. apply H. lia.
    + intros i x Hi. rewrite <-(rr_slots i x Hi). f_equal. apply read_ext. unfold slot. simpl. autounfold with layout.
      pose proof (Z.mod_pos_bound (u32 (d + Z.of_nat i)) cap ltac:(lia)). intros y Hy. apply H. lia.
Qed.

Lemma rm_rep_agree map n S m m' :
  rm_rep map n S m → (∀ x, rm_span map n x → m' !! x = m !! x) → rm_rep map n S m'.
Proof.
  intros [] H. unfold rm_span, span in H. unfold bucket in *. autounfold with layout in *.
  split; unfold bucket; autounfold with layout; try done.
  - eapply valid_agree; [|exact rm_valid]. intros x Hx. apply H. lia.
  - etransitivity; [|exact rm_num]. apply read_ext. intros x Hx. apply H. lia.
  - intros b Hb. rewrite <-(rm_slots b Hb). f_equal. apply read_ext. rewrite rm_handle. intros x Hx. apply H. lia.
Qed.

(** ** A client connects *)

(** The region of a client at [base]: [start] bytes for requests, of which
    [objs] are some, and [num] queues of depth [cap]. *)
Record region_ok (pid base start cap num : Z) (objs : gset Z) : Prop := {
  rg_cap : 0 < cap < 2 ^ 28;
  rg_base : 0 <= base;
  rg_start : 0 <= start;
  rg_end : start + num * (28 + 8 * cap) < 2 ^ 31;
  rg_end64 : base + start + num * (28 + 8 * cap) < 2 ^ 64;
  rg_num : 0 < num <= 2 ^ 16;
  rg_pid : 0 <= pid < 2 ^ 31;
  rg_ids : ids_ok cap 0 = true;
  rg_objs : ∀ rq, rq ∈ objs → base <= rq ∧ rq + 16 <= base + start;
  rg_apart : ∀ p q, p ∈ objs → q ∈ objs → p ≠ q → outside p 16 q 16
}.

(** [new] returns addresses that are not in use. *)
Definition new_ok (new : gmap Z labstor_queue_pair → Z) : Prop :=
  ∀ h, Z.of_nat (size h) < 2 ^ 32 → h !! new h = None ∧ 0 < new h < 2 ^ 64.

(** The server before the client [pid] is registered: no IPC object of that
    process, and work queues, outside the bytes [shared], with room. *)
Record server_ready (pid num : Z) (shared : Z → Prop) (ws : list (labstor_work_queue_secure * Z))
    (entries : list (list (Z * Z))) (s : ServerIPC) (m : mem) : Prop := {
  rdy_pid : si_pid_to_ipc_ s !! pid = None;
  rdy_heap : Z.of_nat (size (si_heap s)) + num < 2 ^ 32;
  rdy_workers : si_workers s = (λ w, Some w.1) <$> ws;
  rdy_some : 0 < Z.of_nat (length ws) < 2 ^ 31;
  rdy_work : Forall2 (work_rep m) ws entries;
  rdy_rooms : rooms ws (Z.to_nat num) entries;
  rdy_apart : ∀ i j w w' x, ws !! i = Some w → ws !! j = Some w' → i ≠ j → work_bytes w x → ¬ work_bytes w' x;
  rdy_shared : ∀ w x, w ∈ ws → work_bytes w x → ¬ shared x
}.

Section connect.
Context (new new' : gmap Z labstor_queue_pair → Z) (new_ipc : gmap Z PerProcessIPC → Z) (creds_ : Z → Z).
Context (pid base start cap num delta : Z) (objs : gset Z).
Hypothesis Hnew : new_ok new.
Hypothesis Hnew' : new_ok new'.
Hypothesis Hr : region_ok pid base start cap num objs.

(** The bytes of the queues. *)
Definition queues_bytes (x : Z) : Prop := base + start <= x < base + start + num * (28 + 8 * cap).

Lemma create_shmem_spec c m :
  client_rel pid base start cap objs 0 c m → valid m (base + start) (num * (28 + 8 * cap)) →
  Z.of_nat (size (ci_heap c)) + num < 2 ^ 32 →
  wp (CreateQueuesSHMEM new c num cap)
     (λ r m', client_rel pid base start cap objs (Z.to_nat num) r.1 m' ∧
        r.2 = (λ i, client_ptr pid start cap (Z.of_nat i)) <$> seq 0 (Z.to_nat num) ∧ modifies queues_bytes m m') m.
Proof.
  destruct Hr. intros Hc Hv Hsize. unfold CreateQueuesSHMEM. rewrite u32_small by lia.
  destruct (queue_sizes cap ltac:(lia)) as (-> & -> & _). pose proof (cr_pool _ _ _ _ _ _ _ _ Hc) as (refs & Hpool & _).
  apply wp_bind. apply (wp_mono _ (λ _ m', m' = m)).
  { unfold QueuePool_ReserveQueues, pool_list in *. apply bind_Some in Hpool as (qt & Et & Ef).
    change LABSTOR_QP_SHMEM with CLIENT_SHMEM_FLAGS. rewrite Et. simpl. rewrite Ef. by apply wp_ret. }
  intros _ m' ->. eapply wp_mono.
  { apply (create_queues_spec new Hnew pid base start cap num objs rg_cap0 rg_base0 rg_start0 rg_end0 rg_end65 rg_num0
      ltac:(lia) rg_ids0 rg_objs0 rg_apart0 (Z.to_nat num) 0 c m Hc); [lia|done|lia]. }
  intros r m1 (H1 & H2 & Hm). split; [done|]. split; [done|]. eapply modifies_weaken; [exact Hm|].
  unfold queues_from, queue_off, queues_bytes. lia.
Qed.

(** An empty queue of the client, in a memory that has the same bytes [delta]
    further. *)
Lemma queue_elsewhere i m ms :
  0 <= i < num → queue_empty pid base start cap objs i m → (∀ x, queues_bytes x → ms !! (x + delta) = m !! x) →
  lrq_rep (qp_sq_ (handle_of (base + delta) (client_ptr pid start cap i))) (client_qid pid i) cap 0 [] ms ∧
  rm_rep (qp_cq_ (handle_of (base + delta) (client_ptr pid start cap i))) cap ∅ ms.
Proof.
  destruct Hr. intros Hi [] Hx. unfold queues_bytes in Hx. assert ((i + 1) * (28 + 8 * cap) <= num * (28 + 8 * cap)) by nia.
  assert (0 <= i * (28 + 8 * cap)) by nia. destruct qr_cq as (S & HS & HB). simpl in qr_sq.
  assert (S = ∅) as ->. { apply map_empty. intros b. destruct (S !! b) eqn:E; [|done]. destruct HB as [_ HB].
    destruct (HB _ _ E) as (? & ? & ?). set_solver. }
  apply (lrq_rep_remap delta) in qr_sq; [|done]. apply (rm_rep_remap delta) in HS; [|intros ??; by rewrite lookup_empty].
  rewrite fmap_empty in HS. change (u32 (0 - 0)) with 0 in qr_sq.
  assert (handle_of (base + delta) (client_ptr pid start cap i) =
    {| qp_sq_ := labstor_request_queue_Attach (base + delta) (base + queue_off start cap i + delta);
       qp_cq_ := labstor_request_map_Attach (base + delta) (base + queue_off start cap i + (24 + 4 * cap) + delta) |}) as ->.
  { unfold handle_of, labstor_queue_pair_Attach, client_ptr, LABSTOR_REGION_ADD. simpl. f_equal; f_equal; lia. }
  assert (∀ x, queues_bytes (x - delta) → ms !! x = remap delta m !! x) as Hag.
  { intros x Hq. replace x with (delta + (x - delta)) at 2 by lia. rewrite lookup_remap, <-Hx by done. f_equal. lia. }
  split.
  - eapply lrq_rep_agree; [exact qr_sq|]. intros x Hxs. apply Hag. unfold lrq_span, span, queues_bytes, queue_off in *.
    autounfold with layout in Hxs. simpl in Hxs. unfold queue_off in Hxs. lia.
  - eapply rm_rep_agree; [exact HS|]. intros x Hxs. apply Hag. unfold rm_span, span, queues_bytes, queue_off in *.
    autounfold with layout in Hxs. simpl in Hxs. unfold queue_off in Hxs. lia.
Qed.
(** The memory of the server: the region of the client, mapped [delta] bytes
    further, with the header of the request allocator at its front. *)
Record server_maps (m ms : mem) : Prop := {
  sm_queues : ∀ x, queues_bytes x → ms !! (x + delta) = m !! x;
  sm_header : valid ms (base + delta) 8;
  sm_cores : read 4 (base + delta + smh_concurrency_) ms ≠ 0
}.

Lemma attach_alloc_run m ms :
  server_maps m ms → ∃ al, labstor_shmem_allocator_Attach (base + delta) (base + delta) ms = Ret al ms ∧
    labstor_shmem_allocator_GetRegion al = base + delta.
Proof.
  intros [_ Hv Hc]. eexists. split; [|shelve]. apply wp_exact. unfold labstor_shmem_allocator_Attach.
  autounfold with layout in *. wp_go. pose proof (read32_range (base + delta + 4) ms).
  apply wp_udiv; [mod_lia|]. apply wp_ret. split; reflexivity.
  Unshelve. done.
Qed.

(** The client's queues as the server has registered them. *)
Definition registered (s : ServerIPC) (ms : mem) (ps : list Z) : Prop :=
  length ps = Z.to_nat num ∧
  ∀ i p, ps !! i = Some p →
    let qid := client_qid pid (Z.of_nat i) in
    Server_GetQueuePair s qid ms = Ret p ms ∧
    ∃ h, si_heap s !! p = Some h ∧ lrq_rep (qp_sq_ h) qid cap 0 [] ms ∧ rm_rep (qp_cq_ h) cap ∅ ms.

Lemma register_spec m ms s ws entries :
  let '(s1, a) := RegisterIPC new_ipc s pid in
  (∀ i : nat, (i < Z.to_nat num)%nat → queue_empty pid base start cap objs (Z.of_nat i) m) →
  server_maps m ms → 0 <= creds_ a < 2 ^ 64 →
  server_ready pid num (λ x, queues_bytes (x - delta)) ws entries s ms →
  wp (RegisterClientQP new' creds_ s1 a (base + delta) ((λ i, client_ptr pid start cap (Z.of_nat i)) <$> seq 0 (Z.to_nat num)))
     (λ s' ms', ∃ ps, registered s' ms' ps ∧ Forall2 (work_rep ms') ws (round_robin entries 0 (creds_ a) ps)) ms.
Proof.
  simpl. set (a := new_ipc (si_ipcs s)). intros Hq Hmaps Hcreds Hs. pose proof Hr as []. pose proof Hs as [].
  set (ptrs := (λ i, client_ptr pid start cap (Z.of_nat i)) <$> seq 0 (Z.to_nat num)).
  assert (∀ i ptr, ptrs !! i = Some ptr → ptr = client_ptr pid start cap (Z.of_nat i) ∧ (i < Z.to_nat num)%nat) as Hptrs.
  { intros i ptr Hi. subst ptrs. rewrite list_lookup_fmap in Hi. apply fmap_Some in Hi as (j & [-> Hj]%lookup_seq & ->). done. }
  assert (length ptrs = Z.to_nat num) as Hplen by (subst ptrs; by rewrite length_fmap, length_seq).
  destruct (attach_alloc_run m ms Hmaps) as (al & Eal & Hal). unfold RegisterClientQP.
  eapply wp_bind_run; [exact Eal|]. cbn [si_ipcs]. rewrite lookup_insert_eq. cbn [deref]. apply wp_bind, wp_ret.
  match goal with |- wp (register_client_qps _ _ ?st _ _ _ _) _ _ => set (s2 := st) end.
  assert (attachable pid (base + delta) ptrs ws ms) as Hatt.
  { intros i ptr Hi. destruct (Hptrs i ptr Hi) as [-> Hlt].
    destruct (queue_elsewhere (Z.of_nat i) m ms ltac:(lia) (Hq i Hlt) (sm_queues _ _ Hmaps)) as [Hsq _].
    split; [by eapply qid_ready_rep|]. intros w x Hw Hx. pose proof (rdy_shared0 w x Hw Hx) as Hn.
    unfold queues_bytes, span, handle_of, labstor_queue_pair_Attach, client_ptr, LABSTOR_REGION_ADD, queue_off in *. simpl.
    assert ((Z.of_nat i + 1) * (28 + 8 * cap) <= num * (28 + 8 * cap)) by nia. nia. }
  assert (server_rel pid a (base + delta) ptrs ws 0 s2 [] entries ms) as Hrel.
  { split; simpl; try done.
    - rewrite u32_small by lia. rewrite rdy_pid0. by rewrite lookup_insert_eq.
    - eexists _, al. rewrite lookup_insert_eq. split; [done|]. split; [done|]. done. }
  eapply wp_mono.
  { apply (register_rest new' creds_ Hnew' pid a (base + delta) ptrs ws ltac:(lia) Hcreds rdy_apart0 rdy_some0 ptrs 0 s2 [] entries ms
      (Z.of_nat (length ptrs)) Hrel); [done|subst s2; simpl; lia|by rewrite Hplen]. }
  intros s' ms' (Hm & refs & Hlen & Hs'). destruct Hs'. exists (qpr_ptr <$> refs). split; [|done].
  unfold registered. rewrite length_fmap. split; [lia|]. intros i p Hp. rewrite list_lookup_fmap in Hp. apply fmap_Some in Hp as (r & Hri & ->).
  destruct (lookup_lt_is_Some_2 ptrs i) as [ptr Hptr]; [apply lookup_lt_Some in Hri; lia|].
  destruct (sr_heap0 i r ptr Hri Hptr) as [Hqid Hheap]. destruct (Hptrs i ptr Hptr) as [-> Hlt]. split.
  - destruct sr_ipc0 as (ipc & al' & Hipc & _ & _ & Hpool). unfold Server_GetQueuePair. simpl.
    rewrite (run_bind _ _ _ _ _ (ipc_of_pid_run pid s' a ipc ms' ltac:(lia) sr_pid0 Hipc)). cbn beta iota.
    unfold QueuePool_GetQueuePair_qid, QueuePool_GetQueuePair, client_qid. simpl. change CLIENT_SHMEM_FLAGS with 0.
    unfold pool_list in Hpool. destruct (checked_at (qps_ (ipc_pool ipc)) 0) as [qt|]; simpl in *; [|done]. rewrite Hpool. simpl.
    assert (checked_at refs (Z.of_nat i) = Some r) as ->; [|done]. apply checked_at_some; [lia|]. by rewrite Nat2Z.id.
  - eexists. split; [exact Hheap|].
    destruct (queue_elsewhere (Z.of_nat i) m ms ltac:(lia) (Hq i Hlt) (sm_queues _ _ Hmaps)) as [Hsq Hcq].
    assert ((Z.of_nat i + 1) * (28 + 8 * cap) <= num * (28 + 8 * cap)) by nia. assert (0 <= Z.of_nat i * (28 + 8 * cap)) by nia.
    split; [eapply lrq_rep_frame; [exact Hsq|exact Hm|]|eapply rm_rep_frame; [exact Hcq|exact Hm|]];
      intros x Hx (w & Hw & Hxw); apply (rdy_shared0 w x Hw Hxw);
      unfold queues_bytes, lrq_span, rm_span, span, handle_of, labstor_queue_pair_Attach, client_ptr, LABSTOR_REGION_ADD, queue_off in *;
      autounfold with layout in Hx; simpl in Hx; unfold queue_off in Hx; lia.
Qed.
Lemma work_rep_agree m m' w es : work_rep m w es → (∀ x, work_bytes w x → m' !! x = m !! x) → work_rep m' w es.
Proof.
  intros [[] Hq] H. split; [|done]. unfold work_bytes, span in H. unfold rd_secure in *. autounfold with layout in *.
  split; unfold rd_secure; autounfold with layout; try done.
  - eapply valid_agree; [|exact vr_valid]. intros x Hx. apply H. lia.
  - etransitivity; [|exact vr_enq]. apply read_ext. intros x Hx. apply H. lia.
  - etransitivity; [|exact vr_max]. apply read_ext. intros x Hx. apply H. lia.
  - intros i e Hi. rewrite <-(vr_entries i e Hi). pose proof (lookup_lt_Some _ _ _ Hi).
    f_equal; apply read_ext; intros x Hx; apply H; lia.
Qed.

(** The server has the region of the client in its own memory [priv]. *)
Lemma server_view m m' priv s ws entries :
  valid m base 8 → read 4 (base + smh_concurrency_) m ≠ 0 → 8 <= start → valid m (base + start) (num * (28 + 8 * cap)) →
  modifies queues_bytes m m' → server_ready pid num (λ x, is_Some (remap delta m !! x)) ws entries s priv →
  server_maps m' (remap delta m' ∪ priv) ∧
  server_ready pid num (λ x, queues_bytes (x - delta)) ws entries s (remap delta m' ∪ priv).
Proof.
  intros Hv Hc Hst Hvq Hm []. autounfold with layout in Hc.
  assert (∀ x, is_Some (m !! x) → (remap delta m' ∪ priv) !! (x + delta) = m' !! x) as Hl.
  { intros x Hx. assert (is_Some (m' !! x)) as [b Hb] by (by apply (Hm x)).
    rewrite Hb. apply lookup_union_Some_l. by rewrite Z.add_comm, lookup_remap. }
  assert (∀ x, base <= x < base + 8 → (remap delta m' ∪ priv) !! (x + delta) = m !! x) as Hh.
  { intros x Hx. rewrite Hl by (apply Hv; lia). apply (Hm x). unfold queues_bytes. lia. }
  assert (∀ x, queues_bytes x → is_Some (m !! x)) as Hq by (intros x Hx; apply Hvq; unfold queues_bytes in Hx; lia).
  split; split; try done.
  - intros x Hx. by apply Hl, Hq.
  - intros x Hx. replace x with (x - delta + delta) by lia. rewrite Hh by lia. apply Hv. lia.
  - autounfold with layout. assert (read 4 (base + delta + 4) (remap delta m' ∪ priv) = read 4 (base + 4) m) as ->; [|done].
    rewrite <-(read_remap delta 4 (base + 4) m). replace (base + 4 + delta) with (base + delta + 4) by lia.
    apply read_ext. intros x Hx. replace x with (x - delta + delta) at 1 by lia. rewrite Hh by lia.
    replace x with (delta + (x - delta)) at 2 by lia. by rewrite lookup_remap.
  - apply Forall2_same_length_lookup_2; [by eapply Forall2_length|]. intros i w es Hi He.
    eapply work_rep_agree; [exact (Forall2_lookup_lr _ _ _ _ _ _ rdy_work0 Hi He)|]. intros x Hx.
    apply lookup_union_r. destruct (remap delta m' !! x) as [b|] eqn:E; [|done]. exfalso.
    apply (rdy_shared0 w x); [by eapply list_elem_of_lookup_2|done|].
    replace x with (delta + (x - delta)) in E |- * by lia. rewrite lookup_remap in E |- *. apply (Hm (x - delta)). by exists b.
  - intros w x Hw Hx Hqx. apply (rdy_shared0 w x Hw Hx). replace x with (delta + (x - delta)) by lia.
    rewrite lookup_remap. by apply Hq.
Qed.
End connect.

(** C31. Connecting a client, on both sides.  The client initialises [num]
    queues of depth [cap] in its region; the server, which maps the region
    [delta] bytes away and has any memory [priv] of its own, makes an IPC
    object for the process, attaches to the queues with the pointers it was
    sent, registers them and gives them to its workers in turn.  Both calls
    return; then the server finds each queue by its id, as an empty queue pair
    of that depth at its place in the server's mapping, and the work queues
    hold the queues in turn, each with the credentials of the client. *)
Theorem client_queues_registered new new' new_ipc creds_ pid base start cap num delta objs c m priv s ws entries :
  new_ok new → new_ok new' → region_ok pid base start cap num objs →
  client_rel pid base start cap objs 0 c m → Z.of_nat (size (ci_heap c)) + num < 2 ^ 32 →
  valid m (base + start) (num * (28 + 8 * cap)) →
  8 <= start → valid m base 8 → read 4 (base + smh_concurrency_) m ≠ 0 →
  server_ready pid num (λ x, is_Some (remap delta m !! x)) ws entries s priv →
  let '(s1, a) := RegisterIPC new_ipc s pid in
  0 <= creds_ a < 2 ^ 64 →
  wp (CreateQueuesSHMEM new c num cap)
     (λ r m', client_rel pid base start cap objs (Z.to_nat num) r.1 m' ∧
        wp (RegisterClientQP new' creds_ s1 a (base + delta) r.2)
           (λ s' ms', ∃ ps, registered pid cap num s' ms' ps ∧
              Forall2 (work_rep ms') ws (round_robin entries 0 (creds_ a) ps))
           (remap delta m' ∪ priv)) m.
Proof.
  simpl. intros Hnew Hnew' Hr Hc Hsize Hv Hst Hh Hcores Hs Hcreds.
  eapply wp_mono; [by apply (create_shmem_spec new pid base start cap num objs Hnew Hr c m)|].
  intros r m' (Hc' & Hptrs & Hm). split; [done|]. rewrite Hptrs.
  destruct (server_view pid base start cap num delta m m' priv s ws entries) as [Hmaps Hs']; try done.
  apply (register_spec new' new_ipc creds_ pid base start cap num delta objs Hnew' Hr m' _ s ws entries); try done.
  intros i Hi. by apply (cr_queues _ _ _ _ _ _ _ _ Hc').
Qed.

(** The least address that is free. *)
Definition ex_new (h : gmap Z labstor_queue_pair) : Z :=
  default 0 (head (filter (λ a, h !! a = None) (seqZ 1 (Z.of_nat (size h) + 1)))).

Lemma ex_new_ok : new_ok ex_new.
Proof.
  intros h Hsize. unfold ex_new.
  destruct (filter (λ a, h !! a = None) (seqZ 1 (Z.of_nat (size h) + 1))) as [|p l] eqn:E; simpl.
  - exfalso. assert (seqZ 1 (Z.of_nat (size h) + 1) ⊆+ elements (dom h)) as Hsub.
    { apply NoDup_submseteq; [apply NoDup_seqZ|]. intros a Ha. apply elem_of_elements, elem_of_dom.
      destruct (h !! a) eqn:Ea; [by eexists|]. exfalso.
      assert (a ∈ filter (λ a, h !! a = None) (seqZ 1 (Z.of_nat (size h) + 1))) as Hf by (by apply list_elem_of_filter).
      rewrite E in Hf. set_solver. }
    apply submseteq_length in Hsub. rewrite length_seqZ, <-(size_dom h) in Hsub.
    unfold size, set_size in Hsub. simpl in Hsub. lia.
  - assert (p ∈ filter (λ a, h !! a = None) (seqZ 1 (Z.of_nat (size h) + 1))) as Hf by (rewrite E; set_solver).
    apply list_elem_of_filter in Hf as [Hp Hin]. apply elem_of_seqZ in Hin. split; [done|lia].
Qed.

Definition ex_client_mem : mem := write 4 4100 1 (zero_region 4096 120).
Definition ex_client_ipc : ClientIPC :=
  {| ci_pid_ := 7; ci_pool := QueuePool_new;
     ci_mem := {| mm_private_alloc_ := None;
                  mm_shmem_alloc_ := Some {| sm_base_region_ := 4096; sm_concurrency_ := 1; sm_region_size_ := 32;
                                             sm_header_ := 4096; sm_per_core_allocs_ := [] |};
                  mm_qp_alloc_ := Some {| sa_offset_ := 0; sa_max_size_ := 88; sa_region_ := 4128 |} |};
     ci_heap := ∅ |}.
Definition ex_work_queues : list (labstor_work_queue_secure * Z) :=
  [({| wqs_header_ := 100; wqs_queue_ := 112 |}, 2); ({| wqs_header_ := 200; wqs_queue_ := 212 |}, 2)].
Definition ex_priv : mem := write 4 104 2 (write 4 204 2 (zero_region 100 44 ∪ zero_region 200 44)).
Definition ex_server : ServerIPC :=
  {| si_pid_ := 1; si_ipcs := ∅; si_pid_to_ipc_ := ∅; si_heap := ∅; si_workers := (λ w, Some w.1) <$> ex_work_queues |}.

Lemma client_queues_registered_witness :
  wp (CreateQueuesSHMEM ex_new ex_client_ipc 2 2)
     (λ r m', client_rel 7 4096 32 2 {[4112]} 2 r.1 m' ∧
        wp (RegisterClientQP ex_new (λ a, a + 16) (RegisterIPC (λ _, 9000) ex_server 7).1 9000 (4096 + 1048576) r.2)
           (λ s' ms', ∃ ps, registered 7 2 2 s' ms' ps ∧
              Forall2 (work_rep ms') ex_work_queues (round_robin [[]; []] 0 9016 ps))
           (remap 1048576 m' ∪ ex_priv)) ex_client_mem.
Proof.
  apply (client_queues_registered ex_new ex_new (λ _, 9000) (λ a, a + 16) 7 4096 32 2 2 1048576 {[4112]}
    ex_client_ipc ex_client_mem ex_priv ex_server ex_work_queues [[]; []]).
  - exact ex_new_ok.
  - exact ex_new_ok.
  - split; try lia; try done.
    + intros rq ->%elem_of_singleton. lia.
    + intros p q ->%elem_of_singleton ->%elem_of_singleton. done.
  - split; try done.
    + by eexists.
    + by exists 88.
    + intros rq ->%elem_of_singleton. apply (validb_valid _ 4112 4). vm_compute. reflexivity.
    + exists []. split; [reflexivity|]. split; [reflexivity|]. intros i r Hi. by rewrite lookup_nil in Hi.
    + intros i Hi. lia.
  - vm_compute. reflexivity.
  - apply (validb_valid _ 4128 88). vm_compute. reflexivity.
  - lia.
  - apply (validb_valid _ 4096 8). vm_compute. reflexivity.
  - vm_compute. discriminate.
  - assert (Forall (λ x, remap 1048576 ex_client_mem !! x = None) (seqZ 100 144)) as Hno
      by (vm_compute; repeat constructor).
    rewrite Forall_forall in Hno. split; try done.
    + repeat constructor; simpl; try lia; try (intros i e Hi; by rewrite lookup_nil in Hi).
      * apply (validb_valid _ 100 44). vm_compute. reflexivity.
      * apply (validb_valid _ 200 44). vm_compute. reflexivity.
    + repeat constructor; simpl; lia.
    + intros [|[|i]] [|[|j]] w w' x Hi Hj Hne; try done; unfold ex_work_queues in Hi, Hj; simpl in Hi, Hj; simplify_eq;
        unfold work_bytes, span; autounfold with layout; simpl; lia.
    + intros w x Hw Hx. rewrite Hno; [by intros [? ?]|]. apply elem_of_seqZ.
      unfold ex_work_queues, work_bytes, span in *. autounfold with layout in Hx.
      apply elem_of_cons in Hw as [->|[->|Hw]%elem_of_cons]; [simpl in Hx; lia..|set_solver].
  - lia.
Defined.

(** ** Limits *)

(** The size of the queues is computed in 32 bits: four queues of 2^27 entries
    pass for 432 bytes, although one ring is larger than the region. *)
Lemma memory_config_overflow :
  match LoadMemoryConfig {| max_region_size_kb := 4096; request_unit_bytes := 256; min_request_region_kb := 1024;
                            opt_queue_depth := 2 ^ 27; opt_num_queues := 4 |} ∅ with
  | Ret c _ => queue_region_size c = 432 ∧ region_size c < request_queue_size c
  | _ => False
  end.
Proof. vm_compute. done. Qed.

(** A process id that is in the table keeps its old IPC object; the object that
    is returned for the new connection cannot be found. *)
Lemma register_ipc_again new_ipc s pid p :
  si_pid_to_ipc_ s !! u32 pid = Some p → new_ipc (si_ipcs s) ≠ p →
  let '(s', a) := RegisterIPC new_ipc s pid in
  si_pid_to_ipc_ s' !! u32 pid = Some p ∧ a ≠ p ∧ is_Some (si_ipcs s' !! a).
Proof. intros Hp Hne. simpl. rewrite Hp. split; [done|]. split; [done|]. rewrite lookup_insert_eq. by eexists. Qed.

(** The owner of a queue is read from the queue, which the client can write:
    process 7 sends a queue that names process 8, and the worker serves it with
    the credentials of process 8. *)
Lemma client_impersonates :
  let alloc := {| sm_base_region_ := 4096; sm_concurrency_ := 1; sm_region_size_ := 32;
                  sm_header_ := 4096; sm_per_core_allocs_ := [] |} in
  let ipc pid := {| ipc_pool := QueuePool_new; ipc_mem := MemoryManager_SetShmemAlloc MemoryManager_unset alloc;
                    ipc_pid_ := pid |} in
  let s := {| si_pid_ := 1; si_ipcs := <[9000 := ipc 7]> {[9100 := ipc 8]};
              si_pid_to_ipc_ := <[7 := 9000]> {[8 := 9100]}; si_heap := ∅;
              si_workers := (λ w, Some w.1) <$> ex_work_queues |} in
  wp (RegisterClientQP ex_new (λ a, a + 16) s 9000 4096 [{| qpp_sq_off_ := 32; qpp_cq_off_ := 64; qpp_pid_ := 7 |}];;
      labstor_work_queue_secure_Peek {| wqs_header_ := 100; wqs_queue_ := 112 |} 0)
     (λ r _, r = Some (1, 9100 + 16)) (write 4 (4096 + 32 + 4) 8 ex_client_mem ∪ ex_priv).
Proof. vm_compute. reflexivity. Qed.
