(* ===== verification/UserWorker.v ===== *)
(** * UserWorker.v: a worker of the userspace server

    src/userspace/server/worker.cpp and the modules it calls.  A worker goes
    through the queue pairs of its work queue; it looks at the oldest request
    of a queue pair, finds the module the request names and calls its
    [ProcessRequest], which either completes the request or leaves it for a
    later round.  A module is held to the interface [Handles]; the worker is
    verified against it.  The dummy module satisfies it, and so does the IPC
    test (ServerModules.v), which puts its requests off until the kernel has
    answered. *)

From S2P Require Import Prelude Memory RingBuffer RequestQueue QueuePair WorkQueue QueuePool MpmcRing UnorderedMap.
From S2P Require Import ModuleTable Namespace Allocators IpcManager KernelWorker.

Local Open Scope Z_scope.

(** ** The state of the server *)

(** [sv_shmem_alloc_]: the allocator of the namespace, for keys.
    [sv_module_id_]: the member [module_id_] of the module object at an
    address.  [sv_dev_id_]: the member [dev_id_] of the instance of the MQ
    driver at an address. *)
Record server := {
  sv_ipc : ServerIPC;
  sv_namespace : Namespace;
  sv_shmem_alloc_ : labstor_shmem_allocator;
  sv_modules : ModuleManager;
  sv_module_id_ : gmap Z (list Z);
  sv_dev_id_ : gmap Z Z
}.

Definition with_namespace (s : server) (ns : Namespace) : server :=
  {| sv_ipc := sv_ipc s; sv_namespace := ns; sv_shmem_alloc_ := sv_shmem_alloc_ s; sv_modules := sv_modules s;
     sv_module_id_ := sv_module_id_ s; sv_dev_id_ := sv_dev_id_ s |}.
Definition with_modules (s : server) (mm : ModuleManager) : server :=
  {| sv_ipc := sv_ipc s; sv_namespace := sv_namespace s; sv_shmem_alloc_ := sv_shmem_alloc_ s; sv_modules := mm;
     sv_module_id_ := sv_module_id_ s; sv_dev_id_ := sv_dev_id_ s |}.
Definition with_module_id (s : server) (p : Z) (module_id : list Z) : server :=
  {| sv_ipc := sv_ipc s; sv_namespace := sv_namespace s; sv_shmem_alloc_ := sv_shmem_alloc_ s; sv_modules := sv_modules s;
     sv_module_id_ := <[p := module_id]> (sv_module_id_ s); sv_dev_id_ := sv_dev_id_ s |}.
Definition with_dev_id (s : server) (p dev_id : Z) : server :=
  {| sv_ipc := sv_ipc s; sv_namespace := sv_namespace s; sv_shmem_alloc_ := sv_shmem_alloc_ s; sv_modules := sv_modules s;
     sv_module_id_ := sv_module_id_ s; sv_dev_id_ := <[p := dev_id]> (sv_dev_id_ s) |}.

(** What ends a function early: an exception, or the end of the process. *)
Inductive stop := Exception (code : Z) | Exit (code : Z).

(** Code of the server: a result or a stop, and the new state. *)
Definition UM (A : Type) : Type := server → M ((A + stop) * server).

#[export] Instance UM_ret : MRet UM := λ A a s, mret (inl a, s).
#[export] Instance UM_bind : MBind UM := λ A B f c s,
  '(r, s') ← c s;
  match r with inl a => f a s' | inr e => mret (inr e, s') end.

(** Code that does not change the state of the server. *)
Definition ulift {A} (c : M A) : UM A := λ s m,
  match c m with
  | Ret a m' => Ret (inl a, s) m'
  | Throw code m' => Ret (inr (Exception code), s) m'
  | Spin m' => Spin m'
  | Fault => Fault
  end.

Definition u_get : UM server := λ s, mret (inl s, s).
Definition u_put (s : server) : UM unit := λ _, mret (inl tt, s).
Definition u_exit {A} (code : Z) : UM A := λ s, mret (inr (Exit code), s).

(** Code of the module manager. *)
Definition u_modules {A} (c : MM A) : UM A := λ s,
  match c (sv_modules s) with
  | MRet_ a mm => mret (inl a, with_modules s mm)
  | MThrow code mm => mret (inr (Exception code), with_modules s mm)
  | MFault => fault
  end.

(** The handle at an address. *)
Definition u_handle (p : Z) : UM labstor_queue_pair := s ← u_get; ulift (deref (si_heap (sv_ipc s) !! p)).

(** ** worker.cpp *)

(** [queue_pair::Complete(rq)]. *)
Definition queue_pair_Complete (fuel : nat) (h : labstor_queue_pair) (rq : Z) : M unit :=
  req_id ← load32 (rq + rq_req_id_);
  shmem_queue_pair__Complete fuel h req_id rq.

Section worker_cpp.
(** [ProcessRequest] of the module at an address. *)
Context (process : Z → Z → Z → Z → UM bool) (fuel : nat).

(** The requests of one queue pair; [n] rounds are left of the depth that was
    read. *)
Fixpoint worker_requests (n : nat) (qp creds : Z) : UM unit :=
  match n with
  | O => mret tt
  | S n' =>
      h ← u_handle qp;
      r ← ulift (labstor_queue_pair_Peek h 0);
      match r with
      | None => mret tt
      | Some rq =>
          ns_id ← ulift (load32 (rq + rq_ns_id_));
          s ← u_get;
          let module := Namespace_GetModule (sv_namespace s) ns_id in
          if module =? 0 then
            _ ← ulift (store32 (rq + rq_code_) (u32 (-1)));
            _ ← ulift (queue_pair_Complete fuel h rq);
            worker_requests n' qp creds
          else
            is_complete ← process module qp rq creds;
            if is_complete : bool then
              h ← u_handle qp;
              _ ← ulift (labstor_queue_pair_Dequeue h);
              worker_requests n' qp creds
            else mret tt
      end
  end.

(** The queue pairs of the work queue, from index [i]. *)
Fixpoint worker_queues (n : nat) (wq : labstor_work_queue_secure) (i : Z) : UM unit :=
  match n with
  | O => mret tt
  | S n' =>
      p ← ulift (labstor_work_queue_secure_Peek wq i);
      match p with
      | None => mret tt
      | Some (qp_struct, creds) =>
          h ← u_handle qp_struct;
          qid ← ulift (queue_pair_qid h);
          s ← u_get;
          qp ← ulift (Server_GetQueuePair (sv_ipc s) qid);
          h ← u_handle qp;
          qp_depth ← ulift (labstor_queue_pair_GetDepth h);
          _ ← worker_requests (Z.to_nat qp_depth) qp creds;
          worker_queues n' wq (i + 1)
      end
  end.

(** [Worker::DoWork]: an exception is printed. *)
Definition DoWork (wq : labstor_work_queue_secure) : UM unit := λ s,
  '(r, s') ← (depth ← ulift (labstor_work_queue_secure_GetDepth wq);
              worker_queues (Z.to_nat depth) wq 0) s;
  match r with
  | inl _ | inr (Exception _) => mret (inl tt, s')
  | inr (Exit code) => mret (inr (Exit code), s')
  end.
End worker_cpp.

(** ** dummy_server.cpp *)

Definition DUMMY_GET_VALUE : Z := 4.
(** [dummy_request::value_]. *)
Definition drq_value_ : Z := 16.

Definition dummy_request_Complete (rq value : Z) : M unit := store32 (rq + drq_value_) (u32 value).

Definition Dummy_ProcessRequest (fuel : nat) (qp rq creds : Z) : UM bool :=
  op ← ulift (load16 (rq + rq_op_));
  if op =? 0 then mret true
  else if op =? DUMMY_GET_VALUE then
    _ ← ulift (dummy_request_Complete rq 5543);
    h ← u_handle qp;
    _ ← ulift (queue_pair_Complete fuel h rq);
    mret true
  else mret true.

(** ** Reasoning about the server *)

Section um_wp.
Context {A B : Type}.

Lemma wp_ulift (c : M A) (Q : (A + stop) * server → mem → Prop) s m :
  wp c (λ a m', Q (inl a, s) m') m → wp (ulift c s) Q m.
Proof. unfold wp, ulift. by destruct (c m). Qed.

Lemma wp_ubind (c : UM A) (f : A → UM B) (Q : (B + stop) * server → mem → Prop) s m :
  wp (c s) (λ r m', match r.1 with inl a => wp (f a r.2) Q m' | inr e => Q (inr e, r.2) m' end) m →
  wp ((c ≫= f) s) Q m.
Proof.
  intros H. unfold mbind, UM_bind. apply wp_bind. eapply wp_mono; [exact H|]. intros [[a|code] s'] m' HQ; simpl in *; [done|].
  by apply wp_ret.
Qed.

Lemma wp_ulift_bind (c : M A) (f : A → UM B) (Q : (B + stop) * server → mem → Prop) s m :
  wp c (λ a m', wp (f a s) Q m') m → wp ((ulift c ≫= f) s) Q m.
Proof. intros H. by apply wp_ubind, wp_ulift. Qed.
End um_wp.

Lemma wp_uget {B} (f : server → UM B) (Q : (B + stop) * server → mem → Prop) s m : wp (f s s) Q m → wp ((u_get ≫= f) s) Q m.
Proof. intros H. apply wp_ubind, wp_ret. exact H. Qed.

Lemma wp_handle {B} p h (f : labstor_queue_pair → UM B) (Q : (B + stop) * server → mem → Prop) s m :
  si_heap (sv_ipc s) !! p = Some h → wp (f h s) Q m → wp ((u_handle p ≫= f) s) Q m.
Proof. intros Hh HQ. apply wp_ubind, wp_uget, wp_ulift. rewrite Hh. by apply wp_ret. Qed.

(** Computations whose outcome is known. *)
Lemma ulift_run {A B} (c : M A) (f : A → UM B) s m a m' : c m = Ret a m' → (ulift c ≫= f) s m = f a s m'.
Proof. intros Hc. unfold mbind, UM_bind, ulift, mbind, M_bind. by rewrite Hc. Qed.

Lemma handle_run {B} p h (f : labstor_queue_pair → UM B) s m :
  si_heap (sv_ipc s) !! p = Some h → (u_handle p ≫= f) s m = f h s m.
Proof. intros Hh. unfold u_handle, u_get, mbind, UM_bind, ulift, deref, mbind, M_bind, mret, UM_ret, mret, M_ret. cbn. by rewrite Hh. Qed.

Lemma ulift_fault {A B} (c : M A) (f : A → UM B) s m : c m = Fault → (ulift c ≫= f) s m = Fault.
Proof. intros Hc. unfold mbind, UM_bind, ulift, mbind, M_bind. by rewrite Hc. Qed.

(** ** One queue pair *)

(** A queue pair of the work queue: its object, the process that owns it, and
    its requests of [uq_size] bytes. *)
Record user_queue := {
  uq_ptr : Z;
  uq_creds : Z;
  uq_handle : labstor_queue_pair;
  uq_qid : labstor_qid_t;
  uq_cap : Z;
  uq_objs : gset Z;
  uq_size : Z
}.

Section queue.
Context (q : user_queue).
#[local] Abbreviation h := (uq_handle q).
#[local] Abbreviation cap := (uq_cap q).
#[local] Abbreviation objs := (uq_objs q).

(** The requests are apart from the queue pair and from each other. *)
Record user_layout : Prop := {
  ul_qp : qp_layout h cap objs;
  ul_attach : lrq_queue_ (qp_sq_ h) = labstor_request_ring_buffer_Attach (lrq_header_ (qp_sq_ h) + sizeof_lrq_header);
  ul_size : 16 <= uq_size q;
  ul_sq : ∀ rq, rq ∈ objs → outside rq (uq_size q) (lrq_header_ (qp_sq_ h)) (24 + 4 * cap);
  ul_cq : ∀ rq, rq ∈ objs → outside rq (uq_size q) (rm_header_ (qp_cq_ h)) (4 + 4 * cap);
  ul_objs : ∀ p r, p ∈ objs → r ∈ objs → p ≠ r → outside p (uq_size q) r (uq_size q)
}.

Record user_rel (st : qp_abs) (m : mem) : Prop := {
  ur_qp : qp_rel h (uq_qid q) cap objs st m;
  ur_valid : ∀ rq, rq ∈ objs → valid m rq (uq_size q)
}.

(** What a module may change when it is given the request [rq]: the request
    and the completions. *)
Definition rq_bytes (rq : Z) : Z → Prop := both (cq_bytes h cap) (span rq (uq_size q)).

(** What a round may change. *)
Definition uq_bytes (a : Z) : Prop := sq_bytes h cap a ∨ cq_bytes h cap a ∨ ∃ rq, rq ∈ objs ∧ span rq (uq_size q) a.

(** A handler that completes a request it accepts, with the outcome [post], or
    puts it off; requests that are [prompt] are completed.  Besides the request
    and the completions it may change the bytes [own] of the modules (queues of
    the kernel, allocators, the namespace).  [inv k] is what it needs of the
    server and of these bytes to put off [k] requests (a module that passes
    requests on needs room for them), and keeps. *)
Class Handles (f : Z → Z → Z → UM bool) (own : Z → Prop) (inv : nat → server → mem → Prop)
    (accepts prompt post : Z → mem → Prop) : Prop := {
  handles : ∀ k st s m rq id, user_rel st m → pending objs st rq id → inv (S k) s m → accepts rq m →
    wp (f (uq_ptr q) rq (uq_creds q) s)
       (λ r m', modifies (both (rq_bytes rq) own) m m' ∧
          ((r.1 = inl true ∧ inv (S k) r.2 m' ∧ user_rel (completed st rq id) m' ∧ post rq m') ∨
           (r.1 = inl false ∧ inv k r.2 m' ∧ user_rel st m' ∧ ¬ prompt rq m))) m;
  (* all three depend on the request only *)
  handles_local : ∀ P m m' rq, modifies P m m' → (∀ a, span rq (uq_size q) a → ¬ P a) →
    (accepts rq m → accepts rq m') ∧ (prompt rq m → prompt rq m') ∧ (post rq m → post rq m')
}.

Hypothesis Hlay : user_layout.

Lemma user_peek st m rq sq :
  user_rel st m → qa_sq st = rq :: sq → labstor_queue_pair_Peek h 0 m = Ret (Some rq) m.
Proof.
  intros [Hq _] Hsq. unfold labstor_queue_pair_Peek. apply (lrq_peek _ _ _ _ _ _ 0 rq (qr_sq _ _ _ _ _ _ Hq)). by rewrite Hsq.
Qed.

Lemma user_dequeue st m rq sq :
  user_rel st m → qa_sq st = rq :: sq →
  wp (labstor_queue_pair_Dequeue h) (λ r m', r = Some rq ∧ user_rel (popped st) m' ∧ modifies (sq_bytes h cap) m m') m.
Proof.
  intros [Hq Hv] Hsq. destruct Hlay as [Hl Ha].
  pose proof (qp_dequeue_refines h (uq_qid q) cap objs Hl Ha 1 st m (popped st) (RRequest (Some rq)) Hq) as H.
  simpl in H. unfold popped in H at 1. rewrite Hsq in H. specialize (H eq_refl).
  apply wp_bind_inv in H. eapply wp_mono; [exact H|]. intros r m' (Hr & Hrel & Hm). split; [by injection Hr|]. split; [|done]. split; [done|].
  intros p Hp. eapply valid_modifies; [exact Hm|auto].
Qed.

Ltac ranges :=
  unfold rq_bytes, sq_bytes, cq_bytes, lrq_span, rm_span, both, span, outside in *;
  autounfold with layout in *; simpl in *; intros; lia.

(** Other requests are not touched by the service of one, nor by a dequeue. *)
Lemma other_request rq p a :
  rq ∈ objs → p ∈ objs → p ≠ rq → span p (uq_size q) a → ¬ rq_bytes rq a ∧ ¬ sq_bytes h cap a.
Proof.
  intros Hrq Hp Hne Ha. pose proof (ul_cq Hlay p Hp). pose proof (ul_sq Hlay p Hp). pose proof (ul_objs Hlay p rq Hp Hrq Hne).
  split; ranges.
Qed.

Lemma request_not_sq rq a : rq ∈ objs → span rq (uq_size q) a → ¬ sq_bytes h cap a.
Proof. intros Hrq Ha. pose proof (ul_sq Hlay rq Hrq). ranges. Qed.

Lemma rq_bytes_uq rq a : rq ∈ objs → rq_bytes rq a → uq_bytes a.
Proof. intros Hrq [Ha|Ha]; [right; by left|]. right. right. by exists rq. Qed.

(** A module may write to the request past its id. *)
Lemma user_write st m rq P m' :
  user_rel st m → rq ∈ objs → modifies P m m' → (∀ a, P a → rq + 4 <= a < rq + uq_size q) → user_rel st m'.
Proof.
  intros [Hq Hv] Hrq Hm HP. pose proof (ul_sq Hlay rq Hrq). pose proof (ul_cq Hlay rq Hrq). pose proof (ul_size Hlay) as Hsz.
  split; [|intros p Hp; eapply valid_modifies; [exact Hm|auto]].
  eapply qp_rel_frame; [done|exact Hm|]. intros a Pa%HP. split; [ranges|split; [ranges|]]. intros p Hp Hin.
  destruct (decide (p = rq)) as [->|Hne]; [lia|]. pose proof (ul_objs Hlay p rq Hp Hrq Hne). ranges.
Qed.

(** [qp->Complete(rq)] completes a pending request. *)
Lemma user_complete fuel st m rq id :
  (0 < fuel)%nat → user_rel st m → pending objs st rq id →
  wp (queue_pair_Complete fuel h rq) (λ _ m', user_rel (completed st rq id) m' ∧ modifies (cq_bytes h cap) m m') m.
Proof.
  intros Hf [Hq Hv] (Hobj & Hid & Hout & Hnone). pose proof (ul_size Hlay) as Hsz. unfold queue_pair_Complete.
  apply wp_bind, wp_load; [apply (valid_sub _ _ _ _ _ (Hv rq Hobj)); autounfold with layout; simpl; lia|].
  apply wp_bind. eapply wp_mono; [by eapply (qp_complete_inf_spec h (uq_qid q) cap objs (ul_qp Hlay))|].
  intros ok m' (-> & Hrel & Hm). apply wp_ret. split; [|done]. split; [done|].
  intros p Hp. eapply valid_modifies; [exact Hm|auto].
Qed.
End queue.

(** ** The modules *)

Section modules.
Context (process : Z → Z → Z → Z → UM bool) (fuel : nat).
(** The bytes of the modules, the module of a namespace id, the null pointer when
    there is none, and what it accepts and does. *)
Context (own : Z → Prop) (inv : nat → server → mem → Prop) (modules : Z → Z) (accepts prompt post : Z → Z → mem → Prop).

Definition request_ns (rq : Z) (m : mem) : Z := read 4 (rq + rq_ns_id_) m.

(** Requests for modules that exist, which they accept. *)
Definition for_module (rq : Z) (m : mem) : Prop :=
  modules (request_ns rq m) ≠ 0 ∧ accepts (request_ns rq m) rq m.

(** What the server keeps while it works: the object of the queue, and the
    modules, whose bytes are none of the queue's and are all that [inv] is
    about. *)
Record serves_queue (q : user_queue) : Prop := {
  sq_heap : ∀ c s m, inv c s m → si_heap (sv_ipc s) !! uq_ptr q = Some (uq_handle q);
  sq_modules : ∀ c s m ns, inv c s m → modules ns ≠ 0 → Namespace_GetModule (sv_namespace s) ns = modules ns;
  sq_handles : ∀ ns, modules ns ≠ 0 → Handles q (process (modules ns)) own inv (accepts ns) (prompt ns) (post ns);
  sq_own : ∀ a, own a → ¬ uq_bytes q a;
  sq_frame : ∀ c s P m m', inv c s m → modifies P m m' → (∀ a, P a → ¬ own a) → inv c s m';
  sq_fewer : ∀ c s m, inv (S c) s m → inv c s m
}.

(** The first [k] of the requests [rqs] are completed; the next one, if there
    is one, was put off by its module, and the others are as they were. *)
Record progress (q : user_queue) (k : nat) (rqs : list Z) (st st' : qp_abs) (m m' : mem) : Prop := {
  pg_le : (k <= length rqs)%nat;
  pg_rel : user_rel q st' m';
  pg_sq : qa_sq st' = drop k rqs;
  pg_ids : qa_ids st' = qa_ids st;
  pg_out : qa_out st' = qa_out st ∧ qa_enq st' = qa_enq st;
  pg_old : ∀ id rq, qa_cq st !! id = Some rq → qa_cq st' !! id = Some rq;
  pg_done : ∀ i rq id, (i < k)%nat → rqs !! i = Some rq → qa_ids st !! rq = Some id →
    qa_cq st' !! id = Some rq ∧ post (request_ns rq m) rq m';
  pg_off : ∀ rq, rqs !! k = Some rq → ¬ prompt (request_ns rq m) rq m;
  pg_rest : ∀ i rq, (k < i)%nat → rqs !! i = Some rq → ∀ a, span rq (uq_size q) a → m' !! a = m !! a;
  pg_other : ∀ rq, rq ∈ uq_objs q → rq ∉ rqs → ∀ a, span rq (uq_size q) a → m' !! a = m !! a
}.

Lemma request_ns_frame q P m m' rq :
  16 <= uq_size q → modifies P m m' → (∀ a, span rq (uq_size q) a → ¬ P a) → request_ns rq m' = request_ns rq m.
Proof.
  intros Hsz Hm HP. unfold request_ns. eapply read_modifies; [exact Hm|]. autounfold with layout. simpl.
  intros a Ha. apply HP. unfold span. lia.
Qed.

Lemma for_module_frame q P m m' rq :
  serves_queue q → 16 <= uq_size q → modifies P m m' → (∀ a, span rq (uq_size q) a → ¬ P a) →
  for_module rq m → for_module rq m' ∧ request_ns rq m' = request_ns rq m.
Proof.
  intros Hq Hsz Hm HP [Hmod Hacc]. pose proof (request_ns_frame q P m m' rq Hsz Hm HP) as E.
  unfold for_module. rewrite E. split; [|done]. split; [done|].
  destruct (sq_handles _ Hq _ Hmod) as [_ Hloc]. by apply (Hloc P m m' rq Hm HP).
Qed.

(** One more request in front. *)
Lemma progress_cons q k rq sq id st st' m m1 m2 m3 :
  user_layout q → serves_queue q → rq ∈ uq_objs q → rq ∉ sq → (∀ p, p ∈ sq → p ∈ uq_objs q) →
  modules (request_ns rq m) ≠ 0 → (∀ p, p ∈ sq → modules (request_ns p m) ≠ 0) →
  qa_ids st !! rq = Some id → qa_cq st !! id = None →
  post (request_ns rq m) rq m1 → modifies (both (rq_bytes q rq) own) m m1 → modifies (sq_bytes (uq_handle q) (uq_cap q)) m1 m2 →
  modifies (both (uq_bytes q) own) m2 m3 → progress q k sq (completed (popped st) rq id) st' m2 m3 →
  progress q (S k) (rq :: sq) st st' m m3.
Proof.
  intros Hlay Hq Hobj Hni Hsub Hmod Hmods Hid Hnone Hpost Hm1 Hm2 Hm3 []. pose proof (ul_size _ Hlay) as Hsz.
  assert (∀ p a, p ∈ uq_objs q → p ≠ rq → span p (uq_size q) a → m2 !! a = m !! a) as Hsame.
  { intros p a Hp Hne Ha. destruct (other_request q Hlay rq p a Hobj Hp Hne Ha) as [H1 H2].
    rewrite (proj2 (Hm2 a) H2). apply (Hm1 a). intros [Hr|Ho]; [done|]. apply (sq_own _ Hq a Ho). right. right. by exists p. }
  assert (∀ p, p ∈ sq → p ∈ uq_objs q ∧ p ≠ rq) as Hin by (intros p Hp; split; [auto|by intros ->]).
  assert (modifies (λ a, ∀ p, p ∈ sq → ¬ span p (uq_size q) a) m m2) as Hm.
  { intros a. split; [by rewrite (proj1 (Hm2 a)), (proj1 (Hm1 a))|]. intros Hn.
    destruct (decide (m2 !! a = m !! a)) as [|Hne]; [done|]. exfalso. apply Hn. intros p Hp Ha. apply Hne.
    destruct (Hin p Hp). by apply (Hsame p). }
  assert (∀ p, p ∈ sq → request_ns p m2 = request_ns p m ∧
    (prompt (request_ns p m) p m → prompt (request_ns p m) p m2)) as Hframe.
  { intros p Hp. split; [eapply (request_ns_frame q); [done|exact Hm|]; intros a Ha Hn; by apply (Hn p)|].
    destruct (sq_handles _ Hq _ (Hmods p Hp)) as [_ Hloc]. apply (Hloc _ m m2 p Hm). intros a Ha Hn. by apply (Hn p). }
  split; simpl; try done.
  - lia.
  - intros i p Hi. apply pg_old0. simpl. rewrite lookup_insert_ne; [done|]. intros <-. by rewrite Hnone in Hi.
  - intros [|i] p j Hi Hp Hj; simpl in Hp.
    + injection Hp as <-. simplify_eq. split; [apply pg_old0; simpl; by rewrite lookup_insert_eq|].
      destruct (sq_handles _ Hq _ Hmod) as [_ Hloc].
      assert (post (request_ns rq m) rq m2) as Hpost2.
      { eapply (Hloc _ m1 m2 rq Hm2); [|done]. intros a. by apply request_not_sq. }
      eapply (Hloc (λ a, ¬ span rq (uq_size q) a) m2 m3 rq); [|by intros a Ha Hn|done].
      intros a. split; [apply (Hm3 a)|]. intros Hn. destruct (decide (m3 !! a = m2 !! a)) as [|Hne]; [done|].
      exfalso. apply Hn. intros Ha. by apply Hne, (pg_other0 rq).
    + assert (p ∈ sq) as Hps by (by eapply list_elem_of_lookup_2). destruct (Hframe p Hps) as [E _].
      rewrite <-E. apply (pg_done0 i); [lia|done|done].
  - intros p Hp. assert (p ∈ sq) as Hps by (by eapply list_elem_of_lookup_2). destruct (Hframe p Hps) as [E Hpr].
    pose proof (pg_off0 p Hp) as Hnp. rewrite E in Hnp. intros Hpm. by apply Hnp, Hpr.
  - intros [|i] p Hi Hp a Ha; [lia|]. simpl in Hp. assert (p ∈ sq) as Hps by (by eapply list_elem_of_lookup_2).
    destruct (Hin p Hps). rewrite (pg_rest0 i p) by (done || lia). by apply (Hsame p).
  - intros p Hp [Hne Hns]%not_elem_of_cons a Ha. rewrite (pg_other0 p) by done. by apply (Hsame p).
Qed.

Lemma worker_requests_spec q n c st s m :
  user_layout q → serves_queue q → inv (S c) s m → user_rel q st m → servable (uq_objs q) st → length (qa_sq st) = n →
  (∀ rq, rq ∈ qa_sq st → for_module rq m) →
  wp (worker_requests process fuel n (uq_ptr q) (uq_creds q) s)
     (λ r m', r.1 = inl tt ∧ inv c r.2 m' ∧ modifies (both (uq_bytes q) own) m m' ∧ ∃ k st', progress q k (qa_sq st) st st' m m') m.
Proof.
  intros Hlay Hq. pose proof (ul_size _ Hlay) as Hsz. revert st s m. induction n as [|n IH]; intros st s m Hi Hrel Hsv Hlen Hmods.
  { destruct (qa_sq st) as [|] eqn:Esq; [|done]. apply wp_ret. split; [done|]. split; [by apply (sq_fewer _ Hq)|]. split; [apply modifies_refl|].
    exists 0%nat, st. by split. }
  destruct (qa_sq st) as [|rq sq] eqn:Esq; [done|]. cbn [worker_requests].
  destruct (sv_pending _ _ Hsv rq) as (id & Hp); [rewrite Esq; set_solver|]. pose proof Hp as (Hobj & Hid & Hout & Hnone).
  apply (wp_handle _ _ _ _ _ _ (sq_heap _ Hq _ s m Hi)). apply wp_ulift_bind, wp_run. eexists _, _. split; [by eapply user_peek|].
  cbn iota. apply wp_ulift_bind, wp_load.
  { apply (valid_sub _ _ _ _ _ (ur_valid _ _ _ Hrel _ Hobj)); autounfold with layout; simpl; lia. }
  fold (request_ns rq m). destruct (Hmods rq ltac:(set_solver)) as [Hmod Hacc]. apply wp_uget.
  rewrite (sq_modules _ Hq _ s m _ Hi Hmod). rewrite (proj2 (Z.eqb_neq _ _) Hmod).
  destruct (sq_handles _ Hq _ Hmod) as [Hh Hloc]. apply wp_ubind. eapply wp_mono; [by apply (Hh c st s m rq id)|].
  pose proof (sv_nodup _ _ Hsv) as Hnd. rewrite Esq in Hnd. apply NoDup_cons in Hnd as [Hni _].
  assert (∀ p, p ∈ sq → p ∈ uq_objs q) as Hsub.
  { intros p Hin. by destruct (sv_pending _ _ Hsv p) as (? & Hpo & _); [rewrite Esq; set_solver|]. }
  assert (∀ p a, p ∈ uq_objs q → p ≠ rq → span p (uq_size q) a → ¬ both (rq_bytes q rq) own a) as Hobjs.
  { intros p a Hpo Hne Ha [Hb|Ho]; [by apply (proj1 (other_request q Hlay rq p a Hobj Hpo Hne Ha))|]. apply (sq_own _ Hq a Ho). right. right. by exists p. }
  assert (∀ p a, p ∈ sq → span p (uq_size q) a → ¬ both (rq_bytes q rq) own a) as Hother.
  { intros p a Hin. apply Hobjs; [by apply Hsub|by intros ->]. }
  assert (∀ a, both (rq_bytes q rq) own a → both (uq_bytes q) own a) as Hgrow.
  { intros a [Ha|Ha]; [left; by apply (rq_bytes_uq q rq)|by right]. }
  intros [r s1] m1 (Hm1 & Hr). cbn [fst snd] in *. destruct Hr as [(-> & Hi1 & Hrel1 & Hpost)|(-> & Hi1 & Hrel1 & Hnp)]; cbn [fst snd].
  2: { apply wp_ret. split; [done|]. split; [done|]. split; [eapply modifies_weaken; [exact Hm1|exact Hgrow]|].
    exists 0%nat, st. split; simpl; try done; [lia|lia| | |].
    - by intros p [= <-].
    - intros [|i] p Hk Hp' a Ha; [lia|]. apply (Hm1 a), (Hother p); [|done]. simpl in Hp'. by eapply list_elem_of_lookup_2.
    - intros p Hpo [Hne _]%not_elem_of_cons a Ha. apply (Hm1 a). by apply (Hobjs p). }
  apply (wp_handle _ _ _ _ _ _ (sq_heap _ Hq _ s1 m1 Hi1)). apply wp_ulift_bind.
  eapply wp_mono; [apply (user_dequeue q Hlay (completed st rq id) m1 rq sq Hrel1); exact Esq|].
  intros _ m2 (_ & Hrel2 & Hm2). change (popped (completed st rq id)) with (completed (popped st) rq id) in Hrel2.
  assert (∀ p, p ∈ uq_objs q → p ≠ rq → for_module p m → for_module p m2) as Hsame.
  { intros p Hpo Hne Hf. pose proof (other_request q Hlay rq p) as Ho.
    apply (for_module_frame q (sq_bytes (uq_handle q) (uq_cap q)) m1 m2 p); try done; [intros a Ha; by apply (Ho a)|].
    apply (for_module_frame q (both (rq_bytes q rq) own) m m1 p); try done. intros a. by apply Hobjs. }
  assert (inv (S c) s1 m2) as Hi2.
  { eapply (sq_frame _ Hq); [exact Hi1|exact Hm2|]. intros a Ha Ho. apply (sq_own _ Hq a Ho). by left. }
  eapply wp_mono.
  { apply (IH (completed (popped st) rq id) s1 m2 Hi2 Hrel2); [by eapply servable_next| |];
      simpl; rewrite Esq; simpl in *; [lia|]. intros p Hin. apply Hsame; [by apply Hsub|by intros ->|apply Hmods; set_solver]. }
  simpl. rewrite Esq. simpl. intros [r s3] m3 (-> & Hi3 & Hm3 & k & st' & Hpg). cbn [fst snd] in *. split; [done|]. split; [done|].
  split.
  { eapply modifies_trans; [eapply modifies_trans|exact Hm3].
    - eapply modifies_weaken; [exact Hm1|exact Hgrow].
    - eapply modifies_weaken; [exact Hm2|]. intros a Ha. left. by left. }
  exists (S k), st'. apply (progress_cons q k rq sq id st st' m m1 m2 m3); try done.
  intros p Hin. apply Hmods. set_solver.
Qed.

(** ** The work queue *)

(** A queue pair with requests for modules that exist; the server finds its
    object by its id. *)
Record user_ready (m : mem) (q : user_queue) (st : qp_abs) : Prop := {
  ud_layout : user_layout q;
  ud_serves : serves_queue q;
  ud_lookup : ∀ c s m m', inv c s m → Server_GetQueuePair (sv_ipc s) (uq_qid q) m' = Ret (uq_ptr q) m';
  ud_rel : user_rel q st m;
  ud_servable : servable (uq_objs q) st;
  ud_modules : ∀ rq, rq ∈ qa_sq st → for_module rq m
}.

Definition user_done (m m' : mem) (q : user_queue) (st : qp_abs) : Prop :=
  ∃ k st', progress q k (qa_sq st) st st' m m'.

Definition uq_apart (q q' : user_queue) : Prop := ∀ a, uq_bytes q a → ¬ uq_bytes q' a.

Lemma user_waiting q st rq : servable (uq_objs q) st → rq ∈ qa_sq st → rq ∈ uq_objs q.
Proof. intros Hs Hin. by destruct (sv_pending _ _ Hs rq Hin) as (? & ? & _). Qed.

Lemma obj_outside q (P : Z → Prop) rq a :
  (∀ b, P b → ¬ uq_bytes q b) → rq ∈ uq_objs q → span rq (uq_size q) a → ¬ P a.
Proof. intros HP Hrq Ha Pa. apply (HP a Pa). right. right. by exists rq. Qed.

Lemma user_rel_frame q st P m m' :
  user_layout q → user_rel q st m → modifies P m m' → (∀ a, P a → ¬ uq_bytes q a) → user_rel q st m'.
Proof.
  intros Hl [] Hm HP. pose proof (ul_size _ Hl) as Hsz. split.
  - eapply qp_rel_frame; [done|exact Hm|]. intros a Pa. pose proof (HP a Pa) as Hn.
    split; [|split]; [intros Ha; apply Hn; by left|intros Ha; apply Hn; right; by left|].
    intros rq Hrq Ha. apply Hn. right. right. exists rq. split; [done|]. unfold span. lia.
  - intros rq Hrq. eapply valid_modifies; [exact Hm|auto].
Qed.

Lemma user_ready_frame m m' P q st :
  user_ready m q st → modifies P m m' → (∀ a, P a → ¬ uq_bytes q a) →
  user_ready m' q st ∧ ∀ rq, rq ∈ qa_sq st → request_ns rq m' = request_ns rq m.
Proof.
  intros [] Hm HP. pose proof (ul_size _ ud_layout0) as Hsz.
  assert (∀ rq, rq ∈ qa_sq st → for_module rq m' ∧ request_ns rq m' = request_ns rq m) as Hf.
  { intros rq Hin. eapply (for_module_frame q P m m' rq); try done; [|by apply ud_modules0].
    intros a. eapply obj_outside; [exact HP|]. by eapply user_waiting. }
  split; [|apply Hf]. split; try done; [by eapply user_rel_frame|apply Hf].
Qed.

(** What was achieved for a queue survives what happens to others. *)
Lemma user_done_after m m1 m2 P q st :
  user_ready m q st → user_done m m1 q st → modifies P m1 m2 → (∀ a, P a → ¬ uq_bytes q a) → user_done m m2 q st.
Proof.
  intros [] (k & st' & []) Hm HP.
  assert (∀ i rq, qa_sq st !! i = Some rq → rq ∈ qa_sq st ∧ rq ∈ uq_objs q) as Hin.
  { intros i rq Hi. apply list_elem_of_lookup_2 in Hi. split; [done|]. by eapply user_waiting. }
  assert (∀ i rq a, qa_sq st !! i = Some rq → span rq (uq_size q) a → ¬ P a) as Hout.
  { intros i rq a Hi. eapply obj_outside; [exact HP|]. by eapply Hin. }
  assert (∀ i rq, qa_sq st !! i = Some rq →
    Handles q (process (modules (request_ns rq m))) own inv (accepts (request_ns rq m)) (prompt (request_ns rq m)) (post (request_ns rq m))) as Hh.
  { intros i rq Hi. apply (sq_handles _ ud_serves0). apply ud_modules0. by eapply Hin. }
  exists k, st'. split; try done.
  - by eapply user_rel_frame.
  - intros i rq id Hi Hrq Hid. destruct (pg_done0 i rq id Hi Hrq Hid) as [Hcq Hpost]. split; [done|].
    destruct (Hh i rq Hrq) as [_ Hloc]. apply (Hloc P m1 m2 rq Hm); [intros a; by eapply Hout|done].
  - intros i rq Hi Hrq a Ha. rewrite <-(pg_rest0 i rq) by done. apply (Hm a). by eapply Hout.
  - intros rq Hobj Hni a Ha. rewrite <-(pg_other0 rq) by done. apply (Hm a). by eapply obj_outside.
Qed.

Lemma user_done_before m m1 m2 P q st :
  user_ready m q st → modifies P m m1 → (∀ a, P a → ¬ uq_bytes q a) → user_done m1 m2 q st → user_done m m2 q st.
Proof.
  intros Hr Hm HP (k & st' & []). destruct (user_ready_frame m m1 P q st Hr Hm HP) as [_ Hns]. pose proof Hr as [].
  assert (∀ i rq, qa_sq st !! i = Some rq → rq ∈ qa_sq st ∧ rq ∈ uq_objs q) as Hin.
  { intros i rq Hi. apply list_elem_of_lookup_2 in Hi. split; [done|]. by eapply user_waiting. }
  exists k, st'. split; try done.
  - intros i rq id Hi Hrq Hid. rewrite <-Hns by (by eapply Hin). by eapply pg_done0.
  - intros rq Hrq. pose proof (pg_off0 rq Hrq) as Hnp. destruct (Hin k rq Hrq) as [Hs Ho].
    rewrite Hns in Hnp by done. intros Hp. apply Hnp.
    destruct (sq_handles _ ud_serves0 _ (proj1 (ud_modules0 rq Hs))) as [_ Hloc].
    apply (Hloc P m m1 rq Hm); [intros a; by eapply obj_outside|done].
  - intros i rq Hi Hrq a Ha. rewrite (pg_rest0 i rq) by done. apply (Hm a). eapply obj_outside; [exact HP| |done]. by eapply Hin.
  - intros rq Hobj Hni a Ha. rewrite (pg_other0 rq) by done. apply (Hm a). by eapply obj_outside.
Qed.

(** One queue pair of the work queue. *)
Lemma worker_queue_one {B} c m s q st (cont : unit → UM B) (Q : (B + stop) * server → mem → Prop) :
  user_ready m q st → inv (S c) s m →
  (∀ s' m', inv c s' m' → modifies (both (uq_bytes q) own) m m' → user_done m m' q st → wp (cont tt s') Q m') →
  wp ((h ← u_handle (uq_ptr q); qid ← ulift (queue_pair_qid h); s ← u_get;
       qp ← ulift (Server_GetQueuePair (sv_ipc s) qid); h ← u_handle qp;
       qp_depth ← ulift (labstor_queue_pair_GetDepth h);
       r ← worker_requests process fuel (Z.to_nat qp_depth) qp (uq_creds q); cont r) s) Q m.
Proof.
  intros Hr Hi Hcont. pose proof Hr as []. pose proof (sq_heap _ ud_serves0 _ s m Hi) as Hh.
  pose proof (qr_sq _ _ _ _ _ _ (ur_qp _ _ _ ud_rel0)) as Hsq.
  apply (wp_handle _ _ _ _ _ _ Hh). apply wp_ulift_bind, wp_run. eexists _, _.
  split; [by eapply queue_pair_qid_run, qid_ready_rep|]. apply wp_uget, wp_ulift_bind, wp_run. eexists _, _.
  split; [by eapply ud_lookup0|]. apply (wp_handle _ _ _ _ _ _ Hh). apply wp_ulift_bind, wp_run. eexists _, _.
  split; [exact (get_depth_spec _ _ _ _ _ (lr_ring _ _ _ _ _ _ Hsq))|]. rewrite length_fmap, Nat2Z.id.
  apply wp_ubind. eapply wp_mono; [by apply (worker_requests_spec q (length (qa_sq st)) c st s m)|].
  intros [r s'] m' (Hres & Hi' & Hm & Hd). simpl in *. subst r. by apply Hcont.
Qed.

Definition uwq_bytes (wq : labstor_work_queue_secure) (wcap : Z) : Z → Prop :=
  span (wqs_header_ wq) (sizeof_wq_header + sizeof_wq_secure_entry * wcap).

Definition uq_entry (q : user_queue) : Z * Z := (uq_ptr q, uq_creds q).

Lemma worker_queues_spec c wq wcap before qs sts m s :
  wqs_queue_ wq = wqs_header_ wq + sizeof_wq_header →
  vec_rep sizeof_wq_secure_entry rd_secure (wqs_header_ wq) wcap (uq_entry <$> before ++ qs) m →
  Z.of_nat (length (before ++ qs)) < 2 ^ 31 →
  (∀ q a, q ∈ qs → both (uq_bytes q) own a → ¬ uwq_bytes wq wcap a) →
  (∀ i j q q', qs !! i = Some q → qs !! j = Some q' → i ≠ j → uq_apart q q') →
  Forall2 (user_ready m) qs sts → inv (length qs + c) s m →
  wp (worker_queues process fuel (length qs) wq (Z.of_nat (length before)) s)
     (λ r m', r.1 = inl tt ∧ inv c r.2 m' ∧ modifies (λ a, ∃ q, q ∈ qs ∧ both (uq_bytes q) own a) m m' ∧
        Forall2 (user_done m m') qs sts) m.
Proof.
  intros Hwq. revert before sts m s. induction qs as [|q qs IH]; intros before sts m s Hvec Hlen Hwqb Hap Hready Hi.
  { inversion Hready; subst. cbn [worker_queues length]. apply wp_ret. split; [done|]. split; [done|].
    split; [apply modifies_refl|constructor]. }
  inversion Hready as [|? st ? sts0 Hr Hrs]; subst. cbn [worker_queues length].
  rewrite length_app in Hlen. simpl in Hlen.
  apply wp_ulift_bind, wp_run. eexists _, _. split; [apply (wqs_peek_spec _ _ _ _ _ Hvec Hwq); lia|].
  rewrite Nat2Z.id, list_lookup_fmap, list_lookup_middle by done. simpl.
  apply (worker_queue_one (length qs + c) m s q st); [done..|]. intros s1 m1 Hi1 Hm1 Hd1. simpl.
  assert (∀ i q' st', qs !! i = Some q' → sts0 !! i = Some st' → user_ready m q' st') as Hrs'.
  { intros i q' st' Hq' Hst'. by eapply Forall2_lookup_lr. }
  assert (∀ q' a, q' ∈ qs → both (uq_bytes q) own a → ¬ uq_bytes q' a) as Hout.
  { intros q' a [j Hj]%list_elem_of_lookup_1 [Ha|Ha]; [by apply (Hap 0%nat (S j) q q')|].
    destruct (lookup_lt_is_Some_2 sts0 j) as [st' Hst']; [rewrite <-(Forall2_length _ _ _ Hrs); by eapply lookup_lt_Some|].
    by apply (sq_own _ (ud_serves _ _ _ (Hrs' j q' st' Hj Hst'))). }
  assert (∀ a, own a → ¬ uq_bytes q a) as Hownq by (apply (sq_own _ (ud_serves _ _ _ Hr))).
  replace (Z.of_nat (length before) + 1) with (Z.of_nat (length (before ++ [q]))) by (rewrite length_app; simpl; lia).
  eapply wp_mono.
  { apply (IH (before ++ [q]) sts0 m1 s1).
    - rewrite <-app_assoc. eapply (vec_frame sizeof_wq_secure_entry rd_secure); [done|exact Hvec|exact Hm1|].
      intros a. apply Hwqb. set_solver.
    - rewrite !length_app. simpl. lia.
    - intros q' a Hq'. apply Hwqb. set_solver.
    - intros i j q1 q2 Hq1 Hq2 Hne. by apply (Hap (S i) (S j) q1 q2); [..|congruence].
    - apply Forall2_same_length_lookup_2; [by eapply Forall2_length|]. intros i q' st' Hq' Hst'.
      eapply (user_ready_frame m m1); [by eapply Hrs'|exact Hm1|]. intros a. apply Hout. by eapply list_elem_of_lookup_2.
    - done. }
  intros r m2 (Hres & Hi2 & Hm2 & Hall). split; [done|]. split; [done|]. split.
  { eapply modifies_trans; (eapply modifies_weaken; [eassumption|]); simpl.
    - intros a Ha. exists q. split; [set_solver|done].
    - intros a (q' & Hq' & Ha). exists q'. split; [set_solver|done]. }
  constructor.
  - eapply user_done_after; [done|done|exact Hm2|]. intros a (q' & Hq' & [Ha|Ha]) Hb; [|by apply (Hownq a)].
    apply (Hout q' a Hq'); [by left|done].
  - apply Forall2_same_length_lookup_2; [by eapply Forall2_length|]. intros i q' st' Hq' Hst'.
    eapply (user_done_before m m1 m2 (both (uq_bytes q) own)); [by eapply Hrs'|done| |by eapply Forall2_lookup_lr].
    intros a. apply Hout. by eapply list_elem_of_lookup_2.
Qed.

(** What a client of the queue sees: some number of requests from the front of
    the queue are done, and the client that waits for one of them gets it; the
    next one, if there is one, was put off by its module. *)
Definition user_answered (m m' : mem) (q : user_queue) (st : qp_abs) : Prop :=
  ∃ k, (k <= length (qa_sq st))%nat ∧
    labstor_queue_pair_GetDepth (uq_handle q) m' = Ret (Z.of_nat (length (qa_sq st) - k)) m' ∧
    (∀ rq, qa_sq st !! k = Some rq → ¬ prompt (request_ns rq m) rq m) ∧
    ∀ i rq, (i < k)%nat → qa_sq st !! i = Some rq → ∃ id, qa_ids st !! rq = Some id ∧
      wp (labstor_queue_pair_Wait 1 (uq_handle q) (u32 id)) (λ r m2, r = rq ∧ post (request_ns rq m) rq m2) m'.

Lemma user_done_answered m m' q st : user_ready m q st → user_done m m' q st → user_answered m m' q st.
Proof.
  intros [] (k & st' & []). exists k. split; [done|]. split; [|split].
  - pose proof (get_depth_spec _ _ _ _ _ (lr_ring _ _ _ _ _ _ (qr_sq _ _ _ _ _ _ (ur_qp _ _ _ pg_rel0)))) as H.
    rewrite length_fmap, pg_sq0, length_drop in H. exact H.
  - intros rq Hrq. by apply pg_off0.
  - intros i rq Hi Hrq. pose proof (list_elem_of_lookup_2 _ _ _ Hrq) as Hin.
    destruct (sv_pending _ _ ud_servable0 rq Hin) as (id & Hobj & Hid & _). exists id. split; [done|].
    destruct (pg_done0 i rq id Hi Hrq Hid) as [Hcq Hpost]. eapply wp_mono.
    { by apply (qp_wait_spec (uq_handle q) (uq_qid q) (uq_cap q) (uq_objs q) (ul_qp _ ud_layout0) 1 st' m' id rq); [lia|apply pg_rel0|]. }
    intros r m2 (-> & _ & Hm2). split; [done|].
    destruct (sq_handles _ ud_serves0 _ (proj1 (ud_modules0 rq Hin))) as [_ Hloc].
    eapply (Hloc _ m' m2 rq Hm2); [|done]. pose proof (ul_cq _ ud_layout0 rq Hobj) as Ho. revert Ho.
    unfold cq_bytes, rm_span, span, outside. autounfold with layout. simpl. intros. lia.
Qed.

(** A pass over the work queue. *)
Lemma do_work_done wq wcap qs sts m s :
  wqs_queue_ wq = wqs_header_ wq + sizeof_wq_header →
  vec_rep sizeof_wq_secure_entry rd_secure (wqs_header_ wq) wcap (uq_entry <$> qs) m →
  Z.of_nat (length qs) < 2 ^ 31 →
  (∀ q a, q ∈ qs → both (uq_bytes q) own a → ¬ uwq_bytes wq wcap a) →
  (∀ i j q q', qs !! i = Some q → qs !! j = Some q' → i ≠ j → uq_apart q q') →
  Forall2 (user_ready m) qs sts → inv (length qs) s m →
  wp (DoWork process fuel wq s)
     (λ r m', r.1 = inl tt ∧ inv 0 r.2 m' ∧ modifies (λ a, ∃ q, q ∈ qs ∧ both (uq_bytes q) own a) m m' ∧
        Forall2 (user_done m m') qs sts) m.
Proof.
  intros Hwq Hvec Hlen Hwqb Hap Hready Hi. unfold DoWork. apply wp_bind, wp_ulift_bind. pose proof Hvec as [].
  unfold labstor_work_queue_secure_GetDepth. autounfold with layout in *.
  apply wp_load; [apply (valid_sub _ _ _ _ _ vr_valid); simpl; lia|].
  rewrite vr_enq, length_fmap, Nat2Z.id.
  eapply wp_mono; [apply (worker_queues_spec 0 wq wcap [] qs sts m s); rewrite ?Nat.add_0_r; done|].
  intros [r s'] m' (Hr & Hi' & Hm & Hd). simpl in *. subst r. by apply wp_ret.
Qed.

(** C32. One pass of a worker over its work queue, of queue pairs that do not
    overlap and whose waiting requests name modules that exist and accept them,
    when every module keeps the contract [Handles]: given a request it accepts,
    it returns, having completed the request or put it off, and has changed
    nothing but the request, the completions of its queue and memory of its own
    that is no part of the queue pairs (as a module that passes requests on to
    the kernel changes the queue of the kernel and the allocator), with room at
    the start to put off one request of each queue pair.  Then for every queue
    pair the pass completes the requests from the front of the queue up to the
    first that a module puts off (all of them when none is put off) and takes
    them off the queue; a client that waits for the token of a completed
    request gets that request, in the state in which its module left it.  A
    request for a module that does not exist is not covered: it stays on the
    queue after its completion ([unknown_module_blocks]). *)
Theorem do_work_serves wq wcap qs sts m s :
  wqs_queue_ wq = wqs_header_ wq + sizeof_wq_header →
  vec_rep sizeof_wq_secure_entry rd_secure (wqs_header_ wq) wcap (uq_entry <$> qs) m →
  Z.of_nat (length qs) < 2 ^ 31 →
  (∀ q a, q ∈ qs → both (uq_bytes q) own a → ¬ uwq_bytes wq wcap a) →
  (∀ i j q q', qs !! i = Some q → qs !! j = Some q' → i ≠ j → uq_apart q q') →
  Forall2 (user_ready m) qs sts → inv (length qs) s m →
  wp (DoWork process fuel wq s) (λ r m', r.1 = inl tt ∧ inv 0 r.2 m' ∧ Forall2 (user_answered m m') qs sts) m.
Proof.
  intros Hwq Hvec Hlen Hwqb Hap Hready Hi. eapply wp_mono; [by apply (do_work_done wq wcap qs sts m s)|].
  intros [r s'] m' (Hr & Hi' & _ & Hd). split; [done|]. split; [done|].
  apply Forall2_same_length_lookup_2; [by eapply Forall2_length|]. intros i q st Hq Hst.
  apply user_done_answered; by eapply Forall2_lookup_lr.
Qed.
End modules.

(** ** The dummy module is a handler *)

Definition dummy_accepts (rq : Z) (m : mem) : Prop := read 2 (rq + rq_op_) m = DUMMY_GET_VALUE.
Definition dummy_post (rq : Z) (m : mem) : Prop := read 4 (rq + drq_value_) m = 5543.

#[export] Instance dummy_handles fuel q own inv :
  (0 < fuel)%nat → user_layout q → 20 <= uq_size q →
  (∀ c s m, inv c s m → si_heap (sv_ipc s) !! uq_ptr q = Some (uq_handle q)) → (∀ a, own a → ¬ uq_bytes q a) →
  (∀ c s P m m', inv c s m → modifies P m m' → (∀ a, P a → ¬ own a) → inv c s m') →
  Handles q (Dummy_ProcessRequest fuel) own inv dummy_accepts (λ _ _, True) dummy_post.
Proof.
  intros Hf Hl Hsz Hheap Hown Hframe. split.
  - intros c st s m rq id Hrel Hp Hi Hacc. pose proof Hp as (Hobj & _). pose proof (ur_valid _ _ _ Hrel _ Hobj) as Hv.
    unfold Dummy_ProcessRequest. apply wp_ulift_bind, wp_load.
    { apply (valid_sub _ _ _ _ _ Hv); autounfold with layout; simpl; lia. }
    unfold dummy_accepts in Hacc. rewrite Hacc. simpl. apply wp_ulift_bind. unfold dummy_request_Complete, drq_value_.
    apply wp_store; [apply (valid_sub _ _ _ _ _ Hv); simpl; lia|].
    set (m1 := write 4 (rq + 16) _ m).
    assert (modifies (span (rq + 16) 4) m m1) as Hm1.
    { apply modifies_write; [apply (valid_sub _ _ _ _ _ Hv); simpl; lia|unfold span; simpl; lia]. }
    assert (user_rel q st m1) as Hrel1 by (eapply (user_write q Hl st m rq); [done|done|exact Hm1|unfold span; lia]).
    apply (wp_handle _ _ _ _ _ _ (Hheap _ s m Hi)). apply wp_ulift_bind.
    eapply wp_mono; [by eapply (user_complete q Hl fuel st m1 rq id)|]. intros _ m2 (Hrel2 & Hm2).
    apply wp_ret. cbn [fst snd].
    assert (modifies (rq_bytes q rq) m m2) as Hm.
    { eapply modifies_trans; (eapply modifies_weaken; [eassumption|]); [|by left].
      intros a Ha. right. unfold span in *. lia. }
    split; [eapply modifies_weaken; [exact Hm|by left]|]. left. split; [done|]. split.
    { eapply Hframe; [exact Hi|exact Hm|]. intros a Ha Ho. by apply (Hown a Ho), (rq_bytes_uq q rq). }
    split; [done|]. unfold dummy_post, drq_value_.
    rewrite (read_modifies _ _ _ _ _ Hm2); [unfold m1; mem_simpl; done|].
    pose proof (ul_cq _ Hl rq Hobj) as Ho. revert Ho. unfold cq_bytes, rm_span, span, outside. autounfold with layout. simpl.
    intros. lia.
  - intros P m m' rq Hm HP. unfold dummy_accepts, dummy_post, drq_value_.
    assert (∀ o n, 0 <= o → o + Z.of_nat n <= 20 → read n (rq + o) m' = read n (rq + o) m) as Hrd.
    { intros o n Ho Hn. eapply read_modifies; [exact Hm|]. intros a Ha. apply HP. unfold span. lia. }
    autounfold with layout. rewrite !Hrd by (simpl; lia). done.
Qed.

(** ** A pass over one queue with two requests *)

Definition uw_qid : labstor_qid_t := {| qid_flags_ := 0; qid_type_ := 0; qid_cnt_ := 0; qid_pid_ := 77 |}.
Definition uw_handle : labstor_queue_pair := queue_pair_at 4096 4096 4160.
Definition uw_objs : gset Z := {[8192; 8256]}.
Definition uw_wq : labstor_work_queue_secure := labstor_work_queue_secure_Attach 5000.

Definition uw_queue : user_queue :=
  {| uq_ptr := 700; uq_creds := 900; uq_handle := uw_handle; uq_qid := uw_qid; uq_cap := 2; uq_objs := uw_objs; uq_size := 20 |}.

(** A queue pair of depth 2 with requests for the module of namespace id 1, and
    the work queue with its entry. *)
Definition uw_run : outcome unit :=
  (_ ← labstor_queue_pair_Init Userspace (queue_pair_at 0 0 0) uw_qid 4096 2 4096 32 4160 12;
   _ ← store32 (8192 + rq_ns_id_) 1; _ ← store16 (8192 + rq_op_) DUMMY_GET_VALUE;
   _ ← store32 (8256 + rq_ns_id_) 1; _ ← store16 (8256 + rq_op_) DUMMY_GET_VALUE;
   _ ← qp_run 1 uw_handle [QEnqueue 8192; QEnqueue 8256];
   r ← labstor_work_queue_secure_Init Userspace (labstor_work_queue_secure_Attach 0) 5000 44 2;
   _ ← labstor_work_queue_secure_Enqueue r.1 700 900; mret tt)
  (zero_region 4096 32 ∪ (zero_region 4160 12 ∪ (zero_region 8192 20 ∪ (zero_region 8256 20 ∪ zero_region 5000 44)))).

Definition uw_mem : mem := match uw_run with Ret _ m => m | _ => ∅ end.

Definition uw_state : qp_abs :=
  {| qa_enq := 2; qa_sq := [8192; 8256]; qa_ids := {[8192 := 0; 8256 := 1]}; qa_out := {[0; 1]}; qa_cq := ∅ |}.

Definition uw_server : server :=
  {| sv_ipc := {| si_pid_ := 1;
                  si_ipcs := {[9000 := {| ipc_pool := default QueuePool_new
                                            (QueuePool_RegisterQueuePair QueuePool_new {| qpr_ptr := 700; qpr_qid := uw_qid |});
                                          ipc_mem := MemoryManager_unset; ipc_pid_ := 77 |}]};
                  si_pid_to_ipc_ := {[77 := 9000]}; si_heap := {[700 := uw_handle]}; si_workers := [Some uw_wq] |};
     sv_namespace := {| ns_ids_ := {| mr_header_ := 0; mr_queue_ := 0 |};
                        key_to_ns_id_ := {| um_header_ := 0; um_base_region_ := 0; um_num_buckets_ := 0; um_buckets_ := 0; um_bitmap_ := 0 |}; private_state_ := [0; 6000];
                        module_id_to_instance_ := ∅ |};
     sv_shmem_alloc_ := {| sm_base_region_ := 0; sm_concurrency_ := 0; sm_region_size_ := 0; sm_header_ := 0;
                           sm_per_core_allocs_ := [] |};
     sv_modules := ModuleManager_new; sv_module_id_ := {[6000 := [68]]}; sv_dev_id_ := ∅ |}.

(** The module at 6000 is the dummy module. *)
Definition uw_process (module qp rq creds : Z) : UM bool := Dummy_ProcessRequest 1 qp rq creds.
Definition uw_modules (ns : Z) : Z := if ns =? 1 then 6000 else 0.

Ltac uw_cases H := apply elem_of_union in H as [H%elem_of_singleton|H%elem_of_singleton]; subst.

Lemma uw_layout : user_layout uw_queue.
Proof.
  split; simpl; unfold outside, uw_objs.
  - split; simpl; unfold near, outside; try (intros rq Hrq; uw_cases Hrq); try lia.
    intros p q Hp Hq. uw_cases Hp; uw_cases Hq; lia.
  - reflexivity.
  - lia.
  - intros rq Hrq. uw_cases Hrq; lia.
  - intros rq Hrq. uw_cases Hrq; lia.
  - intros p q Hp Hq. uw_cases Hp; uw_cases Hq; lia.
Qed.

Lemma uw_rel : user_rel uw_queue uw_state uw_mem.
Proof.
  split; simpl.
  - split; simpl.
    + split; [reflexivity|apply (validb_valid _ 4096 12); vm_compute; reflexivity|vm_compute; reflexivity| |].
      * split.
        -- reflexivity.
        -- apply (validb_valid _ 4108 20). vm_compute. reflexivity.
        -- lia.
        -- simpl. lia.
        -- vm_compute. reflexivity.
        -- vm_compute. reflexivity.
        -- vm_compute. reflexivity.
        -- intros [|[|i]] x Hi; [..|done]; injection Hi as <-; vm_compute; reflexivity.
      * repeat constructor; unfold near; simpl; lia.
    + lia.
    + exists ∅. split; [|split; intros ?? H; by rewrite lookup_empty in H].
      split.
      * reflexivity.
      * apply (validb_valid _ 4160 12). vm_compute. reflexivity.
      * lia.
      * vm_compute. reflexivity.
      * intros b Hb. assert (b = 0 ∨ b = 1) as [->| ->] by lia; vm_compute; reflexivity.
      * intros b p H. by rewrite lookup_empty in H.
    + intros rq Hrq. uw_cases Hrq; [apply (validb_valid _ 8192 4)|apply (validb_valid _ 8256 4)]; vm_compute; reflexivity.
    + intros rq id [[<- <-]|[_ [<- <-]%lookup_singleton_Some]]%lookup_insert_Some; (split; [set_solver|vm_compute; reflexivity]).
    + intros id Hid. uw_cases Hid; lia.
    + set_solver.
    + right. lia.
  - intros rq Hrq. uw_cases Hrq; [apply (validb_valid _ 8192 20)|apply (validb_valid _ 8256 20)]; vm_compute; reflexivity.
Qed.

(** ** Limits *)

(** A request for a module that does not exist is completed but stays at the
    head of the queue, so that the next round completes it again: when the
    client has not taken the first completion by then, the worker waits for
    room in the completion map and the rest of the work queue with it.  Here
    it does not get any further in 1000 tries. *)
Lemma unknown_module_blocks :
  match DoWork uw_process 1000 uw_wq uw_server (write 4 (8192 + rq_ns_id_) 0 uw_mem) with
  | Spin m' => labstor_queue_pair_GetDepth uw_handle m' = Ret 2 m' ∧
      wp (labstor_queue_pair_IsComplete uw_handle 1) (λ r _, r = None) m'
  | _ => False
  end.
Proof. vm_compute. done. Qed.

(** The dummy module reports a request with any other operation as complete,
    and does not complete it: the worker drops it. *)
Lemma dummy_drops_initialize :
  wp (DoWork uw_process 2 uw_wq uw_server) (λ r m', r.1 = inl tt ∧ labstor_queue_pair_GetDepth uw_handle m' = Ret 0 m' ∧
      wp (labstor_queue_pair_IsComplete uw_handle 0) (λ r _, r = None) m')
     (write 2 (8192 + rq_op_) 0 uw_mem).
Proof. vm_compute. done. Qed.
