(* ===== verification/ServerModules.v ===== *)
(** * ServerModules.v: modules of the userspace server that work through the kernel

    labmods/ipc_test/server/ipc_test_server.cpp,
    labmods/blkdev_table/server/blkdev_table_server.cpp and
    labmods/mq_driver/server/mq_driver_server.cpp.  Each of them passes the
    request of a client on to the kernel module of the same name: it allocates
    a request in the memory shared with the kernel, puts it on a queue of the
    kernel and keeps the token in the request of the client; the code of that
    request is the phase it has reached.  A later visit of the worker finds
    the answer, copies it, and completes the request of the client. *)

From S2P Require Import Prelude Memory RingBuffer RequestQueue QueuePair WorkQueue QueuePool MpmcRing Allocators AllocatorSpec IpcManager.
From S2P Require Import Kernel KernelWorker MqDriver ShmemString Namespace ModuleTable UserWorker.

Local Open Scope Z_scope.

(** ** Tokens in requests *)

(** [struct labstor_qtok_t], 12 bytes. *)
Definition store_qtok (p : Z) (tok : labstor_qtok_t) : M unit :=
  _ ← store_qid p (qtok_qid_ tok); store32 (p + 8) (qtok_req_id_ tok).

Definition load_qtok (p : Z) : M labstor_qtok_t :=
  qid ← load_qid p; req_id ← load32 (p + 8); mret {| qtok_qid_ := qid; qtok_req_id_ := req_id |}.

(** ** Layouts *)

(** [ipc_test_request], 32 bytes. *)
Definition itr_kern_qtok_ : Z := 16.
Definition itr_nonce_ : Z := 28.
Definition sizeof_ipc_test_request : Z := 32.

(** [blkdev_table_register_request]: the path follows. *)
Definition btr_kern_qtok_ : Z := 16.
Definition btr_pathlen_ : Z := 28.
Definition btr_dev_id_ : Z := 32.
Definition btr_path_ : Z := 36.
Definition sizeof_blkdev_table_register_request : Z := 36.

(** [labstor::MQDriver::io_request], 88 bytes; the members up to [pid_] are
    where the kernel has them. *)
Definition mqu_kern_qtok_ : Z := 68.
Definition mqu_kern_rq_ : Z := 80.
Definition sizeof_mqu_request : Z := 88.

(** [labstor::GenericQueue::stats_request]. *)
Definition sizeof_stats_request : Z := 28.

(** [labstor::MQDriver::register_request]: the two ids of the request of the
    registrar come before [dev_id_]. *)
Definition mqreg_dev_id_ : Z := 16 + 2 * Z.of_nat MODULE_KEY_SIZE.

#[export] Hint Unfold itr_kern_qtok_ itr_nonce_ btr_kern_qtok_ btr_pathlen_ btr_dev_id_ btr_path_ mqu_kern_qtok_ mqu_kern_rq_ : layout.

(** ** Messages *)

Definition KSTART_IPC_TEST : Z := 0.

Definition IPCKernelStart (rq ns_id : Z) : M unit :=
  _ ← store32 (rq + rq_ns_id_) (u32 ns_id); store16 (rq + rq_op_) KSTART_IPC_TEST.

Definition ipc_test_Copy (rq old : Z) : M unit :=
  code ← load32 (old + rq_code_);
  _ ← store32 (rq + rq_code_) code;
  nonce ← load32 (old + itr_nonce_);
  store32 (rq + itr_nonce_) nonce.

Definition KREGISTER_BDEV : Z := 2.

(** [memcpy] with a length of type [int]; a negative one is larger than any
    region. *)
Definition memcpy_int (dst src len : Z) : M unit :=
  if len <? 0 then fault else l ← load_bytes src (Z.to_nat len); store_bytes dst l.

Definition blkdev_ServerStart (rq ns_id client : Z) : M unit :=
  _ ← store32 (rq + rq_ns_id_) (u32 ns_id);
  op ← load16 (client + rq_op_);
  _ ← store16 (rq + rq_op_) op;
  pathlen ← load_s32 (client + btr_pathlen_);
  _ ← store_s32 (rq + btr_pathlen_) pathlen;
  _ ← memcpy_int (rq + btr_path_) (client + btr_path_) pathlen;
  store8 (rq + btr_path_ + pathlen) 0.

Definition blkdev_Copy (rq old : Z) : M unit :=
  code ← load32 (old + rq_code_);
  _ ← store32 (rq + rq_code_) code;
  dev_id ← load32 (old + btr_dev_id_);
  store32 (rq + btr_dev_id_) dev_id.

Definition IOStart (rq ns_id pid op dev_id user_buf buf_size sector hctx : Z) : M unit :=
  _ ← store32 (rq + rq_ns_id_) (u32 ns_id);
  _ ← store16 (rq + rq_op_) (u16 op);
  _ ← store32 (rq + mqr_pid_) pid;
  _ ← store32 (rq + mqr_dev_id_) dev_id;
  _ ← store64 (rq + mqr_user_buf_) user_buf;
  _ ← store64 (rq + mqr_buf_size_) buf_size;
  _ ← store64 (rq + mqr_sector_) sector;
  _ ← store32 (rq + mqr_hctx_) hctx;
  _ ← store32 (rq + mqu_flags_) 0;
  store32 (rq + rq_code_) 0.

Definition IOKernelStart (rq ns_id client : Z) : M unit :=
  pid ← load32 (client + mqr_pid_);
  op ← load16 (client + rq_op_);
  dev_id ← load32 (client + mqr_dev_id_);
  user_buf ← load64 (client + mqr_user_buf_);
  buf_size ← load64 (client + mqr_buf_size_);
  sector ← load64 (client + mqr_sector_);
  hctx ← load32 (client + mqr_hctx_);
  IOStart rq ns_id pid op dev_id user_buf buf_size sector hctx.

Definition PollStart (rq : Z) : M unit := store16 (rq + rq_op_) LABSTOR_MQ_POLL_COMPLETION.

Definition PollingEnabled (rq : Z) : M bool :=
  flags ← load32 (rq + mqu_flags_); mret (negb (Z.land flags LABSTOR_MQ_POLLED_IO =? 0)).

Definition IOIsComplete (rq : Z) : M bool :=
  flags ← load32 (rq + mqu_flags_); mret (negb (Z.land flags LABSTOR_MQ_IO_IS_COMPLETE =? 0)).

(** [stats_request::Start] sets neither the module nor the operation. *)
Definition stats_Start (rq ns_id dev_id : Z) : M unit := store32 (rq + qsr_dev_id_) dev_id.

Definition stats_Copy (rq old : Z) : M unit :=
  n ← load32 (old + qsr_num_hw_queues_);
  _ ← store32 (rq + qsr_num_hw_queues_) n;
  d ← load32 (old + qsr_queue_depth_);
  store32 (rq + qsr_queue_depth_) d.

(** ** What the modules share *)

(** [tid]: the id of the thread of the worker. *)
Section server_modules.
Context (fuel : nat) (tid : Z).

(** [GetQueuePairByPid(kern_qp, KERNEL_FLAGS, KERNEL_PID)]. *)
Definition kernel_queue : UM Z :=
  s ← u_get; ulift (Server_GetQueuePairByPid (sv_ipc s) tid KERNEL_FLAGS KERNEL_PID).

(** [ipc_manager_->AllocRequest(qp)]: the request goes where the queue is. *)
Definition alloc_request (qp size : Z) : UM Z :=
  s ← u_get; h ← u_handle qp; qid ← ulift (queue_pair_qid h); ulift (Server_AllocRequest (sv_ipc s) tid qid size).

Definition free_request (qp rq : Z) : UM unit :=
  s ← u_get; h ← u_handle qp; qid ← ulift (queue_pair_qid h); ulift (Server_FreeRequest fuel (sv_ipc s) qid rq).

(** [qp->Enqueue(rq, *tok_ptr)]. *)
Definition enqueue_to (qp rq tok_ptr : Z) : UM unit :=
  h ← u_handle qp; tok ← ulift (labstor_queue_pair_Enqueue fuel h rq); ulift (store_qtok tok_ptr tok).

(** [GetQueuePair(qp, tok); qp->IsComplete(tok, rq)]. *)
Definition kernel_answer (tok_ptr : Z) : UM (Z * option Z) :=
  tok ← ulift (load_qtok tok_ptr);
  s ← u_get;
  qp ← ulift (Server_GetQueuePair (sv_ipc s) (qtok_qid_ tok));
  h ← u_handle qp;
  r ← ulift (labstor_queue_pair_IsComplete h (qtok_req_id_ tok));
  mret (qp, r).

Definition complete_request (qp rq : Z) : UM unit := h ← u_handle qp; ulift (queue_pair_Complete fuel h rq).

(** ** ipc_test_server.cpp *)

Definition IPCTest_IPC (qp client_rq : Z) : UM bool :=
  code ← ulift (load32 (client_rq + rq_code_));
  if code =? 0 then
    kern_qp ← kernel_queue;
    kern_rq ← alloc_request kern_qp sizeof_ipc_test_request;
    _ ← ulift (IPCKernelStart kern_rq IPC_TEST_MODULE_RUNTIME_ID);
    _ ← enqueue_to kern_qp kern_rq (client_rq + itr_kern_qtok_);
    _ ← ulift (store32 (client_rq + rq_code_) 1);
    mret false
  else if code =? 1 then
    '(kern_qp, r) ← kernel_answer (client_rq + itr_kern_qtok_);
    match r with
    | None => mret false
    | Some kern_rq =>
        _ ← ulift (ipc_test_Copy client_rq kern_rq);
        _ ← complete_request qp client_rq;
        _ ← free_request kern_qp kern_rq;
        mret true
    end
  else mret true.

Definition IPCTest_ProcessRequest (qp rq creds : Z) : UM bool :=
  op ← ulift (load16 (rq + rq_op_));
  if op =? KSTART_IPC_TEST then IPCTest_IPC qp rq else mret true.

(** ** blkdev_table_server.cpp *)

(** [dev_ids]: the ring buffer of ids that are not used.  When it is empty the
    id of the request stays what the memory held. *)
Definition BlkdevTable_RegisterBlkdev (dev_ids : ring_buffer) (qp client_rq : Z) : UM bool :=
  code ← ulift (load32 (client_rq + rq_code_));
  if code =? 0 then
    kern_qp ← kernel_queue;
    kern_rq ← alloc_request kern_qp sizeof_blkdev_table_register_request;
    _ ← ulift (blkdev_ServerStart kern_rq BLKDEV_TABLE_RUNTIME_ID client_rq);
    dev_id ← ulift (ring_buffer_Dequeue 4 dev_ids);
    _ ← match dev_id with Some id => ulift (store32 (kern_rq + btr_dev_id_) id) | None => mret tt end;
    _ ← enqueue_to kern_qp kern_rq (client_rq + btr_kern_qtok_);
    _ ← ulift (store32 (client_rq + rq_code_) 1);
    mret false
  else if code =? 1 then
    '(kern_qp, r) ← kernel_answer (client_rq + btr_kern_qtok_);
    match r with
    | None => mret false
    | Some kern_rq =>
        _ ← ulift (blkdev_Copy client_rq kern_rq);
        _ ← complete_request qp client_rq;
        _ ← free_request kern_qp kern_rq;
        mret true
    end
  else mret true.

Definition BlkdevTable_ProcessRequest (dev_ids : ring_buffer) (qp rq creds : Z) : UM bool :=
  op ← ulift (load16 (rq + rq_op_));
  if op =? KREGISTER_BDEV then BlkdevTable_RegisterBlkdev dev_ids qp rq else mret false.

(** ** mq_driver_server.cpp *)

Definition MQDriver_Initialize (this qp request : Z) : UM bool :=
  dev_id ← ulift (load_s32 (request + mqreg_dev_id_));
  s ← u_get;
  _ ← u_put (with_dev_id s this dev_id);
  mret true.

Definition MQDriver_IO (qp client_rq : Z) : UM bool :=
  code ← ulift (load32 (client_rq + rq_code_));
  if code =? 0 then
    kern_qp ← kernel_queue;
    kern_rq ← alloc_request kern_qp sizeof_mqu_request;
    _ ← ulift (IOKernelStart kern_rq MQ_DRIVER_RUNTIME_ID client_rq);
    _ ← enqueue_to kern_qp kern_rq (client_rq + mqu_kern_qtok_);
    _ ← ulift (store32 (client_rq + rq_code_) 1);
    mret false
  else if code =? 1 then
    '(kern_qp, r) ← kernel_answer (client_rq + mqu_kern_qtok_);
    match r with
    | None => mret false
    | Some kern_rq =>
        polled ← ulift (PollingEnabled kern_rq);
        if polled : bool then
          _ ← ulift (PollStart kern_rq);
          _ ← enqueue_to kern_qp kern_rq (client_rq + mqu_kern_qtok_);
          _ ← ulift (store32 (client_rq + rq_code_) 2);
          mret false
        else
          _ ← ulift (store64 (client_rq + mqu_kern_rq_) kern_rq);
          _ ← ulift (store32 (client_rq + rq_code_) 3);
          mret false
    end
  else if code =? 2 then
    '(kern_qp, r) ← kernel_answer (client_rq + mqu_kern_qtok_);
    match r with
    | None => mret false
    | Some kern_rq =>
        complete ← ulift (IOIsComplete kern_rq);
        if negb (complete : bool) then
          _ ← enqueue_to kern_qp kern_rq (client_rq + mqu_kern_qtok_);
          mret false
        else
          _ ← complete_request qp client_rq;
          _ ← free_request kern_qp kern_rq;
          mret true
    end
  else if code =? 3 then
    tok ← ulift (load_qtok (client_rq + mqu_kern_qtok_));
    s ← u_get;
    kern_qp ← ulift (Server_GetQueuePair (sv_ipc s) (qtok_qid_ tok));
    kern_rq ← ulift (load64 (client_rq + mqu_kern_rq_));
    complete ← ulift (IOIsComplete kern_rq);
    if negb (complete : bool) then mret false
    else
      _ ← complete_request qp client_rq;
      _ ← free_request kern_qp kern_rq;
      mret true
  else mret true.

Definition MQDriver_GetStatistics (this qp client_rq : Z) : UM bool :=
  kern_qp ← kernel_queue;
  kern_rq ← alloc_request kern_qp sizeof_stats_request;
  s ← u_get;
  _ ← ulift (stats_Start kern_rq MQ_DRIVER_RUNTIME_ID (u32 (default 0 (sv_dev_id_ s !! this))));
  h ← u_handle kern_qp;
  qtok ← ulift (labstor_queue_pair_Enqueue fuel h kern_rq);
  _ ← ulift (labstor_queue_pair_Wait fuel h (qtok_req_id_ qtok));
  _ ← ulift (stats_Copy client_rq kern_rq);
  _ ← complete_request qp client_rq;
  _ ← free_request kern_qp kern_rq;
  mret true.

Definition MQDriver_ProcessRequest (this qp rq creds : Z) : UM bool :=
  op ← ulift (load16 (rq + rq_op_));
  if op =? 0 then MQDriver_Initialize this qp rq
  else if (op =? LABSTOR_MQ_DRIVER_WRITE) || (op =? LABSTOR_MQ_DRIVER_READ) then MQDriver_IO qp rq
  else if op =? LABSTOR_MQ_NUM_HW_QUEUES then MQDriver_GetStatistics this qp rq
  else mret true.
End server_modules.

(** ** Reasoning about the relay *)

Definition qtok_at (p : Z) (m : mem) : labstor_qtok_t := {| qtok_qid_ := qid_at p m; qtok_req_id_ := read 4 (p + 8) m |}.

Lemma wp_store_qtok p tok m :
  valid m p 12 → qid_in_range (qtok_qid_ tok) → 0 <= qtok_req_id_ tok < 2 ^ 32 →
  wp (store_qtok p tok) (λ _ m', qtok_at p m' = tok ∧ modifies (span p 12) m m') m.
Proof.
  intros Hv Hq Hr. unfold store_qtok. apply wp_bind.
  eapply wp_mono; [apply wp_store_qid; [by apply (valid_sub _ _ _ _ _ Hv); lia|done]|]. intros _ m1 (Hq1 & Hm1).
  assert (valid m1 (p + 8) 4) as Hv1 by (eapply valid_modifies; [exact Hm1|apply (valid_sub _ _ _ _ _ Hv); lia]).
  apply wp_store; [done|].
  assert (modifies (span (p + 8) 4) m1 (write 4 (p + 8) (qtok_req_id_ tok) m1)) as Hm2
    by (apply modifies_write; [done|unfold span; simpl; lia]).
  split.
  - unfold qtok_at. rewrite (qid_at_modifies _ _ _ _ Hm2) by (unfold span; lia). rewrite Hq1, read32_write, u32_small by done.
    by destruct tok.
  - eapply modifies_trans; (eapply modifies_weaken; [eassumption|]); unfold span; lia.
Qed.

Lemma wp_load_qtok p (Q : labstor_qtok_t → mem → Prop) m : valid m p 12 → Q (qtok_at p m) m → wp (load_qtok p) Q m.
Proof.
  intros Hv HQ. unfold load_qtok. apply wp_bind, wp_load_qid; [by apply (valid_sub _ _ _ _ _ Hv); lia|].
  apply wp_bind, wp_load; [by apply (valid_sub _ _ _ _ _ Hv); lia|]. by apply wp_ret.
Qed.

Lemma qtok_at_modifies P p m m' :
  modifies P m m' → (∀ a, p <= a < p + 12 → ¬ P a) → qtok_at p m' = qtok_at p m.
Proof.
  intros Hm HP. unfold qtok_at. rewrite (qid_at_modifies P p m m'), (read_modifies P m m' 4 (p + 8)); try done;
    intros a Ha; apply HP; lia.
Qed.

(** The state after the request [rq] was put on the queue. *)
Definition enqueued (st : qp_abs) (rq : Z) : qp_abs :=
  {| qa_enq := qa_enq st + 1; qa_sq := qa_sq st ++ [rq]; qa_ids := <[rq := qa_enq st]> (qa_ids st);
     qa_out := {[qa_enq st]} ∪ qa_out st; qa_cq := qa_cq st |}.

(** There is room for one more request: a place in the ring, and no token so
    old that its bucket would be used again. *)
Definition has_room (cap : Z) (st : qp_abs) : Prop :=
  Z.of_nat (length (qa_sq st)) < cap ∧ set_Forall (λ id, qa_enq st < id + cap) (qa_out st) ∧ ids_ok cap (qa_enq st + 1) = true.

Section relay.
Context (fuel : nat) (tid : Z) (s : server) (q kq : user_queue) (sh : shm).

(** The server with a client's queue [q], the kernel's queue [kq], and the
    allocator [sh] of the memory shared with the kernel. *)
Record relay_env : Prop := {
  re_fuel : (0 < fuel)%nat;
  re_tid : 0 <= tid < 2 ^ 32;
  re_heap : si_heap (sv_ipc s) !! uq_ptr q = Some (uq_handle q);
  re_kheap : si_heap (sv_ipc s) !! uq_ptr kq = Some (uq_handle kq);
  re_kernel : ∀ m, Server_GetQueuePairByPid (sv_ipc s) tid KERNEL_FLAGS KERNEL_PID m = Ret (uq_ptr kq) m;
  re_lookup : ∀ m, Server_GetQueuePair (sv_ipc s) (uq_qid kq) m = Ret (uq_ptr kq) m;
  re_alloc : ∃ p ipc, si_pid_to_ipc_ (sv_ipc s) !! u32 (qid_pid_ (uq_qid kq)) = Some p ∧ si_ipcs (sv_ipc s) !! p = Some ipc ∧
    mm_shmem_alloc_ (ipc_mem ipc) = Some (sh_alloc sh);
  re_shmem : LABSTOR_QP_IS_SHMEM (qid_flags_ (uq_qid kq)) = true;
  re_qid : qid_in_range (uq_qid kq);
  re_layout : user_layout q;
  re_klayout : user_layout kq;
  re_size : 32 <= uq_size q;
  re_ksize : 32 <= uq_size kq;
  re_unit : uq_size kq = ga_size sh;
  re_apart : ∀ a, uq_bytes kq a → ¬ uq_bytes q a;
  re_own : ∀ a, shm_own sh a → ¬ uq_bytes q a ∧ ¬ sq_bytes (uq_handle kq) (uq_cap kq) a ∧ ¬ cq_bytes (uq_handle kq) (uq_cap kq) a
}.
Hypothesis Henv : relay_env.

(** Both queues, and the allocator, whose objects are the requests of the
    kernel's queue. *)
Record relay_rel (st kst : qp_abs) (n : nat) (free live : list Z) (m : mem) : Prop := {
  rl_q : user_rel q st m;
  rl_kq : user_rel kq kst m;
  rl_alloc : ga_rep sh n free live m;
  rl_objs : ∀ p, p ∈ uq_objs kq ↔ p ∈ free ++ live
}.

(** What the allocator changes is no part of the queues and the requests. *)
Lemma alloc_frame st kst n free live n' free' live' m m' :
  relay_rel st kst n free live m → free' ++ live' ≡ₚ free ++ live → ga_rep sh n' free' live' m' →
  modifies (bookkeeping (ga_own sh) (ga_size sh) (free ++ live)) m m' → relay_rel st kst n' free' live' m'.
Proof.
  intros [] Hperm Ha Hm.
  assert (∀ a, bookkeeping (ga_own sh) (ga_size sh) (free ++ live) a → ¬ uq_bytes q a ∧ ¬ uq_bytes kq a) as Hout.
  { intros a [Ho Hno]. destruct (re_own Henv a Ho) as (H1 & H2 & H3). split; [done|]. intros [Hs|[Hc|(p & Hp & Hx)]]; [done|done|].
    apply (Hno p); [by apply rl_objs0|]. rewrite <-(re_unit Henv). exact Hx. }
  split.
  - eapply user_rel_frame; [apply Henv|done|exact Hm|]. intros a. apply Hout.
  - eapply user_rel_frame; [apply Henv|done|exact Hm|]. intros a. apply Hout.
  - done.
  - intros p. by rewrite Hperm.
Qed.

Lemma run_alloc_of ipc :
  mm_shmem_alloc_ (ipc_mem ipc) = Some (sh_alloc sh) → ∀ m,
  alloc_of (ipc_mem ipc) (qid_flags_ (uq_qid kq)) m = Ret (sh_alloc sh) m.
Proof. intros Hal m. unfold alloc_of. rewrite (re_shmem Henv), Hal. done. Qed.

Lemma run_ipc_of_kernel p ipc m :
  si_pid_to_ipc_ (sv_ipc s) !! u32 (qid_pid_ (uq_qid kq)) = Some p → si_ipcs (sv_ipc s) !! p = Some ipc →
  ipc_of_pid (sv_ipc s) (LABSTOR_GET_QP_IPC_ID (uq_qid kq)) m = Ret (p, ipc) m.
Proof. intros H1 H2. unfold ipc_of_pid, LABSTOR_GET_QP_IPC_ID. rewrite H1. unfold mbind, M_bind. simpl. by rewrite H2. Qed.

Lemma run_kernel_qid kst m : user_rel kq kst m → queue_pair_qid (uq_handle kq) m = Ret (uq_qid kq) m.
Proof. intros Hr. eapply queue_pair_qid_run, qid_ready_rep, (qr_sq _ _ _ _ _ _ (ur_qp _ _ _ Hr)). Qed.

Lemma alloc_request_spec st kst n free live m size :
  relay_rel st kst n free live m → free ≠ [] →
  wp (alloc_request tid (uq_ptr kq) size s)
     (λ r m', r.2 = s ∧ ∃ p free', r.1 = inl p ∧ free ≡ₚ p :: free' ∧ relay_rel st kst n free' (p :: live) m' ∧
        modifies (bookkeeping (ga_own sh) (ga_size sh) (free ++ live)) m m') m.
Proof.
  intros Hr Hne. pose proof Hr as []. destruct (re_alloc Henv) as (p & ipc & H1 & H2 & Hal).
  unfold alloc_request. apply wp_uget, (wp_handle _ _ _ _ _ _ (re_kheap Henv)), wp_ulift_bind, wp_run.
  eexists _, _. split; [by eapply run_kernel_qid|]. apply wp_ulift. unfold Server_AllocRequest.
  eapply wp_bind_run; [by apply run_ipc_of_kernel|]. unfold MemoryManager_AllocRequest.
  eapply wp_bind_run; [by apply run_alloc_of|]. rewrite u32_small by apply (re_tid Henv).
  eapply wp_mono; [exact (ga_alloc_spec sh n free live m size tid rl_alloc0 (re_tid Henv))|].
  intros r m' [Hm [(_ & Hnil & _)|(free' & _ & Hperm & Ha)]]; [done|]. split; [done|]. exists r, free'.
  split; [done|]. split; [done|]. split; [|done]. eapply alloc_frame; try done. rewrite Hperm. symmetry. apply Permutation_middle.
Qed.

Lemma free_request_spec st kst n free live live' m p :
  relay_rel st kst (S n) free live m → live ≡ₚ p :: live' →
  wp (free_request fuel (uq_ptr kq) p s)
     (λ r m', r = (inl tt, s) ∧ ∃ free', free' ≡ₚ p :: free ∧ relay_rel st kst n free' live' m' ∧
        modifies (bookkeeping (ga_own sh) (ga_size sh) (free ++ live)) m m') m.
Proof.
  intros Hr Hl. pose proof Hr as []. destruct (re_alloc Henv) as (x & ipc & H1 & H2 & Hal).
  unfold free_request. apply wp_uget, (wp_handle _ _ _ _ _ _ (re_kheap Henv)), wp_ulift_bind, wp_run.
  eexists _, _. split; [by eapply run_kernel_qid|]. apply wp_ulift. unfold Server_FreeRequest.
  eapply wp_bind_run; [by apply run_ipc_of_kernel|]. unfold MemoryManager_FreeRequest.
  eapply wp_bind_run; [by apply run_alloc_of|]. apply shm_free_fuel; [apply Henv|].
  eapply wp_mono; [exact (ga_free_spec sh n free live live' m p rl_alloc0 Hl)|].
  intros [] m' [Hm (free' & Hperm & Ha)]. split; [done|]. exists free'. split; [done|]. split; [|done].
  eapply alloc_frame; try done. rewrite Hperm, Hl. simpl. apply Permutation_middle.
Qed.

(** Writing to a request of the client or of the kernel. *)
Lemma relay_write st kst n free live m m' P :
  relay_rel st kst n free live m → modifies P m m' →
  (∃ rq, rq ∈ uq_objs q ∧ ∀ a, P a → rq + 4 <= a < rq + uq_size q) ∨
  (∃ p, p ∈ live ∧ ∀ a, P a → p + 4 <= a < p + uq_size kq) → relay_rel st kst n free live m'.
Proof.
  intros [] Hm HP. destruct HP as [(rq & Hrq & HP)|(p & Hp & HP)].
  - assert (∀ a, P a → uq_bytes q a) as Hin.
    { intros a Ha. right. right. exists rq. split; [done|]. specialize (HP a Ha). unfold span. lia. }
    split; [| | |done].
    + by apply (user_write q (re_layout Henv) st m rq P).
    + eapply user_rel_frame; [apply Henv|done|exact Hm|]. intros a Ha Hk. by apply (re_apart Henv a Hk), Hin.
    + apply (ga_client sh n free live m m' P); [done|done|]. intros x Px Ho.
      destruct (re_own Henv x Ho) as [Hq _]. by destruct (Hq (Hin x Px)).
  - assert (p ∈ uq_objs kq) as Hobj by (apply rl_objs0; set_solver).
    assert (∀ a, P a → uq_bytes kq a) as Hin.
    { intros a Ha. right. right. exists p. split; [done|]. specialize (HP a Ha). unfold span. lia. }
    split; [| | |done].
    + eapply user_rel_frame; [apply Henv|done|exact Hm|]. intros a Ha. by apply (re_apart Henv), Hin.
    + by apply (user_write kq (re_klayout Henv) kst m p P).
    + apply (ga_client sh n free live m m' P); [done|done|]. intros x Px Ho. exists p. split; [done|].
      specialize (HP x Px). rewrite (re_unit Henv) in HP. lia.
Qed.

Lemma relay_valid st kst n free live m rq :
  relay_rel st kst n free live m → rq ∈ uq_objs q → valid m rq (uq_size q).
Proof. intros [] Hrq. by apply (ur_valid _ _ _ rl_q0). Qed.

Lemma relay_kvalid st kst n free live m p :
  relay_rel st kst n free live m → p ∈ live → valid m p (uq_size kq).
Proof. intros [] Hp. apply (ur_valid _ _ _ rl_kq0), rl_objs0. set_solver. Qed.

(** Bytes of the kernel's queue that change without the client's or the
    allocator's. *)
Lemma relay_kframe st kst kst' n free live m m' P :
  relay_rel st kst n free live m → modifies P m m' →
  (∀ a, P a → sq_bytes (uq_handle kq) (uq_cap kq) a ∨ cq_bytes (uq_handle kq) (uq_cap kq) a ∨
     ∃ p, p ∈ live ∧ span p (uq_size kq) a) →
  user_rel kq kst' m' → relay_rel st kst' n free live m'.
Proof.
  intros [] Hm HP Hk. split; [|done| |done].
  - eapply user_rel_frame; [apply Henv|done|exact Hm|]. intros a Pa. apply (re_apart Henv).
    destruct (HP a Pa) as [Hs|[Hc|(p & Hp & Hx)]]; [by left|right; by left|]. right. right. exists p.
    split; [apply rl_objs0; set_solver|done].
  - apply (ga_client sh n free live m m' P); [done|done|]. intros x Px Ho. destruct (re_own Henv x Ho) as (_ & Hs & Hc).
    destruct (HP x Px) as [H|[H|(p & Hp & Hx)]]; [done|done|]. exists p. split; [done|]. rewrite <-(re_unit Henv). exact Hx.
Qed.

Lemma enqueue_to_spec st kst n free live m p rq o :
  relay_rel st kst n free live m → p ∈ live → rq ∈ uq_objs q → has_room (uq_cap kq) kst → 4 <= o → o + 12 <= uq_size q →
  wp (enqueue_to fuel (uq_ptr kq) p (rq + o) s)
     (λ r m', r = (inl tt, s) ∧ relay_rel st (enqueued kst p) n free live m' ∧
        qtok_at (rq + o) m' = {| qtok_qid_ := uq_qid kq; qtok_req_id_ := u32 (qa_enq kst) |} ∧
        modifies (both (both (sq_bytes (uq_handle kq) (uq_cap kq)) (span p 4)) (span (rq + o) 12)) m m') m.
Proof.
  intros Hr Hp Hrq (Hlen & Hwin & Hok) Ho Ho12. pose proof Hr as []. pose proof (re_klayout Henv) as Hkl.
  assert (p ∈ uq_objs kq) as Hobj by (apply rl_objs0; set_solver).
  unfold enqueue_to. apply (wp_handle _ _ _ _ _ _ (re_kheap Henv)), wp_ulift_bind.
  eapply wp_mono.
  { apply (qp_enqueue_spec (uq_handle kq) (uq_qid kq) (uq_cap kq) (uq_objs kq) (ul_qp _ Hkl) (ul_attach _ Hkl) fuel kst m p
      (enqueued kst p) (RTok (u32 (qa_enq kst)))); [apply Henv|apply rl_kq0|]. simpl. by rewrite decide_True. }
  intros tok m1 ((-> & _) & Hk & Hm1).
  assert (relay_rel st (enqueued kst p) n free live m1) as Hr1.
  { eapply (relay_kframe st kst); [exact Hr|exact Hm1| |].
    - intros a [Ha|Ha]; [by left|]. right. right. exists p. split; [done|]. pose proof (re_ksize Henv). unfold span in *. lia.
    - split; [done|]. intros p' Hp'. eapply valid_modifies; [exact Hm1|]. by apply (ur_valid _ _ _ rl_kq0). }
  apply wp_ulift. eapply wp_mono.
  { apply wp_store_qtok; simpl; [|apply Henv|apply u32_range]. eapply valid_sub; [by eapply relay_valid|lia|lia]. }
  intros [] m2 (Htok & Hm2). split; [done|]. split.
  { eapply (relay_write st (enqueued kst p)); [exact Hr1|exact Hm2|]. left. exists rq. split; [done|]. unfold span. lia. }
  split; [done|]. eapply modifies_trans; (eapply modifies_weaken; [eassumption|]); intros a Ha; [by left|by right].
Qed.

(** The kernel has answered, or not. *)
Lemma kernel_answer_spec st kst n free live m rq o id :
  relay_rel st kst n free live m → rq ∈ uq_objs q → 0 <= o → o + 12 <= uq_size q →
  qtok_at (rq + o) m = {| qtok_qid_ := uq_qid kq; qtok_req_id_ := u32 id |} → id ∈ qa_out kst →
  wp (kernel_answer (rq + o) s)
     (λ r m', r = (inl (uq_ptr kq, qa_cq kst !! id), s) ∧ modifies (cq_bytes (uq_handle kq) (uq_cap kq)) m m' ∧
        relay_rel st (match qa_cq kst !! id with Some _ => waited kst id | None => kst end) n free live m') m.
Proof.
  intros Hr Hrq Ho Ho12 Htok Hid. pose proof Hr as []. pose proof (re_klayout Henv) as Hkl.
  unfold kernel_answer. apply wp_ulift_bind, wp_load_qtok; [eapply valid_sub; [by eapply relay_valid|lia|lia]|].
  rewrite Htok. cbn [qtok_qid_ qtok_req_id_]. apply wp_uget, wp_ulift_bind, wp_run. eexists _, _. split; [by apply Henv|].
  apply (wp_handle _ _ _ _ _ _ (re_kheap Henv)), wp_ulift_bind.
  eapply wp_mono; [apply (is_complete_spec (uq_handle kq) (uq_qid kq) (uq_cap kq) (uq_objs kq) (ul_qp _ Hkl) kst m id); [apply rl_kq0|done]|].
  intros r m1 [[-> Hm] Hk]. apply wp_ret. split; [done|]. split; [done|].
  eapply (relay_kframe st kst); [exact Hr|exact Hm|intros a Ha; right; by left|].
  split; [|intros p Hp; eapply valid_modifies; [exact Hm|]; by apply (ur_valid _ _ _ rl_kq0)].
  destruct Hk as [[Hn Hk]|[Hn Hk]]; [by rewrite Hn|]. by destruct (qa_cq kst !! id).
Qed.

(** [qp->Complete(client_rq)]. *)
Lemma complete_request_spec st kst n free live m rq id :
  relay_rel st kst n free live m → pending (uq_objs q) st rq id →
  wp (complete_request fuel (uq_ptr q) rq s)
     (λ r m', r = (inl tt, s) ∧ relay_rel (completed st rq id) kst n free live m' ∧
        modifies (cq_bytes (uq_handle q) (uq_cap q)) m m') m.
Proof.
  intros Hr Hp. pose proof Hr as []. unfold complete_request. apply (wp_handle _ _ _ _ _ _ (re_heap Henv)), wp_ulift.
  eapply wp_mono; [by apply (user_complete q (re_layout Henv) fuel st m rq id (re_fuel Henv))|].
  intros [] m' (Hq & Hm). split; [done|]. split; [|done]. split; [done| | |done].
  - eapply user_rel_frame; [apply Henv|done|exact Hm|]. intros a Ha Hk. apply (re_apart Henv a Hk). right. by left.
  - eapply (ga_client sh n free live m m'); [done|exact Hm|]. intros x Px Ho.
    destruct (re_own Henv x Ho) as [Hn _]. destruct Hn. right. by left.
Qed.

(** The bytes of a request of the client are no bytes of the kernel's queue,
    nor of the allocator. *)
Lemma client_bytes rq a :
  rq ∈ uq_objs q → span rq (uq_size q) a → ¬ uq_bytes kq a ∧ ¬ shm_own sh a ∧
    ¬ sq_bytes (uq_handle q) (uq_cap q) a ∧ ¬ cq_bytes (uq_handle q) (uq_cap q) a.
Proof.
  intros Hrq Ha. assert (uq_bytes q a) as Hq by (right; right; by exists rq).
  split; [intros Hk; by apply (re_apart Henv a Hk)|]. split; [intros Ho; by destruct (re_own Henv a Ho) as [Hn _]; apply Hn|].
  pose proof (ul_sq _ (re_layout Henv) rq Hrq) as Hs. pose proof (ul_cq _ (re_layout Henv) rq Hrq) as Hc. revert Hs Hc Ha.
  unfold outside, sq_bytes, cq_bytes, lrq_span, rm_span, span. autounfold with layout. simpl. intros. lia.
Qed.

(** What the kernel may change: its queue and the requests it was given. *)
Definition kernel_bytes (live : list Z) (a : Z) : Prop :=
  sq_bytes (uq_handle kq) (uq_cap kq) a ∨ cq_bytes (uq_handle kq) (uq_cap kq) a ∨ ∃ p, p ∈ live ∧ span p (uq_size kq) a.

Lemma kernel_bytes_uq st kst n free live m a :
  relay_rel st kst n free live m → kernel_bytes live a → uq_bytes kq a.
Proof.
  intros [] [Hs|[Hc|(p & Hp & Hx)]]; [by left|right; by left|]. right. right. exists p. split; [|done].
  apply rl_objs0. set_solver.
Qed.

(** A field of a request of the client is not changed by what happens to the
    kernel's queue, to the allocator, or to other fields. *)
Lemma client_read P m m' rq o k :
  rq ∈ uq_objs q → modifies P m m' →
  (∀ a, P a → uq_bytes kq a ∨ shm_own sh a ∨ ¬ (rq + o <= a < rq + o + Z.of_nat k)) →
  0 <= o → o + Z.of_nat k <= uq_size q → read k (rq + o) m' = read k (rq + o) m.
Proof.
  intros Hrq Hm HP Ho Hk. apply (read_modifies _ _ _ _ _ Hm). intros a Ha Pa.
  destruct (client_bytes rq a Hrq) as (H1 & H2 & _); [unfold span; lia|]. by destruct (HP a Pa) as [?|[?|?]].
Qed.

(** The request [rq] waits for the answer to the request [kid] of the
    kernel. *)
Definition in_kernel (rq kid : Z) (m : mem) : Prop :=
  read 2 (rq + rq_op_) m = KSTART_IPC_TEST ∧ read 4 (rq + rq_code_) m = 1 ∧ qtok_at (rq + itr_kern_qtok_) m = {| qtok_qid_ := uq_qid kq; qtok_req_id_ := u32 kid |}.

Lemma in_kernel_frame rq kid P m m' :
  rq ∈ uq_objs q → modifies P m m' → (∀ a, P a → ¬ span rq (uq_size q) a) → in_kernel rq kid m → in_kernel rq kid m'.
Proof.
  intros Hrq Hm HP (Hop & Hc & Ht). pose proof (re_size Henv) as Hsz. unfold in_kernel. autounfold with layout in *. split; [|split].
  - rewrite (read_modifies _ _ _ _ _ Hm); [done|]. simpl. intros a Ha Pa. apply (HP a Pa). unfold span. lia.
  - rewrite (read_modifies _ _ _ _ _ Hm); [done|]. simpl. intros a Ha Pa. apply (HP a Pa). unfold span. lia.
  - rewrite (qtok_at_modifies _ _ _ _ Hm); [done|]. intros a Ha Pa. apply (HP a Pa). unfold span. lia.
Qed.

(** The kernel's request asks for the IPC test. *)
Definition asks_ipc_test (krq : Z) (m : mem) : Prop :=
  read 4 (krq + rq_ns_id_) m = IPC_TEST_MODULE_RUNTIME_ID ∧ read 2 (krq + rq_op_) m = KSTART_IPC_TEST.

Lemma ipc_dispatch st kst n free live m rq (Q : (bool + stop) * server → mem → Prop) :
  relay_rel st kst n free live m → rq ∈ uq_objs q → read 2 (rq + rq_op_) m = KSTART_IPC_TEST →
  wp (IPCTest_IPC fuel tid (uq_ptr q) rq s) Q m →
  wp (IPCTest_ProcessRequest fuel tid (uq_ptr q) rq (uq_creds q) s) Q m.
Proof.
  intros Hr Hrq Hop HQ. pose proof (re_size Henv) as Hsz. unfold IPCTest_ProcessRequest. apply wp_ulift_bind, wp_load.
  { eapply valid_sub; [by eapply relay_valid|..]; autounfold with layout; simpl; lia. }
  by rewrite Hop.
Qed.

(** The memory of the relay: the kernel's queue with its requests, and the
    allocator. *)
Definition relay_own (a : Z) : Prop := uq_bytes kq a ∨ shm_own sh a.

Lemma ipc_submit_spec st kst n free live m rq :
  relay_rel st kst n free live m → rq ∈ uq_objs q →
  read 2 (rq + rq_op_) m = KSTART_IPC_TEST → read 4 (rq + rq_code_) m = 0 → free ≠ [] → has_room (uq_cap kq) kst →
  wp (IPCTest_IPC fuel tid (uq_ptr q) rq s)
     (λ r m', r = (inl false, s) ∧ ∃ krq free', free ≡ₚ krq :: free' ∧
        relay_rel st (enqueued kst krq) n free' (krq :: live) m' ∧ in_kernel rq (qa_enq kst) m' ∧ asks_ipc_test krq m' ∧
        modifies (both (span rq (uq_size q)) relay_own) m m') m.
Proof.
  intros Hr Hrq Hop Hcode Hne Hroom. pose proof (re_size Henv) as Hsz. pose proof (re_ksize Henv) as Hksz.
  unfold IPCTest_IPC. apply wp_ulift_bind, wp_load.
  { eapply valid_sub; [by eapply relay_valid|..]; autounfold with layout; simpl; lia. }
  rewrite Hcode. cbn [Z.eqb]. apply wp_ubind. unfold kernel_queue at 1. apply wp_uget, wp_ulift, wp_run. eexists _, _.
  split; [by apply Henv|]. cbn [fst snd]. apply wp_ubind. eapply wp_mono; [by apply (alloc_request_spec st kst n free live m)|].
  intros [r1 s1] m1 (-> & krq & free' & -> & Hperm & Hr1 & Hm1). cbn [fst snd]. apply wp_ulift_bind.
  assert (valid m1 krq (uq_size kq)) as Hv1 by (eapply relay_kvalid; [exact Hr1|set_solver]).
  unfold IPCKernelStart. apply wp_bind, wp_store; [apply (valid_sub _ _ _ _ _ Hv1); autounfold with layout; simpl; lia|].
  apply wp_store; [apply valid_write, (valid_sub _ _ _ _ _ Hv1); autounfold with layout; simpl; lia|].
  set (m2 := write 2 _ _ _).
  assert (modifies (span (krq + 4) 12) m1 m2) as Hm2.
  { apply modifies_then_write; [apply modifies_write|..]; autounfold with layout; unfold span; simpl;
      try apply valid_write; try (apply (valid_sub _ _ _ _ _ Hv1); simpl; lia); lia. }
  assert (relay_rel st kst n free' (krq :: live) m2) as Hr2.
  { eapply (relay_write st kst); [exact Hr1|exact Hm2|]. right. exists krq. split; [set_solver|]. unfold span. lia. }
  assert (asks_ipc_test krq m2) as Hask.
  { unfold asks_ipc_test, m2. autounfold with layout. rewrite read_write_other by (simpl; lia). by rewrite read32_write, read16_write. }
  apply wp_ubind. eapply wp_mono.
  { apply (enqueue_to_spec st kst n free' (krq :: live) m2 krq rq itr_kern_qtok_ Hr2); autounfold with layout;
      try done; try lia. set_solver. }
  intros [r3 s3] m3 (E & Hr3 & Htok & Hm3). simplify_eq. cbn [fst snd]. apply wp_ulift_bind.
  assert (valid m3 rq (uq_size q)) as Hv3 by (by eapply relay_valid).
  apply wp_store; [apply (valid_sub _ _ _ _ _ Hv3); autounfold with layout; simpl; lia|].
  set (m4 := write 4 _ 1 m3). assert (modifies (span (rq + 8) 4) m3 m4) as Hm4.
  { apply modifies_write; autounfold with layout; [apply (valid_sub _ _ _ _ _ Hv3); simpl; lia|unfold span; simpl; lia]. }
  apply wp_ret. split; [done|]. exists krq, free'. split; [done|]. split.
  { eapply (relay_write st (enqueued kst krq)); [exact Hr3|exact Hm4|]. left. exists rq. split; [done|]. unfold span. lia. }
  assert (krq ∈ uq_objs kq) as Hkobj by (apply (rl_objs _ _ _ _ _ _ Hr3); set_solver). split; [|split].
  - split; [|split; [unfold m4; by rewrite read32_write|]].
    { autounfold with layout in *. pose proof (client_read) as Hcr. rewrite <-Hop.
      rewrite (Hcr _ _ _ rq 12 2%nat Hrq Hm4), (Hcr _ _ _ rq 12 2%nat Hrq Hm3), (Hcr _ _ _ rq 12 2%nat Hrq Hm2),
        (Hcr _ _ _ rq 12 2%nat Hrq Hm1); simpl; try lia.
      - intros a [Ha _]. right. by left.
      - intros a Ha. left. right. right. exists krq. split; [done|]. unfold span in *. lia.
      - intros a [[Ha|Ha]|Ha]; [left; by left|left|right; right; unfold span in Ha; lia].
        right. right. exists krq. split; [done|]. unfold span in *. lia.
      - intros a Ha. right. right. unfold span in Ha. lia. }
    rewrite (qtok_at_modifies _ _ _ _ Hm4); [done|].
    autounfold with layout. unfold span. lia.
  - assert (∀ a, span krq (uq_size kq) a → ¬ span rq (uq_size q) a) as Hd.
    { intros a Ha Hb. apply (proj1 (client_bytes rq a Hrq Hb)). right. right. by exists krq. }
    assert (∀ o k, 4 <= o → o + Z.of_nat k <= 16 → read k (krq + o) m4 = read k (krq + o) m2) as Hrd.
    { intros o k Ho Hk. rewrite (read_modifies _ _ _ _ _ Hm4).
      - apply (read_modifies _ _ _ _ _ Hm3). intros a Ha.
        pose proof (request_not_sq kq (re_klayout Henv) krq a Hkobj ltac:(unfold span; lia)).
        specialize (Hd a ltac:(unfold span; lia)). revert Hd. autounfold with layout. unfold span. intros Hd [[Hs|Hs]|Hs]; [done|lia|apply Hd; lia].
      - intros a Ha Hb. apply (Hd a); unfold span in *; lia. }
    unfold asks_ipc_test in *. autounfold with layout in *. rewrite !Hrd by (simpl; lia). done.
  - assert (∀ a, span krq (uq_size kq) a → relay_own a) as Hk by (intros a Ha; left; right; right; by exists krq).
    eapply modifies_trans; [eapply modifies_trans; [eapply modifies_trans|]|]; (eapply modifies_weaken; [eassumption|]).
    + intros a [Ha _]. right. by right.
    + intros a Ha. right. apply Hk. unfold span in *. lia.
    + intros a [[Ha|Ha]|Ha]; [right; left; by left|right; apply Hk; unfold span in *; lia|left].
      unfold span in *. autounfold with layout in Ha. lia.
    + intros a Ha. left. unfold span in *. lia.
Qed.

(** *** The IPC test in a pass of a worker *)

(** Room on the kernel's queue for [c] requests. *)
Definition kernel_room (c : nat) (st : qp_abs) : Prop :=
  Z.of_nat (length (qa_sq st)) + Z.of_nat c <= uq_cap kq ∧
  set_Forall (λ id, qa_enq st + Z.of_nat c <= id + uq_cap kq) (qa_out st) ∧ ids_ok (uq_cap kq) (qa_enq st + Z.of_nat c) = true.

(** The kernel's queue and the allocator, with room for [c] requests. *)
Definition kernel_ready (c : nat) (s' : server) (m : mem) : Prop :=
  s' = s ∧ ∃ kst n free live, user_rel kq kst m ∧ ga_rep sh n free live m ∧ (∀ p, p ∈ uq_objs kq ↔ p ∈ free ++ live) ∧
    (c <= length free)%nat ∧ kernel_room c kst.

Lemma ids_ok_le cap i j : ids_ok cap j = true → i <= j → ids_ok cap i = true.
Proof. unfold ids_ok. intros [H|H%Z.leb_le]%orb_true_iff Hle; apply orb_true_iff; [by left|right; apply Z.leb_le; lia]. Qed.

Lemma kernel_ready_fewer c s' m : kernel_ready (S c) s' m → kernel_ready c s' m.
Proof.
  intros (-> & kst & n & free & live & Hk & Ha & Ho & Hc & H1 & H2 & H3). split; [done|]. exists kst, n, free, live.
  split_and!; [done..|lia|]. split; [lia|]. split.
  - intros id Hid. specialize (H2 id Hid). cbn in H2. lia.
  - eapply ids_ok_le; [exact H3|lia].
Qed.

Lemma kernel_ready_frame c s' P m m' :
  kernel_ready c s' m → modifies P m m' → (∀ a, P a → ¬ relay_own a) → kernel_ready c s' m'.
Proof.
  intros (-> & kst & n & free & live & Hk & Ha & Ho & Hc & Hr) Hm HP. split; [done|]. exists kst, n, free, live.
  split_and!; [| |done..].
  - eapply user_rel_frame; [apply Henv|done|exact Hm|]. intros a Pa Hu. apply (HP a Pa). by left.
  - apply (ga_client sh n free live m m' P); [done|done|]. intros x Px Hx. destruct (HP x Px). by right.
Qed.

Lemma relay_own_apart a : relay_own a → ¬ uq_bytes q a.
Proof. intros [Ha|Ha]; [by apply (re_apart Henv)|by apply (re_own Henv)]. Qed.

(** Requests that have not been visited. *)
Definition ipc_new (rq : Z) (m : mem) : Prop := read 2 (rq + rq_op_) m = KSTART_IPC_TEST ∧ read 4 (rq + rq_code_) m = 0.

(** The IPC test keeps the contract of a module: it puts a new request off (it is
    never completed at the first visit), and uses room for one request to the
    kernel. *)
Lemma ipc_test_handles :
  Handles q (IPCTest_ProcessRequest fuel tid) relay_own kernel_ready ipc_new (λ _ _, False) (λ _ _, False).
Proof.
  pose proof (re_size Henv) as Hsz. split.
  - intros c st s' m rq id Hrel Hp (-> & kst & n & free & live & Hk & Ha & Ho & Hc & H1 & H2 & H3) [Hop Hcode].
    pose proof Hp as (Hrq & _). assert (relay_rel st kst n free live m) as Hr by done.
    eapply ipc_dispatch; [exact Hr|done..|]. eapply wp_mono.
    { apply (ipc_submit_spec st kst n free live m rq); [done..|intros ->; cbn in Hc; lia|]. split; [lia|]. split.
      - intros i Hi. specialize (H2 i Hi). cbn in H2. lia.
      - eapply ids_ok_le; [exact H3|lia]. }
    intros r m' (-> & krq & free' & Hperm & [Hq' Hk' Ha' Ho'] & _ & _ & Hm). split.
    { eapply modifies_weaken; [exact Hm|]. intros a [Hx|Hx]; [left; by right|by right]. }
    right. split; [done|]. split; [|split; [done|tauto]]. split; [done|]. exists (enqueued kst krq), n, free', (krq :: live).
    split_and!; [done..|apply Permutation_length in Hperm; cbn in Hperm; lia|]. split; cbn [enqueued qa_sq qa_enq qa_out].
    + rewrite length_app. cbn. lia.
    + split; [|eapply ids_ok_le; [exact H3|lia]]. apply set_Forall_union; [apply set_Forall_singleton; lia|].
      intros i Hi. specialize (H2 i Hi). cbn in H2. lia.
  - intros P m m' rq Hm HP. split; [|by split]. unfold ipc_new.
    assert (∀ o k, 0 <= o → o + Z.of_nat k <= 32 → read k (rq + o) m' = read k (rq + o) m) as Hrd.
    { intros o k Ho Hk. eapply read_modifies; [exact Hm|]. intros a Ha. apply HP. unfold span. lia. }
    autounfold with layout. rewrite !Hrd by (simpl; lia). done.
Qed.

(** No answer yet: nothing happens. *)
Lemma ipc_wait_spec st kst n free live m rq kid :
  relay_rel st kst n free live m → rq ∈ uq_objs q → in_kernel rq kid m → kid ∈ qa_out kst → qa_cq kst !! kid = None →
  wp (IPCTest_IPC fuel tid (uq_ptr q) rq s)
     (λ r m', r = (inl false, s) ∧ relay_rel st kst n free live m' ∧ in_kernel rq kid m') m.
Proof.
  intros Hr Hrq Hin Hout Hnone. pose proof Hin as (_ & Hcode & Htok). pose proof (re_size Henv) as Hsz.
  unfold IPCTest_IPC. apply wp_ulift_bind, wp_load.
  { eapply valid_sub; [by eapply relay_valid|..]; autounfold with layout; simpl; lia. }
  rewrite Hcode. cbn [Z.eqb Pos.eqb]. apply wp_ubind. eapply wp_mono.
  { apply (kernel_answer_spec st kst n free live m rq itr_kern_qtok_ kid); autounfold with layout in *; try done; lia. }
  rewrite Hnone. intros [r1 s1] m1 (E & Hm1 & Hr1). simplify_eq. cbn [fst snd]. apply wp_ret. split; [done|]. split; [done|].
  eapply in_kernel_frame; [done|exact Hm1| |done]. intros a Ha Hb. apply (proj1 (client_bytes rq a Hrq Hb)). right. by left.
Qed.

(** The answer: the client gets the code and the nonce of the kernel. *)
Lemma ipc_collect_spec st kst n free live live' m rq id krq kid :
  relay_rel st kst (S n) free live m → pending (uq_objs q) st rq id → in_kernel rq kid m →
  kid ∈ qa_out kst → qa_cq kst !! kid = Some krq → live ≡ₚ krq :: live' →
  wp (IPCTest_IPC fuel tid (uq_ptr q) rq s)
     (λ r m', r = (inl true, s) ∧
        read 4 (rq + rq_code_) m' = read 4 (krq + rq_code_) m ∧ read 4 (rq + itr_nonce_) m' = read 4 (krq + itr_nonce_) m ∧
        ∃ free', free' ≡ₚ krq :: free ∧ relay_rel (completed st rq id) (waited kst kid) n free' live' m') m.
Proof.
  intros Hr Hp (_ & Hcode & Htok) Hout Hans Hlive. pose proof Hp as (Hrq & _). pose proof (re_size Henv) as Hsz. pose proof (re_ksize Henv) as Hksz.
  assert (krq ∈ live) as Hkl by (rewrite Hlive; set_solver).
  assert (krq ∈ uq_objs kq) as Hkobj by (apply (rl_objs _ _ _ _ _ _ Hr); set_solver).
  assert (∀ a, span krq (uq_size kq) a → ¬ span rq (uq_size q) a) as Hd.
  { intros a Ha Hb. apply (proj1 (client_bytes rq a Hrq Hb)). right. right. by exists krq. }
  unfold IPCTest_IPC. apply wp_ulift_bind, wp_load.
  { eapply valid_sub; [by eapply relay_valid|..]; autounfold with layout; simpl; lia. }
  rewrite Hcode. cbn [Z.eqb Pos.eqb]. apply wp_ubind. eapply wp_mono.
  { apply (kernel_answer_spec st kst (S n) free live m rq itr_kern_qtok_ kid); autounfold with layout in *; try done; lia. }
  rewrite Hans. intros [r1 s1] m1 (E & Hm1 & Hr1). simplify_eq. cbn [fst snd]. apply wp_ulift_bind.
  assert (∀ o, 0 <= o → o + 4 <= 32 → read 4 (krq + o) m1 = read 4 (krq + o) m) as Hk1.
  { intros o Ho Ho4. apply (read_modifies _ _ _ _ _ Hm1). intros a Ha. pose proof (ul_cq _ (re_klayout Henv) krq Hkobj) as Hc.
    revert Hc. unfold outside, cq_bytes, rm_span, span. autounfold with layout. simpl in *. lia. }
  assert (valid m1 krq (uq_size kq)) as Hvk by (by eapply relay_kvalid).
  assert (valid m1 rq (uq_size q)) as Hvq by (by eapply relay_valid).
  unfold ipc_test_Copy. autounfold with layout.
  apply wp_bind, wp_load; [apply (valid_sub _ _ _ _ _ Hvk); simpl; lia|].
  apply wp_bind, wp_store; [apply (valid_sub _ _ _ _ _ Hvq); simpl; lia|]. set (m2 := write 4 (rq + 8) _ m1).
  assert (modifies (span (rq + 8) 4) m1 m2) as Hm2.
  { apply modifies_write; [apply (valid_sub _ _ _ _ _ Hvq); simpl; lia|unfold span; simpl; lia]. }
  apply wp_bind, wp_load; [apply valid_write, (valid_sub _ _ _ _ _ Hvk); simpl; lia|].
  rewrite (read_modifies _ _ _ 4 (krq + 28) Hm2).
  2: { simpl. intros a Ha Hb. apply (Hd a); unfold span in *; lia. }
  apply wp_store; [apply valid_write, (valid_sub _ _ _ _ _ Hvq); simpl; lia|]. set (m3 := write 4 (rq + 28) _ m2).
  assert (modifies (span (rq + 8) 24) m1 m3) as Hm3.
  { apply modifies_then_write; [eapply modifies_weaken; [exact Hm2|unfold span; lia]| |unfold span; simpl; lia].
    apply valid_write, (valid_sub _ _ _ _ _ Hvq); simpl; lia. }
  assert (relay_rel st (waited kst kid) (S n) free live m3) as Hr3.
  { eapply (relay_write st (waited kst kid)); [exact Hr1|exact Hm3|]. left. exists rq. split; [done|]. unfold span. lia. }
  apply wp_ubind. eapply wp_mono; [by apply (complete_request_spec st (waited kst kid) (S n) free live m3 rq id)|].
  intros [r4 s4] m4 (E & Hr4 & Hm4). simplify_eq. cbn [fst snd]. apply wp_ubind.
  eapply wp_mono; [by apply (free_request_spec (completed st rq id) (waited kst kid) n free live live' m4 krq)|].
  intros [r5 s5] m5 (E & free' & Hperm & Hr5 & Hm5). simplify_eq. cbn [fst snd]. apply wp_ret. split; [done|].
  assert (∀ o, 0 <= o → o + 4 <= 32 → read 4 (rq + o) m5 = read 4 (rq + o) m3) as Hrd.
  { intros o Ho Ho4. rewrite (read_modifies _ _ _ _ _ Hm5).
    - apply (read_modifies _ _ _ _ _ Hm4). intros a Ha. apply (client_bytes rq a Hrq). unfold span. simpl in Ha. lia.
    - intros a Ha [Hown _]. destruct (client_bytes rq a Hrq) as (_ & Hn & _); [unfold span; simpl in Ha; lia|]. by apply Hn. }
  split; [|split; [|by exists free']]; rewrite Hrd by lia; unfold m3.
  - rewrite read_write_other by (simpl; lia). unfold m2. rewrite read32_write, u32_small by apply read32_range. apply Hk1; lia.
  - rewrite read32_write, u32_small by apply read32_range. apply Hk1; lia.
Qed.

(** C33. The IPC test of the server takes a request to the kernel and back.
    The first visit of the worker puts a request for the kernel's module on
    the kernel's queue and leaves the client's request where it is; whatever
    the kernel then does to its queue and to the requests it was given, a
    visit before the answer changes nothing the client or the allocator sees,
    and the visit after the answer completes the client's request with the
    code and the nonce of the kernel and frees the request. *)
Theorem ipc_test_relay st kst n free live m rq id :
  relay_rel st kst (S n) free live m → pending (uq_objs q) st rq id →
  read 2 (rq + rq_op_) m = KSTART_IPC_TEST → read 4 (rq + rq_code_) m = 0 → free ≠ [] → has_room (uq_cap kq) kst →
  wp (IPCTest_ProcessRequest fuel tid (uq_ptr q) rq (uq_creds q) s)
     (λ r m1, r = (inl false, s) ∧ ∃ krq free', free ≡ₚ krq :: free' ∧
        relay_rel st (enqueued kst krq) (S n) free' (krq :: live) m1 ∧ asks_ipc_test krq m1 ∧
        ∀ kst2 m2, modifies (kernel_bytes (krq :: live)) m1 m2 → user_rel kq kst2 m2 → qa_enq kst ∈ qa_out kst2 →
          (qa_cq kst2 !! qa_enq kst = None →
             wp (IPCTest_ProcessRequest fuel tid (uq_ptr q) rq (uq_creds q) s)
                (λ r m3, r = (inl false, s) ∧ relay_rel st kst2 (S n) free' (krq :: live) m3) m2) ∧
          (qa_cq kst2 !! qa_enq kst = Some krq →
             wp (IPCTest_ProcessRequest fuel tid (uq_ptr q) rq (uq_creds q) s)
                (λ r m3, r = (inl true, s) ∧
                   read 4 (rq + rq_code_) m3 = read 4 (krq + rq_code_) m2 ∧
                   read 4 (rq + itr_nonce_) m3 = read 4 (krq + itr_nonce_) m2 ∧
                   ∃ free'', free'' ≡ₚ free ∧
                     relay_rel (completed st rq id) (waited kst2 (qa_enq kst)) n free'' live m3) m2)) m.
Proof.
  intros Hr Hp Hop Hcode Hne Hroom. pose proof Hp as (Hrq & _).
  eapply ipc_dispatch; [exact Hr|done..|]. eapply wp_mono; [by apply (ipc_submit_spec st kst (S n) free live m rq)|].
  intros r m1 (-> & krq & free' & Hperm & Hr1 & Hin & Hask & _). split; [done|]. exists krq, free'. split; [done|].
  split; [done|]. split; [done|]. intros kst2 m2 Hm2 Hk2 Hout.
  assert (relay_rel st kst2 (S n) free' (krq :: live) m2) as Hr2 by (eapply (relay_kframe st (enqueued kst krq)); [exact Hr1|exact Hm2|done|done]).
  assert (in_kernel rq (qa_enq kst) m2) as Hin2.
  { eapply in_kernel_frame; [done|exact Hm2| |done]. intros a Ha Hb.
    apply (proj1 (client_bytes rq a Hrq Hb)). by eapply kernel_bytes_uq. }
  split; intros Hans; (eapply ipc_dispatch; [exact Hr2|done|apply Hin2|]).
  - eapply wp_mono; [by eapply ipc_wait_spec|]. intros r m3 (-> & Hr3 & _). by split.
  - eapply wp_mono; [by eapply ipc_collect_spec|]. intros r m3 (-> & H1 & H2 & free2 & Hperm2 & Hr3).
    split; [done|]. split; [done|]. split; [done|]. exists free2. split; [|done]. by rewrite Hperm2, Hperm.
Qed.
End relay.

(** ** An example: a client's queue with a request for the dummy module and one
    for the IPC test, a kernel's queue, two requests for the kernel *)

Definition rs_sh : shm := shm_of 12288 12288 136 32 1.
Definition rs_qid : labstor_qid_t := {| qid_flags_ := 0; qid_type_ := 0; qid_cnt_ := 0; qid_pid_ := 77 |}.
Definition rs_kqid : labstor_qid_t := {| qid_flags_ := KERNEL_FLAGS; qid_type_ := 0; qid_cnt_ := 0; qid_pid_ := KERNEL_PID |}.
Definition rs_handle : labstor_queue_pair := queue_pair_at 4096 4096 4160.
Definition rs_khandle : labstor_queue_pair := queue_pair_at 12288 12800 12864.

Definition rs_queue : user_queue :=
  {| uq_ptr := 700; uq_creds := 900; uq_handle := rs_handle; uq_qid := rs_qid; uq_cap := 2; uq_objs := {[8192; 8256]}; uq_size := 32 |}.
Definition rs_kqueue : user_queue :=
  {| uq_ptr := 800; uq_creds := 0; uq_handle := rs_khandle; uq_qid := rs_kqid; uq_cap := 2; uq_objs := {[12334; 12368]}; uq_size := 32 |}.

(** Both queues are set up, the client's requests are waiting, and the work
    queue has the client's queue; then the allocator. *)
Definition rs_run : outcome unit :=
  (_ ← labstor_queue_pair_Init Userspace (queue_pair_at 0 0 0) rs_qid 4096 2 4096 32 4160 12;
   _ ← labstor_queue_pair_Init Userspace (queue_pair_at 0 0 0) rs_kqid 12288 2 12800 32 12864 12;
   _ ← store32 (8256 + rq_ns_id_) 1; _ ← store16 (8256 + rq_op_) DUMMY_GET_VALUE;
   _ ← store32 (8192 + rq_ns_id_) 2; _ ← store16 (8192 + rq_op_) KSTART_IPC_TEST;
   _ ← qp_run 1 rs_handle [QEnqueue 8256; QEnqueue 8192];
   r ← labstor_work_queue_secure_Init Userspace (labstor_work_queue_secure_Attach 0) 5000 44 2;
   _ ← labstor_work_queue_secure_Enqueue r.1 700 900; mret tt)
  (zero_region 4096 32 ∪ (zero_region 4160 12 ∪ (zero_region 8192 32 ∪ (zero_region 8256 32 ∪ (zero_region 5000 44 ∪
     (zero_region 12800 32 ∪ (zero_region 12864 12 ∪ zero_region 12288 144))))))).
Definition rs_mem0 : mem := match rs_run with Ret _ m => m | _ => ∅ end.
Definition rs_init : outcome labstor_shmem_allocator :=
  labstor_shmem_allocator_Init Userspace (labstor_private_shmem_allocator_Attach 0 0) 1 12288 12288 136 32 1 rs_mem0.
Definition rs_mem : mem := match rs_init with Ret _ m => m | _ => ∅ end.

Definition rs_state : qp_abs :=
  {| qa_enq := 2; qa_sq := [8256; 8192]; qa_ids := {[8256 := 0; 8192 := 1]}; qa_out := {[0; 1]}; qa_cq := ∅ |}.

Definition rs_ipc (mm : MemoryManager) (ptr : Z) (qid : labstor_qid_t) : PerProcessIPC :=
  {| ipc_pool := default QueuePool_new (QueuePool_RegisterQueuePair QueuePool_new {| qpr_ptr := ptr; qpr_qid := qid |});
     ipc_mem := mm; ipc_pid_ := qid_pid_ qid |}.

(** The modules at 6000 and 6100 are the dummy module and the IPC test. *)
Definition Namespace_with (ns : Namespace) (objects : list Z) : Namespace :=
  {| ns_ids_ := ns_ids_ ns; key_to_ns_id_ := key_to_ns_id_ ns; private_state_ := objects; module_id_to_instance_ := module_id_to_instance_ ns |}.

Definition rs_server : server :=
  {| sv_ipc := {| si_pid_ := 1;
                  si_ipcs := {[9000 := rs_ipc MemoryManager_unset 700 rs_qid;
                               9100 := rs_ipc (MemoryManager_SetShmemAlloc MemoryManager_unset (sh_alloc rs_sh)) 800 rs_kqid]};
                  si_pid_to_ipc_ := {[77 := 9000; KERNEL_PID := 9100]};
                  si_heap := {[700 := rs_handle; 800 := rs_khandle]}; si_workers := [] |};
     sv_namespace := Namespace_with (sv_namespace uw_server) [0; 6000; 6100]; sv_shmem_alloc_ := sv_shmem_alloc_ uw_server;
     sv_modules := ModuleManager_new; sv_module_id_ := ∅; sv_dev_id_ := ∅ |}.

Lemma rs_alloc : ga_rep rs_sh 8 [12334; 12368] [] rs_mem.
Proof.
  assert (shm_fits 12288 12288 136 32 1) as Hfit.
  { split; try lia. intros i Hi. assert (i = 0) as -> by lia. change (136 / 1) with 136. split; try lia.
    change (136 / (32 + 2)) with 4. lia. }
  assert (valid rs_mem0 12288 144) as Hv by (apply (validb_valid _ 12288 144); vm_compute; reflexivity).
  pose proof (shm_init_spec Userspace (labstor_private_shmem_allocator_Attach 0 0) 1 12288 12288 136 32 1 8 rs_mem0 Hfit Hv) as H.
  specialize (H ltac:(right; vm_compute; discriminate)). cbv zeta in H.
  destruct (proj1 (wp_run _ _ _) H) as (a & m' & Hrun & _ & Hs). unfold rs_mem, rs_init. rewrite Hrun. exact Hs.
Qed.

Ltac rs_spans :=
  unfold uq_bytes, sq_bytes, cq_bytes, lrq_span, rm_span, span, outside in *; autounfold with layout in *; simpl in *.

Lemma rs_objs p : p ∈ ({[12334; 12368]} : gset Z) ↔ p = 12334 ∨ p = 12368.
Proof. set_solver. Qed.

Lemma rs_client_objs p : p ∈ ({[8192; 8256]} : gset Z) ↔ p = 8192 ∨ p = 8256.
Proof. set_solver. Qed.

Lemma rs_layouts : user_layout rs_queue ∧ user_layout rs_kqueue.
Proof.
  split; split; simpl; unfold outside.
  - split; simpl; unfold near, outside; try (intros rq [->| ->]%rs_client_objs); try lia.
    intros p r [->| ->]%rs_client_objs [->| ->]%rs_client_objs; lia.
  - reflexivity.
  - lia.
  - intros rq [->| ->]%rs_client_objs; lia.
  - intros rq [->| ->]%rs_client_objs; lia.
  - intros p r [->| ->]%rs_client_objs [->| ->]%rs_client_objs; lia.
  - split; simpl; unfold near, outside; try (intros rq [->| ->]%rs_objs); try lia.
    intros p r [->| ->]%rs_objs [->| ->]%rs_objs; lia.
  - reflexivity.
  - lia.
  - intros rq [->| ->]%rs_objs; lia.
  - intros rq [->| ->]%rs_objs; lia.
  - intros p r [->| ->]%rs_objs [->| ->]%rs_objs; lia.
Qed.

Lemma rs_env : relay_env 1 5 rs_server rs_queue rs_kqueue rs_sh.
Proof.
  destruct rs_layouts. split; try done; try (simpl; lia); try reflexivity.
  - exists 9100, (rs_ipc (MemoryManager_SetShmemAlloc MemoryManager_unset (sh_alloc rs_sh)) 800 rs_kqid). done.
  - intros a Hk Hq. rs_spans. destruct Hk as [Hk|[Hk|(p & [->| ->]%rs_objs & Hk)]];
      destruct Hq as [Hq|[Hq|(r & [->| ->]%rs_client_objs & Hq)]]; lia.
  - intros a (c & po & Hpo & Ho). unfold rs_sh, shm_of in Hpo. simpl in Hpo.
    apply core_pools_lookup in Hpo as [Hc ->]. assert (c = 0%nat) as -> by lia. unfold po_own, po_end in Ho. simpl in Ho.
    change (136 / 1) with 136 in Ho. change (136 / (32 + 2)) with 4 in Ho.
    change (Z.to_nat ((136 - (20 + 4 * 4)) / (32 + 2))) with 2%nat in Ho. simpl in Ho.
    split; [|split]; rs_spans; [|lia|lia]. intros [Hq|[Hq|(r & [->| ->]%rs_client_objs & Hq)]]; lia.
Qed.

(** A queue pair with no completion, concretely. *)
Lemma rs_rel : relay_rel rs_queue rs_kqueue rs_sh rs_state qp_spec_init 8 [12334; 12368] [] rs_mem.
Proof.
  split; [| |exact rs_alloc|intros p; rewrite app_nil_r; simpl; set_solver].
  - split; simpl; [split; simpl|].
    + split; [reflexivity|apply (validb_valid _ 4096 12); vm_compute; reflexivity|vm_compute; reflexivity| |].
      * split.
        -- reflexivity.
        -- apply (validb_valid _ 4108 20). vm_compute. reflexivity.
        -- lia.
        -- simpl. lia.
        -- vm_compute. reflexivity.
        -- vm_compute. reflexivity.
        -- vm_compute. reflexivity.
        -- intros [|[|i]] x Hi; [..|done]; injection Hi as <-; vm_compute; reflexivity.
      * repeat constructor; unfold near; simpl; lia.
    + lia.
    + exists ∅. split; [|split; intros ?? H; by rewrite lookup_empty in H].
      split; [reflexivity|apply (validb_valid _ 4160 12); vm_compute; reflexivity|lia|vm_compute; reflexivity| |].
      * intros b Hb. assert (b = 0 ∨ b = 1) as [->| ->] by lia; vm_compute; reflexivity.
      * intros b p H. by rewrite lookup_empty in H.
    + intros rq [->| ->]%rs_client_objs; [apply (validb_valid _ 8192 4)|apply (validb_valid _ 8256 4)]; vm_compute; reflexivity.
    + intros rq id [[<- <-]|[_ [<- <-]%lookup_singleton_Some]]%lookup_insert_Some; (split; [set_solver|vm_compute; reflexivity]).
    + intros id Hid. uw_cases Hid; lia.
    + set_solver.
    + right. lia.
    + intros rq [->| ->]%rs_client_objs; [apply (validb_valid _ 8192 32)|apply (validb_valid _ 8256 32)]; vm_compute; reflexivity.
  - split; simpl; [split; simpl|].
    + split; [reflexivity|apply (validb_valid _ 12800 12); vm_compute; reflexivity|vm_compute; reflexivity| |constructor].
      split.
      * reflexivity.
      * apply (validb_valid _ 12812 20). vm_compute. reflexivity.
      * lia.
      * simpl. lia.
      * vm_compute. reflexivity.
      * vm_compute. reflexivity.
      * vm_compute. reflexivity.
      * done.
    + lia.
    + exists ∅. split; [|split; intros ?? H; by rewrite lookup_empty in H].
      split; [reflexivity|apply (validb_valid _ 12864 12); vm_compute; reflexivity|lia|vm_compute; reflexivity| |].
      * intros b Hb. assert (b = 0 ∨ b = 1) as [->| ->] by lia; vm_compute; reflexivity.
      * intros b p H. by rewrite lookup_empty in H.
    + intros rq [->| ->]%rs_objs; [apply (validb_valid _ 12334 4)|apply (validb_valid _ 12368 4)]; vm_compute; reflexivity.
    + intros rq id H. by rewrite lookup_empty in H.
    + set_solver.
    + set_solver.
    + right. lia.
    + intros rq [->| ->]%rs_objs; [apply (validb_valid _ 12334 32)|apply (validb_valid _ 12368 32)]; vm_compute; reflexivity.
Qed.

(** The kernel takes the request off its queue and completes it. *)
Lemma ipc_test_relay_witness :
  wp ((_ ← IPCTest_ProcessRequest 1 5 700 8192 900;
       r ← ulift (labstor_queue_pair_Dequeue rs_khandle);
       match r with
       | None => mret false
       | Some krq => _ ← ulift (queue_pair_Complete 1 rs_khandle krq); IPCTest_ProcessRequest 1 5 700 8192 900
       end) rs_server)
     (λ r m', r = (inl true, rs_server)) rs_mem.
Proof.
  assert (pending (uq_objs rs_queue) rs_state 8192 1) as Hp by (split; [set_solver|split; [done|split; [set_solver|done]]]).
  apply wp_ubind. eapply wp_mono.
  { apply (ipc_test_relay 1 5 rs_server rs_queue rs_kqueue rs_sh rs_env rs_state qp_spec_init 7 [12334; 12368] [] rs_mem 8192 1).
    - exact rs_rel.
    - exact Hp.
    - vm_compute. reflexivity.
    - vm_compute. reflexivity.
    - done.
    - split; [simpl; lia|]. split; [set_solver|reflexivity]. }
  intros [r s1] m1 (E & krq & free' & _ & Hr1 & _ & Hnext). simplify_eq. cbn [fst snd].
  destruct rs_layouts as [_ Hkl]. pose proof (rl_kq _ _ _ _ _ _ _ _ _ Hr1) as Hk1.
  apply wp_ulift_bind. eapply wp_mono; [by apply (user_dequeue rs_kqueue Hkl _ m1 krq [] Hk1)|].
  intros r m2 (-> & Hk2 & Hm2). apply wp_ulift_bind. eapply wp_mono.
  { eapply (user_complete rs_kqueue Hkl 1 _ m2 krq 0); [lia|exact Hk2|].
    split; [apply (rl_objs _ _ _ _ _ _ _ _ _ Hr1); set_solver|]. split; [by simpl; rewrite lookup_insert_eq|].
    split; [set_solver|done]. }
  intros [] m3 (Hk3 & Hm3).
  destruct (Hnext (completed (popped (enqueued qp_spec_init krq)) krq 0) m3) as [_ H].
  - eapply modifies_trans; (eapply modifies_weaken; [eassumption|]); intros a Ha; [by left|right; by left].
  - exact Hk3.
  - set_solver.
  - eapply wp_mono; [apply H; simpl; by rewrite lookup_insert_eq|]. by intros r m4 (-> & _).
Defined.

(** A pass of a worker over the client's queue: the request for the dummy module
    is completed, the one for the IPC test is put off. *)
Definition rs_process (module qp rq creds : Z) : UM bool :=
  if module =? 6000 then Dummy_ProcessRequest 1 qp rq creds else IPCTest_ProcessRequest 1 5 qp rq creds.
Definition rs_modules (ns : Z) : Z := if ns =? 1 then 6000 else if ns =? 2 then 6100 else 0.
Definition rs_accepts (ns : Z) : Z → mem → Prop := if ns =? 1 then dummy_accepts else ipc_new.
Definition rs_prompt (ns rq : Z) (m : mem) : Prop := ns = 1.
Definition rs_post (ns : Z) : Z → mem → Prop := if ns =? 1 then dummy_post else λ _ _, False.

Lemma rs_handles ns :
  rs_modules ns ≠ 0 →
  Handles rs_queue (rs_process (rs_modules ns)) (relay_own rs_kqueue rs_sh) (kernel_ready rs_server rs_kqueue rs_sh)
    (rs_accepts ns) (rs_prompt ns) (rs_post ns).
Proof.
  unfold rs_modules, rs_accepts, rs_prompt, rs_post. intros Hns. destruct (Z.eqb_spec ns 1) as [E|Hne].
  - clear Hns. destruct (dummy_handles 1 rs_queue (relay_own rs_kqueue rs_sh) (kernel_ready rs_server rs_kqueue rs_sh)) as [H1 H2].
    + lia.
    + apply rs_layouts.
    + simpl. lia.
    + by intros c s m [-> _].
    + apply (relay_own_apart _ _ _ _ _ _ rs_env).
    + apply (kernel_ready_frame _ _ _ _ _ _ rs_env).
    + split; [|intros P m m' rq Hm HP; by destruct (H2 P m m' rq Hm HP) as (? & ? & ?)].
      intros c st s m rq id Hr Hp Hi Ha. eapply wp_mono; [exact (H1 c st s m rq id Hr Hp Hi Ha)|].
      intros r m' [Hm [Ht|(? & ? & ? & Hn)]]; [by auto|by destruct Hn].
  - destruct (Z.eqb_spec ns 2) as [E|]; [|done]. destruct (ipc_test_handles _ _ _ _ _ _ rs_env) as [H1 H2].
    split; [|intros P m m' rq Hm HP; by destruct (H2 P m m' rq Hm HP) as (? & ? & ?)].
    intros c st s m rq id Hr Hp Hi Ha. eapply wp_mono; [exact (H1 c st s m rq id Hr Hp Hi Ha)|].
    intros r m' [Hm [Ht|(? & ? & ? & Hn)]]; split; [done|by left|done|by right].
Qed.

Lemma rs_ready :
  user_ready rs_process (relay_own rs_kqueue rs_sh) (kernel_ready rs_server rs_kqueue rs_sh) rs_modules rs_accepts rs_prompt rs_post
    rs_mem rs_queue rs_state.
Proof.
  split.
  - apply rs_layouts.
  - split; [by intros c s m [-> _]| |exact rs_handles|apply (relay_own_apart _ _ _ _ _ _ rs_env)|
      apply (kernel_ready_frame _ _ _ _ _ _ rs_env)|apply kernel_ready_fewer].
    intros c s m ns [-> _]. unfold rs_modules. destruct (Z.eqb_spec ns 1) as [->|]; [done|]. by destruct (Z.eqb_spec ns 2) as [->|].
  - by intros c s m m' [-> _].
  - apply rs_rel.
  - split; simpl.
    + repeat constructor; set_solver.
    + intros rq [->|[->|[]%elem_of_nil]%elem_of_cons]%elem_of_cons; [exists 0|exists 1];
        (split; [set_solver|split; [reflexivity|split; [set_solver|reflexivity]]]).
    + intros p r id [->|[->|[]%elem_of_nil]%elem_of_cons]%elem_of_cons [->|[->|[]%elem_of_nil]%elem_of_cons]%elem_of_cons H1 H2;
        vm_compute in H1, H2; congruence.
  - simpl. intros rq [->|[->|[]%elem_of_nil]%elem_of_cons]%elem_of_cons; split; vm_compute; done.
Qed.

Lemma rs_requests : request_ns 8256 rs_mem = 1 ∧ request_ns 8192 rs_mem = 2.
Proof. vm_compute. done. Qed.

Lemma rs_own a : relay_own rs_kqueue rs_sh a → 12288 <= a.
Proof.
  intros [[Hk|[Hk|(p & [->| ->]%rs_objs & Hk)]]|(c & po & Hpo & Ho)]; [rs_spans; lia..|].
  unfold rs_sh, shm_of in Hpo. simpl in Hpo. apply core_pools_lookup in Hpo as [Hc ->].
  assert (c = 0%nat) as -> by lia. unfold po_own, po_end in Ho. simpl in Ho. lia.
Qed.

Lemma do_work_serves_witness :
  wp (DoWork rs_process 1 uw_wq rs_server)
     (λ r m', r.1 = inl tt ∧ labstor_queue_pair_GetDepth rs_handle m' = Ret 1 m' ∧
        wp (labstor_queue_pair_Wait 1 rs_handle 0) (λ rq m2, rq = 8256 ∧ read 4 (rq + drq_value_) m2 = 5543) m') rs_mem.
Proof.
  eapply wp_mono.
  { apply (do_work_serves rs_process 1 (relay_own rs_kqueue rs_sh) (kernel_ready rs_server rs_kqueue rs_sh) rs_modules
      rs_accepts rs_prompt rs_post uw_wq 2 [rs_queue] [rs_state] rs_mem rs_server).
    - reflexivity.
    - split; [apply (validb_valid _ 5000 44); vm_compute; reflexivity|simpl; lia|simpl; lia|vm_compute; reflexivity|
        vm_compute; reflexivity|]. intros [|i] e Hi; [|done]. injection Hi as <-. vm_compute. reflexivity.
    - simpl. lia.
    - intros q a ->%list_elem_of_singleton [Ha|Ha%rs_own]; [|unfold uwq_bytes, span; simpl; autounfold with layout; lia].
      unfold uwq_bytes. rs_spans. destruct Ha as [Hs|[Hs|(rq & [->| ->]%rs_client_objs & Hs)]]; lia.
    - intros [|j] [|j'] q q' Hj Hj' Hne; simplify_eq/=; done.
    - constructor; [exact rs_ready|constructor].
    - split; [done|]. exists qp_spec_init, 8%nat, [12334; 12368], [].
      split_and!; [apply rs_rel|apply rs_rel|apply rs_rel|simpl; lia|]. split; [simpl; lia|]. split; [set_solver|reflexivity]. }
  intros r m' (Hr & _ & Hall). split; [done|]. inversion Hall as [|? ? ? ? (k & Hk & Hd & Hoff & Hdone) _]; subst.
  destruct rs_requests as [E1 E2].
  assert (k = 1%nat) as ->.
  { destruct k as [|[|k]]; [|done|].
    - by destruct (Hoff 8256 eq_refl).
    - destruct (Hdone 1%nat 8192) as (id & _ & Hw); [lia|done|]. rewrite E2 in Hw.
      destruct (proj1 (wp_run _ _ _) Hw) as (? & ? & _ & _ & []). }
  split; [exact Hd|]. destruct (Hdone 0%nat 8256) as (id & Hid & Hw); [lia|done|]. assert (id = 0) as -> by (vm_compute in Hid; congruence).
  rewrite E1 in Hw. eapply wp_mono; [exact Hw|]. intros rq m2 [-> Hv]. by split.
Defined.

(** ** Limits *)

(** The kernel's request has one more member before its flags: a completion
    that the kernel reports at its place is not seen by the server, and the
    cookie of the kernel is taken for the flags. *)
Lemma mq_completion_unseen :
  wp (_ ← store32 (4096 + mqr_flags_) LABSTOR_MQ_IO_IS_COMPLETE; IOIsComplete 4096) (λ b _, b = false) (zero_region 4096 96) ∧
  wp (_ ← store32 (4096 + mqr_cookie_) 4; IOIsComplete 4096) (λ b _, b = true) (zero_region 4096 96).
Proof. split; vm_compute; reflexivity. Qed.

(** The request for statistics is sent without a module or an operation: it
    goes to whichever module the memory named before. *)
Lemma stats_start_keeps_module ns :
  0 <= ns < 2 ^ 32 →
  wp (stats_Start 4096 MQ_DRIVER_RUNTIME_ID 3) (λ _ m', read 4 (4096 + rq_ns_id_) m' = ns)
     (write 4 (4096 + rq_ns_id_) ns (zero_region 4096 28)).
Proof.
  intros Hns. apply wp_store; [apply valid_write, (validb_valid _ _ 4); vm_compute; reflexivity|].
  rewrite read_write_other by (autounfold with layout; simpl; lia). by rewrite read32_write, u32_small.
Qed.

(** The block device table puts off every request it does not know, each time
    it is called: such a request stays at the head of its queue. *)
Lemma blkdev_unknown_blocks fuel tid dev_ids qp rq creds s m :
  valid m (rq + rq_op_) 2 → read 2 (rq + rq_op_) m ≠ KREGISTER_BDEV →
  wp (BlkdevTable_ProcessRequest fuel tid dev_ids qp rq creds s) (λ r m', r = (inl false, s) ∧ m' = m) m.
Proof.
  intros Hv Hop. unfold BlkdevTable_ProcessRequest. apply wp_ulift_bind, wp_load; [done|].
  rewrite (proj2 (Z.eqb_neq _ _) Hop). by apply wp_ret.
Qed.

(** The kernel's request is allocated without room for the path, whose length
    the client chooses: here a path of 10 bytes changes the bytes behind a
    request of 40. *)
Lemma blkdev_path_overruns :
  wp (_ ← store_s32 (8192 + btr_pathlen_) 10; _ ← memset (8192 + btr_path_) 97 10;
      blkdev_ServerStart 4096 BLKDEV_TABLE_RUNTIME_ID 8192)
     (λ _ m', read 1 (4096 + 40) m' = 97) (zero_region 4096 80 ∪ zero_region 8192 46).
Proof. vm_compute. reflexivity. Qed.
