(* ===== verification/ServerNamespace.v ===== *)
(** * ServerNamespace.v: the namespace of the server

    src/userspace/server/namespace.cpp: the server creates a shared region,
    lays out the ring of free ids, the map of keys and an allocator for the
    characters of the keys, and registers the registrar as its first module.
    Namespace.v has the operations on an existing namespace whose keys are
    already in shared memory; here the keys are copied there by [AddKey], so
    the memory of the keys grows. *)

From S2P Require Import Prelude Memory RingBuffer Bitmap RequestQueue MpmcRing UnorderedMap ShmemString MapBuckets Allocators AllocatorSpec.
From S2P Require Import Namespace ModuleTable IpcManager.

Local Open Scope Z_scope.

(** ** Strings of C in memory *)

Fixpoint strlen_loop (n : nat) (p : Z) : M Z :=
  match n with
  | O => fault
  | S n' => c ← load8 p; if c =? 0 then mret 0 else k ← strlen_loop n' (p + 1); mret (k + 1)
  end.

(** Reading on past every byte that is mapped is a fault, so there are never
    more rounds than mapped bytes. *)
Definition strlen (p : Z) : M Z := λ m, strlen_loop (S (size m)) p m.

(** The constructor of [labstor::ipc::string] from characters; [header] is what
    the member held. *)
Definition string_of_cstr (header p : Z) : M ipc_string := n ← strlen p; mret (string_of_chars header p n).

(** A copy of a [labstor::id]. *)
Definition load_id (p : Z) : M id := l ← load_bytes p MODULE_KEY_SIZE; mret {| key_ := l |}.

(** [std::string(id.key_)]: without a terminator the bytes behind the object
    are read. *)
Definition id_string (i : id) : M (list Z) :=
  if existsb (Z.eqb 0) (take MODULE_KEY_SIZE (key_ i)) then mret (id_text i) else fault.

(** ** AddKey *)

Section server_namespace.
Context (fuel : nat).

(** [AddKey(labstor::id, module)]. *)
Definition Namespace_AddKey_id (Alloc : Z → M Z) (ns : Namespace) (key : id) (module : Module) : M (Namespace * Z) :=
  str ← id_string key; Namespace_AddKey_string fuel Alloc ns str module.

(** [GenericAllocator::Alloc(size)]: the core is the id of the thread. *)
Definition alloc_by_tid (a : labstor_shmem_allocator) (tid size : Z) : M Z :=
  labstor_shmem_allocator_Alloc a (u32 size) (u32 tid).

(** ** namespace.cpp *)

(** The section "namespace" of the configuration, [uint32_t] each.
    [max_collisions] is read and not used. *)
Record NamespaceOptions := {
  no_max_entries : Z;
  no_max_collisions : Z;
  no_shmem_request_unit : Z;
  no_shmem_kb : Z
}.

Record ServerNamespace := {
  sn_namespace : Namespace;
  sn_shmem_alloc_ : labstor_shmem_allocator;
  sn_region_id_ : Z;
  sn_region_size_ : Z;
  sn_region_ : Z;
  sn_max_entries_ : Z
}.

Definition shared_map_GetNextSection (t : unordered_map) : Z :=
  um_header_ t + @unordered_map_GetSize _ _ string_bucket t.

(** The constructor.  [region_id] and [region] are what [CreateShmem] and
    [MapShmem] give; [nprocs] is [get_nprocs_conf()]. *)
Definition Server_Namespace_new (nprocs : Z) (fresh : labstor_private_shmem_allocator) (o : NamespaceOptions)
    (region_id region : Z) : M ServerNamespace :=
  let max_entries := no_max_entries o in
  let request_unit := u32 (no_shmem_request_unit o * 1) in
  let shmem_size := u32 (no_shmem_kb o * 1024) in
  if region_id <? 0 then throw SHMEM_CREATE_FAILED
  else if region =? 0 then throw MMAP_FAILED
  else
    ns_ids ← ring_buffer_Init 4 region (ring_buffer_GetSize_global 4 max_entries) 0;
    ring_size ← ring_buffer_GetSize 4 ns_ids;
    let remainder := u32 (shmem_size - ring_size) in
    section ← ring_buffer_GetNextSection 4 ns_ids;
    map ← unordered_map_Init region section (@unordered_map_GetSize_global _ _ string_bucket max_entries) 0 16;
    let remainder := u32 (remainder - @unordered_map_GetSize _ _ string_bucket map) in
    let section := shared_map_GetNextSection map in
    alloc ← labstor_shmem_allocator_Init Userspace fresh nprocs region section remainder request_unit 0;
    mret {| sn_namespace := {| ns_ids_ := ns_ids; key_to_ns_id_ := map; private_state_ := []; module_id_to_instance_ := ∅ |};
            sn_shmem_alloc_ := alloc; sn_region_id_ := region_id; sn_region_size_ := shmem_size; sn_region_ := region;
            sn_max_entries_ := max_entries |}.

(** "Registrar". *)
Definition LABSTOR_REGISTRAR_MODULE_ID : list Z := [82; 101; 103; 105; 115; 116; 114; 97; 114].
Definition LABSTOR_REGISTRAR_ID : Z := 0.

(** [Init]; [registrar] is the address of the new [Registrar::Server]. *)
Definition Server_Namespace_Init (tid : Z) (sn : ServerNamespace) (registrar : Z) : M (ServerNamespace * Z) :=
  r ← Namespace_AddKey_string fuel (alloc_by_tid (sn_shmem_alloc_ sn) tid) (sn_namespace sn) LABSTOR_REGISTRAR_MODULE_ID
        {| mod_ptr := registrar; mod_id := LABSTOR_REGISTRAR_MODULE_ID |};
  mret ({| sn_namespace := r.1; sn_shmem_alloc_ := sn_shmem_alloc_ sn; sn_region_id_ := sn_region_id_ sn;
           sn_region_size_ := sn_region_size_ sn; sn_region_ := sn_region_ sn; sn_max_entries_ := sn_max_entries_ sn |}, r.2).
End server_namespace.

(** ** Facts about strings of C *)

Lemma valid_size m p n : valid m p n → n <= Z.of_nat (size m).
Proof.
  intros Hv. destruct (Z_le_gt_dec n 0) as [|Hn]; [lia|].
  assert (Z.to_nat n <= size m)%nat; [|lia]. rewrite <-size_dom.
  assert (size (list_to_set (seqZ p n) : gset Z) = Z.to_nat n) as <-.
  { rewrite size_list_to_set by apply NoDup_seqZ. by rewrite length_seqZ. }
  apply subseteq_size. intros x Hx%elem_of_list_to_set%elem_of_seqZ. apply elem_of_dom. by apply Hv.
Qed.

(** The characters [l], none of them 0, and the terminator. *)
Record cstr_at (p : Z) (l : list Z) (m : mem) : Prop := {
  cs_bytes : bytes_at p l m;
  cs_chars : 0 ∉ l;
  cs_end : m !! (p + Z.of_nat (length l)) = Some 0
}.

Lemma cstr_at_frame p l m m' P :
  modifies P m m' → (∀ a, p <= a <= p + Z.of_nat (length l) → ¬ P a) → cstr_at p l m → cstr_at p l m'.
Proof.
  intros Hm HP []. split; [|done|].
  - eapply bytes_at_frame; [exact Hm| |done]. intros a Ha. apply HP. lia.
  - rewrite <-cs_end0. apply (Hm _). apply HP. lia.
Qed.

Lemma strlen_loop_spec n p l m : cstr_at p l m → (length l < n)%nat → strlen_loop n p m = Ret (Z.of_nat (length l)) m.
Proof.
  revert p l. induction n as [|n IH]; intros p l [Hb Hc He] Hn; [lia|]. cbn [strlen_loop]. destruct l as [|c l].
  { simpl in He. rewrite Z.add_0_r in He. by rewrite (run_bind _ _ _ _ _ (load8_byte p 0 m ltac:(lia) He)). }
  apply bytes_at_cons in Hb as [[Hr Hp] Hb]. rewrite (run_bind _ _ _ _ _ (load8_byte _ _ _ Hr Hp)).
  apply not_elem_of_cons in Hc as [Hc0 Hc]. rewrite (proj2 (Z.eqb_neq c 0)) by done.
  assert (cstr_at (p + 1) l m) as Ht.
  { split; [done|done|]. rewrite <-He. f_equal. simpl. lia. }
  simpl in Hn. rewrite (run_bind _ _ _ _ _ (IH _ _ Ht ltac:(lia))). unfold mret, M_ret. f_equal. simpl. lia.
Qed.

Lemma strlen_spec p l m : cstr_at p l m → strlen p m = Ret (Z.of_nat (length l)) m.
Proof.
  intros Hc. unfold strlen. apply strlen_loop_spec; [done|]. pose proof Hc as [Hb _ He].
  assert (valid m p (Z.of_nat (length l) + 1)) as Hv%valid_size; [|lia].
  intros a Ha. destruct (decide (a = p + Z.of_nat (length l))) as [->|Hne]; [by rewrite He|].
  destruct (lookup_lt_is_Some_2 l (Z.to_nat (a - p)) ltac:(lia)) as [x Hx]. destruct Hb as [_ Hb].
  specialize (Hb _ _ Hx). rewrite Z2Nat.id in Hb by lia. replace (p + (a - p)) with a in Hb by lia. by rewrite Hb.
Qed.

Lemma cstr_string header p l m :
  cstr_at p l m → Z.of_nat (length l) < 2 ^ 32 →
  ∃ s, string_of_cstr header p m = Ret s m ∧ string_rep s l m ∧ str_data_ s = p.
Proof.
  intros Hc Hl. eexists. split; [unfold string_of_cstr; by rewrite (run_bind _ _ _ _ _ (strlen_spec _ _ _ Hc))|].
  split; [|done]. split; simpl; [by apply u32_small; lia|apply Hc].
Qed.

Lemma id_string_spec i m :
  0 ∈ take MODULE_KEY_SIZE (key_ i) → id_string i m = Ret (id_text i) m.
Proof.
  intros Hin. unfold id_string. assert (existsb (Z.eqb 0) (take MODULE_KEY_SIZE (key_ i)) = true) as ->; [|done].
  apply existsb_exists. exists 0. split; [by apply list_elem_of_In|done].
Qed.

Lemma load_id_spec p l m : bytes_at p l m → length l = MODULE_KEY_SIZE → load_id p m = Ret {| key_ := l |} m.
Proof.
  intros Hb Hl. unfold load_id. by rewrite <-Hl, (run_bind _ _ _ _ _ (load_bytes_spec _ _ _ Hb)).
Qed.

(** The allocating constructor, when what it is given has room for the header
    and the terminator too. *)
Lemma string_new_spec Alloc str m (Q : ipc_string → mem → Prop) :
  Forall (λ c, 0 <= c < 256) str → Z.of_nat (length str) < 2 ^ 32 →
  wp (Alloc (Z.of_nat (length str)))
     (λ p m1, valid m1 p (Z.of_nat (length str) + 5) ∧
        ∀ m2, string_at p str m2 → modifies (span p (Z.of_nat (length str) + 5)) m1 m2 →
          Q {| str_header_ := p; str_data_ := p + 4; str_length_ := Z.of_nat (length str) |} m2) m →
  wp (string_new Alloc str) Q m.
Proof.
  intros Hc Hl HA. unfold string_new. apply wp_bind. eapply wp_mono; [exact HA|]. intros p m1 [Hv HQ].
  autounfold with layout. rewrite u32_small by lia. wp_step. wp_step. wp_step. wp_step. mem_simpl.
  rewrite Z.add_0_r. set (n := Z.of_nat (length str)) in *. set (m2 := write 4 p n m1).
  assert (valid m2 p (n + 5)) as Hv2 by (by apply valid_write).
  apply wp_bind. eapply wp_mono; [apply store_bytes_spec; [apply (valid_sub _ _ _ _ _ Hv2); lia|done]|].
  fold n. intros [] m3 [Hb M3]. assert (valid m3 p (n + 5)) as Hv3 by (by eapply valid_modifies).
  wp_step. wp_step. wp_step. apply HQ.
  - assert (modifies (span (p + 4 + n) 1) m3 (write 1 (p + 4 + n) 0 m3)) as M4 by (apply modifies_write; [vsolve|unfold span; simpl; lia]).
    split; autounfold with layout.
    + rewrite (read_modifies _ _ _ _ _ M4) by (unfold span; simpl; lia).
      rewrite (read_modifies _ _ _ _ _ M3) by (unfold span; simpl; lia). subst m2. by mem_simpl.
    + vsolve.
    + eapply bytes_at_frame; [exact M4| |done]. unfold span. lia.
  - apply modifies_then_write; [|vsolve|unfold span; simpl; lia].
    assert (modifies (span p 4) m1 m2) as M2 by (apply modifies_write; [vsolve|unfold span; simpl; lia]).
    eapply modifies_trans; (eapply modifies_weaken; [eassumption|]); unfold span; lia.
Qed.

(** ** More memory for keys *)

Lemma string_bucket_mono (K K' : Z → Prop) base b l v m :
  (∀ x, K x → K' x) → string_bucket_rep K base b l v m → string_bucket_rep K' base b l v m.
Proof. intros HK []. split; auto. Qed.

Lemma ns_rep_mono (K K' : Z → Prop) ns n iters cap d entries m :
  (∀ x, K x → K' x) → (∀ x, K' x → ¬ mr_span 4 (ns_ids_ ns) cap x ∧ ¬ map_span (key_to_ns_id_ ns) n x) →
  ns_rep (key_mem:=K) ns n iters cap d entries m → ns_rep (key_mem:=K') ns n iters cap d entries m.
Proof.
  intros HK Hsep []. destruct nr_map as (s & Hmap & Hlog). split; try done.
  - exists s. split; [|destruct Hlog; split; assumption]. destruct Hmap. split; try done.
    + intros b Hb. specialize (ur_slots b Hb). destruct (slot s b) as [[a v]|]; [|done].
      destruct ur_slots as [He Hr]. split; [done|]. by eapply string_bucket_mono.
    + intros x Hx. by apply Hsep.
  - intros x Hx Hk. by destruct (Hsep x Hk).
Qed.

(** Changes elsewhere. *)
Lemma ns_rep_frame (K : Z → Prop) ns n iters cap d entries m m' P :
  modifies P m m' → (∀ x, P x → ¬ mr_span 4 (ns_ids_ ns) cap x ∧ ¬ map_span (key_to_ns_id_ ns) n x ∧ ¬ K x) →
  ns_rep (key_mem:=K) ns n iters cap d entries m → ns_rep (key_mem:=K) ns n iters cap d entries m'.
Proof.
  intros Hm HP []. destruct nr_map as (s & Hmap & Hlog). split; try done.
  - eapply mr_rep_frame; [done|exact Hm|]. intros x Hx Px. by destruct (HP x Px).
  - exists s. split; [|done]. eapply um_rep_frame; [done|exact Hm|intros x Hx Px; by destruct (HP x Px) as (? & ? & ?)..].
Qed.

(** ** The namespace with its allocator *)

(** The bytes of the objects [objs]. *)
Definition objs_mem (size : Z) (objs : list Z) (x : Z) : Prop := ∃ p, p ∈ objs ∧ span p size x.

Section keys.
Context (sh : shm).

(** The keys of [entries] are in the objects [live] of the allocator. *)
Record ns_state (ns : Namespace) (n iters cap d : Z) (entries : list (list Z * Z)) (k : nat) (free live : list Z) (m : mem)
    : Prop := {
  nt_ns : ns_rep (key_mem:=objs_mem (ga_size sh) live) ns n iters cap d entries m;
  nt_alloc : ga_rep sh k free live m;
  nt_near : ∀ p, p ∈ free ++ live → 0 < p - um_base_region_ (key_to_ns_id_ ns) < 2 ^ 31;
  nt_own : ∀ x, ga_own sh x → ¬ mr_span 4 (ns_ids_ ns) cap x ∧ ¬ map_span (key_to_ns_id_ ns) n x;
  nt_objs : ∀ x, objs_mem (ga_size sh) (free ++ live) x →
    ga_own sh x ∧ ¬ mr_span 4 (ns_ids_ ns) cap x ∧ ¬ map_span (key_to_ns_id_ ns) n x
}.

(** The bytes of the namespace. *)
Definition ns_bytes (ns : Namespace) (n cap x : Z) : Prop :=
  mr_span 4 (ns_ids_ ns) cap x ∨ map_span (key_to_ns_id_ ns) n x ∨ ga_own sh x.

Lemma ns_state_frame ns n iters cap d entries k free live m m' P :
  modifies P m m' → (∀ x, P x → ¬ ns_bytes ns n cap x) →
  ns_state ns n iters cap d entries k free live m → ns_state ns n iters cap d entries k free live m'.
Proof.
  intros Hm HP []. split; try done.
  - eapply ns_rep_frame; [exact Hm| |done]. intros x Px. split; [|split].
    + intros Hx. apply (HP x Px). by left.
    + intros Hx. apply (HP x Px). right. by left.
    + intros (p & Hp & Hx). destruct (nt_objs0 x) as [Ho _]; [exists p; split; [set_solver|done]|].
      apply (HP x Px). right. by right.
  - eapply ga_client; [done|exact Hm|]. intros x Px Ho. destruct (HP x Px). right. by right.
Qed.

Context (fuel : nat) (Hfuel : (0 < fuel)%nat).

(** A name that is anywhere else in memory is looked up. *)
Lemma ns_find_spec ns n iters cap d entries k free live m key l :
  ns_state ns n iters cap d entries k free live m → string_rep key l m →
  (∀ x, str_data_ key <= x < str_data_ key + Z.of_nat (length l) → ¬ ns_bytes ns n cap x) →
  Namespace_GetNamespaceID ns key m = Ret (default LABSTOR_INVALID_NAMESPACE_KEY (name_index entries.*1 l)) m.
Proof.
  intros [] Hk Hsep. set (K := both (objs_mem (ga_size sh) live) (span (str_data_ key) (Z.of_nat (length l)))).
  assert (ns_rep (key_mem:=K) ns n iters cap d entries m) as Hns.
  { eapply ns_rep_mono; [| |exact nt_ns0]; [by left|]. intros x [(p & Hp & Hx)|Hx].
    - apply nt_objs0. exists p. split; [set_solver|done].
    - split; intros Hy; apply (Hsep x Hx); [by left|right; by left]. }
  destruct (nr_map _ _ _ _ _ _ _ Hns) as (s & Hmap & Hlog). unfold Namespace_GetNamespaceID.
  assert (string_key K key l m) as Hkey by (split; [done|by right]).
  rewrite (run_bind _ _ _ _ _ (um_find_spec fuel Hfuel _ _ _ _ _ _ _ Hmap Hkey)).
  rewrite (li_find _ _ _ _ Hlog), first_set_index. by destruct (name_index entries.*1 l).
Qed.

Context (tid : Z) (Htid : 0 <= tid < 2 ^ 32).

Lemma ns_add_string_spec ns n iters cap d entries k free live str module m :
  ns_state ns n iters cap d entries k free live m → free ≠ [] → Forall (λ c, 0 <= c < 256) str →
  Z.of_nat (length str) + 5 <= ga_size sh → ga_size sh < 2 ^ 31 → Z.of_nat (length entries) < Z.min n iters →
  wp (Namespace_AddKey_string fuel (alloc_by_tid (sh_alloc sh) tid) ns str module)
     (λ r m', r.2 = Z.of_nat (length entries) ∧ ns_ids_ r.1 = ns_ids_ ns ∧ key_to_ns_id_ r.1 = key_to_ns_id_ ns ∧
        private_state_ r.1 = private_state_ ns ++ [mod_ptr module] ∧
        modifies (ns_bytes ns n cap) m m' ∧ ∃ p free', free ≡ₚ p :: free' ∧
        ns_state r.1 n iters cap d (entries ++ [(str, mod_ptr module)]) k free' (p :: live) m') m.
Proof.
  intros Hst Hne Hc Hsz Hs31 Hlen. pose proof Hst as []. unfold Namespace_AddKey_string. apply wp_bind.
  apply string_new_spec; [done|lia|]. unfold alloc_by_tid. rewrite (u32_small tid) by done.
  eapply wp_mono; [exact (ga_alloc_spec sh k free live m _ tid nt_alloc0 Htid)|].
  intros p m1 [M1 [(_ & Hnil & _)|(free' & Hp0 & Hperm & Ha1)]]; [done|].
  assert (∀ q, q ∈ free ++ live ↔ q ∈ free' ++ p :: live) as Hobjs.
  { intros q. rewrite Hperm. set_solver. }
  destruct (ga_objects _ _ _ _ _ Ha1) as [Hnd Hob].
  assert (p ∉ live) as Hpl by (apply NoDup_app in Hnd as (_ & _ & Hnd2); by apply NoDup_cons in Hnd2 as [? _]).
  assert (p ∈ free' ++ p :: live) as Hpin by set_solver.
  split. { destruct (Hob p p Hpin Hpin) as [_ Hv]. apply (valid_sub _ _ _ _ _ Hv); lia. }
  intros m2 Hat M2. set (str_at := {| str_header_ := p |}).
  assert (∀ x, span p (ga_size sh) x → ¬ objs_mem (ga_size sh) live x) as Hnew.
  { intros x Hx (q & Hq & Hy). destruct (Hob p q Hpin ltac:(set_solver)) as [[->|Ho] _]; [done|].
    unfold outside, span in *. lia. }
  assert (ns_rep (key_mem:=objs_mem (ga_size sh) live) ns n iters cap d entries m2) as Hns2.
  { eapply ns_rep_frame; [exact M2| |eapply ns_rep_frame; [exact M1| |done]].
    - intros x Hx. assert (span p (ga_size sh) x) as Hx' by (unfold span in *; lia).
      destruct (nt_objs0 x) as (_ & ? & ?); [exists p; split; [by apply Hobjs|done]|]. split; [done|]. split; [done|auto].
    - intros x [Hx Hb]. destruct (nt_own0 x Hx). split; [done|]. split; [done|].
      intros (q & Hq & Hy). apply (Hb q); [set_solver|exact Hy]. }
  assert (∀ x, objs_mem (ga_size sh) (p :: live) x →
    ga_own sh x ∧ ¬ mr_span 4 (ns_ids_ ns) cap x ∧ ¬ map_span (key_to_ns_id_ ns) n x) as Hlive.
  { intros x (q & Hq & Hx). apply nt_objs0. exists q. split; [apply Hobjs; set_solver|done]. }
  assert (ga_rep sh k free' (p :: live) m2) as Ha2.
  { eapply ga_client; [exact Ha1|exact M2|]. intros x Hx _. exists p. split; [set_solver|]. unfold span in Hx. lia. }
  eapply wp_mono; [apply (ns_add_spec (key_mem:=objs_mem (ga_size sh) (p :: live)) fuel ns n iters cap d entries m2 str_at str module Hfuel)|].
  - eapply ns_rep_mono; [| |exact Hns2].
    + intros x (q & Hq & Hx). exists q. split; [set_solver|done].
    + intros x Hx. apply (Hlive x Hx).
  - assert (∀ x, span p (4 + Z.of_nat (length str)) x → objs_mem (ga_size sh) (p :: live) x) as Hin.
    { intros x Hx. exists p. split; [set_solver|]. unfold span in *. lia. }
    split; [split; [split; [done|apply Hat]|]|exact Hat|apply nt_near0; by apply Hobjs|exact Hin].
    simpl. intros x Hx. apply Hin. unfold span. lia.
  - done.
  - intros [ns' id] m3 (Hid & Hns3 & Hmap & Hids & M3). cbn [fst snd] in *. split; [done|]. split; [done|]. split; [done|].
    split; [rewrite (nr_private _ _ _ _ _ _ _ Hns3), (nr_private _ _ _ _ _ _ _ nt_ns0); by rewrite fmap_app|].
    split.
    { eapply modifies_trans; [eapply modifies_weaken; [exact M1|intros x [Hx _]; right; by right]|].
      eapply modifies_trans; [eapply modifies_weaken; [exact M2|]|eapply modifies_weaken; [exact M3|]].
      - intros x Hx. right. right. apply (Hlive x). exists p. split; [set_solver|unfold span in *; lia].
      - intros x [Hx|Hx]; [by left|right; by left]. }
    exists p, free'. split; [done|]. split; [done| | | |].
    + eapply ga_client; [exact Ha2|exact M3|]. intros x [Hx|Hx] Ho; by destruct (nt_own0 x Ho).
    + intros q Hq. rewrite Hmap. apply nt_near0. by apply Hobjs.
    + by rewrite Hids, Hmap.
    + rewrite Hids, Hmap. intros x (q & Hq & Hx). apply nt_objs0. exists q. split; [by apply Hobjs|done].
Qed.

End keys.

(** The modules of the names. *)
Lemma ns_module_spec sh ns n iters cap d entries k free live m i :
  ns_state sh ns n iters cap d entries k free live m →
  Namespace_GetModule ns (Z.of_nat i) = default 0 (entries.*2 !! i).
Proof.
  intros []. unfold Namespace_GetModule. rewrite (nr_private _ _ _ _ _ _ _ nt_ns0), Nat2Z.id, (proj2 (Z.leb_le _ _)) by lia.
  simpl. destruct (Z.ltb_spec (Z.of_nat i) (Z.of_nat (length entries.*2))); [done|].
  by rewrite lookup_ge_None_2 by lia.
Qed.

(** ** A new namespace *)

Lemma wp_same {A} (c c' : M A) (Q : A → mem → Prop) m : c m = c' m → wp c' Q m → wp c Q m.
Proof. unfold wp. by intros ->. Qed.

(** Without a depth, the ring uses all of its region. *)
Lemma ring_init_zero region cap m :
  0 < cap < 2 ^ 28 →
  ring_buffer_Init 4 region (ring_buffer_GetSize_global 4 cap) 0 m = ring_buffer_Init 4 region (ring_buffer_GetSize_global 4 cap) cap m.
Proof.
  intros Hc. unfold ring_buffer_Init, ring_buffer_GetSize_global. autounfold with layout. change (Z.of_nat 4) with 4.
  rewrite (u32_small (24 + 4 * cap)), (u32_small (24 + 4 * 0)) by lia.
  assert (u32 (u64 (24 + 4 * cap - 24) / 4) = cap) as E.
  { rewrite u64_small by lia. replace (24 + 4 * cap - 24) with (cap * 4) by lia. rewrite Z.div_mul by lia. apply u32_small. lia. }
  rewrite E. rewrite (proj2 (Z.ltb_ge (24 + 4 * cap) (24 + 4 * 0))), (proj2 (Z.ltb_ge (24 + 4 * cap) (24 + 4 * cap))) by lia.
  rewrite (proj2 (Z.eqb_neq cap 0)) by lia. done.
Qed.

(** Without a number of buckets, the map has as many as its region was made
    for. *)
Lemma map_init_zero base region n max_collisions m :
  0 < n < 2 ^ 24 →
  unordered_map_Init base region (@unordered_map_GetSize_global _ _ string_bucket n) 0 max_collisions m =
  unordered_map_Init base region (@unordered_map_GetSize_global _ _ string_bucket n) n max_collisions m.
Proof.
  intros Hn. unfold unordered_map_Init, unordered_map_GetSize_global, unordered_map_GetHeaderSize.
  rewrite !bit2map_size by lia. change (Z.of_nat (@bucket_size _ _ string_bucket)) with 8. autounfold with layout.
  assert (n <= 16 * ((n + 15) / 16) < n + 16) as Hd by mod_lia.
  change ((0 + 15) / 16) with 0. rewrite (u32_small (8 + 4 * ((n + 15) / 16))), (u32_small (8 + 4 * 0)) by lia.
  rewrite (u32_small (8 + 4 * ((n + 15) / 16) + 8 * n)), (u32_small (8 + 4 * 0 + 8 * 0)) by lia.
  rewrite (proj2 (Z.ltb_ge _ (8 + 4 * 0 + 8 * 0))), (proj2 (Z.ltb_ge _ (8 + 4 * ((n + 15) / 16) + 8 * n))) by lia.
  rewrite (u64_small (_ - 8)) by lia. rewrite (u32_small (_ - 8)) by lia. change LABSTOR_BIT2MAP_ENTRIES_PER_BLOCK with 16.
  rewrite (u32_small ((_ - 8) * 16)) by lia.
  assert ((8 + 4 * ((n + 15) / 16) + 8 * n - 8) * 16 / (8 * 16 + 4) = n) as E.
  { symmetry. apply (Z.div_unique _ _ n (64 * ((n + 15) / 16) - 4 * n)); lia. }
  rewrite E. change (0 =? 0) with true. cbn iota. rewrite (proj2 (Z.eqb_neq n 0)) by lia. cbn iota.
  rewrite (proj2 (Z.eqb_neq n 0)) by lia. reflexivity.
Qed.

(** The layout of the region: ring, map, allocator. *)
Section layout.
Context (o : NamespaceOptions) (nprocs region : Z).
#[local] Abbreviation e := (no_max_entries o).

Definition ns_map_at : Z := region + (24 + 4 * e).
Definition ns_keys_at : Z := ns_map_at + map_size e.
Definition ns_keys_size : Z := no_shmem_kb o * 1024 - (24 + 4 * e) - map_size e.
Definition ns_shm : shm := shm_of region ns_keys_at ns_keys_size (no_shmem_request_unit o) nprocs.

(** The options fit into the region, of which 8 more bytes are mapped (the
    allocator lays its pools out behind its header). *)
Record namespace_fits (k : nat) (m : mem) : Prop := {
  nf_entries : 0 < e < 2 ^ 24;
  nf_unit : 0 < no_shmem_request_unit o < 2 ^ 31;
  nf_kb : no_shmem_kb o < 2 ^ 20;
  nf_region : region ≠ 0;
  nf_nprocs : nprocs ≠ 0;
  nf_size : 0 <= ns_keys_size;
  nf_alloc : shm_fits region ns_keys_at ns_keys_size (no_shmem_request_unit o) nprocs;
  nf_counters : let objs := ns_keys_size / nprocs / (no_shmem_request_unit o + 2) in
    (objs | 2 ^ 32) ∨ 2 * objs + Z.of_nat k <= 2 ^ 32;
  nf_valid : valid m region (no_shmem_kb o * 1024 + 8)
}.

Lemma map_size_bounds n : 0 < n < 2 ^ 24 → 12 <= map_size n < 2 ^ 28.
Proof.
  intros Hn. unfold map_size. autounfold with layout. change (Z.of_nat bucket_size) with 8.
  assert (1 <= (n + 15) / 16 < 2 ^ 24) by mod_lia. lia.
Qed.

Lemma namespace_new_spec fuel fresh region_id k m :
  (0 < fuel)%nat → namespace_fits k m → 0 <= region_id →
  wp (Server_Namespace_new nprocs fresh o region_id region)
     (λ sn m', sn_shmem_alloc_ sn = sh_alloc ns_shm ∧ sn_region_id_ sn = region_id ∧ sn_region_size_ sn = no_shmem_kb o * 1024 ∧
        sn_max_entries_ sn = e ∧ ns_ids_ (sn_namespace sn) = ring_buffer_Attach region ∧
        um_header_ (key_to_ns_id_ (sn_namespace sn)) = ns_map_at ∧
        um_base_region_ (key_to_ns_id_ (sn_namespace sn)) = region ∧
        ns_state ns_shm (sn_namespace sn) e 17 e 0 [] k (shm_objects ns_shm) [] m' ∧
        modifies (span region (no_shmem_kb o * 1024 + 8)) m m') m.
Proof.
  intros Hf [] Hid. pose proof (map_size_bounds e nf_entries0) as Hms.
  assert (unordered_map_GetSize_global e = map_size e) as Esz.
  { unfold unordered_map_GetSize_global, unordered_map_GetHeaderSize, map_size. rewrite bit2map_size by lia.
    autounfold with layout. change (Z.of_nat bucket_size) with 8. assert (0 <= (e + 15) / 16 < 2 ^ 24) by mod_lia.
    rewrite (u32_small (8 + _)), u32_small by lia. lia. }
  assert (ring_buffer_GetSize_global 4 e = 24 + 4 * e) as Ers.
  { unfold ring_buffer_GetSize_global. autounfold with layout. rewrite u32_small by lia. done. }
  unfold ns_keys_size in nf_size0.
  unfold Server_Namespace_new. rewrite (proj2 (Z.ltb_ge _ _)), (proj2 (Z.eqb_neq _ _)) by done.
  rewrite (u32_small (no_shmem_kb o * 1024)), (u32_small (_ * 1)), Z.mul_1_r by lia.
  apply wp_bind, (wp_same _ _ _ _ (ring_init_zero region e m ltac:(lia))). rewrite Ers. eapply wp_mono.
  { apply mr_init_spec; autounfold with layout; try lia. apply (valid_sub _ _ _ _ _ nf_valid0); lia. }
  intros ids m1 (-> & Hring & M1). autounfold with layout in M1.
  assert (ring_buffer_GetSize 4 (ring_buffer_Attach region) m1 = Ret (24 + 4 * e) m1) as Hsize.
  { apply wp_exact. unfold ring_buffer_GetSize. destruct Hring. autounfold with layout in *. simpl in *. wp_go.
    rewrite mr_max, Ers. done. }
  eapply wp_bind_run; [exact Hsize|]. unfold ring_buffer_GetNextSection. rewrite (u32_small (_ - (24 + 4 * e))) by lia.
  apply wp_bind. eapply wp_bind_run; [exact Hsize|]. apply wp_ret.
  change (mr_header_ (ring_buffer_Attach region) + (24 + 4 * e)) with ns_map_at.
  apply wp_bind, (wp_same _ _ _ _ (map_init_zero region ns_map_at e 16 m1 ltac:(lia))). rewrite Esz. eapply wp_mono.
  { apply (um_init_spec (key_mem:=objs_mem (ga_size ns_shm) []) fuel Hf region ns_map_at (map_size e) e 16 m1); try lia.
    - eapply valid_modifies; [exact M1|]. apply (valid_sub _ _ _ _ _ nf_valid0); unfold ns_map_at; lia.
    - intros x (p & Hp & _). by apply not_elem_of_nil in Hp. }
  intros t m2 (Ht & Hb & Hmap & M2).
  assert (@unordered_map_GetSize _ _ string_bucket t = map_size e) as Etz.
  { unfold unordered_map_GetSize. by rewrite (f_equal um_num_buckets_ (ur_handle _ _ _ _ _ Hmap)). }
  unfold shared_map_GetNextSection. rewrite Etz, Ht, (u32_small (_ - map_size e)) by lia.
  fold ns_keys_at. fold ns_keys_size. apply wp_bind.
  assert (∀ m, labstor_shmem_allocator_Init Userspace fresh nprocs region ns_keys_at ns_keys_size (no_shmem_request_unit o) 0 m =
    labstor_shmem_allocator_Init Userspace fresh nprocs region ns_keys_at ns_keys_size (no_shmem_request_unit o) nprocs m) as Einit.
  { intros m'. unfold labstor_shmem_allocator_Init. change (0 =? 0) with true. cbn iota. by destruct (nprocs =? 0). }
  apply (wp_same _ _ _ _ (Einit m2)). eapply wp_mono.
  { apply shm_init_full; [done| |exact nf_counters0]. eapply valid_modifies; [exact M2|]. eapply valid_modifies; [exact M1|].
    unfold ns_keys_size, ns_keys_at, ns_map_at. apply (valid_sub _ _ _ _ _ nf_valid0); lia. }
  intros a m3 (-> & Hs & M3). apply wp_ret. cbn [sn_shmem_alloc_ sn_region_id_ sn_region_size_ sn_max_entries_ sn_namespace ns_ids_ key_to_ns_id_].
  do 7 (split; [done|]). split.
  2: { eapply modifies_trans; [eapply modifies_weaken; [exact M1|unfold span; lia]|].
       eapply modifies_trans; [eapply modifies_weaken; [exact M2|]|eapply modifies_weaken; [exact M3|]];
         unfold span, ns_keys_size, ns_keys_at, ns_map_at; lia. }
  assert (∀ x, span ns_keys_at (ns_keys_size + 8) x →
    ¬ mr_span 4 (ring_buffer_Attach region) e x ∧ ¬ map_span t e x) as Hsep.
  { intros x. unfold mr_span, map_span, span. rewrite Ht. unfold ns_keys_at, ns_map_at. autounfold with layout. simpl. lia. }
  split; cbn [ns_ids_ key_to_ns_id_].
  - eapply ns_rep_frame; [exact M3| |].
    { intros x Hx. cbn [ns_ids_ key_to_ns_id_]. destruct (Hsep x Hx). split; [done|]. split; [done|].
      intros (p & Hp & _). by apply not_elem_of_nil in Hp. }
    split; cbn [ns_ids_ key_to_ns_id_ private_state_]; try done.
    + eapply mr_rep_frame; [exact Hring|exact M2|]. unfold mr_span, span, ns_map_at. autounfold with layout. simpl. intros; lia.
    + eexists. split; [exact Hmap|]. apply log_inv_empty. lia.
    + intros x. unfold mr_span, map_span, span. rewrite Ht. unfold ns_map_at. autounfold with layout. simpl. lia.
    + intros x _ (p & Hp & _). by apply not_elem_of_nil in Hp.
  - exact Hs.
  - intros p Hp. rewrite app_nil_r in Hp. apply (shm_of_object _ _ _ _ _ _ nf_alloc0) in Hp. rewrite Hb.
    unfold ns_keys_at, ns_map_at, ns_keys_size in Hp. lia.
  - intros x Hx. apply Hsep. apply (shm_of_own _ _ _ _ _ _ nf_alloc0) in Hx. unfold span. lia.
  - intros x (p & Hp & Hx). rewrite app_nil_r in Hp. split.
    + eapply shm_object_own; [done|exact Hp|]. unfold span in Hx. simpl in Hx. lia.
    + apply Hsep. apply (shm_of_object _ _ _ _ _ _ nf_alloc0) in Hp. unfold span in *. simpl in Hx. lia.
Qed.

(** The bytes of the namespace are in the region. *)
Lemma ns_bytes_region ns k m x :
  namespace_fits k m → ns_ids_ ns = ring_buffer_Attach region → um_header_ (key_to_ns_id_ ns) = ns_map_at →
  ns_bytes ns_shm ns e e x → span region (no_shmem_kb o * 1024 + 8) x.
Proof.
  intros [] Hids Hmap Hx. pose proof (map_size_bounds e nf_entries0). unfold ns_keys_size in nf_size0.
  unfold span. destruct Hx as [Hx|[Hx|Hx]].
  - rewrite Hids in Hx. unfold mr_span, span in Hx. autounfold with layout in Hx. simpl in Hx. lia.
  - unfold map_span, span in Hx. rewrite Hmap in Hx. unfold ns_map_at in Hx. lia.
  - apply (shm_of_own _ _ _ _ _ _ nf_alloc0) in Hx. unfold ns_keys_at, ns_keys_size, ns_map_at in Hx. lia.
Qed.

(** A client that attaches to the region has the same tables. *)
Lemma client_attach_spec ns iters d entries k free live m :
  0 < e < 2 ^ 24 → 1 < iters < 2 ^ 31 → ns_ids_ ns = ring_buffer_Attach region → um_header_ (key_to_ns_id_ ns) = ns_map_at →
  um_base_region_ (key_to_ns_id_ ns) = region → ns_state ns_shm ns e iters e d entries k free live m →
  ∃ c alloc, Client_Namespace_Attach region m = Ret (c, alloc) m ∧ ns_ids_ c = ns_ids_ ns ∧ key_to_ns_id_ c = key_to_ns_id_ ns.
Proof.
  intros He Hit Hids Hmap Hbase []. destruct nt_ns0 as [Hring (s & Hum & _) _ _ _]. rewrite Hids in Hring.
  assert (ring_buffer_GetNextSection 4 (ring_buffer_Attach region) m = Ret ns_map_at m) as Hnext.
  { apply wp_exact. unfold ring_buffer_GetNextSection, ring_buffer_GetSize, ring_buffer_GetSize_global.
    destruct Hring. autounfold with layout in *. simpl in *. wp_go. rewrite mr_max, u32_small by lia. done. }
  pose proof (um_attach_spec 1 Nat.lt_0_1 _ _ _ _ _ Hum) as Hat. rewrite Hbase, Hmap in Hat. destruct Hum. rewrite Hmap in *.
  pose proof (map_size_bounds e He). autounfold with layout in *.
  exists {| ns_ids_ := ring_buffer_Attach region; key_to_ns_id_ := key_to_ns_id_ ns; private_state_ := []; module_id_to_instance_ := ∅ |}.
  eexists. split; [|by rewrite Hids].
  apply wp_exact. unfold Client_Namespace_Attach. eapply wp_bind_run; [exact Hnext|]. eapply wp_bind_run; [exact Hat|].
  eapply wp_bind_run; [exact Hnext|]. unfold labstor_shmem_allocator_Attach. autounfold with layout. apply wp_bind. wp_go.
  apply wp_udiv; [rewrite ur_max, s32_small, u32_small; lia|]. do 2 apply wp_ret. split; [reflexivity|done].
Qed.
End layout.

(** The namespace after the constructor and [Init]. *)
Lemma namespace_started fuel tid fresh o nprocs region region_id registrar k m :
  (0 < fuel)%nat → 0 <= tid < 2 ^ 32 → namespace_fits o nprocs region k m → 0 <= region_id →
  14 <= no_shmem_request_unit o → shm_objects (ns_shm o nprocs region) ≠ [] →
  wp (sn ← Server_Namespace_new nprocs fresh o region_id region; Server_Namespace_Init fuel tid sn registrar)
     (λ r m', r.2 = LABSTOR_REGISTRAR_ID ∧ sn_shmem_alloc_ r.1 = sh_alloc (ns_shm o nprocs region) ∧
        ns_ids_ (sn_namespace r.1) = ring_buffer_Attach region ∧
        um_header_ (key_to_ns_id_ (sn_namespace r.1)) = ns_map_at o region ∧
        um_base_region_ (key_to_ns_id_ (sn_namespace r.1)) = region ∧
        (∃ p free, shm_objects (ns_shm o nprocs region) ≡ₚ p :: free ∧
           ns_state (ns_shm o nprocs region) (sn_namespace r.1) (no_max_entries o) 17 (no_max_entries o) 0
             [(LABSTOR_REGISTRAR_MODULE_ID, registrar)] k free [p] m') ∧
        modifies (span region (no_shmem_kb o * 1024 + 8)) m m') m.
Proof.
  intros Hf Htid Hfit Hid Hunit Hobjs. pose proof (nf_entries _ _ _ _ _ Hfit) as He. apply wp_bind.
  eapply wp_mono; [by apply (namespace_new_spec o nprocs region fuel fresh region_id k m)|].
  intros sn m1 (Ha & _ & _ & _ & Hids & Hmap & Hbase & Hst & M1). unfold Server_Namespace_Init. apply wp_bind. rewrite Ha.
  eapply wp_mono.
  { apply (ns_add_string_spec (ns_shm o nprocs region) fuel Hf tid Htid (sn_namespace sn) _ _ _ _ _ _ _ _ LABSTOR_REGISTRAR_MODULE_ID
      {| mod_ptr := registrar; mod_id := LABSTOR_REGISTRAR_MODULE_ID |} m1 Hst Hobjs).
    - repeat (constructor; [lia|]). constructor.
    - simpl. lia.
    - simpl. pose proof (nf_unit _ _ _ _ _ Hfit). lia.
    - simpl. lia. }
  intros [ns2 id] m2 (Hid2 & Hids2 & Hmap2 & _ & M2 & p & free' & Hperm & Hst2). cbn [fst snd] in *.
  apply wp_ret. cbn [fst snd sn_namespace sn_shmem_alloc_]. rewrite Hids2, Hmap2. do 5 (split; [done|]).
  split; [by exists p, free'|]. eapply modifies_trans; [exact M1|]. eapply modifies_weaken; [exact M2|].
  intros x Hx. by eapply (ns_bytes_region o nprocs region (sn_namespace sn)).
Qed.

(** The namespace of a server that starts: the tables and the allocator
    fit into the region of the configuration, the registrar is the first
    module and gets the id 0 that every client sends its requests to, its name
    and no other is found, and a client that attaches to the region finds the
    same table of names; no byte outside the region changes. *)
Theorem server_namespace_starts fuel tid fresh o nprocs region region_id registrar k m :
  (0 < fuel)%nat → 0 <= tid < 2 ^ 32 → namespace_fits o nprocs region k m → 0 <= region_id →
  14 <= no_shmem_request_unit o → shm_objects (ns_shm o nprocs region) ≠ [] →
  wp (sn ← Server_Namespace_new nprocs fresh o region_id region; Server_Namespace_Init fuel tid sn registrar)
     (λ r m', r.2 = LABSTOR_REGISTRAR_ID ∧
        Namespace_GetModule (sn_namespace r.1) LABSTOR_REGISTRAR_ID = registrar ∧
        (∃ c alloc, Client_Namespace_Attach region m' = Ret (c, alloc) m' ∧
           key_to_ns_id_ c = key_to_ns_id_ (sn_namespace r.1)) ∧
        (∀ key l, string_rep key l m' →
           (∀ x, str_data_ key <= x < str_data_ key + Z.of_nat (length l) → ¬ span region (no_shmem_kb o * 1024 + 8) x) →
           Namespace_GetNamespaceID (sn_namespace r.1) key m' =
           Ret (if decide (l = LABSTOR_REGISTRAR_MODULE_ID) then LABSTOR_REGISTRAR_ID else LABSTOR_INVALID_NAMESPACE_KEY) m') ∧
        modifies (span region (no_shmem_kb o * 1024 + 8)) m m') m.
Proof.
  intros Hf Htid Hfit Hid Hunit Hobjs. pose proof (nf_entries _ _ _ _ _ Hfit) as He.
  eapply wp_mono; [by apply (namespace_started fuel tid fresh o nprocs region region_id registrar k m)|].
  intros [sn id] m2 (Hr & _ & Hids & Hmap & Hbase & (p & free & _ & Hst) & M). cbn [fst snd] in *. split; [done|].
  split; [change LABSTOR_REGISTRAR_ID with (Z.of_nat 0); by erewrite ns_module_spec by exact Hst|]. split; [|split; [|done]].
  - destruct (client_attach_spec o nprocs region (sn_namespace sn) 17 0 _ k _ _ m2 He ltac:(lia) Hids Hmap Hbase Hst) as (c & al & Hc & _ & Hk).
    by exists c, al.
  - intros key l Hkey Hsep. rewrite (ns_find_spec _ fuel Hf _ _ _ _ _ _ _ _ _ _ key l Hst Hkey).
    + simpl. destruct (decide (LABSTOR_REGISTRAR_MODULE_ID = l)) as [<-|Hne]; [by rewrite decide_True|].
      rewrite decide_False by congruence. done.
    + intros x Hx Hb. apply (Hsep x Hx). by eapply ns_bytes_region.
Qed.

(** A region of one kilobyte with 16 names of up to 27 characters, on one
    processor. *)
Definition ex_ns_options : NamespaceOptions :=
  {| no_max_entries := 16; no_max_collisions := 3; no_shmem_request_unit := 32; no_shmem_kb := 1 |}.

Lemma ex_ns_fits m : valid m 4096 1032 → namespace_fits ex_ns_options 1 4096 100 m.
Proof.
  intros Hv. split; simpl; try lia.
  - change (ns_keys_size ex_ns_options) with 796. lia.
  - change (ns_keys_size ex_ns_options) with 796. change (ns_keys_at ex_ns_options 4096) with 4324.
    split; try lia. intros i Hi. assert (i = 0) as -> by lia. change (796 / 1) with 796. split; try lia.
    change (796 / (32 + 2)) with 23. lia.
  - change (ns_keys_size ex_ns_options) with 796. right. change (796 / 1 / (32 + 2)) with 23. lia.
  - exact Hv.
Qed.

Lemma server_namespace_starts_witness :
  wp (sn ← Server_Namespace_new 1 (labstor_private_shmem_allocator_Attach 0 0) ex_ns_options 3 4096;
      Server_Namespace_Init 1 7 sn 6000)
     (λ r m', r.2 = 0 ∧ Namespace_GetModule (sn_namespace r.1) 0 = 6000) (zero_region 4096 1032).
Proof.
  eapply wp_mono.
  { apply (server_namespace_starts 1 7 (labstor_private_shmem_allocator_Attach 0 0) ex_ns_options 1 4096 3 6000 100).
    - lia.
    - lia.
    - apply ex_ns_fits. exact (valid_zero_region 4096 1032).
    - lia.
    - simpl. lia.
    - discriminate. }
  intros r m' (Hr & Hm & _). by split.
Defined.
