(* ===== verification/ClientCalls.v ===== *)
(** * ClientCalls.v: a call of a module from a client

    The clients of the modules (labmods/*/client) all work the same way: they
    take the queue pair of the thread, allocate a request, fill it in, enqueue
    it, wait for the token, read the answer and free the request.  Between the
    enqueue and the wait a worker of the server serves the queue.  This file
    has the two halves of such a call ([submit_request], [collect_request]),
    the pass of the worker between them, and their specifications. *)

From S2P Require Import Prelude Memory RingBuffer RequestQueue QueuePair WorkQueue QueuePool MpmcRing UnorderedMap.
From S2P Require Import Allocators AllocatorSpec Namespace ModuleTable IpcManager Kernel KernelWorker UserWorker ServerModules.

Local Open Scope Z_scope.

(** ** The client's side *)

Section client.
Context (fuel : nat) (tid : Z) (c : ClientIPC).

(** [AllocRequest<T>(qp, size)] and [FreeRequest<T>(qtok, rq)] of the memory
    manager of the client. *)
Definition Client_AllocRequest (qp size : Z) : M Z :=
  h ← deref (ci_heap c !! qp);
  qid ← queue_pair_qid h;
  MemoryManager_AllocRequest (ci_mem c) tid (qid_flags_ qid) size.

Definition Client_FreeRequest (qtok : labstor_qtok_t) (rq : Z) : M unit :=
  MemoryManager_FreeRequest fuel (ci_mem c) (qid_flags_ (qtok_qid_ qtok)) rq.

(** [qp->Enqueue(rq, qtok)]. *)
Definition Client_Enqueue (qp rq : Z) : M labstor_qtok_t :=
  h ← deref (ci_heap c !! qp); labstor_queue_pair_Enqueue fuel h rq.

(** From [AllocRequest] to the enqueue; [start] fills the request in. *)
Definition submit_on (qp size : Z) (start : Z → M unit) : M labstor_qtok_t :=
  rq ← Client_AllocRequest qp size;
  _ ← start rq;
  Client_Enqueue qp rq.

(** With [GetQueuePair(qp, 0)]. *)
Definition submit_request (size : Z) (start : Z → M unit) : M labstor_qtok_t :=
  qp ← Client_GetQueuePair c tid 0 0; submit_on qp size start.

(** From [Wait(qtok)] to [FreeRequest(ftok, rq)]; [finish] reads the answer. *)
Definition collect_as {A} (ftok : labstor_qtok_t) (finish : Z → M A) (qtok : labstor_qtok_t) : M A :=
  rq ← Client_Wait fuel c qtok;
  a ← finish rq;
  _ ← Client_FreeRequest ftok rq;
  mret a.

Definition collect_request {A} (finish : Z → M A) (qtok : labstor_qtok_t) : M A := collect_as qtok finish qtok.
End client.

(** ** What the client relies on *)

Section client_spec.
Context (fuel : nat) (tid : Z) (c : ClientIPC) (q : user_queue) (cp : Z) (shc : shm).

(** The queue of the thread is [q], at [cp] in the heap of the client; its
    requests are the objects of the shared allocator [shc]. *)
Record client_env : Prop := {
  ce_fuel : (0 < fuel)%nat;
  ce_tid : 0 <= tid < 2 ^ 32;
  ce_layout : user_layout q;
  ce_queue : ∀ m, Client_GetQueuePair c tid 0 0 m = Ret cp m;
  ce_heap : ci_heap c !! cp = Some (uq_handle q);
  ce_lookup : ∃ ref, QueuePool_GetQueuePair_qid (ci_pool c) (uq_qid q) = Some ref ∧ qpr_ptr ref = cp;
  ce_shmem : LABSTOR_QP_IS_SHMEM (qid_flags_ (uq_qid q)) = true;
  ce_alloc : mm_shmem_alloc_ (ci_mem c) = Some (sh_alloc shc);
  ce_unit : uq_size q = ga_size shc;
  ce_own : ∀ a, ga_own shc a → ¬ sq_bytes (uq_handle q) (uq_cap q) a ∧ ¬ cq_bytes (uq_handle q) (uq_cap q) a
}.
Hypothesis Henv : client_env.

Record client_rel (st : qp_abs) (k : nat) (free live : list Z) (m : mem) : Prop := {
  cr_q : user_rel q st m;
  cr_alloc : ga_rep shc k free live m;
  cr_objs : ∀ p, p ∈ uq_objs q ↔ p ∈ free ++ live
}.

(** What the client may change. *)
Definition client_bytes (a : Z) : Prop := uq_bytes q a ∨ ga_own shc a.

Lemma run_client_alloc m : alloc_of (ci_mem c) (qid_flags_ (uq_qid q)) m = Ret (sh_alloc shc) m.
Proof. unfold alloc_of. rewrite (ce_shmem Henv), (ce_alloc Henv). done. Qed.

Lemma client_book_apart st k free live m a :
  client_rel st k free live m → bookkeeping (ga_own shc) (ga_size shc) (free ++ live) a → ¬ uq_bytes q a.
Proof.
  intros [] [Ho Hn]. destruct (ce_own Henv a Ho) as [H1 H2]. intros [H|[H|(p & Hp & Hx)]]; [done|done|].
  apply (Hn p); [by apply cr_objs0|]. rewrite <-(ce_unit Henv). exact Hx.
Qed.

(** The bytes of the queue without the allocator's. *)
Lemma client_qframe st st' k free live m m' P :
  client_rel st k free live m → modifies P m m' →
  (∀ a, P a → ga_own shc a → ∃ p, p ∈ live ∧ span p (uq_size q) a) → user_rel q st' m' → client_rel st' k free live m'.
Proof.
  intros [] Hm HP Hq. split; [done| |done]. apply (ga_client shc k free live m m' P); [done|done|].
  intros x Px Ho. destruct (HP x Px Ho) as (p & Hp & Hx). exists p. split; [done|]. rewrite <-(ce_unit Henv). exact Hx.
Qed.

(** A property of a request that does not depend on its id. *)
Definition request_local (A : Z → mem → Prop) : Prop := ∀ rq m m' P,
  modifies P m m' → (∀ a, rq + 4 <= a < rq + uq_size q → ¬ P a) → A rq m → A rq m'.

Lemma submit_on_spec st k free live m size start (A : Z → mem → Prop) :
  client_rel st k free live m → free ≠ [] → has_room (uq_cap q) st → request_local A →
  (∀ rq m1, valid m1 rq (uq_size q) →
     wp (start rq) (λ _ m2, A rq m2 ∧ modifies (λ a, rq + 4 <= a < rq + uq_size q) m1 m2) m1) →
  wp (submit_on fuel tid c cp size start)
     (λ tok m', tok = {| qtok_qid_ := uq_qid q; qtok_req_id_ := u32 (qa_enq st) |} ∧ modifies client_bytes m m' ∧
        (∀ p x, p ∈ live → span p (uq_size q) x → m' !! x = m !! x) ∧
        ∃ rq free', free ≡ₚ rq :: free' ∧ client_rel (enqueued st rq) k free' (rq :: live) m' ∧ A rq m') m.
Proof.
  intros Hr Hne (Hlen & Hwin & Hok) Hloc Hstart. pose proof Hr as []. pose proof (ce_layout Henv) as Hl. pose proof (ul_size _ Hl) as Hsz.
  unfold submit_on. apply wp_bind. unfold Client_AllocRequest.
  rewrite (ce_heap Henv). apply wp_bind, wp_ret. eapply wp_bind_run.
  { eapply queue_pair_qid_run, qid_ready_rep, (qr_sq _ _ _ _ _ _ (ur_qp _ _ _ cr_q0)). }
  unfold MemoryManager_AllocRequest. eapply wp_bind_run; [apply run_client_alloc|]. rewrite u32_small by apply (ce_tid Henv).
  eapply wp_mono; [exact (ga_alloc_spec shc k free live m size tid cr_alloc0 (ce_tid Henv))|].
  intros rq m1 [M1 [(_ & Hnil & _)|(free' & _ & Hperm & Ha)]]; [done|].
  assert (∀ p, p ∈ uq_objs q ↔ p ∈ free' ++ rq :: live) as Hobjs by (intros p; rewrite cr_objs0, Hperm; set_solver).
  assert (rq ∈ uq_objs q) as Hrq by (apply Hobjs; set_solver).
  assert (client_rel st k free' (rq :: live) m1) as Hr1.
  { split; [|done|done]. eapply user_rel_frame; [done|done|exact M1|]. intros a. by eapply client_book_apart. }
  pose proof (ur_valid _ _ _ (cr_q _ _ _ _ _ Hr1) _ Hrq) as Hv.
  apply wp_bind. eapply wp_mono; [by apply Hstart|]. intros [] m2 [HA M2].
  assert (client_rel st k free' (rq :: live) m2) as Hr2.
  { eapply client_qframe; [exact Hr1|exact M2| |].
    - intros a Ha' _. exists rq. split; [set_solver|unfold span; simpl in Ha'; lia].
    - eapply (user_write q Hl st m1 rq); [apply Hr1|done|exact M2|done]. }
  unfold Client_Enqueue. rewrite (ce_heap Henv). apply wp_bind, wp_ret. pose proof Hr2 as [].
  eapply wp_mono.
  { apply (qp_enqueue_spec (uq_handle q) (uq_qid q) (uq_cap q) (uq_objs q) (ul_qp _ Hl) (ul_attach _ Hl) fuel st m2 rq
      (enqueued st rq) (RTok (u32 (qa_enq st)))); [apply Henv|apply cr_q1|]. simpl. by rewrite decide_True. }
  intros tok m3 ((-> & _) & Hq & M3). split; [done|]. split.
  { eapply modifies_trans; [eapply modifies_weaken; [exact M1|intros a [Ho _]; by right]|].
    eapply modifies_trans; [eapply modifies_weaken; [exact M2|]|eapply modifies_weaken; [exact M3|]]; intros a Ha'; left.
    - right. right. exists rq. split; [done|unfold span; simpl in Ha'; lia].
    - destruct Ha' as [Ha'|Ha']; [by left|]. right. right. exists rq. split; [done|unfold span in *; lia]. }
  split.
  { intros p x Hp Hx. destruct (ga_objects _ _ _ _ _ Ha) as [Hnd _]. assert (p ∈ uq_objs q) as Hpo by (apply Hobjs; set_solver).
    assert (p ≠ rq) as Hpr. { intros ->. apply NoDup_app in Hnd as (_ & _ & [Hn _]%NoDup_cons). done. }
    pose proof (ul_objs _ Hl p rq Hpo Hrq Hpr) as Hsep. unfold outside in Hsep. rewrite (proj2 (M3 x)), (proj2 (M2 x)).
    - apply (M1 x). intros [_ Hn]. apply (Hn p); [set_solver|]. rewrite <-(ce_unit Henv). exact Hx.
    - unfold span in Hx. simpl. lia.
    - intros [H|H]; [by apply (request_not_sq q Hl p x Hpo Hx)|unfold span in *; lia]. }
  exists rq, free'. split; [done|]. split.
  - eapply client_qframe; [exact Hr2|exact M3| |].
    + intros a [Ha'|Ha'] Ho; [by destruct (ce_own Henv a Ho)|]. exists rq. split; [set_solver|unfold span in *; lia].
    + split; [done|]. intros p Hp. eapply valid_modifies; [exact M3|]. by apply (ur_valid _ _ _ cr_q1).
  - eapply Hloc; [exact M3| |exact HA]. intros a Ha' [Hs|Hs]; [|unfold span in Hs; lia].
    apply (request_not_sq q Hl rq a Hrq); [unfold span; lia|done].
Qed.

Lemma submit_request_spec st k free live m size start (A : Z → mem → Prop) :
  client_rel st k free live m → free ≠ [] → has_room (uq_cap q) st → request_local A →
  (∀ rq m1, valid m1 rq (uq_size q) →
     wp (start rq) (λ _ m2, A rq m2 ∧ modifies (λ a, rq + 4 <= a < rq + uq_size q) m1 m2) m1) →
  wp (submit_request fuel tid c size start)
     (λ tok m', tok = {| qtok_qid_ := uq_qid q; qtok_req_id_ := u32 (qa_enq st) |} ∧ modifies client_bytes m m' ∧
        ∃ rq free', free ≡ₚ rq :: free' ∧ client_rel (enqueued st rq) k free' (rq :: live) m' ∧ A rq m') m.
Proof.
  intros Hr Hne Hroom Hloc Hstart. unfold submit_request. eapply wp_bind_run; [apply (ce_queue Henv)|].
  eapply wp_mono; [by apply submit_on_spec|]. by intros tok m' (? & ? & _ & ?).
Qed.

Lemma collect_as_spec {A} st k free live live' m id rq ftok (finish : Z → M A) a :
  client_rel st (S k) free live m → live ≡ₚ rq :: live' → qa_cq st !! id = Some rq → qtok_qid_ ftok = uq_qid q →
  (∀ m1, modifies (cq_bytes (uq_handle q) (uq_cap q)) m m1 → finish rq m1 = Ret a m1) →
  wp (collect_as fuel c ftok finish {| qtok_qid_ := uq_qid q; qtok_req_id_ := u32 id |})
     (λ r m', r = a ∧ modifies client_bytes m m' ∧ (∀ p x, p ∈ uq_objs q → span p (uq_size q) x → m' !! x = m !! x) ∧
        ∃ free', free' ≡ₚ rq :: free ∧ client_rel (waited st id) k free' live' m') m.
Proof.
  intros Hr Hlive Hcq Hf Hfin. pose proof Hr as []. pose proof (ce_layout Henv) as Hl. destruct (ce_lookup Henv) as (ref & Href & Hcp).
  unfold collect_as, Client_Wait, QueuePool_GetQueuePair_qtok. cbn [qtok_qid_ qtok_req_id_]. rewrite Href.
  apply wp_bind, wp_bind, wp_ret. rewrite Hcp, (ce_heap Henv). apply wp_bind, wp_ret. eapply wp_mono.
  { apply (qp_wait_spec (uq_handle q) (uq_qid q) (uq_cap q) (uq_objs q) (ul_qp _ Hl) fuel st m id rq); [apply Henv|apply cr_q0|done]. }
  intros r m1 (-> & Hq & M1). eapply wp_bind_run; [by apply Hfin|].
  assert (client_rel (waited st id) (S k) free live m1) as Hr1.
  { eapply client_qframe; [exact Hr|exact M1| |].
    - intros x Hx Ho. by destruct (ce_own Henv x Ho).
    - split; [done|]. intros p Hp. eapply valid_modifies; [exact M1|]. by apply (ur_valid _ _ _ cr_q0). }
  apply wp_bind. unfold Client_FreeRequest, MemoryManager_FreeRequest. rewrite Hf.
  eapply wp_bind_run; [apply run_client_alloc|]. apply shm_free_fuel; [apply Henv|].
  eapply wp_mono; [exact (ga_free_spec shc k free live live' m1 rq (cr_alloc _ _ _ _ _ Hr1) Hlive)|].
  intros [] m2 [M2 (free' & Hperm & Ha)]. apply wp_ret. split; [done|]. split; [|split].
  { eapply modifies_trans; (eapply modifies_weaken; [eassumption|]); intros x Hx; [left; right; by left|right; apply Hx]. }
  { intros p x Hp Hx. rewrite (proj2 (M2 x)); [apply (M1 x)|].
    - pose proof (ul_cq _ Hl p Hp) as Ho. revert Ho Hx. unfold cq_bytes, rm_span, span, outside. autounfold with layout. simpl. lia.
    - intros [_ Hn]. apply (Hn p); [by apply cr_objs0|]. rewrite <-(ce_unit Henv). exact Hx. }
  exists free'. split; [done|]. split; [|done|].
  - eapply user_rel_frame; [done|apply Hr1|exact M2|]. intros x. by eapply client_book_apart.
  - intros p. rewrite cr_objs0, Hperm, Hlive. set_solver.
Qed.

Lemma collect_spec {A} st k free live live' m id rq (finish : Z → M A) a :
  client_rel st (S k) free live m → live ≡ₚ rq :: live' → qa_cq st !! id = Some rq →
  (∀ m1, modifies (cq_bytes (uq_handle q) (uq_cap q)) m m1 → finish rq m1 = Ret a m1) →
  wp (collect_request fuel c finish {| qtok_qid_ := uq_qid q; qtok_req_id_ := u32 id |})
     (λ r m', r = a ∧ modifies client_bytes m m' ∧ ∃ free', free' ≡ₚ rq :: free ∧ client_rel (waited st id) k free' live' m') m.
Proof.
  intros Hr Hlive Hcq Hfin. eapply wp_mono; [by apply (collect_as_spec st k free live live' m id rq _ finish a)|].
  by intros r m' (? & ? & _ & ?).
Qed.
End client_spec.

(** ** The server's side *)

(** A pass of a worker whose only queue has one request, whatever its module
    does to the state of the server and to the memory. *)
Lemma do_work_single process fuel q wq wcap s st st' rq m (Q : (unit + stop) * server → mem → Prop) :
  user_layout q → wqs_queue_ wq = wqs_header_ wq + sizeof_wq_header →
  vec_rep sizeof_wq_secure_entry rd_secure (wqs_header_ wq) wcap [uq_entry q] m →
  si_heap (sv_ipc s) !! uq_ptr q = Some (uq_handle q) →
  Server_GetQueuePair (sv_ipc s) (uq_qid q) m = Ret (uq_ptr q) m →
  user_rel q st m → qa_sq st = [rq] → rq ∈ uq_objs q → qa_sq st' = [rq] →
  Namespace_GetModule (sv_namespace s) (request_ns rq m) ≠ 0 →
  wp (process (Namespace_GetModule (sv_namespace s) (request_ns rq m)) (uq_ptr q) rq (uq_creds q) s)
     (λ r m1, r.1 = inl true ∧ si_heap (sv_ipc r.2) !! uq_ptr q = Some (uq_handle q) ∧ user_rel q st' m1 ∧
        ∀ m2, user_rel q (popped st') m2 → modifies (sq_bytes (uq_handle q) (uq_cap q)) m1 m2 → Q (inl tt, r.2) m2) m →
  wp (DoWork process fuel wq s) Q m.
Proof.
  intros Hl Hwq Hvec Hheap Hlook Hrel Hsq Hobj Hsq' Hmod Hproc. pose proof (ul_size _ Hl) as Hsz.
  unfold DoWork. apply wp_bind, wp_ulift_bind. pose proof Hvec as []. unfold labstor_work_queue_secure_GetDepth.
  autounfold with layout in *. apply wp_load; [apply (valid_sub _ _ _ _ _ vr_valid); simpl; lia|].
  rewrite vr_enq. cbn [length]. change (Z.to_nat (Z.of_nat 1)) with 1%nat. cbn [worker_queues].
  apply wp_ulift_bind, wp_run. eexists _, _. split; [apply (wqs_peek_spec _ _ _ _ _ Hvec Hwq); simpl; lia|].
  change ([uq_entry q] !! Z.to_nat 0) with (Some (uq_entry q)). cbn iota. unfold uq_entry at 1. cbn [fst snd].
  pose proof (qr_sq _ _ _ _ _ _ (ur_qp _ _ _ Hrel)) as Hring.
  apply (wp_handle _ _ _ _ _ _ Hheap), wp_ulift_bind, wp_run. eexists _, _. split; [by eapply queue_pair_qid_run, qid_ready_rep|].
  apply wp_uget, wp_ulift_bind, wp_run. eexists _, _. split; [exact Hlook|]. apply (wp_handle _ _ _ _ _ _ Hheap), wp_ulift_bind, wp_run.
  eexists _, _. split; [exact (get_depth_spec _ _ _ _ _ (lr_ring _ _ _ _ _ _ Hring))|]. rewrite length_fmap, Hsq. cbn [length].
  change (Z.to_nat (Z.of_nat 1)) with 1%nat. apply wp_ubind. cbn [worker_requests].
  apply (wp_handle _ _ _ _ _ _ Hheap), wp_ulift_bind, wp_run. eexists _, _. split; [by eapply user_peek|]. cbn iota.
  apply wp_ulift_bind, wp_load; [apply (valid_sub _ _ _ _ _ (ur_valid _ _ _ Hrel _ Hobj)); autounfold with layout; simpl; lia|].
  fold (request_ns rq m). apply wp_uget. rewrite (proj2 (Z.eqb_neq _ _) Hmod).
  apply wp_ubind. eapply wp_mono; [exact Hproc|]. intros [r s1] m1 (Hr & Hh1 & Hrel1 & HQ). cbn [fst snd] in *. subst r. cbn [fst snd].
  apply (wp_handle _ _ _ _ _ _ Hh1), wp_ulift_bind. eapply wp_mono; [by eapply (user_dequeue q Hl st' m1 rq [])|].
  intros r m2 (-> & Hrel2 & M2). apply wp_ret, wp_ret. cbn [fst snd]. apply wp_ret. by apply HQ.
Qed.

(** ** A call *)

(** A member function of a client: the size of its request, how it is filled
    in, and how the answer is read. *)
Record client_call (A : Type) := {
  cc_size : Z;
  cc_start : Z → M unit;
  cc_finish : Z → M A
}.
Arguments cc_size {A}.
Arguments cc_start {A}.
Arguments cc_finish {A}.

(** The function of the client by itself: it waits until somebody serves the
    request. *)
Definition run_call {A} (fuel : nat) (tid : Z) (c : ClientIPC) (cc : client_call A) : M A :=
  qtok ← submit_request fuel tid c (cc_size cc) (cc_start cc);
  collect_request fuel c (cc_finish cc) qtok.

(** With a pass of a worker of the server while the client waits. *)
Definition served_call {A} (fuel : nat) (tid : Z) (c : ClientIPC) (process : Z → Z → Z → Z → UM bool)
    (wq : labstor_work_queue_secure) (cc : client_call A) : UM A :=
  qtok ← ulift (submit_request fuel tid c (cc_size cc) (cc_start cc));
  _ ← DoWork process fuel wq;
  ulift (collect_request fuel c (cc_finish cc) qtok).

(** A queue on which nothing is under way. *)
Record idle (st : qp_abs) : Prop := {
  id_sq : qa_sq st = [];
  id_out : qa_out st = ∅;
  id_cq : qa_cq st = ∅
}.

(** The state after a call that used the request [rq]. *)
Definition after_call (st : qp_abs) (rq : Z) : qp_abs :=
  {| qa_enq := qa_enq st + 1; qa_sq := []; qa_ids := <[rq := qa_enq st]> (qa_ids st); qa_out := ∅; qa_cq := ∅ |}.

Lemma idle_after st rq : idle (after_call st rq).
Proof. by split. Qed.

Lemma idle_pending objs st rq : idle st → rq ∈ objs → pending objs (enqueued st rq) rq (qa_enq st).
Proof.
  intros [] Hrq. split; [done|]. split; [by simpl; rewrite lookup_insert_eq|]. split; [set_solver|]. simpl. by rewrite id_cq0.
Qed.

Lemma idle_waited st rq :
  idle st → waited (popped (completed (enqueued st rq) rq (qa_enq st))) (qa_enq st) = after_call st rq.
Proof.
  intros []. unfold waited, popped, completed, enqueued, after_call. simpl. rewrite id_sq0, id_cq0, id_out0. simpl. f_equal.
  - set_solver.
  - rewrite delete_insert_eq. apply delete_empty.
Qed.

Section served.
Context (fuel : nat) (tid : Z) (c : ClientIPC) (q : user_queue) (cp : Z) (shc : shm).
Context (process : Z → Z → Z → Z → UM bool) (wq : labstor_work_queue_secure) (wcap : Z).

(** The client of [client_env], and a worker whose only queue is [q]; [N]: the
    memory that the modules keep to themselves. *)
Record served_env (N : Z → Prop) : Prop := {
  se_client : client_env fuel tid c q cp shc;
  se_wq : wqs_queue_ wq = wqs_header_ wq + sizeof_wq_header;
  se_wq_apart : ∀ a, uwq_bytes wq wcap a → ¬ client_bytes q shc a;
  se_own : ∀ a, N a → ¬ client_bytes q shc a ∧ ¬ uwq_bytes wq wcap a
}.

(** A client, a server that finds the queue, and the entry of the worker. *)
Record calling (s : server) (st : qp_abs) (k : nat) (free : list Z) (m : mem) : Prop := {
  ca_client : client_rel q shc st k free [] m;
  ca_idle : idle st;
  ca_heap : si_heap (sv_ipc s) !! uq_ptr q = Some (uq_handle q);
  ca_lookup : ∀ m, Server_GetQueuePair (sv_ipc s) (uq_qid q) m = Ret (uq_ptr q) m;
  ca_work : vec_rep sizeof_wq_secure_entry rd_secure (wqs_header_ wq) wcap [uq_entry q] m
}.

(** What a handler does with the request: it completes it, changes no more
    than the request, the completions and its own memory, and leaves in the
    request what [cc_finish] reads as [a]. *)
Definition handled {A} (N : Z → Prop) (s : server) (st : qp_abs) (rq : Z) (cc : client_call A) (a : A)
    (Post : server → mem → Prop) (m : mem) : Prop :=
  Namespace_GetModule (sv_namespace s) (request_ns rq m) ≠ 0 ∧
  wp (process (Namespace_GetModule (sv_namespace s) (request_ns rq m)) (uq_ptr q) rq (uq_creds q) s)
     (λ r m', r.1 = inl true ∧ sv_ipc r.2 = sv_ipc s ∧ user_rel q (completed (enqueued st rq) rq (qa_enq st)) m' ∧
        modifies (both (rq_bytes q rq) N) m m' ∧ Post r.2 m' ∧
        ∀ m2, modifies (λ x, ¬ span rq (uq_size q) x) m' m2 → cc_finish cc rq m2 = Ret a m2) m.

Lemma served_call_spec {A} N (cc : client_call A) (Ask : Z → mem → Prop) Post s st k free m a :
  served_env N → calling s st (S k) free m → free ≠ [] → 0 < uq_cap q → ids_ok (uq_cap q) (qa_enq st + 1) = true →
  request_local q Ask →
  (∀ rq m1, valid m1 rq (uq_size q) →
     wp (cc_start cc rq) (λ _ m2, Ask rq m2 ∧ modifies (λ a, rq + 4 <= a < rq + uq_size q) m1 m2) m1) →
  (∀ rq m1, rq ∈ uq_objs q → Ask rq m1 → user_rel q (enqueued st rq) m1 → modifies (client_bytes q shc) m m1 →
     handled N s st rq cc a Post m1) →
  (∀ s m m', modifies (client_bytes q shc) m m' → Post s m → Post s m') →
  wp (served_call fuel tid c process wq cc s)
     (λ r m', r.1 = inl a ∧ Post r.2 m' ∧
        ∃ rq free', free' ≡ₚ free ∧ calling r.2 (after_call st rq) k free' m') m.
Proof.
  intros [Hce Hwq Hwa HN] Hca Hne Hcap Hids Hloc Hstart Hserve Hpost. pose proof Hca as []. pose proof ca_idle0 as [].
  pose proof (ce_layout _ _ _ _ _ _ Hce) as Hl. unfold served_call. apply wp_ulift_bind. eapply wp_mono.
  { apply (submit_request_spec fuel tid c q cp shc Hce st (S k) free [] m _ _ Ask ca_client0 Hne); [|done|done].
    split; [by rewrite id_sq0|]. split; [by rewrite id_out0|done]. }
  intros tok m1 (-> & M1 & rq & free1 & Hperm1 & Hr1 & HA).
  assert (rq ∈ uq_objs q) as Hrq by (apply (cr_objs _ _ _ _ _ _ _ Hr1); set_solver).
  destruct (Hserve rq m1 Hrq HA (cr_q _ _ _ _ _ _ _ Hr1) M1) as [Hmod Hwp].
  apply wp_ubind. eapply (do_work_single process fuel q wq wcap s (enqueued st rq) (completed (enqueued st rq) rq (qa_enq st)) rq);
    [done|done| |done|apply ca_lookup0|apply Hr1|simpl; by rewrite id_sq0|done|simpl; by rewrite id_sq0|done|].
  { eapply (vec_frame sizeof_wq_secure_entry rd_secure); [done|exact ca_work0|exact M1|]. intros a0 Ha Hb. exact (Hwa a0 Hb Ha). }
  eapply wp_mono; [exact Hwp|]. intros [r s1] m2 (Hres & Hipc & Hq2 & M2 & HP & Hfin). cbn [fst snd] in *.
  split; [done|]. rewrite Hipc. split; [done|]. split; [done|]. intros m3 Hq3 M3.
  assert (∀ x, rq_bytes q rq x → client_bytes q shc x) as Hrb by (intros x Hx; left; by apply (rq_bytes_uq q rq)).
  assert (∀ x, sq_bytes (uq_handle q) (uq_cap q) x → client_bytes q shc x) as Hsb by (intros x Hx; left; by left).
  assert (client_rel q shc (popped (completed (enqueued st rq) rq (qa_enq st))) (S k) free1 [rq] m3) as Hr3.
  { assert (modifies (both (both (rq_bytes q rq) N) (sq_bytes (uq_handle q) (uq_cap q))) m1 m3) as M13.
    { eapply modifies_trans; (eapply modifies_weaken; [eassumption|]); intros x Hx; [by left|by right]. }
    eapply (client_qframe fuel tid c q cp shc Hce); [exact Hr1|exact M13|..].
    - intros x Hx Ho. destruct (ce_own _ _ _ _ _ _ Hce x Ho) as [Hns Hnc].
      destruct Hx as [[[Hx|Hx]|Hx]|Hx]; [done| | |done].
      + exists rq. split; [set_solver|done].
      + destruct (HN x Hx) as [Hn _]. exfalso. apply Hn. by right.
    - done. }
  assert (∀ x, span rq (uq_size q) x → ¬ cq_bytes (uq_handle q) (uq_cap q) x) as Hncq.
  { intros x. pose proof (ul_cq _ Hl rq Hrq) as Ho. revert Ho. unfold cq_bytes, rm_span, span, outside.
    autounfold with layout. simpl. lia. }
  apply wp_ulift. eapply wp_mono.
  { apply (collect_spec fuel tid c q cp shc Hce _ k free1 [rq] [] m3 (qa_enq st) rq (cc_finish cc) a Hr3); [done| |].
    - simpl. by rewrite lookup_insert_eq.
    - intros m4 M4. apply Hfin. eapply modifies_trans; (eapply modifies_weaken; [eassumption|]); intros x Hx Hs.
      + by apply (request_not_sq q Hl rq x Hrq Hs).
      + by apply (Hncq x Hs). }
  intros r' m4 (-> & M4 & free2 & Hperm2 & Hr4). cbn [fst snd]. split; [done|]. split.
  { eapply Hpost; [exact M4|]. eapply Hpost; [|exact HP]. by eapply modifies_weaken. }
  exists rq, free2. split; [by rewrite Hperm2, Hperm1|]. rewrite idle_waited in Hr4 by done.
  split; [done|apply idle_after|by rewrite Hipc|by rewrite Hipc|].
  assert (modifies (both (client_bytes q shc) N) m m4) as M.
  { eapply modifies_trans; [eapply modifies_weaken; [exact M1|by left]|].
    eapply modifies_trans; [eapply modifies_weaken; [exact M2|intros x [Hx|Hx]; [left; auto|by right]]|].
    eapply modifies_trans; (eapply modifies_weaken; [eassumption|intros x Hx; left; auto]). }
  eapply (vec_frame sizeof_wq_secure_entry rd_secure); [done|exact ca_work0|exact M|].
  intros x [Hy|Hy] Hx; [exact (Hwa x Hx Hy)|by destruct (HN x Hy)].
Qed.
End served.
