(* ===== verification/Registrar.v ===== *)
(** * Registrar.v: the registrar of the server

    labmods/registrar/registrar.h and
    labmods/registrar/server/registrar_server.cpp.  The registrar is the
    module with namespace id 0.  It makes instances of the modules of the
    module manager and gives them a name and a namespace id, finds the id of a
    name and the client library of an id, takes upgrades and ends the server. *)

From S2P Require Import Prelude Memory RingBuffer RequestQueue QueuePair WorkQueue QueuePool MpmcRing UnorderedMap ShmemString.
From S2P Require Import MapBuckets Allocators AllocatorSpec Namespace ModuleTable IpcManager Kernel KernelWorker UserWorker ServerModules ServerNamespace.

Local Open Scope Z_scope.

(** ** registrar.h *)

(** [enum class Ops]. *)
Definition kInit : Z := 0.
Definition kGetModulePath : Z := 1.
Definition kGetNamespaceId : Z := 2.
Definition kPushUpgrade : Z := 3.
Definition kTerminate : Z := 4.

(** [register_request], [namespace_id_request], [module_path_request] and
    [upgrade_request]: members after the 16 bytes of [labstor::ipc::request]. *)
Definition rgr_module_id_ : Z := 16.
Definition rgr_key_ : Z := 16 + Z.of_nat MODULE_KEY_SIZE.
Definition sizeof_register_request : Z := 16 + 2 * Z.of_nat MODULE_KEY_SIZE.
Definition nir_key_ : Z := 16.
Definition sizeof_namespace_id_request : Z := 16 + Z.of_nat MODULE_KEY_SIZE.
Definition mpr_module_ns_id_ : Z := 16.
Definition mpr_module_path_ : Z := 20.
Definition sizeof_module_path_request : Z := 20.
Definition ugr_yaml_path_ : Z := 16.
Definition sizeof_upgrade_request : Z := 16.
Definition sizeof_terminate_request : Z := 16.

#[export] Hint Unfold rgr_module_id_ rgr_key_ nir_key_ mpr_module_ns_id_ mpr_module_path_ ugr_yaml_path_ : layout.

(** [labstor::id::copy] in memory; [strcpy] writes the same bytes. *)
Definition store_cstr (p : Z) (str : list Z) : M unit :=
  _ ← store_bytes p str; store8 (p + Z.of_nat (length str)) 0.

(** The first two members every request sets. *)
Definition start_registrar (rq op : Z) : M unit :=
  _ ← store32 (rq + rq_ns_id_) LABSTOR_REGISTRAR_ID; store16 (rq + rq_op_) op.

Definition ConstructModuleStart (module_id key : list Z) (rq : Z) : M unit :=
  _ ← start_registrar rq kInit;
  _ ← store_cstr (rq + rgr_module_id_) module_id;
  store_cstr (rq + rgr_key_) key.

Definition ConstructModuleEnd (rq ns_id : Z) : M unit := store32 (rq + rq_ns_id_) ns_id.

Definition GetNamespaceIDStart (key : list Z) (rq : Z) : M unit :=
  _ ← start_registrar rq kGetNamespaceId; store_cstr (rq + nir_key_) key.

Definition GetNamespaceIDEnd (rq ns_id code : Z) : M unit :=
  _ ← store32 (rq + rq_code_) code; store32 (rq + rq_ns_id_) ns_id.

Definition GetModulePathStart (ns_id rq : Z) : M unit :=
  _ ← store32 (rq + rq_ns_id_) LABSTOR_REGISTRAR_ID;
  _ ← store_s32 (rq + mpr_module_ns_id_) ns_id;
  store16 (rq + rq_op_) kGetModulePath.

Definition GetModulePathEnd (rq : Z) (module_path : list Z) (code : Z) : M unit :=
  _ ← store32 (rq + rq_code_) code; store_cstr (rq + mpr_module_path_) module_path.

(** [GetModulePath()] of the request: the characters up to the terminator. *)
Definition module_path_text (rq : Z) : M (list Z) :=
  n ← strlen (rq + mpr_module_path_); load_bytes (rq + mpr_module_path_) (Z.to_nat n).

(** [memcpy] of the characters: no terminator. *)
Definition PushUpgradeStart (yaml_path : list Z) (rq : Z) : M unit :=
  _ ← start_registrar rq kPushUpgrade; store_bytes (rq + ugr_yaml_path_) yaml_path.

Definition PushUpgradeEnd (rq : Z) : M unit := store32 (rq + rq_code_) LABSTOR_REQUEST_SUCCESS.

Definition TerminateStart (rq : Z) : M unit := start_registrar rq kTerminate.
Definition TerminateEnd (rq : Z) : M unit := mret tt.

(** ** registrar_server.cpp *)

(** [construct create objects]: the object that the constructor [create]
    makes when [objects] are the modules there are. *)
Section registrar_server.
Context (fuel : nat) (tid : Z) (construct : Z → gmap Z (list Z) → Module).

(** [create()]. *)
Definition create_module (create : Z) : UM Module :=
  s ← u_get;
  let module := construct create (sv_module_id_ s) in
  _ ← u_put (with_module_id s (mod_ptr module) (mod_id module));
  mret module.

Definition Registrar_Initialize (qp rq : Z) : UM bool :=
  module_id ← ulift (load_id (rq + rgr_module_id_));
  create ← u_modules (ModuleTable_GetModuleConstructor (id_text module_id));
  module ← create_module create;
  if mod_ptr module =? 0 then u_exit 1
  else
    key ← ulift (load_id (rq + rgr_key_));
    s ← u_get;
    r ← ulift (Namespace_AddKey_id fuel (alloc_by_tid (sv_shmem_alloc_ s) tid) (sv_namespace s) key module);
    _ ← u_put (with_namespace s r.1);
    _ ← ulift (ConstructModuleEnd rq (u32 (s32 r.2)));
    _ ← complete_request fuel qp rq;
    mret true.

Definition Registrar_GetNamespaceId (qp rq : Z) : UM bool :=
  key ← ulift (string_of_cstr 0 (rq + nir_key_));
  s ← u_get;
  ns_id ← ulift (Namespace_GetNamespaceID (sv_namespace s) key);
  _ ← ulift (if ns_id =? u32 (-1)
             then GetNamespaceIDEnd rq ns_id (u32 LABSTOR_REQUEST_FAILED)
             else GetNamespaceIDEnd rq ns_id LABSTOR_REQUEST_SUCCESS);
  _ ← complete_request fuel qp rq;
  mret true.

(** A null pointer is dereferenced for an id without a module. *)
Definition Registrar_GetModulePath (qp rq : Z) : UM bool :=
  module_ns_id ← ulift (load_s32 (rq + mpr_module_ns_id_));
  s ← u_get;
  let module := Namespace_GetModule (sv_namespace s) (u32 module_ns_id) in
  module_id ← ulift (if module =? 0 then fault else deref (sv_module_id_ s !! module));
  path ← u_modules (Server_GetModulePath module_id kClient);
  _ ← ulift (GetModulePathEnd rq path LABSTOR_REQUEST_SUCCESS);
  _ ← complete_request fuel qp rq;
  mret true.

(** The request is kept for the upgrade thread, which does not complete it. *)
Definition Registrar_PushUpgrade (rq : Z) : UM bool := _ ← u_modules (ModuleTable_PushUpgrade rq); mret true.

Definition Registrar_Terminate (qp rq : Z) : UM bool :=
  _ ← ulift (TerminateEnd rq); _ ← complete_request fuel qp rq; u_exit 0.

Definition Registrar_ProcessRequest (qp rq creds : Z) : UM bool :=
  op ← ulift (load16 (rq + rq_op_));
  if op =? kInit then Registrar_Initialize qp rq
  else if op =? kGetNamespaceId then Registrar_GetNamespaceId qp rq
  else if op =? kGetModulePath then Registrar_GetModulePath qp rq
  else if op =? kPushUpgrade then Registrar_PushUpgrade rq
  else if op =? kTerminate then Registrar_Terminate qp rq
  else mret true.
End registrar_server.

(** ** Requests in memory *)

Lemma store_cstr_spec p str m :
  valid m p (Z.of_nat (length str) + 1) → Forall (λ c, 0 <= c < 256) str → 0 ∉ str →
  wp (store_cstr p str) (λ _ m', cstr_at p str m' ∧ modifies (span p (Z.of_nat (length str) + 1)) m m') m.
Proof.
  intros Hv Hc H0. unfold store_cstr. apply wp_bind.
  eapply wp_mono; [apply store_bytes_spec; [by apply (valid_sub _ _ _ _ _ Hv); lia|done]|]. intros [] m1 [Hb M1].
  assert (valid m1 p (Z.of_nat (length str) + 1)) as Hv1 by (by eapply valid_modifies).
  apply wp_store; [apply (valid_sub _ _ _ _ _ Hv1); simpl; lia|].
  set (n := Z.of_nat (length str)) in *. set (m2 := write 1 (p + n) 0 m1).
  assert (modifies (span (p + n) 1) m1 m2) as M2
    by (apply modifies_write; [apply (valid_sub _ _ _ _ _ Hv1); simpl; lia|unfold span; simpl; lia]).
  split; [split; [|done|]|].
  - eapply bytes_at_frame; [exact M2| |done]. fold n. unfold span. lia.
  - fold n. unfold m2. by rewrite lookup_write, decide_True, Z.sub_diag by (simpl; lia).
  - eapply modifies_trans; (eapply modifies_weaken; [eassumption|]); unfold span; lia.
Qed.

(** Bytes that start with a string of C. *)
Lemma load_bytes_cstr n p l m :
  cstr_at p l m → (length l < n)%nat → valid m p (Z.of_nat n) →
  ∃ r, load_bytes p n m = Ret (l ++ 0 :: r) m ∧ (length l + S (length r) = n)%nat.
Proof.
  assert (∀ k q, valid m q (Z.of_nat k) → ∃ r, load_bytes q k m = Ret r m ∧ length r = k) as Hany.
  { induction k as [|k IH]; intros q Hv; [by exists []|]. simpl.
    destruct (IH (q + 1)) as (r & Hr & Hlen); [apply (valid_sub _ _ _ _ _ Hv); lia|].
    exists (read 1 q m :: r). split; [|simpl; lia]. apply wp_exact. apply wp_bind, wp_load; [apply (valid_sub _ _ _ _ _ Hv); simpl; lia|].
    eapply wp_bind_run; [exact Hr|]. by apply wp_ret. }
  revert p l. induction n as [|n IH]; intros p l [Hb Hc He] Hl Hv; [lia|]. cbn [load_bytes]. destruct l as [|c l].
  - simpl in He. rewrite Z.add_0_r in He. destruct (Hany n (p + 1)) as (r & Hr & Hlen); [apply (valid_sub _ _ _ _ _ Hv); lia|].
    exists r. rewrite (run_bind _ _ _ _ _ (load8_byte p 0 m ltac:(lia) He)), (run_bind _ _ _ _ _ Hr). split; [done|simpl; lia].
  - apply bytes_at_cons in Hb as [[Hr Hp] Hb]. apply not_elem_of_cons in Hc as [_ Hc]. simpl in Hl.
    destruct (IH (p + 1) l) as (r & Hl' & Hlen); [|lia|apply (valid_sub _ _ _ _ _ Hv); lia|].
    + split; [done|done|]. rewrite <-He. f_equal. simpl. lia.
    + exists r. rewrite (run_bind _ _ _ _ _ (load8_byte _ _ _ Hr Hp)), (run_bind _ _ _ _ _ Hl'). split; [done|simpl; lia].
Qed.

Lemma cstr_id p l m :
  cstr_at p l m → (length l < MODULE_KEY_SIZE)%nat → valid m p (Z.of_nat MODULE_KEY_SIZE) →
  ∃ i, load_id p m = Ret i m ∧ id_text i = l ∧ ∀ m', id_string i m' = Ret l m'.
Proof.
  intros Hc Hl Hv. destruct (load_bytes_cstr _ _ _ _ Hc Hl Hv) as (r & Hr & Hlen).
  assert (take MODULE_KEY_SIZE (l ++ 0 :: r) = l ++ 0 :: r) as Ht by (apply take_ge; rewrite length_app; simpl; lia).
  assert (id_text {| key_ := l ++ 0 :: r |} = l) as Htext.
  { unfold id_text. cbn [key_]. rewrite Ht. apply c_str_app, Hc. }
  eexists. split; [|split; [exact Htext|]].
  - unfold load_id. by rewrite (run_bind _ _ _ _ _ Hr).
  - intros m'. rewrite id_string_spec; [by rewrite Htext|]. cbn [key_]. rewrite Ht. set_solver.
Qed.

Lemma cstr_text rq l m :
  cstr_at (rq + mpr_module_path_) l m → module_path_text rq m = Ret l m.
Proof.
  intros Hc. unfold module_path_text. rewrite (run_bind _ _ _ _ _ (strlen_spec _ _ _ Hc)), Nat2Z.id.
  apply load_bytes_spec, Hc.
Qed.

Lemma name_index_range names l i : name_index names l = Some i → 0 <= i < Z.of_nat (length names).
Proof.
  revert i. induction names as [|x names IH]; intros i H; simpl in *; [done|]. destruct (decide (x = l)); simplify_eq; [lia|].
  destruct (name_index names l) as [j|]; simplify_eq/=. specialize (IH j eq_refl). lia.
Qed.

Lemma GetNamespaceIDEnd_spec rq ns_id code m :
  valid m rq 16 → 0 <= ns_id < 2 ^ 32 → 0 <= code < 2 ^ 32 →
  wp (GetNamespaceIDEnd rq ns_id code)
     (λ _ m', (read 4 (rq + rq_ns_id_) m' = ns_id ∧ read 4 (rq + rq_code_) m' = code) ∧ modifies (span (rq + 4) 8) m m') m.
Proof.
  intros Hv Hn Hc. unfold GetNamespaceIDEnd. autounfold with layout in *. wp_go. split; [split|].
  - by rewrite read32_write, u32_small.
  - rewrite read_write_other by (simpl; lia). by rewrite read32_write, u32_small.
  - msolve.
Qed.

(** ** The registrar at work *)

Definition no_paths : ModulePath := {| mp_client := []; mp_server := [] |}.

(** A queue [q] of a client, the allocator [sh] of the namespace (a map of [n]
    buckets and [iters] probes, a ring of [cap] ids), the constructors [pool]
    and the [paths] of the module manager, and the registrar object. *)
Section serve.
Context (fuel : nat) (tid : Z) (construct : Z → gmap Z (list Z) → Module).
Context (q : user_queue) (sh : shm) (n iters cap d : Z) (k : nat).
Context (pool : gmap (list Z) ModuleHandle) (paths : list Z → ModulePath) (registrar : Z).

(** The server with the modules [reg]: names and module ids, in the order of
    their namespace ids. *)
Record registry (s : server) (reg : list (list Z * list Z)) (free live : list Z) (m : mem) : Prop := {
  sg_heap : si_heap (sv_ipc s) !! uq_ptr q = Some (uq_handle q);
  sg_alloc : sv_shmem_alloc_ s = sh_alloc sh;
  sg_ns : ∃ entries, ns_state sh (sv_namespace s) n iters cap d entries k free live m ∧ entries.*1 = reg.*1 ∧
    Forall2 (λ e r, e.2 ≠ 0 ∧ sv_module_id_ s !! e.2 = Some r.2) entries reg ∧ entries.*2 !! 0%nat = Some registrar;
  sg_apart : ∀ x, ns_bytes sh (sv_namespace s) n cap x → ¬ uq_bytes q x;
  sg_mutex : mutex_ (sv_modules s) = false;
  sg_pool : pkg_pool_ (sv_modules s) = pool;
  sg_paths : ∀ id, default no_paths (paths_ (sv_modules s) !! id) = paths id
}.

Record serving (s : server) (st : qp_abs) (reg : list (list Z * list Z)) (free live : list Z) (m : mem) : Prop := {
  sg_q : user_rel q st m;
  sg_reg : registry s reg free live m
}.

(** What never changes, and what the module manager's constructors promise: an
    object at a new address with the id the module was asked for by. *)
Record registrar_env : Prop := {
  rv_fuel : (0 < fuel)%nat;
  rv_tid : 0 <= tid < 2 ^ 32;
  rv_layout : user_layout q;
  rv_size : sizeof_register_request <= uq_size q;
  rv_unit : Z.of_nat MODULE_KEY_SIZE + 4 <= ga_size sh < 2 ^ 31;
  rv_construct : ∀ id mh objs, pool !! id = Some mh →
    mod_ptr (construct (constructor_ mh) objs) ≠ 0 ∧ objs !! mod_ptr (construct (constructor_ mh) objs) = None ∧
    mod_id (construct (constructor_ mh) objs) = id
}.
Hypothesis Henv : registrar_env.

Lemma request_bytes_uq rq a : rq ∈ uq_objs q → span rq (uq_size q) a → uq_bytes q a.
Proof. intros Hrq Ha. right. right. by exists rq. Qed.

(** Changes elsewhere. *)
Lemma registry_frame s reg free live P m m' :
  registry s reg free live m → modifies P m m' → (∀ a, P a → ¬ ns_bytes sh (sv_namespace s) n cap a) →
  registry s reg free live m'.
Proof.
  intros [] Hm HP. split; try done. destruct sg_ns0 as (es & Hns & ?). exists es. split; [|done].
  eapply ns_state_frame; [exact Hm|exact HP|done].
Qed.

(** Changes of the queue and its requests leave the namespace alone. *)
Lemma serving_frame s st st' reg free live P m m' :
  serving s st reg free live m → modifies P m m' → (∀ a, P a → uq_bytes q a) → user_rel q st' m' →
  serving s st' reg free live m'.
Proof.
  intros [_ Hr] Hm HP Hq. split; [done|]. eapply registry_frame; [exact Hr|exact Hm|].
  intros x Px Hb. by apply (sg_apart _ _ _ _ _ Hr x Hb), HP.
Qed.

Lemma serving_write s st reg free live P m m' rq :
  serving s st reg free live m → rq ∈ uq_objs q → modifies P m m' → (∀ a, P a → rq + 4 <= a < rq + uq_size q) →
  serving s st reg free live m'.
Proof.
  intros Hs Hrq Hm HP. eapply serving_frame; [exact Hs|exact Hm| |].
  - intros a Ha. apply (request_bytes_uq rq); [done|]. specialize (HP a Ha). unfold span. lia.
  - eapply (user_write q (rv_layout Henv)); [apply Hs|exact Hrq|exact Hm|done].
Qed.

Lemma serving_valid s st reg free live m rq : serving s st reg free live m → rq ∈ uq_objs q → valid m rq (uq_size q).
Proof. intros [Hq _] Hrq. by apply (ur_valid _ _ _ Hq). Qed.

(** [qp->Complete(rq); return true]. *)
Lemma finish_spec s st reg free live m rq id (Q : (bool + stop) * server → mem → Prop) :
  serving s st reg free live m → pending (uq_objs q) st rq id →
  (∀ m', serving s (completed st rq id) reg free live m' → modifies (cq_bytes (uq_handle q) (uq_cap q)) m m' →
     Q (inl true, s) m') →
  wp ((_ ← complete_request fuel (uq_ptr q) rq; mret true) s) Q m.
Proof.
  intros Hs Hp HQ. pose proof Hs as [sg_q0 []]. apply wp_ubind. unfold complete_request.
  apply (wp_handle _ _ _ _ _ _ sg_heap0), wp_ulift.
  eapply wp_mono; [by apply (user_complete q (rv_layout Henv) fuel st m rq id (rv_fuel Henv))|].
  intros [] m' (Hq & Hm). apply wp_ret. apply HQ; [|done].
  eapply serving_frame; [exact Hs|exact Hm| |exact Hq]. intros a Ha. right. by left.
Qed.

(** The bytes of a request are no bytes of the completions. *)
Lemma request_not_cq rq a : rq ∈ uq_objs q → span rq (uq_size q) a → ¬ cq_bytes (uq_handle q) (uq_cap q) a.
Proof.
  intros Hrq. pose proof (ul_cq _ (rv_layout Henv) rq Hrq) as Ho. revert Ho.
  unfold cq_bytes, rm_span, span, outside. autounfold with layout. simpl. lia.
Qed.

(** What a handler may change. *)
Definition handler_bytes (s : server) (rq : Z) : Z → Prop := both (rq_bytes q rq) (ns_bytes sh (sv_namespace s) n cap).

Lemma reads_past_cq rq j o m m' :
  rq ∈ uq_objs q → modifies (cq_bytes (uq_handle q) (uq_cap q)) m m' → 0 <= o → o + Z.of_nat j <= uq_size q →
  read j (rq + o) m' = read j (rq + o) m.
Proof.
  intros Hrq Hm Ho Hj. eapply read_modifies; [exact Hm|]. intros a Ha. apply (request_not_cq rq); [done|]. unfold span. lia.
Qed.

Lemma dispatch_spec s st reg free live m rq creds (Q : (bool + stop) * server → mem → Prop) :
  serving s st reg free live m → rq ∈ uq_objs q →
  match read 2 (rq + rq_op_) m with
  | 0 => wp (Registrar_Initialize fuel tid construct (uq_ptr q) rq s) Q m
  | 1 => wp (Registrar_GetModulePath fuel (uq_ptr q) rq s) Q m
  | 2 => wp (Registrar_GetNamespaceId fuel (uq_ptr q) rq s) Q m
  | 3 => wp (Registrar_PushUpgrade rq s) Q m
  | 4 => wp (Registrar_Terminate fuel (uq_ptr q) rq s) Q m
  | _ => Q (inl true, s) m
  end → wp (Registrar_ProcessRequest fuel tid construct (uq_ptr q) rq creds s) Q m.
Proof.
  intros Hs Hrq H. pose proof (serving_valid _ _ _ _ _ _ _ Hs Hrq) as Hv. pose proof (ul_size _ (rv_layout Henv)) as Hsz.
  unfold Registrar_ProcessRequest. apply wp_ulift_bind, wp_load.
  { apply (valid_sub _ _ _ _ _ Hv); autounfold with layout; simpl; lia. }
  unfold kInit, kGetNamespaceId, kGetModulePath, kPushUpgrade, kTerminate.
  destruct (read 2 (rq + rq_op_) m) as [|p|p]; [exact H| |by apply wp_ret].
  destruct p as [[p|p|]|[p|[p|p|]|]|]; simpl in *; try exact H; by apply wp_ret.
Qed.

(** The answer is written into the request, which is then completed. *)
Lemma answer_spec s st reg free live m rq id P (c : M unit) (A : mem → Prop) (Q : (bool + stop) * server → mem → Prop) :
  serving s st reg free live m → pending (uq_objs q) st rq id →
  wp c (λ _ m', A m' ∧ modifies P m m') m → (∀ a, P a → rq + 4 <= a < rq + uq_size q) →
  (∀ m1 m2, A m1 → modifies (cq_bytes (uq_handle q) (uq_cap q)) m1 m2 → modifies (rq_bytes q rq) m m2 →
     serving s (completed st rq id) reg free live m2 → Q (inl true, s) m2) →
  wp ((_ ← ulift c; _ ← complete_request fuel (uq_ptr q) rq; mret true) s) Q m.
Proof.
  intros Hs Hp Hc HP HQ. pose proof Hp as (Hrq & _). apply wp_ulift_bind. eapply wp_mono; [exact Hc|]. intros [] m1 [HA M1].
  eapply finish_spec; [by eapply serving_write|exact Hp|]. intros m2 Hs2 M2. apply (HQ m1 m2); [done|done| |done].
  eapply modifies_trans; (eapply modifies_weaken; [eassumption|]); [|by left].
  intros a Ha. right. specialize (HP a Ha). unfold span. lia.
Qed.

(** [kGetNamespaceId]. *)
Lemma registrar_lookup_spec s st reg free live m rq id creds l :
  serving s st reg free live m → pending (uq_objs q) st rq id → read 2 (rq + rq_op_) m = kGetNamespaceId →
  cstr_at (rq + nir_key_) l m → (length l < MODULE_KEY_SIZE)%nat → Z.of_nat (length reg) < 2 ^ 32 →
  wp (Registrar_ProcessRequest fuel tid construct (uq_ptr q) rq creds s)
     (λ r m', r = (inl true, s) ∧ serving s (completed st rq id) reg free live m' ∧
        read 4 (rq + rq_ns_id_) m' = default LABSTOR_INVALID_NAMESPACE_KEY (name_index reg.*1 l) ∧
        modifies (rq_bytes q rq) m m') m.
Proof.
  intros Hs Hp Hop Hc Hl Hreg. pose proof Hp as (Hrq & _). pose proof Hs as [sg_q0 []].
  pose proof (serving_valid _ _ _ _ _ _ _ Hs Hrq) as Hv. pose proof (rv_size Henv) as Hsz.
  unfold MODULE_KEY_SIZE in Hl. change sizeof_register_request with 80 in Hsz.
  eapply dispatch_spec; [exact Hs|done|]. rewrite Hop. cbn [kGetNamespaceId].
  unfold Registrar_GetNamespaceId. destruct (cstr_string 0 _ _ _ Hc ltac:(lia)) as (str & Hstr & Hrep & Hdata).
  apply wp_ulift_bind, wp_run. eexists _, _. split; [exact Hstr|]. apply wp_uget.
  destruct sg_ns0 as (es & Hns & Hnames & Hes & _).
  apply wp_ulift_bind, wp_run. eexists _, _. split.
  { eapply (ns_find_spec sh fuel (rv_fuel Henv)); [exact Hns|exact Hrep|]. intros x Hx Hb.
    apply (sg_apart0 x Hb), (request_bytes_uq rq); [done|]. rewrite Hdata in Hx. autounfold with layout in Hx. unfold span. lia. }
  rewrite Hnames. set (ns_id := default _ _).
  assert (0 <= ns_id < 2 ^ 32) as Hid.
  { unfold ns_id. destruct (name_index reg.*1 l) as [i|] eqn:Ei; simpl; [|unfold LABSTOR_INVALID_NAMESPACE_KEY; lia].
    apply name_index_range in Ei. rewrite length_fmap in Ei. lia. }
  assert (valid m rq 16) as Hv16 by (apply (valid_sub _ _ _ _ _ Hv); lia).
  eapply (answer_spec s st reg free live m rq id (span (rq + 4) 8) _ (λ m', read 4 (rq + rq_ns_id_) m' = ns_id)); [exact Hs|exact Hp| | |].
  - destruct (ns_id =? u32 (-1)).
    all: eapply wp_mono; [apply GetNamespaceIDEnd_spec; [done|done|vm_compute; split; congruence]|by intros [] m' [[? _] ?]].
  - unfold span. lia.
  - intros m1 m2 HA M2 M Hs2. split; [done|]. split; [done|]. split; [|done].
    rewrite (reads_past_cq rq 4 rq_ns_id_ m1 m2); [done|done|done|autounfold with layout; simpl; lia..].
Qed.

Lemma wp_umodules {A B} (c : MM A) (f : A → UM B) (Q : (B + stop) * server → mem → Prop) s m a mm :
  c (sv_modules s) = MRet_ a mm → wp (f a (with_modules s mm)) Q m → wp ((u_modules c ≫= f) s) Q m.
Proof. intros Hc HQ. apply wp_ubind. unfold u_modules. rewrite Hc. by apply wp_ret. Qed.

Lemma get_constructor_run s mid mh :
  mutex_ (sv_modules s) = false → pkg_pool_ (sv_modules s) !! mid = Some mh →
  ModuleTable_GetModuleConstructor mid (sv_modules s) = MRet_ (constructor_ mh) (sv_modules s).
Proof.
  destruct s as [? ? ? [mu po up pa dl] ? ?]. simpl. intros -> Hmh.
  unfold ModuleTable_GetModuleConstructor, mbind, MM_bind, mm_lock, mm_get, mm_unlock. simpl. by rewrite Hmh.
Qed.

(** [kInit]: a known module. *)
Lemma registrar_init_spec s st reg free live m rq id creds mid mh key :
  serving s st reg free live m → pending (uq_objs q) st rq id → read 2 (rq + rq_op_) m = kInit →
  cstr_at (rq + rgr_module_id_) mid m → cstr_at (rq + rgr_key_) key m →
  (length mid < MODULE_KEY_SIZE)%nat → (length key < MODULE_KEY_SIZE)%nat → pool !! mid = Some mh →
  free ≠ [] → Z.of_nat (length reg) < Z.min n iters →
  wp (Registrar_ProcessRequest fuel tid construct (uq_ptr q) rq creds s)
     (λ r m', r.1 = inl true ∧ sv_ipc r.2 = sv_ipc s ∧ (∃ p free', free ≡ₚ p :: free' ∧
          serving r.2 (completed st rq id) (reg ++ [(key, mid)]) free' (p :: live) m') ∧
        read 4 (rq + rq_ns_id_) m' = Z.of_nat (length reg) ∧
        (∀ x, ns_bytes sh (sv_namespace r.2) n cap x ↔ ns_bytes sh (sv_namespace s) n cap x) ∧
        modifies (handler_bytes s rq) m m') m.
Proof.
  intros Hs Hp Hop Hmid Hkey Hlm Hlk Hmh Hfree Hlen. pose proof Hp as (Hrq & _). pose proof Hs as [sg_q0 []].
  pose proof (serving_valid _ _ _ _ _ _ _ Hs Hrq) as Hv. pose proof (rv_size Henv) as Hsz. pose proof (rv_unit Henv) as Hunit.
  change sizeof_register_request with 80 in Hsz. change (Z.of_nat MODULE_KEY_SIZE + 4) with 36 in Hunit.
  eapply dispatch_spec; [exact Hs|done|]. rewrite Hop. cbn [kInit]. unfold Registrar_Initialize.
  destruct (cstr_id _ _ _ Hmid Hlm) as (i & Hi & Htext & _).
  { apply (valid_sub _ _ _ _ _ Hv); autounfold with layout; unfold MODULE_KEY_SIZE; simpl; lia. }
  apply wp_ulift_bind, wp_run. eexists _, _. split; [exact Hi|]. rewrite Htext.
  eapply wp_umodules; [apply get_constructor_run; [done|by rewrite sg_pool0]|].
  destruct (rv_construct Henv mid mh (sv_module_id_ s) Hmh) as (Hnz & Hfresh & Hmod).
  apply wp_ubind. unfold create_module. apply wp_uget. apply wp_ubind, wp_ret, wp_ret. cbn [fst snd].
  change (sv_module_id_ (with_modules s (sv_modules s))) with (sv_module_id_ s).
  set (module := construct (constructor_ mh) (sv_module_id_ s)) in *. rewrite (proj2 (Z.eqb_neq _ _) Hnz).
  destruct (cstr_id _ _ _ Hkey Hlk) as (ki & Hki & _ & Hkstr).
  { apply (valid_sub _ _ _ _ _ Hv); autounfold with layout; unfold MODULE_KEY_SIZE; simpl; lia. }
  apply wp_ulift_bind, wp_run. eexists _, _. split; [exact Hki|]. apply wp_uget.
  cbn [sv_shmem_alloc_ sv_namespace with_module_id with_modules]. rewrite sg_alloc0.
  destruct sg_ns0 as (es & Hns & Hnames & Hes & H0). pose proof (Forall2_length _ _ _ Hes) as Hle.
  apply wp_ulift_bind. unfold Namespace_AddKey_id. eapply wp_bind_run; [apply Hkstr|].
  eapply wp_mono.
  { apply (ns_add_string_spec sh fuel (rv_fuel Henv) tid (rv_tid Henv) _ _ _ _ _ _ _ _ _ key module m Hns Hfree).
    - apply Hkey.
    - unfold MODULE_KEY_SIZE in Hlk. lia.
    - lia.
    - by rewrite Hle. }
  intros [ns' nid] m1 (Hnid & Hids & Hmap & Hpriv & M1 & p & free' & Hperm & Hns1). cbn [fst snd] in *. subst nid. rewrite Hle.
  assert (Z.of_nat (length reg) < 2 ^ 31) as H31.
  { destruct Hns as [[_ (sl & Hum & _) _ _ _] _ _ _ _]. pose proof (ur_n _ _ _ _ _ Hum). lia. }
  rewrite (s32_small (Z.of_nat (length reg))), (u32_small (Z.of_nat (length reg))) by lia.
  apply wp_ubind, wp_ret. cbn [fst snd]. set (s' := with_namespace _ ns').
  assert (∀ x, ns_bytes sh ns' n cap x ↔ ns_bytes sh (sv_namespace s) n cap x) as Hnb.
  { intros x. unfold ns_bytes. by rewrite Hids, Hmap. }
  assert (serving s' st (reg ++ [(key, mid)]) free' (p :: live) m1) as Hs1.
  { split; [eapply user_rel_frame; [apply Henv|done|exact M1|]; intros a Ha; by apply sg_apart0|]. split; try done.
    - eexists. split; [exact Hns1|]. cbn [fst snd]. split; [by rewrite !fmap_app, Hnames|]. split.
      + apply Forall2_app; [|constructor; [|constructor]].
        * eapply Forall2_impl; [exact Hes|]. intros e r [He Hr]. split; [done|]. simpl. rewrite lookup_insert_ne; [done|].
          intros Heq. rewrite <-Heq, Hfresh in Hr. done.
        * simpl. split; [done|]. by rewrite lookup_insert_eq, Hmod.
      + rewrite fmap_app, lookup_app_l; [done|]. by apply lookup_lt_Some in H0.
    - intros x Hx. apply sg_apart0. by apply Hnb. }
  eapply (answer_spec s' st _ _ _ m1 rq id (span (rq + 4) 4) _ (λ m', read 4 (rq + rq_ns_id_) m' = Z.of_nat (length reg)));
    [exact Hs1|exact Hp| |unfold span; lia|].
  - unfold ConstructModuleEnd. apply wp_store; [eapply valid_sub; [by eapply serving_valid|autounfold with layout; simpl; lia..]|].
    rewrite read32_write. split; [apply u32_small; lia|]. apply modifies_write; [eapply valid_sub; [by eapply serving_valid|autounfold with layout; simpl; lia..]|].
    unfold span. autounfold with layout. simpl. lia.
  - intros m2 m3 HA M3 M Hs3. split; [done|]. split; [done|]. split; [by exists p, free'|]. split; [|split; [done|]].
    + rewrite (reads_past_cq rq 4 rq_ns_id_ m2 m3); [done|done|done|autounfold with layout; simpl; lia..].
    + eapply modifies_trans; (eapply modifies_weaken; [eassumption|]); intros a Ha; [by right|by left].
Qed.

(** [kGetModulePath]: an id that was given out. *)
Lemma registrar_path_spec s st reg free live m rq id creds i r :
  serving s st reg free live m → pending (uq_objs q) st rq id → read 2 (rq + rq_op_) m = kGetModulePath →
  s32 (read 4 (rq + mpr_module_ns_id_) m) = Z.of_nat i → reg !! i = Some r →
  Forall (λ c, 0 <= c < 256) (mp_client (paths r.2)) → 0 ∉ mp_client (paths r.2) →
  21 + Z.of_nat (length (mp_client (paths r.2))) <= uq_size q →
  wp (Registrar_ProcessRequest fuel tid construct (uq_ptr q) rq creds s)
     (λ x m', x.1 = inl true ∧ sv_ipc x.2 = sv_ipc s ∧ sv_namespace x.2 = sv_namespace s ∧
        serving x.2 (completed st rq id) reg free live m' ∧
        cstr_at (rq + mpr_module_path_) (mp_client (paths r.2)) m' ∧ modifies (rq_bytes q rq) m m') m.
Proof.
  intros Hs Hp Hop Hi Hr Hc H0 Hlen. pose proof Hp as (Hrq & _). pose proof Hs as [sg_q0 []].
  pose proof (serving_valid _ _ _ _ _ _ _ Hs Hrq) as Hv. pose proof (rv_size Henv) as Hsz. change sizeof_register_request with 80 in Hsz.
  eapply dispatch_spec; [exact Hs|done|]. rewrite Hop. cbn [kGetModulePath]. unfold Registrar_GetModulePath.
  apply wp_ulift_bind. unfold load_s32. apply wp_bind, wp_load; [apply (valid_sub _ _ _ _ _ Hv); autounfold with layout; simpl; lia|].
  apply wp_ret. rewrite Hi. apply wp_uget. destruct sg_ns0 as (es & Hns & Hnames & Hes & He0).
  destruct (Forall2_lookup_r _ _ _ _ _ Hes Hr) as (e & He & Hnz & Hid).
  assert (Z.of_nat i < 2 ^ 31) as Hi31 by (rewrite <-Hi; apply s32_range).
  rewrite u32_small by lia. rewrite (ns_module_spec _ _ _ _ _ _ _ _ _ _ _ i Hns), list_lookup_fmap, He. simpl.
  rewrite (proj2 (Z.eqb_neq _ _) Hnz), Hid. apply wp_ulift_bind, wp_ret. eapply wp_umodules.
  { unfold Server_GetModulePath, mbind, MM_bind, mm_get, Server_AddModulePaths. simpl. reflexivity. }
  fold no_paths. rewrite (sg_paths0 r.2). set (s' := with_modules s _).
  assert (serving s' st reg free live m) as Hs1.
  { split; [done|]. split; try done; [by exists es|]. intros mid. simpl. destruct (decide (r.2 = mid)) as [<-|Hne].
    - by rewrite lookup_insert_eq.
    - by rewrite lookup_insert_ne. }
  set (path := mp_client (paths r.2)) in *.
  eapply (answer_spec s' st _ _ _ m rq id (both (span (rq + rq_code_) 4) (span (rq + mpr_module_path_) (Z.of_nat (length path) + 1))) _
    (λ m', cstr_at (rq + mpr_module_path_) path m')); [exact Hs1|exact Hp| | |].
  - unfold GetModulePathEnd. apply wp_bind, wp_store; [apply (valid_sub _ _ _ _ _ Hv); autounfold with layout; simpl; lia|].
    eapply wp_mono; [apply store_cstr_spec; [apply valid_write, (valid_sub _ _ _ _ _ Hv); autounfold with layout; lia|done|done]|].
    intros [] m1 [Hcs M1]. split; [done|]. eapply modifies_trans; [|eapply modifies_weaken; [exact M1|by right]].
    apply modifies_write; [apply (valid_sub _ _ _ _ _ Hv); autounfold with layout; simpl; lia|].
    intros a Ha. left. unfold span. autounfold with layout in *. simpl in *. lia.
  - unfold both, span. autounfold with layout. intros; lia.
  - intros m2 m3 HA M3 M Hs3. do 3 (split; [done|]). split; [done|]. split; [|done].
    eapply cstr_at_frame; [exact M3| |done]. intros a Ha. apply (request_not_cq rq); [done|].
    unfold span. autounfold with layout in *. lia.
Qed.
End serve.

(** ** Limits *)

Section limits.
Context (fuel : nat) (tid : Z) (construct : Z → gmap Z (list Z) → Module) (qp rq creds : Z) (s : server) (m : mem).
Context (Hvalid : valid m rq sizeof_register_request).

Lemma registrar_op op (Q : (bool + stop) * server → mem → Prop) :
  read 2 (rq + rq_op_) m = op →
  wp ((if op =? kInit then Registrar_Initialize fuel tid construct qp rq
       else if op =? kGetNamespaceId then Registrar_GetNamespaceId fuel qp rq
       else if op =? kGetModulePath then Registrar_GetModulePath fuel qp rq
       else if op =? kPushUpgrade then Registrar_PushUpgrade rq
       else if op =? kTerminate then Registrar_Terminate fuel qp rq else mret true) s) Q m →
  wp (Registrar_ProcessRequest fuel tid construct qp rq creds s) Q m.
Proof.
  intros Hop H. unfold Registrar_ProcessRequest. apply wp_ulift_bind, wp_load; [|by rewrite Hop].
  change sizeof_register_request with 80 in Hvalid. apply (valid_sub _ _ _ _ _ Hvalid); autounfold with layout; simpl; lia.
Qed.

(** A module that the module manager does not have: the constructor is not
    found by an exception, not by a null pointer, so that the test for one is
    never reached.  The request is not completed. *)
Lemma register_unknown_throws mid :
  read 2 (rq + rq_op_) m = kInit → cstr_at (rq + rgr_module_id_) mid m → (length mid < MODULE_KEY_SIZE)%nat →
  mutex_ (sv_modules s) = false → pkg_pool_ (sv_modules s) !! mid = None →
  wp (Registrar_ProcessRequest fuel tid construct qp rq creds s) (λ r m', r = (inr (Exception INVALID_MODULE_ID), s) ∧ m' = m) m.
Proof.
  intros Hop Hc Hl Hmu Hpool. apply (registrar_op _ _ Hop). change (kInit =? kInit) with true. cbn iota. unfold Registrar_Initialize.
  change sizeof_register_request with 80 in Hvalid.
  destruct (cstr_id _ _ _ Hc Hl) as (i & Hi & Htext & _).
  { apply (valid_sub _ _ _ _ _ Hvalid); autounfold with layout; unfold MODULE_KEY_SIZE; simpl; lia. }
  apply wp_ulift_bind, wp_run. eexists _, _. split; [exact Hi|]. rewrite Htext. apply wp_ubind.
  clear Hop Hc. revert Hmu Hpool. destruct s as [? ? ? [mu po up pa dl] ? ?]. simpl. intros -> Hpool.
  unfold u_modules, ModuleTable_GetModuleConstructor, mbind, MM_bind, mm_lock, mm_get, mm_unlock. simpl. rewrite Hpool. by apply wp_ret.
Qed.

(** The path of an id without a module is read through a null pointer. *)
Lemma path_unknown_faults ns_id :
  read 2 (rq + rq_op_) m = kGetModulePath → s32 (read 4 (rq + mpr_module_ns_id_) m) = ns_id →
  Namespace_GetModule (sv_namespace s) (u32 ns_id) = 0 →
  Registrar_ProcessRequest fuel tid construct qp rq creds s m = Fault.
Proof.
  intros Hop Hid Hmod. change sizeof_register_request with 80 in Hvalid. unfold Registrar_ProcessRequest.
  assert (load16 (rq + rq_op_) m = Ret kGetModulePath m) as E1.
  { rewrite <-Hop. apply wp_exact, wp_load; [apply (valid_sub _ _ _ _ _ Hvalid); autounfold with layout; simpl; lia|done]. }
  assert (load_s32 (rq + mpr_module_ns_id_) m = Ret ns_id m) as E2.
  { rewrite <-Hid. unfold load_s32. erewrite run_bind; [done|].
    apply wp_exact, wp_load; [apply (valid_sub _ _ _ _ _ Hvalid); autounfold with layout; simpl; lia|done]. }
  rewrite (ulift_run _ _ _ _ _ _ E1). unfold Registrar_GetModulePath. cbn -[ulift load_s32 u_get].
  rewrite (ulift_run _ _ _ _ _ _ E2). unfold u_get, mbind, UM_bind, mret, UM_ret, mbind, M_bind, mret, M_ret. simpl. by rewrite Hmod.
Qed.

(** An upgrade is only noted: no byte changes, so the request is not
    completed, and the worker takes it off the queue. *)
Lemma push_upgrade_pending :
  read 2 (rq + rq_op_) m = kPushUpgrade →
  wp (Registrar_ProcessRequest fuel tid construct qp rq creds s)
     (λ r m', r.1 = inl true ∧ upgrades_ (sv_modules r.2) = upgrades_ (sv_modules s) ++ [rq] ∧ m' = m) m.
Proof.
  intros Hop. apply (registrar_op _ _ Hop). by apply wp_ret.
Qed.
End limits.

(** The path of an upgrade is copied without its terminator: what is read back
    goes on with what the memory held before. *)
Lemma upgrade_path_runs_on :
  wp (_ ← memset (4096 + ugr_yaml_path_) 122 8;
      _ ← PushUpgradeStart [97; 46; 121] 4096;
      strlen (4096 + ugr_yaml_path_)) (λ n _, n = 8) (zero_region 4096 32).
Proof. vm_compute. reflexivity. Qed.
