(* ===== verification/RegistrarClient.v ===== *)
(** * RegistrarClient.v: registering and finding modules from a client

    labmods/registrar/client/registrar_client.cpp and registrar_client.h.
    Every call of the client of the registrar goes through a queue pair in
    shared memory, a worker of the server, the registrar (Registrar.v) and the
    namespace (ServerNamespace.v) and back; a sequence of calls is shown to
    behave like a table of names. *)

From S2P Require Import Prelude Memory RingBuffer RequestQueue QueuePair WorkQueue QueuePool MpmcRing UnorderedMap ShmemString.
From S2P Require Import Allocators AllocatorSpec Namespace ModuleTable IpcManager Kernel KernelWorker UserWorker ServerModules.
From S2P Require Import ServerNamespace ClientCalls Registrar.

Local Open Scope Z_scope.

(** ** registrar_client.cpp *)

(** [InitializeInstance<register_request>], which [RegisterInstance] calls. *)
Definition Registrar_RegisterInstance (module_id key : list Z) : client_call Z := {|
  cc_size := sizeof_register_request;
  cc_start := ConstructModuleStart module_id key;
  cc_finish := λ rq, load32 (rq + rq_ns_id_)
|}.

Definition Registrar_GetNamespaceID (key : list Z) : client_call Z := {|
  cc_size := sizeof_namespace_id_request;
  cc_start := GetNamespaceIDStart key;
  cc_finish := λ rq, load32 (rq + rq_ns_id_)
|}.

Definition Registrar_Client_GetModulePath (ns_id : Z) : client_call (list Z) := {|
  cc_size := sizeof_module_path_request;
  cc_start := GetModulePathStart ns_id;
  cc_finish := module_path_text
|}.

Definition Registrar_Client_PushUpgrade (yaml_path : list Z) : client_call Z := {|
  cc_size := sizeof_upgrade_request;
  cc_start := PushUpgradeStart yaml_path;
  cc_finish := λ rq, code ← load32 (rq + rq_code_); mret (s32 code)
|}.

Definition Registrar_TerminateServer : client_call unit := {|
  cc_size := sizeof_terminate_request;
  cc_start := TerminateStart;
  cc_finish := λ rq, mret tt
|}.

Definition Registrar_MountLabStack (key yaml_path : list Z) : Z := 0.
Definition Registrar_UnmountLabStack (key yaml_path : list Z) : Z := 0.

(** ** Sequences of calls *)

Inductive reg_call := CRegister (module_id key : list Z) | CLookup (key : list Z) | CPath (ns_id : Z).
Inductive reg_answer := AId (ns_id : Z) | APath (path : list Z).

Definition answer_with {A} (f : A → reg_answer) (cc : client_call A) : client_call reg_answer := {|
  cc_size := cc_size cc; cc_start := cc_start cc; cc_finish := λ rq, a ← cc_finish cc rq; mret (f a)
|}.

Definition call_of (rc : reg_call) : client_call reg_answer :=
  match rc with
  | CRegister module_id key => answer_with AId (Registrar_RegisterInstance module_id key)
  | CLookup key => answer_with AId (Registrar_GetNamespaceID key)
  | CPath ns_id => answer_with APath (Registrar_Client_GetModulePath ns_id)
  end.

Fixpoint run_calls (fuel : nat) (tid : Z) (c : ClientIPC) (process : Z → Z → Z → Z → UM bool)
    (wq : labstor_work_queue_secure) (calls : list reg_call) : UM (list reg_answer) :=
  match calls with
  | [] => mret []
  | rc :: calls' =>
      a ← served_call fuel tid c process wq (call_of rc);
      l ← run_calls fuel tid c process wq calls';
      mret (a :: l)
  end.

(** ** The table of names *)

(** Names and the ids of their modules; a namespace id is a position. *)
Definition registry_step (paths : list Z → ModulePath) (reg : list (list Z * list Z)) (rc : reg_call)
    : list (list Z * list Z) * reg_answer :=
  match rc with
  | CRegister module_id key => (reg ++ [(key, module_id)], AId (Z.of_nat (length reg)))
  | CLookup key => (reg, AId (default LABSTOR_INVALID_NAMESPACE_KEY (name_index reg.*1 key)))
  | CPath ns_id =>
      (reg, APath (match reg !! Z.to_nat ns_id with Some r => mp_client (paths r.2) | None => [] end))
  end.

Fixpoint registry_run (paths : list Z → ModulePath) (reg : list (list Z * list Z)) (calls : list reg_call)
    : list (list Z * list Z) * list reg_answer :=
  match calls with
  | [] => (reg, [])
  | rc :: calls' =>
      let '(reg1, a) := registry_step paths reg rc in
      let '(reg2, l) := registry_run paths reg1 calls' in (reg2, a :: l)
  end.

(** A name that fits into an id. *)
Definition name_ok (l : list Z) : Prop :=
  Forall (λ c, 0 <= c < 256) l ∧ (0 ∉ l) ∧ (length l < MODULE_KEY_SIZE)%nat.

(** Names that fit, modules that are known, ids that were given out. *)
Definition reg_call_ok (size : Z) (pool : gmap (list Z) ModuleHandle) (paths : list Z → ModulePath)
    (reg : list (list Z * list Z)) (rc : reg_call) : Prop :=
  match rc with
  | CRegister module_id key => name_ok module_id ∧ name_ok key ∧ is_Some (pool !! module_id)
  | CLookup key => name_ok key
  | CPath ns_id => 0 <= ns_id < Z.of_nat (length reg) ∧ ∀ r, reg !! Z.to_nat ns_id = Some r →
      let path := mp_client (paths r.2) in
      Forall (λ c, 0 <= c < 256) path ∧ (0 ∉ path) ∧ 21 + Z.of_nat (length path) <= size
  end.

Fixpoint reg_calls_ok (size : Z) (pool : gmap (list Z) ModuleHandle) (paths : list Z → ModulePath)
    (reg : list (list Z * list Z)) (calls : list reg_call) : Prop :=
  match calls with
  | [] => True
  | rc :: calls' => reg_call_ok size pool paths reg rc ∧ reg_calls_ok size pool paths (registry_step paths reg rc).1 calls'
  end.

(** How many of the calls register a module. *)
Fixpoint registrations (calls : list reg_call) : nat :=
  match calls with
  | [] => O
  | CRegister _ _ :: calls' => S (registrations calls')
  | _ :: calls' => registrations calls'
  end.

(** ** The requests *)

Section requests.
Context (q : user_queue) (Hsize : sizeof_register_request <= uq_size q).

Definition asks (op rq : Z) (m : mem) : Prop := request_ns rq m = LABSTOR_REGISTRAR_ID ∧ read 2 (rq + rq_op_) m = op.

Lemma asks_frame op rq P m m' :
  modifies P m m' → (∀ a, rq + 4 <= a < rq + 16 → ¬ P a) → asks op rq m → asks op rq m'.
Proof.
  intros Hm HP [Hn Ho]. unfold asks, request_ns in *. autounfold with layout in *.
  rewrite !(read_modifies _ _ _ _ _ Hm); [done|..]; simpl; intros a Ha; apply HP; lia.
Qed.

Lemma start_registrar_spec rq op m :
  valid m rq 16 → 0 <= op < 2 ^ 16 →
  wp (start_registrar rq op) (λ _ m', asks op rq m' ∧ modifies (λ a, rq + 4 <= a < rq + 16) m m') m.
Proof.
  intros Hv Ho. unfold start_registrar, asks, request_ns. autounfold with layout in *. wp_go. split; [split|].
  - rewrite read_write_other by (simpl; lia). by rewrite read32_write.
  - rewrite read16_write. by apply Z.mod_small.
  - apply modifies_then_write; [apply modifies_write|..]; [vsolve|simpl; lia|vsolve|simpl; lia].
Qed.

Definition asks_register (module_id key : list Z) (rq : Z) (m : mem) : Prop :=
  asks kInit rq m ∧ cstr_at (rq + rgr_module_id_) module_id m ∧ cstr_at (rq + rgr_key_) key m.
Definition asks_lookup (key : list Z) (rq : Z) (m : mem) : Prop := asks kGetNamespaceId rq m ∧ cstr_at (rq + nir_key_) key m.
Definition asks_path (ns_id rq : Z) (m : mem) : Prop :=
  asks kGetModulePath rq m ∧ s32 (read 4 (rq + mpr_module_ns_id_) m) = ns_id.

Lemma asks_register_local module_id key :
  name_ok module_id → name_ok key → request_local q (asks_register module_id key).
Proof.
  intros (_ & _ & H1) (_ & _ & H2) rq m m' P Hm HP (Ha & Hc1 & Hc2). unfold MODULE_KEY_SIZE in *.
  change sizeof_register_request with 80 in Hsize.
  split; [|split]; [eapply asks_frame|eapply cstr_at_frame|eapply cstr_at_frame]; try done;
    autounfold with layout; unfold MODULE_KEY_SIZE; intros a Ha'; apply HP; lia.
Qed.

Lemma asks_lookup_local key : name_ok key → request_local q (asks_lookup key).
Proof.
  intros (_ & _ & H1) rq m m' P Hm HP (Ha & Hc1). unfold MODULE_KEY_SIZE in *. change sizeof_register_request with 80 in Hsize.
  split; [eapply asks_frame|eapply cstr_at_frame]; try done; autounfold with layout; intros a Ha'; apply HP; lia.
Qed.

Lemma asks_path_local ns_id : request_local q (asks_path ns_id).
Proof.
  intros rq m m' P Hm HP (Ha & Hr). change sizeof_register_request with 80 in Hsize. split.
  - eapply asks_frame; [done| |done]. intros a Ha'. apply HP. lia.
  - autounfold with layout in *. rewrite (read_modifies _ _ _ _ _ Hm); [done|]. simpl. intros a Ha'. apply HP. lia.
Qed.

(** Filling in: the first members, then a string behind them. *)
Lemma store_name_spec rq o str op m :
  valid m rq (uq_size q) → asks op rq m → name_ok str → 16 <= o → o + Z.of_nat MODULE_KEY_SIZE <= uq_size q →
  wp (store_cstr (rq + o) str)
     (λ _ m', asks op rq m' ∧ cstr_at (rq + o) str m' ∧ modifies (span (rq + o) (Z.of_nat MODULE_KEY_SIZE)) m m') m.
Proof.
  intros Hv Ha (Hc & H0 & Hl) Ho Hfit. unfold MODULE_KEY_SIZE in *.
  eapply wp_mono; [apply store_cstr_spec; [apply (valid_sub _ _ _ _ _ Hv); lia|done|done]|]. intros [] m' [Hs Hm].
  split; [eapply asks_frame; [exact Hm| |done]; unfold span; lia|]. split; [done|].
  eapply modifies_weaken; [exact Hm|]. unfold span. lia.
Qed.

Lemma start_register_spec module_id key rq m :
  name_ok module_id → name_ok key → valid m rq (uq_size q) →
  wp (ConstructModuleStart module_id key rq)
     (λ _ m', asks_register module_id key rq m' ∧ modifies (λ a, rq + 4 <= a < rq + uq_size q) m m') m.
Proof.
  intros Hm Hk Hv. change sizeof_register_request with 80 in Hsize. unfold ConstructModuleStart. apply wp_bind.
  eapply wp_mono; [apply start_registrar_spec; [apply (valid_sub _ _ _ _ _ Hv); lia|done]|]. intros [] m1 [H1 M1].
  assert (valid m1 rq (uq_size q)) as Hv1 by (by eapply valid_modifies). apply wp_bind.
  eapply wp_mono; [apply (store_name_spec rq rgr_module_id_ module_id kInit m1); try done; autounfold with layout; unfold MODULE_KEY_SIZE; lia|].
  intros [] m2 (H2 & Hc & M2). assert (valid m2 rq (uq_size q)) as Hv2 by (by eapply valid_modifies).
  eapply wp_mono; [apply (store_name_spec rq rgr_key_ key kInit m2); try done; autounfold with layout; unfold MODULE_KEY_SIZE; lia|].
  intros [] m3 (H3 & Hc3 & M3). split; [split; [done|]; split; [|done]|].
  - destruct Hm as (_ & _ & Hl). unfold MODULE_KEY_SIZE in *. eapply cstr_at_frame; [exact M3| |done].
    unfold span. autounfold with layout. unfold MODULE_KEY_SIZE. intros; lia.
  - eapply modifies_trans; [eapply modifies_weaken; [exact M1|simpl; lia]|].
    eapply modifies_trans; (eapply modifies_weaken; [eassumption|]); unfold span; autounfold with layout; unfold MODULE_KEY_SIZE; intros; lia.
Qed.

Lemma start_lookup_spec key rq m :
  name_ok key → valid m rq (uq_size q) →
  wp (GetNamespaceIDStart key rq)
     (λ _ m', asks_lookup key rq m' ∧ modifies (λ a, rq + 4 <= a < rq + uq_size q) m m') m.
Proof.
  intros Hk Hv. change sizeof_register_request with 80 in Hsize. unfold GetNamespaceIDStart. apply wp_bind.
  eapply wp_mono; [apply start_registrar_spec; [apply (valid_sub _ _ _ _ _ Hv); lia|done]|]. intros [] m1 [H1 M1].
  assert (valid m1 rq (uq_size q)) as Hv1 by (by eapply valid_modifies).
  eapply wp_mono; [apply (store_name_spec rq nir_key_ key kGetNamespaceId m1); try done; autounfold with layout; unfold MODULE_KEY_SIZE; lia|].
  intros [] m2 (H2 & Hc & M2). split; [done|].
  eapply modifies_trans; (eapply modifies_weaken; [eassumption|]); unfold span; autounfold with layout; unfold MODULE_KEY_SIZE; simpl; intros; lia.
Qed.

Lemma start_path_spec ns_id rq m :
  0 <= ns_id < 2 ^ 31 → valid m rq (uq_size q) →
  wp (GetModulePathStart ns_id rq)
     (λ _ m', asks_path ns_id rq m' ∧ modifies (λ a, rq + 4 <= a < rq + uq_size q) m m') m.
Proof.
  intros Hn Hv. change sizeof_register_request with 80 in Hsize. unfold GetModulePathStart, asks_path, asks, request_ns, store_s32.
  autounfold with layout in *. wp_go. split; [split; [split|]|].
  - rewrite !read_write_other by (simpl; lia). by rewrite read32_write.
  - by rewrite read16_write.
  - rewrite read_write_other by (simpl; lia). rewrite read32_write, u32_small by apply s32_bits_range. apply s32_of_bits. lia.
  - apply modifies_then_write; [apply modifies_then_write; [apply modifies_write|..]|..]; try vsolve; simpl; lia.
Qed.
End requests.

(** ** Clients, worker and registrar *)

Section session.
Context (fuel : nat) (tid ctid : Z) (construct : Z → gmap Z (list Z) → Module) (process : Z → Z → Z → Z → UM bool).
Context (c : ClientIPC) (q : user_queue) (cp : Z) (shc : shm) (wq : labstor_work_queue_secure) (wcap : Z).
Context (sh : shm) (n iters cap d : Z) (nfree : nat).
Context (pool : gmap (list Z) ModuleHandle) (paths : list Z → ModulePath) (registrar : Z) (N : Z → Prop).

Record session_env : Prop := {
  ss_registrar : registrar_env fuel tid construct q sh pool;
  ss_served : served_env fuel ctid c q cp shc wq wcap N;
  ss_process : ∀ qp rq creds, process registrar qp rq creds = Registrar_ProcessRequest fuel tid construct qp rq creds;
  ss_cap : 0 < uq_cap q
}.

(** Between two calls: the table [reg]; [free] requests and [kfree] places for
    names. *)
Record session_rel (s : server) (st : qp_abs) (k : nat) (free : list Z) (reg : list (list Z * list Z)) (kfree klive : list Z) (m : mem)
    : Prop := {
  sn_calling : calling q shc wq wcap s st k free m;
  sn_registry : registry q sh n iters cap d nfree pool paths registrar s reg kfree klive m;
  sn_mem : ∀ x, ns_bytes sh (sv_namespace s) n cap x → N x
}.
Hypothesis Henv : session_env.

(** The state of the registrar after a call. *)
Definition reg_post (reg : list (list Z * list Z)) (free : nat) (s : server) (m : mem) : Prop :=
  (∃ kfree klive, length kfree = free ∧ registry q sh n iters cap d nfree pool paths registrar s reg kfree klive m) ∧
  ∀ x, ns_bytes sh (sv_namespace s) n cap x → N x.

Lemma reg_post_stable reg free s m m' :
  modifies (client_bytes q shc) m m' → reg_post reg free s m → reg_post reg free s m'.
Proof.
  intros Hm ((kf & kl & Hl & Hr) & HN). split; [|done]. exists kf, kl. split; [done|].
  eapply registry_frame; [exact Hr|exact Hm|]. intros a Ha Hb. by destruct (se_own _ _ _ _ _ _ _ _ _ (ss_served Henv) a (HN a Hb)).
Qed.

Lemma registrar_module s reg kfree klive m :
  registry q sh n iters cap d nfree pool paths registrar s reg kfree klive m →
  Namespace_GetModule (sv_namespace s) LABSTOR_REGISTRAR_ID = registrar ∧ registrar ≠ 0 ∧ Z.of_nat (length reg) < 2 ^ 31.
Proof.
  intros []. destruct sg_ns as (es & Hns & Hnames & Hes & H0). change LABSTOR_REGISTRAR_ID with (Z.of_nat 0).
  rewrite (ns_module_spec _ _ _ _ _ _ _ _ _ _ _ 0%nat Hns), H0. split; [done|].
  rewrite list_lookup_fmap in H0. apply fmap_Some in H0 as (e & He & ->). split.
  - destruct (Forall2_lookup_l _ _ _ _ _ Hes He) as (r & _ & Hnz & _). done.
  - rewrite <-(Forall2_length _ _ _ Hes). destruct (nr_map _ _ _ _ _ _ _ (nt_ns _ _ _ _ _ _ _ _ _ _ _ Hns)) as (sl & Hum & Hlog).
    pose proof (ur_n _ _ _ _ _ Hum) as Hn. pose proof (li_count _ _ _ _ Hlog) as Hc. rewrite length_imap in Hc. rewrite <-Hc.
    eapply Z.le_lt_trans; [apply inj_le, length_filter|]. rewrite length_seqZ. lia.
Qed.

(** The state in which the registrar gets the request. *)
Lemma serving_now s st k free reg kfree klive m rq m1 :
  session_rel s st k free reg kfree klive m → rq ∈ uq_objs q → user_rel q (enqueued st rq) m1 →
  modifies (client_bytes q shc) m m1 →
  serving q sh n iters cap d nfree pool paths registrar s (enqueued st rq) reg kfree klive m1 ∧
  pending (uq_objs q) (enqueued st rq) rq (qa_enq st).
Proof.
  intros [] Hrq Hq Hm. split; [split; [done|]|apply idle_pending; [apply sn_calling0|done]].
  eapply registry_frame; [exact sn_registry0|exact Hm|]. intros a Ha Hb.
  by destruct (se_own _ _ _ _ _ _ _ _ _ (ss_served Henv) a (sn_mem0 a Hb)).
Qed.

Lemma finish_read rq o j f m m2 :
  valid m rq (uq_size q) → 0 <= o → o + Z.of_nat j <= uq_size q → modifies (λ x, ¬ span rq (uq_size q) x) m m2 →
  (a ← load j (rq + o); mret (f a : reg_answer)) m2 = Ret (f (read j (rq + o) m)) m2.
Proof.
  intros Hv Ho Hj Hm. apply wp_exact. apply wp_bind, wp_load.
  { eapply valid_modifies; [exact Hm|]. apply (valid_sub _ _ _ _ _ Hv); lia. }
  rewrite (read_modifies _ _ _ _ _ Hm); [by apply wp_ret|]. intros a Ha Hn. apply Hn. unfold span. lia.
Qed.

#[local] Abbreviation rq_handled := (handled q process N).

Lemma handled_register s st k free reg kfree klive m rq m1 module_id key :
  session_rel s st k free reg kfree klive m → rq ∈ uq_objs q → user_rel q (enqueued st rq) m1 →
  modifies (client_bytes q shc) m m1 → asks_register module_id key rq m1 → name_ok module_id → name_ok key →
  is_Some (pool !! module_id) → kfree ≠ [] → Z.of_nat (length reg) < Z.min n iters →
  rq_handled s st rq (call_of (CRegister module_id key)) (AId (Z.of_nat (length reg)))
    (reg_post (reg ++ [(key, module_id)]) (pred (length kfree))) m1.
Proof.
  intros Hs Hrq Hq Hm ([Hns Hop] & Hc1 & Hc2) (_ & _ & Hl1) (_ & _ & Hl2) [mh Hmh] Hne Hlen.
  destruct (serving_now s st k free reg kfree klive m rq m1 Hs Hrq Hq Hm) as [Hsv Hp].
  destruct (registrar_module _ _ _ _ _ (sg_reg _ _ _ _ _ _ _ _ _ _ _ _ _ _ _ _ Hsv)) as (Hmod & Hnz & H31).
  pose proof (rv_size _ _ _ _ _ _ (ss_registrar Henv)) as Hsz. change sizeof_register_request with 80 in Hsz.
  split; rewrite Hns, Hmod; [done|]. rewrite (ss_process Henv). eapply wp_mono.
  { by eapply (registrar_init_spec fuel tid construct q sh n iters cap d nfree pool paths registrar (ss_registrar Henv)). }
  intros [r s'] m2 (Hr & Hipc & (p & kfree' & Hperm & Hs2) & Hrd & Hnb & M2). cbn [fst snd] in *.
  split; [done|]. split; [done|]. split; [apply Hs2|]. split; [|split].
  - eapply modifies_weaken; [exact M2|]. intros x [Hx|Hx]; [by left|right]. by apply (sn_mem _ _ _ _ _ _ _ _ Hs).
  - split; [|intros x Hx; apply (sn_mem _ _ _ _ _ _ _ _ Hs); by apply Hnb]. exists kfree', (p :: klive).
    split; [by rewrite (Permutation_length Hperm)|apply Hs2].
  - intros m3 M3. rewrite <-Hrd. apply finish_read; [by eapply serving_valid|autounfold with layout; simpl; lia..|done].
Qed.

Lemma handled_lookup s st k free reg kfree klive m rq m1 key :
  session_rel s st k free reg kfree klive m → rq ∈ uq_objs q → user_rel q (enqueued st rq) m1 →
  modifies (client_bytes q shc) m m1 → asks_lookup key rq m1 → name_ok key →
  rq_handled s st rq (call_of (CLookup key)) (AId (default LABSTOR_INVALID_NAMESPACE_KEY (name_index reg.*1 key)))
    (reg_post reg (length kfree)) m1.
Proof.
  intros Hs Hrq Hq Hm ([Hns Hop] & Hc) (_ & _ & Hl).
  destruct (serving_now s st k free reg kfree klive m rq m1 Hs Hrq Hq Hm) as [Hsv Hp].
  destruct (registrar_module _ _ _ _ _ (sg_reg _ _ _ _ _ _ _ _ _ _ _ _ _ _ _ _ Hsv)) as (Hmod & Hnz & H31).
  pose proof (rv_size _ _ _ _ _ _ (ss_registrar Henv)) as Hsz. change sizeof_register_request with 80 in Hsz.
  split; rewrite Hns, Hmod; [done|]. rewrite (ss_process Henv). eapply wp_mono.
  { eapply (registrar_lookup_spec fuel tid construct q sh n iters cap d nfree pool paths registrar (ss_registrar Henv)); try done. lia. }
  intros [r s'] m2 (E & Hs2 & Hrd & M2). simplify_eq. cbn [fst snd] in *.
  split; [done|]. split; [done|]. split; [apply Hs2|]. split; [|split].
  - eapply modifies_weaken; [exact M2|]. by left.
  - split; [|apply Hs]. exists kfree, klive. split; [done|apply Hs2].
  - intros m3 M3. rewrite <-Hrd. apply finish_read; [by eapply serving_valid|autounfold with layout; simpl; lia..|done].
Qed.

Lemma handled_path s st k free reg kfree klive m rq m1 i :
  session_rel s st k free reg kfree klive m → rq ∈ uq_objs q → user_rel q (enqueued st rq) m1 →
  modifies (client_bytes q shc) m m1 → asks_path (Z.of_nat i) rq m1 → reg_call_ok (uq_size q) pool paths reg (CPath (Z.of_nat i)) →
  rq_handled s st rq (call_of (CPath (Z.of_nat i))) (registry_step paths reg (CPath (Z.of_nat i))).2 (reg_post reg (length kfree)) m1.
Proof.
  intros Hs Hrq Hq Hm ([Hns Hop] & Hi) [Hlt Hpath]. rewrite Nat2Z.id in Hpath. simpl. rewrite Nat2Z.id.
  destruct (lookup_lt_is_Some_2 reg i) as [r Hr]; [lia|]. rewrite Hr. destruct (Hpath r Hr) as (Hc & H0 & Hlen).
  destruct (serving_now s st k free reg kfree klive m rq m1 Hs Hrq Hq Hm) as [Hsv Hp].
  destruct (registrar_module _ _ _ _ _ (sg_reg _ _ _ _ _ _ _ _ _ _ _ _ _ _ _ _ Hsv)) as (Hmod & Hnz & H31).
  split; rewrite Hns, Hmod; [done|]. rewrite (ss_process Henv). eapply wp_mono.
  { by eapply (registrar_path_spec fuel tid construct q sh n iters cap d nfree pool paths registrar (ss_registrar Henv)). }
  intros [x s'] m2 (Hx & Hipc & Hnss & Hs2 & Hcs & M2). cbn [fst snd] in *.
  split; [done|]. split; [done|]. split; [apply Hs2|]. split; [|split].
  - eapply modifies_weaken; [exact M2|]. by left.
  - split; [|rewrite Hnss; apply Hs]. exists kfree, klive. split; [done|apply Hs2].
  - intros m3 M3. cbn [cc_finish answer_with Registrar_Client_GetModulePath]. erewrite run_bind; [reflexivity|].
    apply cstr_text. eapply cstr_at_frame; [exact M3| |exact Hcs]. intros a Ha Hn. apply Hn. unfold span.
    autounfold with layout in *. lia.
Qed.

Lemma call_spec s st k free reg kfree klive m rc :
  session_rel s st (S k) free reg kfree klive m → free ≠ [] → ids_ok (uq_cap q) (qa_enq st + 1) = true →
  reg_call_ok (uq_size q) pool paths reg rc → (registrations [rc] <= length kfree)%nat →
  Z.of_nat (length reg + registrations [rc]) <= Z.min n iters →
  wp (served_call fuel ctid c process wq (call_of rc) s)
     (λ r m', r.1 = inl (registry_step paths reg rc).2 ∧ ∃ rq free' kfree' klive', free' ≡ₚ free ∧
        (length kfree' + registrations [rc] = length kfree)%nat ∧
        session_rel r.2 (after_call st rq) k free' (registry_step paths reg rc).1 kfree' klive' m') m.
Proof.
  intros Hs Hne Hids Hok Hkf Hlen. pose proof (rv_size _ _ _ _ _ _ (ss_registrar Henv)) as Hsz.
  assert (∀ Ask, request_local q Ask →
    (∀ rq m1, valid m1 rq (uq_size q) →
       wp (cc_start (call_of rc) rq) (λ _ m2, Ask rq m2 ∧ modifies (λ a, rq + 4 <= a < rq + uq_size q) m1 m2) m1) →
    (∀ rq m1, rq ∈ uq_objs q → Ask rq m1 → user_rel q (enqueued st rq) m1 → modifies (client_bytes q shc) m m1 →
       rq_handled s st rq (call_of rc) (registry_step paths reg rc).2
         (reg_post (registry_step paths reg rc).1 (length kfree - registrations [rc])) m1) →
    wp (served_call fuel ctid c process wq (call_of rc) s)
       (λ r m', r.1 = inl (registry_step paths reg rc).2 ∧ ∃ rq free' kfree' klive', free' ≡ₚ free ∧
          (length kfree' + registrations [rc] = length kfree)%nat ∧
          session_rel r.2 (after_call st rq) k free' (registry_step paths reg rc).1 kfree' klive' m') m) as Hcall.
  { intros Ask Hloc Hstart Hserve. eapply wp_mono.
    { eapply (served_call_spec fuel ctid c q cp shc process wq wcap N (call_of rc) Ask _ s st k free m _ (ss_served Henv)
        (sn_calling _ _ _ _ _ _ _ _ Hs) Hne (ss_cap Henv) Hids Hloc Hstart Hserve). apply reg_post_stable. }
    intros [r s'] m' (Hr & ((kf & kl & Hl & Hreg) & HN) & rq & free' & Hperm & Hca). split; [done|].
    exists rq, free', kf, kl. split; [done|]. split; [lia|]. by split. }
  destruct rc as [mid key|key|i]; simpl in Hkf, Hlen, Hok.
  - destruct Hok as (Hm & Hk & Hp). apply (Hcall (asks_register mid key)).
    + by apply asks_register_local.
    + intros rq m1 Hv. by apply start_register_spec.
    + intros rq m1 Hrq HA Hq Hm1. replace (length kfree - registrations [CRegister mid key])%nat with (pred (length kfree)) by (simpl; lia).
      eapply handled_register; try done; [|lia]. intros ->. simpl in Hkf. lia.
  - apply (Hcall (asks_lookup key)).
    + by apply asks_lookup_local.
    + intros rq m1 Hv. by apply start_lookup_spec.
    + intros rq m1 Hrq HA Hq Hm1. simpl. rewrite Nat.sub_0_r. by eapply handled_lookup.
  - pose proof Hok as [Hi _]. destruct (registrar_module _ _ _ _ _ (sn_registry _ _ _ _ _ _ _ _ Hs)) as (_ & _ & H31).
    replace i with (Z.of_nat (Z.to_nat i)) in * by lia. apply (Hcall (asks_path (Z.of_nat (Z.to_nat i)))).
    + by apply asks_path_local.
    + intros rq m1 Hv. apply start_path_spec; [done|lia|done].
    + intros rq m1 Hrq HA Hq Hm1. cbn [registry_step fst registrations]. rewrite Nat.sub_0_r. by eapply handled_path.
Qed.

(** C34. The registrar as its clients see it.  A client registers instances of
    known modules, looks up names and asks for the library of ids it was
    given; every call puts a request on the client's queue, a worker of the
    server takes it to the registrar, and the client waits for the answer and
    frees the request.  Each sequence of such calls returns what a table of
    names returns: ids count up from the number of names there are, a name is
    found at its first position and otherwise -1 is returned, and the path of
    an id is the one the module manager has for its module. *)
Theorem registrar_refines calls s st k free reg kfree klive m :
  session_rel s st (length calls + k) free reg kfree klive m → free ≠ [] →
  ids_ok (uq_cap q) (qa_enq st + Z.of_nat (length calls)) = true →
  reg_calls_ok (uq_size q) pool paths reg calls → (registrations calls <= length kfree)%nat →
  Z.of_nat (length reg + registrations calls) <= Z.min n iters →
  wp (run_calls fuel ctid c process wq calls s)
     (λ r m', r.1 = inl (registry_run paths reg calls).2 ∧ ∃ st' free' kfree' klive', free' ≡ₚ free ∧
        session_rel r.2 st' k free' (registry_run paths reg calls).1 kfree' klive' m') m.
Proof.
  pose proof (ss_cap Henv) as Hcap. revert s st free reg kfree klive m.
  induction calls as [|rc calls IH]; intros s st free reg kfree klive m Hs Hne Hids Hok Hkf Hlen.
  { apply wp_ret. split; [done|]. by exists st, free, kfree, klive. }
  assert (registrations (rc :: calls) = registrations [rc] + registrations calls)%nat as Ereg by (by destruct rc).
  destruct Hok as [Hok1 Hok2]. cbn [run_calls]. apply wp_ubind. eapply wp_mono.
  { apply (call_spec s st (length calls + k) free reg kfree klive m rc Hs Hne); [|done|lia|lia].
    apply ids_ok_spec; [done|]. apply ids_ok_spec in Hids; [|done]. destruct Hids as [|Hids]; [by left|right]. simpl in Hids. lia. }
  intros [r s1] m1 (Hr & rq & free1 & kfree1 & klive1 & Hperm & Hkf1 & Hs1). cbn [fst snd] in *. subst r. cbn [fst snd].
  apply wp_ubind. eapply wp_mono.
  { apply (IH s1 _ free1 _ kfree1 klive1 m1 Hs1).
    - intros ->. by apply Permutation_nil_l in Hperm.
    - simpl. replace (qa_enq st + 1 + Z.of_nat (length calls)) with (qa_enq st + Z.of_nat (length (rc :: calls))) by (simpl; lia). done.
    - done.
    - lia.
    - assert (length (registry_step paths reg rc).1 = length reg + registrations [rc])%nat as ->; [|lia].
      destruct rc; simpl; rewrite ?length_app; simpl; lia. }
  intros [r s2] m2 (Hr2 & st2 & free2 & kfree2 & klive2 & Hperm2 & Hs2). cbn [fst snd] in *. subst r. apply wp_ret.
  cbn [fst snd registry_run]. destruct (registry_step paths reg rc) as [reg1 a]. cbn [fst snd] in *.
  destruct (registry_run paths reg1 calls) as [reg2 l]. cbn [fst snd] in *. split; [done|].
  exists st2, free2, kfree2, klive2. split; [by rewrite Hperm2|done].
Qed.
End session.

(** ** An example: a client of a server that has just started *)

Definition rc_qid : labstor_qid_t := {| qid_flags_ := 0; qid_type_ := 0; qid_cnt_ := 0; qid_pid_ := 77 |}.
Definition rc_handle : labstor_queue_pair := queue_pair_at 4096 4096 4160.
Definition rc_wq : labstor_work_queue_secure := labstor_work_queue_secure_Attach 5000.

(** Three requests of 96 bytes. *)
Definition rc_shc : shm := shm_of 8192 8192 400 96 1.
Definition rc_queue : user_queue :=
  {| uq_ptr := 700; uq_creds := 900; uq_handle := rc_handle; uq_qid := rc_qid; uq_cap := 2;
     uq_objs := {[8238; 8336; 8434]}; uq_size := 96 |}.

Definition rc_pool : QueuePool :=
  default QueuePool_new (QueuePool_RegisterQueuePair QueuePool_new {| qpr_ptr := 700; qpr_qid := rc_qid |}).
Definition rc_client : ClientIPC :=
  {| ci_pid_ := 77; ci_pool := rc_pool; ci_mem := MemoryManager_SetShmemAlloc MemoryManager_unset (sh_alloc rc_shc);
     ci_heap := {[700 := rc_handle]} |}.

(** A namespace for 16 names in a kilobyte at 65536. *)
Definition rc_options : NamespaceOptions :=
  {| no_max_entries := 16; no_max_collisions := 3; no_shmem_request_unit := 40; no_shmem_kb := 1 |}.

(** The module "D", whose constructor makes an object at a new address. *)
Definition rc_modules : gmap (list Z) ModuleHandle := {[ [68] := {| constructor_ := 101; handle_ := 1 |} ]}.
Definition rc_paths (id : list Z) : ModulePath :=
  default no_paths (({[ [68] := {| mp_client := [47; 99]; mp_server := [47; 115] |} ]} : gmap (list Z) ModulePath) !! id).
Definition rc_construct (create : Z) (objs : gmap Z (list Z)) : Module :=
  {| mod_ptr := fresh ({[0]} ∪ dom objs : gset Z); mod_id := [68] |}.
Definition rc_process (module qp rq creds : Z) : UM bool := Registrar_ProcessRequest 1 5 rc_construct qp rq creds.

Definition rc_server (sn : ServerNamespace) : server :=
  {| sv_ipc := {| si_pid_ := 1; si_ipcs := {[9000 := {| ipc_pool := rc_pool; ipc_mem := MemoryManager_unset; ipc_pid_ := 77 |}]};
                  si_pid_to_ipc_ := {[77 := 9000]}; si_heap := {[700 := rc_handle]}; si_workers := [Some rc_wq] |};
     sv_namespace := sn_namespace sn; sv_shmem_alloc_ := sn_shmem_alloc_ sn;
     sv_modules := {| mutex_ := false; pkg_pool_ := rc_modules; upgrades_ := [];
                      paths_ := {[ [68] := {| mp_client := [47; 99]; mp_server := [47; 115] |} ]}; dl_refs := ∅ |};
     sv_module_id_ := {[6000 := LABSTOR_REGISTRAR_MODULE_ID]}; sv_dev_id_ := ∅ |}.

(** The work queue of the worker. *)
Definition rc_run : outcome unit :=
  (r ← labstor_work_queue_secure_Init Userspace (labstor_work_queue_secure_Attach 0) 5000 44 2;
   _ ← labstor_work_queue_secure_Enqueue r.1 700 900; mret tt)
  (zero_region 4096 32 ∪ (zero_region 4160 12 ∪ (zero_region 5000 44 ∪ (zero_region 8192 408 ∪ zero_region 65536 1032)))).
Definition rc_mem : mem := match rc_run with Ret _ m => m | _ => ∅ end.

(** The requests and the queue pair of the client; the namespace of the server. *)
Definition rc_client_start : M labstor_queue_pair :=
  _ ← labstor_shmem_allocator_Init Userspace (labstor_private_shmem_allocator_Attach 0 0) 1 8192 8192 400 96 1;
  labstor_queue_pair_Init Userspace (queue_pair_at 0 0 0) rc_qid 4096 2 4096 32 4160 12.

Definition rc_start : M ServerNamespace :=
  _ ← rc_client_start;
  r ← (sn ← Server_Namespace_new 1 (labstor_private_shmem_allocator_Attach 0 0) rc_options 3 65536; Server_Namespace_Init 1 5 sn 6000);
  mret r.1.

Lemma rc_objs p : p ∈ uq_objs rc_queue ↔ p = 8238 ∨ p = 8336 ∨ p = 8434.
Proof. simpl. set_solver. Qed.

Lemma rc_layout : user_layout rc_queue.
Proof.
  split; unfold outside.
  - split; unfold near, outside; try (intros rq Hrq; apply rc_objs in Hrq); simpl; try lia.
    intros p r Hp Hr. apply rc_objs in Hp, Hr. lia.
  - reflexivity.
  - simpl. lia.
  - intros rq Hrq. apply rc_objs in Hrq. simpl. lia.
  - intros rq Hrq. apply rc_objs in Hrq. simpl. lia.
  - intros p r Hp Hr. apply rc_objs in Hp, Hr. simpl. lia.
Qed.

Lemma rc_fits : shm_fits 8192 8192 400 96 1.
Proof.
  split; try lia. intros i Hi. assert (i = 0) as -> by lia. change (400 / 1) with 400. split; try lia.
  change (400 / (96 + 2)) with 4. lia.
Qed.

Lemma rc_own a : ga_own rc_shc a → 8200 <= a < 8600.
Proof. intros Ha. apply (shm_of_own _ _ _ _ _ _ rc_fits) in Ha. lia. Qed.

Lemma rc_ns_fits m : valid m 65536 1032 → namespace_fits rc_options 1 65536 100 m.
Proof.
  intros Hv. split; simpl; try lia.
  - change (ns_keys_size rc_options) with 796. lia.
  - change (ns_keys_size rc_options) with 796. change (ns_keys_at rc_options 65536) with 65764.
    split; try lia. intros i Hi. assert (i = 0) as -> by lia. change (796 / 1) with 796. split; try lia.
    change (796 / (40 + 2)) with 18. lia.
  - change (ns_keys_size rc_options) with 796. right. change (796 / 1 / (40 + 2)) with 18. lia.
  - exact Hv.
Qed.

Definition rc_ns_shm : shm := ns_shm rc_options 1 65536.

Lemma rc_client_bytes a : client_bytes rc_queue rc_shc a → 4096 <= a < 4172 ∨ 8200 <= a < 8600.
Proof.
  intros [Ha|Ha%rc_own]; [|lia]. rs_spans. destruct Ha as [Ha|[Ha|(p & Hp & Ha)]]; [lia|lia|]. apply rc_objs in Hp. lia.
Qed.

Lemma rc_session_env :
  session_env 1 5 5 rc_construct rc_process rc_client rc_queue 700 rc_shc rc_wq 2 rc_ns_shm rc_modules 6000 (span 65536 1032).
Proof.
  split.
  - split; [lia|lia|exact rc_layout|vm_compute; discriminate|vm_compute; split; [discriminate|reflexivity]|].
    intros id mh objs Hmh. unfold rc_modules in Hmh. apply lookup_singleton_Some in Hmh as [<- <-]. simpl.
    pose proof (is_fresh ({[0]} ∪ dom objs : gset Z)) as Hf. rewrite not_elem_of_union, not_elem_of_singleton, not_elem_of_dom in Hf.
    destruct Hf. done.
  - split.
    + split; [lia|lia|exact rc_layout|reflexivity|reflexivity|by eexists|reflexivity|reflexivity|reflexivity|].
      intros a Ha%rc_own. rs_spans. lia.
    + reflexivity.
    + intros a Ha Hc%rc_client_bytes. unfold uwq_bytes, span in Ha. autounfold with layout in Ha. simpl in Ha. lia.
    + intros a Ha. unfold uwq_bytes, span in *. autounfold with layout. simpl. split; [intros Hc%rc_client_bytes; lia|lia].
  - done.
  - simpl. lia.
Qed.

Lemma rc_client_started :
  wp rc_client_start (λ _ m', client_rel rc_queue rc_shc qp_spec_init 4 [8238; 8336; 8434] [] m' ∧
    vec_rep sizeof_wq_secure_entry rd_secure 5000 2 [(700, 900)] m' ∧ valid m' 65536 1032) rc_mem.
Proof.
  assert (valid rc_mem 8192 408) as Hv1 by (apply (validb_valid _ 8192 408); vm_compute; reflexivity).
  assert (valid rc_mem 4096 32) as Hv2 by (apply (validb_valid _ 4096 32); vm_compute; reflexivity).
  assert (valid rc_mem 4160 12) as Hv3 by (apply (validb_valid _ 4160 12); vm_compute; reflexivity).
  assert (valid rc_mem 65536 1032) as Hv4 by (apply (validb_valid _ 65536 1032); vm_compute; reflexivity).
  assert (vec_rep sizeof_wq_secure_entry rd_secure 5000 2 [(700, 900)] rc_mem) as Hwork.
  { split; [apply (validb_valid _ 5000 44); vm_compute; reflexivity|simpl; lia|simpl; lia|vm_compute; reflexivity|
      vm_compute; reflexivity|]. intros [|i] e Hi; [|done]. injection Hi as <-. vm_compute. reflexivity. }
  unfold rc_client_start. apply wp_bind. eapply wp_mono.
  { apply (shm_init_full Userspace _ 1 8192 8192 400 96 1 4 rc_mem rc_fits Hv1). right. vm_compute. discriminate. }
  cbv zeta. intros a m1 (_ & Ha & M1). eapply wp_mono.
  { apply (qp_init_rel Userspace (queue_pair_at 0 0 0) rc_qid 4096 2 4096 32 4160 12 (uq_objs rc_queue)).
    - by eapply valid_modifies.
    - lia.
    - by eapply valid_modifies.
    - lia.
    - lia.
    - vm_compute. done.
    - apply rc_layout.
    - intros rq Hrq. apply rc_objs in Hrq. eapply valid_modifies; [exact M1|]. apply (valid_sub _ _ _ _ _ Hv1); lia.
    - reflexivity. }
  cbv zeta. intros h m2 (_ & Hq & M2).
  assert (∀ x, both (sq_bytes rc_handle 2) (cq_bytes rc_handle 2) x → 4096 <= x < 4172) as Hqb.
  { intros x. unfold both. rs_spans. lia. }
  split; [split|split].
  - split; [exact Hq|]. intros rq Hrq. apply rc_objs in Hrq. eapply valid_modifies; [exact M2|].
    eapply valid_modifies; [exact M1|]. apply (valid_sub _ _ _ _ _ Hv1); simpl; lia.
  - eapply (ga_client rc_shc); [exact Ha|exact M2|]. intros x Hx%Hqb Ho%rc_own. lia.
  - intros q0. rewrite rc_objs, app_nil_r. set_solver.
  - assert (modifies (λ x, 4096 <= x < 4172 ∨ 8192 <= x < 8600) rc_mem m2) as M.
    { eapply modifies_trans; [eapply modifies_weaken; [exact M1|unfold span; lia]|].
      eapply modifies_weaken; [exact M2|]. intros x Hx%Hqb. by left. }
    eapply (vec_frame sizeof_wq_secure_entry rd_secure); [done|exact Hwork|exact M|].
    unfold uwq_bytes, span. autounfold with layout. simpl. lia.
  - eapply valid_modifies; [exact M2|]. by eapply valid_modifies.
Qed.

Lemma rc_started :
  wp rc_start (λ sn m', ∃ kfree klive, (15 <= length kfree)%nat ∧
    session_rel rc_queue rc_shc rc_wq 2 rc_ns_shm 16 17 16 0 100 rc_modules rc_paths 6000 (span 65536 1032)
      (rc_server sn) qp_spec_init 4 [8238; 8336; 8434] [(LABSTOR_REGISTRAR_MODULE_ID, LABSTOR_REGISTRAR_MODULE_ID)] kfree klive m') rc_mem.
Proof.
  unfold rc_start. apply wp_bind. eapply wp_mono; [exact rc_client_started|].
  intros h m2 (Hc & Hwork & Hv). apply wp_bind. eapply wp_mono.
  { apply (namespace_started 1 5 _ rc_options 1 65536 3 6000 100 m2).
    - lia.
    - lia.
    - by apply rc_ns_fits.
    - lia.
    - simpl. lia.
    - discriminate. }
  intros [sn r] m3 (_ & Hal & Hids & Hmap & Hbase & (p & kfree & Hperm & Hns) & M3). cbn [fst snd] in *. apply wp_ret.
  exists kfree, [p]. split.
  { apply Permutation_length in Hperm. change (length (shm_objects (ns_shm rc_options 1 65536))) with 16%nat in Hperm. simpl in Hperm. lia. }
  assert (∀ x, ns_bytes rc_ns_shm (sn_namespace sn) 16 16 x → span 65536 1032 x) as HN.
  { intros x Hx. eapply (ns_bytes_region rc_options 1 65536 _ 100 m2); [by apply rc_ns_fits|done|done|exact Hx]. }
  assert (∀ x, uq_bytes rc_queue x → ¬ span 65536 1032 x) as Hap.
  { intros x Hu Hx. destruct (rc_client_bytes x ltac:(by left)); unfold span in Hx; lia. }
  split; [|split|exact HN].
  - split; [|by split|reflexivity|reflexivity|].
    + destruct Hc as [Hq Ha Hobjs]. split; [|eapply (ga_client rc_shc); [exact Ha|exact M3|]|done].
      * eapply (user_rel_frame rc_queue _ _ m2 m3 rc_layout); [exact Hq|exact M3|]. intros x Hx Hu. by apply (Hap x Hu).
      * intros x Hx Ho%rc_own. unfold span in Hx. simpl in Hx. lia.
    + eapply (vec_frame sizeof_wq_secure_entry rd_secure); [done|exact Hwork|exact M3|].
      unfold uwq_bytes, span. autounfold with layout. simpl. lia.
  - reflexivity.
  - exact Hal.
  - eexists. split; [exact Hns|]. split; [reflexivity|]. split; [|done]. constructor; [|constructor]. split; [done|reflexivity].
  - intros x Hx%HN Hu. by apply (Hap x Hu).
  - reflexivity.
  - reflexivity.
  - intros id. reflexivity.
Qed.

Lemma rc_name c : 0 < c < 256 → name_ok [c].
Proof. intros Hc. split; [constructor; [lia|constructor]|]. split; [set_solver by lia|unfold MODULE_KEY_SIZE; simpl; lia]. Qed.

Lemma rc_calls_ok :
  reg_calls_ok 96 rc_modules rc_paths [(LABSTOR_REGISTRAR_MODULE_ID, LABSTOR_REGISTRAR_MODULE_ID)]
    [CRegister [68] [97]; CLookup [97]; CLookup [98]; CPath 1].
Proof.
  split; [split; [by apply rc_name|split; [by apply rc_name|by eexists]]|]. split; [by apply rc_name|]. split; [by apply rc_name|].
  split; [|done]. split; [simpl; lia|]. intros r Hr. simpl in Hr. injection Hr as <-.
  change (mp_client (rc_paths ([97], [68]).2)) with [47; 99]. cbv zeta.
  split; [repeat constructor; lia|]. split; [set_solver by lia|simpl; lia].
Qed.

Lemma registrar_refines_witness :
  wp ((sn ← ulift rc_start;
       _ ← u_put (rc_server sn);
       run_calls 1 5 rc_client rc_process rc_wq [CRegister [68] [97]; CLookup [97]; CLookup [98]; CPath 1]) uw_server)
     (λ r _, r.1 = inl [AId 1; AId 1; AId (2 ^ 32 - 1); APath [47; 99]]) rc_mem.
Proof.
  apply wp_ulift_bind. eapply wp_mono; [exact rc_started|]. intros sn m1 (kfree & klive & Hlen & Hs). apply wp_ubind, wp_ret.
  cbn [fst snd]. eapply wp_mono.
  { apply (registrar_refines 1 5 5 rc_construct rc_process rc_client rc_queue 700 rc_shc rc_wq 2 rc_ns_shm 16 17 16 0 100
      rc_modules rc_paths 6000 (span 65536 1032) rc_session_env [CRegister [68] [97]; CLookup [97]; CLookup [98]; CPath 1]
      (rc_server sn) qp_spec_init 0 [8238; 8336; 8434] _ kfree klive m1 Hs).
    - done.
    - reflexivity.
    - exact rc_calls_ok.
    - simpl. lia.
    - simpl. lia. }
  intros r m' [Hr _]. rewrite Hr. reflexivity.
Defined.
