(* ===== verification/ModuleClients.v ===== *)
(** * ModuleClients.v: the clients of the modules

    labmods/dummy/client, labmods/ipc_test/client, labmods/blkdev_table/client
    and labmods/mq_driver/client.  The flags with which the clients ask for a
    queue pair are all 0.  A batch of requests that is put on the queue before
    the first answer is waited for is answered by one pass of a worker. *)

From S2P Require Import Prelude Memory RingBuffer RequestQueue QueuePair WorkQueue QueuePool MpmcRing UnorderedMap ShmemString.
From S2P Require Import Allocators AllocatorSpec Namespace ModuleTable MqDriver IpcManager Kernel KernelWorker UserWorker ServerModules.
From S2P Require Import ServerNamespace ClientCalls Registrar RegistrarClient.

Local Open Scope Z_scope.

(** ** Batches *)

Section batch.
Context (fuel : nat) (tid : Z) (c : ClientIPC).

(** [n] requests are filled in and enqueued one after the other. *)
Fixpoint submit_batch (n : nat) (qp size : Z) (start : Z → M unit) : M (list labstor_qtok_t) :=
  match n with
  | O => mret []
  | S n' => qtok ← submit_on fuel tid c qp size start; l ← submit_batch n' qp size start; mret (qtok :: l)
  end.

(** Each of the answers is waited for and freed; [ftok] is the token that
    [FreeRequest] is given. *)
Fixpoint collect_batch (ftok : labstor_qtok_t) (qtoks : list labstor_qtok_t) : M unit :=
  match qtoks with
  | [] => mret tt
  | qtok :: l => _ ← collect_as fuel c ftok (λ _, mret tt) qtok; collect_batch ftok l
  end.

(** [Wait(qtoks, num_qtoks)] of the client's IPC manager: nothing is freed. *)
Fixpoint Client_Wait_all (qtoks : list labstor_qtok_t) : M Z :=
  match qtoks with
  | [] => mret LABSTOR_REQUEST_SUCCESS
  | qtok :: l => _ ← Client_Wait fuel c qtok; Client_Wait_all l
  end.
End batch.

(** ** dummy_client.cpp *)

Definition sizeof_dummy_request : Z := 20.

Definition dummy_request_Start (ns_id rq : Z) : M unit :=
  _ ← store32 (rq + rq_ns_id_) ns_id;
  _ ← store16 (rq + rq_op_) DUMMY_GET_VALUE;
  store32 (rq + rq_code_) 0.

(** The first loop of [GetValue], with [n] = 100. *)
Definition Dummy_submit (fuel : nat) (tid : Z) (c : ClientIPC) (n : nat) (ns_id : Z) : M (list labstor_qtok_t) :=
  qp ← Client_GetQueuePair c tid 0 0;
  submit_batch fuel tid c n qp sizeof_dummy_request (dummy_request_Start ns_id).

(** The second: every request is freed with the token of the last. *)
Definition Dummy_collect (fuel : nat) (c : ClientIPC) (qtoks : list labstor_qtok_t) : M unit :=
  match last qtoks with
  | Some qtok => collect_batch fuel c qtok qtoks
  | None => mret tt
  end.

Definition Dummy_GetValue (fuel : nat) (tid : Z) (c : ClientIPC) (ns_id : Z) : M unit :=
  qtoks ← Dummy_submit fuel tid c 100 ns_id; Dummy_collect fuel c qtoks.

(** ** ipc_test_client.cpp *)

Definition IPCClientStart (ns_id nonce rq : Z) : M unit :=
  _ ← store32 (rq + rq_ns_id_) (u32 ns_id);
  _ ← store16 (rq + rq_op_) KSTART_IPC_TEST;
  _ ← store32 (rq + rq_code_) 0;
  store_s32 (rq + itr_nonce_) nonce.

(** The result is an uninitialised [dev_id], [exit(1)] is not reached. *)
Definition IPCTest_submit (fuel : nat) (tid : Z) (c : ClientIPC) (ns_id : Z) (batch_size : nat) : M (list labstor_qtok_t) :=
  qp ← Client_GetQueuePair c tid 0 0;
  submit_batch fuel tid c batch_size qp sizeof_ipc_test_request (IPCClientStart ns_id 24).

Definition IPCTest_Start (fuel : nat) (tid : Z) (c : ClientIPC) (ns_id : Z) (batch_size : nat) : M bool :=
  qtoks ← IPCTest_submit fuel tid c ns_id batch_size;
  ret ← Client_Wait_all fuel c qtoks;
  mret (ret =? LABSTOR_REQUEST_SUCCESS).

(** ** blkdev_table_client.cpp *)

Definition blkdev_register_GetSize (pathlen : Z) : Z := u32 (sizeof_blkdev_table_register_request + pathlen + 1).

(** The device id that is given is ignored. *)
Definition blkdev_ClientStart (ns_id : Z) (path : list Z) (devid rq : Z) : M unit :=
  let pathlen := Z.of_nat (length path) in
  _ ← store16 (rq + rq_op_) KREGISTER_BDEV;
  _ ← store32 (rq + rq_ns_id_) (u32 ns_id);
  _ ← store32 (rq + rq_code_) 0;
  _ ← store_s32 (rq + btr_pathlen_) (s32 pathlen);
  _ ← store_bytes (rq + btr_path_) path;
  store8 (rq + btr_path_ + s32 pathlen) 0.

Definition BlkdevTable_Client_RegisterBlkdev (ns_id : Z) (path : list Z) : client_call Z := {|
  cc_size := blkdev_register_GetSize (Z.of_nat (length path));
  cc_start := blkdev_ClientStart ns_id path (-1);
  cc_finish := λ rq, dev_id ← load32 (rq + btr_dev_id_); mret (s32 dev_id)
|}.

(** ** mq_driver_client.cpp *)

Definition IOClientStart (ns_id pid op user_buf buf_size sector hctx rq : Z) : M unit :=
  IOStart rq ns_id pid op 0 user_buf buf_size sector hctx.

Definition MQDriver_AIO (fuel : nat) (tid : Z) (c : ClientIPC) (ns_id op user_buf buf_size sector hctx : Z) : M labstor_qtok_t :=
  submit_request fuel tid c sizeof_mqu_request (IOClientStart ns_id (ci_pid_ c) op user_buf buf_size sector hctx).

Definition MQDriver_Client_IO (c : ClientIPC) (ns_id op user_buf buf_size sector hctx : Z) : client_call unit := {|
  cc_size := sizeof_mqu_request;
  cc_start := IOClientStart ns_id (ci_pid_ c) op user_buf buf_size sector hctx;
  cc_finish := λ rq, mret tt
|}.

(** [stats_request::ClientStart] sets the module only. *)
Definition stats_ClientStart (ns_id rq : Z) : M unit := store32 (rq + rq_ns_id_) (u32 ns_id).

Definition MQDriver_GetNumHWQueues (ns_id : Z) : client_call Z := {|
  cc_size := sizeof_stats_request;
  cc_start := stats_ClientStart ns_id;
  cc_finish := λ rq, n ← load32 (rq + qsr_num_hw_queues_); mret (s32 n)
|}.

(** [register_request::ConstructModuleStart] of the driver: the operation goes
    into [code_], [op_] keeps what the memory held. *)
Definition sizeof_mq_register_request : Z := 84.
Definition mq_ConstructModuleStart (ns_id dev_id rq : Z) : M unit :=
  _ ← store32 (rq + rq_ns_id_) (u32 ns_id);
  _ ← store32 (rq + rq_code_) 0;
  store_s32 (rq + mqreg_dev_id_) dev_id.

(** [InitializeInstance<register_request>(ns_id, dev_id)]. *)
Definition MQDriver_InitializeInstance (ns_id dev_id : Z) : client_call Z := {|
  cc_size := sizeof_mq_register_request;
  cc_start := mq_ConstructModuleStart ns_id dev_id;
  cc_finish := λ rq, load32 (rq + rq_ns_id_)
|}.

(** ** A batch and the worker *)

(** The batch with a pass of a worker between the two loops. *)
Definition served_batch (fuel : nat) (tid : Z) (c : ClientIPC) (process : Z → Z → Z → Z → UM bool)
    (wq : labstor_work_queue_secure) (n : nat) (ns_id : Z) : UM unit :=
  qtoks ← ulift (Dummy_submit fuel tid c n ns_id);
  _ ← DoWork process fuel wq;
  ulift (Dummy_collect fuel c qtoks).

(** ** The first loop *)

(** Changes that leave [S] alone. *)
Lemma modifies_but (S P : Z → Prop) m m' :
  modifies P m m' → (∀ x, S x → m' !! x = m !! x) → modifies (λ x, ¬ S x) m m'.
Proof.
  intros Hm HS x. split; [apply (Hm x)|]. intros Hn. destruct (decide (m' !! x = m !! x)) as [|Hne]; [done|].
  exfalso. apply Hn. intros Sx. by apply Hne, HS.
Qed.

(** The state after the requests [rqs] were enqueued. *)
Definition batched (st : qp_abs) (rqs : list Z) : qp_abs := foldl enqueued st rqs.

Fixpoint tokens (qid : labstor_qid_t) (id : Z) (n : nat) : list labstor_qtok_t :=
  match n with
  | O => []
  | S n' => {| qtok_qid_ := qid; qtok_req_id_ := u32 id |} :: tokens qid (id + 1) n'
  end.

Lemma batched_idle st rqs :
  idle st → NoDup rqs →
  let st' := batched st rqs in
  qa_sq st' = rqs ∧ qa_enq st' = qa_enq st + Z.of_nat (length rqs) ∧ qa_cq st' = ∅ ∧
  (∀ id, id ∈ qa_out st' ↔ qa_enq st <= id < qa_enq st + Z.of_nat (length rqs)) ∧
  (∀ i rq, rqs !! i = Some rq → qa_ids st' !! rq = Some (qa_enq st + Z.of_nat i)).
Proof.
  intros [Hsq Hout Hcq] Hnd. cbv zeta. unfold batched. induction rqs as [|rq rqs IH] using rev_ind.
  { simpl. rewrite Hout. do 3 (split; [done || lia|]). split; [intros id; split; [set_solver|lia]|].
    intros i rq Hi. by rewrite lookup_nil in Hi. }
  apply NoDup_app in Hnd as (Hnd & Hni & _). destruct (IH Hnd) as (H1 & H2 & H3 & H4 & H5). rewrite foldl_app, length_app.
  cbn [foldl enqueued qa_sq qa_enq qa_cq qa_out qa_ids length]. split; [by rewrite H1|]. split; [lia|]. split; [done|]. split.
  - intros id. rewrite elem_of_union, elem_of_singleton, H2, H4. lia.
  - intros i p Hi. destruct (decide (p = rq)) as [->|Hne].
    + rewrite lookup_insert_eq, H2. do 2 f_equal. apply lookup_snoc_Some in Hi as [[_ Hi]|[-> _]]; [|done].
      apply list_elem_of_lookup_2 in Hi. exfalso. apply (Hni rq Hi). set_solver.
    + rewrite lookup_insert_ne by done. apply H5. apply lookup_snoc_Some in Hi as [[_ Hi]|[_ Hi]]; [done|by subst].
Qed.

Lemma elem_of_rev (x : Z) l : x ∈ rev l ↔ x ∈ l.
Proof. by rewrite <-Permutation_rev. Qed.

Section served_batch.
Context (fuel : nat) (tid : Z) (c : ClientIPC) (q : user_queue) (cp : Z) (shc : shm).
Hypothesis Henv : client_env fuel tid c q cp shc.

Lemma submit_batch_spec n st k free live m size start (A : Z → mem → Prop) :
  client_rel q shc st k free live m → (n <= length free)%nat → 0 < uq_cap q →
  Z.of_nat (length (qa_sq st) + n) <= uq_cap q → (∀ id, id ∈ qa_out st → qa_enq st + Z.of_nat n <= id + uq_cap q) →
  ids_ok (uq_cap q) (qa_enq st + Z.of_nat n) = true → request_local q A →
  (∀ rq m1, valid m1 rq (uq_size q) →
     wp (start rq) (λ _ m2, A rq m2 ∧ modifies (λ a, rq + 4 <= a < rq + uq_size q) m1 m2) m1) →
  wp (submit_batch fuel tid c n cp size start)
     (λ toks m', toks = tokens (uq_qid q) (qa_enq st) n ∧ modifies (client_bytes q shc) m m' ∧
        (∀ p x, p ∈ live → span p (uq_size q) x → m' !! x = m !! x) ∧
        ∃ rqs free', length rqs = n ∧ free ≡ₚ rqs ++ free' ∧
          client_rel q shc (batched st rqs) k free' (rev rqs ++ live) m' ∧ ∀ rq, rq ∈ rqs → A rq m') m.
Proof.
  intros Hr Hn Hcap Hlen Hwin Hids Hloc Hstart. revert st free live m Hr Hn Hlen Hwin Hids.
  induction n as [|n IH]; intros st free live m Hr Hn Hlen Hwin Hids; cbn [submit_batch].
  { apply wp_ret. split; [done|]. split; [apply modifies_refl|]. split; [done|]. exists [], free. split; [done|]. split; [done|].
    split; [done|]. set_solver. }
  pose proof (proj1 (ids_ok_spec _ _ Hcap) Hids) as Hids'. apply wp_bind. eapply wp_mono.
  { apply (submit_on_spec fuel tid c q cp shc Henv st k free live m size start A Hr); [|split; [lia|split]|done|done].
    - intros ->. simpl in Hn. lia.
    - intros id Hid. specialize (Hwin id Hid). simpl. lia.
    - apply ids_ok_spec; [done|]. destruct Hids'; [by left|right; lia]. }
  intros tok m1 (-> & M1 & Hold & rq & free1 & Hperm & Hr1 & HA). apply wp_bind.
  assert (length free = S (length free1)) as Hfl by (by rewrite Hperm).
  eapply wp_mono.
  { apply (IH (enqueued st rq) free1 (rq :: live) m1 Hr1).
    - lia.
    - simpl. rewrite length_app. simpl. lia.
    - simpl. intros id [->%elem_of_singleton|Hid]%elem_of_union; [lia|]. specialize (Hwin id Hid). lia.
    - simpl. replace (qa_enq st + 1 + Z.of_nat n) with (qa_enq st + Z.of_nat (S n)) by lia. done. }
  intros toks m2 (-> & M2 & Hold2 & rqs & free2 & Hl & Hperm2 & Hr2 & HA2). apply wp_ret. split; [done|].
  split; [by eapply modifies_trans|]. split.
  { intros p x Hp Hx. rewrite (Hold2 p x), (Hold p x); [done|done|done|set_solver|done]. }
  exists (rq :: rqs), free2. split; [simpl; lia|]. split; [by rewrite Hperm, Hperm2|].
  split; [simpl; by rewrite <-app_assoc|]. intros p [->|Hp]%elem_of_cons; [|by apply HA2].
  eapply (Hloc rq m1 m2); [eapply modifies_but; [exact M2|intros x Hx; apply (Hold2 rq x); [set_solver|exact Hx]]| |done].
  intros a Ha Hn'. apply Hn'. unfold span. lia.
Qed.

(** ** The second loop *)

Definition collected (st : qp_abs) (id : Z) (n : nat) : qp_abs := foldl waited st (seqZ id (Z.of_nat n)).

Lemma collect_batch_spec ftok rqs st k free live m id :
  client_rel q shc st (length rqs + k) free live m → live ≡ₚ rqs → qtok_qid_ ftok = uq_qid q →
  (∀ i rq, rqs !! i = Some rq → qa_cq st !! (id + Z.of_nat i) = Some rq) →
  wp (collect_batch fuel c ftok (tokens (uq_qid q) id (length rqs)))
     (λ _ m', modifies (client_bytes q shc) m m' ∧ (∀ p x, p ∈ uq_objs q → span p (uq_size q) x → m' !! x = m !! x) ∧
        ∃ free', free' ≡ₚ rqs ++ free ∧ client_rel q shc (collected st id (length rqs)) k free' [] m') m.
Proof.
  intros Hr Hlive Hf Hcq. revert st free live m id Hr Hlive Hcq.
  induction rqs as [|rq rqs IH]; intros st free live m id Hr Hlive Hcq; cbn [length tokens collect_batch].
  { apply wp_ret. split; [apply modifies_refl|]. split; [done|]. exists free. split; [done|]. by apply Permutation_nil_r in Hlive as ->. }
  apply wp_bind. eapply wp_mono.
  { apply (collect_as_spec fuel tid c q cp shc Henv st (length rqs + k) free live rqs m id rq ftok _ tt Hr Hlive); [|done|done].
    specialize (Hcq 0%nat rq eq_refl). by rewrite Z.add_0_r in Hcq. }
  intros [] m1 (_ & M1 & Hold & free1 & Hperm & Hr1). eapply wp_mono.
  { apply (IH (waited st id) free1 rqs m1 (id + 1) Hr1); [done|]. intros i p Hi. simpl. rewrite lookup_delete_ne by lia.
    specialize (Hcq (S i) p Hi). replace (id + 1 + Z.of_nat i) with (id + Z.of_nat (S i)) by lia. done. }
  intros [] m2 (M2 & Hold2 & free2 & Hperm2 & Hr2). split; [by eapply modifies_trans|]. split.
  { intros p x Hp Hx. by rewrite (Hold2 p x), (Hold p x). }
  exists free2. split; [rewrite Hperm2, Hperm; symmetry; apply Permutation_middle|].
  unfold collected in *. rewrite seqZ_cons by lia. cbn [foldl]. replace (Z.pred (Z.of_nat (S (length rqs)))) with (Z.of_nat (length rqs)) by lia.
  exact Hr2.
Qed.

Lemma collected_fields st id n :
  qa_sq (collected st id n) = qa_sq st ∧ qa_enq (collected st id n) = qa_enq st ∧
  ∀ x, x ∈ qa_out (collected st id n) ↔ x ∈ qa_out st ∧ ¬ id <= x < id + Z.of_nat n.
Proof.
  unfold collected. revert st id. induction n as [|n IH]; intros st id.
  { simpl. split; [done|]. split; [done|]. intros x. split; [|tauto]. split; [done|lia]. }
  rewrite seqZ_cons by lia. replace (Z.pred (Z.of_nat (S n))) with (Z.of_nat n) by lia. cbn [foldl].
  destruct (IH (waited st id) (Z.succ id)) as (H1 & H2 & H3). split; [done|]. split; [done|]. intros x. rewrite H3. simpl.
  rewrite elem_of_difference, elem_of_singleton. split; [intros [[? ?] ?]|intros [? ?]]; split; try done; try lia. split; [done|lia].
Qed.

(** ** The pass of the worker *)

Section pass.
Context (process : Z → Z → Z → Z → UM bool) (wq : labstor_work_queue_secure) (wcap : Z).
Context (inv : server → Prop) (modules : Z → Z) (accepts prompt post : Z → Z → mem → Prop).

(** The worker's only queue is [q]. *)
Record batch_env : Prop := {
  be_wq : wqs_queue_ wq = wqs_header_ wq + sizeof_wq_header;
  be_wq_apart : ∀ a, uwq_bytes wq wcap a → ¬ client_bytes q shc a;
  be_serves : serves_queue process (λ _, False) (λ _ s _, inv s) modules accepts prompt post q;
  be_lookup : ∀ s m, inv s → Server_GetQueuePair (sv_ipc s) (uq_qid q) m = Ret (uq_ptr q) m;
  be_cap : 0 < uq_cap q
}.
Hypothesis Hbe : batch_env.

Lemma batched_servable st rqs :
  idle st → NoDup rqs → (∀ rq, rq ∈ rqs → rq ∈ uq_objs q) → servable (uq_objs q) (batched st rqs).
Proof.
  intros Hi Hnd Hobj. destruct (batched_idle st rqs Hi Hnd) as (Hsq & _ & Hcq & Hout & Hids).
  assert (∀ rq, rq ∈ rqs → ∃ i, rqs !! i = Some rq ∧ qa_ids (batched st rqs) !! rq = Some (qa_enq st + Z.of_nat i)) as Hid.
  { intros rq [i Hrq]%list_elem_of_lookup_1. exists i. split; [done|]. by apply Hids. }
  split; rewrite Hsq; [done| |].
  - intros rq Hrq. destruct (Hid rq Hrq) as (i & Hl & E). exists (qa_enq st + Z.of_nat i). split; [by apply Hobj|]. split; [done|].
    split; [|by rewrite Hcq]. apply Hout. apply lookup_lt_Some in Hl. lia.
  - intros p r id Hp Hr H1 H2. destruct (Hid p Hp) as (i & Hi1 & E1). destruct (Hid r Hr) as (j & Hj1 & E2). simplify_eq.
    assert (i = j) as -> by lia. congruence.
Qed.

(** All the requests of a batch are completed. *)
Lemma batch_pass st rqs k free m s ns_id :
  idle st → client_rel q shc (batched st rqs) k free (rev rqs) m →
  vec_rep sizeof_wq_secure_entry rd_secure (wqs_header_ wq) wcap [uq_entry q] m → inv s → modules ns_id ≠ 0 →
  (∀ rq, rq ∈ rqs → request_ns rq m = ns_id ∧ accepts ns_id rq m ∧ prompt ns_id rq m) →
  wp (DoWork process fuel wq s)
     (λ r m', r.1 = inl tt ∧ inv r.2 ∧ modifies (uq_bytes q) m m' ∧ ∃ st', client_rel q shc st' k free (rev rqs) m' ∧
        qa_sq st' = [] ∧ qa_enq st' = qa_enq st + Z.of_nat (length rqs) ∧
        (∀ id, id ∈ qa_out st' ↔ qa_enq st <= id < qa_enq st + Z.of_nat (length rqs)) ∧
        ∀ i rq, rqs !! i = Some rq → qa_cq st' !! (qa_enq st + Z.of_nat i) = Some rq ∧ post ns_id rq m') m.
Proof.
  intros Hi Hr Hvec Hinv Hmod Hrq. pose proof Hr as []. pose proof (ce_layout _ _ _ _ _ _ Henv) as Hl.
  assert (NoDup rqs) as Hnd.
  { destruct (ga_objects _ _ _ _ _ cr_alloc) as [Hnd _]. apply NoDup_app in Hnd as (_ & _ & Hnd). by rewrite <-Permutation_rev in Hnd. }
  assert (∀ rq, rq ∈ rqs → rq ∈ uq_objs q) as Hobj.
  { intros rq Hin. apply cr_objs. rewrite elem_of_app. right. by apply elem_of_rev. }
  destruct (batched_idle st rqs Hi Hnd) as (Hsq & Henq & Hcq & Hout & Hids).
  eapply wp_mono.
  { apply (do_work_done process fuel (λ _, False) (λ _ s _, inv s) modules accepts prompt post wq wcap [q] [batched st rqs] m s).
    - apply Hbe.
    - exact Hvec.
    - simpl. lia.
    - intros q' a ->%list_elem_of_singleton [Ha|[]] Hw. apply (be_wq_apart Hbe a Hw). by left.
    - intros [|j] [|j'] q1 q2 Hj Hj' Hne; simplify_eq/=; done.
    - constructor; [|constructor]. split; [done|apply Hbe|intros c' s' m1 m'; apply Hbe|done|by apply batched_servable|].
      rewrite Hsq. intros rq Hin. destruct (Hrq rq Hin) as (E & Ha & _). unfold for_module. by rewrite E.
    - done. }
  intros [r s'] m' (-> & Hi' & Hm & Hd). cbn [fst snd] in *. split; [done|]. split; [done|].
  assert (modifies (uq_bytes q) m m') as Hmq.
  { eapply modifies_weaken; [exact Hm|]. by intros a (q' & ->%list_elem_of_singleton & [Ha|[]]). }
  split; [done|]. inversion Hd as [|? ? ? ? (j & st' & Hpg) _]; subst. rewrite Hsq in Hpg. destruct Hpg.
  assert (j = length rqs) as ->.
  { destruct (rqs !! j) as [rq|] eqn:E; [|apply lookup_ge_None in E; lia]. exfalso. pose proof (pg_off rq eq_refl) as Hnp.
    apply list_elem_of_lookup_2 in E. destruct (Hrq rq E) as (En & _ & Hp). by rewrite En in Hnp. }
  exists st'. destruct pg_out as [Eout Eenq]. rewrite drop_all in pg_sq. split; [|split; [done|split; [by rewrite Eenq|split]]].
  - eapply (client_qframe fuel tid c q cp shc Henv (batched st rqs) st' k free (rev rqs) m m' (λ x, m' !! x ≠ m !! x)); [done| | |done].
    + intros x. split; [apply (Hmq x)|]. intros Hn. destruct (decide (m' !! x = m !! x)); [done|]. by destruct Hn.
    + intros x Hne Ho. destruct (decide (Exists (λ p, p <= x < p + uq_size q) (rev rqs))) as [He|Hn].
      { apply Exists_exists in He as (p & Hp & Hx). by exists p. }
      exfalso. apply Hne, (Hmq x). intros [Hx|[Hx|(p & Hp & Hx)]]; [by destruct (ce_own _ _ _ _ _ _ Henv x Ho)..|].
      destruct (decide (p ∈ rqs)) as [Hin|Hni]; [|by apply Hne, (pg_other p)].
      apply Hn, Exists_exists. exists p. split; [by apply elem_of_rev|done].
  - intros id. rewrite Eout. apply Hout.
  - intros i rq Hi1. pose proof (lookup_lt_Some _ _ _ Hi1) as Hlt. destruct (pg_done i rq _ Hlt Hi1 (Hids i rq Hi1)) as [H1 H2].
    split; [done|]. destruct (Hrq rq) as (E & _); [by eapply list_elem_of_lookup_2|]. by rewrite E in H2.
Qed.
End pass.

(** ** The dummy module *)

Section dummy.
Context (process : Z → Z → Z → Z → UM bool) (wq : labstor_work_queue_secure) (wcap : Z) (s : server) (ns_id module : Z).

Record dummy_env : Prop := {
  de_wq : wqs_queue_ wq = wqs_header_ wq + sizeof_wq_header;
  de_wq_apart : ∀ a, uwq_bytes wq wcap a → ¬ client_bytes q shc a;
  de_heap : si_heap (sv_ipc s) !! uq_ptr q = Some (uq_handle q);
  de_lookup : ∀ m, Server_GetQueuePair (sv_ipc s) (uq_qid q) m = Ret (uq_ptr q) m;
  de_ns_id : 0 <= ns_id < 2 ^ 32;
  de_module : Namespace_GetModule (sv_namespace s) ns_id = module;
  de_exists : module ≠ 0;
  de_process : process module = Dummy_ProcessRequest fuel;
  de_size : sizeof_dummy_request <= uq_size q;
  de_cap : 0 < uq_cap q
}.
Hypothesis Hde : dummy_env.

Definition dummy_asks (rq : Z) (m : mem) : Prop := request_ns rq m = ns_id ∧ dummy_accepts rq m.

Lemma dummy_start_spec rq m :
  valid m rq (uq_size q) →
  wp (dummy_request_Start ns_id rq) (λ _ m', dummy_asks rq m' ∧ modifies (λ a, rq + 4 <= a < rq + uq_size q) m m') m.
Proof.
  intros Hv. pose proof (de_size Hde) as Hsz. pose proof (de_ns_id Hde) as Hns. change sizeof_dummy_request with 20 in Hsz.
  unfold dummy_request_Start, dummy_asks, dummy_accepts, request_ns. autounfold with layout in *. wp_go. split; [split|].
  - rewrite !read_write_other by (simpl; lia). by rewrite read32_write, u32_small.
  - rewrite read_write_other by (simpl; lia). by rewrite read16_write.
  - apply modifies_then_write; [apply modifies_then_write; [apply modifies_write|..]|..]; try vsolve; simpl; lia.
Qed.

Lemma dummy_asks_local : request_local q dummy_asks.
Proof.
  pose proof (de_size Hde) as Hsz. change sizeof_dummy_request with 20 in Hsz.
  intros rq m m' P Hm HP [H1 H2]. unfold dummy_asks, dummy_accepts, request_ns in *. autounfold with layout in *.
  rewrite !(read_modifies _ _ _ _ _ Hm); [done|..]; simpl; intros a Ha; apply HP; lia.
Qed.

Lemma dummy_batch_env :
  batch_env process wq wcap (λ s', s' = s) (λ ns, if ns =? ns_id then module else 0)
    (λ _, dummy_accepts) (λ _ _ _, True) (λ _, dummy_post).
Proof.
  pose proof Hde as []. pose proof (ce_layout _ _ _ _ _ _ Henv) as Hl. split; [done|done| |by intros s' m ->|done]. split.
  - by intros c' s' m' ->.
  - intros c' s' m' ns ->. destruct (Z.eqb_spec ns ns_id) as [->|]; [done|by intros []].
  - intros ns. destruct (Z.eqb_spec ns ns_id) as [->|]; [|by intros []]. intros _. rewrite de_process0.
    apply dummy_handles; [apply Henv|done|exact de_size0|by intros c' s' m' ->|done|done].
  - by intros a [].
  - done.
  - done.
Qed.

(** C36. The batch of the dummy client: it puts [n] requests on its queue, as
    many as there are free requests and places, before it waits for the first
    one.  One pass of the server's worker answers all of them, every wait
    returns, each of the [n] different requests holds the value 5543, and all
    of them are free again although they are freed with the token of the last
    one; the queue is as idle as before, so that the client can go on. *)
Theorem dummy_batch_served n st k free m :
  idle st → client_rel q shc st (n + k) free [] m →
  vec_rep sizeof_wq_secure_entry rd_secure (wqs_header_ wq) wcap [uq_entry q] m →
  (n <= length free)%nat → Z.of_nat n <= uq_cap q → ids_ok (uq_cap q) (qa_enq st + Z.of_nat n) = true →
  wp (served_batch fuel tid c process wq n ns_id s)
     (λ r m', r = (inl tt, s) ∧ ∃ rqs free' st', length rqs = n ∧ NoDup rqs ∧ (∀ rq, rq ∈ rqs → rq ∈ free) ∧
        (∀ rq, rq ∈ rqs → read 4 (rq + drq_value_) m' = 5543) ∧ free' ≡ₚ free ∧ idle st' ∧
        client_rel q shc st' k free' [] m' ∧
        vec_rep sizeof_wq_secure_entry rd_secure (wqs_header_ wq) wcap [uq_entry q] m') m.
Proof.
  intros Hi Hr Hvec Hn Hcap Hids. pose proof Hi as [Hsq Hout Hcq]. pose proof (de_size Hde) as Hsz. change sizeof_dummy_request with 20 in Hsz.
  assert (∀ m1, modifies (client_bytes q shc) m m1 →
    vec_rep sizeof_wq_secure_entry rd_secure (wqs_header_ wq) wcap [uq_entry q] m1) as Hvecs.
  { intros m1 Hm. eapply (vec_frame sizeof_wq_secure_entry rd_secure); [done|exact Hvec|exact Hm|].
    intros a Ha Hw. by apply (de_wq_apart Hde a Hw). }
  unfold served_batch, Dummy_submit. apply wp_ulift_bind. eapply wp_bind_run; [apply (ce_queue _ _ _ _ _ _ Henv)|]. eapply wp_mono.
  { apply (submit_batch_spec n st (n + k) free [] m _ _ dummy_asks Hr Hn (de_cap Hde)); [| |done|exact dummy_asks_local|exact dummy_start_spec].
    - rewrite Hsq. simpl. lia.
    - rewrite Hout. set_solver. }
  intros toks m1 (-> & M1 & _ & rqs & free1 & Hl & Hperm & Hr1 & HA). rewrite app_nil_r in Hr1. apply wp_ubind. eapply wp_mono.
  { eapply (batch_pass process wq wcap _ _ _ _ _ dummy_batch_env st rqs (n + k) free1 m1 s ns_id Hi Hr1 (Hvecs m1 M1) eq_refl).
    - rewrite Z.eqb_refl. apply Hde.
    - intros rq Hrq. by destruct (HA rq Hrq). }
  intros [r s'] m2 (-> & -> & M2 & st2 & Hr2 & Hsq2 & Henq2 & Hout2 & Hdone). cbn [fst snd].
  assert (modifies (client_bytes q shc) m m2) as M12.
  { eapply modifies_trans; [exact M1|]. eapply modifies_weaken; [exact M2|]. by left. }
  assert (NoDup rqs ∧ ∀ rq, rq ∈ rqs → rq ∈ free) as [Hnd Hsub].
  { split; [|intros rq Hrq; rewrite Hperm; set_solver]. destruct (ga_objects _ _ _ _ _ (cr_alloc _ _ _ _ _ _ _ Hr)) as [Hnd _].
    rewrite app_nil_r, Hperm in Hnd. by apply NoDup_app in Hnd as (? & _). }
  apply wp_ulift. unfold Dummy_collect.
  assert (∀ m3 st3 free3, modifies (client_bytes q shc) m2 m3 → (∀ p x, p ∈ uq_objs q → span p (uq_size q) x → m3 !! x = m2 !! x) →
    free3 ≡ₚ rqs ++ free1 → st3 = collected st2 (qa_enq st) n → client_rel q shc st3 k free3 [] m3 →
    (inl tt : unit + stop, s) = (inl tt, s) ∧ ∃ rqs0 free' st', length rqs0 = n ∧ NoDup rqs0 ∧ (∀ rq, rq ∈ rqs0 → rq ∈ free) ∧
      (∀ rq, rq ∈ rqs0 → read 4 (rq + drq_value_) m3 = 5543) ∧ free' ≡ₚ free ∧ idle st' ∧ client_rel q shc st' k free' [] m3 ∧
      vec_rep sizeof_wq_secure_entry rd_secure (wqs_header_ wq) wcap [uq_entry q] m3) as Hend.
  { intros m3 st3 free3 M3 Hold Hp3 -> Hr3. split; [done|]. exists rqs, free3, (collected st2 (qa_enq st) n).
    do 3 (split; [done|]). split.
    - intros rq Hrq. pose proof Hrq as [i Hrqi]%list_elem_of_lookup_1. destruct (Hdone i rq Hrqi) as [_ Hpost].
      assert (rq ∈ uq_objs q) as Hobj by (apply (cr_objs _ _ _ _ _ _ _ Hr), elem_of_app; left; auto).
      unfold dummy_post in Hpost. rewrite <-Hpost. eapply read_modifies.
      + eapply (modifies_but (span rq (uq_size q))); [exact M3|]. intros x. by apply Hold.
      + unfold drq_value_. simpl. intros x Hx Hn'. apply Hn'. unfold span. lia.
    - split; [by rewrite Hp3, Hperm|]. split; [|split; [done|apply Hvecs; by eapply modifies_trans]].
      destruct (collected_fields st2 (qa_enq st) n) as (E1 & _ & E3).
      assert (qa_out (collected st2 (qa_enq st) n) = ∅) as Eout.
      { apply set_eq. intros x. rewrite E3, Hout2, Hl. split; [lia|set_solver]. }
      split; [by rewrite E1|done|].
      pose proof (qr_dom _ _ _ _ _ _ (ur_qp _ _ _ (cr_q _ _ _ _ _ _ _ Hr3))) as Hdom. rewrite Eout in Hdom.
      apply dom_empty_inv_L. set_solver. }
  destruct (last (tokens (uq_qid q) (qa_enq st) n)) as [ftok|] eqn:Elast.
  - assert (qtok_qid_ ftok = uq_qid q) as Hf.
    { apply last_Some_elem_of in Elast. clear -Elast. revert Elast. generalize (qa_enq st). induction n as [|n IH]; intros e; simpl.
      - by intros ?%elem_of_nil.
      - intros [->|H]%elem_of_cons; [done|by eapply IH]. }
    rewrite <-Hl. eapply wp_mono.
    { apply (collect_batch_spec ftok rqs st2 k free1 (rev rqs) m2 (qa_enq st)); [by rewrite Hl|by rewrite <-Permutation_rev|done|].
      intros i rq Hrqi. by destruct (Hdone i rq Hrqi). }
    intros [] m3 (M3 & Hold & free3 & Hp3 & Hr3). rewrite Hl in *. by eapply (Hend m3 _ free3).
  - apply last_None in Elast. destruct n; [|done]. apply nil_length_inv in Hl as ->. apply wp_ret.
    apply (Hend m2 st2 free1); done.
Qed.
End dummy.
End served_batch.

(** Two requests on the queue of the example of RegistrarClient.v; the module
    with the id 1 is the dummy module. *)
Lemma dummy_batch_served_witness :
  wp ((_ ← ulift rc_client_start; served_batch 1 5 rc_client uw_process rc_wq 2 1) uw_server)
     (λ r m', r = (inl tt, uw_server) ∧ ∃ p q, p ≠ q ∧ read 4 (p + drq_value_) m' = 5543 ∧ read 4 (q + drq_value_) m' = 5543) rc_mem.
Proof.
  apply wp_ulift_bind. eapply wp_mono; [exact rc_client_started|]. intros _ m1 (Hr & Hvec & _). eapply wp_mono.
  { apply (dummy_batch_served 1 5 rc_client rc_queue 700 rc_shc (se_client _ _ _ _ _ _ _ _ _ (ss_served _ _ _ _ _ _ _ _ _ _ _ _ _ _ _ rc_session_env))
      uw_process rc_wq 2 uw_server 1 6000) with (n := 2%nat) (st := qp_spec_init) (k := 2%nat) (free := [8238; 8336; 8434]).
    - split.
      + reflexivity.
      + intros a Ha Hc%rc_client_bytes. unfold uwq_bytes, span in Ha. autounfold with layout in Ha. simpl in Ha. lia.
      + reflexivity.
      + intros m. reflexivity.
      + lia.
      + reflexivity.
      + lia.
      + reflexivity.
      + vm_compute. discriminate.
      + simpl. lia.
    - by split.
    - exact Hr.
    - exact Hvec.
    - simpl. lia.
    - simpl. lia.
    - reflexivity. }
  intros r m' (-> & rqs & free' & st' & Hl & Hnd & _ & Hval & _). split; [done|].
  destruct rqs as [|p [|q [|]]]; try done. exists p, q. apply NoDup_cons in Hnd as [Hni _].
  split; [intros ->; set_solver|]. split; apply Hval; set_solver.
Defined.

(** ** Limits *)

(** The driver is told its device by a request that it does not complete: no
    byte changes, the worker takes the request off the queue, and the client
    waits for ever. *)
Lemma mq_initialize_unanswered fuel tid this qp rq creds s m :
  valid m rq sizeof_mq_register_request → read 2 (rq + rq_op_) m = 0 →
  wp (MQDriver_ProcessRequest fuel tid this qp rq creds s)
     (λ r m', r.1 = inl true ∧ sv_dev_id_ r.2 = <[this := s32 (read 4 (rq + mqreg_dev_id_) m)]> (sv_dev_id_ s) ∧ m' = m) m.
Proof.
  intros Hv Hop. change sizeof_mq_register_request with 84 in Hv. unfold MQDriver_ProcessRequest, MQDriver_Initialize.
  apply wp_ulift_bind, wp_load; [apply (valid_sub _ _ _ _ _ Hv); autounfold with layout; simpl; lia|]. rewrite Hop. cbn [Z.eqb].
  apply wp_ulift_bind. unfold load_s32. apply wp_bind, wp_load; [apply (valid_sub _ _ _ _ _ Hv); unfold mqreg_dev_id_, MODULE_KEY_SIZE; simpl; lia|].
  apply wp_ret, wp_uget, wp_ubind, wp_ret, wp_ret. done.
Qed.

(** The request that does so, and the one for the number of hardware queues,
    leave the operation to what the memory held. *)
Lemma mq_starts_keep_op ns_id dev_id rq m :
  valid m rq sizeof_mq_register_request →
  wp (mq_ConstructModuleStart ns_id dev_id rq) (λ _ m', read 2 (rq + rq_op_) m' = read 2 (rq + rq_op_) m) m ∧
  wp (stats_ClientStart ns_id rq) (λ _ m', read 2 (rq + rq_op_) m' = read 2 (rq + rq_op_) m) m.
Proof.
  intros Hv. change sizeof_mq_register_request with 84 in Hv. unfold mq_ConstructModuleStart, stats_ClientStart, store_s32, mqreg_dev_id_, MODULE_KEY_SIZE.
  autounfold with layout in *. split; wp_go; by rewrite !read_write_other by (simpl; lia).
Qed.

(** The test of the round trip through the kernel frees no request: after
    [Wait] the requests are still held. *)
Lemma wait_all_keeps_requests fuel tid c q cp shc rqs st k free live m id :
  client_env fuel tid c q cp shc → client_rel q shc st k free live m → (∀ rq, rq ∈ rqs → rq ∈ live) →
  (∀ i rq, rqs !! i = Some rq → qa_cq st !! (id + Z.of_nat i) = Some rq) →
  wp (Client_Wait_all fuel c (tokens (uq_qid q) id (length rqs)))
     (λ r m', r = LABSTOR_REQUEST_SUCCESS ∧ ∃ st', client_rel q shc st' k free live m') m.
Proof.
  intros Henv. revert st m id. induction rqs as [|rq rqs IH]; intros st m id Hr Hlive Hcq; cbn [length tokens Client_Wait_all].
  { apply wp_ret. split; [done|]. by exists st. }
  pose proof Hr as []. destruct (ce_lookup _ _ _ _ _ _ Henv) as (ref & Href & Hcp). apply wp_bind.
  unfold Client_Wait, QueuePool_GetQueuePair_qtok. cbn [qtok_qid_ qtok_req_id_]. rewrite Href. apply wp_bind, wp_ret.
  rewrite Hcp, (ce_heap _ _ _ _ _ _ Henv). apply wp_bind, wp_ret. eapply wp_mono.
  { apply (qp_wait_spec (uq_handle q) (uq_qid q) (uq_cap q) (uq_objs q) (ul_qp _ (ce_layout _ _ _ _ _ _ Henv)) fuel st m id rq).
    - apply Henv.
    - apply cr_q.
    - specialize (Hcq 0%nat rq eq_refl). by rewrite Z.add_0_r in Hcq. }
  intros r m1 (_ & Hq & M1). apply (IH (waited st id) m1 (id + 1)).
  - eapply (client_qframe fuel tid c q cp shc Henv); [exact Hr|exact M1| |].
    + intros x Hx Ho. by destruct (ce_own _ _ _ _ _ _ Henv x Ho).
    + split; [done|]. intros p Hp. eapply valid_modifies; [exact M1|]. by apply (ur_valid _ _ _ cr_q).
  - intros p Hp. apply Hlive. set_solver.
  - intros i p Hi. simpl. rewrite lookup_delete_ne by lia. specialize (Hcq (S i) p Hi).
    replace (id + 1 + Z.of_nat i) with (id + Z.of_nat (S i)) by lia. done.
Qed.
