(* ===== verification/BlockFs.v ===== *)
(** * BlockFs.v: block_fs and the no-op scheduler

    labmods/block_fs (client and server), labmods/no_op (client and server),
    and the requests of labmods/generic_posix/generic_posix.h,
    labmods/generic_block/generic_block.h and
    labmods/generic_queue/generic_queue.h that they send.  The modules keep
    their members in a state of their own, which the operations take and
    return. *)

From S2P Require Import Prelude Memory RingBuffer RequestQueue QueuePair WorkQueue QueuePool MpmcRing UnorderedMap ShmemString.
From S2P Require Import Allocators AllocatorSpec Namespace ModuleTable MqDriver IpcManager Kernel KernelWorker UserWorker ServerModules.
From S2P Require Import ServerNamespace ClientCalls Registrar RegistrarClient ModuleClients.

Local Open Scope Z_scope.

(** ** Requests *)

(** [GenericPosix::Ops] and [GenericBlock::Ops]. *)
Definition POSIX_INIT : Z := 0.
Definition POSIX_OPEN : Z := 1.
Definition POSIX_CLOSE : Z := 2.
Definition POSIX_READ : Z := 3.
Definition POSIX_WRITE : Z := 4.
Definition BLOCK_INIT : Z := 0.
Definition BLOCK_READ : Z := 1.
Definition BLOCK_WRITE : Z := 2.

(** [GenericPosix::io_request], 64 bytes. *)
Definition pio_fs_ns_id_ : Z := 16.
Definition pio_fd_ : Z := 20.
Definition pio_buf_ : Z := 24.
Definition pio_off_ : Z := 32.
Definition pio_size_ : Z := 40.
Definition pio_num_qtoks_ : Z := 48.
Definition pio_cur_qtok_ : Z := 52.
Definition pio_qtoks_ : Z := 56.
Definition sizeof_posix_io_request : Z := 64.

(** [GenericBlock::io_request], 40 bytes; [GenericQueue::io_request] goes on
    with two members. *)
Definition bio_off_ : Z := 16.
Definition bio_size_ : Z := 24.
Definition bio_buf_ : Z := 32.
Definition sizeof_block_io_request : Z := 40.
Definition qio_hctx_ : Z := 40.
Definition qio_dev_id_ : Z := 44.
Definition sizeof_queue_io_request : Z := 48.

#[export] Hint Unfold pio_fs_ns_id_ pio_fd_ pio_buf_ pio_off_ pio_size_ pio_num_qtoks_ pio_cur_qtok_ pio_qtoks_ : layout.
#[export] Hint Unfold bio_off_ bio_size_ bio_buf_ qio_hctx_ qio_dev_id_ : layout.

(** [io_request::Start]: the code is not reset. *)
Definition posix_io_Start (ns_id op fd buf off size rq : Z) : M unit :=
  _ ← store32 (rq + rq_ns_id_) (u32 ns_id);
  _ ← store16 (rq + rq_op_) (u16 op);
  _ ← store_s32 (rq + pio_fd_) fd;
  _ ← store64 (rq + pio_buf_) buf;
  _ ← store64 (rq + pio_size_) (u64 size);
  store64 (rq + pio_off_) (u64 off).

Definition posix_io_SetQtoks (rq num_qtoks qtoks : Z) : M unit :=
  _ ← store_s32 (rq + pio_num_qtoks_) num_qtoks;
  _ ← store64 (rq + pio_qtoks_) qtoks;
  store_s32 (rq + pio_cur_qtok_) 0.

(** [GetSize()], an [ssize_t]. *)
Definition posix_io_GetSize (rq : Z) : M Z :=
  n ← load64 (rq + pio_size_); mret (if n <? 2 ^ 63 then n else n - 2 ^ 64).

Definition block_io_Start (rq ns_id op off size buf : Z) : M unit :=
  _ ← store16 (rq + rq_op_) (u16 op);
  _ ← store32 (rq + rq_ns_id_) (u32 ns_id);
  _ ← store32 (rq + rq_code_) 0;
  _ ← store64 (rq + bio_off_) off;
  _ ← store64 (rq + bio_size_) size;
  store64 (rq + bio_buf_) buf.

Definition queue_io_Start (rq ns_id op off size buf hctx : Z) : M unit :=
  _ ← block_io_Start rq ns_id op off size buf; store_s32 (rq + qio_hctx_) hctx.

(** ** The server's own queues *)

(** [GetQueuePair(qp, flags)] of the server's IPC manager: a queue of the
    server, by the id of the thread. *)
Definition Server_GetQueuePairFlags (s : ServerIPC) (tid flags : Z) : M Z := Server_GetQueuePairByPidHash s flags (si_pid_ s) tid.

(** [LABSTOR_QP_PRIVATE | LABSTOR_QP_LOW_LATENCY]. *)
Definition MODULE_IO_FLAGS : Z := Z.lor LABSTOR_QP_PRIVATE 0.

(** The constructor of [labstor::ipc::string] from an id. *)
Fixpoint strnlen_mem (n : nat) (p : Z) : M Z :=
  match n with
  | O => mret 0
  | S n' => c ← load8 p; if c =? 0 then mret 0 else k ← strnlen_mem n' (p + 1); mret (k + 1)
  end.

Definition string_of_id (header p : Z) : M ipc_string := n ← strnlen_mem MODULE_KEY_SIZE p; mret (string_of_chars header p n).

(** ** block_fs_server.cpp *)

(** [BlockFS::register_request::next_]. *)
Definition bfr_next_ : Z := 16.
Definition BFS_SMALL_BLOCK_SIZE : Z := 4096.

Section block_fs_server.
Context (fuel : nat) (tid : Z).

(** The state is [next_module_]; the request is not completed. *)
Definition BlockFS_Initialize (request : Z) (next_module : Z) : UM (bool * Z) :=
  next ← ulift (string_of_id 0 (request + bfr_next_));
  s ← u_get;
  ns_id ← ulift (Namespace_GetNamespaceID (sv_namespace s) next);
  mret (true, ns_id).

Definition BlockFS_Open : UM bool := mret true.
Definition BlockFS_Close : UM bool := mret true.

(** The loop over the tokens from [cur]; [n] are left. *)
Fixpoint blockfs_poll (n : nat) (h : labstor_queue_pair) (client_rq qtoks i : Z) : UM bool :=
  match n with
  | O => mret true
  | S n' =>
      tok ← ulift (load_qtok (qtoks + 12 * i));
      r ← ulift (labstor_queue_pair_IsComplete h (qtok_req_id_ tok));
      match r with
      | None => mret false
      | Some _ =>
          cur ← ulift (load_s32 (client_rq + pio_cur_qtok_));
          _ ← ulift (store_s32 (client_rq + pio_cur_qtok_) (s32 (cur + 1)));
          blockfs_poll n' h client_rq qtoks (i + 1)
      end
  end.

(** [qtoks]: what [new qtok_t[num_blocks]] gives at each call.  A number of
    blocks that is negative as an [int] ends the server with
    [std::bad_array_new_length]. *)
Definition BlockFS_IO (qtoks next_module client_rq : Z) : UM bool :=
  buf ← ulift (load64 (client_rq + pio_buf_));
  total_io ← ulift (load64 (client_rq + pio_size_));
  if s32 (u32 (total_io / BFS_SMALL_BLOCK_SIZE + 1)) <? 0 then ulift fault
  else
    code ← ulift (load32 (client_rq + rq_code_));
    if code =? 0 then
      s ← u_get;
      priv_qp ← ulift (Server_GetQueuePairFlags (sv_ipc s) tid MODULE_IO_FLAGS);
      block_rq ← alloc_request tid priv_qp sizeof_block_io_request;
      op ← ulift (load16 (client_rq + rq_op_));
      off ← ulift (load64 (client_rq + pio_off_));
      size ← ulift (load64 (client_rq + pio_size_));
      _ ← ulift (block_io_Start block_rq next_module op off size buf);
      _ ← enqueue_to fuel priv_qp block_rq (qtoks + 12 * 0);
      _ ← ulift (posix_io_SetQtoks client_rq 0 qtoks);
      _ ← ulift (store32 (client_rq + rq_code_) 1);
      mret false
    else if code =? 1 then
      toks ← ulift (load64 (client_rq + pio_qtoks_));
      tok ← ulift (load_qtok toks);
      s ← u_get;
      priv_qp ← ulift (Server_GetQueuePair (sv_ipc s) (qtok_qid_ tok));
      cur ← ulift (load_s32 (client_rq + pio_cur_qtok_));
      num ← ulift (load_s32 (client_rq + pio_num_qtoks_));
      h ← u_handle priv_qp;
      blockfs_poll (Z.to_nat (num - cur)) h client_rq toks cur
    else mret true.

Definition BlockFS_ProcessRequest (qtoks request : Z) (next_module : Z) : UM (bool * Z) :=
  op ← ulift (load16 (request + rq_op_));
  if op =? POSIX_INIT then BlockFS_Initialize request next_module
  else if op =? POSIX_OPEN then r ← BlockFS_Open; mret (r, next_module)
  else if op =? POSIX_CLOSE then r ← BlockFS_Close; mret (r, next_module)
  else if (op =? POSIX_WRITE) || (op =? POSIX_READ) then r ← BlockFS_IO qtoks next_module request; mret (r, next_module)
  else mret (true, next_module).

(** ** no_op_server.cpp *)

Record NoOpServer := { no_next_module_ : Z; no_num_hw_queues_ : Z; no_queue_depth_ : Z }.

(** [NoOp::register_request::next_], behind the two ids of the request of the
    registrar. *)
Definition nor_next_ : Z := 16 + 2 * Z.of_nat MODULE_KEY_SIZE.

(** The worker waits for the answer of the next module; the function ends
    without a value, which is undefined. *)
Definition NoOp_Initialize (request : Z) (this : NoOpServer) : UM (bool * NoOpServer) :=
  next ← ulift (string_of_id 0 (request + nor_next_));
  s ← u_get;
  next_module ← ulift (Namespace_GetNamespaceID (sv_namespace s) next);
  priv_qp ← ulift (Server_GetNextQueuePair (sv_ipc s) tid SERVER_PRIVATE_FLAGS);
  stats_rq ← alloc_request tid priv_qp sizeof_stats_request;
  _ ← ulift (stats_ClientStart (s32 next_module) stats_rq);
  h ← u_handle priv_qp;
  qtok ← ulift (labstor_queue_pair_Enqueue fuel h stats_rq);
  stats_rq ← ulift (labstor_queue_pair_Wait fuel h (qtok_req_id_ qtok));
  _ ← ulift (load_s32 (stats_rq + qsr_num_hw_queues_));
  _ ← ulift (load_s32 (stats_rq + qsr_queue_depth_));
  _ ← free_request fuel priv_qp stats_rq;
  ulift fault.

(** [GetTid() % num_hw_queues_], a remainder of [int]s; the request that is
    made is not enqueued, and there is no value to return. *)
Definition NoOp_IO (client_rq : Z) (this : NoOpServer) : UM (bool * NoOpServer) :=
  if no_num_hw_queues_ this =? 0 then ulift fault
  else
    let hctx := Z.rem tid (no_num_hw_queues_ this) in
    s ← u_get;
    priv_qp ← ulift (Server_GetNextQueuePair (sv_ipc s) tid MODULE_IO_FLAGS);
    rq ← alloc_request tid priv_qp sizeof_queue_io_request;
    op ← ulift (load16 (client_rq + rq_op_));
    off ← ulift (load64 (client_rq + bio_off_));
    size ← ulift (load64 (client_rq + bio_size_));
    buf ← ulift (load64 (client_rq + bio_buf_));
    _ ← ulift (queue_io_Start rq (no_next_module_ this) op off size buf hctx);
    ulift fault.

Definition NoOp_ProcessRequest (request : Z) (this : NoOpServer) : UM (bool * NoOpServer) :=
  op ← ulift (load16 (request + rq_op_));
  if op =? BLOCK_INIT then NoOp_Initialize request this
  else if (op =? BLOCK_WRITE) || (op =? BLOCK_READ) then NoOp_IO request this
  else ulift fault.
End block_fs_server.

(** ** block_fs_client.cpp *)

(** [fd_to_file_]: the offsets of the open files, [int]s. *)
Definition BlockFSClient := gmap Z Z.

Definition BlockFS_Client_Open (fd : Z) (files : BlockFSClient) : BlockFSClient * Z :=
  (match files !! fd with Some _ => files | None => <[fd := 0]> files end, fd).

Definition BlockFS_Client_Close (fd : Z) (files : BlockFSClient) : BlockFSClient * Z := (delete fd files, 0).

(** [AIO(op, fd, buf, off, size)]. *)
Definition BlockFS_AIO_at (fuel : nat) (tid : Z) (c : ClientIPC) (ns_id op fd buf off size : Z) : M labstor_qtok_t :=
  submit_request fuel tid c sizeof_posix_io_request (posix_io_Start ns_id op fd buf off size).

(** [AIO(op, fd, buf, size)]: at the offset of the file, which moves on.
    [fd_to_file_[fd]] makes a file for a descriptor that is not open. *)
Definition BlockFS_AIO (fuel : nat) (tid : Z) (c : ClientIPC) (ns_id op fd buf size : Z) (files : BlockFSClient)
    : M (labstor_qtok_t * BlockFSClient) :=
  let off := default 0 (files !! fd) in
  qtok ← BlockFS_AIO_at fuel tid c ns_id op fd buf (u64 off) size;
  mret (qtok, <[fd := s32 (u32 (off + size))]> files).

(** [IO(op, fd, buf, off, size)]: [off] is not used. *)
Definition BlockFS_IO_at (fuel : nat) (tid : Z) (c : ClientIPC) (ns_id op fd buf off size : Z) (files : BlockFSClient)
    : M (Z * BlockFSClient) :=
  '(qtok, files) ← BlockFS_AIO fuel tid c ns_id op fd buf size files;
  client_rq ← Client_Wait fuel c qtok;
  ret ← posix_io_GetSize client_rq;
  _ ← Client_FreeRequest fuel c qtok client_rq;
  mret (ret, files).

Definition BlockFS_Client_IO (fuel : nat) (tid : Z) (c : ClientIPC) (ns_id op fd buf size : Z) (files : BlockFSClient)
    : M (Z * BlockFSClient) :=
  let off := default 0 (files !! fd) in
  '(ret, files) ← BlockFS_IO_at fuel tid c ns_id op fd buf (u64 off) size (<[fd := off]> files);
  mret (ret, <[fd := s32 (u32 (default 0 (files !! fd) + ret))]> files).

(** [ConstructModuleStart] of the three [register_request]s: the operation
    goes into [code_]. *)
Definition next_ConstructModuleStart (next_off ns_id : Z) (next_module : list Z) (rq : Z) : M unit :=
  _ ← store32 (rq + rq_ns_id_) ns_id;
  _ ← store32 (rq + rq_code_) 0;
  store_cstr (rq + next_off) next_module.

Definition sizeof_bfs_register_request : Z := 16 + Z.of_nat MODULE_KEY_SIZE.
Definition sizeof_noop_register_request : Z := 16 + 3 * Z.of_nat MODULE_KEY_SIZE.

Definition BlockFS_InitializeInstance (ns_id : Z) (next_module : list Z) : client_call Z := {|
  cc_size := sizeof_bfs_register_request;
  cc_start := next_ConstructModuleStart bfr_next_ ns_id next_module;
  cc_finish := λ rq, load32 (rq + rq_ns_id_)
|}.

Definition NoOp_InitializeInstance (ns_id : Z) (next_module : list Z) : client_call Z := {|
  cc_size := sizeof_noop_register_request;
  cc_start := next_ConstructModuleStart nor_next_ ns_id next_module;
  cc_finish := λ rq, load32 (rq + rq_ns_id_)
|}.

(** [NoOp::Client::AIO] sends nothing. *)
Definition NoOp_AIO (buf size off op : Z) : labstor_qtok_t :=
  {| qtok_qid_ := {| qid_flags_ := 0; qid_type_ := 0; qid_cnt_ := 0; qid_pid_ := 0 |}; qtok_req_id_ := 0 |}.

(** ** Limits *)

(** The server has private queues with the flags [SERVER_PRIVATE_FLAGS] only.
    With the flags that block_fs asks for there is none, and the number of the
    queue is a remainder of a division by 0. *)
Definition register_all (refs : list queue_pair_ref) (p : QueuePool) : option QueuePool :=
  foldl (λ op r, p ← op; QueuePool_RegisterQueuePair p r) (Some p) refs.

Definition server_private (r : queue_pair_ref) : Prop :=
  qid_type_ (qpr_qid r) = 0 ∧ qid_flags_ (qpr_qid r) = SERVER_PRIVATE_FLAGS.

Lemma pool_list_fast p : pool_list p 0 MODULE_IO_FLAGS = Some [] → QueuePool_GetNumQueuePairsFast p 0 MODULE_IO_FLAGS = Some 0.
Proof.
  unfold pool_list, QueuePool_GetNumQueuePairsFast. change MODULE_IO_FLAGS with 1.
  destruct (checked_at (qps_ p) 0) as [qt|] eqn:E1; [|done]. simpl. intros E2.
  apply checked_at_some in E1; [|lia]. apply checked_at_some in E2; [|lia]. simpl in *. rewrite E1. simpl. rewrite E2. done.
Qed.

Lemma no_module_queues refs p :
  Forall server_private refs → register_all refs QueuePool_new = Some p → QueuePool_GetNumQueuePairsFast p 0 MODULE_IO_FLAGS = Some 0.
Proof.
  intros Hrefs Hp. apply pool_list_fast. revert p Hp. induction refs as [|r refs IH] using rev_ind; intros p Hp.
  { injection Hp as <-. reflexivity. }
  unfold register_all in Hp. rewrite foldl_app in Hp. simpl in Hp.
  apply Forall_app in Hrefs as [Hrefs Hr]. inversion Hr as [|? ? [Ht Hf] _]; subst.
  destruct (foldl _ _ refs) as [p0|] eqn:E; [|done]. simpl in Hp. specialize (IH Hrefs p0 E).
  assert (qid_ok (qpr_qid r)) as Hok by (split; [rewrite Ht|rewrite Hf; change SERVER_PRIVATE_FLAGS with 17]; lia).
  pose proof (register_pool_list p0 r 0 MODULE_IO_FLAGS Hok ltac:(lia) ltac:(vm_compute; split; [discriminate|reflexivity])) as H.
  rewrite Hp in H. destruct H as [_ ->]. unfold same_list. rewrite Hf. rewrite andb_false_r. exact IH.
Qed.

(** So every read or write faults before anything is sent. *)
Lemma blockfs_io_faults fuel tid qtoks next request s a ipc m :
  si_pid_to_ipc_ (sv_ipc s) !! si_pid_ (sv_ipc s) = Some a → si_ipcs (sv_ipc s) !! a = Some ipc →
  QueuePool_GetNumQueuePairsFast (ipc_pool ipc) 0 MODULE_IO_FLAGS = Some 0 → 0 <= si_pid_ (sv_ipc s) < 2 ^ 31 →
  valid m request sizeof_posix_io_request → read 4 (request + rq_code_) m = 0 →
  BlockFS_IO fuel tid qtoks next request s m = Fault.
Proof.
  intros Ha Hipc Hn Hpid Hv Hcode. change sizeof_posix_io_request with 64 in Hv. unfold BlockFS_IO.
  assert (∀ o, 16 <= o → o + 8 <= 64 → load64 (request + o) m = Ret (read 8 (request + o) m) m) as Hl.
  { intros o Ho1 Ho2. apply wp_exact, wp_load; [apply (valid_sub _ _ _ _ _ Hv); simpl; lia|done]. }
  assert (load32 (request + rq_code_) m = Ret 0 m) as Hc.
  { rewrite <-Hcode. apply wp_exact, wp_load; [apply (valid_sub _ _ _ _ _ Hv); autounfold with layout; simpl; lia|done]. }
  rewrite (ulift_run _ _ _ _ _ _ (Hl pio_buf_ ltac:(autounfold with layout; lia) ltac:(autounfold with layout; lia))).
  rewrite (ulift_run _ _ _ _ _ _ (Hl pio_size_ ltac:(autounfold with layout; lia) ltac:(autounfold with layout; lia))).
  destruct (_ <? 0); [done|]. rewrite (ulift_run _ _ _ _ _ _ Hc). cbn [Z.eqb].
  assert (Server_GetQueuePairFlags (sv_ipc s) tid MODULE_IO_FLAGS m = Fault) as E.
  { unfold Server_GetQueuePairFlags, Server_GetQueuePairByPidHash, ipc_of_pid. unfold mbind, M_bind.
    rewrite ?(u32_small (si_pid_ (sv_ipc s))) by lia. rewrite Ha. simpl. rewrite Hipc. simpl. by rewrite Hn. }
  unfold u_get, mbind, UM_bind, ulift, mret, UM_ret, mbind, M_bind, mret, M_ret. simpl. by rewrite E.
Qed.

(** The second visit: no token was counted, so the request is taken for done,
    and it is not completed. *)
Lemma blockfs_io_unanswered fuel tid qtoks next request s m toks tok p h :
  valid m request sizeof_posix_io_request → read 4 (request + rq_code_) m = 1 → 0 <= read 8 (request + pio_size_) m < 2 ^ 32 →
  read 8 (request + pio_qtoks_) m = toks → load_qtok toks m = Ret tok m → Server_GetQueuePair (sv_ipc s) (qtok_qid_ tok) m = Ret p m →
  si_heap (sv_ipc s) !! p = Some h → read 4 (request + pio_num_qtoks_) m = 0 → read 4 (request + pio_cur_qtok_) m = 0 →
  wp (BlockFS_IO fuel tid qtoks next request s) (λ r m', r = (inl true, s) ∧ m' = m) m.
Proof.
  intros Hv Hcode Hsize Htoks Htok Hqp Hh Hnum Hcur. change sizeof_posix_io_request with 64 in Hv. unfold BlockFS_IO.
  assert (∀ n o, 0 <= o → o + Z.of_nat n <= 64 → valid m (request + o) (Z.of_nat n)) as Hvs.
  { intros n o H1 H2. apply (valid_sub _ _ _ _ _ Hv); lia. }
  apply wp_ulift_bind, wp_load; [apply (Hvs 8%nat); autounfold with layout; simpl; lia|].
  apply wp_ulift_bind, wp_load; [apply (Hvs 8%nat); autounfold with layout; simpl; lia|].
  assert ((s32 (u32 (read 8 (request + pio_size_) m / BFS_SMALL_BLOCK_SIZE + 1)) <? 0) = false) as ->.
  { apply Z.ltb_ge. unfold BFS_SMALL_BLOCK_SIZE. assert (0 <= read 8 (request + pio_size_) m / 4096 < 2 ^ 20) by mod_lia.
    rewrite u32_small, s32_small by lia. lia. }
  apply wp_ulift_bind, wp_load; [apply (Hvs 4%nat); autounfold with layout; simpl; lia|]. rewrite Hcode. cbn [Z.eqb Pos.eqb].
  apply wp_ulift_bind, wp_load; [apply (Hvs 8%nat); autounfold with layout; simpl; lia|]. rewrite Htoks.
  apply wp_ulift_bind, wp_run. eexists _, _. split; [exact Htok|]. apply wp_uget, wp_ulift_bind, wp_run. eexists _, _. split; [exact Hqp|].
  unfold load_s32.
  apply wp_ulift_bind, wp_bind, wp_load; [apply (Hvs 4%nat); autounfold with layout; simpl; lia|]. apply wp_ret. rewrite Hcur.
  apply wp_ulift_bind, wp_bind, wp_load; [apply (Hvs 4%nat); autounfold with layout; simpl; lia|]. apply wp_ret. rewrite Hnum.
  apply (wp_handle _ _ _ _ _ _ Hh). by apply wp_ret.
Qed.

Lemma bind_Ret {A B} (c : M A) (f : A → M B) m b m' :
  (c ≫= f) m = Ret b m' → ∃ a m1, c m = Ret a m1 ∧ f a m1 = Ret b m'.
Proof. unfold mbind, M_bind. destruct (c m) as [a m1| | |] eqn:E; try done. intros H. by exists a, m1. Qed.

(** An I/O moves the offset of the file twice. *)
Lemma blockfs_offset_twice fuel tid c ns_id op fd buf size files m ret files' m' :
  BlockFS_Client_IO fuel tid c ns_id op fd buf size files m = Ret (ret, files') m' →
  files' !! fd = Some (s32 (u32 (s32 (u32 (default 0 (files !! fd) + size)) + ret))).
Proof.
  unfold BlockFS_Client_IO. intros H. apply bind_Ret in H as ([ret1 files1] & m1 & H1 & H2). injection H2 as <- <- _.
  unfold BlockFS_IO_at in H1. apply bind_Ret in H1 as ([qtok files2] & m2 & H1 & H3). unfold BlockFS_AIO in H1.
  apply bind_Ret in H1 as (qt & m3 & _ & H1). injection H1 as <- <- _.
  apply bind_Ret in H3 as (rq & m4 & _ & H3). apply bind_Ret in H3 as (r & m5 & _ & H3). apply bind_Ret in H3 as (u & m6 & _ & H3).
  injection H3 as <- <- _. unfold BlockFSClient in *. by rewrite !lookup_insert_eq.
Qed.

(** The operations of the POSIX interface are passed on to the block device as
    they are, where they mean nothing. *)
Lemma noop_rejects_posix_ops fuel tid request this s m op :
  valid m (request + rq_op_) 2 → read 2 (request + rq_op_) m = op → op = POSIX_READ ∨ op = POSIX_WRITE →
  NoOp_ProcessRequest fuel tid request this s m = Fault.
Proof.
  intros Hv Hop Hor. unfold NoOp_ProcessRequest.
  assert (load16 (request + rq_op_) m = Ret op m) as E by (rewrite <-Hop; by apply wp_exact, wp_load).
  rewrite (ulift_run _ _ _ _ _ _ E). by destruct Hor as [-> | ->].
Qed.
