(* ===== verification/FsLog.v ===== *)
(** * FsLog.v: the operation log of LabFS

    labmods/labstor_fs/lib/labstor_fs_log.h: one log per core, with the blocks
    of its part of the disk (BlockAllocator.v) and its part of the numbers for
    files, and the commit message that collects what the cores have logged. *)

From S2P Require Import Prelude Memory RingBuffer MpmcRing ShmemString BlockAllocator.

Local Open Scope Z_scope.

(** ** Layouts *)

(** [LogEntry]: [bool finalized_; int size_]. *)
Definition le_finalized_ : Z := 0.
Definition le_size_ : Z := 4.
Definition sizeof_LogEntry : Z := 8.

(** [LogCommit]; the blocks follow. *)
Definition lc_log_size_ : Z := 16.
Definition lc_num_blocks_ : Z := 24.
Definition lc_next_ : Z := 32.
Definition lc_blocks_ : Z := 48.
Definition sizeof_LogCommit : Z := 48.

#[export] Hint Unfold le_finalized_ le_size_ lc_log_size_ lc_num_blocks_ lc_next_ lc_blocks_ : layout.

Definition LogCommit_GetSize (num_blocks log_size : Z) : Z :=
  s32 (u32 (sizeof_LogCommit + num_blocks * Z.of_nat sizeof_Block + log_size)).

Definition LogCommit_GetLogOff (c : Z) : M Z :=
  num_blocks ← load_s32 (c + lc_num_blocks_);
  mret (c + (sizeof_LogCommit + num_blocks * Z.of_nat sizeof_Block)).

(** ** CoreLog *)

Record CoreLog := {
  cl_head_ : Z;
  cl_tail_ : Z;
  cl_reserve_off_ : Z;
  cl_commit_off_ : Z;
  cl_alloc_ : BlockAllocator;
  cl_uuid_min_ : Z
}.

(** The blocks are put at [tail_], the end of the region. *)
Definition CoreLog_new (uuid_min log_size disk_off disk_size num_small_blocks region region_size : Z) : M CoreLog :=
  let tail := region + region_size in
  alloc ← BlockAllocator_Initialize disk_off disk_size num_small_blocks tail (u64 (region_size - log_size));
  mret {| cl_head_ := region; cl_tail_ := tail; cl_reserve_off_ := region; cl_commit_off_ := region;
          cl_alloc_ := alloc; cl_uuid_min_ := uuid_min |}.

Definition with_reserve (c : CoreLog) (off : Z) : CoreLog :=
  {| cl_head_ := cl_head_ c; cl_tail_ := cl_tail_ c; cl_reserve_off_ := off; cl_commit_off_ := cl_commit_off_ c;
     cl_alloc_ := cl_alloc_ c; cl_uuid_min_ := cl_uuid_min_ c |}.
Definition with_uuid (c : CoreLog) (uuid : Z) : CoreLog :=
  {| cl_head_ := cl_head_ c; cl_tail_ := cl_tail_ c; cl_reserve_off_ := cl_reserve_off_ c; cl_commit_off_ := cl_commit_off_ c;
     cl_alloc_ := cl_alloc_ c; cl_uuid_min_ := uuid |}.

(** [ReserveLogEntry<T>]; [size] is [sizeof(T)].  An entry is put one
    [LogEntry] behind the end of the last one. *)
Definition CoreLog_ReserveLogEntry (size : Z) (c : CoreLog) : M (CoreLog * Z) :=
  let entry := cl_reserve_off_ c + sizeof_LogEntry in
  _ ← store_s32 (entry + le_size_) (s32 (u32 size));
  _ ← store8 (entry + le_finalized_) 0;
  mret (with_reserve c (entry + size), entry).

Definition CoreLog_GetBlock (c : CoreLog) (size : Z) (block : Block) : M Block := BlockAllocator_GetBlock (cl_alloc_ c) size block.
Definition CoreLog_FreeBlock (c : CoreLog) (block : Block) : M unit := BlockAllocator_FreeBlock (cl_alloc_ c) block.

Definition CoreLog_GetUUID (c : CoreLog) : CoreLog * Z := (with_uuid c (u64 (cl_uuid_min_ c + 1)), cl_uuid_min_ c).

Definition CoreLog_GetUncommittedSize (c : CoreLog) : Z := u64 (cl_reserve_off_ c - cl_commit_off_ c).
Definition CoreLog_GetUncommittedOff (c : CoreLog) : Z := cl_commit_off_ c.

(** ** Log *)

Record Log := { lg_per_core_log_ : list CoreLog; lg_next_log_block_ : Block }.

(** What each core gets. *)
Definition uuid_diff (concurrency : Z) : Z := (2 ^ 64 - 1) / concurrency.
Definition per_core_log_size (log_size concurrency : Z) : Z := log_size / concurrency.
Definition per_core_disk_size (disk_size concurrency : Z) : Z := u64 (disk_size - SMALL_BLOCK_SIZE) / concurrency.
Definition per_core_num_blocks (num_small_blocks concurrency : Z) : Z := num_small_blocks / concurrency.
Definition per_core_region_size (log_size disk_size num_small_blocks concurrency : Z) : Z :=
  u64 (per_core_log_size log_size concurrency +
       BlockAllocator_GetSize (per_core_disk_size disk_size concurrency) (per_core_num_blocks num_small_blocks concurrency)).

(** The loop over the cores: [n] are left.  [region] is the same for all. *)
Fixpoint core_logs (n : nat) (log_size disk_size num_blocks region region_size uuid_step disk_off cur_uuid : Z) : M (list CoreLog) :=
  match n with
  | O => mret []
  | S n' =>
      c ← CoreLog_new cur_uuid log_size disk_off disk_size num_blocks region region_size;
      l ← core_logs n' log_size disk_size num_blocks region region_size uuid_step (u64 (disk_off + disk_size)) (u64 (cur_uuid + uuid_step));
      mret (c :: l)
  end.

(** [concurrency] is positive; [region] is what [malloc] gives. *)
Definition Log_Initialize (log_size disk_size num_small_blocks concurrency region : Z) : M Log :=
  _ ← udiv 1 concurrency;
  l ← core_logs (Z.to_nat concurrency) (per_core_log_size log_size concurrency) (per_core_disk_size disk_size concurrency)
        (per_core_num_blocks num_small_blocks concurrency) region
        (per_core_region_size log_size disk_size num_small_blocks concurrency) (uuid_diff concurrency) SMALL_BLOCK_SIZE 1;
  mret {| lg_per_core_log_ := l; lg_next_log_block_ := {| bk_off_ := 0; bk_size_ := SMALL_BLOCK_SIZE |} |}.

Definition Log_SetLogBlock (g : Log) (block : Block) : Log := {| lg_per_core_log_ := lg_per_core_log_ g; lg_next_log_block_ := block |}.
Definition Log_GetLogBlock (g : Log) : Block := lg_next_log_block_ g.

(** [per_core_log_[GetTid()]], without a test. *)
Definition Log_GetCoreLog (g : Log) (tid : Z) : M CoreLog :=
  if tid <? 0 then fault else match lg_per_core_log_ g !! Z.to_nat tid with Some c => mret c | None => fault end.

(** [GetCoreLog().GetUUID()]. *)
Definition Log_GetUUID (g : Log) (tid : Z) : M (Log * Z) :=
  c ← Log_GetCoreLog g tid;
  let '(c', uuid) := CoreLog_GetUUID c in
  mret ({| lg_per_core_log_ := <[Z.to_nat tid := c']> (lg_per_core_log_ g); lg_next_log_block_ := lg_next_log_block_ g |}, uuid).

(** [GetLogUpdates].  The blocks for [disk_size] bytes; [uninit] is what an
    uninitialised [Block] holds.  A round takes at least one byte off, so that
    [disk_size] rounds are enough. *)
Fixpoint update_blocks (n : nat) (c : CoreLog) (uninit : Block) (disk_size : Z) : M (list Block) :=
  match n with
  | O => mret []
  | S n' =>
      if disk_size >? 0 then
        let size := if disk_size >? LARGE_BLOCK_SIZE then LARGE_BLOCK_SIZE else SMALL_BLOCK_SIZE in
        block ← CoreLog_GetBlock c size uninit;
        l ← update_blocks n' c uninit (disk_size - size);
        mret (block :: l)
      else mret []
  end.

(** The blocks are counted, not stored. *)
Fixpoint count_blocks (update : Z) (blocks : list Block) : M unit :=
  match blocks with
  | [] => mret tt
  | _ :: l =>
      n ← load_s32 (update + lc_num_blocks_);
      _ ← store_s32 (update + lc_num_blocks_) (s32 (u32 (n + 1)));
      count_blocks update l
  end.

(** Every log is copied to the same place. *)
Fixpoint copy_logs (update log_off : Z) (cores : list CoreLog) : M unit :=
  match cores with
  | [] => mret tt
  | c :: l =>
      let uncommitted_size := CoreLog_GetUncommittedSize c in
      bytes ← load_bytes (CoreLog_GetUncommittedOff c) (Z.to_nat uncommitted_size);
      _ ← store_bytes log_off bytes;
      n ← load64 (update + lc_log_size_);
      _ ← store64 (update + lc_log_size_) (u64 (n + uncommitted_size));
      copy_logs update log_off l
  end.

(** [update]: what [malloc] gives for the message. *)
Definition Log_GetLogUpdates (g : Log) (tid : Z) (uninit : Block) (update : Z) : M Log :=
  let log_size := foldl (λ n c, u64 (n + CoreLog_GetUncommittedSize c)) 0 (lg_per_core_log_ g) in
  let disk_size := s32 (u32 (s32 (u32 log_size) - bk_size_ (lg_next_log_block_ g))) in
  core_log ← Log_GetCoreLog g tid;
  l ← update_blocks (Z.to_nat disk_size) core_log uninit disk_size;
  let blocks := lg_next_log_block_ g :: l in
  next ← CoreLog_GetBlock core_log SMALL_BLOCK_SIZE (lg_next_log_block_ g);
  _ ← store_s32 (update + lc_num_blocks_) 0;
  _ ← store64 (update + lc_log_size_) 0;
  _ ← store64 (update + lc_next_) (bk_off_ next);
  _ ← store_s32 (update + lc_next_ + 8) (bk_size_ next);
  _ ← count_blocks update blocks;
  log_off ← LogCommit_GetLogOff update;
  _ ← copy_logs update log_off (lg_per_core_log_ g);
  mret (Log_SetLogBlock g next).

(** ** The numbers of files *)

Fixpoint get_uuids (g : Log) (tids : list Z) : M (Log * list Z) :=
  match tids with
  | [] => mret (g, [])
  | tid :: tids' =>
      '(g, uuid) ← Log_GetUUID g tid;
      '(g, l) ← get_uuids g tids';
      mret (g, uuid :: l)
  end.

(** How often a core asks. *)
Definition asked (tid : Z) (tids : list Z) : Z := Z.of_nat (length (filter (λ t, t = tid) tids)).

(** The cores give out [d] numbers each, and core [i] has given out [cnt i]. *)
Definition uuids_at (d concurrency : Z) (cnt : Z → Z) (cores : list CoreLog) : Prop :=
  Z.of_nat (length cores) = concurrency ∧
  ∀ i c, cores !! i = Some c → cl_uuid_min_ c = u64 (1 + Z.of_nat i * d + cnt (Z.of_nat i)).

Lemma asked_cons t tid tids : asked t (tid :: tids) = (if decide (tid = t) then 1 else 0) + asked t tids.
Proof. unfold asked. rewrite filter_cons. destruct (decide (tid = t)); simpl; lia. Qed.

Lemma asked_nonneg t tids : 0 <= asked t tids.
Proof. unfold asked. lia. Qed.

Definition bump (cnt : Z → Z) (tid t : Z) : Z := if decide (t = tid) then cnt t + 1 else cnt t.

(** A number of core [t], the [c]th it gives out. *)
Definition core_uuid (d t c : Z) : Z := 1 + t * d + c.

Lemma core_uuid_inj d t t' c c' :
  0 <= c < d → 0 <= c' < d → core_uuid d t c = core_uuid d t' c' → t = t' ∧ c = c'.
Proof. unfold core_uuid. intros. assert (t = t') as -> by nia. split; lia. Qed.

Lemma get_uuids_spec d concurrency tids cnt g m :
  0 < concurrency → concurrency * d < 2 ^ 64 → uuids_at d concurrency cnt (lg_per_core_log_ g) →
  Forall (λ t, 0 <= t < concurrency) tids → (∀ t, 0 <= t < concurrency → 0 <= cnt t ∧ cnt t + asked t tids <= d) →
  ∃ g' ids, get_uuids g tids m = Ret (g', ids) m ∧
    Forall2 (λ t id, ∃ c, id = core_uuid d t c ∧ cnt t <= c < d) tids ids ∧ NoDup ids.
Proof.
  intros Hc Hd. revert cnt g. induction tids as [|tid tids IH]; intros cnt g [Hlen Hu] Ht Hcnt.
  { exists g, []. split; [done|]. split; constructor. }
  inversion Ht as [|? ? Htid Htids]; subst. destruct (Hcnt tid Htid) as [Hc0 Hc1]. rewrite asked_cons, decide_True in Hc1 by done.
  pose proof (asked_nonneg tid tids) as Hnn.
  destruct (lookup_lt_is_Some_2 (lg_per_core_log_ g) (Z.to_nat tid)) as [c Hcore]; [lia|].
  pose proof (Hu _ _ Hcore) as Hmin. rewrite Z2Nat.id in Hmin by lia.
  assert (1 + tid * d + cnt tid < 2 ^ 64) as Hlt by nia. rewrite u64_small in Hmin by nia.
  cbn [get_uuids]. unfold Log_GetUUID, Log_GetCoreLog. rewrite (proj2 (Z.ltb_ge _ _)) by lia. rewrite Hcore.
  set (c' := with_uuid c (u64 (cl_uuid_min_ c + 1))).
  set (g1 := {| lg_per_core_log_ := <[Z.to_nat tid := c']> (lg_per_core_log_ g); lg_next_log_block_ := lg_next_log_block_ g |}).
  destruct (IH (bump cnt tid) g1) as (g' & ids & Hrun & Hids & Hnd).
  - split; [simpl; by rewrite length_insert|]. simpl. intros i x Hi.
    destruct (decide (i = Z.to_nat tid)) as [->|Hne].
    + rewrite list_lookup_insert_eq in Hi by (by eapply lookup_lt_Some). injection Hi as <-. unfold c', bump. simpl.
      rewrite Z2Nat.id, decide_True, Hmin by lia. f_equal. lia.
    + rewrite list_lookup_insert_ne in Hi by done. rewrite (Hu i x Hi). unfold bump. rewrite decide_False by lia. done.
  - done.
  - intros t Htr. destruct (Hcnt t Htr) as [H1 H2]. rewrite asked_cons in H2. unfold bump.
    pose proof (asked_nonneg t tids). destruct (decide (tid = t)) as [->|Hne]; [rewrite decide_True by done|rewrite decide_False by done]; lia.
  - exists g', (cl_uuid_min_ c :: ids). split.
    { unfold mbind, M_bind, mret, M_ret. simpl. fold c'. fold g1. unfold mbind, M_bind, mret, M_ret in Hrun. by rewrite Hrun. }
    assert (∀ t id, (∃ c0, id = core_uuid d t c0 ∧ bump cnt tid t <= c0 < d) → ∃ c0, id = core_uuid d t c0 ∧ cnt t <= c0 < d) as Hmono.
    { intros t id (c0 & -> & Hr). exists c0. split; [done|]. unfold bump in Hr. destruct (decide (t = tid)); lia. }
    split; [constructor; [exists (cnt tid); unfold core_uuid; split; [done|lia]|]|].
    + eapply Forall2_impl; [exact Hids|done].
    + constructor; [|done]. intros [j Hj]%list_elem_of_lookup_1.
      destruct (Forall2_lookup_r _ _ _ _ _ Hids Hj) as (t & Hjt & c0 & Heq & Hr).
      pose proof (proj1 (Forall_lookup _ _) Htids j t Hjt) as Htr. destruct (Hcnt t Htr) as [Hn0 _].
      assert (0 <= c0) by (unfold bump in Hr; destruct (decide (t = tid)); lia). rewrite Hmin in Heq.
      change (1 + tid * d + cnt tid) with (core_uuid d tid (cnt tid)) in Heq.
      destruct (core_uuid_inj d tid t (cnt tid) c0 ltac:(lia) ltac:(lia) Heq) as [<- <-]. unfold bump in Hr. rewrite decide_True in Hr by done. lia.
Qed.

(** ** Initialize *)

(** What the regions of the cores need: the blocks of each core fit behind the
    end of the region that all of them share. *)
Section initialize.
Context (log_size disk_size num_small concurrency region : Z).
#[local] Abbreviation d := (uuid_diff concurrency).
#[local] Abbreviation pl := (per_core_log_size log_size concurrency).
#[local] Abbreviation pd := (per_core_disk_size disk_size concurrency).
#[local] Abbreviation pn := (per_core_num_blocks num_small concurrency).
#[local] Abbreviation pr := (per_core_region_size log_size disk_size num_small concurrency).

Record log_args (m : mem) : Prop := {
  la_concurrency : 0 < concurrency < 2 ^ 31;
  la_log : 0 <= pl <= pr;
  la_core : ∀ i, 0 <= i < concurrency → ba_args (SMALL_BLOCK_SIZE + i * pd) pd pn (region + pr) (pr - pl);
  la_disk : 0 <= pd ∧ SMALL_BLOCK_SIZE + concurrency * pd < 2 ^ 64;
  la_counters : counters_limit pn 0 ∧ counters_limit (GetNumLargeBlocks pd pn) 0;
  la_valid : valid m (region + pr) (pr - pl)
}.

(** The log of core [i]. *)
Definition core_log_at (i : Z) : CoreLog :=
  {| cl_head_ := region; cl_tail_ := region + pr; cl_reserve_off_ := region; cl_commit_off_ := region;
     cl_alloc_ := ba_handle (ba_shape_of pd pn (region + pr)); cl_uuid_min_ := u64 (1 + i * d) |}.

Lemma core_logs_spec n i m :
  log_args m → 0 <= i → i + Z.of_nat n <= concurrency →
  wp (core_logs n pl pd pn region pr d (SMALL_BLOCK_SIZE + i * pd) (u64 (1 + i * d)))
     (λ l m', l = core_log_at <$> seqZ i (Z.of_nat n) ∧ modifies (span (region + pr) (pr - pl)) m m' ∧ (n = O → m' = m) ∧
        (0 < Z.of_nat n → ba_rep (ba_shape_of pd pn (region + pr)) 0
           (small_blocks_of (SMALL_BLOCK_SIZE + (i + Z.of_nat n - 1) * pd) pn)
           (large_blocks_of (SMALL_BLOCK_SIZE + (i + Z.of_nat n - 1) * pd) pd pn) m')) m.
Proof.
  revert i m. induction n as [|n IH]; intros i m Ha Hi Hn; cbn [core_logs].
  { apply wp_ret. split; [done|]. split; [apply modifies_refl|]. split; [done|]. intros; lia. }
  pose proof Ha as []. destruct la_counters0 as [Hc1 Hc2]. pose proof (la_core0 i ltac:(lia)) as Hargs. pose proof (bg_region _ _ _ _ _ Hargs) as Hr.
  apply wp_bind. unfold CoreLog_new. apply wp_bind. rewrite (u64_small (pr - pl)) by lia. eapply wp_mono.
  { apply (ba_initialize_spec _ _ _ _ _ 0 m Hargs la_valid0 Hc1 Hc2). }
  intros a m1 (-> & Hrep & M1). apply wp_ret. apply wp_bind.
  assert (log_args m1) as Ha1 by (split; try done; by eapply valid_modifies).
  destruct la_disk0 as [Hd0 Hd1].
  replace (u64 (SMALL_BLOCK_SIZE + i * pd + pd)) with (SMALL_BLOCK_SIZE + (i + 1) * pd)
    by (rewrite u64_small; change SMALL_BLOCK_SIZE with 4096 in *; nia).
  replace (u64 (u64 (1 + i * d) + d)) with (u64 (1 + (i + 1) * d)).
  2: { unfold u64. rewrite Zplus_mod_idemp_l. f_equal. lia. }
  eapply wp_mono; [by apply (IH (i + 1) m1 Ha1); lia|]. intros l m2 (-> & M2 & Hsame & Hrep2). apply wp_ret. split; [|split; [|split; [done|]]].
  - rewrite (seqZ_cons i) by lia. replace (Z.pred (Z.of_nat (S n))) with (Z.of_nat n) by lia. done.
  - by eapply modifies_trans.
  - intros _. destruct n as [|n].
    + rewrite Hsame by done. by replace (i + Z.of_nat 1 - 1) with i by lia.
    + replace (i + Z.of_nat (S (S n)) - 1) with (i + 1 + Z.of_nat (S n) - 1) by lia. apply Hrep2. lia.
Qed.

Lemma log_initialize_spec m :
  log_args m →
  wp (Log_Initialize log_size disk_size num_small concurrency region)
     (λ g m', lg_per_core_log_ g = core_log_at <$> seqZ 0 concurrency ∧ modifies (span (region + pr) (pr - pl)) m m' ∧
        ba_rep (ba_shape_of pd pn (region + pr)) 0 (small_blocks_of (SMALL_BLOCK_SIZE + (concurrency - 1) * pd) pn)
           (large_blocks_of (SMALL_BLOCK_SIZE + (concurrency - 1) * pd) pd pn) m') m.
Proof.
  intros Ha. pose proof (la_concurrency _ Ha) as Hc. unfold Log_Initialize. apply wp_bind.
  unfold udiv. rewrite (proj2 (Z.eqb_neq _ _)) by lia. apply wp_ret, wp_bind. eapply wp_mono.
  { pose proof (core_logs_spec (Z.to_nat concurrency) 0 m Ha ltac:(lia) ltac:(lia)) as H.
    rewrite Z.mul_0_l, Z.add_0_r in H. change (u64 (1 + 0 * d)) with 1 in H. exact H. }
  intros l m' (-> & M & _ & Hrep). rewrite !Z2Nat.id in * by lia. apply wp_ret. split; [done|]. split; [done|].
  specialize (Hrep ltac:(lia)). by replace (0 + concurrency - 1) with (concurrency - 1) in Hrep by lia.
Qed.

(** C37. The numbers of files: after [Initialize], any sequence of requests for
    numbers from threads of different cores returns, all the numbers are
    different, and none is 0, the number of the root, as long as no core asks
    for more than its share of the 64-bit numbers. *)
Theorem log_uuids_unique tids m :
  log_args m → Forall (λ t, 0 <= t < concurrency) tids → (∀ t, 0 <= t < concurrency → asked t tids <= d) →
  wp (g ← Log_Initialize log_size disk_size num_small concurrency region; get_uuids g tids)
     (λ r _, length r.2 = length tids ∧ NoDup r.2 ∧ 0 ∉ r.2) m.
Proof.
  intros Ha Ht Hd. pose proof (la_concurrency _ Ha) as Hc. apply wp_bind. eapply wp_mono; [by apply log_initialize_spec|].
  intros g m1 (Hg & _). assert (concurrency * d < 2 ^ 64) as Hfit.
  { unfold uuid_diff. pose proof (Z.mul_div_le (2 ^ 64 - 1) concurrency ltac:(lia)). lia. }
  destruct (get_uuids_spec d concurrency tids (λ _, 0) g m1) as (g' & ids & Hrun & Hids & Hnd).
  - lia.
  - done.
  - rewrite Hg. split; [rewrite length_fmap, length_seqZ; lia|]. intros i c Hi.
    rewrite list_lookup_fmap in Hi. apply fmap_Some in Hi as (j & Hj & ->). apply lookup_seqZ in Hj as [-> _]. simpl. f_equal. lia.
  - done.
  - intros t Htr. specialize (Hd t Htr). lia.
  - apply wp_run. exists (g', ids), m1. split; [done|]. cbn [snd]. split; [symmetry; by eapply Forall2_length|]. split; [done|].
    intros [j Hj]%list_elem_of_lookup_1. destruct (Forall2_lookup_r _ _ _ _ _ Hids Hj) as (t & Htj & c & Heq & Hcr).
    pose proof (proj1 (Forall_lookup _ _) Ht j t Htj) as Htr.
    cbn beta in Htr, Hcr. unfold core_uuid in Heq. assert (0 <= t * d) by (apply Z.mul_nonneg_nonneg; lia). lia.
Qed.
End initialize.

(** Two cores, a disk of 300 KiB. *)
Lemma log_uuids_unique_witness :
  wp (g ← Log_Initialize 64 307200 10 2 65536; get_uuids g [0; 1; 0; 0; 1])
     (λ r _, r.2 = [1; 9223372036854775808; 2; 3; 9223372036854775809] ∧ NoDup r.2) (zero_region 65712 144).
Proof.
  assert (log_args 64 307200 10 2 65536 (zero_region 65712 144)) as Ha.
  { split.
    - lia.
    - vm_compute. intuition discriminate.
    - intros i Hi. assert (i = 0 ∨ i = 1) as [->| ->] by lia; split; vm_compute; intuition discriminate.
    - vm_compute. intuition discriminate.
    - split; right; vm_compute; discriminate.
    - exact (valid_zero_region 65712 144). }
  pose proof (log_uuids_unique 64 307200 10 2 65536 [0; 1; 0; 0; 1] (zero_region 65712 144) Ha) as H.
  assert (Forall (λ t, 0 <= t < 2) [0; 1; 0; 0; 1]) as Ht by (repeat constructor; lia).
  assert (∀ t, 0 <= t < 2 → asked t [0; 1; 0; 0; 1] <= uuid_diff 2) as Hd.
  { intros t Htr. assert (t = 0 ∨ t = 1) as [->| ->] by lia; vm_compute; discriminate. }
  specialize (H Ht Hd). unfold wp in *.
  destruct ((g ← Log_Initialize 64 307200 10 2 65536; get_uuids g [0; 1; 0; 0; 1]) (zero_region 65712 144)) as [r m'| | |] eqn:E; [|exact H..].
  split; [|apply H]. vm_compute in E. injection E as <- _. reflexivity.
Defined.

(** ** The entries of a log *)

Fixpoint reserve_all (sizes : list Z) (c : CoreLog) : M (CoreLog * list Z) :=
  match sizes with
  | [] => mret (c, [])
  | size :: sizes' =>
      '(c, entry) ← CoreLog_ReserveLogEntry size c;
      '(c, l) ← reserve_all sizes' c;
      mret (c, entry :: l)
  end.

(** The bytes that the entries take. *)
Definition log_bytes (sizes : list Z) : Z := foldr (λ n t, sizeof_LogEntry + n + t) 0 sizes.

Definition entry_ok (size entry : Z) (m : mem) : Prop :=
  read 4 (entry + le_size_) m = size ∧ read 1 (entry + le_finalized_) m = 0.

(** Sizes of types with a [LogEntry] as their base. *)
Definition entry_size (n : Z) : Prop := sizeof_LogEntry <= n < 2 ^ 31.

Lemma log_bytes_nonneg sizes : Forall entry_size sizes → 0 <= log_bytes sizes.
Proof. induction 1 as [|n sizes Hn _ IH]; simpl; [lia|]. unfold entry_size, sizeof_LogEntry in *. lia. Qed.

Lemma reserve_spec size c m :
  entry_size size → valid m (cl_reserve_off_ c) (sizeof_LogEntry + size) →
  wp (CoreLog_ReserveLogEntry size c)
     (λ r m', r = (with_reserve c (cl_reserve_off_ c + sizeof_LogEntry + size), cl_reserve_off_ c + sizeof_LogEntry) ∧
        entry_ok size r.2 m' ∧ modifies (span (cl_reserve_off_ c + sizeof_LogEntry) sizeof_LogEntry) m m') m.
Proof.
  unfold entry_size, sizeof_LogEntry. intros Hs Hv. unfold CoreLog_ReserveLogEntry, entry_ok, store_s32, sizeof_LogEntry. autounfold with layout.
  wp_go. split; [done|]. cbn [fst snd]. split; [split|].
  - rewrite read_write_other by (simpl; lia). rewrite read32_write, u32_small by apply s32_bits_range.
    rewrite (u32_small size), s32_small by lia. apply Z.mod_small. lia.
  - mem_simpl. done.
  - msolve.
Qed.

Lemma reserve_all_spec sizes c m :
  Forall entry_size sizes → 0 <= cl_commit_off_ c <= cl_reserve_off_ c → cl_reserve_off_ c + log_bytes sizes < 2 ^ 64 →
  valid m (cl_reserve_off_ c) (log_bytes sizes) →
  wp (reserve_all sizes c)
     (λ r m', Forall2 (λ size entry, entry_ok size entry m' ∧ cl_reserve_off_ c < entry ∧ entry + size <= cl_reserve_off_ r.1) sizes r.2 ∧
        (∀ i j size e e', sizes !! i = Some size → r.2 !! i = Some e → r.2 !! j = Some e' → (i < j)%nat → e + size <= e') ∧
        CoreLog_GetUncommittedSize r.1 = CoreLog_GetUncommittedSize c + log_bytes sizes ∧
        r.1 = with_reserve c (cl_reserve_off_ c + log_bytes sizes) ∧
        modifies (span (cl_reserve_off_ c) (log_bytes sizes)) m m') m.
Proof.
  intros Hs. revert c m. induction Hs as [|size sizes Hsize Hs IH]; intros c m Hoff Hend Hv; cbn [reserve_all].
  { apply wp_ret. split; [constructor|]. split; [intros i j ? ? ? Hi; by rewrite lookup_nil in Hi|]. simpl. split; [lia|]. split; [|apply modifies_refl].
    rewrite Z.add_0_r. by destruct c. }
  pose proof (log_bytes_nonneg sizes Hs) as Hnn. simpl in Hend, Hv. unfold entry_size, sizeof_LogEntry in Hsize, Hend, Hv.
  apply wp_bind. eapply wp_mono; [apply reserve_spec; [done|apply (valid_sub _ _ _ _ _ Hv); unfold sizeof_LogEntry; lia]|].
  intros [c1 e] m1 (Heq & He & M1). injection Heq as -> ->. cbn [fst snd] in *. unfold sizeof_LogEntry in *.
  set (off := cl_reserve_off_ c) in *. set (c1 := with_reserve c (off + 8 + size)) in *.
  assert (valid m1 (off + 8 + size) (log_bytes sizes)) as Hv1.
  { eapply valid_modifies; [exact M1|]. apply (valid_sub _ _ _ _ _ Hv); lia. }
  apply wp_bind. eapply wp_mono; [apply (IH c1 m1); [simpl; lia|simpl; lia|exact Hv1]|].
  change (cl_reserve_off_ c1) with (off + 8 + size). intros [c2 l] m2 (Hall & Hord & Hunc & Hlast & M2). cbn [fst snd] in *.
  apply wp_ret. cbn [fst snd].
  assert (cl_reserve_off_ c2 = off + 8 + size + log_bytes sizes) as Hend2 by (by rewrite Hlast).
  split; [constructor|split; [|split; [|split]]].
  - split; [|lia]. unfold entry_ok in *. autounfold with layout in *.
    rewrite !(read_modifies _ _ _ _ _ M2); [done|..]; simpl; unfold span; lia.
  - eapply Forall2_impl; [exact Hall|]. intros n e (H1 & H2 & H3). split; [done|lia].
  - intros [|i] [|j] n e e' Hi He1 He2 Hij; simpl in *; [lia| |lia|].
    + injection Hi as <-. injection He1 as <-. destruct (Forall2_lookup_r _ _ _ _ _ Hall He2) as (n' & _ & _ & H2 & _). lia.
    + eapply Hord; [exact Hi|done|done|lia].
  - simpl. rewrite Hunc. unfold CoreLog_GetUncommittedSize, c1. simpl. fold off. unfold sizeof_LogEntry. rewrite !u64_small by lia. lia.
  - rewrite Hlast. unfold c1, with_reserve. simpl. unfold sizeof_LogEntry. f_equal. lia.
  - eapply modifies_trans; (eapply modifies_weaken; [eassumption|]); unfold span; simpl; unfold sizeof_LogEntry; lia.
Qed.

(** C38. The entries that a core reserves in its log take [log_bytes] bytes: the
    size of each entry (at least that of a [LogEntry]) and a gap of the 8 bytes
    of a [LogEntry] before it.  When that many bytes are left between
    [reserve_off_] and [tail_], any sequence of reservations returns, the entries lie one after the other without
    overlapping between [head_] and [tail_], each still holds its size and is
    not yet final when all of them are reserved, the number of uncommitted bytes
    grows by [log_bytes], which counts the gaps too, only [reserve_off_] of the
    log has changed, and no byte outside the reserved part.  The code does not
    compare with [tail_] ([reserve_past_tail]). *)
Theorem log_entries_kept sizes c m :
  Forall entry_size sizes → 0 <= cl_head_ c <= cl_commit_off_ c → cl_commit_off_ c <= cl_reserve_off_ c →
  cl_reserve_off_ c + log_bytes sizes <= cl_tail_ c < 2 ^ 64 →
  valid m (cl_head_ c) (cl_tail_ c - cl_head_ c) →
  wp (reserve_all sizes c)
     (λ r m', Forall2 (λ size entry, entry_ok size entry m' ∧ cl_head_ c < entry ∧ entry + size <= cl_tail_ c) sizes r.2 ∧
        (∀ i j size e e', sizes !! i = Some size → r.2 !! i = Some e → r.2 !! j = Some e' → (i < j)%nat → e + size <= e') ∧
        CoreLog_GetUncommittedSize r.1 = CoreLog_GetUncommittedSize c + log_bytes sizes ∧
        r.1 = with_reserve c (cl_reserve_off_ c + log_bytes sizes) ∧
        modifies (span (cl_reserve_off_ c) (log_bytes sizes)) m m') m.
Proof.
  intros Hs Hhead Hcommit Htail Hv. pose proof (log_bytes_nonneg sizes Hs) as Hnn.
  eapply wp_mono; [apply reserve_all_spec; [done|lia|lia|apply (valid_sub _ _ _ _ _ Hv); lia]|].
  intros [c' l] m' (Hall & Hord & Hunc & Hc & M). cbn [fst snd] in *. subst c'. split; [|exact (conj Hord (conj Hunc (conj eq_refl M)))].
  eapply Forall2_impl; [exact Hall|]. cbn. intros size e (Hok & H1 & H2). split; [done|lia].
Qed.

Definition ex_core_log : CoreLog :=
  {| cl_head_ := 4096; cl_tail_ := 4224; cl_reserve_off_ := 4096; cl_commit_off_ := 4096;
     cl_alloc_ := {| small_blocks_ := ring_buffer_Attach 0; large_blocks_ := ring_buffer_Attach 0 |}; cl_uuid_min_ := 1 |}.

Lemma log_entries_kept_witness :
  wp (reserve_all [24; 8; 40] ex_core_log)
     (λ r m', r.2 = [4104; 4136; 4152] ∧ Forall2 (λ size entry, entry_ok size entry m') [24; 8; 40] r.2) (zero_region 4096 128).
Proof.
  assert (Forall entry_size [24; 8; 40]) as Hs by (repeat constructor; unfold sizeof_LogEntry; lia).
  assert (log_bytes [24; 8; 40] = 96) as Hb by reflexivity.
  pose proof (log_entries_kept [24; 8; 40] ex_core_log (zero_region 4096 128) Hs) as H. rewrite Hb in H.
  specialize (H ltac:(simpl; lia) ltac:(simpl; lia) ltac:(simpl; lia) (valid_zero_region 4096 128)). unfold wp in *.
  destruct (reserve_all [24; 8; 40] ex_core_log (zero_region 4096 128)) as [r m'| | |] eqn:E; [|exact H..].
  split; [vm_compute in E; injection E as <- _; reflexivity|]. destruct H as (Hall & _).
  eapply Forall2_impl; [exact Hall|]. by intros size e (Hok & _).
Defined.

(** ** Limits *)

(** After [Initialize] the blocks of all cores are the same rings, which hold
    the blocks of the last core: the disk of the others is never given out.
    The rings are behind the end of the memory of a log with one core. *)
Lemma cores_share_blocks log_size disk_size num_small concurrency region m :
  log_args log_size disk_size num_small concurrency region m →
  let pd := per_core_disk_size disk_size concurrency in
  let pr := per_core_region_size log_size disk_size num_small concurrency in
  wp (Log_Initialize log_size disk_size num_small concurrency region)
     (λ g m', (∀ c, c ∈ lg_per_core_log_ g → cl_head_ c = region ∧ mr_header_ (small_blocks_ (cl_alloc_ c)) = region + pr) ∧
        ∃ large, ba_rep (ba_shape_of pd (per_core_num_blocks num_small concurrency) (region + pr)) 0
          (small_blocks_of (SMALL_BLOCK_SIZE + (concurrency - 1) * pd) (per_core_num_blocks num_small concurrency)) large m') m.
Proof.
  intros Ha pd pr. eapply wp_mono; [by apply log_initialize_spec|]. intros g m' (Hg & _ & Hrep). split; [|by eexists].
  intros c Hc. rewrite Hg in Hc. apply list_elem_of_fmap in Hc as (i & -> & _). done.
Qed.

(** A reservation does not look at the end of the log. *)
Lemma reserve_past_tail :
  wp (CoreLog_ReserveLogEntry 24 (with_reserve ex_core_log 8192))
     (λ r m', cl_tail_ r.1 < r.2 ∧ entry_ok 24 r.2 m') (zero_region 8192 64).
Proof. vm_compute. intuition discriminate. Qed.

(** The commit message: the blocks are not written into it, the logs are all
    copied to the same place, so that the second one overwrites the first, and
    what was copied stays uncommitted. *)
Definition ex_log_run : M (Log * list CoreLog) :=
  g ← Log_Initialize 64 307200 10 2 65536;
  match lg_per_core_log_ g with
  | [c0; c1] =>
      let c0 := {| cl_head_ := 4096; cl_tail_ := 8192; cl_reserve_off_ := 4098; cl_commit_off_ := 4096;
                   cl_alloc_ := cl_alloc_ c0; cl_uuid_min_ := 1 |} in
      let c1 := {| cl_head_ := 5120; cl_tail_ := 8192; cl_reserve_off_ := 5122; cl_commit_off_ := 5120;
                   cl_alloc_ := cl_alloc_ c1; cl_uuid_min_ := 1 |} in
      _ ← store_bytes 4096 [1; 2]; _ ← store_bytes 5120 [3; 4];
      g' ← Log_GetLogUpdates {| lg_per_core_log_ := [c0; c1]; lg_next_log_block_ := lg_next_log_block_ g |} 0
             {| bk_off_ := 0; bk_size_ := 0 |} 6144;
      mret (g', [c0; c1])
  | _ => fault
  end.

Lemma log_updates_overwrite :
  wp ex_log_run
     (λ r m', read 4 (6144 + lc_num_blocks_) m' = 1 ∧ read 16 (6144 + lc_blocks_) m' = 0 ∧ read 8 (6144 + lc_log_size_) m' = 4 ∧
        read 2 (6144 + lc_blocks_ + 16) m' = 3 + 256 * 4 ∧ read 2 (6144 + lc_blocks_ + 18) m' = 0 ∧
        (CoreLog_GetUncommittedSize <$> lg_per_core_log_ r.1) = (CoreLog_GetUncommittedSize <$> r.2))
     (zero_region 65712 144 ∪ (zero_region 4096 2 ∪ (zero_region 5120 2 ∪ zero_region 6144 80))).
Proof. vm_compute. repeat split. Qed.
