(* ===== verification/ServerThreads.v ===== *)
(** * ServerThreads.v: the threads of the server beside its workers

    userspace/server/server.cpp (the socket of the server and the thread that
    accepts clients), userspace/server/wreaper_thread.h (the thread that
    removes processes that have gone) and userspace/server/upgrade_thread.h (the
    thread that replaces modules). *)

From S2P Require Import Prelude Memory RingBuffer RequestQueue QueuePair WorkQueue QueuePool MpmcRing UnorderedMap.
From S2P Require Import Allocators AllocatorSpec Namespace ModuleTable IpcManager Kernel KernelWorker UserWorker.

Local Open Scope Z_scope.

(** ** server.cpp *)

Definition UNIX_SOCKET_FAILED : Z := 200.
Definition UNIX_BIND_FAILED : Z := 201.
Definition UNIX_SETSOCKOPT_FAILED : Z := 205.
Definition UNIX_GETSOCKOPT_FAILED : Z := 205.
Definition UNIX_LISTEN_FAILED : Z := 206.
Definition UNIX_ACCEPT_FAILED : Z := 207.

(** What the system calls return. *)
Record syscalls := {
  sc_socket : Z;
  sc_setsockopt : Z → Z;
  sc_bind : Z → Z;
  sc_listen : Z → Z;
  sc_accept : Z → Z;
  sc_getsockopt : Z → Z
}.

(** [server_init]: the descriptor that the IPC manager keeps, and the exception
    if there is one. *)
Definition server_init (sc : syscalls) : Z * option Z :=
  let server_fd := sc_socket sc in
  (server_fd,
   if server_fd <? 0 then Some UNIX_SOCKET_FAILED
   else if sc_setsockopt sc server_fd <? 0 then Some UNIX_SETSOCKOPT_FAILED
   else if sc_bind sc server_fd <? 0 then Some UNIX_BIND_FAILED
   else if sc_listen sc server_fd <? 0 then Some UNIX_LISTEN_FAILED
   else None).

(** [AcceptWorker::DoWork]; [register] is [RegisterClient(client_fd, creds)].
    Its exceptions are printed, the others end the thread. *)
Definition AcceptWorker_DoWork (sc : syscalls) (server_fd : Z) (register : Z → M unit) : M unit :=
  let client_fd := sc_accept sc server_fd in
  if client_fd <? 0 then throw UNIX_ACCEPT_FAILED
  else if sc_getsockopt sc client_fd <? 0 then throw UNIX_GETSOCKOPT_FAILED
  else λ m, match register client_fd m with Throw _ m' => Ret tt m' | r => r end.

(** ** wreaper_thread.h *)

(** What [RecvMSGPeek] of a socket says (Socket.v): a message is there, or
    nothing yet, or the exception of a connection that is closed. *)
Inductive peek_result := PMessage | PNothing | PClosed.

(** An entry of [pid_to_ipc_]: the key and the process id of the object. *)
Record ipc_entry := { ie_key : Z; ie_pid : Z }.

(** [WreaperWorker::DoWork]: [l] is the rest of the map in the order of the
    iteration, [kept] and [gone] what was passed and what was erased; [peek t e]
    is what the [t]th call says when it is made for [e].  A [continue] goes
    round with the same entry.  [None]: still going round after [fuel] rounds. *)
Section wreaper.
Context (pid_ : Z) (peek : nat → ipc_entry → peek_result).

Fixpoint wreaper_loop (fuel t : nat) (l kept gone : list ipc_entry) : option (list ipc_entry * list ipc_entry) :=
  match fuel with
  | O => None
  | S fuel' =>
      match l with
      | [] => Some (kept, gone)
      | e :: l' =>
          if ie_pid e =? pid_ then wreaper_loop fuel' t l kept gone
          else if ie_pid e =? 0 then wreaper_loop fuel' t l kept gone
          else match peek t e with
               | PNothing => wreaper_loop fuel' (S t) l kept gone
               | PMessage => wreaper_loop fuel' (S t) l' (kept ++ [e]) gone
               | PClosed => wreaper_loop fuel' (S t) l' kept (gone ++ [e])
               end
      end
  end.

Definition WreaperWorker_DoWork (fuel : nat) (ipcs : list ipc_entry) : option (list ipc_entry * list ipc_entry) :=
  wreaper_loop fuel 0 ipcs [] [].

(** An entry is never left while there is nothing to say about it. *)
Definition stuck (e : ipc_entry) : Prop := ie_pid e = pid_ ∨ ie_pid e = 0 ∨ ∀ t, peek t e = PNothing.

Lemma wreaper_stuck fuel t e l l' kept gone : stuck e → wreaper_loop fuel t (l ++ e :: l') kept gone = None.
Proof.
  intros He. revert t l kept gone. induction fuel as [|fuel IH]; intros t l kept gone; [done|]. destruct l as [|x l]; cbn [wreaper_loop app].
  - destruct (Z.eqb_spec (ie_pid e) pid_); [exact (IH t [] kept gone)|].
    destruct (Z.eqb_spec (ie_pid e) 0); [exact (IH t [] kept gone)|].
    destruct He as [?|[?|Hn]]; [done|done|]. rewrite Hn. exact (IH (S t) [] kept gone).
  - destruct (ie_pid x =? pid_); [exact (IH t (x :: l) kept gone)|].
    destruct (ie_pid x =? 0); [exact (IH t (x :: l) kept gone)|].
    destruct (peek t x); [apply IH|exact (IH (S t) (x :: l) kept gone)|apply IH].
Qed.

(** What a pass that returns has done. *)
Lemma wreaper_result fuel t l kept gone kept' gone' :
  wreaper_loop fuel t l kept gone = Some (kept', gone') →
  ∃ k g, kept' = kept ++ k ∧ gone' = gone ++ g ∧ k ++ g ≡ₚ l ∧
    Forall (λ e, ie_pid e ≠ pid_ ∧ ie_pid e ≠ 0) l ∧
    Forall (λ e, ∃ t', peek t' e = PClosed) g ∧ Forall (λ e, ∃ t', peek t' e = PMessage) k.
Proof.
  revert t l kept gone. induction fuel as [|fuel IH]; intros t l kept gone H; [done|]. destruct l as [|e l]; cbn [wreaper_loop] in H.
  { injection H as <- <-. exists [], []. rewrite !app_nil_r. repeat split; constructor. }
  destruct (Z.eqb_spec (ie_pid e) pid_) as [Hp|Hp].
  { destruct (IH _ _ _ _ H) as (k & g & _ & _ & _ & Hall & _). inversion Hall as [|? ? [Hn _] _]; subst. done. }
  destruct (Z.eqb_spec (ie_pid e) 0) as [H0|H0].
  { destruct (IH _ _ _ _ H) as (k & g & _ & _ & _ & Hall & _). inversion Hall as [|? ? [_ Hn] _]; subst. done. }
  destruct (peek t e) eqn:Ep.
  - destruct (IH _ _ _ _ H) as (k & g & -> & -> & Hperm & Hall & Hg & Hk). exists (e :: k), g. rewrite <-app_assoc.
    do 2 (split; [done|]). split; [simpl; by rewrite Hperm|]. split; [by constructor|]. split; [done|]. constructor; [by exists t|done].
  - exact (IH _ _ _ _ H).
  - destruct (IH _ _ _ _ H) as (k & g & -> & -> & Hperm & Hall & Hg & Hk). exists k, (e :: g). rewrite <-app_assoc.
    do 2 (split; [done|]). split; [rewrite <-Hperm; by rewrite Permutation_middle|]. split; [by constructor|].
    split; [constructor; [by exists t|done]|done].
Qed.

(** A client is asked. *)
Lemma wreaper_ask fuel t e l kept gone r :
  ie_pid e ≠ pid_ → ie_pid e ≠ 0 →
  match peek t e with
  | PNothing => wreaper_loop fuel (S t) (e :: l) kept gone
  | PMessage => wreaper_loop fuel (S t) l (kept ++ [e]) gone
  | PClosed => wreaper_loop fuel (S t) l kept (gone ++ [e])
  end = r → wreaper_loop (S fuel) t (e :: l) kept gone = r.
Proof. intros Hp H0 <-. cbn [wreaper_loop]. by rewrite (proj2 (Z.eqb_neq _ _) Hp), (proj2 (Z.eqb_neq _ _) H0). Qed.

(** It returns when every process says something at some time. *)
Lemma wreaper_returns l :
  Forall (λ e, ie_pid e ≠ pid_ ∧ ie_pid e ≠ 0 ∧ ∀ t, ∃ t', (t <= t')%nat ∧ peek t' e ≠ PNothing) l →
  ∀ t kept gone, ∃ fuel r, wreaper_loop fuel t l kept gone = Some r.
Proof.
  induction 1 as [|e l (Hp & H0 & Hsay) _ IH]; intros t kept gone; [by exists 1%nat, (kept, gone)|].
  destruct (Hsay t) as (t' & Ht & Hne). remember (t' - t)%nat as n eqn:En. revert t Ht En.
  induction n as [|n IHn]; intros t Ht En; destruct (peek t e) eqn:Ep.
  1, 4: destruct (IH (S t) (kept ++ [e]) gone) as (fuel & r & Hr); exists (S fuel), r; apply wreaper_ask; [done|done|by rewrite Ep].
  2, 4: destruct (IH (S t) kept (gone ++ [e])) as (fuel & r & Hr); exists (S fuel), r; apply wreaper_ask; [done|done|by rewrite Ep].
  - assert (t' = t) as -> by lia. done.
  - destruct (IHn (S t) ltac:(lia) ltac:(lia)) as (fuel & r & Hr). exists (S fuel), r. apply wreaper_ask; [done|done|by rewrite Ep].
Qed.

(** C39. The reaper: a pass over the processes returns exactly when it should
    wait for none of them.  If every process is a client that at some time has
    a message or closes its connection, the pass returns; then the entries it
    erased are those of closed connections, and it kept the others, each with a
    message.  If one entry is the server's own, the kernel's, or a client that
    stays silent, the pass goes round that entry and never returns. *)
Theorem wreaper_pass ipcs :
  (Forall (λ e, ie_pid e ≠ pid_ ∧ ie_pid e ≠ 0 ∧ ∀ t, ∃ t', (t <= t')%nat ∧ peek t' e ≠ PNothing) ipcs →
     ∃ fuel kept gone, WreaperWorker_DoWork fuel ipcs = Some (kept, gone) ∧ kept ++ gone ≡ₚ ipcs ∧
       Forall (λ e, ∃ t, peek t e = PClosed) gone ∧ Forall (λ e, ∃ t, peek t e = PMessage) kept) ∧
  (Exists stuck ipcs → ∀ fuel, WreaperWorker_DoWork fuel ipcs = None).
Proof.
  split.
  - intros Hall. destruct (wreaper_returns ipcs Hall 0 [] []) as (fuel & [kept gone] & Hr). exists fuel, kept, gone. split; [done|].
    destruct (wreaper_result _ _ _ _ _ _ _ Hr) as (k & g & -> & -> & Hperm & _ & Hg & Hk). done.
  - intros (e & He & Hs)%Exists_exists fuel. apply list_elem_of_split in He as (l & l' & ->). by apply wreaper_stuck.
Qed.
End wreaper.

Definition ex_peek (t : nat) (e : ipc_entry) : peek_result :=
  if ie_key e =? 7 then (if (t <? 3)%nat then PNothing else PMessage) else PClosed.

Lemma wreaper_pass_witness :
  (∃ fuel kept gone, WreaperWorker_DoWork 1 ex_peek fuel [{| ie_key := 7; ie_pid := 7 |}; {| ie_key := 8; ie_pid := 8 |}] = Some (kept, gone) ∧
     kept ++ gone ≡ₚ [{| ie_key := 7; ie_pid := 7 |}; {| ie_key := 8; ie_pid := 8 |}]) ∧
  WreaperWorker_DoWork 1 ex_peek 1000 [{| ie_key := 8; ie_pid := 8 |}; {| ie_key := 1; ie_pid := 1 |}] = None.
Proof.
  split.
  - destruct (proj1 (wreaper_pass 1 ex_peek [{| ie_key := 7; ie_pid := 7 |}; {| ie_key := 8; ie_pid := 8 |}])) as (fuel & kept & gone & H & Hp & _).
    + constructor; [split; [simpl; lia|split; [simpl; lia|]]|constructor; [split; [simpl; lia|split; [simpl; lia|]]|constructor]].
      * intros t. exists (max t 3). split; [lia|]. unfold ex_peek. simpl. destruct (Nat.ltb_spec (max t 3) 3); [lia|done].
      * intros t. by exists t.
    + by exists fuel, kept, gone.
  - apply (proj2 (wreaper_pass 1 ex_peek [{| ie_key := 8; ie_pid := 8 |}; {| ie_key := 1; ie_pid := 1 |}])).
    apply Exists_cons. right. apply Exists_cons. left. by left.
Defined.

(** A worker that still has a queue of a process that was removed: the pointer
    that it finds is null. *)
Lemma work_after_reap_faults process fuel wq wcap q rest s m :
  wqs_queue_ wq = wqs_header_ wq + sizeof_wq_header →
  vec_rep sizeof_wq_secure_entry rd_secure (wqs_header_ wq) wcap (uq_entry q :: rest) m → wcap < 2 ^ 31 →
  si_heap (sv_ipc s) !! uq_ptr q = Some (uq_handle q) → queue_pair_qid (uq_handle q) m = Ret (uq_qid q) m →
  si_pid_to_ipc_ (sv_ipc s) !! u32 (qid_pid_ (uq_qid q)) = None →
  DoWork process fuel wq s m = Fault.
Proof.
  intros Hwq Hvec Hcap Hh Hqid Hnone. pose proof Hvec as []. unfold DoWork.
  assert (labstor_work_queue_secure_GetDepth wq m = Ret (Z.of_nat (length (uq_entry q :: rest))) m) as Hd.
  { apply wp_exact. unfold labstor_work_queue_secure_GetDepth. autounfold with layout in *.
    apply wp_load; [apply (valid_sub _ _ _ _ _ vr_valid); simpl; lia|]. by rewrite vr_enq. }
  assert (labstor_work_queue_secure_Peek wq 0 m = Ret (Some (uq_entry q)) m) as Hp.
  { rewrite (wqs_peek_spec _ _ _ _ 0 Hvec Hwq) by lia. done. }
  unfold DoWork, mbind at 1, M_bind at 1. rewrite (ulift_run _ _ _ _ _ _ Hd), Nat2Z.id. cbn [length worker_queues].
  rewrite (ulift_run _ _ _ _ _ _ Hp). unfold uq_entry. cbn iota.
  rewrite (handle_run _ _ _ _ _ Hh), (ulift_run _ _ _ _ _ _ Hqid).
  unfold u_get, mbind at 1, UM_bind at 1, mbind, M_bind at 1, mret, M_ret. rewrite (ulift_fault _ _ _ _); [done|].
  unfold Server_GetQueuePair, ipc_of_pid. by rewrite Hnone.
Qed.

(** ** upgrade_thread.h *)

(** The documents are read with a library: [LoadFile] gives the document at the
    path of a request, [index] is [operator []] and [as_string] is
    [as<std::string>], [None] for an exception, and [defined] the conversion to
    [bool].  [centralized] is [CentralizedUpdateModule] (ModuleTable.v). *)
Section upgrade.
Context {Node : Type} (LoadFile : Z → Node) (index : Node → list Z → option Node) (defined : Node → bool)
  (as_string : Node → option (list Z)) (yaml_exception : Z) (centralized : Node → MM unit).

Definition code_update_key : list Z := [99; 111; 100; 101; 95; 117; 112; 100; 97; 116; 101].
Definition labmod_uuid_key : list Z := [108; 97; 98; 109; 111; 100; 95; 117; 117; 105; 100].
Definition centralized_key : list Z := [99; 101; 110; 116; 114; 97; 108; 105; 122; 101; 100].
Definition decentralized_key : list Z := [100; 101; 99; 101; 110; 116; 114; 97; 108; 105; 122; 101; 100].

Definition yaml {A} (r : option A) : MM A := match r with Some a => mret a | None => mm_throw yaml_exception end.

Definition process_upgrade (config : Node) : MM unit :=
  code_update ← yaml (index config code_update_key);
  if defined code_update then
    _ ← yaml (as_string code_update);
    labmod_uuid ← yaml (index config labmod_uuid_key);
    _ ← yaml (as_string labmod_uuid);
    c ← yaml (index code_update centralized_key);
    _ ← (if defined c then centralized config else mret tt);
    d ← yaml (index code_update decentralized_key);
    if defined d then Server_DecentralizedUpdateModule else mret tt
  else mret tt.

Fixpoint process_upgrades (l : list Z) : MM unit :=
  match l with [] => mret tt | rq :: l' => _ ← process_upgrade (LoadFile rq); process_upgrades l' end.

(** [elapsed]: the seconds on the timer. *)
Definition UpgradeWorker_DoWork (elapsed : Z) : MM unit :=
  if 5 <=? elapsed then l ← ModuleTable_GetUpgrades; process_upgrades l else mret tt.

(** No module is ever replaced: the value that is read as a text is then
    indexed, and what can be read as a text cannot be indexed.  A request for
    an upgrade ends in an exception, at the first document that asks for one. *)
Lemma upgrade_throws config code_update s :
  (∀ n t k, as_string n = Some t → index n k = None) →
  index config code_update_key = Some code_update → defined code_update = true →
  process_upgrade config s = MThrow yaml_exception s.
Proof.
  intros Hscalar Hi Hd. unfold process_upgrade. rewrite Hi. cbn [yaml]. unfold mbind, MM_bind, mret, MM_ret. cbn. rewrite Hd.
  destruct (as_string code_update) as [t|] eqn:E; [|done]. cbn. destruct (index config labmod_uuid_key) as [u|]; [|done]. cbn.
  destruct (as_string u); [|done]. cbn. by rewrite (Hscalar _ _ _ E).
Qed.

(** A pass leaves the requests for upgrades in the list: the next pass starts
    with the same ones. *)
Lemma upgrades_kept elapsed s :
  (∀ n t k, as_string n = Some t → index n k = None) →
  UpgradeWorker_DoWork elapsed s = MRet_ tt s ∨ UpgradeWorker_DoWork elapsed s = MThrow yaml_exception s.
Proof.
  intros Hscalar. unfold UpgradeWorker_DoWork. destruct (5 <=? elapsed); [|by left].
  unfold ModuleTable_GetUpgrades, mm_get, mbind, MM_bind, mret, MM_ret. cbn. induction (upgrades_ s) as [|rq l IH]; [by left|].
  cbn. unfold mbind, MM_bind. destruct (index (LoadFile rq) code_update_key) as [n|] eqn:Ei.
  - destruct (defined n) eqn:Ed; [rewrite (upgrade_throws _ _ s Hscalar Ei Ed); by right|].
    unfold process_upgrade at 1 2. rewrite Ei. cbn [yaml]. unfold mbind, MM_bind, mret, MM_ret. cbn. rewrite Ed. exact IH.
  - right. unfold process_upgrade. rewrite Ei. done.
Qed.
End upgrade.
