(* ===== verification/NetlinkClient.v ===== *)
(** * NetlinkClient.v: requests to the kernel over netlink

    src/kernel/client/kernel_client.cpp (messages through the netlink socket)
    and the clients of the kernel modules on top of it:
    labmods/secure_shmem/netlink_client, labmods/ipc_manager/netlink_client and
    labmods/work_orchestrator/netlink_client.

    Sending a message runs the input function of the kernel socket on a copy of
    it ([Kernel.server_loop]); what the kernel answers waits in the order in
    which it was sent until the client receives it.  The state of the client is
    the number of answers that it has received; receiving when there is none
    waits for ever, the outcome [Spin]. *)

From S2P Require Import Prelude Memory RingBuffer RequestQueue QueuePair WorkQueue Allocators SecureShmem Kernel.
From S2P Require Import KernelWorker KernelPass Session ShmemString.

Local Open Scope Z_scope.

(** ** Messages *)

(** [struct nlmsghdr]. *)
Definition nlmsg_len : Z := 0.
Definition nlmsg_type : Z := 4.
Definition nlmsg_flags : Z := 6.
Definition nlmsg_seq : Z := 8.
Definition nlmsg_pid : Z := 12.
Definition sizeof_nlmsghdr : Z := 16.

#[export] Hint Unfold nlmsg_len nlmsg_type nlmsg_flags nlmsg_seq nlmsg_pid sizeof_nlmsghdr : layout.

Definition NLMSG_SPACE (len : Z) : Z := (len + sizeof_nlmsghdr + 3) / 4 * 4.
Definition NLMSG_DATA (nlh : Z) : Z := nlh + sizeof_nlmsghdr.
Definition NLMSG_DONE : Z := 3.

Definition memcpy (dst src n : Z) : M unit := bytes ← load_bytes src (Z.to_nat n); store_bytes dst bytes.

(** What the process has: its id, the buffers that [malloc] gives, where the
    kernel puts its copy of a message, the request and the code on the stack
    of the caller, and whether the system calls succeed. *)
Record netlink_env := {
  ne_pid : Z;
  ne_send_nlh : Z;
  ne_recv_nlh : Z;
  ne_skb_data : Z;
  ne_rq : Z;
  ne_code : Z;
  ne_sendto : bool;
  ne_recvfrom : bool
}.

(** The client over the kernel. *)
Definition NM (A : Type) : Type := nat → KM (A * nat).

#[export] Instance NM_ret : MRet NM := λ A a n, mret (a, n).
#[export] Instance NM_bind : MBind NM := λ A B f c n, '(a, n') ← c n; f a n'.

Definition nl_kernel {A} (c : KM A) : NM A := λ n, a ← c; mret (a, n).
Definition nl_mem {A} (c : M A) : NM A := nl_kernel (lift c).

(** The bytes of an answer, and the answers sent to a process, oldest first. *)
Fixpoint le_bytes (n : nat) (v : Z) : list Z :=
  match n with O => [] | S n' => v mod 256 :: le_bytes n' (v / 256) end.

Definition reply_bytes (r : reply) : list Z :=
  match r with RCode code => le_bytes 4 (s32_bits code) | RPointer p => le_bytes 8 (u64 p) end.

Definition inbox (pid : Z) (k : kstate) : list reply :=
  snd <$> rev (filter (λ x, x.1 = pid) (k_sent k)).

(** ** kernel_client.cpp *)

Section netlink.
Context (ne : netlink_env) (env : kenv) (modules : module_table).

(** [Connect] looks at neither of the two results. *)
Definition NetlinkClient_Connect (sock bind : Z) : Z * bool := (sock, true).

(** The buffer of a message of [size] bytes. *)
Definition nlmsg_new (nlh size : Z) : M unit :=
  _ ← memset nlh 0 (Z.to_nat (NLMSG_SPACE size));
  _ ← store32 (nlh + nlmsg_len) (u32 (NLMSG_SPACE size));
  _ ← store32 (nlh + nlmsg_pid) (u32 (ne_pid ne));
  store16 (nlh + nlmsg_flags) 0.

(** The kernel's copy of a message, and [server_loop] on it. *)
Definition netlink_input (nlh len : Z) : KM unit :=
  let data := ne_skb_data ne in
  _ ← lift (memcpy data nlh len);
  pid ← lift (load_s32 (data + nlmsg_pid));
  server_loop env modules pid (NLMSG_DATA data).

Definition NetlinkClient_SendMSG (serialized_buf buf_size : Z) : NM bool :=
  let nlh := ne_send_nlh ne in
  _ ← nl_mem (nlmsg_new nlh buf_size);
  _ ← nl_mem (memcpy (NLMSG_DATA nlh) serialized_buf buf_size);
  if ne_sendto ne then _ ← nl_kernel (netlink_input nlh (NLMSG_SPACE buf_size)); mret true
  else mret false.

(** [recvfrom]: the header that [nlmsg_put] made, and as much of the answer as
    there is room for. *)
Definition netlink_output (nlh len : Z) (r : reply) : M unit :=
  let bytes := reply_bytes r in
  _ ← store32 (nlh + nlmsg_len) (sizeof_nlmsghdr + Z.of_nat (length bytes));
  _ ← store16 (nlh + nlmsg_type) NLMSG_DONE;
  _ ← store16 (nlh + nlmsg_flags) 0;
  _ ← store32 (nlh + nlmsg_seq) 0;
  _ ← store32 (nlh + nlmsg_pid) 0;
  store_bytes (NLMSG_DATA nlh) (take (Z.to_nat (len - sizeof_nlmsghdr)) bytes).

(** The next answer, when there is one. *)
Definition recv_answer (buf buf_size : Z) : NM bool := λ n,
  let nlh := ne_recv_nlh ne in
  k ← k_get;
  match inbox (ne_pid ne) k !! n with
  | None => λ _ m, Spin m
  | Some r =>
      _ ← lift (netlink_output nlh (NLMSG_SPACE buf_size) r);
      _ ← lift (memcpy buf (NLMSG_DATA nlh) buf_size);
      mret (true, S n)
  end.

Definition NetlinkClient_RecvMSG (buf buf_size : Z) : NM bool :=
  _ ← nl_mem (nlmsg_new (ne_recv_nlh ne) buf_size);
  if ne_recvfrom ne then recv_answer buf buf_size else mret false.

(** A request of [size] bytes at [ne_rq] and its answer of [len] bytes at
    [ne_code]; what the two calls return is not looked at. *)
Definition netlink_call (size len : Z) : NM unit :=
  _ ← NetlinkClient_SendMSG (ne_rq ne) size;
  _ ← NetlinkClient_RecvMSG (ne_code ne) len;
  mret tt.

(** The header of a request. *)
Definition fill_header (ns_id op : Z) : M unit :=
  _ ← store32 (ne_rq ne + rq_ns_id_) ns_id;
  store16 (ne_rq ne + rq_op_) op.

(** ** secure_shmem_client_netlink.cpp *)

Definition sizeof_secure_shmem_request : Z := 32.

Definition ShmemClient_CreateShmem (region_size : Z) (user_owned : bool) : NM Z :=
  _ ← nl_mem (_ ← fill_header SHMEM_MODULE_RUNTIME_ID 0;
              _ ← store64 (ne_rq ne + 16) region_size;
              store8 (ne_rq ne + 24) (Z.b2z user_owned));
  _ ← netlink_call sizeof_secure_shmem_request 4;
  nl_mem (load_s32 (ne_code ne)).

Definition ShmemClient_GrantPidShmem (pid region_id : Z) : NM Z :=
  _ ← nl_mem (_ ← fill_header SHMEM_MODULE_RUNTIME_ID 1;
              _ ← store_s32 (ne_rq ne + 20) region_id;
              store_s32 (ne_rq ne + 16) pid);
  _ ← netlink_call sizeof_secure_shmem_request 4;
  nl_mem (load_s32 (ne_code ne)).

Definition ShmemClient_FreeShmem (region_id : Z) : NM Z :=
  _ ← nl_mem (_ ← fill_header SHMEM_MODULE_RUNTIME_ID 2;
              store_s32 (ne_rq ne + 20) region_id);
  _ ← netlink_call sizeof_secure_shmem_request 4;
  nl_mem (load_s32 (ne_code ne)).

(** [chrdev]: the device could be opened; [vm_start]: the addresses that [mmap]
    chose, if there are any; [remap_ok]: see SecureShmem.v.  The offset of
    [lseek] is the region. *)
Definition ShmemClient_MapShmem (chrdev : bool) (vm_start : option Z) (remap_ok : Z → bool) (region_id region_size : Z)
    : NM Z :=
  if chrdev then
    match vm_start with
    | None => mret NULL
    | Some p =>
        r ← nl_kernel (k_shmem_op (labstor_mmap (ke_page_size env) remap_ok (labstor_lseek 0 region_id) (ne_pid ne)
                                     p (p + page_align (ke_page_size env) region_size)));
        mret (if r.1 =? 0 then p else NULL)
    end
  else mret NULL.

(** ** ipc_manager_client_netlink.cpp *)

Definition KERNEL_IPC_MANAGER_FAILED_TO_REGISTER : Z := 506.
Definition sizeof_ipc_manager_register_request : Z := 20.

Definition IPCManager_Register (region_id : Z) : NM Z :=
  _ ← nl_mem (_ ← fill_header IPC_MANAGER_MODULE_RUNTIME_ID IPC_MANAGER_REGISTER;
              store_s32 (ne_rq ne + 16) region_id);
  _ ← netlink_call sizeof_ipc_manager_register_request 8;
  region ← nl_mem (load64 (ne_code ne));
  if region =? 0 then nl_mem (throw KERNEL_IPC_MANAGER_FAILED_TO_REGISTER) else mret region.

Definition IPCManager_Unregister : NM unit := mret tt.

(** ** work_orchestrator_client_netlink.cpp *)

Definition sizeof_spawn_worker_request : Z := 40.

(** The region, and [num_workers_] afterwards. *)
Definition WorkerClient_CreateWorkers (num_workers region_id region_size time_slice_us : Z) : NM (Z * Z) :=
  _ ← nl_mem (_ ← fill_header WORKER_MODULE_RUNTIME_ID 0;
              _ ← store_s32 (ne_rq ne + 16) num_workers;
              _ ← store_s32 (ne_rq ne + 20) region_id;
              _ ← store64 (ne_rq ne + 24) region_size;
              store64 (ne_rq ne + 32) time_slice_us);
  _ ← netlink_call sizeof_spawn_worker_request 4;
  mret (region_id, num_workers).

(** [labstor_assign_qp_request_vec::GetSize]. *)
Definition assign_qp_GetSize (count : Z) : Z := u32 (24 + s32 count * 24).

(** The requests from [rq]: the id of each queue pair and its place. *)
Fixpoint fill_assign (num_workers_ rq : Z) (l : list (labstor_qid_t * labstor_queue_pair_ptr)) : M unit :=
  match l with
  | [] => mret tt
  | (qid, ptr) :: l' =>
      worker_id ← umod (labstor_qid_t_Hash qid) (u64 num_workers_);
      _ ← store32 (rq + 20) (u32 worker_id);
      _ ← store_s32 (rq + 8) (qpp_sq_off_ ptr);
      _ ← store_s32 (rq + 12) (qpp_cq_off_ ptr);
      _ ← store32 (rq + 16) (u32 (qpp_pid_ ptr));
      fill_assign num_workers_ (rq + 24) l'
  end.

Definition WorkerClient_AssignQueuePairs (num_workers_ : Z) (l : list (labstor_qid_t * labstor_queue_pair_ptr)) : NM unit :=
  let size := assign_qp_GetSize (Z.of_nat (length l)) in
  _ ← nl_mem (_ ← fill_header WORKER_MODULE_RUNTIME_ID 2;
              _ ← store32 (ne_rq ne + 16) (u32 (Z.of_nat (length l)));
              fill_assign num_workers_ (ne_rq ne + 24) l);
  netlink_call size 4.

Definition sizeof_set_worker_affinity_request : Z := 24.

Definition WorkerClient_SetAffinity (worker_id_ cpu_id : Z) : NM unit :=
  _ ← nl_mem (_ ← fill_header WORKER_MODULE_RUNTIME_ID 1;
              _ ← store_s32 (ne_rq ne + 16) worker_id_;
              store_s32 (ne_rq ne + 20) cpu_id);
  netlink_call sizeof_set_worker_affinity_request 4.
End netlink.

(** ** Sequences of known outcome *)

Lemma nl_mem_run {A B} (c : M A) (f : A → NM B) n k m a m' : c m = Ret a m' → (nl_mem c ≫= f) n k m = f a n k m'.
Proof. intros H. unfold mbind, NM_bind, nl_mem, nl_kernel, lift, mbind, KM_bind, mbind, M_bind. by rewrite H. Qed.

Lemma nl_mem_ret {A} (c : M A) n k m a m' : c m = Ret a m' → nl_mem c n k m = Ret ((a, n), k) m'.
Proof. intros H. unfold nl_mem, nl_kernel, lift, mbind, KM_bind, mbind, M_bind. by rewrite H. Qed.

Lemma nl_kernel_run {A B} (c : KM A) (f : A → NM B) n k m a k' m' :
  c k m = Ret (a, k') m' → (nl_kernel c ≫= f) n k m = f a n k' m'.
Proof. intros H. unfold mbind, NM_bind, nl_kernel, mbind, KM_bind, mbind, M_bind. by rewrite H. Qed.

Lemma nl_kernel_fault {A B} (c : KM A) (f : A → NM B) n k m : c k m = Fault → (nl_kernel c ≫= f) n k m = Fault.
Proof. intros H. unfold mbind, NM_bind, nl_kernel, mbind, KM_bind, mbind, M_bind. by rewrite H. Qed.

Lemma nl_kernel_eq {A B} (c c' : KM A) (f : A → NM B) n k m k' m' :
  c k m = c' k' m' → (nl_kernel c ≫= f) n k m = (nl_kernel c' ≫= f) n k' m'.
Proof. intros H. unfold mbind, NM_bind, nl_kernel, mbind, KM_bind, mbind, M_bind. by rewrite H. Qed.

Lemma nm_run {A B} (c : NM A) (f : A → NM B) n k m a n' k' m' :
  c n k m = Ret ((a, n'), k') m' → (c ≫= f) n k m = f a n' k' m'.
Proof. intros H. unfold mbind, NM_bind, mbind, KM_bind, mbind, M_bind. by rewrite H. Qed.

Lemma nm_fault {A B} (c : NM A) (f : A → NM B) n k m : c n k m = Fault → (c ≫= f) n k m = Fault.
Proof. intros H. unfold mbind, NM_bind, mbind, KM_bind, mbind, M_bind. by rewrite H. Qed.

Lemma nm_bind_assoc {A B C} (c : NM A) (f : A → NM B) (g : B → NM C) n k m :
  ((c ≫= f) ≫= g) n k m = (c ≫= λ a, f a ≫= g) n k m.
Proof. unfold mbind, NM_bind, mbind, KM_bind, mbind, M_bind. by destruct (c n k m) as [[[? ?] ?] ?| | |]. Qed.

Lemma lift_run {A B} (c : M A) (f : A → KM B) k m a m' : c m = Ret a m' → (lift c ≫= f) k m = f a k m'.
Proof. intros H. unfold mbind, KM_bind, lift, mbind, M_bind. by rewrite H. Qed.

(** ** Copies *)

Lemma read_shift w p q m m' :
  (∀ i, 0 <= i < Z.of_nat w → read 1 (q + i) m' = read 1 (p + i) m) → read w q m' = read w p m.
Proof.
  revert p q. induction w as [|w IH]; intros p q H; [done|].
  specialize (IH (p + 1) (q + 1)). pose proof (H 0 ltac:(lia)) as H0. rewrite !Z.add_0_r in H0.
  unfold read in *. fold read in *. rewrite IH; [lia|]. intros i Hi. replace (q + 1 + i) with (q + (i + 1)) by lia.
  replace (p + 1 + i) with (p + (i + 1)) by lia. apply H. lia.
Qed.

Lemma load_bytes_read p n m :
  valid m p (Z.of_nat n) →
  ∃ l, load_bytes p n m = Ret l m ∧ length l = n ∧ Forall (λ c, 0 <= c < 256) l ∧
    ∀ i, (i < n)%nat → l !! i = Some (read 1 (p + Z.of_nat i) m).
Proof.
  revert p. induction n as [|n IH]; intros p Hv.
  { exists []. do 2 (split; [done|]). split; [constructor|]. intros i Hi. lia. }
  destruct (IH (p + 1)) as (l & Hl & Hlen & Hr & Hlk); [apply (valid_sub _ _ _ _ _ Hv); lia|].
  exists (read 1 p m :: l). simpl.
  assert (load 1 p m = Ret (read 1 p m) m) as E by (apply wp_exact, wp_load; [apply (valid_sub _ _ _ _ _ Hv); lia|done]).
  rewrite (run_bind _ _ _ _ _ E), (run_bind _ _ _ _ _ Hl). split; [done|]. split; [by rewrite Hlen|].
  split; [constructor; [exact (read_range 1 p m)|done]|]. intros [|i] Hi; simpl; [by rewrite Z.add_0_r|].
  rewrite Hlk by lia. do 2 f_equal. lia.
Qed.

(** The destination reads as the source did. *)
Definition copied (dst src n : Z) (m m' : mem) : Prop :=
  ∀ w o, 0 <= o → o + Z.of_nat w <= n → read w (dst + o) m' = read w (src + o) m.

Lemma memcpy_spec dst src n m :
  0 <= n → valid m src n → valid m dst n →
  ∃ m', memcpy dst src n m = Ret tt m' ∧ modifies (span dst n) m m' ∧ copied dst src n m m'.
Proof.
  intros Hn Hs Hd. destruct (load_bytes_read src (Z.to_nat n) m) as (l & Hl & Hlen & Hr & Hlk); [by rewrite Z2Nat.id|].
  destruct (proj1 (wp_run _ _ _) (store_bytes_spec dst l m ltac:(rewrite Hlen, Z2Nat.id; done) Hr)) as ([] & m' & Hst & Hb & Hm).
  rewrite Hlen, Z2Nat.id in Hm by done. exists m'. unfold memcpy. rewrite (run_bind _ _ _ _ _ Hl). do 2 (split; [done|]).
  intros w o Ho Hw. apply read_shift. intros i Hi. destruct Hb as [_ Hb].
  assert (l !! Z.to_nat (o + i) = Some (read 1 (src + (o + i)) m)) as E by (rewrite Hlk by lia; do 2 f_equal; lia).
  specialize (Hb _ _ E). rewrite Z2Nat.id in Hb by lia. rewrite <-!Z.add_assoc.
  unfold read at 1. rewrite Hb. simpl. pose proof (read_range 1 (src + (o + i)) m). change (256 ^ Z.of_nat 1) with 256 in *. rewrite Z.mod_small by done. lia.
Qed.

Lemma le_bytes_length n v : length (le_bytes n v) = n.
Proof. revert v. induction n as [|n IH]; intros v; simpl; [done|]. by rewrite IH. Qed.

Lemma le_bytes_range n v : Forall (λ c, 0 <= c < 256) (le_bytes n v).
Proof. revert v. induction n as [|n IH]; intros v; simpl; constructor; [apply Z.mod_pos_bound; lia|done]. Qed.

Lemma read_le_bytes n p v m : bytes_at p (le_bytes n v) m → read n p m = v mod 256 ^ Z.of_nat n.
Proof.
  revert p v. induction n as [|n IH]; intros p v H; [by rewrite Z.mod_1_r|]. simpl in H.
  apply bytes_at_cons in H as [[_ Hp] H]. unfold read. fold read. rewrite (IH _ _ H), Hp. simpl default.
  rewrite Zmod_mod, Nat2Z.inj_succ, Z.pow_succ_r, Z.rem_mul_r by lia. done.
Qed.

(** ** One message *)

Lemma nlmsg_space_bounds size : size + 16 <= NLMSG_SPACE size < size + 20.
Proof. unfold NLMSG_SPACE, sizeof_nlmsghdr. Z.div_mod_to_equations; lia. Qed.

Section messages.
Context (ne : netlink_env) (env : kenv) (modules : module_table).

Lemma nlmsg_new_spec nlh size m :
  0 <= size → valid m nlh (NLMSG_SPACE size) →
  ∃ m', nlmsg_new ne nlh size m = Ret tt m' ∧ modifies (span nlh (NLMSG_SPACE size)) m m' ∧
    read 4 (nlh + nlmsg_pid) m' = u32 (ne_pid ne) ∧ ∀ a, nlh + 16 <= a < nlh + NLMSG_SPACE size → m' !! a = Some 0.
Proof.
  intros Hs Hv. pose proof (nlmsg_space_bounds size) as Hb. unfold nlmsg_new.
  destruct (proj1 (wp_run _ _ _) (wp_memset nlh 0 (Z.to_nat (NLMSG_SPACE size)) m ltac:(rewrite Z2Nat.id by lia; done)))
    as ([] & m1 & H1 & M1 & Hz). rewrite Z2Nat.id in M1, Hz by lia. rewrite (run_bind _ _ _ _ _ H1).
  assert (valid m1 nlh (NLMSG_SPACE size)) as Hv1 by (by eapply valid_modifies).
  set (w := NLMSG_SPACE size) in *. assert (valid m1 nlh 16) as Hv2 by (apply (valid_sub _ _ _ _ _ Hv1); lia).
  exists (write 2 (nlh + nlmsg_flags) 0 (write 4 (nlh + nlmsg_pid) (u32 (ne_pid ne)) (write 4 (nlh + nlmsg_len) (u32 w) m1))).
  split; [apply wp_exact; wp_go; done|]. split.
  { repeat (apply modifies_then_write; [|vsolve|autounfold with layout; unfold span; simpl; intros; lia]). done. }
  split; [rewrite read_write_other by (autounfold with layout; simpl; lia); rewrite read32_write; apply u32_idemp|].
  intros a Ha. rewrite !lookup_write. autounfold with layout. simpl. rewrite !decide_False by lia. apply Hz. lia.
Qed.

(** The kernel serves a copy of the request, and knows who sent it. *)
Lemma send_run {B} rq size (f : bool → NM B) n k m :
  ne_sendto ne = true → - 2 ^ 31 <= ne_pid ne < 2 ^ 31 → 0 <= size →
  valid m rq size → valid m (ne_send_nlh ne) (NLMSG_SPACE size) → valid m (ne_skb_data ne) (NLMSG_SPACE size) →
  (∀ a, span rq size a → ¬ span (ne_send_nlh ne) (NLMSG_SPACE size) a) →
  ∃ m', (NetlinkClient_SendMSG ne env modules rq size ≫= f) n k m =
          (nl_kernel (server_loop env modules (ne_pid ne) (NLMSG_DATA (ne_skb_data ne))) ≫= λ _, f true) n k m' ∧
    copied (NLMSG_DATA (ne_skb_data ne)) rq size m m' ∧
    modifies (both (span (ne_send_nlh ne) (NLMSG_SPACE size)) (span (ne_skb_data ne) (NLMSG_SPACE size))) m m'.
Proof.
  intros Hsend Hpid Hs Hrq Hnlh Hskb Hapart. pose proof (nlmsg_space_bounds size) as Hb.
  destruct (nlmsg_new_spec _ _ _ Hs Hnlh) as (m1 & H1 & M1 & Hp1 & _).
  destruct (memcpy_spec (NLMSG_DATA (ne_send_nlh ne)) rq size m1) as (m2 & H2 & M2 & C2);
    [done|by eapply valid_modifies|eapply valid_modifies; [exact M1|unfold NLMSG_DATA, sizeof_nlmsghdr; apply (valid_sub _ _ _ _ _ Hnlh); lia]|].
  destruct (memcpy_spec (ne_skb_data ne) (ne_send_nlh ne) (NLMSG_SPACE size) m2) as (m3 & H3 & M3 & C3);
    [lia|eapply valid_modifies; [exact M2|]; by eapply valid_modifies|eapply valid_modifies; [exact M2|]; by eapply valid_modifies|].
  exists m3. split; [|split].
  - assert (load_s32 (ne_skb_data ne + nlmsg_pid) m3 = Ret (ne_pid ne) m3) as Hpid3.
    { apply wp_exact, wp_load_s32.
      { eapply valid_modifies; [exact M3|]. eapply valid_modifies; [exact M2|]. eapply valid_modifies; [exact M1|].
        apply (valid_sub _ _ _ _ _ Hskb); autounfold with layout; lia. }
      split; [|done]. rewrite (C3 4%nat nlmsg_pid) by (autounfold with layout; simpl; lia).
      rewrite (read_modifies _ _ _ _ _ M2), Hp1.
      - unfold u32. by apply s32_of_bits.
      - intros a Ha. unfold span, NLMSG_DATA. autounfold with layout in *. simpl in *. lia. }
    unfold NetlinkClient_SendMSG. cbv zeta. rewrite nm_bind_assoc, (nl_mem_run _ _ _ _ _ _ _ H1), nm_bind_assoc, (nl_mem_run _ _ _ _ _ _ _ H2), Hsend.
    rewrite nm_bind_assoc. apply nl_kernel_eq. unfold netlink_input.
    by rewrite (lift_run _ _ _ _ _ _ H3), (lift_run _ _ _ _ _ _ Hpid3).
  - intros w o Ho Hw. unfold NLMSG_DATA in *. unfold sizeof_nlmsghdr in *.
    rewrite <-Z.add_assoc, (C3 w (16 + o)) by lia. rewrite Z.add_assoc, (C2 w o) by lia.
    apply (read_modifies _ _ _ _ _ M1). intros a Ha. apply Hapart. unfold span. lia.
  - eapply modifies_trans; [eapply modifies_weaken; [exact M1|by left]|].
    eapply modifies_trans; [eapply modifies_weaken; [exact M2|]|eapply modifies_weaken; [exact M3|by right]].
    intros a Ha. left. unfold span, NLMSG_DATA, sizeof_nlmsghdr in *. lia.
Qed.

(** What is received: the answer as a number, zero where it was shorter. *)
Definition reply_value (r : reply) : Z := match r with RCode code => s32_bits code | RPointer p => u64 p end.

Lemma le_bytes_lookup w v i : (i < w)%nat → le_bytes w v !! i = Some (v / 256 ^ Z.of_nat i mod 256).
Proof.
  revert v i. induction w as [|w IH]; intros v i Hi; [lia|]. destruct i as [|i]; simpl; [by rewrite Z.div_1_r|].
  rewrite IH by lia. rewrite Z.div_div by lia. rewrite <-Z.pow_succ_r, <-Nat2Z.inj_succ by lia. done.
Qed.

Lemma reply_bytes_lookup r i c :
  reply_bytes r !! i = Some c → c = reply_value r / 256 ^ Z.of_nat i mod 256.
Proof.
  intros H. pose proof (lookup_lt_Some _ _ _ H) as Hl.
  destruct r; cbn [reply_bytes reply_value] in *; rewrite le_bytes_length in Hl; rewrite le_bytes_lookup in H by done; by injection H as <-.
Qed.

Lemma reply_value_bound r : 0 <= reply_value r < 256 ^ Z.of_nat (length (reply_bytes r)).
Proof. destruct r; cbn [reply_value reply_bytes]; rewrite le_bytes_length; [apply s32_bits_range|]. unfold u64. apply Z.mod_pos_bound. done. Qed.

Lemma netlink_output_spec nlh w r m :
  16 <= w → valid m nlh w → (∀ a, nlh + 16 <= a < nlh + w → m !! a = Some 0) →
  ∃ m', netlink_output nlh w r m = Ret tt m' ∧ modifies (span nlh w) m m' ∧
    ∀ i, 0 <= i < w - 16 → m' !! (nlh + 16 + i) = Some (reply_value r / 256 ^ i mod 256).
Proof.
  intros Hw Hv Hz. assert (valid m nlh 16) as Hv2 by (apply (valid_sub _ _ _ _ _ Hv); lia).
  unfold netlink_output. set (bytes := take (Z.to_nat (w - sizeof_nlmsghdr)) (reply_bytes r)).
  set (m1 := write 4 (nlh + nlmsg_pid) 0 (write 4 (nlh + nlmsg_seq) 0 (write 2 (nlh + nlmsg_flags) 0
               (write 2 (nlh + nlmsg_type) NLMSG_DONE (write 4 (nlh + nlmsg_len) (sizeof_nlmsghdr + Z.of_nat (length (reply_bytes r))) m))))).
  assert (modifies (span nlh 16) m m1) as M1 by (unfold m1; msolve).
  assert (Z.of_nat (length bytes) <= w - 16) as Hlen by (unfold bytes, sizeof_nlmsghdr; rewrite length_take; lia).
  destruct (proj1 (wp_run _ _ _) (store_bytes_spec (NLMSG_DATA nlh) bytes m1
    ltac:(eapply valid_modifies; [exact M1|]; unfold NLMSG_DATA, sizeof_nlmsghdr; apply (valid_sub _ _ _ _ _ Hv); lia)
    ltac:(apply Forall_take; destruct r; apply le_bytes_range))) as ([] & m2 & H2 & [_ Hb] & M2).
  exists m2. split; [|split].
  - apply wp_exact. wp_go. fold m1. apply wp_run. by exists tt, m2.
  - eapply modifies_trans; [eapply modifies_weaken; [exact M1|]|eapply modifies_weaken; [exact M2|]];
      unfold span, NLMSG_DATA, sizeof_nlmsghdr; intros; lia.
  - intros i Hi. destruct (bytes !! Z.to_nat i) as [c|] eqn:E.
    + pose proof (Hb _ _ E) as Hc. unfold bytes in E. apply lookup_take_Some in E as [E _]. rewrite <-(Z2Nat.id i) by lia. rewrite <-(reply_bytes_lookup _ _ _ E). exact Hc.
    + apply lookup_ge_None in E. destruct (M2 (nlh + 16 + i)) as [_ ->]; [|unfold span, NLMSG_DATA, sizeof_nlmsghdr; lia].
      destruct (M1 (nlh + 16 + i)) as [_ ->]; [|unfold span; lia]. rewrite Hz by lia. f_equal.
      pose proof (reply_value_bound r) as Hr. rewrite Z.div_small; [done|]. split; [lia|]. eapply Z.lt_le_trans; [apply Hr|].
      apply Z.pow_le_mono_r; [lia|]. unfold bytes, sizeof_nlmsghdr in E. rewrite length_take in E. lia.
Qed.

Lemma recv_run {B} buf len r (f : bool → NM B) n k m :
  ne_recvfrom ne = true → 0 <= len → valid m buf len → valid m (ne_recv_nlh ne) (NLMSG_SPACE len) →
  inbox (ne_pid ne) k !! n = Some r →
  ∃ m', (NetlinkClient_RecvMSG ne buf len ≫= f) n k m = f true (S n) k m' ∧
    read (Z.to_nat len) buf m' = reply_value r mod 256 ^ len ∧
    modifies (both (span (ne_recv_nlh ne) (NLMSG_SPACE len)) (span buf len)) m m'.
Proof.
  intros Hrecv Hl Hbuf Hnlh Hin. pose proof (nlmsg_space_bounds len) as Hb. set (w := NLMSG_SPACE len) in *. set (nlh := ne_recv_nlh ne) in *.
  destruct (nlmsg_new_spec nlh len m Hl Hnlh) as (m1 & H1 & M1 & _ & Hz). fold w in M1, Hz.
  destruct (netlink_output_spec nlh w r m1) as (m2 & H2 & M2 & D2); [lia|by eapply valid_modifies|done|].
  destruct (memcpy_spec buf (NLMSG_DATA nlh) len m2) as (m3 & H3 & M3 & C3); [done|..].
  { unfold NLMSG_DATA, sizeof_nlmsghdr. eapply valid_modifies; [exact M2|]. eapply valid_modifies; [exact M1|]. apply (valid_sub _ _ _ _ _ Hnlh); lia. }
  { eapply valid_modifies; [exact M2|]. by eapply valid_modifies. }
  exists m3. split; [|split].
  - unfold NetlinkClient_RecvMSG. fold nlh. rewrite nm_bind_assoc, (nl_mem_run _ _ _ _ _ _ _ H1), Hrecv.
    unfold recv_answer. fold nlh w. unfold mbind at 1, NM_bind at 1, mbind at 1, KM_bind at 1, mbind at 1, M_bind at 1. cbn [k_get].
    unfold k_get, mbind at 1, KM_bind at 1, mbind at 1, M_bind at 1, mret at 1, M_ret at 1. cbn. rewrite Hin.
    rewrite (lift_run _ _ _ _ _ _ H2), (lift_run _ _ _ _ _ _ H3). done.
  - pose proof (C3 (Z.to_nat len) 0 ltac:(lia) ltac:(lia)) as E. rewrite !Z.add_0_r in E. rewrite E.
    rewrite <-(Z2Nat.id len) at 2 by done. apply read_bytes. intros a Ha. unfold NLMSG_DATA, sizeof_nlmsghdr in *.
    rewrite <-D2 by lia. f_equal. lia.
  - eapply modifies_trans; [eapply modifies_weaken; [exact M1|by left]|].
    eapply modifies_trans; [eapply modifies_weaken; [exact M2|by left]|eapply modifies_weaken; [exact M3|by right]].
Qed.
End messages.

(** ** The calls of the shared-memory client *)

Inductive shmem_call :=
| CreateShmem (region_size : Z) (user_owned : bool)
| GrantPidShmem (pid region_id : Z)
| FreeShmem (region_id : Z).

Definition call_request (c : shmem_call) : secure_shmem_request :=
  match c with
  | CreateShmem size user_owned => RESERVE_SHMEM size user_owned
  | GrantPidShmem pid region_id => GRANT_PID_SHMEM pid region_id
  | FreeShmem region_id => FREE_SHMEM region_id
  end.

(** The arguments have the types of the parameters. *)
Definition call_typed (c : shmem_call) : Prop :=
  match c with
  | CreateShmem size _ => 0 <= size < 2 ^ 64
  | GrantPidShmem pid region_id => - 2 ^ 31 <= pid < 2 ^ 31 ∧ - 2 ^ 31 <= region_id < 2 ^ 31
  | FreeShmem region_id => - 2 ^ 31 <= region_id < 2 ^ 31
  end.

Definition shmem_client (ne : netlink_env) (env : kenv) (modules : module_table) (c : shmem_call) : NM Z :=
  match c with
  | CreateShmem size user_owned => ShmemClient_CreateShmem ne env modules size user_owned
  | GrantPidShmem pid region_id => ShmemClient_GrantPidShmem ne env modules pid region_id
  | FreeShmem region_id => ShmemClient_FreeShmem ne env modules region_id
  end.

(** The request in memory. *)
Definition fill_call (ne : netlink_env) (c : shmem_call) : M unit :=
  match c with
  | CreateShmem size user_owned =>
      _ ← fill_header ne SHMEM_MODULE_RUNTIME_ID 0;
      _ ← store64 (ne_rq ne + 16) size;
      store8 (ne_rq ne + 24) (Z.b2z user_owned)
  | GrantPidShmem pid region_id =>
      _ ← fill_header ne SHMEM_MODULE_RUNTIME_ID 1;
      _ ← store_s32 (ne_rq ne + 20) region_id;
      store_s32 (ne_rq ne + 16) pid
  | FreeShmem region_id =>
      _ ← fill_header ne SHMEM_MODULE_RUNTIME_ID 2;
      store_s32 (ne_rq ne + 20) region_id
  end.

Lemma shmem_client_shape ne env modules c :
  shmem_client ne env modules c =
    (_ ← nl_mem (fill_call ne c); _ ← netlink_call ne env modules sizeof_secure_shmem_request 4; nl_mem (load_s32 (ne_code ne))).
Proof. by destruct c. Qed.

Lemma fill_call_spec ne c m :
  valid m (ne_rq ne) 32 → call_typed c →
  ∃ m1, fill_call ne c m = Ret tt m1 ∧ modifies (span (ne_rq ne) 32) m m1 ∧
    ∀ q m2, copied q (ne_rq ne) 32 m1 m2 → valid m2 q 32 →
      s32 (read 4 (q + rq_ns_id_) m2) = SHMEM_MODULE_RUNTIME_ID ∧ decode_shmem_request q m2 = Ret (call_request c) m2.
Proof.
  intros Hv Ht. set (rq := ne_rq ne) in *.
  assert (∃ m1, wp (fill_call ne c) (λ _ m', m' = m1) m ∧ modifies (span rq 32) m m1 ∧
            read 4 (rq + 4) m1 = SHMEM_MODULE_RUNTIME_ID ∧
            match c with
            | CreateShmem size uo => read 2 (rq + 12) m1 = 0 ∧ read 8 (rq + 16) m1 = size ∧ read 1 (rq + 24) m1 = Z.b2z uo
            | GrantPidShmem pid id => read 2 (rq + 12) m1 = 1 ∧ s32 (read 4 (rq + 16) m1) = pid ∧ s32 (read 4 (rq + 20) m1) = id
            | FreeShmem id => read 2 (rq + 12) m1 = 2 ∧ s32 (read 4 (rq + 20) m1) = id
            end) as (m1 & Hfill & Hmod & Hns & Hc).
  { destruct c as [size uo|pid id|id]; simpl in Ht; eexists; (split; [unfold fill_call, fill_header; fold rq; wp_go; reflexivity|]);
      (split; [autounfold with layout; msolve|]); autounfold with layout; mem_simpl; (split; [done|]).
    - split; [done|]. split; [done|]. by destruct uo.
    - rewrite !(u32_small (s32_bits _)) by apply s32_bits_range. rewrite !s32_of_bits by lia. done.
    - rewrite !(u32_small (s32_bits _)) by apply s32_bits_range. rewrite !s32_of_bits by lia. done. }
  exists m1. split; [|split].
  - apply wp_run in Hfill as ([] & ? & H & ->). done.
  - done.
  - intros q m2 Hcopy Hv2. split.
    + autounfold with layout. by rewrite (Hcopy 4%nat 4), Hns by (simpl; lia).
    + apply wp_exact. unfold decode_shmem_request. wp_step. wp_step. autounfold with layout.
      rewrite (Hcopy 2%nat 12) by (simpl; lia). destruct c as [size uo|pid id|id].
      * destruct Hc as (-> & Hs & Hu). cbn [Z.eqb]. wp_go. rewrite (Hcopy 8%nat 16), (Hcopy 1%nat 24), Hs, Hu by (simpl; lia). by destruct uo.
      * destruct Hc as (-> & Hp & Hi). cbn [Z.eqb Pos.eqb]. wp_go. rewrite (Hcopy 4%nat 16), (Hcopy 4%nat 20), Hp, Hi by (simpl; lia). done.
      * destruct Hc as (-> & Hi). cbn [Z.eqb Pos.eqb]. wp_go. rewrite (Hcopy 4%nat 20), Hi by (simpl; lia). done.
Qed.

(** The kernel after a request, with what it sent. *)
Definition after_request (k : kstate) (s : shmem_state) (sent : list (Z * reply)) : kstate :=
  {| k_shmem := s; k_ipc_manager_ := k_ipc_manager_ k; k_workers := k_workers k; k_num_workers := k_num_workers k;
     k_keep_running := k_keep_running k; k_shmem_region_id := k_shmem_region_id k; k_shmem_region := k_shmem_region k;
     k_bdevs := k_bdevs k; k_sent := sent ++ k_sent k |}.

Lemma inbox_after k s pid code : inbox pid (after_request k s [(pid, RCode code)]) = inbox pid k ++ [RCode code].
Proof. unfold inbox. cbn [after_request k_sent app]. rewrite filter_cons_True by done. cbn [rev]. by rewrite fmap_app. Qed.

Lemma server_loop_shmem fuel env fresh pid rq k m req :
  s32 (read 4 (rq + rq_ns_id_) m) = SHMEM_MODULE_RUNTIME_ID → valid m rq 32 → decode_shmem_request rq m = Ret req m →
  server_loop env (kernel_modules fuel env fresh) pid rq k m =
    match shmem_process_request_fn_netlink (ke_page_size env) (ke_alloc env) req (k_shmem k) with
    | Some (code, s) => Ret (tt, after_request k s (if ke_skb env then [(pid, RCode code)] else [])) m
    | None => Fault
    end.
Proof.
  intros Hns Hv Hdec. unfold server_loop.
  assert (load 4 (rq + rq_ns_id_) m = Ret (read 4 (rq + rq_ns_id_) m) m) as E by (apply wp_exact; wp_step; done).
  rewrite (lift_run _ _ _ _ _ _ E), Hns, kernel_modules_lookup. rewrite decide_False, decide_True by done.
  cbn [lm_process_request_fn_netlink shmem_module]. unfold shmem_netlink.
  rewrite (lift_run _ _ _ _ _ _ Hdec). unfold k_shmem_op, labstor_msg_trusted_server, mbind, KM_bind.
  destruct (shmem_process_request_fn_netlink _ _ _ _) as [[code s]|]; [|done].
  unfold mbind, M_bind, mret, M_ret. simpl. by destruct (ke_skb env).
Qed.

(** The process, its buffers and its arguments. *)
Record client_ready (ne : netlink_env) (m : mem) : Prop := {
  nr_calls : ne_sendto ne = true ∧ ne_recvfrom ne = true;
  nr_pid : - 2 ^ 31 <= ne_pid ne < 2 ^ 31;
  nr_rq : valid m (ne_rq ne) 32;
  nr_code : valid m (ne_code ne) 4;
  nr_send : valid m (ne_send_nlh ne) 48;
  nr_skb : valid m (ne_skb_data ne) 48;
  nr_recv : valid m (ne_recv_nlh ne) 20;
  nr_apart : ∀ a, span (ne_rq ne) 32 a → ¬ span (ne_send_nlh ne) 48 a
}.

Lemma client_ready_modifies ne P m m' : modifies P m m' → client_ready ne m → client_ready ne m'.
Proof. intros Hm []. split; try done; by eapply valid_modifies. Qed.

(** A call up to the kernel's answer: what is left is to receive it. *)
Definition receive_code (ne : netlink_env) : NM Z :=
  _ ← NetlinkClient_RecvMSG ne (ne_code ne) 4; nl_mem (load_s32 (ne_code ne)).

Lemma shmem_client_sent ne fuel env fresh c n k m :
  client_ready ne m → call_typed c →
  ∃ m2, client_ready ne m2 ∧ shmem_client ne env (kernel_modules fuel env fresh) c n k m =
    match shmem_process_request_fn_netlink (ke_page_size env) (ke_alloc env) (call_request c) (k_shmem k) with
    | Some (code, s) => receive_code ne n (after_request k s (if ke_skb env then [(ne_pid ne, RCode code)] else [])) m2
    | None => Fault
    end.
Proof.
  intros Hr Ht. pose proof Hr as []. rewrite shmem_client_shape.
  destruct (fill_call_spec ne c m nr_rq0 Ht) as (m1 & H1 & M1 & Hdec). rewrite (nl_mem_run _ _ _ _ _ _ _ H1).
  pose proof (client_ready_modifies _ _ _ _ M1 Hr) as []. unfold netlink_call. rewrite nm_bind_assoc.
  destruct (send_run ne env (kernel_modules fuel env fresh) (ne_rq ne) sizeof_secure_shmem_request
    (λ _, (NetlinkClient_RecvMSG ne (ne_code ne) 4 ≫= λ _, mret ()) ≫= λ _, nl_mem (load_s32 (ne_code ne))) n k m1)
    as (m2 & -> & Hcopy & M2); [apply nr_calls0|done|done|done|done|done|done|].
  assert (client_ready ne m2) as Hr2 by (eapply client_ready_modifies; [exact M2|]; by eapply client_ready_modifies).
  exists m2. split; [done|]. assert (valid m2 (NLMSG_DATA (ne_skb_data ne)) 32) as Hv2.
  { unfold NLMSG_DATA, sizeof_nlmsghdr. apply (valid_sub _ _ _ _ _ (nr_skb _ _ Hr2)); lia. }
  destruct (Hdec _ m2 Hcopy Hv2) as [Hns Hreq].
  pose proof (server_loop_shmem fuel env fresh (ne_pid ne) _ k m2 (call_request c) Hns Hv2 Hreq) as Hserve.
  destruct (shmem_process_request_fn_netlink _ _ _ _) as [[code s]|]; [|by apply nl_kernel_fault].
  by rewrite (nl_kernel_run _ _ _ _ _ _ _ _ Hserve), nm_bind_assoc.
Qed.

Lemma receive_code_run ne code n k m :
  client_ready ne m → - 2 ^ 31 <= code < 2 ^ 31 → inbox (ne_pid ne) k !! n = Some (RCode code) →
  ∃ m', receive_code ne n k m = Ret ((code, S n), k) m' ∧ client_ready ne m'.
Proof.
  intros Hr Hcode Hin.
  destruct (recv_run ne (ne_code ne) 4 (RCode code) (λ _, nl_mem (load_s32 (ne_code ne))) n k m)
    as (m3 & E3 & Hread & M3); [apply Hr|done|apply Hr|apply Hr|done|].
  assert (client_ready ne m3) as Hr3 by (by eapply client_ready_modifies). exists m3. split; [|done].
  assert (load_s32 (ne_code ne) m3 = Ret code m3) as E.
  { apply wp_exact, wp_load_s32; [apply Hr3|]. split; [|done]. change 4%nat with (Z.to_nat 4). rewrite Hread. cbn [reply_value].
    rewrite Z.mod_small by apply s32_bits_range. by apply s32_of_bits. }
  unfold receive_code. rewrite E3. by apply nl_mem_ret.
Qed.

(** ** Sequences of calls *)

(** [l]: the kernel in which each call is served, and the call. *)
Fixpoint shmem_calls (ne : netlink_env) (fuel : nat) (fresh : labstor_work_queue) (l : list (kenv * shmem_call)) : NM (list Z) :=
  match l with
  | [] => mret []
  | (env, c) :: l' =>
      code ← shmem_client ne env (kernel_modules fuel env fresh) c;
      codes ← shmem_calls ne fuel fresh l';
      mret (code :: codes)
  end.

Fixpoint spec_calls (PAGE_SIZE : Z) (st : shmem_abs) (l : list (kenv * shmem_call)) : option (list Z * shmem_abs) :=
  match l with
  | [] => Some ([], st)
  | (env, c) :: l' =>
      match shmem_spec_step PAGE_SIZE (ke_alloc env) st (call_request c) with
      | Some (st', code) =>
          match spec_calls PAGE_SIZE st' l' with Some (codes, st'') => Some (code :: codes, st'') | None => None end
      | None => None
      end
  end.

(** The kernel's memory for new region objects, one address per call, and it
    has the buffers for the answers. *)
Definition kernel_ok (PAGE_SIZE : Z) (x : kenv * shmem_call) : Prop :=
  ke_page_size x.1 = PAGE_SIZE ∧ ke_skb x.1 = true ∧ (∀ p, ae_data (ke_alloc x.1) = Some p → p ≠ 0) ∧ call_typed x.2.

Definition kernel_objects (l : list (kenv * shmem_call)) : list Z := omap (λ x, ae_info (ke_alloc x.1)) l.

Lemma spec_step_code PAGE_SIZE env st rq st' code :
  shmem_spec_step PAGE_SIZE env st rq = Some (st', code) → 0 < sa_next st → code = -1 ∨ code = 0 ∨ code = sa_next st.
Proof. intros H Hn. destruct rq; simpl in H; repeat case_match; simplify_eq; simpl; lia. Qed.

Lemma spec_step_next_le PAGE_SIZE env st rq st' code :
  shmem_spec_step PAGE_SIZE env st rq = Some (st', code) → sa_next st' <= sa_next st + 1.
Proof. intros H. destruct rq; simpl in H; repeat case_match; simplify_eq; simpl; lia. Qed.

(** No request adds a region object but the one that the kernel allocated for it. *)
Lemma find_region_state id l s r s' : find_region_in l id s = Some (r, s') → s' = s.
Proof.
  induction l as [|p l IH]; simpl; [by intros [= _ <-]|]. unfold deref_region, mbind, SM_bind.
  destruct (ss_heap s !! p); [|done]. destruct (_ =? _); [by intros [= _ <-]|done].
Qed.

Lemma drop_pid_state id l s r s' : drop_pid_regions l id s = Some (r, s') → s' = s.
Proof.
  revert r. induction l as [|p l IH]; simpl; intros r; [by intros [= _ <-]|]. unfold deref_region, mbind, SM_bind.
  destruct (ss_heap s !! spr_region p); [|done]. destruct (drop_pid_regions l id s) as [[r1 s1]|]; [|done]. intros [= _ <-]. by eapply IH.
Qed.

Lemma process_heap PAGE_SIZE env rq s code s' p :
  shmem_process_request_fn_netlink PAGE_SIZE env rq s = Some (code, s') → is_Some (ss_heap s' !! p) →
  is_Some (ss_heap s !! p) ∨ ae_info env = Some p.
Proof.
  intros H Hp. destruct rq as [size uo|pid id|id|]; cbn [shmem_process_request_fn_netlink] in H;
    [unfold mbind at 1, SM_bind at 1 in H..|].
  - unfold reserve_shmem in H. rewrite with_lock_run in H. unfold reserve_shmem_nolock, mbind, SM_bind, sm_get, sm_put, mret, SM_ret in H.
    destruct (ae_info env) as [q|]; simpl in H; [destruct (ae_data env)|]; simplify_eq/=; [|by left..].
    destruct (decide (q = p)) as [->|Hne]; [by right|]. rewrite lookup_insert_ne in Hp by done. by left.
  - unfold grant_pid_shmem in H. rewrite with_lock_run in H. unfold grant_pid_shmem_nolock in H.
    unfold find_shmem_region_nolock, mbind, SM_bind, sm_get, sm_put, mret, SM_ret in H. simpl in H.
    destruct (ae_info env); [|injection H as <- <-; by left].
    destruct (find_region_in _ _ _) as [[r s1]|] eqn:E; [|done]. apply find_region_state in E as ->.
    destruct r; simplify_eq/=; by left.
  - unfold free_shmem_region_by_id in H. rewrite with_lock_run in H. unfold free_shmem_region_by_id_nolock in H.
    unfold find_shmem_region_nolock, mbind, SM_bind, sm_get, sm_put, mret, SM_ret in H. simpl in H.
    destruct (find_region_in _ _ _) as [[r s1]|] eqn:E; [|done]. apply find_region_state in E as ->.
    destruct r as [q|]; [|simplify_eq/=; by left]. destruct (drop_pid_regions _ _ _) as [[l s2]|] eqn:E2; [|done].
    apply drop_pid_state in E2 as ->. simplify_eq/=. apply lookup_delete_is_Some in Hp as [_ ?]. by left.
  - injection H as <- <-. by left.
Qed.

(** C40. The shared-memory client over netlink implements the specification of
    the module.  A sequence of calls, each written into a request, copied into a
    message, copied by the kernel, dispatched, decoded and processed, its answer
    copied back and read, returns to the process the codes of the
    specification, in order, and leaves the module in its state; a sequence is
    undefined exactly when it frees a region for which there is a permission.
    (The kernel gives unused memory for its objects, has memory for the
    answers, and hands out fewer than 2^31 - 1 ids.) *)
Theorem netlink_shmem_refines ne fuel fresh PAGE_SIZE l st k m :
  client_ready ne m → shmem_rel st (k_shmem k) → 0 < sa_next st → sa_next st + Z.of_nat (length l) < 2 ^ 31 →
  Forall (kernel_ok PAGE_SIZE) l → NoDup (kernel_objects l) → (∀ p, p ∈ kernel_objects l → ss_heap (k_shmem k) !! p = None) →
  let n := length (inbox (ne_pid ne) k) in
  match spec_calls PAGE_SIZE st l with
  | Some (codes, st') => ∃ n' k' m', shmem_calls ne fuel fresh l n k m = Ret ((codes, n'), k') m' ∧
      shmem_rel st' (k_shmem k') ∧ client_ready ne m' ∧ n' = length (inbox (ne_pid ne) k') ∧
      inbox (ne_pid ne) k' = inbox (ne_pid ne) k ++ (RCode <$> codes)
  | None => shmem_calls ne fuel fresh l n k m = Fault
  end.
Proof.
  revert st k m. induction l as [|[env c] l IH]; intros st k m Hr Hrel Hpos Hids Hok Hnd Hfresh n; cbn [shmem_calls spec_calls].
  { exists n, k, m. rewrite app_nil_r. done. }
  apply Forall_cons in Hok as [(Hpage & Hskb & Hdata & Ht) Hok]. cbn [length] in Hids.
  assert (env_fresh (ke_alloc env) (k_shmem k)) as Hef.
  { split; [|done]. intros p Hp. apply Hfresh. unfold kernel_objects. simpl in *. rewrite Hp. by left. }
  pose proof (shmem_step_agrees PAGE_SIZE (ke_alloc env) st (k_shmem k) (call_request c) Hrel ltac:(lia) Hef) as Hag.
  destruct (shmem_client_sent ne fuel env fresh c n k m Hr Ht) as (m2 & Hr2 & Hrun). simpl in Hpage, Hskb. rewrite Hpage, Hskb in Hrun.
  unfold step_agrees in Hag. destruct (shmem_spec_step PAGE_SIZE (ke_alloc env) st (call_request c)) as [[st1 code]|] eqn:Espec.
  2:{ rewrite Hag in Hrun. by apply nm_fault. }
  destruct Hag as (s1 & Hproc & Hrel1). rewrite Hproc in Hrun. pose proof (spec_step_code _ _ _ _ _ _ Espec Hpos).
  set (k1 := after_request k s1 [(ne_pid ne, RCode code)]) in *.
  destruct (receive_code_run ne code n k1 m2 Hr2 ltac:(lia)) as (m1 & Hm1 & Hr1); [by unfold k1; rewrite inbox_after, list_lookup_middle|].
  rewrite Hm1 in Hrun.
  pose proof (spec_step_next _ _ _ _ _ _ Espec Hpos). pose proof (spec_step_next_le _ _ _ _ _ _ Espec).
  assert (S n = length (inbox (ne_pid ne) k1)) as En by (unfold k1; rewrite inbox_after, length_app; simpl; unfold n; lia).
  assert (NoDup (kernel_objects l) ∧ ∀ p, p ∈ kernel_objects l → ae_info (ke_alloc env) ≠ Some p ∧ ss_heap (k_shmem k) !! p = None) as [Hnd' Hfr'].
  { unfold kernel_objects in *. simpl in Hnd, Hfresh. destruct (ae_info (ke_alloc env)) as [q|]; [apply NoDup_cons in Hnd as [Hq Hnd]|].
    - split; [done|]. intros p Hp. split; [intros [= ->]; done|apply Hfresh; by right].
    - split; [done|]. intros p Hp. split; [done|by apply Hfresh]. }
  specialize (IH st1 k1 m1 Hr1 Hrel1 ltac:(lia) ltac:(lia) Hok Hnd'). cbv zeta in IH. rewrite <-En in IH.
  assert (∀ p, p ∈ kernel_objects l → ss_heap (k_shmem k1) !! p = None) as Hf1.
  { intros p Hp. destruct (Hfr' p Hp) as [Hi Hh]. destruct (ss_heap (k_shmem k1) !! p) eqn:E; [|done].
    destruct (process_heap _ _ _ _ _ _ p Hproc) as [[? ?]|?]; [eauto|congruence|congruence]. }
  specialize (IH Hf1). rewrite (nm_run _ _ _ _ _ _ _ _ _ Hrun).
  destruct (spec_calls PAGE_SIZE st1 l) as [[codes st']|]; [|by apply nm_fault].
  destruct IH as (n' & k' & m' & Hrest & ? & ? & ? & Hin). exists n', k', m'. rewrite (nm_run _ _ _ _ _ _ _ _ _ Hrest).
  split; [done|]. do 3 (split; [done|]). rewrite Hin. unfold k1. by rewrite inbox_after, <-app_assoc.
Qed.

(** A process with buffers from 4096, the kernel's copies at 8192, two regions,
    a permission for the second. *)
Definition ex_netlink : netlink_env :=
  {| ne_pid := 77; ne_send_nlh := 4096; ne_recv_nlh := 4160; ne_skb_data := 8192; ne_rq := 4224; ne_code := 4288;
     ne_sendto := true; ne_recvfrom := true |}.
Definition ex_kernel (info : Z) : kenv :=
  {| ke_page_size := 4096; ke_alloc := {| ae_info := Some info; ae_data := Some (info * 4096) |}; ke_skb := true;
     ke_worker_mem := true; ke_blkdev_get_by_path := λ _ _, inl (-2) |}.
Definition ex_calls : list (kenv * shmem_call) :=
  [(ex_kernel 10, CreateShmem 100 true); (ex_kernel 11, CreateShmem 8192 false); (ex_kernel 12, GrantPidShmem 78 2);
   (ex_kernel 13, GrantPidShmem 78 9); (ex_kernel 14, FreeShmem 1)].
Definition ex_netlink_mem : mem := write 48 8192 0 (zero_region 4096 256).

Lemma ex_ready : client_ready ex_netlink ex_netlink_mem.
Proof.
  assert (valid ex_netlink_mem 4096 256) as Hv by (apply valid_write, (valid_zero_region 4096 256)).
  split; [done|simpl; lia|apply (valid_sub _ _ _ _ _ Hv); simpl; lia|apply (valid_sub _ _ _ _ _ Hv); simpl; lia|
    apply (valid_sub _ _ _ _ _ Hv); simpl; lia| |apply (valid_sub _ _ _ _ _ Hv); simpl; lia|unfold span; simpl; lia].
  intros a Ha. unfold ex_netlink_mem. rewrite lookup_write, decide_True by (simpl in *; lia). eauto.
Qed.

Lemma init_rel : shmem_rel shmem_abs_init shmem_init.
Proof. split; simpl; try done; try set_solver. intros p. split; [set_solver|by intros [? ?]]. Qed.

Lemma netlink_shmem_refines_witness :
  ∃ n' k' m', shmem_calls ex_netlink 1 (labstor_work_queue_Attach 0) ex_calls 0%nat ex_kstate ex_netlink_mem =
      Ret (([1; 2; 0; -1; 0], n'), k') m' ∧ inbox 77 k' = RCode <$> [1; 2; 0; -1; 0].
Proof.
  assert (fst <$> spec_calls 4096 shmem_abs_init ex_calls = Some [1; 2; 0; -1; 0]) as Hspec by (vm_compute; reflexivity).
  pose proof (netlink_shmem_refines ex_netlink 1 (labstor_work_queue_Attach 0) 4096 ex_calls shmem_abs_init ex_kstate ex_netlink_mem
    ex_ready init_rel eq_refl eq_refl ltac:(repeat constructor; simpl; try lia; by intros p [= <-])
    ltac:(apply (bool_decide_unpack _); vm_compute; exact I) (λ _ _, eq_refl)) as H.
  cbv zeta in H. change (length (inbox (ne_pid ex_netlink) ex_kstate)) with 0%nat in H. change (inbox (ne_pid ex_netlink) ex_kstate) with (@nil reply) in H.
  destruct (spec_calls 4096 shmem_abs_init ex_calls) as [[codes st']|]; [|discriminate Hspec]. injection Hspec as ->.
  destruct H as (n' & k' & m' & H & _ & _ & _ & Hin). exists n', k', m'. split; [exact H|exact Hin].
Defined.

(** ** The message of the worker client *)

(** What [Kernel.register_loop] reads for a queue pair: one of the workers, and
    the place of the pair. *)
Definition assign_at (num_workers_ rq : Z) (x : labstor_qid_t * labstor_queue_pair_ptr) (m : mem) : Prop :=
  read 4 (rq + 20) m = labstor_qid_t_Hash x.1 mod num_workers_ ∧
  s32 (read 4 (rq + 8) m) = qpp_sq_off_ x.2 ∧ s32 (read 4 (rq + 12) m) = qpp_cq_off_ x.2 ∧ read 4 (rq + 16) m = qpp_pid_ x.2.

Definition ptr_typed (ptr : labstor_queue_pair_ptr) : Prop :=
  - 2 ^ 31 <= qpp_sq_off_ ptr < 2 ^ 31 ∧ - 2 ^ 31 <= qpp_cq_off_ ptr < 2 ^ 31 ∧ 0 <= qpp_pid_ ptr < 2 ^ 32.

Lemma assign_at_agree num rq x m m' :
  (∀ a, rq <= a < rq + 24 → m' !! a = m !! a) → assign_at num rq x m → assign_at num rq x m'.
Proof. intros H (H1 & H2 & H3 & H4). unfold assign_at. rewrite !(read_ext 4 _ m m'); [done|simpl; intros; apply H; lia..]. Qed.

Lemma fill_assign_spec num rq l m :
  0 < num < 2 ^ 31 → valid m rq (24 * Z.of_nat (length l)) → Forall (λ x, ptr_typed x.2) l →
  ∃ m', fill_assign num rq l m = Ret tt m' ∧ modifies (span rq (24 * Z.of_nat (length l))) m m' ∧
    ∀ i x, l !! i = Some x → assign_at num (rq + 24 * Z.of_nat i) x m'.
Proof.
  intros Hnum. revert rq m. induction l as [|[qid ptr] l IH]; intros rq m Hv Hl.
  { exists m. split; [done|]. split; [apply modifies_refl|]. intros i x Hi. by rewrite lookup_nil in Hi. }
  apply Forall_cons in Hl as [(Hsq & Hcq & Hpid) Hl]. cbn [length fst snd] in *.
  assert (valid m rq 24) as Hv0 by (apply (valid_sub _ _ _ _ _ Hv); lia).
  set (m0 := write 4 (rq + 16) (u32 (qpp_pid_ ptr)) (write 4 (rq + 12) (s32_bits (qpp_cq_off_ ptr))
     (write 4 (rq + 8) (s32_bits (qpp_sq_off_ ptr)) (write 4 (rq + 20) (u32 (labstor_qid_t_Hash qid mod num)) m)))).
  assert (modifies (span rq 24) m m0) as M0 by (unfold m0; msolve).
  destruct (IH (rq + 24) m0) as (m' & H' & M' & Hat); [eapply valid_modifies; [exact M0|]; apply (valid_sub _ _ _ _ _ Hv); lia|done|].
  exists m'. split; [|split].
  - cbn [fill_assign]. unfold u64. rewrite (Z.mod_small num) by lia. apply wp_exact. wp_go. fold m0. apply wp_run. by exists tt, m'.
  - eapply modifies_trans; [eapply modifies_weaken; [exact M0|]|eapply modifies_weaken; [exact M'|]]; unfold span; intros; lia.
  - intros [|i] x Hi; simpl in Hi.
    + injection Hi as <-. replace (rq + 24 * Z.of_nat 0) with rq by lia. apply (assign_at_agree _ _ _ m0).
      { intros a Ha. apply M'. unfold span. lia. }
      pose proof (Z.mod_pos_bound (labstor_qid_t_Hash qid) num ltac:(lia)). unfold assign_at, m0. cbn [fst snd]. mem_simpl.
      rewrite !(u32_small (s32_bits _)) by apply s32_bits_range. rewrite !s32_of_bits by lia.
      split; [apply Z.mod_small; lia|]. do 2 (split; [done|]). by apply u32_small.
    + replace (rq + 24 * Z.of_nat (S i)) with (rq + 24 + 24 * Z.of_nat i) by lia. by apply Hat.
Qed.

(** ** Limits *)

(** When the kernel has no memory for the answer, the call waits for ever. *)
Lemma answer_lost_waits ne fuel env fresh c k code s m :
  client_ready ne m → call_typed c → ke_skb env = false →
  shmem_process_request_fn_netlink (ke_page_size env) (ke_alloc env) (call_request c) (k_shmem k) = Some (code, s) →
  ∃ m', shmem_client ne env (kernel_modules fuel env fresh) c (length (inbox (ne_pid ne) k)) k m = Spin m'.
Proof.
  intros Hr Ht Hskb Hproc. set (n := length _). destruct (shmem_client_sent ne fuel env fresh c n k m Hr Ht) as (m2 & Hr2 & ->).
  rewrite Hproc, Hskb. destruct (nlmsg_new_spec ne (ne_recv_nlh ne) 4 m2) as (m3 & H3 & _); [done|apply Hr2|]. exists m3.
  unfold receive_code, NetlinkClient_RecvMSG. rewrite nm_bind_assoc, (nl_mem_run _ _ _ _ _ _ _ H3), (proj2 (nr_calls _ _ Hr2)).
  unfold recv_answer, k_get, mbind, NM_bind, KM_bind, mbind, M_bind, mret, M_ret. cbn -[inbox lookup].
  rewrite (proj2 (lookup_ge_None (inbox (ne_pid ne) (after_request k s [])) n)); [done|]. unfold n, inbox. cbn [after_request k_sent app]. lia.
Qed.

(** A kernel without the module answers with the code -1, which the process
    takes for the address of a region. *)
Lemma register_error_is_pointer ne env modules region_id k m :
  client_ready ne m → valid m (ne_code ne) 8 → valid m (ne_recv_nlh ne) 24 → ke_skb env = true →
  get_labstor_module_by_runtime_id modules IPC_MANAGER_MODULE_RUNTIME_ID = None →
  ∃ n' k' m', IPCManager_Register ne env modules region_id (length (inbox (ne_pid ne) k)) k m = Ret ((2 ^ 32 - 1, n'), k') m'.
Proof.
  intros Hr Hc8 Hr24 Hskb Hnone. set (n := length _). unfold IPCManager_Register. pose proof Hr as [].
  assert (NLMSG_SPACE sizeof_ipc_manager_register_request = 36) as E36 by done.
  assert (∃ m1, (_ ← fill_header ne IPC_MANAGER_MODULE_RUNTIME_ID IPC_MANAGER_REGISTER; store_s32 (ne_rq ne + 16) region_id) m = Ret tt m1 ∧
            modifies (span (ne_rq ne) 32) m m1 ∧ read 4 (ne_rq ne + 4) m1 = 2) as (m1 & H1 & M1 & Hns).
  { set (rq := ne_rq ne) in *. eexists. split; [apply wp_exact; unfold fill_header; fold rq; wp_go; done|].
    split; [autounfold with layout; msolve|]. autounfold with layout. by mem_simpl. }
  rewrite (nl_mem_run _ _ _ _ _ _ _ H1). pose proof (client_ready_modifies _ _ _ _ M1 Hr) as []. unfold netlink_call. rewrite nm_bind_assoc.
  match goal with |- context [NetlinkClient_SendMSG _ _ _ _ _ ≫= ?f] =>
    destruct (send_run ne env modules (ne_rq ne) sizeof_ipc_manager_register_request f n k m1) as (m2 & -> & Hcopy & M2) end;
    [apply nr_calls0|done|done|apply (valid_sub _ _ _ _ _ nr_rq1); unfold sizeof_ipc_manager_register_request; lia
    |apply (valid_sub _ _ _ _ _ nr_send1); [lia|rewrite E36; lia]
    |apply (valid_sub _ _ _ _ _ nr_skb1); [lia|rewrite E36; lia]
    |intros a Ha Hb; apply (nr_apart0 a); rewrite E36 in Hb; unfold span, sizeof_ipc_manager_register_request in *; lia|].
  set (k1 := after_request k (k_shmem k) [(ne_pid ne, RCode (-1))]).
  assert (server_loop env modules (ne_pid ne) (NLMSG_DATA (ne_skb_data ne)) k m2 = Ret (tt, k1) m2) as Hserve.
  { unfold server_loop. assert (load 4 (NLMSG_DATA (ne_skb_data ne) + rq_ns_id_) m2 = Ret 2 m2) as E.
    { apply wp_exact, wp_load; [eapply valid_modifies; [exact M2|]; unfold NLMSG_DATA; autounfold with layout; apply (valid_sub _ _ _ _ _ nr_skb1); simpl; lia|].
      split; [|done]. autounfold with layout. by rewrite (Hcopy 4%nat 4), Hns by (unfold sizeof_ipc_manager_register_request; simpl; lia). }
    rewrite (lift_run _ _ _ _ _ _ E). change (s32 2) with IPC_MANAGER_MODULE_RUNTIME_ID. rewrite Hnone.
    unfold labstor_msg_trusted_server. by rewrite Hskb. }
  rewrite (nl_kernel_run _ _ _ _ _ _ _ _ Hserve), nm_bind_assoc.
  match goal with |- context [NetlinkClient_RecvMSG _ _ _ ≫= ?f] =>
    destruct (recv_run ne (ne_code ne) 8 (RCode (-1)) f n k1 m2) as (m3 & -> & Hread & M3) end;
    [apply nr_calls0|done|do 2 (eapply valid_modifies; [eassumption|]); done|do 2 (eapply valid_modifies; [eassumption|]); done
    |by unfold k1; rewrite inbox_after, list_lookup_middle|].
  exists (S n), k1, m3. assert (load 8 (ne_code ne) m3 = Ret (2 ^ 32 - 1) m3) as E.
  { apply wp_exact, wp_load; [do 3 (eapply valid_modifies; [eassumption|]); done|]. split; [|done]. change 8%nat with (Z.to_nat 8). by rewrite Hread. }
  rewrite (nm_run (mret ()) _ (S n) k1 m3 tt (S n) k1 m3 eq_refl), (nl_mem_run _ _ _ _ _ _ _ E). done.
Qed.
