(* ===== verification/Partitioner.v ===== *)
(** * Partitioner.v: which processors a process may use

    userspace/util/partitioner.h ([ProcessAffiner]) and the program
    util/partitioner.cpp.  A mask is a [cpu_set_t], a number of 1024 bits; the
    affinities of the processes are a map from process ids to masks, and what
    the system call answers for a process is a parameter. *)

From S2P Require Import Prelude.

Local Open Scope Z_scope.

(** ** cpu_set_t *)

Definition sizeof_cpu_set_t : Z := 128.

(** The macros convert the processor to [size_t], and do nothing beyond the
    last bit. *)
Definition CPU_SET (cpu mask : Z) : Z :=
  if u64 cpu / 8 <? sizeof_cpu_set_t then Z.setbit mask (u64 cpu) else mask.
Definition CPU_CLR (cpu mask : Z) : Z :=
  if u64 cpu / 8 <? sizeof_cpu_set_t then Z.clearbit mask (u64 cpu) else mask.
Definition CPU_ISSET (cpu mask : Z) : bool :=
  if u64 cpu / 8 <? sizeof_cpu_set_t then Z.testbit mask (u64 cpu) else false.

(** ** ProcessAffiner *)

Record ProcessAffiner := { n_cpu_ : Z; cpus_ : Z }.

Definition with_cpus (a : ProcessAffiner) (mask : Z) : ProcessAffiner := {| n_cpu_ := n_cpu_ a; cpus_ := mask |}.

Definition ProcessAffiner_new (nprocs : Z) : ProcessAffiner := {| n_cpu_ := nprocs; cpus_ := 0 |}.

Definition isdigit (digit : Z) : bool := (48 <=? digit) && (digit <=? 57).

Definition SetCpu (a : ProcessAffiner) (cpu : Z) : ProcessAffiner := with_cpus a (CPU_SET cpu (cpus_ a)).
Definition ClearCpu (a : ProcessAffiner) (cpu : Z) : ProcessAffiner := with_cpus a (CPU_CLR cpu (cpus_ a)).
Definition Clear (a : ProcessAffiner) : ProcessAffiner := with_cpus a 0.

Definition SetCpus (a : ProcessAffiner) (off len : Z) : ProcessAffiner :=
  foldl (λ a i, SetCpu a (off + i)) a (seqZ 0 len).
Definition ClearCpus (a : ProcessAffiner) (off len : Z) : ProcessAffiner :=
  foldl (λ a i, ClearCpu a (off + i)) a (seqZ 0 len).

(** A name is the characters before the terminator. *)
Definition is_pid_folder (name : list Z) : bool := forallb isdigit name.

Fixpoint atoi_digits (s : list Z) (acc : Z) : Z :=
  match s with
  | c :: s' => if isdigit c then atoi_digits s' (10 * acc + (c - 48)) else acc
  | [] => acc
  end.

(** White space, a sign, digits. *)
Fixpoint atoi (s : list Z) : Z :=
  match s with
  | [] => 0
  | c :: s' =>
      if (c =? 32) || ((9 <=? c) && (c <=? 13)) then atoi s'
      else if c =? 45 then - atoi_digits s' 0
      else if c =? 43 then atoi_digits s' 0
      else atoi_digits s 0
  end.

Section system.
Context (setaffinity_ok : Z → Z → bool).

(** [sched_setaffinity] reads [n_cpu] bytes of the mask. *)
Definition SetAffinitySafe (pid n_cpu mask : Z) (aff : gmap Z Z) : Z * gmap Z Z :=
  let m := mask mod 2 ^ (8 * n_cpu) in
  if setaffinity_ok pid m then (1, <[pid := m]> aff) else (0, aff).

Definition Affine (a : ProcessAffiner) (pid : Z) (aff : gmap Z Z) : Z * gmap Z Z :=
  SetAffinitySafe pid (n_cpu_ a) (cpus_ a) aff.

Fixpoint Affine_pids (a : ProcessAffiner) (pids : list Z) (aff : gmap Z Z) : Z * gmap Z Z :=
  match pids with
  | [] => (0, aff)
  | pid :: pids' =>
      let (n, aff') := Affine a pid aff in
      let (c, aff'') := Affine_pids a pids' aff' in (n + c, aff'')
  end.

(** The names in [/proc], [None] when it cannot be opened. *)
Fixpoint affine_entries (a : ProcessAffiner) (names : list (list Z)) (aff : gmap Z Z) : Z * gmap Z Z :=
  match names with
  | [] => (0, aff)
  | name :: names' =>
      if is_pid_folder name then
        let (n, aff') := Affine a (atoi name) aff in
        let (c, aff'') := affine_entries a names' aff' in (n + c, aff'')
      else affine_entries a names' aff
  end.

Definition AffineAll (a : ProcessAffiner) (procdir : option (list (list Z))) (aff : gmap Z Z) : Z * gmap Z Z :=
  match procdir with Some names => affine_entries a names aff | None => (0, aff) end.

(** ** partitioner.cpp *)

Definition all_name : list Z := [97; 108; 108].

(** [main] with the arguments after the name of the program; the exit code. *)
Definition partitioner_main (nprocs : Z) (args : list (list Z)) (procdir : option (list (list Z))) (aff : gmap Z Z) : Z * gmap Z Z :=
  match args with
  | who :: cores =>
      if (length cores <? 1)%nat then (1, aff)
      else
        let mask := foldl (λ a core, SetCpu a (atoi core)) (ProcessAffiner_new nprocs) cores in
        (0, if decide (who = all_name) then (AffineAll mask procdir aff).2 else (Affine mask (atoi who) aff).2)
  | [] => (1, aff)
  end.
End system.

(** ** The mask *)

Lemma cpu_set_isset cpu mask i :
  0 <= cpu < 2 ^ 31 → 0 <= i < 1024 → CPU_ISSET i (CPU_SET cpu mask) = (cpu =? i) || CPU_ISSET i mask.
Proof.
  intros Hc Hi. unfold CPU_ISSET, CPU_SET, sizeof_cpu_set_t. unfold u64. rewrite !Z.mod_small by lia.
  rewrite (proj2 (Z.ltb_lt (i / 8) 128)) by (apply Z.div_lt_upper_bound; lia).
  destruct (Z.ltb_spec (cpu / 8) 128) as [Hlt|Hge]; [by rewrite Z.setbit_eqb by lia|].
  rewrite (proj2 (Z.eqb_neq cpu i)); [done|]. intros ->. assert (i / 8 < 128) by (apply Z.div_lt_upper_bound; lia). lia.
Qed.

Lemma cpu_clr_isset cpu mask i :
  0 <= cpu < 2 ^ 31 → 0 <= i < 1024 → CPU_ISSET i (CPU_CLR cpu mask) = CPU_ISSET i mask && negb (cpu =? i).
Proof.
  intros Hc Hi. unfold CPU_ISSET, CPU_CLR, sizeof_cpu_set_t. unfold u64. rewrite !Z.mod_small by lia.
  rewrite (proj2 (Z.ltb_lt (i / 8) 128)) by (apply Z.div_lt_upper_bound; lia).
  destruct (Z.ltb_spec (cpu / 8) 128) as [Hlt|Hge]; [by rewrite Z.clearbit_eqb by lia|].
  rewrite (proj2 (Z.eqb_neq cpu i)); [by rewrite andb_true_r|]. intros ->. assert (i / 8 < 128) by (apply Z.div_lt_upper_bound; lia). lia.
Qed.

(** The processors of a range, and no other, are added and removed. *)
Lemma set_clear_cpus a off len i :
  0 <= off → 0 <= len → off + len <= 2 ^ 31 → 0 <= i < 1024 →
  CPU_ISSET i (cpus_ (SetCpus a off len)) = bool_decide (off <= i < off + len) || CPU_ISSET i (cpus_ a) ∧
  CPU_ISSET i (cpus_ (ClearCpus a off len)) = CPU_ISSET i (cpus_ a) && negb (bool_decide (off <= i < off + len)).
Proof.
  intros Hoff Hlen Hmax Hi. unfold SetCpus, ClearCpus. rewrite <-(Z2Nat.id len) in * by done. clear Hlen.
  induction (Z.to_nat len) as [|n IH].
  { change (seqZ 0 (Z.of_nat 0)) with (@nil Z). simpl. rewrite bool_decide_false by lia. by rewrite andb_true_r. }
  destruct IH as [IHs IHc]; [lia|]. rewrite seqZ_S, !foldl_app, Z.add_0_l. cbn [foldl SetCpu ClearCpu with_cpus cpus_].
  rewrite cpu_set_isset, cpu_clr_isset, IHs, IHc by lia.
  rewrite (bool_decide_ext (off <= i < off + Z.of_nat (S n)) (off + Z.of_nat n = i ∨ off <= i < off + Z.of_nat n)) by lia.
  destruct (Z.eqb_spec (off + Z.of_nat n) i) as [E|E].
  - rewrite (bool_decide_true (_ ∨ _)) by (by left). split; [done|]. by rewrite !andb_false_r.
  - rewrite (bool_decide_ext (off + Z.of_nat n = i ∨ _) (off <= i < off + Z.of_nat n)) by lia. split; [done|]. by rewrite andb_true_r.
Qed.

(** ** The processes *)

Section processes.
Context (setaffinity_ok : Z → Z → bool) (a : ProcessAffiner).

Definition mask_passed : Z := cpus_ a mod 2 ^ (8 * n_cpu_ a).

(** The processes for which the system call succeeds get the mask, the others
    keep theirs, and the calls that succeed are counted. *)
Lemma affine_pids_spec pids aff :
  let r := Affine_pids setaffinity_ok a pids aff in
  r.1 = Z.of_nat (length (filter (λ p, setaffinity_ok p mask_passed = true) pids)) ∧
  ∀ p, r.2 !! p = if decide (p ∈ pids ∧ setaffinity_ok p mask_passed = true) then Some mask_passed else aff !! p.
Proof.
  revert aff. induction pids as [|q pids IH]; intros aff; cbn [Affine_pids].
  { split; [done|]. intros p. rewrite decide_False; [done|]. by intros [?%elem_of_nil _]. }
  unfold Affine, SetAffinitySafe. fold mask_passed. rewrite filter_cons.
  destruct (setaffinity_ok q mask_passed) eqn:Eq.
  - specialize (IH (<[q := mask_passed]> aff)). destruct (Affine_pids _ _ _ _) as [c aff']. destruct IH as [IH1 IH2]. cbn [fst snd] in *.
    rewrite decide_True by done. cbn [length]. split; [lia|]. intros p. rewrite IH2.
    destruct (decide (p = q)) as [->|Hne].
    + rewrite lookup_insert_eq. rewrite (decide_True (P := q ∈ q :: pids ∧ _)) by set_solver. by case_decide.
    + rewrite lookup_insert_ne by done. apply decide_ext. set_solver.
  - specialize (IH aff). destruct (Affine_pids _ _ _ _) as [c aff']. destruct IH as [IH1 IH2]. cbn [fst snd] in *.
    rewrite decide_False by done. split; [lia|]. intros p. rewrite IH2. apply decide_ext.
    destruct (decide (p = q)) as [->|Hne]; [rewrite Eq; naive_solver|set_solver].
Qed.

(** [AffineAll] asks for the entries of [/proc] whose names are numbers. *)
Lemma affine_entries_pids names aff :
  affine_entries setaffinity_ok a names aff = Affine_pids setaffinity_ok a (atoi <$> filter (λ s, is_pid_folder s = true) names) aff.
Proof.
  revert aff. induction names as [|s names IH]; intros aff; simpl; [done|]. rewrite filter_cons.
  destruct (is_pid_folder s) eqn:E; [rewrite decide_True by done|rewrite decide_False by done; apply IH].
  cbn [fmap list_fmap Affine_pids]. destruct (Affine _ _ _ _) as [n aff']. by rewrite IH.
Qed.
End processes.

(** ** Limits *)

(** A processor that is asked for by a number beyond the mask is lost without an
    error. *)
Lemma beyond_mask_lost a cpu : 1024 <= cpu < 2 ^ 31 → SetCpu a cpu = a.
Proof.
  intros Hc. unfold SetCpu, CPU_SET, sizeof_cpu_set_t, u64. rewrite Z.mod_small by lia.
  rewrite (proj2 (Z.ltb_ge (cpu / 8) 128)) by (apply Z.div_le_lower_bound; lia). by destruct a.
Qed.

Example partition_example :
  partitioner_main (λ pid _, negb (pid =? 5)) 4 [all_name; [49]; [51]] (Some [[46]; [53]; [49; 50]; [109; 101; 109]]) ∅ =
    (0, {[12 := 10]}).
Proof. vm_compute. reflexivity. Qed.
