(* ===== verification/TimedLock.v ===== *)
(** * TimedLock.v: the spin lock with a time limit

    userspace/types/shmem_spinlock.h: [labstor::ipc::SpinLock], a lock in
    shared memory that is meant to be taken from a holder that keeps it too
    long.  The steps of [Lock] and [UnLock] between two accesses to the shared
    words are a step of the machine, and the threads are interleaved freely. *)

From S2P Require Import Prelude.

Local Open Scope Z_scope.

(** ** State *)

(** [struct spin_lock_header]. *)
Record spin_lock_header := { lock_ : Z; max_time_ms_ : Z; timestamp_ : Z }.

(** [Init] does not use the time it is given. *)
Definition SpinLock_Init (max_time_ms : Z) : spin_lock_header := {| lock_ := 0; max_time_ms_ := 0; timestamp_ := 0 |}.

(** [get_time_ms], from [tv_sec] and [tv_nsec]. *)
Definition get_time_ms (tv_sec tv_nsec : Z) : Z := u64 (tv_sec * 1000000000 + tv_nsec).

(** Where a thread is in [Lock], with the local variables: [Try] before the
    first compare-and-exchange, [Clock] after it failed, [Compare] with the time
    read, [Reset] before the second one, [Stamp] after the first succeeded. *)
Inductive thread :=
| Outside
| Try (is_unlocked lock : Z)
| Clock (is_unlocked lock : Z)
| Compare (is_unlocked lock cur_time_ms : Z)
| Reset (is_unlocked lock : Z)
| Stamp
| Inside.

Record machine := { hdr : spin_lock_header; threads : gmap nat thread }.

Definition set_lock (h : spin_lock_header) (v : Z) : spin_lock_header :=
  {| lock_ := v; max_time_ms_ := max_time_ms_ h; timestamp_ := timestamp_ h |}.
Definition set_timestamp (h : spin_lock_header) (t : Z) : spin_lock_header :=
  {| lock_ := lock_ h; max_time_ms_ := max_time_ms_ h; timestamp_ := t |}.

(** [__atomic_compare_exchange_n]: on failure the expected value is replaced. *)
Definition compare_exchange (h : spin_lock_header) (expected desired : Z) : bool * spin_lock_header * Z :=
  if lock_ h =? expected then (true, set_lock h desired, expected) else (false, h, lock_ h).

(** The next step of a thread when the clock shows [now]: [Lock] from
    [Outside], [UnLock] from [Inside]. *)
Definition thread_step (now : Z) (h : spin_lock_header) (t : thread) : spin_lock_header * thread :=
  match t with
  | Outside => (h, Try 0 1)
  | Try is_unlocked lock =>
      match compare_exchange h is_unlocked lock with
      | (true, h', _) => (h', Stamp)
      | (false, h', is_unlocked') => (h', Clock is_unlocked' lock)
      end
  | Clock is_unlocked lock => (h, Compare is_unlocked lock now)
  | Compare is_unlocked lock cur_time_ms =>
      (h, if max_time_ms_ h <? u64 (cur_time_ms - timestamp_ h) then Reset is_unlocked lock else Try is_unlocked lock)
  | Reset is_unlocked lock =>
      match compare_exchange h lock is_unlocked with
      | (true, h', _) => (h', Try is_unlocked lock)
      | (false, h', lock') => (h', Try is_unlocked lock')
      end
  | Stamp => (set_timestamp h now, Inside)
  | Inside => (set_lock h 0, Outside)
  end.

Definition machine_step (i : nat) (now : Z) (s : machine) : machine :=
  match threads s !! i with
  | Some t => let (h, t') := thread_step now (hdr s) t in {| hdr := h; threads := <[i := t']> (threads s) |}
  | None => s
  end.

(** A schedule: which thread, and the clock. *)
Definition interleave (l : list (nat * Z)) (s : machine) : machine := foldl (λ s x, machine_step x.1 x.2 s) s l.

(** ** What holds *)

(** The word and the local variables are 0 or 1. *)
Definition bit (v : Z) : Prop := v = 0 ∨ v = 1.
Definition thread_bits (t : thread) : Prop :=
  match t with
  | Try u l | Clock u l | Compare u l _ | Reset u l => bit u ∧ bit l
  | _ => True
  end.
Definition machine_bits (s : machine) : Prop := bit (lock_ (hdr s)) ∧ map_Forall (λ _, thread_bits) (threads s).

Lemma thread_step_bits now h t :
  bit (lock_ h) → thread_bits t → bit (lock_ (thread_step now h t).1) ∧ thread_bits (thread_step now h t).2.
Proof.
  intros Hh Ht. destruct t as [|u l|u l|u l c|u l| |]; simpl in *; unfold compare_exchange; unfold bit in *;
    repeat (destruct (_ =? _) || destruct (_ <? _)); simpl; naive_solver.
Qed.

Lemma interleave_bits l s : machine_bits s → machine_bits (interleave l s).
Proof.
  revert s. induction l as [|[i now] l IH]; intros s Hs; [done|]. apply IH. unfold machine_step. simpl.
  destruct (threads s !! i) as [t|] eqn:Et; [|done]. destruct Hs as [Hh Hts].
  pose proof (thread_step_bits now (hdr s) t Hh (Hts _ _ Et)) as [H1 H2]. destruct (thread_step now (hdr s) t) as [h t']. simpl in *.
  split; [done|]. by apply map_Forall_insert_2.
Qed.

Lemma machine_step_run i now s t h t' :
  threads s !! i = Some t → thread_step now (hdr s) t = (h, t') →
  machine_step i now s = {| hdr := h; threads := <[i := t']> (threads s) |}.
Proof. intros Ht Hs. unfold machine_step. by rewrite Ht, Hs. Qed.

(** The steps of one thread alone. *)
Definition alone (n i : nat) (now : Z) (s : machine) : machine := interleave (replicate n (i, now)) s.

Lemma alone_start i now s :
  threads s !! i = Some Outside → alone 1 i now s = {| hdr := hdr s; threads := <[i := Try 0 1]> (threads s) |}.
Proof. intros Hi. exact (machine_step_run _ _ _ _ _ _ Hi eq_refl). Qed.

Lemma alone_step n i now s h t h' t' :
  alone n i now s = {| hdr := h; threads := <[i := t]> (threads s) |} → thread_step now h t = (h', t') →
  alone (S n) i now s = {| hdr := h'; threads := <[i := t']> (threads s) |}.
Proof.
  intros E Hst. unfold alone, interleave in *. rewrite replicate_S_end, foldl_app, E. cbn [foldl fst snd].
  erewrite (machine_step_run _ _ _ t); [|apply lookup_insert_eq|exact Hst]. cbn [threads]. by rewrite insert_insert_eq.
Qed.

(** A lock that is free is taken in three steps of the thread, and given back
    in one. *)
Lemma lock_free_taken i now s :
  threads s !! i = Some Outside → lock_ (hdr s) = 0 →
  alone 3 i now s = {| hdr := set_timestamp (set_lock (hdr s) 1) now; threads := <[i := Inside]> (threads s) |} ∧
  alone 4 i now s = {| hdr := set_timestamp (hdr s) now; threads := threads s |}.
Proof.
  intros Hi H0. pose proof (alone_start i now s Hi) as E1.
  pose proof (alone_step _ _ _ _ _ _ (set_lock (hdr s) 1) Stamp E1 ltac:(cbn; unfold compare_exchange; by rewrite H0)) as E2.
  pose proof (alone_step _ _ _ _ _ _ _ _ E2 eq_refl) as E3. pose proof (alone_step _ _ _ _ _ _ _ _ E3 eq_refl) as E4.
  split; [done|]. rewrite E4. rewrite insert_id by done. f_equal. destruct (hdr s); simpl in *; by subst.
Qed.

(** ** Limits *)

(** A thread that finds the lock held does not wait for it: whatever the clock
    shows, six or seven steps of its own, with none of the others, bring it
    inside, since the first failure makes it expect the value of a held lock. *)
Lemma lock_held_taken i now s :
  threads s !! i = Some Outside → lock_ (hdr s) = 1 →
  ∃ n, (n <= 7)%nat ∧ alone n i now s = {| hdr := set_timestamp (hdr s) now; threads := <[i := Inside]> (threads s) |}.
Proof.
  intros Hi H1. pose proof (alone_start i now s Hi) as E1. set (h := hdr s) in *.
  assert (set_lock h 1 = h) as Eh by (destruct h; simpl in *; by subst).
  pose proof (alone_step _ _ _ _ _ _ h (Clock 1 1) E1 ltac:(cbn; unfold compare_exchange; by rewrite H1)) as E2.
  pose proof (alone_step _ _ _ _ _ _ _ _ E2 eq_refl) as E3. pose proof (alone_step _ _ _ _ _ _ _ _ E3 eq_refl) as E4.
  assert (∀ n, alone n i now s = {| hdr := h; threads := <[i := Try 1 1]> (threads s) |} →
    alone (S (S n)) i now s = {| hdr := set_timestamp h now; threads := <[i := Inside]> (threads s) |}) as Hend.
  { intros n E. pose proof (alone_step _ _ _ _ _ _ h Stamp E ltac:(cbn; unfold compare_exchange; by rewrite H1, Eh)) as E'.
    exact (alone_step _ _ _ _ _ _ _ _ E' eq_refl). }
  destruct (max_time_ms_ h <? u64 (now - timestamp_ h)).
  - exists 7%nat. split; [lia|]. apply Hend, (alone_step _ _ _ _ _ _ _ _ E4). cbn. unfold compare_exchange. by rewrite H1, Eh.
  - exists 6%nat. split; [lia|]. by apply Hend.
Qed.

(** So two threads are inside together. *)
Lemma two_inside :
  let s := interleave [(0%nat, 10); (0%nat, 10); (0%nat, 10); (1%nat, 10); (1%nat, 10); (1%nat, 10); (1%nat, 10); (1%nat, 10); (1%nat, 10)]
             {| hdr := SpinLock_Init 1000; threads := {[0%nat := Outside; 1%nat := Outside]} |} in
  threads s !! 0%nat = Some Inside ∧ threads s !! 1%nat = Some Inside.
Proof. vm_compute. done. Qed.
