(* ===== verification/KernelModules.v ===== *)
(** * KernelModules.v: loading and unloading the kernel modules

    The init and exit functions of the kernel side: src/kernel/server
    (kernel_server.c) and the kernel directories of labmods (secure_shmem, ipc_manager,
    work_orchestrator, ipc_test, blkdev_table, mq_driver).  The state is the
    table of modules, the globals of the modules, and the objects that the rest
    of the kernel keeps for them: the netlink socket, the class, numbers, cdev
    and device of the shared-memory device, and the cache of page arrays.  The
    threads of the workers run one iteration of their loop at a time, in any
    order, while the module of the workers is being unloaded. *)

From S2P Require Import Prelude Memory RingBuffer RequestQueue QueuePair WorkQueue Allocators SecureShmem Kernel KernelWorker MqTags MqDriver.

Local Open Scope Z_scope.

(** ** State *)

(** Objects that an init function acquires; the cdev is initialised with
    [cdev_init] and known to the kernel after [cdev_add]. *)
Inductive kobject := KSocket | KClass | KChrdev | KCdev | KCdevMap | KDevice | KPageCache.

#[export] Instance kobject_eq_dec : EqDecision kobject.
Proof. solve_decision. Defined.

Definition kobject_number (o : kobject) : nat :=
  match o with
  | KSocket => 0 | KClass => 1 | KChrdev => 2 | KCdev => 3 | KCdevMap => 4 | KDevice => 5 | KPageCache => 6
  end.

Definition kobject_of_number (n : nat) : option kobject :=
  [KSocket; KClass; KChrdev; KCdev; KCdevMap; KDevice; KPageCache] !! n.

#[export] Program Instance kobject_countable : Countable kobject :=
  inj_countable kobject_number kobject_of_number _.
Next Obligation. by intros []. Qed.

(** [ki_bad]: releases of an object that was not there, newest first.
    [ki_started], [ki_returned]: the worker threads that passed the first test
    of their function, and what the threads returned. *)
Record kimage := {
  ki_modules : module_table;
  ki_state : kstate;
  ki_live : gset kobject;
  ki_bad : list kobject;
  ki_started : gset Z;
  ki_returned : gmap Z Z
}.

(** Which of the calls of an init function succeed. *)
Record kobj_env := {
  oe_socket : bool;
  oe_class : bool;
  oe_chrdev : bool;
  oe_device : bool;
  oe_cdev : bool;
  oe_page_cache : bool
}.

Definition LM (A : Type) : Type := kimage → M (A * kimage).

#[export] Instance LM_ret : MRet LM := λ A a I, mret (a, I).
#[export] Instance LM_bind : MBind LM := λ A B f c I, r ← c I; f r.1 r.2.

Definition lm_get : LM kimage := λ I, mret (I, I).
Definition lm_fault {A} : LM A := λ _, fault.

Definition with_modules (t : module_table) (I : kimage) : kimage :=
  {| ki_modules := t; ki_state := ki_state I; ki_live := ki_live I; ki_bad := ki_bad I;
     ki_started := ki_started I; ki_returned := ki_returned I |}.
Definition with_state (k : kstate) (I : kimage) : kimage :=
  {| ki_modules := ki_modules I; ki_state := k; ki_live := ki_live I; ki_bad := ki_bad I;
     ki_started := ki_started I; ki_returned := ki_returned I |}.
Definition with_objects (live : gset kobject) (bad : list kobject) (I : kimage) : kimage :=
  {| ki_modules := ki_modules I; ki_state := ki_state I; ki_live := live; ki_bad := bad;
     ki_started := ki_started I; ki_returned := ki_returned I |}.
Definition with_threads (started : gset Z) (returned : gmap Z Z) (I : kimage) : kimage :=
  {| ki_modules := ki_modules I; ki_state := ki_state I; ki_live := ki_live I; ki_bad := ki_bad I;
     ki_started := started; ki_returned := returned |}.

Definition lm_update (f : kimage → kimage) : LM unit := λ I, mret (tt, f I).

(** An operation on the globals of the modules. *)
Definition lm_kernel {A} (c : KM A) : LM A := λ I,
  r ← c (ki_state I); mret (r.1, with_state r.2 I).

Definition acquire (o : kobject) : LM unit :=
  lm_update (λ I, with_objects ({[o]} ∪ ki_live I) (ki_bad I) I).

Definition release (o : kobject) : LM unit :=
  lm_update (λ I, if decide (o ∈ ki_live I) then with_objects (ki_live I ∖ {[o]}) (ki_bad I) I
                  else with_objects (ki_live I) (o :: ki_bad I) I).

Definition lm_register (pkg : labstor_module) : LM unit :=
  lm_update (λ I, with_modules (register_labstor_module (ki_modules I) pkg) I).

Definition lm_unregister (pkg : labstor_module) : LM unit :=
  I ← lm_get;
  match unregister_labstor_module (ki_modules I) pkg with
  | Some t => lm_update (with_modules t)
  | None => lm_fault
  end.

(** ** kernel_server.c *)

Definition start_server (oe : kobj_env) : LM Z :=
  if negb (oe_socket oe) then mret (-1) else _ ← acquire KSocket; mret 0.

Definition init_labstor_kernel_server (oe : kobj_env) : LM Z :=
  _ ← lm_update (with_modules init_labstor_module_manager);
  r ← start_server oe;
  if r <? 0
  then _ ← lm_update (λ I, with_modules (free_labstor_module_manager (ki_modules I)) I); mret (-1)
  else mret 0.

(** [nl_sk] is the null pointer when there is no socket. *)
Definition exit_labstor_kernel_server : LM unit :=
  _ ← lm_update (λ I, with_modules (free_labstor_module_manager (ki_modules I)) I);
  I ← lm_get;
  if decide (KSocket ∈ ki_live I) then release KSocket else lm_fault.

(** ** secure_shmem_kernel.c *)

Definition labstor_open : Z := 0.

(** [shmem_fs]: the functions behind the device. *)
Record file_operations := {
  fo_open : Z;
  fo_mmap : (Z → bool) → Z → Z → Z → Z → SM (Z * list (Z * Z));
  fo_llseek : Z → Z → Z
}.

Definition shmem_fs (env : kenv) : file_operations :=
  {| fo_open := labstor_open; fo_mmap := labstor_mmap (ke_page_size env); fo_llseek := labstor_lseek |}.

(** [atomic_set(&cur_region_id, 0)]. *)
Definition reset_region_id : SM unit :=
  s ← sm_get;
  sm_put {| ss_cur_region_id := 0; ss_heap := ss_heap s; ss_region_map := ss_region_map s;
            ss_pid_regions := ss_pid_regions s; ss_locked := ss_locked s |}.

(** [cdev_del]: the object goes, and with it the entry [cdev_add] made. *)
Definition cdev_del : LM unit :=
  _ ← release KCdev;
  lm_update (λ I, with_objects (ki_live I ∖ {[KCdevMap]}) (ki_bad I) I).

Definition init_secure_shmem (env : kenv) (oe : kobj_env) : LM Z :=
  _ ← lm_kernel (k_shmem_op reset_region_id);
  if negb (oe_class oe) then
    _ ← cdev_del;
    _ ← release KChrdev;
    mret (-1)
  else
    _ ← acquire KClass;
    if negb (oe_chrdev oe) then mret (-1)
    else
      _ ← acquire KChrdev;
      _ ← acquire KCdev;
      if negb (oe_device oe) then
        _ ← release KClass;
        _ ← cdev_del;
        _ ← release KChrdev;
        mret (-1)
      else
        _ ← acquire KDevice;
        if negb (oe_cdev oe) then mret (-1)
        else
          _ ← acquire KCdevMap;
          _ ← lm_register (shmem_module env);
          mret 0.

Definition exit_secure_shmem (env : kenv) : LM unit :=
  _ ← release KDevice;
  _ ← release KClass;
  _ ← cdev_del;
  _ ← lm_kernel (k_shmem_op free_all_regions);
  _ ← release KChrdev;
  lm_unregister (shmem_module env).

(** ** ipc_manager_kernel.c, ipc_test_kernel.c *)

(** The globals of a module ([reg_], [pool_] and the like) are fields of the
    kernel's state and keep their values over an unload; in the
    kernel a module that is loaded again starts from zeroed globals. *)
Definition init_ipc_manager (env : kenv) : LM Z := _ ← lm_register (ipc_manager_module env); mret 0.
Definition exit_ipc_manager (env : kenv) : LM unit := lm_unregister (ipc_manager_module env).

Definition init_ipc_test (fuel : nat) : LM Z := _ ← lm_register (ipc_test_pkg fuel); mret 0.
Definition exit_ipc_test (fuel : nat) : LM unit := lm_unregister (ipc_test_pkg fuel).

(** ** blkdev_table_kernel.c *)

(** A cache that could not be created is not noticed. *)
Definition init_blkdev_table (fuel : nat) (env : kenv) (oe : kobj_env) : LM Z :=
  _ ← lm_register (blkdev_table_pkg fuel env);
  _ ← (if oe_page_cache oe then acquire KPageCache else mret tt);
  mret 0.

Definition exit_blkdev_table_km (fuel : nat) (env : kenv) : LM unit :=
  _ ← lm_kernel (exit_blkdev_table (Z.to_nat MAX_MOUNTED_BDEVS) 0);
  lm_unregister (blkdev_table_pkg fuel env).

(** ** work_orchestrator_kernel.c *)

(** Empty bodies. *)
Definition pause_worker (worker_id : Z) : LM unit := mret tt.
Definition resume_worker (worker_id : Z) : LM unit := mret tt.
Definition pause_worker_user (rq : Z) : LM unit := mret tt.
Definition resume_worker_user (rq : Z) : LM unit := mret tt.

Definition init_work_orchestrator_kernel (env : kenv) (fresh : labstor_work_queue) : LM Z :=
  _ ← lm_register (worker_module env fresh); mret 0.

Definition set_keep_running (b : bool) : KM unit :=
  k ← k_get;
  k_put {| k_shmem := k_shmem k; k_ipc_manager_ := k_ipc_manager_ k; k_workers := k_workers k;
           k_num_workers := k_num_workers k; k_keep_running := b;
           k_shmem_region_id := k_shmem_region_id k; k_shmem_region := k_shmem_region k;
           k_bdevs := k_bdevs k; k_sent := k_sent k |}.

Definition thread_returns (i code : Z) : LM unit :=
  lm_update (λ I, with_threads (ki_started I) (<[i := code]> (ki_returned I)) I).

(** [workers + i], when there is one. *)
Definition worker_at (I : kimage) (i : Z) : option labstor_worker_struct :=
  ws ← k_workers (ki_state I); if i <? 0 then None else ws !! Z.to_nat i.

(** The thread of worker [i] until it gives up the processor: nothing when it
    does not exist, was not woken up or has returned; the test before the loop;
    one iteration of the loop; the acknowledgement after it. *)
Definition worker_thread_step (fuel : nat) (i : Z) : LM unit :=
  I ← lm_get;
  match worker_at I i with
  | None => mret tt
  | Some w =>
      if bool_decide (lw_cpu w = None) || bool_decide (is_Some (ki_returned I !! i)) then mret tt
      else if bool_decide (i ∉ ki_started I) then
        if negb (ipc_manager_IsInitialized (ki_state I)) then thread_returns i (-1)
        else lm_update (λ I, with_threads ({[i]} ∪ ki_started I) (ki_returned I) I)
      else if k_keep_running (ki_state I) then
        r ← lm_kernel (worker_pass fuel (ki_modules I) (lw_work_queue_ w));
        match r with inl code => thread_returns i code | inr _ => mret tt end
      else
        _ ← lm_kernel (put_worker i {| lw_work_queue_ := lw_work_queue_ w; lw_complete_ack_ := true;
                                       lw_worker_id_ := lw_worker_id_ w; lw_cpu := lw_cpu w |});
        thread_returns i 0
  end.

Definition lm_spin {A} : LM A := λ _ m, Spin m.

(** [while(!check_if_workers_stopped()) { yield(); }]: a worker of the
    schedule runs at each [yield]. *)
Fixpoint wait_for_workers (fuel : nat) (sched : list Z) : LM unit :=
  stopped ← lm_kernel check_if_workers_stopped;
  if stopped : bool then mret tt
  else match sched with
       | [] => lm_spin
       | i :: sched' => _ ← worker_thread_step fuel i; wait_for_workers fuel sched'
       end.

Definition exit_work_orchestrator_kernel (fuel : nat) (env : kenv) (fresh : labstor_work_queue) (sched : list Z)
    : LM unit :=
  _ ← lm_kernel (set_keep_running false);
  _ ← wait_for_workers fuel sched;
  I ← lm_get;
  _ ← match k_workers (ki_state I) with Some _ => lm_kernel (set_workers None) | None => mret tt end;
  lm_unregister (worker_module env fresh).

(** ** mq_driver_kernel.c *)

Definition init_mq_driver_km (pkg : labstor_module) : LM Z := _ ← lm_register pkg; mret 0.
Definition exit_mq_driver_km (pkg : labstor_module) : LM unit := lm_unregister pkg.

(** ** Waiting for the workers *)

Definition acked (I : kimage) (i : Z) : bool :=
  match worker_at I i with Some w => lw_complete_ack_ w | None => false end.

(** The module is being unloaded: [n] workers, told to stop. *)
Record stopping (n : Z) (I : kimage) : Prop := {
  sp_workers : ∃ ws, k_workers (ki_state I) = Some ws ∧ Z.of_nat (length ws) = n;
  sp_num : k_num_workers (ki_state I) = n;
  sp_told : k_keep_running (ki_state I) = false
}.

(** A worker that will stop: it has, or it was woken up, has not returned and
    passes or passed the test for the IPC manager. *)
Definition healthy (I : kimage) (i : Z) : Prop :=
  acked I i = true ∨
  ((∃ w c, worker_at I i = Some w ∧ lw_cpu w = Some c) ∧ ki_returned I !! i = None ∧
   (i ∈ ki_started I ∨ ipc_manager_IsInitialized (ki_state I) = true)).

(** How often its thread has to run until it has acknowledged. *)
Definition need (I : kimage) (i : Z) : nat :=
  if acked I i then 0 else if bool_decide (i ∈ ki_started I) then 1 else 2.

Definition put_worker_state (i : Z) (w : labstor_worker_struct) (k : kstate) : kstate :=
  {| k_shmem := k_shmem k; k_ipc_manager_ := k_ipc_manager_ k;
     k_workers := (λ ws, <[Z.to_nat i := w]> ws) <$> k_workers k;
     k_num_workers := k_num_workers k; k_keep_running := k_keep_running k;
     k_shmem_region_id := k_shmem_region_id k; k_shmem_region := k_shmem_region k;
     k_bdevs := k_bdevs k; k_sent := k_sent k |}.

Definition with_ack (w : labstor_worker_struct) : labstor_worker_struct :=
  {| lw_work_queue_ := lw_work_queue_ w; lw_complete_ack_ := true; lw_worker_id_ := lw_worker_id_ w;
     lw_cpu := lw_cpu w |}.

(** What a step of a thread does once the workers are told to stop. *)
Definition stop_step (i : Z) (I : kimage) : kimage :=
  match worker_at I i with
  | None => I
  | Some w =>
      if bool_decide (lw_cpu w = None) || bool_decide (is_Some (ki_returned I !! i)) then I
      else if bool_decide (i ∉ ki_started I) then
        if negb (ipc_manager_IsInitialized (ki_state I))
        then with_threads (ki_started I) (<[i := -1]> (ki_returned I)) I
        else with_threads ({[i]} ∪ ki_started I) (ki_returned I) I
      else with_threads (ki_started I) (<[i := 0]> (ki_returned I))
             (with_state (put_worker_state i (with_ack w) (ki_state I)) I)
  end.

Lemma lm_bind_run {A B} (c : LM A) (f : A → LM B) I m a I' m' :
  c I m = Ret (a, I') m' → (c ≫= f) I m = f a I' m'.
Proof. intros E. unfold mbind, LM_bind, mbind, M_bind. by rewrite E. Qed.

Lemma km_bind_run {A B} (c : KM A) (f : A → KM B) k m a k' m' :
  c k m = Ret (a, k') m' → (c ≫= f) k m = f a k' m'.
Proof. intros E. unfold mbind, KM_bind, mbind, M_bind. by rewrite E. Qed.

Lemma lm_kernel_run {A} (c : KM A) I m a k' m' :
  c (ki_state I) m = Ret (a, k') m' → lm_kernel c I m = Ret (a, with_state k' I) m'.
Proof. intros E. unfold lm_kernel, mbind, M_bind. by rewrite E. Qed.

Lemma get_worker_run i k m ws w :
  k_workers k = Some ws → 0 <= i → ws !! Z.to_nat i = Some w → get_worker i k m = Ret (w, k) m.
Proof.
  intros Hws Hi Hw. unfold get_worker. rewrite (km_bind_run _ _ _ _ k k m) by done.
  rewrite Hws, (proj2 (Z.ltb_ge _ _)) by lia. by rewrite Hw.
Qed.

Lemma put_worker_run i w k m ws :
  k_workers k = Some ws → put_worker i w k m = Ret (tt, put_worker_state i w k) m.
Proof.
  intros Hws. unfold put_worker. rewrite (km_bind_run _ _ _ _ k k m), Hws by done.
  unfold set_workers. rewrite (km_bind_run _ _ _ _ k k m) by done. unfold put_worker_state. by rewrite Hws.
Qed.

Lemma worker_thread_step_stopped fuel i I m :
  k_keep_running (ki_state I) = false → worker_thread_step fuel i I m = Ret (tt, stop_step i I) m.
Proof.
  intros Hk. unfold worker_thread_step, stop_step. rewrite (lm_bind_run _ _ _ _ I I m) by done.
  destruct (worker_at I i) as [w|] eqn:Ew; [|done].
  destruct (_ || _); [done|]. destruct (bool_decide (i ∉ _)).
  { by destruct (ipc_manager_IsInitialized _). }
  rewrite Hk. unfold worker_at in Ew. apply bind_Some in Ew as (ws & Ews & _).
  by rewrite (lm_bind_run _ _ _ _ _ _ _ (lm_kernel_run _ _ _ _ _ _ (put_worker_run _ _ _ _ _ Ews))).
Qed.

Lemma workers_stopped_from_run n (i : nat) k m ws :
  k_workers k = Some ws → (i + n ≤ length ws)%nat →
  workers_stopped_from n (Z.of_nat i) k m = Ret (forallb lw_complete_ack_ (take n (drop i ws)), k) m.
Proof.
  intros Hws. revert i. induction n as [|n IH]; intros i Hi; [done|].
  destruct (lookup_lt_is_Some_2 ws i) as [w Hw]; [lia|].
  rewrite (drop_S _ _ _ Hw). cbn [workers_stopped_from take forallb].
  rewrite (km_bind_run _ _ _ _ w k m) by (eapply get_worker_run; [done|lia|by rewrite Nat2Z.id]).
  destruct (lw_complete_ack_ w); [|done]. cbn [negb andb].
  replace (Z.of_nat i + 1) with (Z.of_nat (S i)) by lia. apply IH. lia.
Qed.

(** The test of the loop. *)
Lemma check_stopped_run n I m :
  stopping n I → ∃ b, lm_kernel check_if_workers_stopped I m = Ret (b, I) m ∧
    (b = true ↔ ∀ i, 0 <= i < n → acked I i = true).
Proof.
  intros [(ws & Hws & Hlen) Hnum Hkeep].
  exists (forallb lw_complete_ack_ ws). split.
  - replace (Ret (_, I) m) with (Ret (forallb lw_complete_ack_ ws, with_state (ki_state I) I) m) by (by destruct I).
    apply lm_kernel_run. unfold check_if_workers_stopped.
    rewrite (km_bind_run _ _ _ _ (ki_state I) (ki_state I) m), Hnum by done.
    rewrite (workers_stopped_from_run _ 0 _ _ ws) by (done || lia).
    by rewrite drop_0, take_ge by lia.
  - rewrite forallb_forall. unfold acked, worker_at. rewrite Hws. cbn. split.
    + intros H i Hi. rewrite (proj2 (Z.ltb_ge _ _)) by lia.
      destruct (lookup_lt_is_Some_2 ws (Z.to_nat i)) as [w Hw]; [lia|]. rewrite Hw. apply H.
      apply list_elem_of_In, list_elem_of_lookup. by eexists.
    + intros H w Hw. apply list_elem_of_In, list_elem_of_lookup in Hw as [j Hj].
      pose proof (lookup_lt_Some _ _ _ Hj). specialize (H (Z.of_nat j) ltac:(lia)).
      rewrite (proj2 (Z.ltb_ge _ _)) in H by lia. by rewrite Nat2Z.id, Hj in H.
Qed.

(** What the threads leave alone while the module waits. *)
Definition untouched (I I' : kimage) : Prop :=
  ki_modules I' = ki_modules I ∧ ki_live I' = ki_live I ∧ ki_bad I' = ki_bad I ∧
  k_shmem (ki_state I') = k_shmem (ki_state I) ∧ k_ipc_manager_ (ki_state I') = k_ipc_manager_ (ki_state I) ∧
  k_bdevs (ki_state I') = k_bdevs (ki_state I) ∧ k_sent (ki_state I') = k_sent (ki_state I).

#[export] Instance untouched_preorder : PreOrder untouched.
Proof. split; [by intros ?|]. intros I1 I2 I3 ? ?. unfold untouched in *. by destruct_and?; split_and?; etrans. Qed.

(** A case analysis of [stop_step]. *)
Ltac stop_cases I i w Ew :=
  unfold stop_step; destruct (worker_at I i) as [w|] eqn:Ew;
  [ destruct (bool_decide (lw_cpu w = None) || bool_decide (is_Some (ki_returned I !! i))) eqn:?;
    [ | destruct (bool_decide (i ∉ ki_started I)) eqn:?;
        [ destruct (ipc_manager_IsInitialized (ki_state I)) eqn:? | ]; cbn [negb] ]
  | ]; try done.

Lemma stop_step_untouched i I : untouched I (stop_step i I).
Proof. unfold untouched. stop_cases I i w Ew; by split_and?. Qed.

Lemma stop_step_stopping n i I : stopping n I → stopping n (stop_step i I).
Proof.
  intros [(ws & Hws & Hlen) Hnum Hkeep].
  stop_cases I i w Ew; (split; cbn; [|done|done]); try (by exists ws).
  rewrite Hws. eexists. split; [done|]. by rewrite length_insert.
Qed.

(** Only an acknowledgement changes a worker. *)
Lemma worker_at_ack I i w j started returned :
  worker_at I i = Some w →
  worker_at (with_threads started returned (with_state (put_worker_state i (with_ack w) (ki_state I)) I)) j =
    if decide (j = i) then Some (with_ack w) else worker_at I j.
Proof.
  unfold worker_at. cbn. intros (ws & -> & Hw)%bind_Some. cbn.
  destruct (Z.ltb_spec i 0); [done|]. destruct (Z.ltb_spec j 0).
  { rewrite decide_False by lia. done. }
  pose proof (lookup_lt_Some _ _ _ Hw). case_decide; subst.
  - by rewrite list_lookup_insert_eq.
  - by rewrite list_lookup_insert_ne by lia.
Qed.

Lemma acked_stop_step I i j : acked I j = true → acked (stop_step i I) j = true.
Proof.
  stop_cases I i w Ew. unfold acked. rewrite (worker_at_ack _ _ _ _ _ _ Ew).
  by destruct (decide (j = i)).
Qed.

Lemma healthy_stop_step I i j : healthy I j → healthy (stop_step i I) j.
Proof.
  intros [Ha|((w' & c & Hw & Hc) & Hr & Hs)]; [left; by apply acked_stop_step|].
  stop_cases I i w Ew; try (right; split; [by exists w', c|]; done).
  - right. cbn. split; [by exists w', c|]. set_solver.
  - destruct (decide (j = i)) as [->|Hne].
    { destruct Hs; [|congruence]. apply bool_decide_eq_true in Heqb0. done. }
    right. cbn. split; [by exists w', c|]. rewrite lookup_insert_ne by done. split; [done|]. destruct Hs; [by left|congruence].
  - destruct (decide (j = i)) as [->|Hne].
    + left. unfold acked. rewrite (worker_at_ack _ _ _ _ _ _ Ew). by rewrite decide_True.
    + right. rewrite (worker_at_ack _ _ _ _ _ _ Ew), decide_False by done. cbn.
      split; [by exists w', c|]. by rewrite lookup_insert_ne.
Qed.

(** Each turn of a thread brings its worker one step nearer. *)
Lemma need_stop_step I i j :
  healthy I j → (need (stop_step i I) j ≤ need I j - (if decide (j = i) then 1 else 0))%nat.
Proof.
  intros Hh. destruct (acked I j) eqn:Ha.
  { unfold need. by rewrite Ha, acked_stop_step. }
  destruct Hh as [|((w' & c & Hw & Hc) & Hr & Hs)]; [congruence|].
  destruct (decide (j = i)) as [->|Hne].
  - unfold stop_step. rewrite Hw, Hc, Hr. rewrite (bool_decide_eq_false_2 (Some c = None)) by done.
    rewrite (bool_decide_eq_false_2 (is_Some None)) by (by intros []). cbn [orb].
    destruct (decide (i ∈ ki_started I)) as [Hin|Hout].
    + rewrite bool_decide_eq_false_2 by tauto. unfold need at 1, acked.
      rewrite (worker_at_ack _ _ _ _ _ _ Hw), decide_True by done. cbn. lia.
    + rewrite bool_decide_eq_true_2 by done. destruct Hs as [|Hinit]; [done|]. rewrite Hinit. cbn [negb].
      unfold need. rewrite Ha. unfold acked, worker_at in *. cbn. rewrite Ha.
      rewrite bool_decide_eq_true_2 by set_solver. rewrite bool_decide_eq_false_2 by done. lia.
  - rewrite Nat.sub_0_r. stop_cases I i w Ew; unfold need.
    + change (acked (with_threads ({[i]} ∪ ki_started I) (ki_returned I) I) j) with (acked I j). rewrite Ha. cbn.
      clear -Hne. repeat case_bool_decide; try lia. set_solver.
    + unfold acked. rewrite (worker_at_ack _ _ _ _ _ _ Ew), decide_False by done. unfold acked in Ha. cbn. lia.
Qed.

(** The wait ends when the threads of the schedule have run often enough. *)
Lemma wait_for_workers_ends fuel n sched I m :
  stopping n I → (∀ i, 0 <= i < n → healthy I i ∧ (need I i ≤ count_occ Z.eq_dec sched i)%nat) →
  ∃ I', wait_for_workers fuel sched I m = Ret (tt, I') m ∧ stopping n I' ∧ untouched I I' ∧
    ∀ i, 0 <= i < n → acked I' i = true.
Proof.
  revert I. induction sched as [|s sched IH]; intros I Hst Hn;
    destruct (check_stopped_run n I m Hst) as (b & E & Hb); cbn [wait_for_workers];
    rewrite (lm_bind_run _ _ _ _ _ _ _ E).
  - assert (b = true) as ->.
    { apply Hb. intros i Hi. destruct (Hn i Hi) as [_ H]. unfold need in H. cbn in H.
      destruct (acked I i); [done|]. case_bool_decide; lia. }
    exists I. split_and!; [done|done|by apply untouched_preorder|by apply Hb].
  - destruct b.
    { exists I. split_and!; [done|done|by apply untouched_preorder|by apply Hb]. }
    rewrite (lm_bind_run _ _ _ _ _ _ _ (worker_thread_step_stopped _ _ _ _ (sp_told _ _ Hst))).
    destruct (IH (stop_step s I) (stop_step_stopping _ _ _ Hst)) as (I' & E' & Hst' & Hu & Ha).
    { intros i Hi. destruct (Hn i Hi) as [Hh Hc]. split; [by apply healthy_stop_step|].
      pose proof (need_stop_step I s i Hh) as Hneed. cbn [count_occ] in Hc.
      destruct (Z.eq_dec s i), (decide (i = s)); try congruence; lia. }
    exists I'. split_and!; try done. etrans; [apply stop_step_untouched|done].
Qed.

(** A thread that was not woken up, or has returned, does nothing any more. *)
Definition stuck (I : kimage) (i : Z) : Prop :=
  acked I i = false ∧ ∃ w, worker_at I i = Some w ∧ (lw_cpu w = None ∨ is_Some (ki_returned I !! i)).

Lemma stuck_stop_step I i j : stuck I j → stuck (stop_step i I) j.
Proof.
  intros (Ha & w' & Hw & Hst).
  assert (Hkeep : ∀ I', worker_at I' j = Some w' → (∀ c, ki_returned I !! j = Some c → ki_returned I' !! j = Some c) →
    stuck I' j).
  { intros I' Hw' Hr. unfold stuck, acked in *. rewrite Hw'. rewrite Hw in Ha. split; [done|]. exists w'.
    split; [done|]. destruct Hst as [|[c Hc]]; [by left|]. right. exists c. by apply Hr. }
  stop_cases I i w Ew; try (by apply Hkeep).
  - apply Hkeep; [done|]. cbn. intros c Hc. rewrite lookup_insert_ne; [done|]. intros ->.
    apply orb_false_iff in Heqb as [_ Hb]. apply bool_decide_eq_false in Hb. destruct Hb. by exists c.
  - assert (j ≠ i) as Hne.
    { intros ->. rewrite Hw in Ew. injection Ew as <-. apply orb_false_iff in Heqb as [Hb1 Hb2].
      apply bool_decide_eq_false in Hb1. apply bool_decide_eq_false in Hb2. tauto. }
    apply Hkeep; [by rewrite (worker_at_ack _ _ _ _ _ _ Ew), decide_False|]. cbn.
    intros c Hc. by rewrite lookup_insert_ne.
Qed.

Lemma wait_for_workers_hangs fuel n sched I m i :
  stopping n I → 0 <= i < n → stuck I i → ∃ m', wait_for_workers fuel sched I m = Spin m'.
Proof.
  intros Hst Hi. revert I Hst. induction sched as [|s sched IH]; intros I Hst Hs;
    destruct (check_stopped_run n I m Hst) as (b & E & Hb); cbn [wait_for_workers];
    rewrite (lm_bind_run _ _ _ _ _ _ _ E).
  all: destruct b; [by destruct Hs as [Ha _]; rewrite (proj1 Hb) in Ha|].
  - by exists m.
  - rewrite (lm_bind_run _ _ _ _ _ _ _ (worker_thread_step_stopped _ _ _ _ (sp_told _ _ Hst))).
    apply IH; [by apply stop_step_stopping|by apply stuck_stop_step].
Qed.

(** ** Unloading the work orchestrator *)

(** [n] workers that have been spawned. *)
Record spawned (n : Z) (I : kimage) : Prop := {
  sw_workers : ∃ ws, k_workers (ki_state I) = Some ws ∧ Z.of_nat (length ws) = n;
  sw_num : k_num_workers (ki_state I) = n
}.

Definition told (I : kimage) : kimage :=
  with_state {| k_shmem := k_shmem (ki_state I); k_ipc_manager_ := k_ipc_manager_ (ki_state I);
                k_workers := k_workers (ki_state I); k_num_workers := k_num_workers (ki_state I);
                k_keep_running := false; k_shmem_region_id := k_shmem_region_id (ki_state I);
                k_shmem_region := k_shmem_region (ki_state I); k_bdevs := k_bdevs (ki_state I);
                k_sent := k_sent (ki_state I) |} I.

Lemma set_keep_running_run I m : lm_kernel (set_keep_running false) I m = Ret (tt, told I) m.
Proof. done. Qed.

Lemma spawned_stopping n I : spawned n I → stopping n (told I).
Proof. by intros [Hws Hnum]. Qed.

Definition released (o : kobject) (I : kimage) : kimage :=
  if decide (o ∈ ki_live I) then with_objects (ki_live I ∖ {[o]}) (ki_bad I) I
  else with_objects (ki_live I) (o :: ki_bad I) I.

Lemma release_run o I m : release o I m = Ret (tt, released o I) m.
Proof. done. Qed.

Lemma acquire_run o I m : acquire o I m = Ret (tt, with_objects ({[o]} ∪ ki_live I) (ki_bad I) I) m.
Proof. done. Qed.

Lemma lm_register_run pkg I m :
  lm_register pkg I m = Ret (tt, with_modules (register_labstor_module (ki_modules I) pkg) I) m.
Proof. done. Qed.

Lemma released_modules o I : ki_modules (released o I) = ki_modules I.
Proof. unfold released. by case_decide. Qed.

Lemma released_live o I : ki_live (released o I) = ki_live I ∖ {[o]}.
Proof. unfold released. case_decide; cbn; set_solver. Qed.

Lemma released_bad o I : o ∈ ki_live I → ki_bad (released o I) = ki_bad I.
Proof. intros Ho. unfold released. by rewrite decide_True. Qed.

Lemma lm_unregister_run pkg I m :
  lm_runtime_id pkg < Z.of_nat (length (ki_modules I)) →
  lm_unregister pkg I m = Ret (tt, with_modules (<[Z.to_nat (lm_runtime_id pkg) := None]> (ki_modules I)) I) m.
Proof.
  intros Hlt. unfold lm_unregister. rewrite (lm_bind_run _ _ _ _ I I m) by done.
  unfold unregister_labstor_module. by rewrite (proj2 (Z.ltb_lt _ _)).
Qed.

(** The module of the workers is unloaded under every schedule in which each
    worker runs as often as it needs to. *)
Theorem orchestrator_unloads fuel env fresh sched n I m :
  spawned n I → length (ki_modules I) = Z.to_nat MAX_LABSTOR_MODULES →
  (∀ i, 0 <= i < n → healthy I i ∧ (need I i ≤ count_occ Z.eq_dec sched i)%nat) →
  ∃ I', exit_work_orchestrator_kernel fuel env fresh sched I m = Ret (tt, I') m ∧
    k_workers (ki_state I') = None ∧ ki_live I' = ki_live I ∧ ki_bad I' = ki_bad I ∧
    k_shmem (ki_state I') = k_shmem (ki_state I) ∧ k_bdevs (ki_state I') = k_bdevs (ki_state I) ∧
    ki_modules I' = <[Z.to_nat WORKER_MODULE_RUNTIME_ID := None]> (ki_modules I).
Proof.
  intros Hsp Hlen Hn. unfold exit_work_orchestrator_kernel.
  rewrite (lm_bind_run _ _ _ _ _ _ _ (set_keep_running_run I m)).
  destruct (wait_for_workers_ends fuel n sched (told I) m (spawned_stopping _ _ Hsp) Hn)
    as (I1 & E & [(ws & Hws & _) _ _] & Hu & _).
  rewrite (lm_bind_run _ _ _ _ _ _ _ E), (lm_bind_run _ _ _ _ I1 I1 m), Hws by done.
  destruct Hu as (Hmod & Hlive & Hbad & Hshm & _ & Hbdev & _).
  erewrite lm_bind_run by done. rewrite lm_unregister_run.
  - eexists. split; [done|]. cbn. by rewrite Hmod, Hshm, Hbdev.
  - cbn. rewrite Hmod. change (ki_modules (told I)) with (ki_modules I). rewrite Hlen.
    unfold WORKER_MODULE_RUNTIME_ID, MAX_LABSTOR_MODULES. lia.
Qed.

(** A worker that was never bound to a processor, or whose thread returned with
    an error, keeps the module from being unloaded, whatever runs. *)
Lemma orchestrator_unload_hangs fuel env fresh sched n I m i :
  spawned n I → 0 <= i < n → stuck I i →
  ∃ m', exit_work_orchestrator_kernel fuel env fresh sched I m = Spin m'.
Proof.
  intros Hsp Hi Hs. destruct (wait_for_workers_hangs fuel n sched (told I) m i) as (m' & E);
    [by apply spawned_stopping|done|done|]. exists m'. unfold exit_work_orchestrator_kernel.
  rewrite (lm_bind_run _ _ _ _ _ _ _ (set_keep_running_run I m)).
  unfold mbind, LM_bind, mbind, M_bind. unfold mbind, LM_bind, mbind, M_bind in E. by rewrite E.
Qed.

(** When the array of workers could not be allocated, unloading reads through
    the null pointer. *)
Lemma orchestrator_unload_null fuel env fresh sched I m :
  k_workers (ki_state I) = None → 0 < k_num_workers (ki_state I) →
  exit_work_orchestrator_kernel fuel env fresh sched I m = Fault.
Proof.
  intros Hws Hn. unfold exit_work_orchestrator_kernel.
  rewrite (lm_bind_run _ _ _ _ _ _ _ (set_keep_running_run I m)).
  assert (check_if_workers_stopped (ki_state (told I)) m = Fault) as E.
  { unfold check_if_workers_stopped. rewrite (km_bind_run _ _ _ _ (ki_state (told I)) (ki_state (told I)) m) by done.
    cbn. destruct (Z.to_nat (k_num_workers (ki_state I))) eqn:En; [lia|]. cbn.
    unfold get_worker, mbind, KM_bind, mbind, M_bind. cbn. by rewrite Hws. }
  destruct sched; cbn [wait_for_workers]; unfold mbind, LM_bind, lm_kernel, mbind, M_bind; by rewrite E.
Qed.

(** ** Loading and unloading in any order *)

Lemma get_init id : get_labstor_module_by_runtime_id init_labstor_module_manager id = None.
Proof.
  unfold get_labstor_module_by_runtime_id, init_labstor_module_manager. case_match eqn:Hb; [|done].
  rewrite lookup_replicate_2; [done|]. apply andb_true_iff in Hb. unfold MAX_LABSTOR_MODULES in *. lia.
Qed.

Lemma get_unregister modules id rid :
  length modules = Z.to_nat MAX_LABSTOR_MODULES → 0 <= rid →
  get_labstor_module_by_runtime_id (<[Z.to_nat rid := None]> modules) id =
    if decide (id = rid) then None else get_labstor_module_by_runtime_id modules id.
Proof.
  intros Hlen Hrid. unfold get_labstor_module_by_runtime_id, MAX_LABSTOR_MODULES in *.
  destruct (Z.leb_spec 0 id), (Z.ltb_spec id 64); cbn [andb]; try (by case_decide).
  case_decide as Hd.
  - subst. rewrite list_lookup_insert_eq; [done|]. rewrite Hlen. lia.
  - rewrite list_lookup_insert_ne; [done|]. lia.
Qed.

Lemma shmem_op_total {A} (c : SM A) k m a s :
  c (k_shmem k) = Some (a, s) → ∃ k', k_shmem_op c k m = Ret (a, k') m ∧ k_shmem k' = s.
Proof. intros E. unfold k_shmem_op. rewrite E. by eexists. Qed.

(** Operations that leave the table and the objects alone. *)
Definition keeps {A} (c : LM A) : Prop :=
  ∀ I m a I' m', c I m = Ret (a, I') m' → ki_modules I' = ki_modules I ∧ ki_live I' = ki_live I.

Lemma lm_bind_inv {A B} (c : LM A) (f : A → LM B) I m b I'' m'' :
  (c ≫= f) I m = Ret (b, I'') m'' → ∃ a I' m', c I m = Ret (a, I') m' ∧ f a I' m' = Ret (b, I'') m''.
Proof.
  unfold mbind, LM_bind, mbind, M_bind. destruct (c I m) as [[a I'] m'|? ?|?|]; try done. intros E. by exists a, I', m'.
Qed.

Lemma lm_ret_inj {A} (a a' : A) (I I' : kimage) (m m' : mem) :
  Ret (a, I) m = Ret (a', I') m' → a = a' ∧ I = I' ∧ m = m'.
Proof. by intros [= -> -> ->]. Qed.

Lemma keeps_ret {A} (a : A) : keeps (mret a).
Proof. intros I m ? ? ? [= <- <- <-]. done. Qed.

Lemma keeps_bind {A B} (c : LM A) (f : A → LM B) : keeps c → (∀ a, keeps (f a)) → keeps (c ≫= f).
Proof.
  intros Hc Hf I m b I'' m'' (a & I' & m' & E1 & E2)%lm_bind_inv.
  apply Hc in E1 as [<- <-]. by eapply Hf.
Qed.

Lemma keeps_get : keeps lm_get.
Proof. intros I m ? ? ? [= <- <- <-]. done. Qed.

Lemma keeps_update f : (∀ I, ki_modules (f I) = ki_modules I ∧ ki_live (f I) = ki_live I) → keeps (lm_update f).
Proof. intros Hf I m ? ? ? [= <- <- <-]. apply Hf. Qed.

Lemma keeps_kernel {A} (c : KM A) : keeps (lm_kernel c).
Proof.
  intros I m a I' m'. unfold lm_kernel, mbind, M_bind. destruct (c (ki_state I) m); try done.
  intros [= <- <- <-]. done.
Qed.

Lemma keeps_spin {A} : keeps (lm_spin (A := A)).
Proof. by intros I m a I' m'. Qed.

Create HintDb lifecycle.
#[export] Hint Resolve keeps_ret keeps_bind keeps_get keeps_kernel keeps_spin : lifecycle.

Lemma keeps_thread_returns i code : keeps (thread_returns i code).
Proof. by apply keeps_update. Qed.
#[export] Hint Resolve keeps_thread_returns : lifecycle.

Lemma keeps_thread_step fuel i : keeps (worker_thread_step fuel i).
Proof.
  unfold worker_thread_step. apply keeps_bind; [apply keeps_get|]. intros I.
  destruct (worker_at I i) as [w|]; [|auto with lifecycle].
  repeat case_match; eauto with lifecycle.
  - by apply keeps_update.
  - apply keeps_bind; [auto with lifecycle|]. intros []; auto with lifecycle.
Qed.
#[export] Hint Resolve keeps_thread_step : lifecycle.

Lemma keeps_wait fuel sched : keeps (wait_for_workers fuel sched).
Proof.
  induction sched as [|i sched IH]; cbn [wait_for_workers]; (apply keeps_bind; [auto with lifecycle|]);
    intros []; auto with lifecycle.
Qed.
#[export] Hint Resolve keeps_wait : lifecycle.

Lemma unregister_plain pkg I m a I' m' :
  length (ki_modules I) = Z.to_nat MAX_LABSTOR_MODULES → lm_runtime_id pkg < MAX_LABSTOR_MODULES →
  lm_unregister pkg I m = Ret (a, I') m' →
  ki_modules I' = <[Z.to_nat (lm_runtime_id pkg) := None]> (ki_modules I) ∧ ki_live I' = ki_live I.
Proof.
  intros Hlen Hid E. rewrite lm_unregister_run in E by (rewrite Hlen; unfold MAX_LABSTOR_MODULES in *; lia).
  by injection E as <- <- <-.
Qed.

(** An exit function ends with its entry of the table cleared. *)
Lemma unregister_after {A} (c : LM A) pkg I m a I' m' :
  keeps c → length (ki_modules I) = Z.to_nat MAX_LABSTOR_MODULES → lm_runtime_id pkg < MAX_LABSTOR_MODULES →
  (c ≫= λ _, lm_unregister pkg) I m = Ret (a, I') m' →
  ki_modules I' = <[Z.to_nat (lm_runtime_id pkg) := None]> (ki_modules I) ∧ ki_live I' = ki_live I.
Proof.
  intros Hc Hlen Hid (? & I1 & m1 & E1 & E2)%lm_bind_inv. apply Hc in E1 as [Hm Hl]. rewrite <- Hm in Hlen |- *.
  rewrite <- Hl. by apply unregister_plain in E2.
Qed.

Inductive kmodule := MShmem | MIpcManager | MWorker | MIpcTest | MBlkdev | MMq.

#[export] Instance kmodule_eq_dec : EqDecision kmodule.
Proof. solve_decision. Defined.

Section life_cycle.
Context {S : Type} `{SbitmapQueue S} (fuel : nat) (env : kenv) (fresh : labstor_work_queue) (menv : mq_env (S := S)).

Definition module_pkg (md : kmodule) : labstor_module :=
  match md with
  | MShmem => shmem_module env
  | MIpcManager => ipc_manager_module env
  | MWorker => worker_module env fresh
  | MIpcTest => ipc_test_pkg fuel
  | MBlkdev => blkdev_table_pkg fuel env
  | MMq => mq_driver_module fuel menv
  end.

Definition init_module (md : kmodule) (oe : kobj_env) : LM Z :=
  match md with
  | MShmem => init_secure_shmem env oe
  | MIpcManager => init_ipc_manager env
  | MWorker => init_work_orchestrator_kernel env fresh
  | MIpcTest => init_ipc_test fuel
  | MBlkdev => init_blkdev_table fuel env oe
  | MMq => init_mq_driver_km (mq_driver_module fuel menv)
  end.

Definition exit_module (md : kmodule) (sched : list Z) : LM unit :=
  match md with
  | MShmem => exit_secure_shmem env
  | MIpcManager => exit_ipc_manager env
  | MWorker => exit_work_orchestrator_kernel fuel env fresh sched
  | MIpcTest => exit_ipc_test fuel
  | MBlkdev => exit_blkdev_table_km fuel env
  | MMq => exit_mq_driver_km (mq_driver_module fuel menv)
  end.

(** The loaded modules, after the server of the kernel has started: modules are
    loaded (and not, when their init function returns an error), unloaded,
    get messages, and their threads run; processes write to memory. *)
Inductive loads : (kmodule → bool) → kimage → mem → Prop :=
| loads_server oe I m I' m' :
    init_labstor_kernel_server oe I m = Ret (0, I') m' → loads (λ _, false) I' m'
| loads_init L I m md oe code I' m' :
    loads L I m → L md = false → init_module md oe I m = Ret (code, I') m' →
    loads (λ md', if decide (md' = md) then code =? 0 else L md') I' m'
| loads_exit L I m md sched I' m' :
    loads L I m → L md = true → exit_module md sched I m = Ret (tt, I') m' →
    loads (λ md', if decide (md' = md) then false else L md') I' m'
| loads_message L I m pid rq k' m' :
    loads L I m → server_loop env (ki_modules I) pid rq (ki_state I) m = Ret (tt, k') m' →
    loads L (with_state k' I) m'
| loads_thread L I m i I' m' :
    loads L I m → worker_thread_step fuel i I m = Ret (tt, I') m' → loads L I' m'
| loads_memory L I m m' : loads L I m → loads L I m'.

(** What the shared-memory device needs. *)
Definition device_objects : gset kobject := {[KClass; KChrdev; KCdev; KCdevMap; KDevice]}.

Record loaded_inv (L : kmodule → bool) (I : kimage) : Prop := {
  li_length : length (ki_modules I) = Z.to_nat MAX_LABSTOR_MODULES;
  li_table : ∀ id pkg, get_labstor_module_by_runtime_id (ki_modules I) id = Some pkg ↔
    ∃ md, L md = true ∧ id = lm_runtime_id (module_pkg md) ∧ pkg = module_pkg md;
  li_socket : KSocket ∈ ki_live I;
  li_device : L MShmem = true → device_objects ⊆ ki_live I
}.

(** The invariant is about the table and the objects only. *)
Lemma loaded_inv_same L I I' :
  loaded_inv L I → ki_modules I' = ki_modules I → ki_live I' = ki_live I → loaded_inv L I'.
Proof. intros [H1 H2 H3 H4] Em El. split; by rewrite ?Em, ?El. Qed.

Lemma module_ids md : 0 <= lm_runtime_id (module_pkg md) < MAX_LABSTOR_MODULES.
Proof. by destruct md. Qed.

Lemma module_id_inj md md' : lm_runtime_id (module_pkg md) = lm_runtime_id (module_pkg md') → md = md'.
Proof. by destruct md, md'. Qed.

(** Registration of a module that is loaded now. *)
Lemma loaded_register L I I' md :
  loaded_inv L I → L md = false →
  ki_modules I' = register_labstor_module (ki_modules I) (module_pkg md) → ki_live I ⊆ ki_live I' →
  (md = MShmem → device_objects ⊆ ki_live I') →
  loaded_inv (λ md', if decide (md' = md) then true else L md') I'.
Proof.
  intros [Hlen Htab Hsock Hdev] Hmd Em El Hnew. pose proof (module_ids md) as [Hid0 Hid1]. split.
  - by rewrite Em, length_register.
  - intros id pkg. rewrite Em, get_register by done. split.
    + case_decide as Hd.
      * intros [= <-]. exists md. by rewrite decide_True; destruct_and?.
      * intros (md' & H1 & H2 & H3)%Htab. exists md'. rewrite decide_False; [done|]. congruence.
    + intros (md' & H1 & -> & ->). case_decide as Hd; [subst; by rewrite decide_True|].
      rewrite decide_False by (intros [?%module_id_inj ?]; done). apply Htab. eauto.
  - set_solver.
  - case_decide as Hd; [auto|]. intros H1. etrans; [by apply Hdev|done].
Qed.

(** The entry of a module cleared. *)
Lemma loaded_unregister L I I' md :
  loaded_inv L I →
  ki_modules I' = <[Z.to_nat (lm_runtime_id (module_pkg md)) := None]> (ki_modules I) →
  KSocket ∈ ki_live I' → (md ≠ MShmem → ki_live I' = ki_live I) →
  loaded_inv (λ md', if decide (md' = md) then false else L md') I'.
Proof.
  intros [Hlen Htab Hsock Hdev] Em Hs El. pose proof (module_ids md) as [Hid0 Hid1]. split.
  - by rewrite Em, length_insert.
  - intros id pkg. rewrite Em, get_unregister by done. split.
    + case_decide as Hd; [done|]. intros (md' & H1 & H2 & H3)%Htab. exists md'. rewrite decide_False; [done|]. congruence.
    + intros (md' & H1 & -> & ->). case_decide as Hd; [done|].
      rewrite decide_False by (by intros ?%module_id_inj). apply Htab. eauto.
  - done.
  - case_decide as Hd; [done|]. intros H1. rewrite El by done. by apply Hdev.
Qed.

(** A module whose init function failed. *)
Lemma loaded_inv_failed L I I' md :
  loaded_inv L I → L md = false → ki_modules I' = ki_modules I → KSocket ∈ ki_live I' → md = MShmem →
  loaded_inv (λ md', if decide (md' = md) then false else L md') I'.
Proof.
  intros [H1 H2 H3 H4] Hmd Em Hs ->. split; [by rewrite Em| |done|by rewrite decide_True].
  intros id pkg. rewrite Em, H2. split; intros (md' & ? & ? & ?); exists md'; case_decide; naive_solver.
Qed.

(** The objects that remain, up to those of the device. *)
Ltac residue :=
  split; [done|]; unfold device_objects; cbn;
  repeat (rewrite ?released_modules, ?released_live; cbn); split; [done|]; set_solver.

(** The init function of the shared memory: the device and its module, or an
    error code and no entry in the table. *)
Lemma init_secure_shmem_run oe I m code I' m' :
  init_secure_shmem env oe I m = Ret (code, I') m' →
  (code = 0 ∧ ki_modules I' = register_labstor_module (ki_modules I) (shmem_module env) ∧
     ki_live I' = device_objects ∪ ki_live I ∧ ki_bad I' = ki_bad I) ∨
  (code = -1 ∧ ki_modules I' = ki_modules I ∧ ki_live I ∖ device_objects = ki_live I' ∖ device_objects).
Proof.
  unfold init_secure_shmem, cdev_del. rewrite (lm_bind_run _ _ _ _ _ _ _ (lm_kernel_run _ _ _ _ _ _ eq_refl)).
  destruct (oe_class oe); cbn [negb].
  2: { erewrite (lm_bind_run (release KCdev ≫= _)); [|by rewrite (lm_bind_run _ _ _ _ _ _ _ (release_run _ _ _))].
       rewrite (lm_bind_run _ _ _ _ _ _ _ (release_run _ _ _)). intros (<- & <- & <-)%lm_ret_inj.
       right. residue. }
  rewrite (lm_bind_run _ _ _ _ _ _ _ (acquire_run _ _ _)). destruct (oe_chrdev oe); cbn [negb].
  2: { intros (<- & <- & <-)%lm_ret_inj. right. residue. }
  rewrite !(lm_bind_run _ _ _ _ _ _ _ (acquire_run _ _ _)). destruct (oe_device oe); cbn [negb].
  2: { rewrite (lm_bind_run _ _ _ _ _ _ _ (release_run _ _ _)).
       erewrite (lm_bind_run (release KCdev ≫= _)); [|by rewrite (lm_bind_run _ _ _ _ _ _ _ (release_run _ _ _))].
       rewrite (lm_bind_run _ _ _ _ _ _ _ (release_run _ _ _)). intros (<- & <- & <-)%lm_ret_inj.
       right. residue. }
  rewrite (lm_bind_run _ _ _ _ _ _ _ (acquire_run _ _ _)). destruct (oe_cdev oe); cbn [negb].
  2: { intros (<- & <- & <-)%lm_ret_inj. right. residue. }
  rewrite (lm_bind_run _ _ _ _ _ _ _ (acquire_run _ _ _)).
  rewrite (lm_bind_run _ _ _ _ _ _ _ (lm_register_run _ _ _)). intros (<- & <- & <-)%lm_ret_inj.
  left. cbn. unfold device_objects. split_and!; try done. set_solver.
Qed.

Lemma exit_secure_shmem_run I m u I' m' :
  length (ki_modules I) = Z.to_nat MAX_LABSTOR_MODULES →
  exit_secure_shmem env I m = Ret (u, I') m' →
  ki_modules I' = <[Z.to_nat SHMEM_MODULE_RUNTIME_ID := None]> (ki_modules I) ∧
  ki_live I' = ki_live I ∖ device_objects ∧ (device_objects ⊆ ki_live I → ki_bad I' = ki_bad I).
Proof.
  intros Hlen. unfold exit_secure_shmem, cdev_del.
  rewrite !(lm_bind_run _ _ _ _ _ _ _ (release_run _ _ _)).
  erewrite (lm_bind_run (release KCdev ≫= _)); [|by rewrite (lm_bind_run _ _ _ _ _ _ _ (release_run _ _ _))].
  rewrite (lm_bind_run _ _ _ _ _ _ _ (lm_kernel_run _ _ _ _ _ _ eq_refl)).
  rewrite (lm_bind_run _ _ _ _ _ _ _ (release_run _ _ _)).
  rewrite lm_unregister_run by (rewrite released_modules; cbn; rewrite !released_modules, Hlen; done).
  intros (_ & <- & _)%lm_ret_inj. unfold device_objects.
  repeat (rewrite ?released_modules, ?released_live; cbn). split_and!; [done|set_solver|].
  intros Hsub. repeat (rewrite released_bad by (rewrite ?released_live; cbn; rewrite ?released_live; set_solver); cbn).
  done.
Qed.

Lemma exit_orchestrator_run sched I m u I' m' :
  length (ki_modules I) = Z.to_nat MAX_LABSTOR_MODULES →
  exit_work_orchestrator_kernel fuel env fresh sched I m = Ret (u, I') m' →
  ki_modules I' = <[Z.to_nat WORKER_MODULE_RUNTIME_ID := None]> (ki_modules I) ∧ ki_live I' = ki_live I.
Proof.
  intros Hlen (? & I1 & m1 & [H1 H1']%keeps_kernel & E)%lm_bind_inv.
  apply lm_bind_inv in E as (? & I2 & m2 & [H2 H2']%keeps_wait & E).
  apply lm_bind_inv in E as (I3 & I4 & m4 & [H3 H3']%keeps_get & E).
  rewrite <- H1, <- H2, <- H3 in Hlen |- *. rewrite <- H1', <- H2', <- H3'.
  apply (unregister_after _ (worker_module env fresh)) in E; [exact E| |exact Hlen|reflexivity].
  destruct (k_workers _); auto with lifecycle.
Qed.

Lemma exit_module_run md sched I m u I' m' :
  length (ki_modules I) = Z.to_nat MAX_LABSTOR_MODULES → exit_module md sched I m = Ret (u, I') m' →
  ki_modules I' = <[Z.to_nat (lm_runtime_id (module_pkg md)) := None]> (ki_modules I) ∧
  ki_live I' = if decide (md = MShmem) then ki_live I ∖ device_objects else ki_live I.
Proof.
  intros Hlen E. destruct md.
  - assert (exit_module MShmem sched = exit_secure_shmem env) as Ex by reflexivity. rewrite Ex in E.
    destruct (exit_secure_shmem_run _ _ _ _ _ Hlen E) as (Em & El & _). exact (conj Em El).
  - exact (unregister_plain (ipc_manager_module env) _ _ _ _ _ Hlen eq_refl E).
  - exact (exit_orchestrator_run _ _ _ _ _ _ Hlen E).
  - exact (unregister_plain (ipc_test_pkg fuel) _ _ _ _ _ Hlen eq_refl E).
  - exact (unregister_after _ (blkdev_table_pkg fuel env) _ _ _ _ _ (keeps_kernel _) Hlen eq_refl E).
  - exact (unregister_plain (mq_driver_module fuel menv) _ _ _ _ _ Hlen eq_refl E).
Qed.

Lemma init_module_run md oe I m code I' m' :
  init_module md oe I m = Ret (code, I') m' →
  (code = 0 ∧ ki_modules I' = register_labstor_module (ki_modules I) (module_pkg md) ∧ ki_live I ⊆ ki_live I' ∧
    (md = MShmem → device_objects ⊆ ki_live I')) ∨
  (md = MShmem ∧ code = -1 ∧ ki_modules I' = ki_modules I ∧ ki_live I ∖ device_objects = ki_live I' ∖ device_objects).
Proof.
  assert (Hplain : ∀ pkg, (lm_register pkg ≫= λ _, mret 0) I m = Ret (code, I') m' → md ≠ MShmem →
    pkg = module_pkg md → code = 0 ∧ ki_modules I' = register_labstor_module (ki_modules I) (module_pkg md) ∧
    ki_live I ⊆ ki_live I' ∧ (md = MShmem → device_objects ⊆ ki_live I')).
  { intros pkg. rewrite (lm_bind_run _ _ _ _ _ _ _ (lm_register_run _ _ _)).
    intros (<- & <- & <-)%lm_ret_inj Hne ->. by split_and!. }
  destruct md; intros E.
  - assert (init_module MShmem oe = init_secure_shmem env oe) as Ex by reflexivity. rewrite Ex in E.
    destruct (init_secure_shmem_run _ _ _ _ _ _ E) as [(? & ? & El & _)|(? & ? & ?)]; [left|right; by split_and!].
    split_and!; [done|done| |]; rewrite El; set_solver.
  - left. by apply (Hplain (ipc_manager_module env)).
  - left. by apply (Hplain (worker_module env fresh)).
  - left. by apply (Hplain (ipc_test_pkg fuel)).
  - left. assert (init_module MBlkdev oe = init_blkdev_table fuel env oe) as Ex by reflexivity. rewrite Ex in E.
    unfold init_blkdev_table in E. rewrite (lm_bind_run _ _ _ _ _ _ _ (lm_register_run _ _ _)) in E.
    destruct (oe_page_cache oe).
    + rewrite (lm_bind_run _ _ _ _ _ _ _ (acquire_run _ _ _)) in E. apply lm_ret_inj in E as (<- & <- & <-).
      split_and!; [done|done|cbn; set_solver|done].
    + apply lm_ret_inj in E as (<- & <- & <-). by split_and!.
  - left. by apply (Hplain (mq_driver_module fuel menv)).
Qed.

Lemma init_server_run oe I m I' m' :
  init_labstor_kernel_server oe I m = Ret (0, I') m' →
  ki_modules I' = init_labstor_module_manager ∧ KSocket ∈ ki_live I'.
Proof.
  unfold init_labstor_kernel_server, start_server.
  rewrite (lm_bind_run _ _ _ _ tt (with_modules init_labstor_module_manager I) m) by reflexivity.
  destruct (oe_socket oe); cbn [negb].
  - rewrite (lm_bind_run _ _ _ _ 0 (with_objects ({[KSocket]} ∪ ki_live I) (ki_bad I) (with_modules init_labstor_module_manager I)) m)
      by reflexivity.
    intros (_ & <- & _)%lm_ret_inj. split; [reflexivity|]. apply elem_of_union_l, elem_of_singleton_2. done.
  - rewrite (lm_bind_run _ _ _ _ (-1) (with_modules init_labstor_module_manager I) m) by reflexivity.
    change (-1 <? 0) with true. cbv iota.
    rewrite (lm_bind_run _ _ _ _ tt (with_modules init_labstor_module_manager I) m) by reflexivity.
    intros ([=] & _)%lm_ret_inj.
Qed.

Lemma socket_not_device (X : gset kobject) : KSocket ∈ X ↔ KSocket ∈ X ∖ device_objects.
Proof. unfold device_objects. set_solver. Qed.

Lemma loads_invariant L I m : loads L I m → loaded_inv L I.
Proof.
  induction 1 as [oe I m I' m' E|L I m md oe code I' m' _ IH Hmd E|L I m md sched I' m' _ IH Hmd E
    |L I m pid rq k' m' _ IH E|L I m i I' m' _ IH E|L I m m' _ IH].
  - apply init_server_run in E as [Em Hs]. split; [by rewrite Em| |done|done].
    intros id pkg. rewrite Em, get_init. split; [done|by intros (? & ? & _)].
  - destruct (init_module_run md oe I m code I' m' E) as [(-> & Em & El & Hd)|(-> & -> & Em & El)].
    + by apply (loaded_register _ I).
    + apply (loaded_inv_failed _ I _ MShmem); [done..| |done].
      apply (proj2 (socket_not_device _)). rewrite <- El. apply (proj1 (socket_not_device _)), (li_socket _ _ IH).
  - destruct (exit_module_run md sched I m tt I' m' (li_length _ _ IH) E) as [Em El].
    apply (loaded_unregister _ I); [done|done| |]; rewrite El.
    + destruct (decide (md = MShmem)); [apply (proj1 (socket_not_device _))|]; apply (li_socket _ _ IH).
    + intros Hne. by rewrite decide_False.
  - by apply (loaded_inv_same _ I).
  - apply keeps_thread_step in E as [Em El]. by apply (loaded_inv_same _ I).
  - exact IH.
Qed.

(** C5. After any sequence of loads, unloads, messages and steps of the threads,
    messages reach the loaded modules and no others: a message for a module that
    is not loaded is answered with -1, one for a loaded module runs its handler
    (-2 when it has none), and the device of the shared memory is there as long
    as its module is loaded. *)
Theorem dispatch_follows_loads L I m pid rq :
  loads L I m → valid m (rq + rq_ns_id_) 4 →
  let id := s32 (read 4 (rq + rq_ns_id_) m) in
  ((∀ md, L md = true → id ≠ lm_runtime_id (module_pkg md)) →
     server_loop env (ki_modules I) pid rq (ki_state I) m =
     labstor_msg_trusted_server env (RCode (-1)) pid (ki_state I) m) ∧
  (∀ md, L md = true → id = lm_runtime_id (module_pkg md) →
     server_loop env (ki_modules I) pid rq (ki_state I) m =
     match lm_process_request_fn_netlink (module_pkg md) with
     | Some f => f pid rq (ki_state I) m
     | None => labstor_msg_trusted_server env (RCode (-2)) pid (ki_state I) m
     end) ∧
  KSocket ∈ ki_live I ∧ (L MShmem = true → device_objects ⊆ ki_live I).
Proof.
  intros Hl Hv id. destruct (loads_invariant _ _ _ Hl) as [_ Htab Hs Hd].
  assert (∀ k, server_loop env (ki_modules I) pid rq k m =
    match get_labstor_module_by_runtime_id (ki_modules I) id with
    | None => labstor_msg_trusted_server env (RCode (-1)) pid
    | Some pkg => match lm_process_request_fn_netlink pkg with
                  | None => labstor_msg_trusted_server env (RCode (-2)) pid
                  | Some f => f pid rq
                  end
    end k m) as Hrun.
  { intros k. unfold server_loop. rewrite (km_bind_run _ _ _ _ (read 4 (rq + rq_ns_id_) m) k m); [done|].
    assert (load32 (rq + rq_ns_id_) m = Ret (read 4 (rq + rq_ns_id_) m) m) as E by (apply wp_exact, wp_load; done).
    unfold lift, mbind, M_bind. by rewrite E. }
  split_and!; [| |done|done].
  - intros Hno. rewrite Hrun. destruct (get_labstor_module_by_runtime_id _ _) as [pkg|] eqn:E; [|done].
    apply Htab in E as (md & H1 & H2 & _). by destruct (Hno md H1).
  - intros md H1 H2. rewrite Hrun, (proj2 (Htab id (module_pkg md))) by eauto.
    by destruct (lm_process_request_fn_netlink (module_pkg md)).
Qed.

End life_cycle.

(** ** Examples and limits *)

Definition all_calls : kobj_env :=
  {| oe_socket := true; oe_class := true; oe_chrdev := true; oe_device := true; oe_cdev := true; oe_page_cache := true |}.

Definition ex_worker_threads : list labstor_worker_struct :=
  [{| lw_work_queue_ := labstor_work_queue_Attach 5000; lw_complete_ack_ := false; lw_worker_id_ := 0; lw_cpu := Some 2 |};
   {| lw_work_queue_ := labstor_work_queue_Attach 6000; lw_complete_ack_ := false; lw_worker_id_ := 1; lw_cpu := Some 3 |}].

Definition ex_allocator : labstor_shmem_allocator :=
  {| sm_base_region_ := 4096; sm_concurrency_ := 1; sm_region_size_ := 8192; sm_header_ := 4096; sm_per_core_allocs_ := [] |}.

Definition ex_image : kimage :=
  {| ki_modules := init_labstor_module_manager;
     ki_state := {| k_shmem := shmem_init;
                    k_ipc_manager_ := {| im_region_id := 0; im_region := 4096; im_alloc := ex_allocator |};
                    k_workers := Some ex_worker_threads; k_num_workers := 2; k_keep_running := true;
                    k_shmem_region_id := 1; k_shmem_region := 5000; k_bdevs := replicate 64 None; k_sent := [] |};
     ki_live := ∅; ki_bad := []; ki_started := {[0]}; ki_returned := ∅ |}.

Definition ex_kenv : kenv :=
  {| ke_page_size := 4096; ke_alloc := {| ae_info := None; ae_data := None |}; ke_skb := true; ke_worker_mem := true;
     ke_blkdev_get_by_path := λ _ _, inl (-2) |}.

Definition run_image {A} (c : LM A) (I : kimage) : option (A * kimage) :=
  match c I ∅ with Ret r _ => Some r | _ => None end.

(** Two workers, one of which had not begun, acknowledge and the module goes. *)
Lemma orchestrator_unloads_witness :
  ∃ I', exit_work_orchestrator_kernel 1 ex_kenv (labstor_work_queue_Attach 0) [1; 0; 1] ex_image ∅ = Ret (tt, I') ∅ ∧
    k_workers (ki_state I') = None ∧ ki_live I' = ∅ ∧ ki_bad I' = [] ∧
    k_shmem (ki_state I') = shmem_init ∧ k_bdevs (ki_state I') = replicate 64 None ∧
    ki_modules I' = <[Z.to_nat WORKER_MODULE_RUNTIME_ID := None]> init_labstor_module_manager.
Proof.
  apply (orchestrator_unloads 1 ex_kenv (labstor_work_queue_Attach 0) [1; 0; 1] 2 ex_image ∅).
  - split; [by exists ex_worker_threads|done].
  - reflexivity.
  - intros i Hi. assert (i = 0 ∨ i = 1) as [-> | ->] by lia.
    + split; [|vm_compute; lia]. right. split_and!; [by eexists _, 2|done|left; set_solver].
    + split; [|vm_compute; lia]. right. split_and!; [by eexists _, 3|done|right; reflexivity].
Defined.

(** The loaded modules after the server and the shared memory. *)
Lemma dispatch_follows_loads_witness :
  ∃ I, server_loop ex_kenv (ki_modules I) 77 8192 (ki_state I) (zero_region 8192 16) =
       labstor_msg_trusted_server ex_kenv (RCode (-1)) 77 (ki_state I) (zero_region 8192 16) ∧
       device_objects ⊆ ki_live I.
Proof.
  assert (∃ I, loads 1 ex_kenv (labstor_work_queue_Attach 0) ex_mq_env
    (λ md, if decide (md = MShmem) then true else false) I (zero_region 8192 16)) as [I Hl].
  { eexists. eapply (loads_init _ _ _ _ (λ _, false) _ _ MShmem all_calls 0); [|reflexivity|].
    - eapply (loads_server _ _ _ _ all_calls ex_image). reflexivity.
    - reflexivity. }
  destruct (dispatch_follows_loads 1 ex_kenv (labstor_work_queue_Attach 0) ex_mq_env _ I (zero_region 8192 16) 77 8192 Hl)
    as (H1 & _ & _ & H2).
  { apply (validb_valid _ _ 4). vm_compute. reflexivity. }
  exists I. split; [|by apply H2]. apply H1. intros [] ?; vm_compute; done.
Defined.

(** When the class cannot be created, a cdev and numbers that were never there
    are released. *)
Lemma init_shmem_class_fails :
  (λ r, (r.1, elements (ki_live r.2), ki_bad r.2)) <$>
    run_image (init_secure_shmem ex_kenv {| oe_socket := true; oe_class := false; oe_chrdev := true; oe_device := true;
      oe_cdev := true; oe_page_cache := true |}) ex_image = Some (-1, [], [KChrdev; KCdev]).
Proof. vm_compute. reflexivity. Qed.

(** When no device numbers are to be had, the class stays. *)
Lemma init_shmem_chrdev_fails :
  (λ r, (r.1, bool_decide (ki_live r.2 = {[KClass]}))) <$>
    run_image (init_secure_shmem ex_kenv {| oe_socket := true; oe_class := true; oe_chrdev := false; oe_device := true;
      oe_cdev := true; oe_page_cache := true |}) ex_image = Some (-1, true).
Proof. vm_compute. reflexivity. Qed.

(** When the cdev cannot be added, everything before it stays. *)
Lemma init_shmem_cdev_fails :
  (λ r, (r.1, bool_decide (ki_live r.2 = {[KClass; KChrdev; KCdev; KDevice]}))) <$>
    run_image (init_secure_shmem ex_kenv {| oe_socket := true; oe_class := true; oe_chrdev := true; oe_device := true;
      oe_cdev := false; oe_page_cache := true |}) ex_image = Some (-1, true).
Proof. vm_compute. reflexivity. Qed.

(** The cache of page arrays outlives its module. *)
Lemma page_cache_leaks :
  (λ r, bool_decide (ki_live r.2 = {[KPageCache]})) <$>
    run_image (_ ← init_blkdev_table 1 ex_kenv all_calls; exit_blkdev_table_km 1 ex_kenv) ex_image = Some true.
Proof. vm_compute. reflexivity. Qed.

(** Loading and unloading the shared memory leaves nothing behind. *)
Lemma shmem_load_unload :
  (λ r, (elements (ki_live r.2), ki_bad r.2)) <$>
    run_image (_ ← init_secure_shmem ex_kenv all_calls; exit_secure_shmem ex_kenv) ex_image = Some ([], []).
Proof. vm_compute. reflexivity. Qed.
