(* ===== verification/Binary64.v ===== *)
(** * Binary64.v: doubles that count

    The timers of userspace/util/timer.h add up nanoseconds and divide them in
    [double].  The operations are those of the Standard Library's
    specification of binary floating point, at 53 bits of precision; this file
    shows what they do on integers below 2^53: sums are exact, comparisons are
    those of the integers, and a rounded quotient does not cross an integer. *)

From S2P Require Import Prelude.
From Stdlib Require Import SpecFloat.

Local Open Scope Z_scope.

(** ** The type [double] *)

Abbreviation double := spec_float.

Definition double_of_Z (n : Z) : double := binary_normalize 53 1024 n 0 false.
Definition double_add : double → double → double := SFadd 53 1024.
Definition double_div : double → double → double := SFdiv 53 1024.
(** [x < y]; false when one is not a number. *)
Definition double_ltb : double → double → bool := SFltb.

(** ** Digits and shifts *)

Definition digits (n : Z) : Z := Z.log2 n + 1.

Lemma digits2_pos_digits p : Z.pos (digits2_pos p) = digits (Z.pos p).
Proof.
  unfold digits. induction p as [p IH|p IH|]; cbn [digits2_pos]; [| |done].
  - rewrite Pos2Z.inj_succ, IH. change (Z.pos p~1) with (2 * Z.pos p + 1).
    rewrite Z.log2_succ_double by lia. lia.
  - rewrite Pos2Z.inj_succ, IH. change (Z.pos p~0) with (2 * Z.pos p).
    rewrite Z.log2_double by lia. lia.
Qed.

Lemma digits_shift n k : 0 < n → 0 <= k → digits (n * 2 ^ k) = digits n + k.
Proof. intros. unfold digits. rewrite Z.log2_mul_pow2 by lia. lia. Qed.

Lemma digits_spec n d : 0 < n → digits n = d ↔ 2 ^ (d - 1) <= n < 2 ^ d.
Proof.
  intros Hn. unfold digits. split.
  - intros <-. replace (Z.log2 n + 1 - 1) with (Z.log2 n) by lia.
    replace (Z.log2 n + 1) with (Z.succ (Z.log2 n)) by lia. by apply Z.log2_spec.
  - intros Hd. assert (0 <= d - 1).
    { destruct (Z.ltb_spec (d - 1) 0); [|done]. rewrite (Z.pow_neg_r 2 (d - 1)) in Hd by done.
      destruct (Z.eq_dec d 0) as [->|]; [cbn in Hd; lia|]. rewrite (Z.pow_neg_r 2 d) in Hd by lia. lia. }
    rewrite (Z.log2_unique n (d - 1)); [lia|done|]. by replace (Z.succ (d - 1)) with d by lia.
Qed.

Lemma digits_range n : 0 < n < 2 ^ 53 → 1 <= digits n <= 53.
Proof.
  intros Hn. unfold digits. pose proof (Z.log2_nonneg n).
  pose proof (proj1 (Z.log2_lt_pow2 n 53 ltac:(lia)) ltac:(lia)). lia.
Qed.

Lemma fexp_normal e : -1021 <= e → fexp 53 1024 e = e - 53.
Proof. unfold fexp, emin. lia. Qed.

Lemma iter_pos_nat {A} (f : A → A) p x : iter_pos f p x = Nat.iter (Pos.to_nat p) f x.
Proof.
  revert x. induction p as [p IH|p IH|]; intros x; cbn [iter_pos]; [| |done].
  - rewrite !IH, <- Nat.iter_add, Pos2Nat.inj_xI. rewrite <- Nat.iter_succ_r. f_equal. lia.
  - rewrite !IH, <- Nat.iter_add, Pos2Nat.inj_xO. f_equal. lia.
Qed.

(** Zeroes shifted out to the right leave no trace. *)
Lemma shr_1_even m : 0 < m → shr_1 (Build_shr_record (2 * m) false false) = Build_shr_record m false false.
Proof. by destruct m. Qed.

Lemma shr_exact k m : 0 < m → (Nat.iter k shr_1 (Build_shr_record (m * 2 ^ Z.of_nat k) false false)) =
  Build_shr_record m false false.
Proof.
  intros Hm. induction k as [|k IH]; [cbn; by rewrite Z.mul_1_r|].
  rewrite Nat.iter_succ_r. rewrite Nat2Z.inj_succ, Z.pow_succ_r by lia.
  replace (m * (2 * 2 ^ Z.of_nat k)) with (2 * (m * 2 ^ Z.of_nat k)) by lia.
  rewrite shr_1_even by nia. exact IH.
Qed.

Lemma shr_zeroes m e k : 0 < m → 0 <= k →
  shr (Build_shr_record (m * 2 ^ k) false false) e k = (Build_shr_record m false false, e + k).
Proof.
  intros Hm Hk. unfold shr. destruct k as [|p|p]; [|rewrite iter_pos_nat|lia].
  - by rewrite Z.mul_1_r, Z.add_0_r.
  - rewrite <- (positive_nat_Z p) at 1. by rewrite shr_exact.
Qed.

Lemma Pos_iter_xO p d : Z.pos (Pos.iter xO p d) = Z.pos p * 2 ^ Z.pos d.
Proof.
  rewrite Pos2Nat.inj_iter. rewrite <- (positive_nat_Z d). induction (Pos.to_nat d) as [|k IH].
  - cbn. lia.
  - rewrite Nat2Z.inj_succ, Z.pow_succ_r by lia. cbn [Nat.iter nat_rect].
    change (Nat.iter (S k) xO p) with (xO (Nat.iter k xO p)) in *.
    cbn. change (Z.pos (Nat.iter k xO p)~0) with (2 * Z.pos (Nat.iter k xO p)). nia.
Qed.

(** ** Integers as doubles *)

(** The double of an integer below 2^53: 53 digits and an exponent. *)
Definition canon (n : Z) : double :=
  if n =? 0 then S754_zero false else S754_finite false (Z.to_pos (n * 2 ^ (53 - digits n))) (digits n - 53).

(** A mantissa of 53 digits. *)
Definition normal (m : Z) : Prop := 2 ^ 52 <= m < 2 ^ 53.

Lemma normal_digits m : normal m → digits m = 53.
Proof. intros Hm. apply digits_spec; [|exact Hm]. unfold normal in Hm. lia. Qed.

Lemma canon_normal n : 0 < n < 2 ^ 53 → normal (n * 2 ^ (53 - digits n)).
Proof.
  intros Hn. pose proof (digits_range n Hn) as Hd.
  destruct (proj1 (digits_spec n (digits n) ltac:(lia)) eq_refl) as [Hl Hu].
  unfold normal. replace (2 ^ 52) with (2 ^ (digits n - 1) * 2 ^ (53 - digits n))
    by (rewrite <- Z.pow_add_r by lia; f_equal; lia).
  replace (2 ^ 53) with (2 ^ digits n * 2 ^ (53 - digits n)) by (rewrite <- Z.pow_add_r by lia; f_equal; lia).
  split; [apply Z.mul_le_mono_nonneg_r; lia|apply Z.mul_lt_mono_pos_r; lia].
Qed.

(** Shifting a number of [53 + k] digits to 53. *)
Lemma shr_fexp_zeroes m e k :
  normal m → 0 <= k → -1021 <= 53 + k + e →
  shr_fexp 53 1024 (m * 2 ^ k) e loc_Exact = (Build_shr_record m false false, e + k).
Proof.
  intros Hm Hk He. unfold shr_fexp. assert (0 < m) by (unfold normal in Hm; lia).
  assert (Zdigits2 (m * 2 ^ k) = 53 + k) as ->.
  { assert (0 < m * 2 ^ k) by nia. unfold Zdigits2. destruct (m * 2 ^ k) as [|p|p] eqn:E; [lia| |lia].
    rewrite digits2_pos_digits, <- E, digits_shift, normal_digits by done. lia. }
  rewrite fexp_normal by lia. replace (53 + k + e - 53 - e) with k by lia. by apply shr_zeroes.
Qed.

(** Rounding a number that needs no rounding. *)
Lemma binary_round_aux_exact m e k :
  normal m → 0 <= k → -1021 <= 53 + k + e → e + k <= 971 →
  binary_round_aux 53 1024 false (m * 2 ^ k) e loc_Exact = S754_finite false (Z.to_pos m) (e + k).
Proof.
  intros Hm Hk He Hmax. unfold binary_round_aux. rewrite shr_fexp_zeroes by done.
  cbn [shr_m loc_of_shr_record round_nearest_even].
  pose proof (shr_fexp_zeroes m (e + k) 0 Hm ltac:(lia) ltac:(lia)) as E.
  rewrite Z.mul_1_r, Z.add_0_r in E. rewrite E. cbn [shr_m].
  destruct m as [|p|p]; unfold normal in Hm; try lia. cbn [Z.to_pos].
  by rewrite (proj2 (Z.leb_le _ _)) by lia.
Qed.

Lemma binary_round_int p e n :
  0 < n < 2 ^ 53 → -100 <= e <= 0 → Z.pos p = n * 2 ^ (- e) → binary_round 53 1024 false p e = canon n.
Proof.
  intros Hn He Hp. pose proof (digits_range n Hn) as Hd. pose proof (canon_normal n Hn) as Hc.
  unfold canon. rewrite (proj2 (Z.eqb_neq n 0)) by lia. unfold binary_round.
  rewrite digits2_pos_digits, Hp, digits_shift by lia.
  rewrite fexp_normal by lia. replace (digits n + - e + e - 53) with (digits n - 53) by lia.
  unfold shl_align. destruct (digits n - 53 - e) as [|k|k] eqn:Ek.
  - replace (Z.pos p) with (n * 2 ^ (53 - digits n) * 2 ^ 0)
      by (change (2 ^ 0) with 1; rewrite Hp, Z.mul_1_r; do 2 f_equal; lia).
    rewrite binary_round_aux_exact by (done || lia). f_equal. lia.
  - replace (Z.pos p) with (n * 2 ^ (53 - digits n) * 2 ^ Z.pos k)
      by (rewrite Hp, <- Z.mul_assoc, <- Z.pow_add_r by lia; do 2 f_equal; lia).
    rewrite binary_round_aux_exact by (done || lia). f_equal. lia.
  - rewrite Pos_iter_xO, Hp. replace (n * 2 ^ (- e) * 2 ^ Z.pos k) with (n * 2 ^ (53 - digits n) * 2 ^ 0)
      by (change (2 ^ 0) with 1; rewrite Z.mul_1_r, <- Z.mul_assoc, <- Z.pow_add_r by lia; do 2 f_equal; lia).
    rewrite binary_round_aux_exact by (done || lia). f_equal. lia.
Qed.

Lemma double_of_Z_canon n : 0 <= n < 2 ^ 53 → double_of_Z n = canon n.
Proof.
  intros Hn. unfold double_of_Z, binary_normalize. destruct n as [|p|p]; [done| |lia].
  apply binary_round_int; lia.
Qed.

Lemma shl_align_down p e e' : e' <= e → Z.pos (shl_align p e e').1 = Z.pos p * 2 ^ (e - e').
Proof.
  intros He. unfold shl_align. destruct (e' - e) as [|k|k] eqn:Ek; cbn [fst].
  - by replace (e - e') with 0 by lia; rewrite Z.mul_1_r.
  - lia.
  - rewrite Pos_iter_xO. do 2 f_equal. lia.
Qed.

Lemma canon_pos n : 0 < n < 2 ^ 53 →
  ∃ p, canon n = S754_finite false p (digits n - 53) ∧ Z.pos p = n * 2 ^ (53 - digits n) ∧ normal (Z.pos p).
Proof.
  intros Hn. pose proof (canon_normal n Hn) as Hc. exists (Z.to_pos (n * 2 ^ (53 - digits n))).
  unfold canon. rewrite (proj2 (Z.eqb_neq n 0)) by lia. rewrite Z2Pos.id by (unfold normal in Hc; lia). done.
Qed.

(** Sums below 2^53 are exact. *)
Lemma canon_add a b : 0 <= a → 0 <= b → a + b < 2 ^ 53 → double_add (canon a) (canon b) = canon (a + b).
Proof.
  intros Ha Hb Hs. destruct (Z.eq_dec a 0) as [->|], (Z.eq_dec b 0) as [->|]; try done.
  { rewrite Z.add_0_l. destruct (canon_pos b) as (p & -> & _); [lia|done]. }
  { rewrite Z.add_0_r. destruct (canon_pos a) as (p & -> & _); [lia|done]. }
  destruct (canon_pos a) as (p & -> & Hp & _); [lia|]. destruct (canon_pos b) as (q & -> & Hq & _); [lia|].
  pose proof (digits_range a ltac:(lia)) as Hda. pose proof (digits_range b ltac:(lia)) as Hdb.
  unfold double_add, SFadd. cbn [cond_Zopp]. set (ez := Z.min (digits a - 53) (digits b - 53)).
  assert (Z.pos (shl_align p (digits a - 53) ez).1 = a * 2 ^ (- ez)) as ->.
  { rewrite shl_align_down, Hp, <- Z.mul_assoc, <- Z.pow_add_r by lia. do 2 f_equal. lia. }
  assert (Z.pos (shl_align q (digits b - 53) ez).1 = b * 2 ^ (- ez)) as ->.
  { rewrite shl_align_down, Hq, <- Z.mul_assoc, <- Z.pow_add_r by lia. do 2 f_equal. lia. }
  rewrite <- Z.mul_add_distr_r. assert (0 < 2 ^ (- ez)) by (apply Z.pow_pos_nonneg; lia).
  destruct ((a + b) * 2 ^ (- ez)) as [|r|r] eqn:Er; [nia| |nia]. cbn [binary_normalize].
  apply binary_round_int; [lia|lia|by rewrite Er].
Qed.

(** ** Comparison *)

(** The value of a double with mantissa [m] and exponent [e], in units of 2^-200. *)
Definition scaled (m e : Z) : Z := m * 2 ^ (e + 200).

Lemma scaled_lt p q e f : normal p → normal q → -200 <= e → e < f → scaled p e < scaled q f.
Proof.
  unfold normal, scaled. intros Hp Hq He Hf.
  replace (2 ^ (f + 200)) with (2 ^ (e + 200) * 2 * 2 ^ (f - e - 1)).
  - assert (0 < 2 ^ (e + 200)) by (apply Z.pow_pos_nonneg; lia).
    assert (1 <= 2 ^ (f - e - 1)) as HY by (apply (Z.pow_le_mono_r 2 0); lia).
    assert (p * 2 ^ (e + 200) < 2 * q * 2 ^ (e + 200)) by (apply Z.mul_lt_mono_pos_r; lia).
    assert (2 * q * 2 ^ (e + 200) * 1 <= 2 * q * 2 ^ (e + 200) * 2 ^ (f - e - 1)) by (apply Z.mul_le_mono_nonneg_l; lia).
    lia.
  - change 2 with (2 ^ 1) at 2. rewrite <- !Z.pow_add_r by lia. f_equal. lia.
Qed.

Lemma compare_normal p q e f :
  normal (Z.pos p) → normal (Z.pos q) → -200 <= e → -200 <= f →
  SFcompare (S754_finite false p e) (S754_finite false q f) = Some (scaled (Z.pos p) e ?= scaled (Z.pos q) f).
Proof.
  intros Hp Hq He Hf. cbn [SFcompare]. f_equal. destruct (Z.compare_spec e f) as [->|Hlt|Hgt].
  - unfold scaled. rewrite <- Zmult_compare_compat_r; [done|]. apply Z.lt_gt, Z.pow_pos_nonneg; lia.
  - symmetry. apply Z.compare_lt_iff. by apply scaled_lt.
  - symmetry. apply Z.compare_gt_iff. by apply scaled_lt.
Qed.

Lemma scaled_canon n : 0 < n < 2 ^ 53 → scaled (n * 2 ^ (53 - digits n)) (digits n - 53) = n * 2 ^ 200.
Proof.
  intros Hn. pose proof (digits_range n Hn). unfold scaled.
  rewrite <- Z.mul_assoc, <- Z.pow_add_r by lia. do 2 f_equal. lia.
Qed.

(** The comparison of integers. *)
Lemma canon_ltb a b : 0 <= a < 2 ^ 53 → 0 <= b < 2 ^ 53 → double_ltb (canon a) (canon b) = (a <? b).
Proof.
  intros Ha Hb. unfold double_ltb, SFltb.
  destruct (Z.eq_dec a 0) as [->|], (Z.eq_dec b 0) as [->|]; try done.
  - destruct (canon_pos b) as (p & -> & _); [lia|]. symmetry. apply Z.ltb_lt. lia.
  - destruct (canon_pos a) as (p & -> & _); [lia|]. symmetry. apply Z.ltb_ge. lia.
  - destruct (canon_pos a) as (p & -> & Hp & Np); [lia|]. destruct (canon_pos b) as (q & -> & Hq & Nq); [lia|].
    pose proof (digits_range a ltac:(lia)). pose proof (digits_range b ltac:(lia)).
    rewrite compare_normal by (done || lia). rewrite Hp, Hq, !scaled_canon by lia.
    rewrite <- Zmult_compare_compat_r by lia. unfold Z.ltb. by destruct (a ?= b).
Qed.

(** ** Quotients *)

Lemma round_nearest_even_cases m l :
  round_nearest_even m l = m ∨ (round_nearest_even m l = m + 1 ∧ l ≠ loc_Exact).
Proof. destruct l as [|[]]; cbn; [by left| |by left|by right]. destruct (Z.even m); [by left|by right]. Qed.

(** The last step of a rounding: 2^53 is written with a larger exponent. *)
Lemma round_carry m e :
  2 ^ 52 <= m <= 2 ^ 53 → -1074 <= e → e + 1 <= 971 →
  ∃ p e', (let '(mrs, e'') := shr_fexp 53 1024 m e loc_Exact in
           match shr_m mrs with
           | Z0 => S754_zero false
           | Zpos m' => if Z.leb e'' (Z.sub 1024 53) then S754_finite false m' e'' else S754_infinity false
           | _ => S754_nan
           end) = S754_finite false p e' ∧
    normal (Z.pos p) ∧ e <= e' ∧ (-200 <= e → scaled (Z.pos p) e' = scaled m e).
Proof.
  intros Hm He Hmax. destruct (Z.eq_dec m (2 ^ 53)) as [->|Hne].
  - pose proof (shr_fexp_zeroes (2 ^ 52) e 1) as E. rewrite <- Z.pow_add_r in E by lia. change (52 + 1) with 53 in E.
    rewrite E by (unfold normal; lia). cbn [shr_m]. exists (Z.to_pos (2 ^ 52)), (e + 1).
    change (2 ^ 52) with (Z.pos (Z.to_pos (2 ^ 52))). cbv iota beta. rewrite (proj2 (Z.leb_le _ _)) by lia.
    split; [done|]. split; [unfold normal; cbn; lia|]. split; [lia|]. intros. unfold scaled.
    replace (e + 1 + 200) with (1 + (e + 200)) by lia. rewrite Z.pow_add_r by lia. cbn. lia.
  - assert (normal m) as Hn by (unfold normal; lia).
    pose proof (shr_fexp_zeroes m e 0 Hn ltac:(lia) ltac:(lia)) as E. rewrite Z.mul_1_r, Z.add_0_r in E.
    rewrite E. cbn [shr_m]. destruct m as [|p|p]; unfold normal in Hn; try lia.
    rewrite (proj2 (Z.leb_le _ _)) by lia. exists p, e. repeat split; unfold normal; try lia.
Qed.

(** Truncation to 53 digits of a number of 53 or 54. *)
Lemma shr_fexp_one q e l :
  2 ^ 52 <= q < 2 ^ 54 → -1020 <= e →
  ∃ k rec, (k = 0 ∨ k = 1) ∧ shr_fexp 53 1024 q e l = (rec, e + k) ∧ shr_m rec = q / 2 ^ k ∧
    normal (q / 2 ^ k) ∧ (l = loc_Exact → q mod 2 ^ k = 0 → loc_of_shr_record rec = loc_Exact).
Proof.
  intros Hq He. unfold shr_fexp.
  assert (Zdigits2 q = digits q) as ->.
  { destruct q as [|p|p]; [lia| |lia]. cbn [Zdigits2]. apply digits2_pos_digits. }
  destruct (Z.ltb_spec q (2 ^ 53)) as [Hlt|Hge].
  - exists 0, (shr_record_of_loc q l). assert (digits q = 53) as -> by (apply digits_spec; lia).
    rewrite fexp_normal by lia. replace (53 + e - 53 - e) with 0 by lia. rewrite Z.div_1_r, Z.add_0_r.
    split_and!; [by left|done|by destruct l as [|[]]|unfold normal; lia|by intros ->].
  - exists 1, (shr_1 (shr_record_of_loc q l)). assert (digits q = 54) as -> by (apply digits_spec; lia).
    rewrite fexp_normal by lia. replace (54 + e - 53 - e) with 1 by lia. change (2 ^ 1) with 2.
    split_and!; [by right|done| | |].
    + destruct q as [|p|p]; [lia| |lia]. rewrite <- Z.div2_div. destruct l as [|[]], p; done.
    + pose proof (Z.div_mod q 2 ltac:(lia)). pose proof (Z.mod_pos_bound q 2 ltac:(lia)). unfold normal. lia.
    + intros -> Hm. destruct q as [|[p|p|]|p]; try done. by rewrite Pos2Z.inj_xI, Z.add_comm, Z.mul_comm, Z.mod_add in Hm.
Qed.

(** A common factor [D] of the scaled dividend and divisor. *)
Lemma quotient_scaled a b q r t D :
  0 < b → 0 < D → a * 2 ^ t * D = b * D * q + r → 0 <= r < b * D →
  ∃ r', a * 2 ^ t = b * q + r' ∧ 0 <= r' < b ∧ r = D * r'.
Proof.
  intros Hb HD E Hr. exists (a * 2 ^ t - b * q). assert (r = D * (a * 2 ^ t - b * q)) as Er by lia.
  split_and!; [lia|nia|nia|done].
Qed.

(** Where the rounded mantissa [m'] lies, for the quotient [q] of [a 2^t] by
    [b] cut off by [k] digits. *)
Lemma rounded_side a b q r t k m' :
  0 < b → a * 2 ^ t = b * q + r → 0 <= r < b → 0 <= k <= t → t <= 200 →
  let M := q / 2 ^ k in
  (m' = M ∨ m' = M + 1 ∧ ¬ (q mod 2 ^ k = 0 ∧ r = 0)) →
  (∀ K, b * K <= a → K * 2 ^ 200 <= scaled m' (k - t)) ∧ (∀ K, a <= b * K → scaled m' (k - t) <= K * 2 ^ 200).
Proof.
  intros Hb E Hr Hk Ht M Hm'. unfold scaled.
  assert (0 < 2 ^ k) as Hk0 by (apply Z.pow_pos_nonneg; lia).
  pose proof (Z.div_mod q (2 ^ k) ltac:(lia)) as Hq. pose proof (Z.mod_pos_bound q (2 ^ k) Hk0) as Hs. fold M in Hq.
  set (s := q mod 2 ^ k) in *.
  assert (2 ^ t = 2 ^ (t - k) * 2 ^ k) as Et by (rewrite <- Z.pow_add_r by lia; f_equal; lia).
  assert (2 ^ 200 = 2 ^ (t - k) * 2 ^ (k - t + 200)) as E2 by (rewrite <- Z.pow_add_r by lia; f_equal; lia).
  assert (0 < 2 ^ (t - k)) as HT by (apply Z.pow_pos_nonneg; lia).
  assert (0 < 2 ^ (k - t + 200)) as HU by (apply Z.pow_pos_nonneg; lia).
  rewrite E2. set (T := 2 ^ (t - k)) in *. set (U := 2 ^ (k - t + 200)) in *. set (P := 2 ^ k) in *.
  rewrite Et in E. split; intros K HK; rewrite Z.mul_assoc; apply Z.mul_le_mono_nonneg_r; try lia.
  - assert (K * T < M + 1); [|lia]. apply (Z.mul_lt_mono_pos_r (b * P)); [nia|]. nia.
  - assert (M <= K * T) as HM.
    { apply (Z.mul_le_mono_pos_r _ _ (b * P)); [nia|]. nia. }
    destruct Hm' as [->|[-> Hne]]; [done|]. assert (M ≠ K * T); [|lia]. intros HMK. apply Hne.
    assert (b * s + r <= 0) by nia. nia.
Qed.

(** The rounded quotient of two integers is on the same side of every integer
    as the quotient. *)
Lemma canon_div a b :
  0 < a < 2 ^ 53 → 0 < b < 2 ^ 53 →
  ∃ p e, double_div (canon a) (canon b) = S754_finite false p e ∧ normal (Z.pos p) ∧ -200 <= e ∧
    (∀ K, b * K <= a → K * 2 ^ 200 <= scaled (Z.pos p) e) ∧
    (∀ K, a <= b * K → scaled (Z.pos p) e <= K * 2 ^ 200).
Proof.
  intros Ha Hb. pose proof (digits_range a Ha) as Hda. pose proof (digits_range b Hb) as Hdb.
  destruct (canon_pos a Ha) as (p1 & -> & Hp1 & N1). destruct (canon_pos b Hb) as (p2 & -> & Hp2 & N2).
  unfold double_div, SFdiv, SFdiv_core_binary. cbn [xorb]. cbn [Zdigits2].
  rewrite !digits2_pos_digits, (normal_digits _ N1), (normal_digits _ N2).
  rewrite fexp_normal by lia. set (e0 := digits a - digits b - 53).
  replace (Z.min (53 + (digits a - 53) - (53 + (digits b - 53)) - 53) (digits a - 53 - (digits b - 53))) with e0 by lia.
  replace (digits a - 53 - (digits b - 53) - e0) with 53 by lia.
  set (t0 := - e0). assert (1 <= t0 <= 105) as Ht0 by lia.
  rewrite (Z.shiftl_mul_pow2 _ 53) by lia.
  pose proof (Z_div_mod (Z.pos p1 * 2 ^ 53) (Z.pos p2) ltac:(lia)) as Hdm.
  destruct (Z.div_eucl (Z.pos p1 * 2 ^ 53) (Z.pos p2)) as [q r]. destruct Hdm as [Hq Hr].
  assert (0 < 2 ^ (53 - digits b)) as HD by (apply Z.pow_pos_nonneg; lia).
  destruct (quotient_scaled a b q r t0 (2 ^ (53 - digits b))) as (r' & Ha' & Hr' & Hrr); [lia|done| |by rewrite <- Hp2|].
  { rewrite <- Hp2, <- Hq, Hp1. rewrite <- !Z.mul_assoc, <- !Z.pow_add_r by lia. do 2 f_equal. lia. }
  assert (2 ^ 52 <= q < 2 ^ 54) as Hqr by (unfold normal in N1, N2; nia).
  destruct (shr_fexp_one q e0 (new_location (Z.pos p2) r) Hqr ltac:(lia)) as (k & rec & Hk & Es & Em & HM & Hex).
  unfold binary_round_aux. rewrite Es, Em.
  assert (r' = 0 → new_location (Z.pos p2) r = loc_Exact) as Hloc.
  { intros ->. rewrite Hrr. unfold new_location, new_location_even, new_location_odd.
    rewrite Z.mul_0_r. by destruct (Z.even _). }
  set (m' := round_nearest_even (q / 2 ^ k) (loc_of_shr_record rec)).
  assert (m' = q / 2 ^ k ∨ (m' = q / 2 ^ k + 1 ∧ loc_of_shr_record rec ≠ loc_Exact)) as Hm'
    by apply round_nearest_even_cases.
  destruct (round_carry m' (e0 + k)) as (p & e & E & Np & He & Hsc); [unfold normal in HM; lia|lia|lia|].
  exists p, e. split; [exact E|]. split; [done|]. split; [lia|]. rewrite Hsc by lia.
  replace (e0 + k) with (k - t0) by lia. apply (rounded_side a b q r' t0 k m'); try lia.
  destruct Hm' as [Hm'|[Hm' Hne]]; [by left|right]. split; [done|]. intros [Hs Hz]. apply Hne, Hex; [by apply Hloc|done].
Qed.

(** [n / b > K] for a quotient in [double]: decided as for the integers, up to
    a rounding that stays below the next integer. *)
Lemma canon_div_gt n b K :
  0 <= n < 2 ^ 53 → 0 < b < 2 ^ 53 → 0 <= K < 2 ^ 53 - 1 →
  (n <= b * K → double_ltb (canon K) (double_div (canon n) (canon b)) = false) ∧
  (b * (K + 1) <= n → double_ltb (canon K) (double_div (canon n) (canon b)) = true).
Proof.
  intros Hn Hb HK. destruct (Z.eq_dec n 0) as [->|Hn0].
  { split; [intros _|lia]. destruct (canon_pos b Hb) as (q & -> & _).
    unfold canon. destruct (Z.eqb_spec K 0); [done|]. done. }
  destruct (canon_div n b ltac:(lia) Hb) as (p & e & -> & Np & He & Hlo & Hhi). unfold double_ltb, SFltb.
  destruct (Z.eq_dec K 0) as [->|HK0].
  { split; [nia|done]. }
  destruct (canon_pos K) as (pk & -> & Hpk & Nk); [lia|]. pose proof (digits_range K ltac:(lia)).
  rewrite compare_normal by (done || lia). rewrite Hpk, scaled_canon by lia. split; intros HnK.
  - specialize (Hhi K HnK). destruct (Z.compare_spec (K * 2 ^ 200) (scaled (Z.pos p) e)); [done|lia|done].
  - specialize (Hlo (K + 1) HnK). destruct (Z.compare_spec (K * 2 ^ 200) (scaled (Z.pos p) e)); [lia|done|lia].
Qed.
