(* ===== verification/Timer.v ===== *)
(** * Timer.v: timers and waiting with a time limit

    userspace/util/timer.h ([Timer], [ThreadedTimer]) and the timed loops of
    constants/busy_wait.h.  A clock is what the calls of [now] return, in
    nanoseconds since its epoch; times are added up and divided in [double]
    (Binary64.v).  The timed loop of the macros is written with its three
    nested loops and its timer, in both builds. *)

From S2P Require Import Prelude Memory Binary64.

Local Open Scope Z_scope.

(** ** Timer *)

(** Time points and durations are counts of nanoseconds. *)
Record Timer := { start_ : Z; end_ : Z; time_ns_ : double }.

Definition Timer_new : Timer := {| start_ := 0; end_ := 0; time_ns_ := double_of_Z 0 |}.

Definition Timer_Resume (now : Z) (t : Timer) : Timer :=
  {| start_ := now; end_ := end_ t; time_ns_ := time_ns_ t |}.

Definition set_end (now : Z) (t : Timer) : Timer :=
  {| start_ := start_ t; end_ := now; time_ns_ := time_ns_ t |}.
Definition set_time_ns (d : double) (t : Timer) : Timer :=
  {| start_ := start_ t; end_ := end_ t; time_ns_ := d |}.

Definition GetNsecFromStart (now : Z) (t : Timer) : double * Timer :=
  let t := set_end now t in (double_of_Z (end_ t - start_ t), t).

(** [duration_cast] to a coarser unit truncates. *)
Definition GetUsecFromStart (now : Z) (t : Timer) : double * Timer :=
  let t := set_end now t in (double_of_Z (Z.quot (end_ t - start_ t) 1000), t).
Definition GetMsecFromStart (now : Z) (t : Timer) : double * Timer :=
  let t := set_end now t in (double_of_Z (Z.quot (end_ t - start_ t) 1000000), t).
Definition GetSecFromStart (now : Z) (t : Timer) : double * Timer :=
  let t := set_end now t in (double_of_Z (Z.quot (end_ t - start_ t) 1000000000), t).

Definition Timer_Pause (now : Z) (t : Timer) : double * Timer :=
  let (dt, t) := GetNsecFromStart now t in
  let t := set_time_ns (double_add (time_ns_ t) dt) t in (time_ns_ t, t).

(** [Pause(double &dt)]: also what was added. *)
Definition Timer_Pause_dt (now : Z) (t : Timer) : double * double * Timer :=
  let (dt, t) := GetNsecFromStart now t in
  let t := set_time_ns (double_add (time_ns_ t) dt) t in (time_ns_ t, dt, t).

Definition Timer_Reset (t : Timer) : Timer := set_time_ns (double_of_Z 0) t.

Definition GetNsec (t : Timer) : double := time_ns_ t.
Definition GetUsec (t : Timer) : double := double_div (time_ns_ t) (double_of_Z 1000).
Definition GetMsec (t : Timer) : double := double_div (time_ns_ t) (double_of_Z 1000000).
Definition GetSec (t : Timer) : double := double_div (time_ns_ t) (double_of_Z 1000000000).

(** [point] is what the system clock shows. *)
Definition GetUsFromEpoch (point : Z) (t : Timer) : double := double_of_Z (Z.quot point 1000).

(** ** ThreadedTimer *)

Abbreviation ThreadedTimer := (list Timer).

(** The vector may throw, or be indexed outside its bounds. *)
Inductive tt_result (A : Type) := TT_ok (a : A) (ts : ThreadedTimer) | TT_length_error | TT_undefined.
Arguments TT_ok {A}.
Arguments TT_length_error {A}.
Arguments TT_undefined {A}.

Definition vector_max_size : Z := 2 ^ 63 / 24.

(** [resize]: cut off, or new timers at the end. *)
Definition timers_resize (n : Z) (ts : ThreadedTimer) : option ThreadedTimer :=
  if vector_max_size <? n then None
  else Some (take (Z.to_nat n) ts ++ replicate (Z.to_nat n - length ts) Timer_new).

(** [(size_t)tid], and [tid+1] converted to [size_t]. *)
Definition MinimumTID (tid : Z) (ts : ThreadedTimer) : option ThreadedTimer :=
  if Z.of_nat (length ts) <=? u64 tid then timers_resize (u64 (tid + 1)) ts else Some ts.

(** A member function on [timers_[tid]]. *)
Definition on_timer {A} (f : Timer → A * Timer) (tid : Z) (ts : ThreadedTimer) : tt_result A :=
  match MinimumTID tid ts with
  | None => TT_length_error
  | Some ts =>
      match (if u64 tid <? Z.of_nat (length ts) then ts !! Z.to_nat (u64 tid) else None) with
      | None => TT_undefined
      | Some t => let (a, t') := f t in TT_ok a (<[Z.to_nat (u64 tid) := t']> ts)
      end
  end.

Definition Threaded_Resume (now tid : Z) : ThreadedTimer → tt_result unit :=
  on_timer (λ t, (tt, Timer_Resume now t)) tid.
Definition Threaded_Pause (now tid : Z) : ThreadedTimer → tt_result double :=
  on_timer (Timer_Pause now) tid.
Definition Threaded_Pause_dt (now tid : Z) : ThreadedTimer → tt_result (double * double) :=
  on_timer (λ t, let '(r, dt, t') := Timer_Pause_dt now t in ((r, dt), t')) tid.
Definition Threaded_Reset (tid : Z) : ThreadedTimer → tt_result unit :=
  on_timer (λ t, (tt, Timer_Reset t)) tid.
Definition Threaded_GetMsecFromStart (now tid : Z) : ThreadedTimer → tt_result double :=
  on_timer (GetMsecFromStart now) tid.
Definition Threaded_GetNsec (tid : Z) : ThreadedTimer → tt_result double := on_timer (λ t, (GetNsec t, t)) tid.
Definition Threaded_GetUsec (tid : Z) : ThreadedTimer → tt_result double := on_timer (λ t, (GetUsec t, t)) tid.
Definition Threaded_GetMsec (tid : Z) : ThreadedTimer → tt_result double := on_timer (λ t, (GetMsec t, t)) tid.
Definition Threaded_GetSec (tid : Z) : ThreadedTimer → tt_result double := on_timer (λ t, (GetSec t, t)) tid.
Definition Threaded_GetUsFromEpoch (point tid : Z) : ThreadedTimer → tt_result double :=
  on_timer (λ t, (GetUsFromEpoch point t, t)) tid.

(** [std::max_element] with [lhs.f() < rhs.f()]: the first of the largest;
    [end()] for no timer, which is then dereferenced. *)
Fixpoint max_element_from (f : Timer → double) (best : Timer) (ts : list Timer) : Timer :=
  match ts with
  | [] => best
  | t :: ts' => max_element_from f (if double_ltb (f best) (f t) then t else best) ts'
  end.

Definition max_element (f : Timer → double) (ts : ThreadedTimer) : tt_result double :=
  match ts with
  | [] => TT_undefined
  | t :: ts' => TT_ok (f (max_element_from f t ts')) ts
  end.

Definition Threaded_max_Nsec : ThreadedTimer → tt_result double := max_element GetNsec.
Definition Threaded_max_Usec : ThreadedTimer → tt_result double := max_element GetUsec.
Definition Threaded_max_Msec : ThreadedTimer → tt_result double := max_element GetMsec.
Definition Threaded_max_Sec : ThreadedTimer → tt_result double := max_element GetSec.

(** ** The timer of the macros *)

Definition LABSTOR_NS_TO_MS (ns : Z) : Z := Z.quot ns 1000000.
Definition MAX_YIELDS : Z := 1000.
Definition SPINS_PER_USEC : Z := 100000.
Definition MAX_SPINS : Z := SPINS_PER_USEC * 1000.

(** LABSTOR_TIMER_PREAMBLE, with the variables of both builds:
    [labstor_timer] of C++, [timer_start] and [timer_end] of the kernel. *)
Record labstor_timer_vars := { tv_timer : Timer; tv_timer_start : Z; tv_timer_end : Z; labstor_timer_out : bool }.

Definition LABSTOR_TIMER_START (b : build) (now : Z) (v : labstor_timer_vars) : labstor_timer_vars :=
  match b with
  | Userspace => {| tv_timer := Timer_Resume now (tv_timer v); tv_timer_start := tv_timer_start v;
                    tv_timer_end := tv_timer_end v; labstor_timer_out := false |}
  | Kernel => {| tv_timer := tv_timer v; tv_timer_start := now; tv_timer_end := tv_timer_end v;
                 labstor_timer_out := false |}
  end.

Definition LABSTOR_TIMER_RESET (b : build) (now : Z) (v : labstor_timer_vars) : labstor_timer_vars :=
  match b with
  | Userspace => {| tv_timer := Timer_Reset (tv_timer v); tv_timer_start := tv_timer_start v;
                    tv_timer_end := tv_timer_end v; labstor_timer_out := false |}
  | Kernel => LABSTOR_TIMER_START b now v
  end.

(** [max_ms] is converted to [double] in C++. *)
Definition LABSTOR_TIMER_PAUSE (b : build) (max_ms now : Z) (v : labstor_timer_vars) : labstor_timer_vars :=
  match b with
  | Userspace =>
      let t := (Timer_Pause now (tv_timer v)).2 in
      {| tv_timer := t; tv_timer_start := tv_timer_start v; tv_timer_end := tv_timer_end v;
         labstor_timer_out := labstor_timer_out v || double_ltb (double_of_Z max_ms) (GetMsec t) |}
  | Kernel =>
      {| tv_timer := tv_timer v; tv_timer_start := tv_timer_start v; tv_timer_end := now;
         labstor_timer_out := labstor_timer_out v || (max_ms <? LABSTOR_NS_TO_MS (now - tv_timer_start v)) |}
  end.

(** LABSTOR_SIMPLE_SPINWAIT: the two loops around a body that returns from the
    function when it has a value. *)
Fixpoint simple_spins {A} (spins : nat) (body : M (option A)) : M (option A) :=
  match spins with
  | O => mret None
  | S spins' => r ← body; match r with Some a => mret (Some a) | None => simple_spins spins' body end
  end.

Fixpoint LABSTOR_SIMPLE_SPINWAIT {A} (yields spins : nat) (body : M (option A)) : M (option A) :=
  match yields with
  | O => mret None
  | S yields' =>
      r ← simple_spins spins body;
      match r with Some a => mret (Some a) | None => LABSTOR_SIMPLE_SPINWAIT yields' spins body end
  end.

(** LABSTOR_TIMED_SPINWAIT: reading [i] of the clock ends round [i]; the first
    round starts the timer. *)
Fixpoint timed_spinwait_rounds {A} (b : build) (fuel yields spins : nat) (max_ms : Z) (clock : nat → Z) (i : nat)
    (v : labstor_timer_vars) (body : M (option A)) : M (option A) :=
  match fuel with
  | O => λ m, Spin m
  | S fuel' =>
      r ← LABSTOR_SIMPLE_SPINWAIT yields spins body;
      match r with
      | Some a => mret (Some a)
      | None =>
          let v' := if (i =? 0)%nat then LABSTOR_TIMER_START b (clock i) v
                    else LABSTOR_TIMER_PAUSE b max_ms (clock i) v in
          if labstor_timer_out v' then mret None
          else timed_spinwait_rounds b fuel' yields spins max_ms clock (S i) v' body
      end
  end.

(** [out]: what [labstor_timer_out] holds before it is set. *)
Definition LABSTOR_TIMED_SPINWAIT {A} (b : build) (fuel : nat) (max_ms : Z) (clock : nat → Z) (out : bool)
    (body : M (option A)) : M (option A) :=
  timed_spinwait_rounds b fuel (Z.to_nat MAX_YIELDS) (Z.to_nat MAX_SPINS) max_ms clock 0
    {| tv_timer := Timer_new; tv_timer_start := 0; tv_timer_end := 0; labstor_timer_out := out |} body.

(** ** A timer counts nanoseconds *)

Inductive timer_op := TResume (now : Z) | TPause (now : Z) | TReset.

(** The total in nanoseconds; [None] when the clock goes back or the total
    reaches 2^53. *)
Record timer_abs := { ta_start : Z; ta_total : Z }.

Definition timer_spec_step (s : timer_abs) (op : timer_op) : option (timer_abs * list Z) :=
  match op with
  | TResume now => Some ({| ta_start := now; ta_total := ta_total s |}, [])
  | TPause now =>
      if decide (ta_start s <= now ∧ ta_total s + (now - ta_start s) < 2 ^ 53)
      then let total := ta_total s + (now - ta_start s) in
           Some ({| ta_start := ta_start s; ta_total := total |}, [total])
      else None
  | TReset => Some ({| ta_start := ta_start s; ta_total := 0 |}, [])
  end.

Definition timer_step (t : Timer) (op : timer_op) : Timer * list double :=
  match op with
  | TResume now => (Timer_Resume now t, [])
  | TPause now => let (r, t') := Timer_Pause now t in (t', [r])
  | TReset => (Timer_Reset t, [])
  end.

Fixpoint timer_spec_run (s : timer_abs) (ops : list timer_op) : option (timer_abs * list Z) :=
  match ops with
  | [] => Some (s, [])
  | op :: ops' =>
      '(s', r) ← timer_spec_step s op;
      '(s'', rs) ← timer_spec_run s' ops';
      Some (s'', r ++ rs)
  end.

Fixpoint timer_run (t : Timer) (ops : list timer_op) : Timer * list double :=
  match ops with
  | [] => (t, [])
  | op :: ops' =>
      let (t', r) := timer_step t op in
      let (t'', rs) := timer_run t' ops' in (t'', r ++ rs)
  end.

Record timer_rel (s : timer_abs) (t : Timer) : Prop := {
  tr_start : start_ t = ta_start s;
  tr_range : 0 <= ta_total s < 2 ^ 53;
  tr_total : time_ns_ t = canon (ta_total s)
}.

Lemma timer_step_refines s t op s' r :
  timer_rel s t → timer_spec_step s op = Some (s', r) →
  timer_rel s' (timer_step t op).1 ∧ (timer_step t op).2 = canon <$> r.
Proof.
  intros [Hs Hr Ht] E. destruct op as [now|now|]; cbn in E.
  - injection E as <- <-. by split.
  - case_decide as Hd; [|done]. injection E as <- <-. cbn. rewrite Hs, Ht.
    rewrite double_of_Z_canon, canon_add by lia. split; [|done]. split; cbn; [done|lia|done].
  - injection E as <- <-. split; [|done]. by split.
Qed.

Lemma timer_run_refines ops s t s' rs :
  timer_rel s t → timer_spec_run s ops = Some (s', rs) →
  timer_rel s' (timer_run t ops).1 ∧ (timer_run t ops).2 = canon <$> rs.
Proof.
  revert s t s' rs. induction ops as [|op ops IH]; intros s t s' rs Hrel E; cbn in E.
  - by injection E as <- <-.
  - apply bind_Some in E as ([s1 r] & E1 & E). apply bind_Some in E as ([s2 rs2] & E2 & [= <- <-]).
    destruct (timer_step_refines _ _ _ _ _ Hrel E1) as [Hrel1 Hr]. cbn [timer_run].
    destruct (timer_step t op) as [t1 r1]. cbn [fst snd] in *. destruct (IH _ _ _ _ Hrel1 E2) as [Hrel2 Hr2].
    destruct (timer_run t1 ops) as [t2 rs']. cbn in *. split; [done|]. by rewrite Hr, Hr2, fmap_app.
Qed.

Lemma timer_new_rel : timer_rel {| ta_start := 0; ta_total := 0 |} Timer_new.
Proof. split; cbn; [done|lia|done]. Qed.

(** What the getters of a unit of [u] nanoseconds show. *)
Definition shows (u total : Z) (d : double) : Prop :=
  ∀ K, 0 <= K < 2 ^ 53 - 1 →
    (total <= u * K → double_ltb (canon K) d = false) ∧ (u * (K + 1) <= total → double_ltb (canon K) d = true).

(** C7. A timer keeps its sum exactly although it is a double: over any sequence
    of [Resume], [Pause] and [Reset] in which the sum stays below 2^53
    nanoseconds, each [Pause] adds the time since the last [Resume] and returns
    the sum so far, [GetNsec] is the sum, and the comparison of [GetUsec],
    [GetMsec] or [GetSec] with a whole number comes out as for the exact time,
    except within one unit above it. *)
Theorem timer_counts ops s rs :
  timer_spec_run {| ta_start := 0; ta_total := 0 |} ops = Some (s, rs) →
  let t := (timer_run Timer_new ops).1 in
  (timer_run Timer_new ops).2 = canon <$> rs ∧ GetNsec t = canon (ta_total s) ∧
  shows 1000 (ta_total s) (GetUsec t) ∧ shows 1000000 (ta_total s) (GetMsec t) ∧
  shows 1000000000 (ta_total s) (GetSec t).
Proof.
  intros E t. destruct (timer_run_refines ops _ Timer_new _ _ timer_new_rel E) as [[_ Hr Ht] Hrs].
  split; [done|]. split; [done|]. unfold GetUsec, GetMsec, GetSec. fold t in Ht. rewrite Ht.
  split_and!; intros K HK; rewrite double_of_Z_canon by lia; apply canon_div_gt; lia.
Qed.

(** Two intervals of 1.5 and 2 milliseconds. *)
Lemma timer_counts_witness :
  let t := (timer_run Timer_new [TResume 1000; TPause 1501000; TResume 5000000; TPause 7000000]).1 in
  GetNsec t = canon 3500000 ∧ double_ltb (canon 4) (GetMsec t) = false ∧ double_ltb (canon 2) (GetMsec t) = true.
Proof.
  destruct (timer_counts [TResume 1000; TPause 1501000; TResume 5000000; TPause 7000000]
    {| ta_start := 5000000; ta_total := 3500000 |} [1500000; 3500000]) as (_ & H1 & _ & H2 & _).
  - vm_compute. reflexivity.
  - split; [exact H1|]. split; [apply (H2 4)|apply (H2 2)]; cbn [ta_total]; lia.
Defined.

(** ** Threaded timers *)

(** Timers of other threads are not touched, and a new thread gets a new timer. *)
Lemma on_timer_spec {A} (f : Timer → A * Timer) tid ts :
  0 <= tid < 2 ^ 31 - 1 →
  ∃ ts', on_timer f tid ts = TT_ok (f (default Timer_new (ts !! Z.to_nat tid))).1 ts' ∧
    (length ts' = length ts `max` S (Z.to_nat tid))%nat ∧
    ts' !! Z.to_nat tid = Some (f (default Timer_new (ts !! Z.to_nat tid))).2 ∧
    ∀ j, (j < length ts')%nat → j ≠ Z.to_nat tid → ts' !! j = Some (default Timer_new (ts !! j)).
Proof.
  intros Ht. unfold on_timer, MinimumTID, timers_resize. rewrite !u64_small by lia.
  set (ext := take (Z.to_nat (tid + 1)) ts ++ replicate (Z.to_nat (tid + 1) - length ts) Timer_new).
  assert (Hmin : ∃ ts1, (if Z.of_nat (length ts) <=? tid then (if vector_max_size <? tid + 1 then None else Some ext) else Some ts)
    = Some ts1 ∧ (length ts1 = length ts `max` S (Z.to_nat tid))%nat ∧
    ∀ j, (j < length ts1)%nat → ts1 !! j = Some (default Timer_new (ts !! j))).
  { destruct (Z.leb_spec (Z.of_nat (length ts)) tid) as [Hle|Hgt].
    - change vector_max_size with 384307168202282325. rewrite (proj2 (Z.ltb_ge _ _)) by lia. exists ext. split; [done|].
      subst ext. rewrite take_ge by lia. rewrite length_app, length_replicate. split; [lia|].
      intros j Hj. destruct (decide (j < length ts)%nat) as [Hlt|Hge].
      + rewrite lookup_app_l by done. by destruct (lookup_lt_is_Some_2 ts j Hlt) as [x ->].
      + rewrite lookup_app_r by lia. rewrite lookup_replicate_2 by lia. by rewrite (lookup_ge_None_2 ts j) by lia.
    - exists ts. split; [done|]. split; [lia|]. intros j Hj. by destruct (lookup_lt_is_Some_2 ts j Hj) as [x ->]. }
  destruct Hmin as (ts1 & -> & Hlen & Hts1). rewrite (proj2 (Z.ltb_lt _ _)) by lia.
  rewrite Hts1 by lia. destruct (f _) as [a t']. eexists. split; [done|]. rewrite length_insert. split; [done|].
  split; [apply list_lookup_insert_eq; lia|]. intros j Hj Hne. rewrite list_lookup_insert_ne by done. auto.
Qed.

(** [tid] -1 empties the vector and then indexes outside of it. *)
Lemma threaded_timer_negative {A} (f : Timer → A * Timer) ts : Z.of_nat (length ts) < 2 ^ 64 - 1 → on_timer f (-1) ts = TT_undefined.
Proof.
  intros Hl. unfold on_timer, MinimumTID, timers_resize. change (u64 (-1)) with (2 ^ 64 - 1). change (u64 (-1 + 1)) with 0.
  rewrite (proj2 (Z.leb_le _ _)) by lia. done.
Qed.

(** The longest time over the threads. *)
Lemma max_element_from_Nsec ts ns best b :
  Forall2 (λ t n, time_ns_ t = canon n ∧ 0 <= n < 2 ^ 53) (best :: ts) (b :: ns) →
  GetNsec (max_element_from GetNsec best ts) = canon (foldl Z.max b ns).
Proof.
  revert ns best b. induction ts as [|t ts IH]; intros ns best b [[Hb Hbr] Hts]%Forall2_cons_1.
  - apply Forall2_nil_inv_l in Hts as ->. exact Hb.
  - apply Forall2_cons_inv_l in Hts as (n & ns' & [Ht Htr] & Hts & ->). cbn. unfold GetNsec in *.
    rewrite Hb, Ht, canon_ltb by done. destruct (Z.ltb_spec b n).
    + rewrite Z.max_r by lia. apply IH. by constructor.
    + rewrite Z.max_l by lia. apply IH. by constructor.
Qed.

Lemma threaded_max_spec ts ns :
  Forall2 (λ t n, time_ns_ t = canon n ∧ 0 <= n < 2 ^ 53) ts ns → ts ≠ [] →
  Threaded_max_Nsec ts = TT_ok (canon (foldl Z.max 0 ns)) ts.
Proof.
  intros Hts Hne. destruct Hts as [|t n ts ns [Ht Hn] Hts]; [done|]. unfold Threaded_max_Nsec, max_element.
  rewrite (max_element_from_Nsec ts ns t n) by (by constructor). cbn. by rewrite Z.max_r by lia.
Qed.

(** ** Waiting with a limit *)

Lemma timed_spinwait_add {A} a b (body : M (option A)) m :
  timed_spinwait (a + b) body m =
  (r ← timed_spinwait a body; match r with Some x => mret (Some x) | None => timed_spinwait b body end) m.
Proof.
  revert m. induction a as [|a IH]; intros m; [done|]. cbn [Nat.add timed_spinwait].
  unfold mbind, M_bind. destruct (body m) as [[x|] m'| | |]; [done| |done..]. rewrite IH. done.
Qed.

Lemma simple_spins_tries {A} n (body : M (option A)) m : simple_spins n body m = timed_spinwait n body m.
Proof.
  revert m. induction n as [|n IH]; intros m; [done|]. cbn. unfold mbind, M_bind.
  destruct (body m) as [[x|] m'| | |]; [done| |done..]. apply IH.
Qed.

Lemma simple_spinwait_tries {A} y s (body : M (option A)) m :
  LABSTOR_SIMPLE_SPINWAIT y s body m = timed_spinwait (y * s) body m.
Proof.
  revert m. induction y as [|y IH]; intros m; [done|]. cbn [Nat.mul LABSTOR_SIMPLE_SPINWAIT].
  rewrite timed_spinwait_add. unfold mbind, M_bind. rewrite simple_spins_tries.
  destruct (timed_spinwait s body m) as [[x|] m'| | |]; [done| |done..]. apply IH.
Qed.

Section limit.
Context (b : build) (max_ms : Z) (clock : nat → Z).

(** The timer after reading [i]. *)
Fixpoint vars_after (v : labstor_timer_vars) (i : nat) : labstor_timer_vars :=
  match i with
  | O => LABSTOR_TIMER_START b (clock 0) v
  | S i' => LABSTOR_TIMER_PAUSE b max_ms (clock (S i')) (vars_after v i')
  end.

(** The rounds are tries up to the first reading at which the timer is out. *)
Lemma timed_rounds_tries {A} fuel y s v i K (body : M (option A)) m :
  (i ≤ K)%nat → (K < i + fuel)%nat →
  (∀ j, (j < K)%nat → labstor_timer_out (vars_after v j) = false) → labstor_timer_out (vars_after v K) = true →
  timed_spinwait_rounds b fuel y s max_ms clock i (match i with O => v | S i' => vars_after v i' end) body m =
  timed_spinwait ((S K - i) * (y * s)) body m.
Proof.
  intros Hi Hf Hno Hout. revert i m Hi Hf. induction fuel as [|fuel IH]; intros i m Hi Hf; [lia|].
  cbn [timed_spinwait_rounds]. replace (S K - i)%nat with (S (K - i)) by lia. cbn [Nat.mul].
  rewrite timed_spinwait_add. unfold mbind, M_bind. rewrite simple_spinwait_tries.
  destruct (timed_spinwait (y * s) body m) as [[x|] m'| | |]; [done| |done..].
  assert ((if (i =? 0)%nat then LABSTOR_TIMER_START b (clock i) match i with O => v | S i' => vars_after v i' end
           else LABSTOR_TIMER_PAUSE b max_ms (clock i) match i with O => v | S i' => vars_after v i' end)
          = vars_after v i) as ->.
  { by destruct i. }
  destruct (decide (i = K)) as [->|Hne].
  - rewrite Hout, Nat.sub_diag. done.
  - rewrite Hno by lia. change (vars_after v i) with (match S i with O => v | S i' => vars_after v i' end).
    rewrite IH by lia. done.
Qed.

(** The nanoseconds that the timer holds against the limit: the kernel
    compares the time since the start; in C++ each reading adds the time since
    the start to what the timer already holds. *)
Fixpoint user_waited (i : nat) : Z :=
  match i with O => 0 | S i' => user_waited i' + (clock i - clock 0%nat) end.

Definition time_waited (i : nat) : Z :=
  match b with Kernel => clock i - clock 0%nat | Userspace => user_waited i end.

Context (v0 : labstor_timer_vars) (N : nat).
Hypothesis Hv0 : time_ns_ (tv_timer v0) = canon 0.
Hypothesis Hmax : 0 <= max_ms < 2 ^ 32.
Hypothesis Hclock : ∀ i j, (i ≤ j ≤ N)%nat → clock i <= clock j.
Hypothesis Hrange : clock N - clock 0%nat < 2 ^ 52.

Lemma elapsed_range i : (i ≤ N)%nat → 0 <= clock i - clock 0%nat < 2 ^ 52.
Proof. intros Hi. pose proof (Hclock 0 i ltac:(lia)). pose proof (Hclock i N ltac:(lia)). lia. Qed.

Lemma time_waited_nonneg i : (i ≤ N)%nat → 0 <= time_waited i.
Proof.
  intros Hi. unfold time_waited. pose proof (elapsed_range i Hi). destruct b; [lia|].
  induction i as [|i IH]; cbn [user_waited]; [lia|]. pose proof (elapsed_range (S i) Hi).
  assert (0 <= user_waited i) by (apply IH; [lia|apply elapsed_range; lia]). lia.
Qed.

(** While the timer is not out it has held the time waited exactly, and the
    next reading decides on it. *)
Lemma vars_after_spec i :
  (i ≤ N)%nat → (∀ j, (j < i)%nat → labstor_timer_out (vars_after v0 j) = false) →
  0 <= time_waited i < 2 ^ 53 ∧
  match b with
  | Kernel => tv_timer_start (vars_after v0 i) = clock 0%nat
  | Userspace => start_ (tv_timer (vars_after v0 i)) = clock 0%nat ∧ time_ns_ (tv_timer (vars_after v0 i)) = canon (time_waited i)
  end ∧
  (time_waited i <= 1000000 * max_ms → labstor_timer_out (vars_after v0 i) = false) ∧
  (1000000 * (max_ms + 1) <= time_waited i → labstor_timer_out (vars_after v0 i) = true).
Proof.
  induction i as [|i IH]; intros Hi Hno.
  - cbn [vars_after]. unfold time_waited. destruct b; cbn -[Z.pow Z.mul]; rewrite ?Z.sub_diag; split_and!; try done; try lia; intros; exfalso; lia.
  - destruct IH as (Hw & Hst & _ & Hout); [lia|intros; apply Hno; lia|].
    pose proof (time_waited_nonneg (S i) Hi) as Hw0. pose proof (elapsed_range (S i) Hi) as He.
    assert (labstor_timer_out (vars_after v0 i) = false) as Hni by (apply Hno; lia).
    assert (time_waited i < 1000000 * (max_ms + 1)) as Hlt.
    { destruct (Z.ltb_spec (time_waited i) (1000000 * (max_ms + 1))); [done|]. rewrite Hout in Hni by done. done. }
    cbn [vars_after]. unfold time_waited in *. destruct b.
    + split; [lia|]. cbn -[Z.pow Z.mul vars_after]. rewrite Hst, Hni. split; [done|]. unfold LABSTOR_NS_TO_MS. cbn [orb].
      rewrite Z.quot_div_nonneg by lia. split; intros H; [apply Z.ltb_ge|apply Z.ltb_lt].
      * apply Z.div_le_upper_bound; lia.
      * apply Z.lt_le_trans with (max_ms + 1); [lia|]. apply Z.div_le_lower_bound; lia.
    + destruct Hst as [Hst Ht]. cbn [user_waited] in Hw0 |- *. split; [lia|].
      assert (time_ns_ (Timer_Pause (clock (S i)) (tv_timer (vars_after v0 i))).2 = canon (user_waited i + (clock (S i) - clock 0%nat))) as Ht'.
      { cbn -[vars_after]. rewrite Hst, Ht, double_of_Z_canon, canon_add by lia. done. }
      split; [done|]. cbn [LABSTOR_TIMER_PAUSE labstor_timer_out tv_timer].
      rewrite Hni. unfold GetMsec. rewrite Ht', !double_of_Z_canon by lia. cbn [orb]. apply canon_div_gt; lia.
Qed.
End limit.

Lemma first_true (f : nat → bool) N :
  (∀ j, (j ≤ N)%nat → f j = false) ∨ ∃ K, (K ≤ N)%nat ∧ f K = true ∧ ∀ j, (j < K)%nat → f j = false.
Proof.
  induction N as [|N [IH|(K & HK & H1 & H2)]].
  - destruct (f 0%nat) eqn:E; [right; exists 0%nat; split_and!; [lia|done|lia]|left]. intros j Hj. by replace j with 0%nat by lia.
  - destruct (f (S N)) eqn:E; [right; exists (S N); split_and!; [lia|done|intros; apply IH; lia]|left].
    intros j Hj. destruct (decide (j = S N)) as [->|]; [done|]. apply IH. lia.
  - right. exists K. split_and!; [lia|done|done].
Qed.

Lemma timed_spinwait_tries {A} b max_ms clock N fuel out (body : M (option A)) m :
  0 <= max_ms < 2 ^ 32 → (∀ i j, (i ≤ j ≤ N)%nat → clock i <= clock j) → clock N - clock 0%nat < 2 ^ 52 →
  1000000 * (max_ms + 1) <= time_waited b clock N → (N < fuel)%nat →
  ∃ K, (1 ≤ K ≤ N)%nat ∧ 1000000 * max_ms < time_waited b clock K ∧
    (∀ j, (j < K)%nat → time_waited b clock j < 1000000 * (max_ms + 1)) ∧
    LABSTOR_TIMED_SPINWAIT b fuel max_ms clock out body m =
    timed_spinwait (S K * (Z.to_nat MAX_YIELDS * Z.to_nat MAX_SPINS)) body m.
Proof.
  intros Hmax Hmono Hrange HN Hfuel. unfold LABSTOR_TIMED_SPINWAIT.
  generalize (Z.to_nat MAX_YIELDS) as y, (Z.to_nat MAX_SPINS) as s. intros y s.
  set (v0 := {| tv_timer := Timer_new; tv_timer_start := 0; tv_timer_end := 0; labstor_timer_out := out |}).
  pose proof (vars_after_spec b max_ms clock v0 N eq_refl Hmax Hmono Hrange) as Hspec.
  destruct (first_true (λ j, labstor_timer_out (vars_after b max_ms clock v0 j)) N) as [Hall|(K & HK & H1 & H2)].
  { destruct (Hspec N) as (_ & _ & _ & H); [lia|intros; apply Hall; lia|]. rewrite Hall in H by lia. by discriminate H. }
  exists K. destruct (Hspec K HK H2) as (_ & _ & Hlo & _). assert (1000000 * max_ms < time_waited b clock K) as Hw.
  { destruct (Z.ltb_spec (1000000 * max_ms) (time_waited b clock K)); [done|]. rewrite Hlo in H1 by done. done. }
  split_and!; [|done|done| |].
  - destruct K; [|lia]. unfold time_waited in Hw. destruct b; cbn in Hw; lia.
  - intros j Hj. destruct (Hspec j) as (_ & _ & _ & H); [lia|intros; apply H2; lia|].
    destruct (Z.ltb_spec (time_waited b clock j) (1000000 * (max_ms + 1))); [done|]. rewrite H2 in H by done. by discriminate H.
  - exact (timed_rounds_tries b max_ms clock fuel y s v0 0 K body m ltac:(lia) ltac:(lia) H2 H1).
Qed.

(** The tries end when each of them does. *)
Lemma timed_spinwait_total {A} n (body : M (option A)) m :
  (∀ m, ∃ r m', body m = Ret r m') → ∃ r m', timed_spinwait n body m = Ret r m'.
Proof.
  intros Hb. revert m. induction n as [|n IH]; intros m; [by eexists _, _|]. cbn [timed_spinwait].
  destruct (Hb m) as (r & m' & E). rewrite (run_bind _ _ _ _ _ E). destruct r; [by eexists _, _|apply IH].
Qed.

(** C35. The timed wait ends: when the clock reads [max_ms] and one millisecond
    more at the [N]th reading at the latest and the condition itself returns,
    the wait returns after at most [N] + 1 rounds of tries, with what the first
    successful of them gave or nothing; it gives up only when the limit has
    passed on its timer, and not later than the first reading one millisecond
    over it. *)
Theorem timed_spinwait_ends {A} b max_ms clock N fuel out (body : M (option A)) m :
  0 <= max_ms < 2 ^ 32 → (∀ i j, (i ≤ j ≤ N)%nat → clock i <= clock j) → clock N - clock 0%nat < 2 ^ 52 →
  1000000 * (max_ms + 1) <= time_waited b clock N → (N < fuel)%nat → (∀ m, ∃ r m', body m = Ret r m') →
  ∃ K r m', (1 ≤ K ≤ N)%nat ∧ 1000000 * max_ms < time_waited b clock K ∧
    (∀ j, (j < K)%nat → time_waited b clock j < 1000000 * (max_ms + 1)) ∧
    LABSTOR_TIMED_SPINWAIT b fuel max_ms clock out body m = Ret r m' ∧
    timed_spinwait (S K * (Z.to_nat MAX_YIELDS * Z.to_nat MAX_SPINS)) body m = Ret r m'.
Proof.
  intros Hmax Hmono Hrange HN Hfuel Hb.
  destruct (timed_spinwait_tries b max_ms clock N fuel out body m) as (K & HK & H1 & H2 & E); [done..|].
  destruct (timed_spinwait_total (S K * (Z.to_nat MAX_YIELDS * Z.to_nat MAX_SPINS)) body m Hb) as (r & m' & E').
  exists K, r, m'. split; [done|]. split; [done|]. split; [done|]. rewrite E. done.
Qed.

(** A value that never comes, a limit of 50 milliseconds and a clock that
    advances by 30 at each reading: in C++ the second reading after the start
    ends the wait, after three full rounds. *)
Definition never : M (option Z) := mret None.

Lemma timed_spinwait_ends_witness :
  ∃ K r m', (1 ≤ K ≤ 2)%nat ∧ 1000000 * 50 < time_waited Userspace (λ i, 30000000 * Z.of_nat i) K ∧
    (∀ j, (j < K)%nat → time_waited Userspace (λ i, 30000000 * Z.of_nat i) j < 1000000 * (50 + 1)) ∧
    LABSTOR_TIMED_SPINWAIT Userspace 3 50 (λ i, 30000000 * Z.of_nat i) true never ∅ = Ret r m' ∧
    timed_spinwait (S K * (Z.to_nat MAX_YIELDS * Z.to_nat MAX_SPINS)) never ∅ = Ret r m'.
Proof.
  apply (timed_spinwait_ends Userspace 50 (λ i, 30000000 * Z.of_nat i) 2 3 true never ∅).
  - lia.
  - intros i j Hij. lia.
  - lia.
  - cbn. lia.
  - lia.
  - intros m. by eexists None, m.
Defined.

(** Readings 0, 30 and 40 milliseconds after the first against a limit of 50:
    the sum of the readings is compared, so that the timer is out early, while
    the kernel waits for the time itself. *)
Lemma user_timer_runs_fast :
  let clock (i : nat) := nth i [7; 30000007; 40000007; 52000007] 60000007 in
  let v0 := {| tv_timer := Timer_new; tv_timer_start := 0; tv_timer_end := 0; labstor_timer_out := false |} in
  labstor_timer_out <$> (vars_after Userspace 50 clock v0 <$> [1; 2]%nat) = [false; true] ∧
  labstor_timer_out <$> (vars_after Kernel 50 clock v0 <$> [1; 2; 3]%nat) = [false; false; true].
Proof. vm_compute. done. Qed.
