(* ===== verification/QueuePairClass.v ===== *)
(** * QueuePairClass.v: the class labstor::queue_pair

    data_structures/queue_pair.h: what client code calls, written over the
    virtual functions [_Enqueue], [_Peek], [_Dequeue], [_Complete] and
    [_IsComplete]; c/shmem_queue_pair.h and async_queue_pair.h, the classes
    that implement them.  [QueuePairLaws] states what the functions of the base
    class need of the virtual ones; the queue pair in shared memory has it. *)

From S2P Require Import Prelude Memory RingBuffer RequestQueue QueuePair Binary64 Timer.

Local Open Scope Z_scope.

(** ** The virtual functions *)

(** [None] for a [bool] function that returns false. *)
Class queue_pair (Q : Type) := {
  v_GetQID : Q → M labstor_qid_t;
  v_GetDepth : Q → M Z;
  v_Enqueue : nat → Q → Z → M (option labstor_qtok_t);
  v_Peek : Q → Z → M (option Z);
  v_Dequeue : Q → M (option Z);
  v_Complete : nat → Q → Z → Z → M unit;              (* req_id, rq *)
  v_IsComplete : Q → Z → M (option Z)
}.

(** ** The base class *)

Section base.
Context {Q : Type} `{queue_pair Q}.

Definition queue_pair_GetPID (q : Q) : M Z := qid ← v_GetQID q; mret (s32 (qid_pid_ qid)).

Definition queue_pair_Enqueue (fuel : nat) (q : Q) (rq : Z) : M (option labstor_qtok_t) := v_Enqueue fuel q rq.
Definition queue_pair_Peek (q : Q) (i : Z) : M (option Z) := v_Peek q i.
Definition queue_pair_Dequeue (q : Q) : M (option Z) := v_Dequeue q.

Definition queue_pair_Complete_as (fuel : nat) (q : Q) (old_rq new_rq : Z) : M unit :=
  req_id ← load32 (old_rq + rq_req_id_); v_Complete fuel q req_id new_rq.
Definition queue_pair_Complete_rq (fuel : nat) (q : Q) (rq : Z) : M unit :=
  req_id ← load32 (rq + rq_req_id_); v_Complete fuel q req_id rq.
Definition queue_pair_Complete_qtok (fuel : nat) (q : Q) (qtok : labstor_qtok_t) (rq : Z) : M unit :=
  v_Complete fuel q (qtok_req_id_ qtok) rq.

(** [int req_id] is converted to the unsigned id. *)
Definition queue_pair_IsComplete (q : Q) (req_id : Z) : M (option Z) := v_IsComplete q (u32 req_id).
Definition queue_pair_IsComplete_qtok (q : Q) (qtok : labstor_qtok_t) : M (option Z) :=
  v_IsComplete q (qtok_req_id_ qtok).

Definition queue_pair__Wait (fuel : nat) (q : Q) (req_id : Z) : M Z := inf_spinwait fuel (v_IsComplete q req_id).

(** The null pointer after a timeout. *)
Definition queue_pair__Wait_ms (fuel : nat) (clock : nat → Z) (out : bool) (q : Q) (req_id max_ms : Z) : M (option Z) :=
  LABSTOR_TIMED_SPINWAIT Userspace fuel max_ms clock out (v_IsComplete q req_id).

Definition queue_pair_Wait (fuel : nat) (q : Q) (req_id : Z) : M Z := queue_pair__Wait fuel q req_id.
Definition queue_pair_Wait_ms (fuel : nat) (clock : nat → Z) (out : bool) (q : Q) (req_id max_ms : Z) : M (option Z) :=
  queue_pair__Wait_ms fuel clock out q req_id max_ms.
Definition queue_pair_Wait_qtok (fuel : nat) (q : Q) (qtok : labstor_qtok_t) : M Z :=
  queue_pair__Wait fuel q (qtok_req_id_ qtok).
Definition queue_pair_Wait_qtok_ms (fuel : nat) (clock : nat → Z) (out : bool) (q : Q) (qtok : labstor_qtok_t) (max_ms : Z)
    : M (option Z) :=
  queue_pair__Wait_ms fuel clock out q (qtok_req_id_ qtok) max_ms.
End base.

(** The place of a queue among [num_qps]. *)
Definition queue_pair_GetQIDOff (type flags hash num_qps pid : Z) : M Z :=
  qid ← queue_pair_GetQID type flags hash num_qps pid; mret (qid_cnt_ qid).
Definition queue_pair_GetQIDOff_str (type flags : Z) (str : list Z) (ns_id num_qps pid : Z) : M Z :=
  qid ← queue_pair_GetQID_str type flags str ns_id num_qps pid; mret (qid_cnt_ qid).

(** ** The classes *)

(** [labstor::ipc::shmem_queue_pair].  Enqueueing does not return before there
    is room, so that the exception for a failure is never thrown; [_Complete]
    does not use the id. *)
#[export] Instance shmem_queue_pair : queue_pair labstor_queue_pair := {
  v_GetQID qp := load_qid (labstor_queue_pair_GetQID qp);
  v_GetDepth := labstor_queue_pair_GetDepth;
  v_Enqueue fuel qp rq := tok ← labstor_queue_pair_Enqueue fuel qp rq; mret (Some tok);
  v_Peek := labstor_queue_pair_Peek;
  v_Dequeue := labstor_queue_pair_Dequeue;
  v_Complete := shmem_queue_pair__Complete;
  v_IsComplete := labstor_queue_pair_IsComplete
}.

(** [user_queue_pair] keeps its id in a field. *)
Record user_queue_pair := { uqp_qid_ : labstor_qid_t }.
Definition user_queue_pair_SetQID (qid : labstor_qid_t) (q : user_queue_pair) : user_queue_pair := {| uqp_qid_ := qid |}.

(** [async_queue_pair] leaves two functions to its subclass and defines the
    others to do nothing. *)
Definition async_queue_pair (enqueue : nat → user_queue_pair → Z → M (option labstor_qtok_t))
    (is_complete : user_queue_pair → Z → M (option Z)) : queue_pair user_queue_pair := {|
  v_GetQID q := mret (uqp_qid_ q);
  v_GetDepth q := mret 0;
  v_Enqueue := enqueue;
  v_Peek q i := mret None;
  v_Dequeue q := mret None;
  v_Complete fuel q req_id rq := mret tt;
  v_IsComplete := is_complete
|}.

(** ** The contract *)

(** What a subclass promises: a relation between the queue pair in memory and
    the state of the specification of QueuePair.v that its functions keep. *)
Class QueuePairLaws (Q : Type) `{queue_pair Q} (cap : Z) (objs : gset Z) := {
  qpl_rel : Q → qp_abs → mem → Prop;
  qpl_enqueue fuel q st m rq st' r :
    (0 < fuel)%nat → qpl_rel q st m → qp_spec_step cap objs st (QEnqueue rq) = Some (st', r) →
    wp (v_Enqueue fuel q rq) (λ t m', RTok <$> (qtok_req_id_ <$> t) = Some r ∧ qpl_rel q st' m') m;
  qpl_dequeue q st m st' r :
    qpl_rel q st m → qp_spec_step cap objs st QDequeue = Some (st', r) →
    wp (v_Dequeue q) (λ rq m', RRequest rq = r ∧ qpl_rel q st' m') m;
  qpl_id q st m rq id :
    qpl_rel q st m → qa_ids st !! rq = Some id → valid m (rq + rq_req_id_) 4 ∧ read 4 (rq + rq_req_id_) m = u32 id;
  qpl_dom q st m : qpl_rel q st m → dom (qa_cq st) ⊆ qa_out st;
  qpl_complete fuel q st m rq id :
    (0 < fuel)%nat → qpl_rel q st m → qa_ids st !! rq = Some id → id ∈ qa_out st → qa_cq st !! id = None →
    wp (v_Complete fuel q (u32 id) rq) (λ _ m', qpl_rel q (completed st rq id) m') m;
  qpl_is_complete q st m id :
    qpl_rel q st m → id ∈ qa_out st →
    wp (v_IsComplete q (u32 id))
       (λ r m', r = qa_cq st !! id ∧ qpl_rel q (match qa_cq st !! id with Some _ => waited st id | None => st end) m') m
}.

(** The queue pair in shared memory keeps it. *)
#[export] Program Instance shmem_queue_pair_laws (qid : labstor_qid_t) (cap : Z) (objs : gset Z)
    : QueuePairLaws labstor_queue_pair cap objs := {
  qpl_rel q st m :=
    qp_layout q cap objs ∧
    lrq_queue_ (qp_sq_ q) = labstor_request_ring_buffer_Attach (lrq_header_ (qp_sq_ q) + sizeof_lrq_header) ∧
    qp_rel q qid cap objs st m
}.
Next Obligation.
  intros qid cap objs fuel q st m rq st' r Hf (Hlay & Hh & Hrel) Hs. apply wp_bind.
  eapply wp_mono; [by eapply (qp_enqueue_spec q qid cap objs Hlay Hh)|].
  intros tok m' ((_ & ->) & Hrel' & _). apply wp_ret. by split.
Qed.
Next Obligation.
  intros qid cap objs q st m st' r (Hlay & Hh & Hrel) Hs.
  pose proof (qp_dequeue_refines q qid cap objs Hlay Hh 0 st m st' r Hrel Hs) as Hd. cbn [qp_step] in Hd.
  apply wp_bind_inv in Hd. eapply wp_mono; [exact Hd|]. intros rq m' Hq.
  destruct (proj1 (wp_run _ _ _) Hq) as (a & m2 & [= <- <-] & -> & Hrel' & _). done.
Qed.
Next Obligation.
  intros qid cap objs q st m rq id (Hlay & Hh & Hrel) Hid. destruct (qr_ids _ _ _ _ _ _ Hrel _ _ Hid) as [Hobj Hrd].
  unfold rq_req_id_. rewrite Z.add_0_r. split; [by apply (qr_valid _ _ _ _ _ _ Hrel)|done].
Qed.
Next Obligation. intros qid cap objs q st m (_ & _ & Hrel). apply Hrel. Qed.
Next Obligation.
  intros qid cap objs fuel q st m rq id Hf (Hlay & Hh & Hrel) Hid Hout Hnone. cbn.
  unfold shmem_queue_pair__Complete. apply wp_bind.
  eapply wp_mono; [by apply (qp_complete_inf_spec q qid cap objs Hlay fuel st m rq id)|].
  intros ok m' (-> & Hrel' & _). apply wp_ret. done.
Qed.
Next Obligation.
  intros qid cap objs q st m id (Hlay & Hh & Hrel) Hout. cbn.
  eapply wp_mono; [by apply (is_complete_spec q qid cap objs Hlay)|].
  intros r m' [[-> _] Hr]. split; [done|]. destruct (qa_cq st !! id); naive_solver.
Qed.

(** ** Client code over the class *)

(** Calls of the base class; the wait with a limit reads its own clock. *)
Inductive class_op :=
| CEnqueue (rq : Z)
| CDequeue
| CComplete (rq : Z)
| CIsComplete (id : Z)
| CWait (id : Z)
| CWaitMs (id max_ms : Z) (clock : nat → Z).

(** What the specification calls them: a completion under the request's own
    id; a wait with a limit gives what is there. *)
Definition to_qp (op : class_op) : qp_op :=
  match op with
  | CEnqueue rq => QEnqueue rq
  | CDequeue => QDequeue
  | CComplete rq => QComplete rq rq
  | CIsComplete id => QIsComplete id
  | CWait id => QWait id
  | CWaitMs id _ _ => QIsComplete id
  end.

(** The clock of a wait goes forward and passes the limit within [fuel]
    readings. *)
Definition limit_ok (fuel : nat) (op : class_op) : Prop :=
  match op with
  | CWaitMs _ max_ms clock =>
      0 <= max_ms < 2 ^ 32 ∧ ∃ N, (N < fuel)%nat ∧ (∀ i j, (i ≤ j ≤ N)%nat → clock i <= clock j) ∧
        clock N - clock 0%nat < 2 ^ 52 ∧ 1000000 * (max_ms + 1) <= time_waited Userspace clock N
  | _ => True
  end.

Section client.
Context {Q : Type} `{QueuePairLaws Q cap objs}.

Definition class_step (fuel : nat) (q : Q) (op : class_op) : M qp_res :=
  match op with
  | CEnqueue rq =>
      t ← queue_pair_Enqueue fuel q rq;
      mret (match t with Some tok => RTok (qtok_req_id_ tok) | None => RDone false end)
  | CDequeue => r ← queue_pair_Dequeue q; mret (RRequest r)
  | CComplete rq => _ ← queue_pair_Complete_rq fuel q rq; mret (RDone true)
  | CIsComplete id => r ← queue_pair_IsComplete q id; mret (RRequest r)
  | CWait id => r ← queue_pair_Wait fuel q (u32 id); mret (RRequest (Some r))
  | CWaitMs id max_ms clock => r ← queue_pair_Wait_ms fuel clock false q (u32 id) max_ms; mret (RRequest r)
  end.

Fixpoint class_run (fuel : nat) (q : Q) (ops : list class_op) : M (list qp_res) :=
  match ops with
  | [] => mret []
  | op :: ops' => r ← class_step fuel q op; rs ← class_run fuel q ops'; mret (r :: rs)
  end.

Definition polled (st : qp_abs) (id : Z) : qp_abs :=
  match qa_cq st !! id with Some _ => waited st id | None => st end.

(** Any number of tries gives what is there. *)
Lemma timed_tries_spec n q st m id :
  (0 < n)%nat → qpl_rel q st m → id ∈ qa_out st →
  wp (timed_spinwait n (v_IsComplete q (u32 id))) (λ r m', r = qa_cq st !! id ∧ qpl_rel q (polled st id) m') m.
Proof.
  intros Hn Hrel Hout. revert m Hrel. induction n as [|n IH]; intros m Hrel; [lia|]. cbn [timed_spinwait].
  apply wp_bind. eapply wp_mono; [by apply qpl_is_complete|]. fold (polled st id). intros r m' [-> Hrel'].
  destruct (qa_cq st !! id) as [rq|] eqn:E; [by apply wp_ret|].
  destruct n as [|n]; [by apply wp_ret|]. unfold polled in *. rewrite E in *. apply IH; [lia|done].
Qed.

Lemma wp_ext {A} (c c' : M A) P m : c m = c' m → wp c' P m → wp c P m.
Proof. unfold wp. by intros ->. Qed.

Lemma spins_pos : (0 < Z.to_nat MAX_YIELDS * Z.to_nat MAX_SPINS)%nat.
Proof. apply Nat.mul_pos_pos; change 0%nat with (Z.to_nat 0); apply Z2Nat.inj_lt; done. Qed.

Lemma wait_ms_spec fuel q st m id max_ms clock :
  limit_ok fuel (CWaitMs id max_ms clock) → qpl_rel q st m → id ∈ qa_out st →
  wp (queue_pair_Wait_ms fuel clock false q (u32 id) max_ms)
     (λ r m', r = qa_cq st !! id ∧ qpl_rel q (polled st id) m') m.
Proof.
  intros (Hmax & N & Hf & Hmono & Hr & HN) Hrel Hout.
  destruct (timed_spinwait_tries Userspace max_ms clock N fuel false (v_IsComplete q (u32 id)) m Hmax Hmono Hr HN Hf)
    as (K & _ & _ & _ & E).
  eapply wp_ext; [exact E|]. pose proof spins_pos. apply timed_tries_spec; [lia|done|done].
Qed.

Lemma class_step_refines fuel q st m op st' r :
  (0 < fuel)%nat → limit_ok fuel op → qpl_rel q st m → qp_spec_step cap objs st (to_qp op) = Some (st', r) →
  wp (class_step fuel q op) (λ r' m', r' = r ∧ qpl_rel q st' m') m.
Proof.
  intros Hf Hlim Hrel Hs. destruct op as [rq| |rq|id|id|id max_ms clock]; cbn [to_qp class_step] in *; apply wp_bind.
  - eapply wp_mono; [by eapply qpl_enqueue|]. intros [tok|] m' [E Hrel']; [|done]. injection E as <-. by apply wp_ret.
  - eapply wp_mono; [by eapply qpl_dequeue|]. intros rq m' [<- Hrel']. by apply wp_ret.
  - cbn in Hs. destruct (qa_ids st !! rq) as [id|] eqn:Hid; [|done]. case_decide as Hd; [|done].
    destruct Hd as (_ & _ & Hout & Hnone). injection Hs as <- <-.
    destruct (qpl_id _ _ _ _ _ Hrel Hid) as [Hv Hrd].
    unfold queue_pair_Complete_rq. apply wp_bind. apply wp_load; [done|]. rewrite Hrd.
    eapply wp_mono; [by apply qpl_complete|]. intros [] m' Hrel'. apply wp_ret. split; [done|].
    unfold completed in Hrel'. by rewrite (insert_id (qa_ids st)) by done.
  - cbn in Hs. case_decide as Hout; [|done]. eapply wp_mono; [by apply qpl_is_complete|].
    intros r' m' [-> Hrel']. apply wp_ret. destruct (qa_cq st !! id); by injection Hs as <- <-.
  - cbn in Hs. destruct (qa_cq st !! id) as [rq|] eqn:E; [|done]. injection Hs as <- <-.
    assert (id ∈ qa_out st) as Hout by (apply (qpl_dom _ _ _ Hrel), elem_of_dom; eauto).
    apply wp_inf_spinwait; [done|]. eapply wp_mono; [by apply qpl_is_complete|]. rewrite E.
    intros r' m' [-> Hrel']. exists rq. split; [done|]. by apply wp_ret.
  - cbn in Hs. case_decide as Hout; [|done]. eapply wp_mono; [by eapply wait_ms_spec|].
    intros r' m' [-> Hrel']. apply wp_ret. unfold polled in Hrel'. destruct (qa_cq st !! id); by injection Hs as <- <-.
Qed.

(** Code written against the base class of the queue pairs, which completes
    by the id in the request and waits by polling the virtual functions, with or
    without a time limit, sees the queue pair of the specification through any
    class that keeps the contract of the virtual functions. *)
Theorem class_refines fuel q ops st m rs :
  (0 < fuel)%nat → Forall (limit_ok fuel) ops → qpl_rel q st m →
  qp_spec_run cap objs st (to_qp <$> ops) = Some rs →
  wp (class_run fuel q ops) (λ rs' _, rs' = rs) m.
Proof.
  intros Hf Hlim. revert st m rs. induction Hlim as [|op ops Hop Hops IH]; intros st m rs Hrel Hs; cbn [class_run fmap list_fmap qp_spec_run] in *.
  - injection Hs as <-. by apply wp_ret.
  - apply bind_Some in Hs as ([st' r] & Hstep & Hs). apply bind_Some in Hs as (rs' & Hrun & [= <-]).
    apply wp_bind. eapply wp_mono; [by eapply class_step_refines|]. intros ? m' [-> Hrel'].
    apply wp_bind. eapply wp_mono; [by eapply IH|]. intros ? m2 ->. by apply wp_ret.
Qed.
End client.

Definition class_ops : list class_op :=
  [CEnqueue 8192; CEnqueue 8256; CDequeue; CWaitMs 0 50 (λ i, 30000000 * Z.of_nat i); CComplete 8192;
   CWaitMs 0 50 (λ i, 30000000 * Z.of_nat i); CDequeue; CComplete 8256; CWait 1; CDequeue].

(** In shared memory: a wait that times out and one that does not. *)
Lemma class_refines_witness :
  wp (qp ← labstor_queue_pair_Init Userspace (queue_pair_at 0 0 0) wit_qid 4096 2 4096 32 4160 12;
      class_run 3 qp class_ops)
     (λ rs _, rs = [RTok 0; RTok 1; RRequest (Some 8192); RRequest None; RDone true; RRequest (Some 8192);
                    RRequest (Some 8256); RDone true; RRequest (Some 8256); RRequest None]) wit_mem.
Proof.
  assert (qp_layout (queue_pair_at 4096 4096 4160) 2 wit_objs) as Hlay.
  { split; simpl; unfold near, outside, wit_objs;
      try (intros rq [->%elem_of_singleton| ->%elem_of_singleton]%elem_of_union); try lia.
    intros p q [->%elem_of_singleton| ->%elem_of_singleton]%elem_of_union
      [->%elem_of_singleton| ->%elem_of_singleton]%elem_of_union; lia. }
  apply wp_bind. eapply wp_mono.
  { apply (qp_init_rel Userspace (queue_pair_at 0 0 0) wit_qid 4096 2 4096 32 4160 12 wit_objs); try lia; try done.
    - apply (validb_valid _ 4096 32). vm_compute. reflexivity.
    - apply (validb_valid _ 4160 12). vm_compute. reflexivity.
    - intros rq [->%elem_of_singleton| ->%elem_of_singleton]%elem_of_union.
      + apply (validb_valid _ 8192 4). vm_compute. reflexivity.
      + apply (validb_valid _ 8256 4). vm_compute. reflexivity. }
  intros qp m' (-> & Hrel & _).
  eapply (class_refines (H0 := shmem_queue_pair_laws wit_qid 2 wit_objs) 3 _ class_ops qp_spec_init).
  - lia.
  - assert (∀ id, limit_ok 3 (CWaitMs id 50 (λ i, 30000000 * Z.of_nat i))) as Hms.
    { intros id. split; [lia|]. exists 2%nat. split_and!; [lia|intros i j Hij; lia|lia|cbn; lia]. }
    unfold class_ops. repeat (apply Forall_cons_2; [first [apply Hms|exact I]|]). apply Forall_nil_2.
  - done.
  - vm_compute. reflexivity.
Defined.

(** [Complete(old_rq, new_rq)] passes the id of the old request, which the class
    in shared memory does not use: the new request is completed under its own
    id, and the wait for the old one finds nothing. *)
Lemma complete_as_own_id :
  match (qp ← labstor_queue_pair_Init Userspace (queue_pair_at 0 0 0) wit_qid 4096 2 4096 32 4160 12;
         _ ← queue_pair_Enqueue 1 qp 8192; _ ← queue_pair_Enqueue 1 qp 8256; _ ← queue_pair_Dequeue qp;
         _ ← queue_pair_Complete_as 1 qp 8192 8256;
         a ← queue_pair_IsComplete qp 0; b ← queue_pair_IsComplete qp 1; mret (a, b)) wit_mem with
  | Ret r _ => r = (None, Some 8256)
  | _ => False
  end.
Proof. vm_compute. reflexivity. Qed.
