(* ===== verification/Daemon.v ===== *)
(** * Daemon.v: the threads of the server

    types/daemon.h and userspace/types/userspace_daemon.h: a thread that calls
    [DoWork] of its worker until it is told to stop, and its processors.  The
    thread and its owner share the flags; while the owner runs or waits the
    thread makes any number of steps. *)

From S2P Require Import Prelude.

Local Open Scope Z_scope.

(** ** State *)

(** Where the thread is: before [SetStarted], before the test of the loop,
    before [DoWork], returned; [TNone] when there is none to join. *)
Inductive daemon_pc := TNone | TInit | TLoop | TWork | TExit.

(** [Daemon] and [UserspaceDaemon]; [W] is the state of the worker. *)
Record UserspaceDaemon (W : Type) := {
  n_cpu_ : Z;
  affinity_ : Z;
  worker_ : W;
  thread_ : daemon_pc;
  continue_work_ : bool;
  started_ : bool
}.
Arguments n_cpu_ {W}.
Arguments affinity_ {W}.
Arguments worker_ {W}.
Arguments thread_ {W}.
Arguments continue_work_ {W}.
Arguments started_ {W}.

(** A call returns, throws, waits for ever, or the program is terminated. *)
Inductive daemon_result (W : Type) :=
| DRet (d : UserspaceDaemon W)
| DThrow (code : Z) (d : UserspaceDaemon W)
| DWaits
| DTerminate.
Arguments DRet {W}.
Arguments DThrow {W}.
Arguments DWaits {W}.
Arguments DTerminate {W}.

Definition INVALID_AFFINITY : Z := 3.

Section daemon.
Context {W : Type}.

(** One pass of the worker; [None] for an exception. *)
Context (DoWork : W → option W).

(** The system call on a set of processors: 0 or an error number.  The mask has
    [n_cpu_] bytes of an array whose first 128 are cleared. *)
Context (pthread_setaffinity_np : gset Z → Z) (uninitialised : gset Z).

Definition Daemon_new (nprocs : Z) (worker : W) (flags : bool * bool) : UserspaceDaemon W :=
  {| n_cpu_ := nprocs; affinity_ := -1; worker_ := worker; thread_ := TNone;
     continue_work_ := flags.1; started_ := flags.2 |}.

Definition SetWorker (worker : W) (d : UserspaceDaemon W) : UserspaceDaemon W :=
  {| n_cpu_ := n_cpu_ d; affinity_ := affinity_ d; worker_ := worker; thread_ := thread_ d;
     continue_work_ := continue_work_ d; started_ := started_ d |}.
Definition GetWorker (d : UserspaceDaemon W) : W := worker_ d.

Definition with_thread (pc : daemon_pc) (d : UserspaceDaemon W) : UserspaceDaemon W :=
  {| n_cpu_ := n_cpu_ d; affinity_ := affinity_ d; worker_ := worker_ d; thread_ := pc;
     continue_work_ := continue_work_ d; started_ := started_ d |}.
Definition with_flags (continue started : bool) (d : UserspaceDaemon W) : UserspaceDaemon W :=
  {| n_cpu_ := n_cpu_ d; affinity_ := affinity_ d; worker_ := worker_ d; thread_ := thread_ d;
     continue_work_ := continue; started_ := started |}.
Definition with_affinity (cpu_id : Z) (d : UserspaceDaemon W) : UserspaceDaemon W :=
  {| n_cpu_ := n_cpu_ d; affinity_ := cpu_id; worker_ := worker_ d; thread_ := thread_ d;
     continue_work_ := continue_work_ d; started_ := started_ d |}.

Definition SetStarted (d : UserspaceDaemon W) : UserspaceDaemon W := with_flags (continue_work_ d) true d.
Definition ShouldContinue (d : UserspaceDaemon W) : bool := continue_work_ d.

(** A step of [daemon_thread]; [None]: an exception leaves the thread. *)
Definition daemon_thread (d : UserspaceDaemon W) : option (UserspaceDaemon W) :=
  match thread_ d with
  | TNone | TExit => Some d
  | TInit => Some (with_thread TLoop (SetStarted d))
  | TLoop => Some (with_thread (if ShouldContinue d then TWork else TExit) d)
  | TWork => w ← DoWork (worker_ d); Some (with_thread TLoop (SetWorker w d))
  end.

Fixpoint thread_steps (n : nat) (d : UserspaceDaemon W) : option (UserspaceDaemon W) :=
  match n with O => Some d | S n' => d' ← daemon_thread d; thread_steps n' d' end.

(** [while(!started_)], with [n] steps of the thread to wait for. *)
Fixpoint wait_started (n : nat) (d : UserspaceDaemon W) : daemon_result W :=
  if started_ d then DRet d
  else match n with
       | O => DWaits
       | S n' => match daemon_thread d with Some d' => wait_started n' d' | None => DTerminate end
       end.

(** Assigning to a thread that has not been joined terminates the program. *)
Definition Start (n : nat) (d : UserspaceDaemon W) : daemon_result W :=
  let d := with_flags true false d in
  match thread_ d with
  | TNone => wait_started n (with_thread TInit d)
  | _ => DTerminate
  end.

(** [thread_.join()]; joining no thread throws an exception of the library. *)
Fixpoint join (n : nat) (d : UserspaceDaemon W) : daemon_result W :=
  match thread_ d with
  | TExit => DRet (with_thread TNone d)
  | TNone => DTerminate
  | _ =>
      match n with
      | O => DWaits
      | S n' => match daemon_thread d with Some d' => join n' d' | None => DTerminate end
      end
  end.

Definition Stop (n : nat) (d : UserspaceDaemon W) : daemon_result W := join n (with_flags false (started_ d) d).
Definition Wait (n : nat) (d : UserspaceDaemon W) : daemon_result W := join n d.

(** [CPU_ZERO] and [CPU_SET] on the first [cpu_set_t], which does nothing for a
    processor outside of it. *)
Definition cpu_mask (d : UserspaceDaemon W) (cpus : gset Z) : gset Z :=
  filter (λ c, c < 8 * n_cpu_ d) (filter (λ c, 0 <= c < 1024) cpus ∪ filter (λ c, 1024 <= c) uninitialised).

Definition pthread_setaffinity_np_safe (cpus : gset Z) (d : UserspaceDaemon W) : daemon_result W :=
  if negb (pthread_setaffinity_np (cpu_mask d cpus) =? 0) then DThrow INVALID_AFFINITY d else DRet d.

Definition SetAffinity (cpu_id : Z) (d : UserspaceDaemon W) : daemon_result W :=
  match pthread_setaffinity_np_safe {[cpu_id]} d with
  | DRet d' => DRet (with_affinity cpu_id d')
  | r => r
  end.

Definition Pause (d : UserspaceDaemon W) : daemon_result W := pthread_setaffinity_np_safe ∅ d.
Definition Resume (d : UserspaceDaemon W) : daemon_result W := SetAffinity (affinity_ d) d.

(** ** The thread runs the worker *)

(** [k] passes of the worker. *)
Fixpoint passes (k : nat) (w : W) : option W :=
  match k with O => Some w | S k' => w' ← DoWork w; passes k' w' end.

Lemma passes_S k w : passes (S k) w = (w' ← passes k w; DoWork w').
Proof.
  revert w. induction k as [|k IH]; intros w; [cbn; by destruct (DoWork w)|].
  cbn [passes]. destruct (DoWork w) as [w'|]; [exact (IH w')|done].
Qed.

(** A pass is two steps of a thread that is not told to stop. *)
Lemma thread_steps_passes k (d : UserspaceDaemon W) :
  thread_ d = TLoop → continue_work_ d = true →
  thread_steps (2 * k) d = (w ← passes k (worker_ d); Some (SetWorker w d)).
Proof.
  revert d. induction k as [|k IH]; intros d Ht Hc; [by destruct d|].
  replace (2 * S k)%nat with (S (S (2 * k))) by lia. cbn [thread_steps passes].
  assert (daemon_thread d = Some (with_thread TWork d)) as ->.
  { unfold daemon_thread, ShouldContinue. by rewrite Ht, Hc. }
  cbn [mbind option_bind]. unfold daemon_thread at 1. cbn [thread_ with_thread worker_].
  destruct (DoWork (worker_ d)) as [w|]; [|done]. cbn [mbind option_bind].
  rewrite IH by done. cbn. destruct d; cbn in *; subst. done.
Qed.

Lemma thread_steps_add a b d : thread_steps (a + b) d = (d' ← thread_steps a d; thread_steps b d').
Proof.
  revert d. induction a as [|a IH]; intros d; [done|]. cbn [Nat.add thread_steps].
  destruct (daemon_thread d); [|done]. cbn [mbind option_bind]. apply IH.
Qed.

Lemma started_steps n d : thread_ d = TInit → (0 < n)%nat → wait_started n (with_flags true false d) =
  DRet (with_thread TLoop (with_flags true true d)).
Proof. intros Ht Hn. destruct n as [|n]; [lia|]. cbn. unfold daemon_thread. cbn. rewrite Ht. cbn. by destruct n. Qed.

(** C22. A daemon that is started, runs [n] steps and is stopped, makes a whole
    number of passes of the worker, and stops within two more steps. *)
Theorem daemon_runs_worker d n f w :
  thread_ d = TNone → (0 < f)%nat → passes ((n + 1) / 2) (worker_ d) = Some w →
  ∃ d1 d2 d3, Start f d = DRet d1 ∧ worker_ d1 = worker_ d ∧ thread_steps n d1 = Some d2 ∧
    (∀ j, Stop (2 + j) d2 = DRet d3) ∧ worker_ d3 = w ∧ thread_ d3 = TNone ∧ affinity_ d3 = affinity_ d.
Proof.
  intros Ht Hf Hw. set (d1 := with_thread TLoop (with_flags true true d)). exists d1.
  assert (Start f d = DRet d1) as HS.
  { unfold Start. cbn [thread_ with_flags]. rewrite Ht. exact (started_steps f (with_thread TInit d) eq_refl Hf). }
  pose proof (λ k, thread_steps_passes k d1 eq_refl eq_refl) as Hrun. cbn [worker_ with_thread with_flags d1] in Hrun.
  destruct (Nat.Even_or_Odd n) as [[k ->]|[k ->]].
  - replace ((2 * k + 1) / 2)%nat with k in Hw by (apply (Nat.div_unique _ 2 k 1); lia).
    exists (SetWorker w d1), (with_thread TNone (SetWorker w (with_flags false true d1))).
    split_and!; [done|done|by rewrite Hrun, Hw|by intros [|j]|done..].
  - replace ((2 * k + 1 + 1) / 2)%nat with (S k) in Hw by (apply (Nat.div_unique _ 2 (S k) 0); lia).
    rewrite passes_S in Hw. apply bind_Some in Hw as (w1 & Hk & Hw1).
    exists (with_thread TWork (SetWorker w1 d1)), (with_thread TNone (SetWorker w (with_flags false true d1))).
    split_and!; [done|done| | |done..].
    + rewrite thread_steps_add, Hrun, Hk. done.
    + intros j. unfold Stop. cbn. unfold daemon_thread at 1. cbn. rewrite Hw1. cbn. by destruct j.
Qed.

(** Once joined, nothing of the thread is left to run. *)
Lemma joined_steps n d : thread_ d = TNone → thread_steps n d = Some d.
Proof. intros Ht. induction n as [|n IH]; [done|]. cbn. unfold daemon_thread. rewrite Ht. exact IH. Qed.

(** [Wait] does not tell the thread to stop: it does not return while the
    worker goes on. *)
Lemma wait_for_ever n d :
  (∀ w, is_Some (DoWork w)) → continue_work_ d = true → thread_ d = TLoop ∨ thread_ d = TWork → Wait n d = DWaits.
Proof.
  intros HD. revert d. induction n as [|n IH]; intros d Hc [Ht|Ht]; unfold Wait in *; cbn; rewrite Ht; try done;
    unfold daemon_thread, ShouldContinue; rewrite Ht; [rewrite Hc|destruct (HD (worker_ d)) as [w ->]; cbn];
    apply IH; cbn; auto.
Qed.

(** An exception of the worker ends the program, and not only the thread. *)
Lemma worker_exception_terminates n d :
  DoWork (worker_ d) = None → thread_ d = TWork → Wait (S n) d = DTerminate.
Proof. intros Hw Ht. unfold Wait. cbn. rewrite Ht. unfold daemon_thread. by rewrite Ht, Hw. Qed.

Lemma start_twice_terminates n d : thread_ d ≠ TNone → Start n d = DTerminate.
Proof. intros Ht. unfold Start. cbn. by destruct (thread_ d). Qed.

(** ** Processors *)

Section affinity.
(** sched_setaffinity(2): EINVAL when the mask has no processor of the system
    on which the thread may run. *)
Context (EINVAL : Z) (allowed : gset Z).
Hypothesis EINVAL_nonzero : EINVAL ≠ 0.
Hypothesis setaffinity_spec : ∀ mask, pthread_setaffinity_np mask = if decide (mask ∩ allowed = ∅) then EINVAL else 0.

(** On a system with up to 128 processors, binding to one succeeds exactly when
    it is one of them; a daemon can not be paused, and not be resumed unless
    it was bound before. *)
Theorem daemon_affinity d cpu :
  0 < n_cpu_ d <= 128 → (∀ c, c ∈ allowed → 0 <= c < n_cpu_ d) → (∀ c, c ∈ uninitialised → c < 8 * n_cpu_ d → c < 1024) →
  SetAffinity cpu d = (if decide (cpu ∈ allowed) then DRet (with_affinity cpu d) else DThrow INVALID_AFFINITY d) ∧
  Pause d = DThrow INVALID_AFFINITY d ∧
  (affinity_ d = -1 → Resume d = DThrow INVALID_AFFINITY d) ∧
  (cpu ∈ allowed → Resume (with_affinity cpu d) = DRet (with_affinity cpu d)).
Proof.
  intros Hn Hal Hun.
  assert (∀ d' cpus, n_cpu_ d' = n_cpu_ d → (cpu_mask d' cpus ∩ allowed = ∅ ↔ ∀ c, c ∈ cpus → c ∉ allowed)) as Hmask.
  { intros d' cpus Hd. unfold cpu_mask. rewrite Hd. split.
    - intros He c Hc Ha. apply (not_elem_of_empty (C := gset Z) c). rewrite <- He. specialize (Hal c Ha).
      rewrite elem_of_intersection, elem_of_filter, elem_of_union, elem_of_filter. split; [|done]. split; [lia|]. left. split; [lia|done].
    - intros He. apply leibniz_equiv, equiv_empty. intros c.
      rewrite elem_of_intersection, elem_of_filter, elem_of_union, !elem_of_filter.
      intros [[Hlt [[_ Hc]|[Hge Hc]]] Ha]; [by destruct (He c Hc)|]. specialize (Hun c Hc Hlt). lia. }
  assert (∀ c d', n_cpu_ d' = n_cpu_ d → SetAffinity c d' =
    if decide (c ∈ allowed) then DRet (with_affinity c d') else DThrow INVALID_AFFINITY d') as HS.
  { intros c d' Hd. unfold SetAffinity, pthread_setaffinity_np_safe. rewrite setaffinity_spec. specialize (Hmask d' {[c]} Hd).
    case_decide as Hm; case_decide as Ha; try done.
    - by destruct (proj1 Hmask Hm c (elem_of_singleton_2 _ _ eq_refl)).
    - by rewrite (proj2 (Z.eqb_neq _ _)).
    - destruct Hm. apply Hmask. intros x ->%elem_of_singleton. done. }
  split_and!; [by apply HS| | |].
  - unfold Pause, pthread_setaffinity_np_safe. rewrite setaffinity_spec, decide_True by (apply (Hmask d ∅); [done|set_solver]).
    by rewrite (proj2 (Z.eqb_neq _ _)).
  - intros Ha. unfold Resume. rewrite HS by done. rewrite decide_False; [done|]. rewrite Ha. intros Hc%Hal. lia.
  - intros Hc. unfold Resume. rewrite HS by done. cbn [affinity_ with_affinity]. by rewrite decide_True.
Qed.
End affinity.
End daemon.

(** ** Examples *)

(** A worker that counts its passes. *)
Lemma daemon_runs_worker_witness :
  ∃ d1 d2 d3, Start (λ w : nat, Some (S w)) 1 (Daemon_new 8 0%nat (false, true)) = DRet d1 ∧ worker_ d1 = 0%nat ∧
    thread_steps (λ w : nat, Some (S w)) 5 d1 = Some d2 ∧
    (∀ j, Stop (λ w : nat, Some (S w)) (2 + j) d2 = DRet d3) ∧ worker_ d3 = 3%nat ∧ thread_ d3 = TNone ∧ affinity_ d3 = -1.
Proof. apply (daemon_runs_worker (λ w : nat, Some (S w)) (Daemon_new 8 0%nat (false, true)) 5 1 3%nat); [done|lia|done]. Defined.

Definition ex_setaffinity (mask : gset Z) : Z := if decide (mask ∩ {[0; 1; 2; 3]} = ∅) then 22 else 0.

(** Four processors. *)
Lemma daemon_affinity_witness :
  let d := Daemon_new 4 0%nat (false, true) in
  SetAffinity ex_setaffinity ∅ 2 d = DRet (with_affinity 2 d) ∧ Pause ex_setaffinity ∅ d = DThrow INVALID_AFFINITY d ∧
  Resume ex_setaffinity ∅ d = DThrow INVALID_AFFINITY d ∧
  Resume ex_setaffinity ∅ (with_affinity 2 d) = DRet (with_affinity 2 d).
Proof.
  intros d. destruct (daemon_affinity ex_setaffinity ∅ 22 {[0; 1; 2; 3]} ltac:(done) ltac:(done) d 2) as (H1 & H2 & H3 & H4).
  - cbn. lia.
  - intros c Hc. cbn. set_unfold in Hc. lia.
  - done.
  - split; [exact H1|]. split; [exact H2|]. split; [by apply H3|]. apply H4. set_solver.
Defined.
