(* ===== verification/KernelStart.v ===== *)
(** * KernelStart.v: the server starts the workers of the kernel

    The second half of [WorkOrchestrator::CreateWorkers]
    (src/userspace/server/work_orchestrator.cpp): a region for the work queues,
    the message that makes the kernel lay them out and create the threads, and
    a message per worker that binds its thread to a processor and wakes it up.
    The messages go through NetlinkClient.v to Kernel.v; the workers that they
    make are those that KernelModules.v unloads. *)

From S2P Require Import Prelude Memory RingBuffer RequestQueue QueuePair WorkQueue Allocators SecureShmem Kernel.
From S2P Require Import KernelWorker KernelPass Session ShmemString NetlinkClient MqTags MqDriver KernelModules IpcManager.

Local Open Scope Z_scope.

Section start.
Context (ne : netlink_env) (env : kenv) (modules : module_table).

(** The loop over the workers of the configuration: [conf] has their numbers
    and processors, [kernel_workers] the vector of their clients. *)
Fixpoint bind_kernel_workers (conf : list (Z * Z)) (kernel_workers : list (option Z)) : NM (list (option Z)) :=
  match conf with
  | [] => mret kernel_workers
  | (worker_id, cpu_id) :: conf' =>
      _ ← WorkerClient_SetAffinity ne env modules worker_id cpu_id;
      if (worker_id <? 0) || (Z.of_nat (length kernel_workers) <=? worker_id) then nl_mem fault
      else bind_kernel_workers conf' (<[Z.to_nat worker_id := Some worker_id]> kernel_workers)
  end.

Definition start_kernel_workers (conf : list (Z * Z)) (region_id region_size : Z) : NM (list (option Z)) :=
  let nworkers := Z.of_nat (length conf) in
  _ ← WorkerClient_CreateWorkers ne env modules nworkers region_id region_size 0;
  bind_kernel_workers conf (replicate (length conf) None).
End start.

(** The whole half: [env1] and [env2] are the kernel in which the region is
    reserved and granted. *)
Definition create_kernel_workers (ne : netlink_env) (env1 env2 env : kenv) (modules : kenv → module_table)
    (chrdev : bool) (vm_start : option Z) (remap_ok : Z → bool) (queue_depth : Z) (conf : list (Z * Z))
    : NM (list (option Z)) :=
  if decide (conf = []) then nl_mem (throw WORK_ORCHESTRATOR_HAS_NO_WORKERS)
  else
    let region_size := u32 (Z.of_nat (length conf) * labstor_work_queue_GetSize_global queue_depth) in
    region_id ← ShmemClient_CreateShmem ne env1 (modules env1) region_size true;
    if region_id <? 0 then nl_mem (throw WORK_ORCHESTRATOR_WORK_QUEUE_ALLOC_FAILED)
    else
      _ ← ShmemClient_GrantPidShmem ne env2 (modules env2) (ne_pid ne) region_id;
      region ← ShmemClient_MapShmem ne env chrdev vm_start remap_ok region_id region_size;
      if region =? NULL then nl_mem (throw WORK_ORCHESTRATOR_WORK_QUEUE_MMAP_FAILED)
      else start_kernel_workers ne env (modules env) conf region_id region_size.

(** ** Laying out the queues *)

(** The size of the section of a worker and the entries in it, for a queue of
    [size] bytes. *)
Definition section_entries (size : Z) : Z := (size - sizeof_wq_header) / sizeof_pointer.
Definition section_size (size : Z) : Z := sizeof_wq_header + sizeof_labstor_off_t * section_entries size.

Definition new_worker (region i : Z) : labstor_worker_struct :=
  {| lw_work_queue_ := labstor_work_queue_Attach region; lw_complete_ack_ := false; lw_worker_id_ := i; lw_cpu := None |}.

Lemma init_section fresh region size m :
  20 <= size < 2 ^ 32 → valid m region 12 →
  ∃ m', labstor_work_queue_Init Kernel fresh region size 0 m = Ret (labstor_work_queue_Attach region, true) m' ∧
    labstor_work_queue_GetNextSection (labstor_work_queue_Attach region) m' = Ret (region + section_size size) m' ∧
    modifies (span region 12) m m'.
Proof.
  intros Hs Hv. assert (1 <= section_entries size < 2 ^ 29) as He.
  { unfold section_entries, sizeof_wq_header, sizeof_pointer. split; [apply Z.div_le_lower_bound|apply Z.div_lt_upper_bound]; lia. }
  assert (wp (labstor_work_queue_Init Kernel fresh region size 0)
    (λ r m', r = (labstor_work_queue_Attach region, true) ∧ modifies (span region 12) m m' ∧
       read 4 (region + wqh_max_depth_) m' = section_entries size) m) as Hwp.
  { unfold labstor_work_queue_Init. autounfold with layout. cbv zeta. wp_go.
    change (labstor_work_queue_GetSize_global 0) with 12. rewrite (proj2 (Z.ltb_ge _ _)) by lia.
    change (0 =? 0) with true. cbv iota. rewrite (u32_small (size - _)) by (unfold sizeof_wq_header; lia).
    change ((size - 12) / 8) with (section_entries size). rewrite (proj2 (Z.eqb_neq _ _)) by lia. wp_go.
    split; [done|]. split; [msolve|]. autounfold with layout. rewrite read32_write. apply u32_small. lia. }
  destruct (proj1 (wp_run _ _ _) Hwp) as (r & m' & E & -> & Hm & Hrd). exists m'. split; [done|]. split; [|done].
  apply wp_exact. unfold labstor_work_queue_GetNextSection, labstor_work_queue_GetSize.
  assert (valid m' region 12) by (by eapply valid_modifies). autounfold with layout in *.
  wp_go. cbn [wq_header_ labstor_work_queue_Attach]. unfold wqh_max_depth_ in Hrd. split; [|done].
  unfold labstor_work_queue_GetSize_global, section_size. cbn in Hrd |- *. rewrite Hrd.
  rewrite u32_small by (unfold sizeof_wq_header, sizeof_labstor_off_t; lia). done.
Qed.

(** The worker array: one section after the other. *)
Lemma spawn_loop_run n i region size fresh m :
  20 <= size < 2 ^ 32 → valid m region (Z.of_nat n * section_size size) →
  ∃ ws m', spawn_loop n i region size fresh m = Ret ws m' ∧ length ws = n ∧
    (∀ j, (j < n)%nat → ws !! j = Some (new_worker (region + Z.of_nat j * section_size size) (i + Z.of_nat j))) ∧
    modifies (span region (Z.of_nat n * section_size size)) m m'.
Proof.
  intros Hs. assert (12 <= section_size size) as Hss.
  { unfold section_size, section_entries, sizeof_wq_header, sizeof_labstor_off_t, sizeof_pointer.
    pose proof (Z.div_pos (size - 12) 8). lia. }
  revert i region m. induction n as [|n IH]; intros i region m Hv.
  { exists [], m. split_and!; [done|done|lia|apply modifies_refl]. }
  rewrite Nat2Z.inj_succ in *. cbn [spawn_loop].
  destruct (init_section fresh region size m Hs) as (m1 & E1 & E2 & M1); [apply (valid_sub _ _ _ _ _ Hv); nia|].
  rewrite (run_bind _ _ _ _ _ E1). cbn [fst]. rewrite (run_bind _ _ _ _ _ E2).
  destruct (IH (i + 1) (region + section_size size) m1) as (ws & m2 & E3 & Hlen & Hws & M2).
  { eapply valid_modifies; [exact M1|]. apply (valid_sub _ _ _ _ _ Hv); nia. }
  rewrite (run_bind _ _ _ _ _ E3). eexists _, m2. split; [reflexivity|]. split; [cbn; by rewrite Hlen|]. split.
  - intros [|j] Hj; cbn [lookup list_lookup].
    + rewrite Z.mul_0_l, !Z.add_0_r. done.
    + rewrite Hws by lia. rewrite !Nat2Z.inj_succ. do 2 f_equal; unfold Z.succ; ring.
  - eapply modifies_trans; [eapply modifies_weaken; [exact M1|]|eapply modifies_weaken; [exact M2|]]; unfold span; intros; nia.
Qed.

(** ** A message to a module of the kernel *)

Record buffers (ne : netlink_env) (m : mem) : Prop := {
  bf_calls : ne_sendto ne = true ∧ ne_recvfrom ne = true;
  bf_pid : - 2 ^ 31 <= ne_pid ne < 2 ^ 31;
  bf_rq : valid m (ne_rq ne) 40;
  bf_code : valid m (ne_code ne) 4;
  bf_send : valid m (ne_send_nlh ne) 56;
  bf_skb : valid m (ne_skb_data ne) 56;
  bf_recv : valid m (ne_recv_nlh ne) 20;
  bf_apart : ∀ a, span (ne_rq ne) 40 a → ¬ span (ne_send_nlh ne) 56 a
}.

(** Memory stays mapped. *)
Definition mapped (m m' : mem) : Prop := ∀ p n, valid m p n → valid m' p n.

#[export] Instance mapped_preorder : PreOrder mapped.
Proof. split; [by intros m p n|]. intros m1 m2 m3 H1 H2 p n H. by apply H2, H1. Qed.

Lemma modifies_mapped P m m' : modifies P m m' → mapped m m'.
Proof. intros Hm p n Hv. by eapply valid_modifies. Qed.

Lemma buffers_mapped ne m m' : mapped m m' → buffers ne m → buffers ne m'.
Proof. intros Hm []. split; auto. Qed.

(** [serve] is what the kernel does with the copy of the request; what is left
    for the client is to receive the answer. *)
Lemma netlink_call_run ne env modules size k m (Post : kstate → Prop) :
  buffers ne m → 0 <= size <= 40 → NLMSG_SPACE size <= 56 →
  (∀ m2, copied (NLMSG_DATA (ne_skb_data ne)) (ne_rq ne) size m m2 → mapped m m2 →
     ∃ m3 k' code, server_loop env modules (ne_pid ne) (NLMSG_DATA (ne_skb_data ne)) k m2 = Ret (tt, k') m3 ∧
       mapped m2 m3 ∧ inbox (ne_pid ne) k' = inbox (ne_pid ne) k ++ [RCode code] ∧ Post k') →
  ∃ k' m', netlink_call ne env modules size 4 (length (inbox (ne_pid ne) k)) k m =
      Ret ((tt, length (inbox (ne_pid ne) k')), k') m' ∧
    buffers ne m' ∧ mapped m m' ∧ Post k'.
Proof.
  intros Hb Hs Hsp Hserve. pose proof Hb as []. pose proof (nlmsg_space_bounds size) as Hb2.
  destruct (send_run ne env modules (ne_rq ne) size (λ _, NetlinkClient_RecvMSG ne (ne_code ne) 4 ≫= λ _, mret tt)
    (length (inbox (ne_pid ne) k)) k m) as (m2 & E & Hcopy & M2); [apply bf_calls0|done|lia|..].
  { apply (valid_sub _ _ _ _ _ bf_rq0); lia. }
  { apply (valid_sub _ _ _ _ _ bf_send0); lia. }
  { apply (valid_sub _ _ _ _ _ bf_skb0); lia. }
  { intros a Ha Ha'. apply (bf_apart0 a); unfold span in *; lia. }
  assert (mapped m m2) as Hm2 by (by eapply modifies_mapped).
  destruct (Hserve m2 Hcopy Hm2) as (m3 & k' & code & E3 & Hm3 & Hin & HP).
  assert (buffers ne m3) as Hb3 by (eapply buffers_mapped; [exact Hm3|]; by eapply buffers_mapped).
  destruct (recv_run ne (ne_code ne) 4 (RCode code) (λ _, mret tt) (length (inbox (ne_pid ne) k)) k' m3)
    as (m4 & E4 & _ & M4); [apply Hb3|lia|apply Hb3|apply Hb3|by rewrite Hin, list_lookup_middle|].
  exists k', m4. unfold netlink_call. rewrite E, (nl_kernel_run _ _ _ _ _ _ _ _ E3), E4.
  split; [rewrite Hin, length_app, Nat.add_1_r; done|].
  assert (mapped m3 m4) as Hm4 by (by eapply modifies_mapped).
  split; [by eapply buffers_mapped|]. split; [|done]. etrans; [exact Hm2|]. by etrans.
Qed.

(** The messages of the work orchestrator in a kernel that has its module. *)
Section orchestrator.
Context (ne : netlink_env) (fuel : nat) (env : kenv) (fresh : labstor_work_queue).
Hypothesis Hskb : ke_skb env = true.

Lemma server_loop_worker pid rq k m :
  s32 (read 4 (rq + rq_ns_id_) m) = WORKER_MODULE_RUNTIME_ID → valid m (rq + rq_ns_id_) 4 →
  server_loop env (kernel_modules fuel env fresh) pid rq k m = worker_process_request_fn_netlink env fresh pid rq k m.
Proof.
  intros Hns Hv. unfold server_loop.
  assert (load32 (rq + rq_ns_id_) m = Ret (read 4 (rq + rq_ns_id_) m) m) as E by (apply wp_exact, wp_load; done).
  rewrite (lift_run _ _ _ _ _ _ E), Hns, kernel_modules_lookup. rewrite !decide_False, decide_True by done. done.
Qed.

(** [set_worker_affinity] binds and wakes the worker. *)
Definition bound (w : labstor_worker_struct) (cpu_id : Z) : labstor_worker_struct :=
  {| lw_work_queue_ := lw_work_queue_ w; lw_complete_ack_ := lw_complete_ack_ w; lw_worker_id_ := lw_worker_id_ w;
     lw_cpu := Some cpu_id |}.

Definition with_sent (pid : Z) (r : reply) (k : kstate) : kstate :=
  {| k_shmem := k_shmem k; k_ipc_manager_ := k_ipc_manager_ k; k_workers := k_workers k;
     k_num_workers := k_num_workers k; k_keep_running := k_keep_running k;
     k_shmem_region_id := k_shmem_region_id k; k_shmem_region := k_shmem_region k;
     k_bdevs := k_bdevs k; k_sent := (pid, r) :: k_sent k |}.

Lemma msg_run pid r k m : labstor_msg_trusted_server env r pid k m = Ret (tt, with_sent pid r k) m.
Proof. unfold labstor_msg_trusted_server. by rewrite Hskb. Qed.

Lemma inbox_sent pid r k k' : k_sent k' = k_sent k → inbox pid (with_sent pid r k') = inbox pid k ++ [r].
Proof. intros E. unfold inbox. cbn [with_sent k_sent]. rewrite filter_cons_True by done. cbn [rev]. by rewrite fmap_app, E. Qed.

Lemma set_affinity_run worker_id cpu_id k m ws w :
  buffers ne m → - 2 ^ 31 <= worker_id < 2 ^ 31 → - 2 ^ 31 <= cpu_id < 2 ^ 31 →
  k_workers k = Some ws → 0 <= worker_id → ws !! Z.to_nat worker_id = Some w →
  ∃ k' m', WorkerClient_SetAffinity ne env (kernel_modules fuel env fresh) worker_id cpu_id (length (inbox (ne_pid ne) k)) k m =
      Ret ((tt, length (inbox (ne_pid ne) k')), k') m' ∧ buffers ne m' ∧ mapped m m' ∧
    k' = with_sent (ne_pid ne) (RCode 0) (put_worker_state worker_id (bound w cpu_id) k).
Proof.
  intros Hb Hw Hc Hws Hpos Hwk. pose proof (bf_rq _ _ Hb) as Hrq. set (rq := ne_rq ne) in *.
  set (m1 := write 4 (rq + 20) (s32_bits cpu_id) (write 4 (rq + 16) (s32_bits worker_id)
               (write 2 (rq + rq_op_) 1 (write 4 (rq + rq_ns_id_) WORKER_MODULE_RUNTIME_ID m)))).
  assert ((_ ← fill_header ne WORKER_MODULE_RUNTIME_ID 1; _ ← store_s32 (rq + 16) worker_id; store_s32 (rq + 20) cpu_id) m
    = Ret tt m1) as Efill.
  { apply wp_exact. unfold fill_header. fold rq. autounfold with layout. wp_go. done. }
  assert (modifies (span rq 40) m m1) as M1 by (unfold m1; autounfold with layout; msolve).
  unfold WorkerClient_SetAffinity. fold rq. rewrite (nl_mem_run _ _ _ _ _ _ _ Efill).
  assert (mapped m m1) as Hm1 by (by eapply modifies_mapped).
  destruct (netlink_call_run ne env (kernel_modules fuel env fresh) sizeof_set_worker_affinity_request k m1
    (λ k', k' = with_sent (ne_pid ne) (RCode 0) (put_worker_state worker_id (bound w cpu_id) k)))
    as (k' & m' & E & Hb' & Hm' & HP); [by eapply buffers_mapped|unfold sizeof_set_worker_affinity_request; lia|done| |].
  2: { exists k', m'. split; [done|]. split; [done|]. split; [by etrans|done]. }
  intros m2 Hcopy Hm2. set (q := NLMSG_DATA (ne_skb_data ne)) in *.
  assert (valid m2 q 24) as Hq.
  { apply Hm2, Hm1. unfold q, NLMSG_DATA, sizeof_nlmsghdr. apply (valid_sub _ _ _ _ _ (bf_skb _ _ Hb)); lia. }
  assert (read 4 (q + rq_ns_id_) m2 = WORKER_MODULE_RUNTIME_ID ∧ read 2 (q + rq_op_) m2 = 1 ∧
          s32 (read 4 (q + 16) m2) = worker_id ∧ s32 (read 4 (q + 20) m2) = cpu_id) as (Hns & Hop & Hid & Hcpu).
  { unfold sizeof_set_worker_affinity_request in Hcopy. autounfold with layout in *.
    rewrite (Hcopy 4%nat 4), (Hcopy 2%nat 12), (Hcopy 4%nat 16), (Hcopy 4%nat 20) by (simpl; lia).
    unfold m1. fold rq. mem_simpl. rewrite !(u32_small (s32_bits _)) by apply s32_bits_range.
    rewrite !s32_of_bits by lia. done. }
  exists m2, (with_sent (ne_pid ne) (RCode 0) (put_worker_state worker_id (bound w cpu_id) k)), 0.
  split; [|split; [done|split; [by apply inbox_sent|done]]].
  rewrite server_loop_worker; [|by rewrite Hns|apply (valid_sub _ _ _ _ _ Hq); unfold rq_ns_id_; lia].
  unfold worker_process_request_fn_netlink.
  assert (load16 (q + rq_op_) m2 = Ret 1 m2) as E1.
  { apply wp_exact, wp_load; [apply (valid_sub _ _ _ _ _ Hq); unfold rq_op_; lia|]. by rewrite Hop. }
  rewrite (lift_run _ _ _ _ _ _ E1). cbn [Z.eqb Pos.eqb]. unfold set_worker_affinity.
  assert (load_s32 (q + 16) m2 = Ret worker_id m2) as E2.
  { apply wp_exact, wp_load_s32; [apply (valid_sub _ _ _ _ _ Hq); lia|]. by rewrite Hid. }
  assert (load_s32 (q + 20) m2 = Ret cpu_id m2) as E3.
  { apply wp_exact, wp_load_s32; [apply (valid_sub _ _ _ _ _ Hq); lia|]. by rewrite Hcpu. }
  erewrite km_bind_run; [apply msg_run|].
  rewrite (lift_run _ _ _ _ _ _ E2), (lift_run _ _ _ _ _ _ E3).
  rewrite (km_bind_run _ _ _ _ w k m2) by (by eapply get_worker_run). by eapply put_worker_run.
Qed.

(** [spawn_workers] with the fields of its request. *)
Definition with_workers (n region_id region : Z) (ws : list labstor_worker_struct) (k : kstate) : kstate :=
  {| k_shmem := k_shmem k; k_ipc_manager_ := k_ipc_manager_ k; k_workers := Some ws;
     k_num_workers := n; k_keep_running := k_keep_running k;
     k_shmem_region_id := region_id; k_shmem_region := region; k_bdevs := k_bdevs k; k_sent := k_sent k |}.

Lemma spawn_workers_run rq n region_id size region k m :
  ke_worker_mem env = true → labstor_find_shmem_region region_id (k_shmem k) = Some (Some region, k_shmem k) →
  load_s32 (rq + 16) m = Ret n m → load_s32 (rq + 20) m = Ret region_id m → load64 (rq + 24) m = Ret size m →
  0 < n < 2 ^ 31 → 0 <= size < 2 ^ 32 → 20 <= size / n →
  valid m region (n * section_size (size / n)) →
  ∃ ws m', spawn_workers env fresh rq k m = Ret (true, with_workers n region_id region ws k) m' ∧
    Z.of_nat (length ws) = n ∧ mapped m m' ∧
    ∀ j, (j < Z.to_nat n)%nat →
      ws !! j = Some (new_worker (region + Z.of_nat j * section_size (size / n)) (Z.of_nat j)).
Proof.
  intros Hmem Hfind E1 E2 E3 Hn Hsz Hq Hv.
  destruct (spawn_loop_run (Z.to_nat n) 0 region (size / n) fresh m) as (ws & m' & E & Hlen & Hws & M).
  { split; [done|]. apply Z.div_lt_upper_bound; nia. }
  { by rewrite Z2Nat.id by lia. }
  exists ws, m'. unfold spawn_workers.
  rewrite (lift_run _ _ _ _ _ _ E1), (lift_run _ _ _ _ _ _ E2), (lift_run _ _ _ _ _ _ E3).
  rewrite (km_bind_run _ _ _ _ k k m) by done. erewrite km_bind_run by reflexivity.
  assert (udiv (u32 size) (u32 n) m = Ret (size / n) m) as Ed.
  { rewrite !u32_small by lia. unfold udiv. rewrite (proj2 (Z.eqb_neq n 0)) by lia. done. }
  rewrite (lift_run _ _ _ _ _ _ Ed), Hmem. cbn [negb].
  erewrite km_bind_run by (unfold k_shmem_op; cbn [k_shmem]; rewrite Hfind; reflexivity). cbn [default from_option id].
  erewrite km_bind_run by reflexivity. erewrite km_bind_run by reflexivity.
  rewrite (lift_run _ _ _ _ _ _ E). erewrite km_bind_run by (unfold set_workers; erewrite km_bind_run; reflexivity).
  split; [reflexivity|]. split; [rewrite Hlen; lia|]. split; [by eapply modifies_mapped|exact Hws].
Qed.

Lemma create_workers_run n region_id size region k m :
  buffers ne m → ke_worker_mem env = true →
  labstor_find_shmem_region region_id (k_shmem k) = Some (Some region, k_shmem k) →
  0 < n < 2 ^ 31 → - 2 ^ 31 <= region_id < 2 ^ 31 → 0 <= size < 2 ^ 32 → 20 <= size / n →
  valid m region (n * section_size (size / n)) →
  ∃ k' m' ws, WorkerClient_CreateWorkers ne env (kernel_modules fuel env fresh) n region_id size 0
        (length (inbox (ne_pid ne) k)) k m = Ret ((region_id, n, length (inbox (ne_pid ne) k')), k') m' ∧
    buffers ne m' ∧ k' = with_sent (ne_pid ne) (RCode 1) (with_workers n region_id region ws k) ∧
    Z.of_nat (length ws) = n ∧
    ∀ j, (j < Z.to_nat n)%nat →
      ws !! j = Some (new_worker (region + Z.of_nat j * section_size (size / n)) (Z.of_nat j)).
Proof.
  intros Hb Hmem Hfind Hn Hid Hsz Hqs Hv. pose proof (bf_rq _ _ Hb) as Hrq. set (rq := ne_rq ne) in *.
  set (m1 := write 8 (rq + 32) 0 (write 8 (rq + 24) size (write 4 (rq + 20) (s32_bits region_id)
    (write 4 (rq + 16) (s32_bits n) (write 2 (rq + rq_op_) 0 (write 4 (rq + rq_ns_id_) WORKER_MODULE_RUNTIME_ID m)))))).
  assert ((_ ← fill_header ne WORKER_MODULE_RUNTIME_ID 0; _ ← store_s32 (rq + 16) n; _ ← store_s32 (rq + 20) region_id;
           _ ← store64 (rq + 24) size; store64 (rq + 32) 0) m = Ret tt m1) as Efill.
  { apply wp_exact. unfold fill_header. fold rq. autounfold with layout. wp_go. done. }
  assert (modifies (span rq 40) m m1) as M1 by (unfold m1; autounfold with layout; msolve).
  unfold WorkerClient_CreateWorkers. fold rq. rewrite (nl_mem_run _ _ _ _ _ _ _ Efill).
  assert (mapped m m1) as Hm1 by (by eapply modifies_mapped).
  destruct (netlink_call_run ne env (kernel_modules fuel env fresh) sizeof_spawn_worker_request k m1
    (λ k', ∃ ws, k' = with_sent (ne_pid ne) (RCode 1) (with_workers n region_id region ws k) ∧
       Z.of_nat (length ws) = n ∧ ∀ j, (j < Z.to_nat n)%nat →
         ws !! j = Some (new_worker (region + Z.of_nat j * section_size (size / n)) (Z.of_nat j))))
    as (k' & m' & E & Hb' & _ & ws & HP); [by eapply buffers_mapped|unfold sizeof_spawn_worker_request; lia|done| |].
  2: { exists k', m', ws. rewrite (nm_run _ _ _ _ _ _ _ _ _ E). done. }
  intros m2 Hcopy Hm2. set (q := NLMSG_DATA (ne_skb_data ne)) in *.
  assert (valid m2 q 40) as Hq.
  { apply Hm2, Hm1. unfold q, NLMSG_DATA, sizeof_nlmsghdr. apply (valid_sub _ _ _ _ _ (bf_skb _ _ Hb)); lia. }
  assert (read 4 (q + rq_ns_id_) m2 = WORKER_MODULE_RUNTIME_ID ∧ read 2 (q + rq_op_) m2 = 0 ∧
          s32 (read 4 (q + 16) m2) = n ∧ s32 (read 4 (q + 20) m2) = region_id ∧ read 8 (q + 24) m2 = size)
    as (Hns & Hop & Hnum & Hreg & Hsize).
  { unfold sizeof_spawn_worker_request in Hcopy. autounfold with layout in *.
    rewrite (Hcopy 4%nat 4), (Hcopy 2%nat 12), (Hcopy 4%nat 16), (Hcopy 4%nat 20), (Hcopy 8%nat 24) by (simpl; lia).
    unfold m1. fold rq. mem_simpl. rewrite !(u32_small (s32_bits _)) by apply s32_bits_range.
    rewrite !s32_of_bits by lia. rewrite ?Z.mod_small by lia. done. }
  assert (load_s32 (q + 16) m2 = Ret n m2) as E1.
  { apply wp_exact, wp_load_s32; [apply (valid_sub _ _ _ _ _ Hq); lia|]. by rewrite Hnum. }
  assert (load_s32 (q + 20) m2 = Ret region_id m2) as E2.
  { apply wp_exact, wp_load_s32; [apply (valid_sub _ _ _ _ _ Hq); lia|]. by rewrite Hreg. }
  assert (load64 (q + 24) m2 = Ret size m2) as E3.
  { apply wp_exact, wp_load; [apply (valid_sub _ _ _ _ _ Hq); lia|]. by rewrite Hsize. }
  destruct (spawn_workers_run q n region_id size region k m2 Hmem Hfind E1 E2 E3 Hn Hsz Hqs) as (ws & m3 & E & Hlen & Hm3 & Hws).
  { by apply Hm2, Hm1. }
  exists m3, (with_sent (ne_pid ne) (RCode 1) (with_workers n region_id region ws k)), 1.
  split; [|split; [done|split; [by apply inbox_sent|by exists ws]]].
  rewrite server_loop_worker; [|by rewrite Hns|apply (valid_sub _ _ _ _ _ Hq); unfold rq_ns_id_; lia].
  unfold worker_process_request_fn_netlink.
  assert (load16 (q + rq_op_) m2 = Ret 0 m2) as E4.
  { apply wp_exact, wp_load; [apply (valid_sub _ _ _ _ _ Hq); unfold rq_op_; lia|]. by rewrite Hop. }
  rewrite (lift_run _ _ _ _ _ _ E4). cbn [Z.eqb]. rewrite (km_bind_run _ _ _ _ _ _ _ E). apply msg_run.
Qed.

(** What the messages of a configuration do to the workers and the clients. *)
Definition rebind (ws : list labstor_worker_struct) (c : Z * Z) : list labstor_worker_struct :=
  alter (λ w, bound w c.2) (Z.to_nat c.1) ws.
Definition client_of (kw : list (option Z)) (c : Z * Z) : list (option Z) := <[Z.to_nat c.1 := Some c.1]> kw.

Definition int (i : Z) : Prop := - 2 ^ 31 <= i < 2 ^ 31.

(** An entry of the configuration names one of [n] workers. *)
Definition conf_ok (n : nat) (c : Z * Z) : Prop := 0 <= c.1 < Z.of_nat n ∧ int c.1 ∧ int c.2.

Lemma conf_ok_perm conf :
  conf.*1 ≡ₚ seqZ 0 (Z.of_nat (length conf)) → Forall int conf.*2 → Z.of_nat (length conf) < 2 ^ 31 →
  Forall (conf_ok (length conf)) conf.
Proof.
  intros Hperm Hcpus Hn. apply Forall_forall. intros [i c] Hin. unfold conf_ok. cbn [fst snd].
  assert (i ∈ seqZ 0 (Z.of_nat (length conf))) as Hi by (rewrite <-Hperm; apply list_elem_of_fmap; by exists (i, c)).
  apply elem_of_seqZ in Hi. rewrite Forall_forall in Hcpus. split_and!; [lia|lia|unfold int; lia|].
  apply Hcpus, list_elem_of_fmap. by exists (i, c).
Qed.

Lemma bind_kernel_workers_run conf kw k m ws :
  buffers ne m → k_workers k = Some ws → length kw = length ws → Forall (conf_ok (length ws)) conf →
  ∃ k' m', bind_kernel_workers ne env (kernel_modules fuel env fresh) conf kw (length (inbox (ne_pid ne) k)) k m =
      Ret ((foldl client_of kw conf, length (inbox (ne_pid ne) k')), k') m' ∧
    k_workers k' = Some (foldl rebind ws conf) ∧ k_num_workers k' = k_num_workers k ∧
    k_ipc_manager_ k' = k_ipc_manager_ k.
Proof.
  revert kw k m ws. induction conf as [|[i c] conf IH]; intros kw k m ws Hb Hws Hkw Hok.
  { exists k, m. done. }
  apply Forall_cons in Hok as [(Hi & Hint & Hc) Hok]. cbn [fst snd] in *.
  destruct (lookup_lt_is_Some_2 ws (Z.to_nat i)) as [w Hw]; [lia|].
  destruct (set_affinity_run i c k m ws w) as (k1 & m1 & E & Hb1 & _ & ->); [done..|lia|done|].
  cbn [bind_kernel_workers]. rewrite (nm_run _ _ _ _ _ _ _ _ _ E).
  replace ((i <? 0) || (Z.of_nat (length kw) <=? i)) with false by (symmetry; apply orb_false_iff; lia).
  set (k1 := with_sent _ _ _) in *.
  assert (k_workers k1 = Some (rebind ws (i, c))) as Hk1.
  { unfold k1, with_sent, put_worker_state, rebind. cbn [k_workers fst snd]. rewrite Hws.
    cbn [fmap option_fmap option_map]. rewrite list_insert_alter. f_equal. apply list_alter_ext; [|done].
    intros x Hx. rewrite Hw in Hx. by simplify_eq. }
  destruct (IH (client_of kw (i, c)) k1 m1 (rebind ws (i, c))) as (k2 & m2 & E2 & H1 & H2 & H3); [done|done|..].
  { unfold client_of, rebind. by rewrite length_insert, length_alter. }
  { unfold rebind. by rewrite length_alter. }
  exists k2, m2. done.
Qed.

Lemma start_kernel_workers_run conf region_id size region k m :
  let n := Z.of_nat (length conf) in
  buffers ne m → ke_worker_mem env = true →
  labstor_find_shmem_region region_id (k_shmem k) = Some (Some region, k_shmem k) →
  conf ≠ [] → n < 2 ^ 31 → int region_id → 0 <= size < 2 ^ 32 → 20 <= size / n →
  valid m region (n * section_size (size / n)) → Forall (conf_ok (length conf)) conf →
  ∃ k' m', start_kernel_workers ne env (kernel_modules fuel env fresh) conf region_id size
        (length (inbox (ne_pid ne) k)) k m =
      Ret ((foldl client_of (replicate (length conf) None) conf, length (inbox (ne_pid ne) k')), k') m' ∧
    ∃ ws, k_workers k' = Some (foldl rebind ws conf) ∧ k_num_workers k' = n ∧
      k_ipc_manager_ k' = k_ipc_manager_ k ∧ length ws = length conf ∧
      ∀ j, (j < length conf)%nat →
        ws !! j = Some (new_worker (region + Z.of_nat j * section_size (size / n)) (Z.of_nat j)).
Proof.
  intros n Hb Hmem Hfind Hne Hn Hid Hsz Hq Hv Hok.
  assert (0 < n) by (unfold n; destruct conf; [done|cbn [length]; lia]).
  destruct (create_workers_run n region_id size region k m) as (k1 & m1 & ws & E & Hb1 & -> & Hlen & Hws); [done..|].
  assert (length ws = length conf) as Hlen' by (unfold n in Hlen; lia).
  set (k1 := with_sent _ _ _) in *.
  destruct (bind_kernel_workers_run conf (replicate (length conf) None) k1 m1 ws) as (k2 & m2 & E2 & H1 & H2 & H3);
    [done|done|by rewrite length_replicate|by rewrite Hlen'|].
  exists k2, m2. unfold start_kernel_workers. fold n. rewrite (nm_run _ _ _ _ _ _ _ _ _ E). split; [done|].
  exists ws. split_and!; [done|done|done|done|]. intros j Hj. apply Hws. unfold n. lia.
Qed.
End orchestrator.

(** ** The workers of a configuration *)

(** The processor of worker [i]: that of its last entry. *)
Definition last_cpu (conf : list (Z * Z)) (i : Z) : option Z :=
  foldl (λ r c, if decide (c.1 = i) then Some c.2 else r) None conf.

Definition placed (w : labstor_worker_struct) (cpu : option Z) : labstor_worker_struct :=
  {| lw_work_queue_ := lw_work_queue_ w; lw_complete_ack_ := lw_complete_ack_ w; lw_worker_id_ := lw_worker_id_ w;
     lw_cpu := cpu |}.

Lemma rebind_lookup conf ws i :
  0 <= i → Forall (λ c, 0 <= c.1) conf →
  foldl rebind ws conf !! Z.to_nat i =
    (λ w, placed w (foldl (λ r c, if decide (c.1 = i) then Some c.2 else r) (lw_cpu w) conf)) <$> ws !! Z.to_nat i.
Proof.
  intros Hi. revert ws. induction conf as [|[j c] conf IH]; intros ws Hok.
  { cbn. destruct (ws !! Z.to_nat i) as [[]|]; done. }
  apply Forall_cons in Hok as [Hj Hok]. cbn [foldl fst snd] in *. rewrite IH by done. unfold rebind. cbn [fst snd].
  destruct (decide (j = i)) as [->|Hne].
  - rewrite list_lookup_alter_eq. by destruct (ws !! Z.to_nat i).
  - rewrite list_lookup_alter_ne by lia. done.
Qed.

Lemma length_rebind conf ws : length (foldl rebind ws conf) = length ws.
Proof. revert ws. induction conf as [|c conf IH]; intros ws; [done|]. cbn [foldl]. rewrite IH. apply length_alter. Qed.

Lemma client_lookup conf kw i :
  0 <= i < Z.of_nat (length kw) → Forall (λ c, 0 <= c.1) conf →
  foldl client_of kw conf !! Z.to_nat i = if decide (i ∈ conf.*1) then Some (Some i) else kw !! Z.to_nat i.
Proof.
  revert kw. induction conf as [|[j c] conf IH]; intros kw Hi Hok.
  { cbn. rewrite decide_False; [done|set_solver]. }
  apply Forall_cons in Hok as [Hj Hok]. cbn [foldl fst snd fmap list_fmap] in *.
  rewrite IH by (unfold client_of; rewrite ?length_insert; done). unfold client_of. cbn [fst snd].
  destruct (decide (i ∈ conf.*1)) as [Hin|Hin]; [by rewrite decide_True by set_solver|].
  destruct (decide (j = i)) as [->|Hne].
  - rewrite list_lookup_insert_eq by lia. by rewrite decide_True by set_solver.
  - rewrite list_lookup_insert_ne by lia. by rewrite decide_False by set_solver.
Qed.

Lemma last_cpu_other (conf : list (Z * Z)) (i : Z) r :
  i ∉ conf.*1 → foldl (λ r c, if decide (c.1 = i) then Some c.2 else r) r conf = r.
Proof.
  revert r. induction conf as [|[j c] conf IH]; intros r Hi; [done|]. cbn [foldl fst snd fmap list_fmap] in *.
  apply not_elem_of_cons in Hi as [Hne Hi]. rewrite decide_False by done. by apply IH.
Qed.

Lemma last_cpu_in conf i c : NoDup conf.*1 → (i, c) ∈ conf → last_cpu conf i = Some c.
Proof.
  unfold last_cpu. generalize (@None Z) as r. induction conf as [|[j d] conf IH]; intros r Hnd Hin; [by apply not_elem_of_nil in Hin|].
  cbn [foldl fst snd fmap list_fmap] in *. apply NoDup_cons in Hnd as [Hj Hnd]. apply elem_of_cons in Hin as [[= -> ->]|Hin].
  - rewrite decide_True by done. by apply last_cpu_other.
  - by apply IH.
Qed.

(** The section of worker [i] of [n] in the region. *)
Definition section_of (region size n i : Z) : Z := region + i * section_size (size / n).

(** A kernel image in which the workers were started can be unloaded, whatever
    else it holds, as soon as each thread has run twice. *)
Definition unloads (fuel : nat) (env : kenv) (fresh : labstor_work_queue) (n : Z) (k : kstate) : Prop :=
  ∀ I sched m, ki_state I = k → ki_returned I = ∅ → length (ki_modules I) = Z.to_nat MAX_LABSTOR_MODULES →
    (∀ i, 0 <= i < n → (2 ≤ count_occ Z.eq_dec sched i)%nat) →
    ∃ I', exit_work_orchestrator_kernel fuel env fresh sched I m = Ret (tt, I') m ∧ k_workers (ki_state I') = None.

Lemma placed_unload fuel env fresh n k ws :
  k_workers k = Some ws → Z.of_nat (length ws) = n → k_num_workers k = n → ipc_manager_IsInitialized k = true →
  (∀ i, 0 <= i < n → ∃ w c, ws !! Z.to_nat i = Some w ∧ lw_cpu w = Some c) → unloads fuel env fresh n k.
Proof.
  intros Hws Hlen Hnum Hipc Hcpu I sched m <- Hret Hmods Hsched.
  destruct (orchestrator_unloads fuel env fresh sched n I m) as (I' & E & Hw & _); [by split; [exists ws|]|done| |by exists I'].
  intros i Hi. split; [|etrans; [|by apply Hsched]; unfold need; repeat case_match; lia].
  right. destruct (Hcpu i Hi) as (w & c & Hw & Hc). split_and!; [exists w, c|by rewrite Hret|by right].
  split; [|done]. unfold worker_at. rewrite Hws. cbn. by rewrite (proj2 (Z.ltb_ge _ _)) by lia.
Qed.

(** C20. The server starts the workers of the kernel: when the configuration
    names each of the [n] workers once, the messages of [CreateWorkers] go
    through the netlink client and the dispatcher and all return; afterwards the
    kernel has [n] workers, each with its own section of the region and its
    number, bound to the processor of its entry and not yet acknowledged, and the
    server holds a client for each of them.  When the IPC manager is connected,
    the module can be unloaded again in every image that holds these workers:
    the wait for their acknowledgements ends as soon as each thread has run
    twice. *)
Theorem kernel_workers_life_cycle ne fuel env fresh conf region_id size region k m :
  let n := Z.of_nat (length conf) in
  ke_skb env = true → ke_worker_mem env = true → buffers ne m →
  labstor_find_shmem_region region_id (k_shmem k) = Some (Some region, k_shmem k) →
  conf.*1 ≡ₚ seqZ 0 n → Forall int conf.*2 → 0 < n < 2 ^ 31 → int region_id → 0 <= size < 2 ^ 32 → 20 <= size / n →
  valid m region (n * section_size (size / n)) →
  ∃ clients k' m' ws,
    start_kernel_workers ne env (kernel_modules fuel env fresh) conf region_id size (length (inbox (ne_pid ne) k)) k m =
      Ret ((clients, length (inbox (ne_pid ne) k')), k') m' ∧
    k_workers k' = Some ws ∧ Z.of_nat (length ws) = n ∧ k_num_workers k' = n ∧
    (∀ i c, (i, c) ∈ conf →
      ws !! Z.to_nat i = Some (placed (new_worker (section_of region size n i) i) (Some c)) ∧
      clients !! Z.to_nat i = Some (Some i)) ∧
    (ipc_manager_IsInitialized k = true → unloads fuel env fresh n k').
Proof.
  intros n Hskb Hmem Hb Hfind Hperm Hcpus Hn Hid Hsz Hq Hv.
  assert (∀ i, i ∈ conf.*1 ↔ 0 <= i < n) as Hids by (intros i; rewrite Hperm, elem_of_seqZ; lia).
  assert (Forall (conf_ok (length conf)) conf) as Hok by (apply conf_ok_perm; [done|done|apply Hn]).
  assert (NoDup conf.*1) as Hnd by (rewrite Hperm; apply NoDup_seqZ).
  destruct (start_kernel_workers_run ne fuel env fresh Hskb conf region_id size region k m)
    as (k' & m' & E & ws & Hws & Hnum & Hipc & Hlen & Hnew); [done|done|done|by destruct conf; [destruct Hn|]|apply Hn|done|done|done|done|done|].
  assert (Forall (λ c, 0 <= c.1) conf) as Hpos by (eapply Forall_impl; [exact Hok|]; intros c Hc; apply Hc).
  assert (∀ i c, (i, c) ∈ conf → 0 <= i < n ∧ foldl rebind ws conf !! Z.to_nat i =
    Some (placed (new_worker (section_of region size n i) i) (Some c))) as Hat.
  { intros i c Hic. assert (0 <= i < n) as Hi by (apply Hids, list_elem_of_fmap; by exists (i, c)). split; [done|].
    rewrite rebind_lookup by (done || lia). rewrite Hnew by (unfold n in Hi; lia). rewrite Z2Nat.id by lia.
    cbn [fmap option_fmap option_map new_worker lw_cpu]. pose proof (last_cpu_in conf i c Hnd Hic) as Hc.
    unfold last_cpu in Hc. rewrite Hc. done. }
  eexists _, k', m', _. split; [exact E|]. split; [exact Hws|]. split; [rewrite length_rebind; unfold n; lia|]. split; [done|]. split.
  - intros i c Hic. destruct (Hat i c Hic) as [Hi Hl]. split; [done|]. unfold n in Hi.
    rewrite client_lookup by (rewrite ?length_replicate; done).
    by rewrite decide_True by (apply Hids; unfold n; lia).
  - intros Hini. eapply placed_unload; [exact Hws|rewrite length_rebind; unfold n; lia|done| |].
    + unfold ipc_manager_IsInitialized. rewrite Hipc. exact Hini.
    + intros i Hi. apply Hids, list_elem_of_fmap in Hi as ([j c] & -> & Hic). cbn [fst]. eexists _, c.
      split; [by apply Hat|done].
Qed.

(** ** The errors before the workers are started *)

Lemma create_without_workers ne env1 env2 env modules chrdev vm_start remap_ok depth n k m :
  create_kernel_workers ne env1 env2 env modules chrdev vm_start remap_ok depth [] n k m =
    Throw WORK_ORCHESTRATOR_HAS_NO_WORKERS m.
Proof. done. Qed.

(** What follows each answer of the kernel and of [mmap]. *)
Lemma create_kernel_workers_run ne env1 env2 env modules chrdev vm_start remap_ok depth conf n0 k0 m0 id n1 k1 m1 :
  let size := u32 (Z.of_nat (length conf) * labstor_work_queue_GetSize_global depth) in
  conf ≠ [] → ShmemClient_CreateShmem ne env1 (modules env1) size true n0 k0 m0 = Ret ((id, n1), k1) m1 →
  (id < 0 → create_kernel_workers ne env1 env2 env modules chrdev vm_start remap_ok depth conf n0 k0 m0 =
              Throw WORK_ORCHESTRATOR_WORK_QUEUE_ALLOC_FAILED m1) ∧
  ∀ code n2 k2 m2 region n3 k3 m3,
    0 <= id → ShmemClient_GrantPidShmem ne env2 (modules env2) (ne_pid ne) id n1 k1 m1 = Ret ((code, n2), k2) m2 →
    ShmemClient_MapShmem ne env chrdev vm_start remap_ok id size n2 k2 m2 = Ret ((region, n3), k3) m3 →
    create_kernel_workers ne env1 env2 env modules chrdev vm_start remap_ok depth conf n0 k0 m0 =
      if decide (region = NULL) then Throw WORK_ORCHESTRATOR_WORK_QUEUE_MMAP_FAILED m3
      else start_kernel_workers ne env (modules env) conf id size n3 k3 m3.
Proof.
  intros size Hne E1. unfold create_kernel_workers. fold size. rewrite decide_False, (nm_run _ _ _ _ _ _ _ _ _ E1) by done.
  split; [intros Hid; by rewrite (proj2 (Z.ltb_lt _ _)) by lia|].
  intros code n2 k2 m2 region n3 k3 m3 Hid E2 E3. rewrite (proj2 (Z.ltb_ge _ _)) by lia.
  rewrite (nm_run _ _ _ _ _ _ _ _ _ E2), (nm_run _ _ _ _ _ _ _ _ _ E3).
  destruct (decide (region = NULL)) as [->|Hr]; [done|]. by rewrite (proj2 (Z.eqb_neq _ _)).
Qed.

(** ** Example: two workers *)

Definition ex_start_conf : list (Z * Z) := [(1, 3); (0, 2)].
Definition ex_start_mem : mem := zero_region 4096 (Z.to_nat 8192).
Definition ex_start_kernel : kstate :=
  {| k_shmem := match reserve_shmem 4096 (Some 10) (Some 10240) 40 true shmem_init with Some (_, s) => s | None => shmem_init end;
     k_ipc_manager_ := {| im_region_id := 0; im_region := 4096; im_alloc := ex_allocator |};
     k_workers := None; k_num_workers := 0; k_keep_running := true; k_shmem_region_id := 0; k_shmem_region := NULL;
     k_bdevs := replicate 64 None; k_sent := [] |}.

Lemma ex_start_valid p n : 4096 <= p → p + n <= 12288 → valid ex_start_mem p n.
Proof. intros. pose proof (valid_zero_region 4096 (Z.to_nat 8192)) as Hv. apply (valid_sub _ _ _ _ _ Hv); lia. Qed.

Lemma ex_start_buffers : buffers ex_netlink ex_start_mem.
Proof. split; [done|cbn; lia|apply ex_start_valid; cbn; lia..|unfold span; cbn; lia]. Qed.

Lemma kernel_workers_life_cycle_witness :
  ∃ clients k' m' ws,
    start_kernel_workers ex_netlink (ex_kernel 10) (kernel_modules 1 (ex_kernel 10) (labstor_work_queue_Attach 0))
      ex_start_conf 1 40 0%nat ex_start_kernel ex_start_mem = Ret ((clients, length (inbox 77 k')), k') m' ∧
    k_workers k' = Some ws ∧ ws !! 1%nat = Some (placed (new_worker (section_of 10240 40 2 1) 1) (Some 3)) ∧
    clients !! 1%nat = Some (Some 1) ∧ unloads 1 (ex_kernel 10) (labstor_work_queue_Attach 0) 2 k'.
Proof.
  destruct (kernel_workers_life_cycle ex_netlink 1 (ex_kernel 10) (labstor_work_queue_Attach 0) ex_start_conf 1 40 10240
    ex_start_kernel ex_start_mem) as (clients & k' & m' & ws & E & Hws & _ & _ & Hat & Hun).
  - done.
  - done.
  - exact ex_start_buffers.
  - vm_compute. reflexivity.
  - apply Permutation_swap.
  - repeat constructor; by vm_compute.
  - cbn. lia.
  - unfold int. lia.
  - lia.
  - by vm_compute.
  - apply ex_start_valid; [done|by vm_compute].
  - exists clients, k', m', ws. split; [exact E|]. split; [exact Hws|].
    destruct (Hat 1 3 (list_elem_of_here _ _)) as [H1 H2].
    split; [exact H1|]. split; [exact H2|]. apply Hun. reflexivity.
Defined.
