(* ===== verification/Spdk.v ===== *)
(** * Spdk.v: the queue pair over an NVMe device

    src/labmods/spdk/spdk.h: the queue pair that submits to the SPDK library and
    finds its completions by polling it, and the context that finds the devices;
    [AIO] of spdk_client.cpp.  The library is not part of the repository: the
    class [Nvme] has the calls that are made of it, [NvmeLaws] what its
    documentation promises of commands and callbacks.

    A request gets its token from a private queue pair in memory (QueuePair.v),
    is taken out of it again and given to the device; the callback of the device
    completes it in that queue pair, where the waiter finds it. *)

From S2P Require Import Prelude Memory RingBuffer RequestQueue QueuePair Allocators Kernel IpcManager Binary64 Timer QueuePairClass.

Local Open Scope Z_scope.

(** ** Requests *)

Inductive Ops := kWrite | kRead.

(** [static_cast<Ops>(op)], for the cases of the switch. *)
Definition Ops_of (op : Z) : option Ops := if op =? 0 then Some kWrite else if op =? 1 then Some kRead else None.
Definition op_number (op : Ops) : Z := match op with kWrite => 0 | kRead => 1 end.

(** [struct io_request], behind the [bool] of [struct async_request]. *)
Definition srq_is_complete_ : Z := 16.
Definition srq_buf_ : Z := 24.
Definition srq_buf_size_bytes_ : Z := 32.
Definition srq_sector_ : Z := 40.
Definition srq_priv_qp_ : Z := 48.
Definition sizeof_io_request : Z := 56.

#[export] Hint Unfold srq_is_complete_ srq_buf_ srq_buf_size_bytes_ srq_sector_ srq_priv_qp_ sizeof_io_request : layout.

Definition io_request_Init (rq : Z) (io_type : Ops) (buf buf_size_bytes sector : Z) : M unit :=
  _ ← store16 (rq + rq_op_) (op_number io_type);
  _ ← store64 (rq + srq_buf_) buf;
  _ ← store64 (rq + srq_buf_size_bytes_) buf_size_bytes;
  store64 (rq + srq_sector_) sector.

(** ** The library *)

(** The arguments of [spdk_nvme_ns_cmd_write] and [spdk_nvme_ns_cmd_read]; the
    callback gets [nc_arg]. *)
Record nvme_command := { nc_op : Ops; nc_buf : Z; nc_lba : Z; nc_lba_count : Z; nc_arg : Z }.

(** [D] is the state of a device with its queue: the result of a submission; the
    result of [spdk_nvme_qpair_process_completions] and the callbacks it makes,
    with their argument and whether the completion is an error. *)
Class Nvme (D : Type) := {
  nvme_submit : nvme_command → D → Z * D;
  nvme_process_completions : D → (Z * list (Z * bool)) * D
}.

Class NvmeLaws (D : Type) `{Nvme D} := {
  nvme_flight : D → gset Z;           (* commands accepted and not called back *)
  nvme_submit_ok c d d' : nvme_submit c d = (0, d') → nvme_flight d' = {[nc_arg c]} ∪ nvme_flight d;
  nvme_submit_fails c d r d' : nvme_submit c d = (r, d') → r ≠ 0 → nvme_flight d' = nvme_flight d;
  nvme_called_back d r l d' :
    nvme_process_completions d = ((r, l), d') →
    NoDup l.*1 ∧ (∀ a, a ∈ l.*1 → a ∈ nvme_flight d) ∧ nvme_flight d' = nvme_flight d ∖ list_to_set l.*1
}.

(** ** The queue pair *)

Record SPDK_queue_pair := {
  spq_qid_ : labstor_qid_t;
  spq_priv_qp_ : Z;
  spq_sector_size_ : Z           (* of [dev_] *)
}.

Definition SpM (D A : Type) : Type := D → M (A * D).

Section queue_pair.
Context {D : Type} `{Nvme D}.

(** The queue pairs in the memory of the process. *)
Context (heap : gmap Z labstor_queue_pair) (fuel : nat).

Definition deref_qp (p : Z) : M labstor_queue_pair := match heap !! p with Some qp => mret qp | None => fault end.

(** The status of the completion is not looked at. *)
Definition _IOComplete (arg : Z) (completion_is_error : bool) : M unit :=
  _ ← store32 (arg + rq_code_) (u32 LABSTOR_REQUEST_SUCCESS);
  p ← load64 (arg + srq_priv_qp_);
  qp ← deref_qp p;
  queue_pair_Complete_rq fuel qp arg.

Fixpoint io_callbacks (l : list (Z * bool)) : M unit :=
  match l with
  | [] => mret tt
  | (arg, err) :: l' => _ ← _IOComplete arg err; io_callbacks l'
  end.

Definition _PollCompletions : SpM D bool := λ d,
  let '((ret, l), d') := nvme_process_completions d in
  _ ← io_callbacks l;
  mret (negb (ret <? 0), d').

(** The token, and what the function returns. *)
Definition SPDK_Enqueue (q : SPDK_queue_pair) (rq : Z) : SpM D (labstor_qtok_t * bool) := λ d,
  qp ← deref_qp (spq_priv_qp_ q);
  tok ← labstor_queue_pair_Enqueue fuel qp rq;
  out ← queue_pair_Dequeue qp;
  let rq := default rq out in
  let qtok := {| qtok_qid_ := spq_qid_ q; qtok_req_id_ := qtok_req_id_ tok |} in
  _ ← store64 (rq + srq_priv_qp_) (spq_priv_qp_ q);
  op ← load16 (rq + rq_op_);
  match Ops_of op with
  | Some io =>
      buf ← load64 (rq + srq_buf_);
      sector ← load64 (rq + srq_sector_);
      size ← load64 (rq + srq_buf_size_bytes_);
      count ← udiv size (u64 (spq_sector_size_ q));
      let (ret, d') := nvme_submit {| nc_op := io; nc_buf := buf; nc_lba := sector; nc_lba_count := u32 count; nc_arg := rq |} d in
      mret ((qtok, ret =? 0), d')
  | None => mret ((qtok, false), d)
  end.

Definition SPDK_IsComplete (q : SPDK_queue_pair) (req_id : Z) : SpM D (option Z) := λ d,
  '(_, d') ← _PollCompletions d;
  qp ← deref_qp (spq_priv_qp_ q);
  r ← queue_pair_IsComplete qp req_id;
  mret (r, d').

(** [_Wait] of the base class over this [_IsComplete]. *)
Fixpoint SPDK_Wait (polls : nat) (q : SPDK_queue_pair) (req_id : Z) : SpM D Z := λ d,
  match polls with
  | O => λ m, Spin m
  | S polls' =>
      '(r, d') ← SPDK_IsComplete q req_id d;
      match r with Some rq => mret (rq, d') | None => SPDK_Wait polls' q req_id d' end
  end.

(** [Client::AIO] on the queue that [GetQueuePair] chose; the result of the
    enqueue is not looked at. *)
Definition AIO (mm : MemoryManager) (tid : Z) (q : SPDK_queue_pair) (op : Ops) (user_buf buf_size sector : Z)
    : SpM D labstor_qtok_t := λ d,
  rq ← MemoryManager_AllocRequest mm tid (qid_flags_ (spq_qid_ q)) sizeof_io_request;
  _ ← io_request_Init rq op user_buf buf_size sector;
  '(r, d') ← SPDK_Enqueue q rq d;
  mret (r.1, d').
End queue_pair.

(** ** Devices *)

(** The options of a controller and the queries of the library; handles of the
    library are numbers. *)
Record ctrlr_opts := { co_num_io_queues : Z; co_io_queue_requests : Z; co_admin_queue_size : Z }.

Record spdk_lib := {
  sl_sector_size : Z → Z;                          (* of a namespace *)
  sl_max_io_xfer_size : Z → Z;
  sl_first_active_ns : Z → Z;                      (* of a controller; 0 for none *)
  sl_next_active_ns : Z → Z → Z;
  sl_get_ns : Z → Z → option Z
}.

(** The limits stay unset without options. *)
Record Device := {
  dv_ctrlr_ : Z; dv_nvme_ns_ : Z; dv_traddr : list Z; dv_ns_id_ : Z;
  dv_max_qps_ : option Z; dv_max_io_rqs_ : option Z; dv_max_admin_rqs_ : option Z;
  dv_sector_size_ : Z; dv_max_transfer_size_bytes_ : Z
}.

Section context.
Context (lib : spdk_lib).

Definition Device_new (ctrlr nvme_ns : Z) (traddr : list Z) (nsid : Z) (opts : option ctrlr_opts) : Device :=
  {| dv_ctrlr_ := ctrlr; dv_nvme_ns_ := nvme_ns; dv_traddr := traddr; dv_ns_id_ := nsid;
     dv_max_qps_ := s32 ∘ co_num_io_queues <$> opts; dv_max_io_rqs_ := s32 ∘ co_io_queue_requests <$> opts;
     dv_max_admin_rqs_ := s32 ∘ co_admin_queue_size <$> opts;
     dv_sector_size_ := s32 (sl_sector_size lib nvme_ns);
     dv_max_transfer_size_bytes_ := s32 (sl_max_io_xfer_size lib nvme_ns) |}.

(** [class Context]; [dev_] is not initialised. *)
Record Context_ := { cx_dev_ : option Device; cx_devs_ : list Device; cx_init_ : bool }.

Definition Context_new : Context_ := {| cx_dev_ := None; cx_devs_ := []; cx_init_ := false |}.

(** A function that may end the process. *)
Inductive or_exit (A : Type) := Goes (a : A) | Exits (status : Z).
Arguments Goes {A}.
Arguments Exits {A}.

Definition Context_Init (env_init : Z) (cx : Context_) : or_exit Context_ :=
  if env_init <? 0 then Exits 1 else Goes cx.

Definition _AddDevice (dev : Device) (cx : Context_) : Context_ :=
  {| cx_dev_ := cx_dev_ cx; cx_devs_ := cx_devs_ cx ++ [dev]; cx_init_ := cx_init_ cx |}.

Definition probe_cb : bool := true.

(** The loop over the namespaces of a controller. *)
Fixpoint attach_loop (fuel : nat) (traddr : list Z) (ctrlr : Z) (opts : option ctrlr_opts) (nsid : Z) (cx : Context_)
    : option Context_ :=
  if nsid =? 0 then Some cx
  else match fuel with
       | O => None
       | S fuel' =>
           let cx := match sl_get_ns lib ctrlr nsid with
                     | None => cx
                     | Some ns => _AddDevice (Device_new ctrlr ns traddr nsid opts) cx
                     end in
           attach_loop fuel' traddr ctrlr opts (sl_next_active_ns lib ctrlr nsid) cx
       end.

Definition attach_cb (fuel : nat) (traddr : list Z) (ctrlr : Z) (opts : option ctrlr_opts) (cx : Context_) : option Context_ :=
  attach_loop fuel traddr ctrlr opts (sl_first_active_ns lib ctrlr) cx.

(** The callbacks that [spdk_nvme_probe] makes for the controllers it finds, and
    its result. *)
Fixpoint attach_all (fuel : nat) (found : list (list Z * Z * option ctrlr_opts)) (cx : Context_) : option Context_ :=
  match found with
  | [] => Some cx
  | (traddr, ctrlr, opts) :: found' => cx ← attach_cb fuel traddr ctrlr opts cx; attach_all fuel found' cx
  end.

Definition Probe (fuel : nat) (found : list (list Z * Z * option ctrlr_opts)) (ret : Z) (cx : Context_)
    : option (or_exit Context_) :=
  cx ← attach_all fuel found cx;
  Some (if ret =? 0 then Goes cx else Exits 1).

Fixpoint select_device (traddr : list Z) (ns_id : Z) (devs : list Device) : option Device :=
  match devs with
  | [] => None
  | dev :: devs' =>
      if negb (dv_ns_id_ dev =? ns_id) then select_device traddr ns_id devs'
      else if bool_decide (traddr = dv_traddr dev) then Some dev else select_device traddr ns_id devs'
  end.

Definition SelectDevice (traddr : list Z) (ns_id : Z) (cx : Context_) : bool * Context_ :=
  match select_device traddr ns_id (cx_devs_ cx) with
  | Some dev => (true, {| cx_dev_ := Some dev; cx_devs_ := cx_devs_ cx; cx_init_ := cx_init_ cx |})
  | None => (false, cx)
  end.

(** [None] where an unset field is read. *)
Definition Context_GetNumQueuePairs (cx : Context_) : option Z := cx_dev_ cx ≫= dv_max_qps_.
Definition Context_GetMaxQueueDepth (cx : Context_) : option Z := cx_dev_ cx ≫= dv_max_io_rqs_.

Definition Context_Alloc (spdk_malloc : Z → option Z) (size : Z) : Z :=
  match spdk_malloc size with None => NULL | Some buf => buf end.
End context.
Arguments Goes {A}.
Arguments Exits {A}.

(** ** Making a queue pair *)

Definition SPDK_CANT_CREATE_QP : Z := 513.
Definition SPDK_CANT_RESET_ZONE : Z := 513.

Inductive made (A : Type) := Made (a : A) | Throws (code : Z) | Quits (status : Z) | Waits.
Arguments Made {A}.
Arguments Throws {A}.
Arguments Quits {A}.
Arguments Waits {A}.

(** [while (!zone_complete_)]: at each poll the callback [reset_zone_complete] is
    made, with an error or not, or is not made yet. *)
Fixpoint wait_zone {A} (polls : list (option bool)) (q : A) : made A :=
  match polls with
  | [] => Waits
  | None :: polls' => wait_zone polls' q
  | Some err :: _ => if err : bool then Quits 1 else Made q
  end.

(** The private queue pair of [Client::Register]: both queues get the size of
    a submission queue of the device's depth and no depth of their own, so each
    is as deep as its region allows. *)
Definition new_priv_qp (qp0 : labstor_queue_pair) (qid : labstor_qid_t) (base_region max_queue_depth sq_region cq_region : Z)
    : M labstor_queue_pair :=
  let queue_size := s32 (labstor_request_queue_GetSize_global (u32 max_queue_depth)) in
  labstor_queue_pair_Init Userspace qp0 qid base_region 0 sq_region (u32 queue_size) cq_region (u32 queue_size).

Definition SPDK_queue_pair_new (priv_qp : Z) (qid : labstor_qid_t) (dev : Device)
    (io_qpair zns : bool) (reset_zone : Z) (polls : list (option bool)) : made SPDK_queue_pair :=
  let q := {| spq_qid_ := qid; spq_priv_qp_ := priv_qp; spq_sector_size_ := dv_sector_size_ dev |} in
  if negb io_qpair then Throws SPDK_CANT_CREATE_QP
  else if zns then
    if negb (reset_zone =? 0) then Throws SPDK_CANT_RESET_ZONE else wait_zone polls q
  else Made q.

(** ** Finding the devices *)

(** The active namespaces of a controller, from [nsid] on. *)
Fixpoint active_from (lib : spdk_lib) (ctrlr nsid : Z) (ids : list Z) : Prop :=
  match ids with
  | [] => nsid = 0
  | i :: ids' => nsid = i ∧ i ≠ 0 ∧ active_from lib ctrlr (sl_next_active_ns lib ctrlr i) ids'
  end.

Definition devices_of (lib : spdk_lib) (traddr : list Z) (ctrlr : Z) (opts : option ctrlr_opts) (ids : list Z) : list Device :=
  omap (λ i, (λ ns, Device_new lib ctrlr ns traddr i opts) <$> sl_get_ns lib ctrlr i) ids.

(** A controller adds its active namespaces in order, one fuel for each. *)
Lemma attach_loop_devices lib fuel traddr ctrlr opts nsid ids cx :
  active_from lib ctrlr nsid ids → (length ids ≤ fuel)%nat →
  attach_loop lib fuel traddr ctrlr opts nsid cx =
  Some {| cx_dev_ := cx_dev_ cx; cx_devs_ := cx_devs_ cx ++ devices_of lib traddr ctrlr opts ids; cx_init_ := cx_init_ cx |}.
Proof.
  revert fuel nsid cx. induction ids as [|i ids IH]; intros fuel nsid cx Hact Hlen; cbn [active_from] in Hact.
  - subst nsid. destruct fuel, cx; cbn; by rewrite app_nil_r.
  - destruct Hact as (-> & Hi & Hact). destruct fuel as [|fuel]; cbn [length] in Hlen; [lia|].
    cbn [attach_loop]. rewrite (proj2 (Z.eqb_neq i 0) Hi), (IH fuel); [|done|lia].
    unfold devices_of. cbn [omap list_omap]. destruct (sl_get_ns lib ctrlr i) as [ns|]; cbn [fmap option_fmap option_map]; [|done].
    cbn [_AddDevice cx_dev_ cx_devs_ cx_init_]. by rewrite <-app_assoc.
Qed.

Lemma probe_devices lib fuel found (ids : Z → list Z) cx :
  (∀ t c o, (t, c, o) ∈ found → active_from lib c (sl_first_active_ns lib c) (ids c) ∧ (length (ids c) ≤ fuel)%nat) →
  Probe lib fuel found 0 cx =
  Some (Goes {| cx_dev_ := cx_dev_ cx;
                cx_devs_ := cx_devs_ cx ++ (found ≫= λ '(t, c, o), devices_of lib t c o (ids c)); cx_init_ := cx_init_ cx |}).
Proof.
  unfold Probe. revert cx. induction found as [|[[t c] o] found IH]; intros cx Hf.
  - destruct cx. cbn. by rewrite app_nil_r.
  - destruct (Hf t c o) as [Hact Hlen]; [by left|]. cbn [attach_all]. unfold attach_cb.
    rewrite (attach_loop_devices lib fuel t c o _ _ cx Hact Hlen). cbn [mbind option_bind].
    rewrite IH by (intros t' c' o' Hin; apply (Hf t' c' o'); by right). cbn. by rewrite <-app_assoc.
Qed.

(** The first device with the address and the namespace, or none; then the
    limits are read from a device that was never set. *)
Lemma select_device_first traddr ns_id cx dev :
  SelectDevice traddr ns_id cx = (true, {| cx_dev_ := Some dev; cx_devs_ := cx_devs_ cx; cx_init_ := cx_init_ cx |}) ↔
  ∃ l1 l2, cx_devs_ cx = l1 ++ dev :: l2 ∧ dv_ns_id_ dev = ns_id ∧ dv_traddr dev = traddr ∧
    Forall (λ d, ¬ (dv_ns_id_ d = ns_id ∧ dv_traddr d = traddr)) l1.
Proof.
  assert (∀ devs, select_device traddr ns_id devs = Some dev ↔
    ∃ l1 l2, devs = l1 ++ dev :: l2 ∧ dv_ns_id_ dev = ns_id ∧ dv_traddr dev = traddr ∧
      Forall (λ d, ¬ (dv_ns_id_ d = ns_id ∧ dv_traddr d = traddr)) l1) as Hsel.
  { induction devs as [|d devs IH]; cbn [select_device].
    - split; [done|]. by intros ([|] & ? & ? & _).
    - destruct (Z.eqb_spec (dv_ns_id_ d) ns_id) as [Hid|Hid]; cbn [negb].
      + case_bool_decide as Ht.
        * split.
          -- intros [= <-]. by exists [], devs.
          -- intros ([|d' l1] & l2 & [= -> ->] & _ & _ & Hl1); [done|]. apply Forall_cons in Hl1 as [Hn _]. by destruct Hn.
        * rewrite IH. split; [intros (l1 & l2 & -> & Hi & Htr & Hl); exists (d :: l1), l2|intros ([|d' l1] & l2 & [= -> ->] & Hi & Htr & Hl)].
          -- split_and!; try done. constructor; [|done]. intros [_ ?]. by apply Ht.
          -- by destruct Ht.
          -- apply Forall_cons in Hl as [_ Hl]. by exists l1, l2.
      + rewrite IH. split; [intros (l1 & l2 & -> & Hi & Htr & Hl); exists (d :: l1), l2|intros ([|d' l1] & l2 & [= -> ->] & Hi & Htr & Hl)].
        * split_and!; try done. constructor; [|done]. by intros [? _].
        * done.
        * apply Forall_cons in Hl as [_ Hl]. by exists l1, l2. }
  rewrite <-Hsel. unfold SelectDevice. destruct (select_device traddr ns_id (cx_devs_ cx)) as [d|]; split; intros E; by simplify_eq.
Qed.

Lemma no_device_limits_unset traddr ns_id cx cx' :
  cx_dev_ cx = None → SelectDevice traddr ns_id cx = (false, cx') → Context_GetNumQueuePairs cx' = None.
Proof.
  intros Hn E. unfold SelectDevice in E. destruct (select_device _ _ _); [done|]. injection E as <-.
  unfold Context_GetNumQueuePairs. by rewrite Hn.
Qed.

(** ** What the queue pair promises *)

(** The fields of a request that the client sets. *)
Record io_args := { ia_op : Z; ia_buf : Z; ia_size : Z; ia_sector : Z }.

Definition io_args_ok (a : io_args) : Prop :=
  0 <= ia_op a < 2 ^ 16 ∧ 0 <= ia_buf a < 2 ^ 64 ∧ 0 <= ia_size a < 2 ^ 64 ∧ 0 <= ia_sector a < 2 ^ 64.

(** The requests at the device with their ids, and those it has called back, by
    id. *)
Record spdk_abs := { pa_next : Z; pa_flight : gmap Z Z; pa_done : gmap Z Z }.

Inductive spdk_op := SEnqueue (rq : Z) | SIsComplete (id : Z).
Inductive spdk_res := RToken (id : Z) (ok : bool) | RGot (rq : option (Z * Z)).       (* with its code *)

Section spec.
Context {D : Type} `{Nvme D}.
Context (n : Z) (objs : gset Z) (args : Z → io_args) (sector_size : Z).

Definition command_of (rq : Z) : option nvme_command :=
  (λ io, {| nc_op := io; nc_buf := ia_buf (args rq); nc_lba := ia_sector (args rq);
            nc_lba_count := u32 (ia_size (args rq) / sector_size); nc_arg := rq |}) <$> Ops_of (ia_op (args rq)).

(** No request at the device or waiting to be collected has the bucket, among
    the [n] of the completion map, of the next id. *)
Definition bucket_free (st : spdk_abs) : Prop :=
  map_Forall (λ _ id, id_bucket n id ≠ id_bucket n (pa_next st)) (pa_flight st) ∧
  map_Forall (λ id _, id_bucket n id ≠ id_bucket n (pa_next st)) (pa_done st).

(** A request that is neither at the device nor waiting to be collected, when
    the bucket of its id is free.  The code checks neither; without the second
    a poll can return the request of another token
    ([poll_returns_other_request]). *)
Definition may_enqueue (st : spdk_abs) (rq : Z) : Prop :=
  rq ∈ objs ∧ pa_flight st !! rq = None ∧ map_Forall (λ _ r, r ≠ rq) (pa_done st) ∧ bucket_free st.

Definition submitted (st : spdk_abs) (rq : Z) : spdk_abs :=
  {| pa_next := pa_next st + 1; pa_flight := <[rq := pa_next st]> (pa_flight st); pa_done := pa_done st |}.
Definition refused (st : spdk_abs) : spdk_abs :=
  {| pa_next := pa_next st + 1; pa_flight := pa_flight st; pa_done := pa_done st |}.
Definition called_back (st : spdk_abs) (rq : Z) : spdk_abs :=
  match pa_flight st !! rq with
  | Some id => {| pa_next := pa_next st; pa_flight := delete rq (pa_flight st); pa_done := <[id := rq]> (pa_done st) |}
  | None => st
  end.
Definition collected (st : spdk_abs) (id : Z) : spdk_abs :=
  {| pa_next := pa_next st; pa_flight := pa_flight st; pa_done := delete id (pa_done st) |}.

(** A token that was handed out and whose request was accepted and not yet
    collected. *)
Definition pending (st : spdk_abs) (id : Z) : Prop := id ∈ (map_img (pa_flight st) : gset Z) ∪ dom (pa_done st).

#[export] Instance may_enqueue_dec st rq : Decision (may_enqueue st rq).
Proof. unfold may_enqueue, bucket_free. apply _. Defined.
#[export] Instance pending_dec st id : Decision (pending st id).
Proof. unfold pending. apply _. Defined.

Definition spdk_spec_step (st : spdk_abs) (d : D) (op : spdk_op) : option (spdk_abs * D * spdk_res) :=
  match op with
  | SEnqueue rq =>
      if decide (may_enqueue st rq) then
        match command_of rq with
        | None => Some (refused st, d, RToken (u32 (pa_next st)) false)
        | Some c =>
            let (ret, d') := nvme_submit c d in
            Some (if ret =? 0 then submitted st rq else refused st, d', RToken (u32 (pa_next st)) (ret =? 0))
        end
      else None
  | SIsComplete id =>
      let '((_, l), d') := nvme_process_completions d in
      let st' := foldl called_back st l.*1 in
      if decide (pending st id) then Some (collected st' id, d', RGot ((λ rq, (rq, LABSTOR_REQUEST_SUCCESS)) <$> pa_done st' !! id)) else None
  end.

Fixpoint spdk_spec_run (st : spdk_abs) (d : D) (ops : list spdk_op) : option (list spdk_res) :=
  match ops with
  | [] => Some []
  | op :: ops' => '(st', d', r) ← spdk_spec_step st d op; rs ← spdk_spec_run st' d' ops'; Some (r :: rs)
  end.
End spec.

(** The same calls of the code; the client reads the code of a request that it
    gets. *)
Definition spdk_step {D} `{Nvme D} (heap : gmap Z labstor_queue_pair) (fuel : nat) (q : SPDK_queue_pair) (op : spdk_op)
    : SpM D spdk_res := λ d,
  match op with
  | SEnqueue rq => '(r, d') ← SPDK_Enqueue heap fuel q rq d; mret (RToken (qtok_req_id_ r.1) r.2, d')
  | SIsComplete id =>
      '(r, d') ← SPDK_IsComplete heap fuel q (u32 id) d;
      match r with
      | None => mret (RGot None, d')
      | Some rq => code ← load32 (rq + rq_code_); mret (RGot (Some (rq, code)), d')
      end
  end.

Fixpoint spdk_run {D} `{Nvme D} (heap : gmap Z labstor_queue_pair) (fuel : nat) (q : SPDK_queue_pair) (ops : list spdk_op)
    : SpM D (list spdk_res) := λ d,
  match ops with
  | [] => mret ([], d)
  | op :: ops' =>
      '(r, d') ← spdk_step heap fuel q op d;
      '(rs, d'') ← spdk_run heap fuel q ops' d';
      mret (r :: rs, d'')
  end.

(** ** The proof *)

Section refinement.
Context {D : Type} `{NvmeLaws D}.
Context (heap : gmap Z labstor_queue_pair) (fuel : nat) (q : SPDK_queue_pair) (qp : labstor_queue_pair) (qid : labstor_qid_t)
  (cap n : Z) (objs : gset Z) (args : Z → io_args).

(** The requests are whole, apart from each other and from the queues. *)
Record spdk_layout : Prop := {
  sl_heap : heap !! spq_priv_qp_ q = Some qp;
  sl_ptr : 0 <= spq_priv_qp_ q < 2 ^ 64;
  sl_handle : lrq_queue_ (qp_sq_ qp) = labstor_request_ring_buffer_Attach (lrq_header_ (qp_sq_ qp) + sizeof_lrq_header);
  sl_base : rm_base_region_ (qp_cq_ qp) = lrq_base_region_ (qp_sq_ qp);
  sl_queues : outside (lrq_header_ (qp_sq_ qp)) (24 + 4 * cap) (rm_header_ (qp_cq_ qp)) (4 + 4 * n);
  sl_near : ∀ rq, rq ∈ objs → near (lrq_base_region_ (qp_sq_ qp)) rq;
  sl_fuel : (0 < fuel)%nat;
  sl_sector : 0 < spq_sector_size_ q < 2 ^ 31;
  sl_args : ∀ rq, rq ∈ objs → io_args_ok (args rq);
  sl_apart : ∀ rq, rq ∈ objs → ∀ a, rq <= a < rq + 56 → ¬ sq_bytes qp cap a ∧ ¬ cq_bytes qp n a;
  sl_disjoint : ∀ r1 r2, r1 ∈ objs → r2 ∈ objs → r1 ≠ r2 → outside r1 56 r2 56
}.
Hypothesis Hlay : spdk_layout.

(** The private queue pair: its submission queue is empty between the calls, its
    completion map has the requests that were called back, each in the bucket of
    its id, and the ids in use have different buckets. *)
Record priv_rel (st : spdk_abs) (m : mem) : Prop := {
  pq_sq : lrq_rep (qp_sq_ qp) qid cap (u32 (pa_next st)) [] m;
  pq_cq : ∃ B, rm_rep (qp_cq_ qp) n B m ∧ buckets_of n (pa_done st) B;
  pq_valid : ∀ rq, rq ∈ objs → valid m rq 4;
  pq_ids : ∀ rq id, pa_flight st !! rq = Some id → rq ∈ objs ∧ read 4 rq m = u32 id;
  pq_out : ∀ id, pending st id → id < pa_next st;
  pq_apart : ∀ i j, pending st i → pending st j → id_bucket n i = id_bucket n j → i = j
}.

(** The request as the client filled it in. *)
Record io_rep (rq : Z) (m : mem) : Prop := {
  ir_valid : valid m rq 56;
  ir_op : read 2 (rq + rq_op_) m = ia_op (args rq);
  ir_buf : read 8 (rq + srq_buf_) m = ia_buf (args rq);
  ir_size : read 8 (rq + srq_buf_size_bytes_) m = ia_size (args rq);
  ir_sector : read 8 (rq + srq_sector_) m = ia_sector (args rq)
}.

Record io_state (st : spdk_abs) (m : mem) : Prop := {
  is_rep : ∀ rq, rq ∈ objs → io_rep rq m;
  is_flight : ∀ rq id, pa_flight st !! rq = Some id →
    rq ∈ objs ∧ pa_done st !! id = None ∧ read 8 (rq + srq_priv_qp_) m = spq_priv_qp_ q;
  is_inj : ∀ r1 r2 id, pa_flight st !! r1 = Some id → pa_flight st !! r2 = Some id → r1 = r2;
  is_done : ∀ id rq, pa_done st !! id = Some rq → rq ∈ objs ∧ read 4 (rq + rq_code_) m = LABSTOR_REQUEST_SUCCESS
}.

Record spdk_rel (st : spdk_abs) (d : D) (m : mem) : Prop := {
  pr_qp : priv_rel st m;
  pr_io : io_state st m;
  pr_dev : nvme_flight d = dom (pa_flight st)
}.

(** The bytes that the private queue pair changes: its own, and the ids. *)
Definition queue_bytes (a : Z) : Prop :=
  sq_bytes qp cap a ∨ cq_bytes qp n a ∨ ∃ rq, rq ∈ objs ∧ rq <= a < rq + 4.

Lemma queue_bytes_apart rq a : rq ∈ objs → rq + 8 <= a < rq + 56 → ¬ queue_bytes a.
Proof.
  intros Hrq Ha [Hs|[Hc|(r & Hr & Hra)]].
  - by apply (proj1 (sl_apart Hlay rq Hrq a ltac:(lia))).
  - by apply (proj2 (sl_apart Hlay rq Hrq a ltac:(lia))).
  - destruct (decide (r = rq)) as [->|Hne]; [lia|].
    pose proof (sl_disjoint Hlay r rq Hr Hrq Hne) as [?|?]; lia.
Qed.

(** Changes outside the fields of the requests. *)
Lemma io_rep_frame rq P m m' :
  io_rep rq m → modifies P m m' →
  (∀ a, rq + 12 <= a < rq + 14 ∨ rq + 24 <= a < rq + 48 → ¬ P a) → io_rep rq m'.
Proof.
  intros [Hv Ho Hb Hs Hse] Hm HP. split; [by eapply valid_modifies| | | |];
    (rewrite (read_modifies _ _ _ _ _ Hm); [done|]); autounfold with layout; simpl; intros; apply HP; lia.
Qed.

Lemma io_state_frame st m m' : io_state st m → modifies queue_bytes m m' → io_state st m'.
Proof.
  intros [Hrep Hfl Hinj Hdone] Hm. split; [| |done|].
  - intros rq Hrq. eapply io_rep_frame; [by apply Hrep|exact Hm|]. intros a Ha. apply (queue_bytes_apart rq); [done|lia].
  - intros rq id Hid. destruct (Hfl rq id Hid) as (Hrq & Hd & Hp). split_and!; [done|done|].
    rewrite (read_modifies _ _ _ _ _ Hm); [done|]. autounfold with layout. simpl. intros a Ha. apply (queue_bytes_apart rq); [done|lia].
  - intros id rq Hid. destruct (Hdone id rq Hid) as (Hrq & Hc). split; [done|].
    rewrite (read_modifies _ _ _ _ _ Hm); [done|]. autounfold with layout. simpl. intros a Ha. apply (queue_bytes_apart rq); [done|lia].
Qed.

(** Bytes outside the queues and the ids. *)
Lemma priv_rel_frame st P m m' :
  priv_rel st m → modifies P m m' → (∀ a, P a → ¬ queue_bytes a) → priv_rel st m'.
Proof.
  intros [Hsq (B & HB & Hbo) Hv Hids Hout Hap] M HP. split; [| | | |done|done].
  - eapply lrq_rep_frame; [exact Hsq|exact M|]. intros a Ha Pa. apply (HP a Pa). by left.
  - exists B. split; [|done]. eapply rm_rep_frame; [exact HB|exact M|]. intros a Ha Pa. apply (HP a Pa). by right; left.
  - intros rq Hrq. eapply valid_modifies; [exact M|auto].
  - intros rq id Hid. destruct (Hids rq id Hid) as [Hrq Hrd]. split; [done|]. rewrite <-Hrd.
    eapply read_modifies; [exact M|]. intros a Ha Pa. apply (HP a Pa). right; right. by exists rq.
Qed.

(** Ids that nobody waits for are forgotten. *)
Lemma priv_rel_weaken st st' m :
  priv_rel st m → pa_next st' = pa_next st → pa_done st' = pa_done st → pa_flight st' ⊆ pa_flight st → priv_rel st' m.
Proof.
  intros [Hsq Hcq Hv Hids Hout Hap] Hn Hd Hf.
  assert (∀ id, pending st' id → pending st id) as Hp.
  { intros id [(r & Hr)%elem_of_map_img|Hid]%elem_of_union.
    - apply elem_of_union_l, elem_of_map_img. exists r. by eapply lookup_weaken.
    - apply elem_of_union_r. by rewrite <-Hd. }
  split; rewrite ?Hn, ?Hd; auto. intros rq id Hid. apply Hids. by eapply lookup_weaken.
Qed.

(** *** Submission *)

Lemma submitted_pending st rq id :
  pending (submitted st rq) id → id = pa_next st ∨ pending st id.
Proof.
  intros [(r & Hr)%elem_of_map_img|Hid]%elem_of_union; cbn [submitted pa_flight pa_done] in *.
  - apply lookup_insert_Some in Hr as [[_ <-]|[_ Hr]]; [by left|right].
    apply elem_of_union_l, elem_of_map_img. by exists r.
  - right. by apply elem_of_union_r.
Qed.

Lemma pending_bucket st id : bucket_free n st → pending st id → id_bucket n id ≠ id_bucket n (pa_next st).
Proof.
  intros [H1 H2] [(r & Hr)%elem_of_map_img|(r & Hr)%elem_of_dom]%elem_of_union; [by apply (H1 r)|by apply (H2 id r)].
Qed.

(** A token is handed out for a request whose bucket is free. *)
Lemma priv_rel_submitted st m m' rq :
  priv_rel st m → rq ∈ objs → bucket_free n st → modifies (both (sq_bytes qp cap) (span rq 4)) m m' →
  lrq_rep (qp_sq_ qp) qid cap (u32 (pa_next st + 1)) [] m' → read 4 rq m' = u32 (pa_next st) →
  priv_rel (submitted st rq) m'.
Proof.
  intros [_ (B & HB & Hbo) Hv Hids Hout Hap] Hrq Hfree M Hsq Hrd.
  assert (∀ a, rm_span (qp_cq_ qp) n a → ¬ both (sq_bytes qp cap) (span rq 4) a) as Hdis.
  { intros a Ha [Hs|Hs].
    - pose proof (sl_queues Hlay) as [?|?]; unfold sq_bytes, lrq_span, rm_span, span in *; autounfold with layout in *; lia.
    - destruct (sl_apart Hlay rq Hrq a) as [_ Hn]; [unfold span in Hs; lia|]. by apply Hn. }
  split; cbn [submitted pa_next pa_done pa_flight].
  - done.
  - exists B. split; [|done]. by eapply rm_rep_frame.
  - intros r Hr. eapply valid_modifies; [exact M|auto].
  - intros r id [[<- <-]|[Hne Hid]]%lookup_insert_Some; [done|]. destruct (Hids r id Hid) as [Hr Hrr]. split; [done|].
    rewrite <-Hrr. eapply read_modifies; [exact M|]. intros a Ha [Hs|Hs].
    + by apply (proj1 (sl_apart Hlay r Hr a ltac:(lia))).
    + unfold span in Hs. pose proof (sl_disjoint Hlay r rq Hr Hrq ltac:(done)) as [?|?]; lia.
  - intros id [->|Hp]%submitted_pending; [lia|]. specialize (Hout id Hp). lia.
  - intros i j Hi%submitted_pending Hj%submitted_pending E. destruct Hi as [->|Hi], Hj as [->|Hj]; [done| | |by apply Hap].
    + by destruct (pending_bucket st j Hfree Hj).
    + by destruct (pending_bucket st i Hfree Hi).
Qed.

(** The token is made, and the request leaves the private queue again. *)
Lemma enqueue_private st m rq :
  priv_rel st m → io_state st m → may_enqueue n objs st rq →
  wp (tok ← labstor_queue_pair_Enqueue fuel qp rq; out ← queue_pair_Dequeue qp; mret (tok, out))
     (λ r m', qtok_req_id_ r.1 = u32 (pa_next st) ∧ r.2 = Some rq ∧
        priv_rel (submitted st rq) m' ∧ io_state st m') m.
Proof.
  intros Hpr Hio (Hobj & Hnf & Hnd & Hfree). pose proof (pq_sq _ _ Hpr) as Hsq.
  pose proof (lrq_rep_len _ _ _ _ _ _ Hsq) as [_ Hcap].
  assert (∀ a, rb_span (lrq_queue_ (qp_sq_ qp)) cap a → sq_bytes qp cap a) as Hring.
  { rewrite (sl_handle Hlay). unfold rb_span, sq_bytes, lrq_span, span. cbn. autounfold with layout. lia. }
  apply wp_bind. eapply wp_mono.
  { apply (lrq_enqueue_accepts fuel _ _ _ _ _ _ rq (sl_fuel Hlay) Hsq); [by intros []|cbn; lia|by apply (sl_near Hlay)|by apply (pq_valid _ _ Hpr)|].
    unfold outside. pose proof (λ a Ha, proj1 (sl_apart Hlay rq Hobj a Ha)) as Hap. unfold sq_bytes, lrq_span, span in Hap.
    autounfold with layout in Hap. destruct (decide (rq + 4 <= lrq_header_ (qp_sq_ qp))); [by left|right].
    apply Z.le_ngt. intros Hlt. apply (Hap (Z.max rq (lrq_header_ (qp_sq_ qp)))); lia. }
  cbn [length]. rewrite Z.add_0_r, u32_idemp. intros tok m1 (-> & Hsq1 & Hrd1 & M1). cbn [app] in Hsq1. apply wp_bind. eapply wp_mono.
  { exact (lrq_dequeue_nonempty _ _ _ _ _ _ _ Hsq1). }
  rewrite u32_add_l. intros out m2 (-> & Hsq2 & M2). apply wp_ret. split; [done|]. split; [done|].
  assert (modifies (both (sq_bytes qp cap) (span rq 4)) m m2) as M.
  { eapply modifies_trans; (eapply modifies_weaken; [eassumption|]); [|intros a Ha; left; by apply Hring].
    intros a [Ha|Ha]; [left; by apply Hring|by right]. }
  assert (read 4 rq m2 = u32 (pa_next st)) as Hrd2.
  { rewrite <-Hrd1. eapply read_modifies; [exact M2|]. intros a Ha Hs%Hring.
    by apply (proj1 (sl_apart Hlay rq Hobj a ltac:(lia))). }
  split; [by apply (priv_rel_submitted st m)|].
  eapply io_state_frame; [exact Hio|]. eapply modifies_weaken; [exact M|].
  intros a [Ha|Ha]; [by left|]. right; right. exists rq. split; [done|]. unfold span in Ha. lia.
Qed.

(** The pointer to the queue pair is written into the request. *)
Lemma io_state_ptr st rq m :
  io_state st m → rq ∈ objs →
  let m' := write 8 (rq + srq_priv_qp_) (spq_priv_qp_ q) m in
  io_state st m' ∧ read 8 (rq + srq_priv_qp_) m' = spq_priv_qp_ q ∧ modifies (span (rq + 48) 8) m m'.
Proof.
  intros [Hrep Hfl Hinj Hdone] Hrq m'. pose proof (sl_ptr Hlay) as Hp.
  assert (modifies (span (rq + 48) 8) m m') as M.
  { apply modifies_write; [|unfold span; autounfold with layout; simpl; lia].
    apply (valid_sub _ _ _ _ _ (ir_valid _ _ (Hrep rq Hrq))); autounfold with layout; simpl; lia. }
  assert (read 8 (rq + srq_priv_qp_) m' = spq_priv_qp_ q) as Hrd.
  { unfold m'. by mem_simpl. }
  split; [|done]. split; [| |done|].
  - intros r Hr. eapply io_rep_frame; [by apply Hrep|exact M|]. intros a Ha Hs. unfold span in Hs.
    destruct (decide (r = rq)) as [->|Hne]; [lia|]. pose proof (sl_disjoint Hlay r rq Hr Hrq Hne) as [?|?]; lia.
  - intros r id Hid. destruct (Hfl r id Hid) as (Hr & Hd & Hpr). split_and!; [done|done|].
    destruct (decide (r = rq)) as [->|Hne]; [done|]. rewrite (read_modifies _ _ _ _ _ M); [done|].
    autounfold with layout. simpl. unfold span. intros a Ha Hs.
    pose proof (sl_disjoint Hlay r rq Hr Hrq Hne) as [?|?]; lia.
  - intros id r Hid. destruct (Hdone id r Hid) as (Hr & Hc). split; [done|]. rewrite (read_modifies _ _ _ _ _ M); [done|].
    autounfold with layout. simpl. unfold span. intros a Ha Hs. destruct (decide (r = rq)) as [->|Hne]; [lia|].
    pose proof (sl_disjoint Hlay r rq Hr Hrq Hne) as [?|?]; lia.
Qed.

(** Fields of the requests are not the private queue pair's. *)
Lemma priv_rel_fields st rq k len m m' :
  priv_rel st m → rq ∈ objs → modifies (span (rq + k) len) m m' → 8 <= k → k + len <= 56 → priv_rel st m'.
Proof.
  intros Hqp Hrq M Hk Hn. eapply priv_rel_frame; [exact Hqp|exact M|].
  intros a Ha. unfold span in Ha. apply (queue_bytes_apart rq); [done|lia].
Qed.

Lemma submitted_rel st d d' m rq :
  priv_rel (submitted st rq) m → io_state st m → rq ∈ objs → pa_flight st !! rq = None →
  read 8 (rq + srq_priv_qp_) m = spq_priv_qp_ q → nvme_flight d = dom (pa_flight st) →
  nvme_flight d' = {[rq]} ∪ nvme_flight d → pa_done st !! pa_next st = None →
  (∀ r id, pa_flight st !! r = Some id → id ≠ pa_next st) → spdk_rel (submitted st rq) d' m.
Proof.
  intros Hqp [Hrep Hfl Hinj Hdone] Hrq Hnf Hp Hdev Hdev' Hfresh Hne. split; [done| |].
  - split; cbn [submitted pa_flight pa_done]; [done| | |done].
    + intros r id [[<- <-]|[Hr Hid]]%lookup_insert_Some; [done|by apply Hfl].
    + intros r1 r2 id [[-> E1]|[Hr1 Hid1]]%lookup_insert_Some [[-> E2]|[Hr2 Hid2]]%lookup_insert_Some; [done| | |by eapply Hinj].
      * by destruct (Hne r2 _ Hid2).
      * by destruct (Hne r1 _ Hid1).
  - cbn [submitted pa_flight]. rewrite Hdev', Hdev, dom_insert_L. done.
Qed.

(** The next id is not in use. *)
Lemma next_fresh st d m : spdk_rel st d m →
  pa_done st !! pa_next st = None ∧ ∀ r id, pa_flight st !! r = Some id → id ≠ pa_next st.
Proof.
  intros [Hqp _ _]. pose proof (pq_out _ _ Hqp) as Hlt.
  split.
  - apply not_elem_of_dom. intros Hin. specialize (Hlt (pa_next st)). cut (pa_next st < pa_next st); [lia|]. apply Hlt. by apply elem_of_union_r.
  - intros r id Hid ->. cut (pa_next st < pa_next st); [lia|]. apply Hlt, elem_of_union_l, elem_of_map_img. by exists r.
Qed.

Lemma refused_rel st d' m rq :
  priv_rel (submitted st rq) m → io_state st m → pa_flight st !! rq = None →
  nvme_flight d' = dom (pa_flight st) → spdk_rel (refused st) d' m.
Proof.
  intros Hqp [] Hnf Hdev. split; [|by split|done].
  eapply priv_rel_weaken; [exact Hqp|done..|]. cbn. by apply insert_subseteq.
Qed.

Lemma enqueue_refines st d m rq st' d' r :
  spdk_rel st d m → spdk_spec_step n objs args (spq_sector_size_ q) st d (SEnqueue rq) = Some (st', d', r) →
  wp (spdk_step heap fuel q (SEnqueue rq) d) (λ o m', o = (r, d') ∧ spdk_rel st' d' m') m.
Proof.
  intros Hrel Hs. cbn [spdk_spec_step] in Hs. case_decide as Hmay; [|done].
  pose proof (next_fresh _ _ _ Hrel) as [Hfresh Hne]. pose proof Hmay as (Hrq & Hnf & _).
  pose proof (pr_dev _ _ _ Hrel) as Hdev. pose proof (sl_sector Hlay) as Hsec.
  cbn [spdk_step]. unfold SPDK_Enqueue, deref_qp. rewrite (sl_heap Hlay). apply wp_bind, wp_bind, wp_ret. cbv beta.
  pose proof (enqueue_private st m rq (pr_qp _ _ _ Hrel) (pr_io _ _ _ Hrel) Hmay) as Hen.
  apply wp_bind. apply wp_bind_inv in Hen. eapply wp_mono; [exact Hen|]. clear Hen. intros tok m1 Hen. cbv beta in Hen |- *.
  apply wp_bind. apply wp_bind_inv in Hen. eapply wp_mono; [exact Hen|]. clear Hen. intros out m2 Hen. cbv beta in Hen |- *.
  destruct (proj1 (wp_run _ _ _) Hen) as (pr & m3 & [= <- <-] & Htok & Hout & Hqp & Hio). cbn [fst snd] in *. subst out. clear Hen.
  cbn [default from_option id]. destruct (io_state_ptr st rq m2 Hio Hrq) as (Hio' & Hptr & M3).
  pose proof (is_rep _ _ Hio rq Hrq) as Hrep2.
  apply wp_bind, wp_store; [apply (valid_sub _ _ _ _ _ (ir_valid _ _ Hrep2)); autounfold with layout; simpl; lia|].
  set (m3 := write 8 (rq + srq_priv_qp_) (spq_priv_qp_ q) m2) in *.
  pose proof (priv_rel_fields _ rq 48 8 _ _ Hqp Hrq M3 ltac:(lia) ltac:(lia)) as Hqp3. clear Hqp Hio Hrep2 M3.
  destruct (is_rep _ _ Hio' rq Hrq) as [Hv Hop Hbuf Hsize Hsector].
  assert (∀ k len, 0 <= k → k + len <= 56 → valid m3 (rq + k) len) as Hvf by (intros k len ??; apply (valid_sub _ _ _ _ _ Hv); lia).
  apply wp_bind, wp_load; [apply Hvf; autounfold with layout; simpl; lia|]. rewrite Hop.
  unfold command_of in Hs. destruct (Ops_of (ia_op (args rq))) as [io|]; cbn [fmap option_fmap option_map] in Hs.
  - do 3 (apply wp_bind, wp_load; [apply Hvf; autounfold with layout; simpl; lia|]). rewrite Hbuf, Hsize, Hsector.
    apply wp_bind. rewrite u64_small by lia. apply wp_udiv; [lia|].
    destruct (nvme_submit _ d) as [ret d1] eqn:Esub. injection Hs as <- <- <-.
    apply wp_ret. cbv beta iota. apply wp_ret. cbn [fst snd qtok_req_id_]. rewrite Htok. split; [done|].
    destruct (Z.eqb_spec ret 0) as [->|Hret].
    + apply nvme_submit_ok in Esub. cbn [nc_arg] in Esub. by eapply (submitted_rel st d).
    + eapply refused_rel; [done|done|done|]. rewrite (nvme_submit_fails _ _ _ _ Esub Hret). done.
  - injection Hs as <- <- <-. apply wp_ret. cbv beta iota. apply wp_ret. cbn [fst snd qtok_req_id_]. rewrite Htok. split; [done|].
    by eapply refused_rel.
Qed.

(** *** Completion *)

Lemma called_back_out (fl dn : gmap Z Z) rq id :
  fl !! rq = Some id → (map_img (delete rq fl) ∪ dom (<[id := rq]> dn) : gset Z) ⊆ map_img fl ∪ dom dn.
Proof.
  intros Hid i [(r & [_ Hr]%lookup_delete_Some)%elem_of_map_img|Hi]%elem_of_union.
  - apply elem_of_union_l, elem_of_map_img. by exists r.
  - rewrite dom_insert_L in Hi. apply elem_of_union in Hi as [->%elem_of_singleton|Hi]; [|by apply elem_of_union_r].
    apply elem_of_union_l, elem_of_map_img. by exists rq.
Qed.

(** The bucket of an id in use holds its completion. *)
Lemma pending_lookup st B id :
  (∀ i j, pending st i → pending st j → id_bucket n i = id_bucket n j → i = j) →
  buckets_of n (pa_done st) B → pending st id → B !! id_bucket n id = pa_done st !! id.
Proof.
  intros Hap [Hin Hout] Hid. destruct (pa_done st !! id) as [rq|] eqn:E; [by apply Hin|].
  destruct (B !! id_bucket n id) as [rq|] eqn:EB; [|done]. destruct (Hout _ _ EB) as (j & Hj & Hd).
  assert (j = id) as -> by (apply Hap; [apply elem_of_union_r, elem_of_dom; eauto|done|done]). congruence.
Qed.

Lemma called_back_pending_1 st rq id : pending (called_back st rq) id → pending st id.
Proof.
  unfold pending, called_back. destruct (pa_flight st !! rq) as [i|] eqn:E; [|done]. cbn [pa_flight pa_done].
  by apply called_back_out.
Qed.

Lemma complete_private st m rq id :
  priv_rel st m → pa_flight st !! rq = Some id → pa_done st !! id = None →
  wp (labstor_queue_pair_CompleteInf fuel qp rq)
     (λ ok m', ok = true ∧ priv_rel (called_back st rq) m' ∧ modifies (cq_bytes qp n) m m') m.
Proof.
  intros [Hsq (B & HB & Hbo) Hv Hids Hout Hap] Hid Hnd. destruct (Hids rq id Hid) as [Hrq Hrd].
  assert (pending st id) as Hpend by (apply elem_of_union_l, elem_of_map_img; by exists rq).
  assert (B !! id_bucket n id = None) as Hfree by (by rewrite (pending_lookup st B id Hap Hbo Hpend)).
  apply wp_inf_spinwait; [exact (sl_fuel Hlay)|]. apply wp_bind. eapply wp_mono.
  { apply (rm_set_spec _ _ _ _ rq HB); [|by apply Hv]. rewrite (sl_base Hlay). by apply (sl_near Hlay). }
  cbv zeta. rewrite Hrd. fold (id_bucket n id). rewrite Hfree. intros r m' (-> & HB' & M). apply wp_ret. exists true.
  split; [done|]. split; [done|]. split; [|exact M].
  assert (∀ r a, r ∈ objs → r <= a < r + 4 → ¬ rm_span (qp_cq_ qp) n a) as Hoff.
  { intros r a Hr Ha. apply (proj2 (sl_apart Hlay r Hr a ltac:(lia))). }
  split.
  - unfold called_back. rewrite Hid. eapply lrq_rep_frame; [exact Hsq|exact M|]. intros a.
    pose proof (sl_queues Hlay) as [?|?]; unfold lrq_span, rm_span, span; autounfold with layout in *; lia.
  - exists (<[id_bucket n id := rq]> B). split; [done|]. unfold called_back. rewrite Hid. by apply buckets_insert.
  - intros r Hr. eapply valid_modifies; [exact M|auto].
  - intros r i Hr. assert (pa_flight st !! r = Some i) as Hr'.
    { unfold called_back in Hr. rewrite Hid in Hr. cbn [pa_flight] in Hr. by apply lookup_delete_Some in Hr as [_ ?]. }
    destruct (Hids r i Hr') as [Hro <-]. split; [done|]. eapply read_modifies; [exact M|]. intros a Ha. by apply (Hoff r).
  - intros i Hi%called_back_pending_1. unfold called_back. rewrite Hid. by apply Hout.
  - intros i j Hi%called_back_pending_1 Hj%called_back_pending_1. by apply Hap.
Qed.

Lemma io_complete_spec st m rq id err :
  priv_rel st m → io_state st m → pa_flight st !! rq = Some id →
  wp (_IOComplete heap fuel rq err)
     (λ _ m', priv_rel (called_back st rq) m' ∧ io_state (called_back st rq) m') m.
Proof.
  intros Hqp Hio Hid. pose proof Hio as [Hrep Hfl Hinj Hdone]. destruct (Hfl rq id Hid) as (Hrq & Hnd & Hptr).
  pose proof (ir_valid _ _ (Hrep rq Hrq)) as Hv. unfold _IOComplete.
  apply wp_bind, wp_store; [apply (valid_sub _ _ _ _ _ Hv); autounfold with layout; simpl; lia|].
  set (m1 := write 4 (rq + rq_code_) (u32 LABSTOR_REQUEST_SUCCESS) m).
  assert (modifies (span (rq + 8) 4) m m1) as M1.
  { apply modifies_write; [|unfold span; autounfold with layout; simpl; lia].
    apply (valid_sub _ _ _ _ _ Hv); autounfold with layout; simpl; lia. }
  assert (∀ r k len, r ∈ objs → 12 <= k → k + Z.of_nat len <= 56 → read len (r + k) m1 = read len (r + k) m) as Hkeep.
  { intros r k len Hr Hk Hn. apply (read_modifies _ _ _ _ _ M1). unfold span. intros a Ha Hs.
    destruct (decide (r = rq)) as [->|Hne]; [lia|]. pose proof (sl_disjoint Hlay r rq Hr Hrq Hne) as [?|?]; lia. }
  apply wp_bind, wp_load.
  { eapply valid_modifies; [exact M1|]. apply (valid_sub _ _ _ _ _ Hv); autounfold with layout; simpl; lia. }
  rewrite (Hkeep rq srq_priv_qp_ 8%nat Hrq), Hptr by (autounfold with layout; simpl; lia).
  unfold deref_qp. rewrite (sl_heap Hlay). apply wp_bind, wp_ret.
  pose proof (priv_rel_fields _ rq 8 4 _ _ Hqp Hrq M1 ltac:(lia) ltac:(lia)) as Hqp1.
  unfold queue_pair_Complete_rq. cbn [v_Complete shmem_queue_pair]. unfold shmem_queue_pair__Complete.
  apply wp_bind, wp_load.
  { eapply valid_modifies; [exact M1|]. apply (valid_sub _ _ _ _ _ Hv); autounfold with layout; simpl; lia. }
  apply wp_bind. eapply wp_mono; [by apply (complete_private st m1 rq id Hqp1)|].
  intros ok m2 (-> & Hqp2 & M2). apply wp_ret. split; [done|]. unfold called_back. rewrite Hid.
  - eapply io_state_frame; [|eapply modifies_weaken; [exact M2|]; intros a Ha; by right; left].
    split; cbn [pa_flight pa_done].
    + intros r Hr. eapply io_rep_frame; [by apply Hrep|exact M1|]. intros a Ha Hs. unfold span in Hs.
      destruct (decide (r = rq)) as [->|Hne]; [lia|]. pose proof (sl_disjoint Hlay r rq Hr Hrq Hne) as [?|?]; lia.
    + intros r i [Hr Hi]%lookup_delete_Some. destruct (Hfl r i Hi) as (Hro & Hrd & Hrp). split_and!; [done| |].
      * rewrite lookup_insert_ne; [done|]. intros ->. apply Hr. by eapply Hinj.
      * rewrite Hkeep by (done || (autounfold with layout; simpl; lia)). done.
    + intros r1 r2 i [_ H1]%lookup_delete_Some [_ H2]%lookup_delete_Some. by eapply Hinj.
    + intros i r [[<- <-]|[Hi Hr]]%lookup_insert_Some.
      * split; [done|]. unfold m1. by mem_simpl.
      * destruct (Hdone i r Hr) as [Hro Hc]. split; [done|]. destruct (decide (r = rq)) as [->|Hne]; [unfold m1; by mem_simpl|].
        rewrite (read_modifies _ _ _ _ _ M1); [done|]. autounfold with layout. simpl. unfold span. intros a Ha Hs.
        pose proof (sl_disjoint Hlay r rq Hro Hrq Hne) as [?|?]; lia.
Qed.

Lemma called_back_flight st rq : dom (pa_flight (called_back st rq)) = dom (pa_flight st) ∖ {[rq]}.
Proof.
  unfold called_back. destruct (pa_flight st !! rq) as [id|] eqn:E; cbn [pa_flight]; [apply dom_delete_L|].
  apply not_elem_of_dom in E. set_solver.
Qed.

Lemma io_callbacks_spec l st m :
  priv_rel st m → io_state st m → NoDup l.*1 → (∀ a, a ∈ l.*1 → a ∈ dom (pa_flight st)) →
  wp (io_callbacks heap fuel l)
     (λ _ m', let st' := foldl called_back st l.*1 in
        priv_rel st' m' ∧ io_state st' m' ∧
        dom (pa_flight st') = dom (pa_flight st) ∖ list_to_set l.*1) m.
Proof.
  revert st m. induction l as [|[a err] l IH]; intros st m Hqp Hio Hnd Hin.
  { apply wp_ret. cbn. split_and!; [done|done|]. set_solver. }
  cbn [io_callbacks fmap list_fmap fst] in *. apply NoDup_cons in Hnd as [Ha Hnd].
  destruct (proj1 (elem_of_dom (pa_flight st) a)) as [id Hid]; [apply Hin; by left|].
  apply wp_bind. eapply wp_mono; [by eapply io_complete_spec|]. intros [] m1 [Hqp1 Hio1].
  eapply wp_mono; [apply (IH (called_back st a) m1 Hqp1 Hio1 Hnd)|].
  - intros b Hb. rewrite called_back_flight. apply elem_of_difference. split; [apply Hin; by right|].
    intros ->%elem_of_singleton. done.
  - intros [] m2 (Hqp2 & Hio2 & Hdom). cbn [foldl fmap list_fmap fst]. split_and!; [done|done|].
    rewrite Hdom, called_back_flight. cbn. set_solver.
Qed.

(** The ids that are waited for stay the same. *)
Lemma called_back_pending st rq id : pending (called_back st rq) id ↔ pending st id.
Proof.
  unfold pending, called_back. destruct (pa_flight st !! rq) as [i|] eqn:E; [|done]. cbn [pa_flight pa_done].
  split; [by apply called_back_out|]. intros [(r & Hr)%elem_of_map_img|Hi]%elem_of_union.
  - destruct (decide (r = rq)) as [->|Hne].
    + apply elem_of_union_r. rewrite dom_insert_L. rewrite E in Hr. injection Hr as ->. set_solver.
    + apply elem_of_union_l, elem_of_map_img. exists r. by rewrite lookup_delete_ne.
  - apply elem_of_union_r. rewrite dom_insert_L. set_solver.
Qed.

Lemma called_backs_pending st l id : pending (foldl called_back st l) id ↔ pending st id.
Proof. revert st. induction l as [|a l IH]; intros st; [done|]. cbn [foldl]. rewrite IH. apply called_back_pending. Qed.

Lemma collected_pending st i j : pending (collected st i) j → pending st j ∧ (j = i → j ∈ (map_img (pa_flight st) : gset Z)).
Proof.
  unfold pending. cbn [collected pa_flight pa_done]. rewrite dom_delete_L, !elem_of_union, elem_of_difference, elem_of_singleton. tauto.
Qed.

(** A poll of the private queue for an id in use. *)
Lemma collect_private st m id :
  priv_rel st m → pending st id →
  wp (labstor_queue_pair_IsComplete qp (u32 id))
     (λ r m', r = pa_done st !! id ∧ priv_rel (collected st id) m' ∧ modifies (cq_bytes qp n) m m') m.
Proof.
  intros [Hsq (B & HB & Hbo) Hv Hids Hout Hap] Hpend. pose proof (pending_lookup st B id Hap Hbo Hpend) as Hl.
  eapply wp_mono; [exact (rm_find_spec _ _ _ _ (u32 id) HB)|]. fold (id_bucket n id). rewrite Hl.
  intros r m' (-> & HB' & M). split; [done|]. split; [|exact M].
  split; cbn [collected pa_next pa_flight pa_done].
  - eapply lrq_rep_frame; [exact Hsq|exact M|]. intros a.
    pose proof (sl_queues Hlay) as [?|?]; unfold lrq_span, rm_span, span; autounfold with layout in *; lia.
  - eexists. split; [exact HB'|]. destruct Hbo as [Hin Ho]. split.
    + intros j rq [Hne Hj]%lookup_delete_Some. rewrite lookup_delete_ne; [by apply Hin|]. intros E. apply Hne.
      apply Hap; [done| |done]. apply elem_of_union_r, elem_of_dom. eauto.
    + intros b rq [Hne Hb]%lookup_delete_Some. destruct (Ho _ _ Hb) as (j & Hj & Hd). exists j.
      rewrite lookup_delete_ne; [done|congruence].
  - intros r Hr. eapply valid_modifies; [exact M|auto].
  - intros r i Hr. destruct (Hids r i Hr) as [Hro <-]. split; [done|]. eapply read_modifies; [exact M|].
    intros a Ha. exact (proj2 (sl_apart Hlay r Hro a ltac:(lia))).
  - intros i [Hi _]%collected_pending. by apply Hout.
  - intros i j [Hi _]%collected_pending [Hj _]%collected_pending. by apply Hap.
Qed.

Lemma collected_io st m id : io_state st m → io_state (collected st id) m.
Proof.
  intros [Hrep Hfl Hinj Hdone]. split; cbn [collected pa_flight pa_done]; [done| |done|].
  - intros r i Hr. destruct (Hfl r i Hr) as (? & Hn & ?). split_and!; [done| |done]. rewrite lookup_delete_None. by right.
  - intros i r [_ Hr]%lookup_delete_Some. by apply (Hdone i).
Qed.

Lemma is_complete_polls st d m id ret l d1 :
  spdk_rel st d m → nvme_process_completions d = ((ret, l), d1) → pending st id →
  let st1 := foldl called_back st l.*1 in
  wp (SPDK_IsComplete heap fuel q (u32 id) d)
     (λ o m', o = (pa_done st1 !! id, d1) ∧ spdk_rel (collected st1 id) d1 m' ∧
        ∀ rq, pa_done st1 !! id = Some rq →
          valid m' (rq + rq_code_) 4 ∧ read 4 (rq + rq_code_) m' = LABSTOR_REQUEST_SUCCESS) m.
Proof.
  intros [Hqp Hio Hdev] Epoll Hpend. cbv zeta. unfold SPDK_IsComplete, _PollCompletions. rewrite Epoll.
  destruct (nvme_called_back _ _ _ _ Epoll) as (Hnd & Hsub & Hfl).
  apply wp_bind, wp_bind. eapply wp_mono; [apply (io_callbacks_spec l st m Hqp Hio Hnd)|].
  { intros a Ha. rewrite <-Hdev. by apply Hsub. }
  cbv beta zeta. set (st1 := foldl called_back st l.*1). intros [] m1 (Hqp1 & Hio1 & Hdom). apply wp_ret. cbv beta iota.
  unfold deref_qp. rewrite (sl_heap Hlay). apply wp_bind, wp_ret. apply wp_bind.
  unfold queue_pair_IsComplete. cbn [v_IsComplete shmem_queue_pair]. rewrite u32_idemp.
  assert (pending st1 id) as Hout by (by apply called_backs_pending).
  eapply wp_mono; [exact (collect_private st1 m1 id Hqp1 Hout)|]. intros r m2 (-> & Hqp2 & M2). apply wp_ret. split; [done|].
  assert (io_state st1 m2) as Hio2.
  { eapply io_state_frame; [exact Hio1|]. eapply modifies_weaken; [exact M2|]. intros a Ha. by right; left. }
  split; [split; [done|by apply collected_io|cbn; by rewrite Hfl, Hdev, Hdom]|].
  intros rq Hrq. destruct (is_done _ _ Hio2 id rq Hrq) as [Hobj Hcode]. split; [|done].
  apply (valid_sub _ _ _ _ _ (ir_valid _ _ (is_rep _ _ Hio2 rq Hobj))); autounfold with layout; lia.
Qed.

Lemma is_complete_refines st d m id st' d' r :
  spdk_rel st d m → spdk_spec_step n objs args (spq_sector_size_ q) st d (SIsComplete id) = Some (st', d', r) →
  wp (spdk_step heap fuel q (SIsComplete id) d) (λ o m', o = (r, d') ∧ spdk_rel st' d' m') m.
Proof.
  intros Hrel Hs. cbn [spdk_spec_step] in Hs. cbn [spdk_step].
  destruct (nvme_process_completions d) as [[ret l] d1] eqn:Epoll. case_decide as Hpend; [|done]. injection Hs as <- <- <-.
  apply wp_bind. eapply wp_mono; [by eapply is_complete_polls|]. cbv zeta. intros o m' (-> & Hrel' & Hcode).
  destruct (pa_done (foldl called_back st l.*1) !! id) as [rq|]; [|by apply wp_ret].
  destruct (Hcode rq eq_refl) as [Hv Hrd]. apply wp_bind, wp_load; [done|]. rewrite Hrd. by apply wp_ret.
Qed.

Lemma spdk_run_refines ops st d m rs :
  spdk_rel st d m → spdk_spec_run n objs args (spq_sector_size_ q) st d ops = Some rs →
  wp (spdk_run heap fuel q ops d) (λ o _, o.1 = rs) m.
Proof.
  revert st d m rs. induction ops as [|op ops IH]; intros st d m rs Hrel Hs; cbn [spdk_spec_run spdk_run] in *.
  { injection Hs as <-. by apply wp_ret. }
  apply bind_Some in Hs as ([[st' d'] r] & Hstep & Hs). apply bind_Some in Hs as (rs' & Hrun & [= <-]).
  apply wp_bind. eapply wp_mono; [destruct op; [by eapply enqueue_refines|by eapply is_complete_refines]|].
  intros o m' [-> Hrel']. apply wp_bind. eapply wp_mono; [by eapply IH|]. intros [rs2 d2] m2 Hrs. cbn [fst] in Hrs. subst rs2. by apply wp_ret.
Qed.

(** *** Waiting *)

(** The device calls back for [rq] within [k] polls. *)
Fixpoint called_within (k : nat) (d : D) (rq : Z) : bool :=
  match k with
  | O => false
  | S k' => let '((_, l), d') := nvme_process_completions d in bool_decide (rq ∈ l.*1) || called_within k' d' rq
  end.

Definition ids_apart (st : spdk_abs) : Prop :=
  (∀ r1 r2 id, pa_flight st !! r1 = Some id → pa_flight st !! r2 = Some id → r1 = r2) ∧
  ∀ r id, pa_flight st !! r = Some id → pa_done st !! id = None.

Lemma called_back_apart st a : ids_apart st → ids_apart (called_back st a).
Proof.
  intros [Hinj Hd]. unfold called_back. destruct (pa_flight st !! a) as [i|] eqn:E; [|done]. split; cbn [pa_flight pa_done].
  - intros r1 r2 id [_ H1]%lookup_delete_Some [_ H2]%lookup_delete_Some. by eapply Hinj.
  - intros r id [Hr Hid]%lookup_delete_Some. rewrite lookup_insert_ne; [by eapply Hd|]. intros ->. apply Hr. by eapply Hinj.
Qed.

Lemma called_backs_apart st l : ids_apart st → ids_apart (foldl called_back st l).
Proof. revert st. induction l as [|a l IH]; intros st Hap; [done|]. by apply IH, called_back_apart. Qed.

Lemma called_backs_kept st l rq id :
  rq ∉ l → pa_flight st !! rq = Some id → pa_flight (foldl called_back st l) !! rq = Some id.
Proof.
  revert st. induction l as [|a l IH]; intros st Hl Hid; [done|]. apply not_elem_of_cons in Hl as [Hne Hl]. cbn [foldl].
  apply IH; [done|]. unfold called_back. destruct (pa_flight st !! a); [|done]. cbn. by rewrite lookup_delete_ne.
Qed.

Lemma called_backs_found st l rq id :
  ids_apart st → pa_done st !! id = Some rq ∨ pa_flight st !! rq = Some id ∧ rq ∈ l →
  pa_done (foldl called_back st l) !! id = Some rq.
Proof.
  revert st. induction l as [|a l IH]; intros st Hap Hor; cbn [foldl].
  { destruct Hor as [?|[_ Hin]]; [done|]. by apply not_elem_of_nil in Hin. }
  apply IH; [by apply called_back_apart|]. destruct Hap as [Hinj Hd]. unfold called_back.
  destruct (pa_flight st !! a) as [i|] eqn:E.
  - cbn [pa_flight pa_done]. destruct Hor as [Hdone|[Hid Hin]].
    + left. rewrite lookup_insert_ne; [done|]. intros ->. by rewrite (Hd a id E) in Hdone.
    + destruct (decide (a = rq)) as [->|Hne].
      * left. rewrite Hid in E. injection E as ->. apply lookup_insert_eq.
      * right. rewrite lookup_delete_ne by done. split; [done|]. apply elem_of_cons in Hin as [->|Hin]; [done|done].
  - destruct Hor as [Hdone|[Hid Hin]]; [by left|right]. split; [done|].
    apply elem_of_cons in Hin as [->|Hin]; [by rewrite Hid in E|done].
Qed.

(** A wait for a request at the device returns it once the device has called
    back. *)
Lemma spdk_wait_returns k st d m rq id :
  spdk_rel st d m → pa_flight st !! rq = Some id → called_within k d rq = true →
  wp (SPDK_Wait heap fuel k q (u32 id) d)
     (λ o m', o.1 = rq ∧ read 4 (rq + rq_code_) m' = LABSTOR_REQUEST_SUCCESS) m.
Proof.
  revert st d m. induction k as [|k IH]; intros st d m Hrel Hid Hc; [done|]. cbn [called_within] in Hc. cbn [SPDK_Wait].
  destruct (nvme_process_completions d) as [[ret l] d1] eqn:Epoll. set (st1 := foldl called_back st l.*1).
  assert (pending st id) as Hpend by (apply elem_of_union_l, elem_of_map_img; by exists rq).
  assert (ids_apart st) as Hap.
  { destruct (pr_io _ _ _ Hrel) as [_ Hfl Hinj _]. split; [exact Hinj|]. intros r i Hr. by apply (Hfl r i). }
  apply wp_bind. eapply wp_mono; [by eapply is_complete_polls|]. cbv zeta. fold st1. intros o m1 (-> & Hrel1 & Hcode).
  case_bool_decide as Hin; cbn [orb] in Hc.
  - assert (pa_done st1 !! id = Some rq) as Hd by (apply called_backs_found; [done|by right]).
    rewrite Hd in *. apply wp_ret. split; [done|]. by apply Hcode.
  - assert (pa_flight st1 !! rq = Some id) as Hid1 by (by apply called_backs_kept).
    assert (pa_done st1 !! id = None) as Hn.
    { eapply (proj2 (called_backs_apart st l.*1 Hap)). exact Hid1. }
    rewrite Hn. by apply (IH (collected st1 id) d1 m1 Hrel1).
Qed.
End refinement.

Definition spdk_spec_init : spdk_abs := {| pa_next := 0; pa_flight := ∅; pa_done := ∅ |}.

(** The layout of the private queue pair as [new_priv_qp] makes it: [cap] places
    for submissions, and the five words that the header of a submission queue is
    larger than that of a completion map as further buckets. *)
Lemma new_priv_qp_spec qp0 qid base cap sq_region cq_region m :
  valid m sq_region (24 + 4 * cap) → valid m cq_region (24 + 4 * cap) → outside sq_region (24 + 4 * cap) cq_region (24 + 4 * cap) →
  0 < cap < 2 ^ 30 - 6 → qid_in_range qid →
  wp (new_priv_qp qp0 qid base cap sq_region cq_region)
     (λ qp m', qp = queue_pair_at base sq_region cq_region ∧
        lrq_rep (qp_sq_ qp) qid cap 0 [] m' ∧ rm_rep (qp_cq_ qp) (cap + 5) ∅ m' ∧
        modifies (both (sq_bytes qp cap) (cq_bytes qp (cap + 5))) m m') m.
Proof.
  intros Hvs Hvc Hdis Hcap Hqid. unfold new_priv_qp, labstor_queue_pair_Init.
  assert (u32 (s32 (labstor_request_queue_GetSize_global (u32 cap))) = 24 + 4 * cap) as ->.
  { unfold labstor_request_queue_GetSize_global, labstor_request_ring_buffer_GetSize_global. autounfold with layout.
    rewrite (u32_small cap), (u32_small (12 + 4 * cap)) by lia. unfold u32, s32. Z.div_mod_to_equations. lia. }
  assert ((24 + 4 * cap - 24) / 4 = cap ∧ (24 + 4 * cap - 4) / 4 = cap + 5) as [Ec En] by (split; Z.div_mod_to_equations; lia).
  apply wp_bind. unfold wp at 1. rewrite lrq_init_default, Ec by lia.
  destruct (proj1 (wp_run _ _ _) (lrq_init_spec Userspace (qp_sq_ qp0) base sq_region (24 + 4 * cap) cap qid m Hvs Hcap ltac:(lia) ltac:(lia) Hqid))
    as (sq & m1 & -> & -> & Hsq & M1).
  apply wp_bind. unfold wp at 1. rewrite rm_init_default, En by lia.
  destruct (proj1 (wp_run _ _ _) (rm_init_spec Userspace (qp_cq_ qp0) base cq_region (24 + 4 * cap) (cap + 5) m1
    (valid_modifies _ _ _ _ _ M1 Hvc) ltac:(lia) ltac:(lia) ltac:(lia))) as (cq & m2 & -> & -> & Hcq & M2).
  apply wp_ret. split; [done|]. cbn [qp_sq_ qp_cq_ queue_pair_at fst]. split; [|split; [exact Hcq|]].
  - eapply lrq_rep_frame; [exact Hsq|exact M2|]. unfold lrq_span, span, outside in *. cbn. autounfold with layout. lia.
  - eapply modifies_trans; (eapply modifies_weaken; [eassumption|]);
      unfold both, sq_bytes, cq_bytes, lrq_span, rm_span, span; cbn; autounfold with layout; lia.
Qed.

(** C3. The queue pair over an NVMe device, on the private queue pair that
    [Client::Register] makes for a device of depth [cap] (which has [cap + 5]
    buckets for completions): for every device that keeps the laws of the
    library, one that answers out of order included, and every sequence of
    enqueues and polls within the conditions below, the code returns what the
    specification returns.  Tokens are numbered in order; the device gets the
    buffer, the first block and the number of blocks of the request, and an
    enqueue returns whether it accepted it; a poll makes the callbacks of the
    device, and returns the request of its token, with the code of success, once
    the device has called back for it and not before.

    Conditions on the client ([may_enqueue], [pending]), which the code does not
    check: a request is enqueued only when it is neither at the device nor
    called back and not yet collected; an enqueue is made only when no token
    that was accepted and not yet collected has the same bucket as the next one,
    that is the same number modulo [cap + 5] (else a poll can return the request
    of another token, [poll_returns_other_request]); and a poll is for a token
    whose request was accepted and not yet collected. *)
Theorem spdk_queue_correct {D} `{NvmeLaws D} qp0 qid base cap sq_region cq_region
    (objs : gset Z) (args : Z → io_args) fuel q (d : D) ops rs m :
  let qp := queue_pair_at base sq_region cq_region in
  valid m sq_region (24 + 4 * cap) → valid m cq_region (24 + 4 * cap) →
  0 < cap < 2 ^ 30 - 6 → qid_in_range qid →
  spdk_layout {[spq_priv_qp_ q := qp]} fuel q qp cap (cap + 5) objs args →
  (∀ rq, rq ∈ objs → io_rep args rq m) → nvme_flight d = ∅ →
  spdk_spec_run (cap + 5) objs args (spq_sector_size_ q) spdk_spec_init d ops = Some rs →
  wp (qp ← new_priv_qp qp0 qid base cap sq_region cq_region;
      spdk_run {[spq_priv_qp_ q := qp]} fuel q ops d) (λ o _, o.1 = rs) m.
Proof.
  intros qp Hvs Hvc Hcap Hqid Hlay Hreq Hd Hrun. apply wp_bind. eapply wp_mono.
  { apply new_priv_qp_spec; [done|done| |done|done]. pose proof (sl_queues _ _ _ _ _ _ _ _ Hlay) as Hq. cbn in Hq. unfold outside in *. lia. }
  intros r m' (-> & Hsq & Hcq & M). fold qp in Hsq, Hcq, M.
  eapply (spdk_run_refines _ fuel q qp qid cap (cap + 5) objs args Hlay ops spdk_spec_init d m'); [|done].
  split; [| |by rewrite Hd].
  - split; cbn [spdk_spec_init pa_next pa_flight pa_done]; [done| | |intros ?? E|intros ? E|intros ?? E]; try by rewrite lookup_empty in E.
    + exists ∅. split; [done|]. by split.
    + intros rq Hrq. eapply valid_modifies; [exact M|]. apply (valid_sub _ _ _ _ _ (ir_valid _ _ _ (Hreq rq Hrq))); lia.
    + by apply elem_of_union in E as [(? & E)%elem_of_map_img|(? & E)%elem_of_dom].
    + by apply elem_of_union in E as [(? & E)%elem_of_map_img|(? & E)%elem_of_dom].
  - split; cbn [spdk_spec_init pa_flight pa_done]; [|intros ?? E|intros ??? E|intros ?? E]; try by rewrite lookup_empty in E.
    intros rq Hrq. eapply io_rep_frame; [by apply Hreq|exact M|]. intros a Ha.
    destruct (sl_apart _ _ _ _ _ _ _ _ Hlay rq Hrq a) as [H1 H2]; [lia|]. by intros [?|?].
Qed.

(** ** Example: a device that answers in order *)

(** The queue of a device: commands, and whether they fail; a poll calls back for
    the first. *)
#[export] Instance fifo_nvme : Nvme (list (Z * bool)) := {
  nvme_submit c d := if bool_decide (nc_arg c ∈ d.*1) || (8 <=? Z.of_nat (length d)) then (-12, d)
                     else (0, d ++ [(nc_arg c, nc_lba c =? 77)]);
  nvme_process_completions d := match d with [] => ((0, []), []) | c :: d' => ((1, [c]), d') end
}.

(** Its commands have different arguments. *)
Definition fifo_device : Type := { d : list (Z * bool) | bool_decide (NoDup d.*1) = true }.

Lemma fifo_submit_nodup c (d : list (Z * bool)) :
  bool_decide (NoDup d.*1) = true → bool_decide (NoDup ((nvme_submit c d).2).*1) = true.
Proof.
  intros Hd%bool_decide_eq_true. apply bool_decide_eq_true. cbn. case_bool_decide as Hin; cbn [orb]; [done|].
  destruct (8 <=? _); [done|]. cbn. rewrite fmap_app. apply NoDup_app. split_and!; [done| |apply NoDup_singleton].
  intros x Hx ->%list_elem_of_singleton. done.
Qed.

Lemma fifo_poll_nodup (d : list (Z * bool)) :
  bool_decide (NoDup d.*1) = true → bool_decide (NoDup ((nvme_process_completions d).2).*1) = true.
Proof.
  intros Hd%bool_decide_eq_true. apply bool_decide_eq_true. destruct d as [|c d]; [done|]. cbn in *. by apply NoDup_cons in Hd as [_ ?].
Qed.

#[export] Instance fifo_device_nvme : Nvme fifo_device := {
  nvme_submit c d := ((nvme_submit c (proj1_sig d)).1, (nvme_submit c (proj1_sig d)).2 ↾ fifo_submit_nodup c _ (proj2_sig d));
  nvme_process_completions d :=
    ((nvme_process_completions (proj1_sig d)).1, (nvme_process_completions (proj1_sig d)).2 ↾ fifo_poll_nodup _ (proj2_sig d))
}.

#[export] Program Instance fifo_device_laws : NvmeLaws fifo_device := {
  nvme_flight d := list_to_set (proj1_sig d).*1
}.
Next Obligation.
  intros c [d Hd] d' [= E <-]. cbn in *. destruct (bool_decide _ || _); [done|]. cbn. rewrite fmap_app. cbn. set_solver.
Qed.
Next Obligation.
  intros c [d Hd] r d' [= <- <-] Hr. cbn in *. destruct (bool_decide _ || _); [done|]. by destruct Hr.
Qed.
Next Obligation.
  intros [d Hd] r l d' [= E <-]. cbn in *. pose proof Hd as Hnd%bool_decide_eq_true. destruct d as [|c d]; cbn in *.
  - injection E as <- <-. cbn. split_and!; [constructor|set_solver|set_solver].
  - injection E as <- <-. cbn. apply NoDup_cons in Hnd as [Hc Hnd]. split_and!; [apply NoDup_singleton|set_solver|].
    apply set_eq. intros a. rewrite elem_of_difference, elem_of_union, !elem_of_list_to_set. set_solver.
Qed.

Definition ex_spdk : SPDK_queue_pair := {| spq_qid_ := wit_qid; spq_priv_qp_ := 12288; spq_sector_size_ := 512 |}.
Definition ex_args (rq : Z) : io_args :=
  if decide (rq = 8192) then {| ia_op := 0; ia_buf := 65536; ia_size := 1024; ia_sector := 8 |}
  else {| ia_op := 1; ia_buf := 131072; ia_size := 512; ia_sector := 77 |}.
Definition ex_spdk_filled : outcome unit :=
  (_ ← io_request_Init 8192 kWrite 65536 1024 8; io_request_Init 8256 kRead 131072 512 77)
    (zero_region 4096 32 ∪ (zero_region 4160 32 ∪ (zero_region 8192 56 ∪ zero_region 8256 56))).
Definition ex_spdk_mem : mem := match ex_spdk_filled with Ret _ m => m | _ => ∅ end.
Definition ex_no_commands : fifo_device := [] ↾ eq_refl.
Definition ex_spdk_ops : list spdk_op := [SEnqueue 8192; SEnqueue 8256; SIsComplete 1; SIsComplete 0; SIsComplete 1].

Lemma ex_spdk_layout :
  spdk_layout {[spq_priv_qp_ ex_spdk := queue_pair_at 4096 4096 4160]} 1 ex_spdk (queue_pair_at 4096 4096 4160) 2 7 wit_objs ex_args.
Proof.
  assert (∀ rq, rq ∈ wit_objs → rq = 8192 ∨ rq = 8256) as Hobjs by (unfold wit_objs; set_solver).
  split; [apply lookup_singleton_eq|cbn; lia|done|done|unfold outside; cbn; lia| |lia|cbn; lia| | |].
  - intros rq Hrq. unfold near. apply Hobjs in Hrq as [-> | ->]; cbn; lia.
  - intros rq Hrq. unfold io_args_ok. apply Hobjs in Hrq as [-> | ->]; by vm_compute.
  - intros rq Hrq a Ha. unfold sq_bytes, cq_bytes, lrq_span, rm_span, span. autounfold with layout. cbn.
    apply Hobjs in Hrq as [-> | ->]; lia.
  - intros r1 r2 H1 H2 Hne. unfold outside. apply Hobjs in H1 as [-> | ->], H2 as [-> | ->]; lia.
Qed.

Lemma ex_spdk_reqs rq : rq ∈ wit_objs → io_rep ex_args rq ex_spdk_mem.
Proof.
  intros Hrq. assert (rq = 8192 ∨ rq = 8256) as [-> | ->] by (unfold wit_objs in Hrq; set_solver).
  - split; [apply (validb_valid _ 8192 56)|..]; vm_compute; reflexivity.
  - split; [apply (validb_valid _ 8256 56)|..]; vm_compute; reflexivity.
Qed.

(** The second command fails on the device; the client gets the code of
    success. *)
Lemma spdk_queue_correct_witness :
  wp (qp ← new_priv_qp (queue_pair_at 0 0 0) wit_qid 4096 2 4096 4160;
      spdk_run {[spq_priv_qp_ ex_spdk := qp]} 1 ex_spdk ex_spdk_ops ex_no_commands)
     (λ o _, o.1 = [RToken 0 true; RToken 1 true; RGot None; RGot (Some (8192, 0)); RGot (Some (8256, 0))]) ex_spdk_mem.
Proof.
  apply (spdk_queue_correct (queue_pair_at 0 0 0) wit_qid 4096 2 4096 4160 wit_objs ex_args 1 ex_spdk).
  - apply (validb_valid _ 4096 32). vm_compute. reflexivity.
  - apply (validb_valid _ 4160 32). vm_compute. reflexivity.
  - lia.
  - done.
  - exact ex_spdk_layout.
  - exact ex_spdk_reqs.
  - reflexivity.
  - vm_compute. reflexivity.
Defined.

(** ** Limits *)

(** At depth 1 the completion map has six buckets: with seven requests at the
    device the first and the last share one, and the poll for the last token
    takes the completion of the first, although the device has not called back
    for the last. *)
Lemma poll_returns_other_request :
  let rqs := (λ i, 8192 + 64 * Z.of_nat i) <$> seq 0 7 in
  wp (qp ← new_priv_qp (queue_pair_at 0 0 0) wit_qid 4096 1 4096 4160;
      spdk_run {[spq_priv_qp_ ex_spdk := qp]} 1 ex_spdk ((SEnqueue <$> rqs) ++ [SIsComplete 6]) ([] : list (Z * bool)))
     (λ o _, o.1 = ((λ i, RToken (Z.of_nat i) true) <$> seq 0 7) ++ [RGot (Some (8192, LABSTOR_REQUEST_SUCCESS))] ∧
             rqs !! 6%nat = Some 8576)
     (zero_region 4096 28 ∪ (zero_region 4160 28 ∪ zero_region 8192 448)).
Proof. vm_compute. split; reflexivity. Qed.

(** The callback does the same for a failed command. *)
Lemma io_error_ignored heap fuel arg : _IOComplete heap fuel arg true = _IOComplete heap fuel arg false.
Proof. done. Qed.

(** Commands that were called back complete with success, failed or not. *)
Lemma io_error_completes heap fuel q qp qid cap n objs args st m rq id :
  spdk_layout heap fuel q qp cap n objs args → priv_rel qp qid cap n objs st m → io_state q objs args st m →
  pa_flight st !! rq = Some id →
  wp (_IOComplete heap fuel rq true) (λ _ m', read 4 (rq + rq_code_) m' = LABSTOR_REQUEST_SUCCESS) m.
Proof.
  intros Hlay Hqp Hio Hid. eapply wp_mono; [by eapply io_complete_spec|]. intros [] m' [_ Hio'].
  apply (is_done _ _ _ _ _ Hio' id rq). unfold called_back. rewrite Hid. apply lookup_insert_eq.
Qed.
