(* ===== verification/ClientConnect.v ===== *)
(** * ClientConnect.v: a client connects to the server

    [IPCManager::Connect] of src/userspace/client/ipc_manager.cpp: the socket
    and its errors, the reply of the server, the mapping of the regions, the
    allocators (IpcManager.v), the namespace (Namespace.v) and the queues.  The
    messages are those of Socket.v. *)

From S2P Require Import Prelude Memory RequestQueue QueuePair Allocators UnorderedMap MapBuckets Namespace QueuePool Socket IpcManager ServerThreads.

Local Open Scope Z_scope.

Definition UNIX_CONNECT_FAILED : Z := 202.

(** What the system calls return. *)
Record client_calls := {
  cc_getpid : Z;
  cc_socket : Z;
  cc_bind : Z → Z;
  cc_connect : Z → Z
}.

(** The IPC manager of the client, its namespace, and the descriptors that are
    open. *)
Record ClientState := {
  cl_ipc : ClientIPC;
  cl_n_cpu_ : Z;
  cl_serversock_ : option Z;
  cl_is_connected_ : bool;
  cl_namespace : option (Namespace * labstor_shmem_allocator);
  cl_open : gset Z
}.

Definition with_pid (pid : Z) (c : ClientIPC) : ClientIPC :=
  {| ci_pid_ := pid; ci_pool := ci_pool c; ci_mem := ci_mem c; ci_heap := ci_heap c |}.

(** The descriptor, or the exception; it is closed before the exception. *)
Definition open_server_socket (sc : client_calls) (open : gset Z) : gset Z * (Z + Z) :=
  let serverfd := cc_socket sc in
  if serverfd =? -1 then (open, inl UNIX_SOCKET_FAILED)
  else
    let open := {[serverfd]} ∪ open in
    if cc_bind sc serverfd =? -1 then (open ∖ {[serverfd]}, inl UNIX_BIND_FAILED)
    else if cc_connect sc serverfd =? -1 then (open ∖ {[serverfd]}, inl UNIX_CONNECT_FAILED)
    else (open, inr serverfd).

Section connect.
(** The allocation of objects and the memory before the arrays of pools are
    filled (IpcManager.v); the messages over the socket; [MapShmem] and
    [malloc]. *)
Context (new : gmap Z labstor_queue_pair → Z) (fresh : labstor_private_shmem_allocator) (nprocs tid : Z).
Context (receive_reply : M setup_reply) (exchange : list labstor_queue_pair_ptr → M unit).
Context (MapShmem : Z → Z → Z) (malloc : Z → Z).

(** From the reply on; the results of [MapShmem] and [malloc] are not
    looked at. *)
Definition Connect_setup (c : ClientIPC) (n_cpu : Z) : M (ClientIPC * (Namespace * labstor_shmem_allocator)) :=
  reply ← receive_reply;
  let region := MapShmem (sr_region_id_ reply) (sr_region_size_ reply) in
  ns ← Client_Namespace_Attach (MapShmem (sr_namespace_region_id_ reply) (sr_namespace_region_size_ reply));
  c ← Connect_memory nprocs fresh c n_cpu reply region (malloc (sr_region_size_ reply));
  '(c, ptrs) ← CreateQueuesSHMEM new c (sr_num_queues_ reply) (sr_queue_depth_ reply);
  _ ← exchange ptrs;
  c ← Client_CreatePrivateQueues new tid c n_cpu (sr_queue_depth_ reply);
  mret (c, ns).

(** The exception of the socket with the state it leaves; the exceptions behind
    it are those of the calls. *)
Definition Connect (sc : client_calls) (st : ClientState) : M (ClientState * option Z) :=
  if cl_is_connected_ st then mret (st, None)
  else
    let c := with_pid (cc_getpid sc) (cl_ipc st) in
    match open_server_socket sc (cl_open st) with
    | (open, inl e) =>
        mret ({| cl_ipc := c; cl_n_cpu_ := cl_n_cpu_ st; cl_serversock_ := cl_serversock_ st; cl_is_connected_ := false;
                 cl_namespace := cl_namespace st; cl_open := open |}, Some e)
    | (open, inr serverfd) =>
        '(c, ns) ← Connect_setup c (cl_n_cpu_ st);
        mret ({| cl_ipc := c; cl_n_cpu_ := cl_n_cpu_ st; cl_serversock_ := Some serverfd; cl_is_connected_ := true;
                 cl_namespace := Some ns; cl_open := open |}, None)
    end.
End connect.

(** ** What it leaves behind *)

(** A failed system call: its exception, and no descriptor that was not open
    before. *)
Lemma open_server_socket_spec sc open :
  cc_socket sc ∉ open →
  open_server_socket sc open =
    if decide (cc_socket sc = -1) then (open, inl UNIX_SOCKET_FAILED)
    else if decide (cc_bind sc (cc_socket sc) = -1) then (open, inl UNIX_BIND_FAILED)
    else if decide (cc_connect sc (cc_socket sc) = -1) then (open, inl UNIX_CONNECT_FAILED)
    else ({[cc_socket sc]} ∪ open, inr (cc_socket sc)).
Proof.
  intros Hnew. unfold open_server_socket. set (fd := cc_socket sc) in *.
  assert (({[fd]} ∪ open) ∖ {[fd]} = open) as Hback by set_solver.
  destruct (Z.eqb_spec fd (-1)); [by rewrite decide_True|]. rewrite decide_False by done.
  destruct (Z.eqb_spec (cc_bind sc fd) (-1)); [by rewrite decide_True, Hback|]. rewrite decide_False by done.
  destruct (Z.eqb_spec (cc_connect sc fd) (-1)); [by rewrite decide_True, Hback|]. by rewrite decide_False.
Qed.

Section outcome.
Context (new : gmap Z labstor_queue_pair → Z) (fresh : labstor_private_shmem_allocator) (nprocs tid : Z).
Context (receive_reply : M setup_reply) (exchange : list labstor_queue_pair_ptr → M unit).
Context (MapShmem : Z → Z → Z) (malloc : Z → Z).
Abbreviation connect := (Connect new fresh nprocs tid receive_reply exchange MapShmem malloc).
Abbreviation setup := (Connect_setup new fresh nprocs tid receive_reply exchange MapShmem malloc).

(** Connecting again does nothing. *)
Lemma connect_twice sc sc' st st' m m' :
  connect sc st m = Ret (st', None) m' → ∀ m2, connect sc' st' m2 = Ret (st', None) m2.
Proof.
  unfold Connect. intros E m2. assert (cl_is_connected_ st' = true) as ->; [|done].
  destruct (cl_is_connected_ st) eqn:Hc; [unfold mret, M_ret in E; congruence|].
  destruct (open_server_socket sc (cl_open st)) as [open [e|fd]]; [done|].
  unfold mbind, M_bind in E. destruct (setup _ _ m) as [[c ns] m1| | |]; [|done..]. unfold mret, M_ret in E. by injection E as <- <-.
Qed.

(** The outcome of a first attempt. *)
Theorem connect_outcome sc st m :
  cl_is_connected_ st = false → cc_socket sc ∉ cl_open st →
  match open_server_socket sc (cl_open st) with
  | (_, inl e) =>
      ∃ st', connect sc st m = Ret (st', Some e) m ∧ cl_open st' = cl_open st ∧ cl_is_connected_ st' = false ∧
        cl_serversock_ st' = cl_serversock_ st
  | (_, inr fd) =>
      match setup (with_pid (cc_getpid sc) (cl_ipc st)) (cl_n_cpu_ st) m with
      | Ret (c, ns) m' =>
          ∃ st', connect sc st m = Ret (st', None) m' ∧ cl_open st' = {[fd]} ∪ cl_open st ∧ cl_is_connected_ st' = true ∧
            cl_serversock_ st' = Some fd ∧ cl_ipc st' = c ∧ cl_namespace st' = Some ns
      | Throw e m' => connect sc st m = Throw e m'
      | Spin m' => connect sc st m = Spin m'
      | Fault => connect sc st m = Fault
      end
  end.
Proof.
  intros Hc Hnew. unfold Connect. rewrite Hc, (open_server_socket_spec sc _ Hnew).
  destruct (decide _); [by eexists|]. destruct (decide _); [by eexists|]. destruct (decide _); [by eexists|].
  unfold mbind, M_bind. destruct (setup _ _ m) as [[c ns] m1| | |]; [by eexists|done..].
Qed.

(** The mapping of the region is not tested: with a null pointer the allocator
    is laid out at address 0. *)
Lemma connect_unmapped_faults c n_cpu reply m m1 ns m2 :
  receive_reply m = Ret reply m1 →
  Client_Namespace_Attach (MapShmem (sr_namespace_region_id_ reply) (sr_namespace_region_size_ reply)) m1 = Ret ns m2 →
  MapShmem (sr_region_id_ reply) (sr_region_size_ reply) = NULL → 0 < sr_request_region_size_ reply → m2 !! NULL = None →
  setup c n_cpu m = Fault.
Proof.
  intros E1 E2 Hnull Hsize Hm. unfold Connect_setup. rewrite (run_bind _ _ _ _ _ E1), (run_bind _ _ _ _ _ E2), Hnull.
  unfold Connect_memory, labstor_shmem_allocator_Init.
  assert (memset NULL 0 (Z.to_nat (sr_request_region_size_ reply)) m2 = Fault) as E.
  { destruct (Z.to_nat (sr_request_region_size_ reply)) as [|n] eqn:En; [lia|]. cbn [memset].
    unfold mbind, M_bind, store. destruct (validb m2 NULL 1) eqn:Ev; [|done]. apply validb_valid in Ev.
    destruct (Ev NULL) as [b Hb]; [lia|]. by rewrite Hm in Hb. }
  unfold mbind, M_bind. by rewrite E.
Qed.
End outcome.
